(* ===== verification/_CoqProject ===== *)
-Q . S2P
Prelude.v
F64.v
ReuseList.v
Path.v
StdPath.v
Utf8.v
JsonEscape.v
StableSort.v
Js.v
RustStr.v
Headers.v
Utf16.v
Rfc4648.v
Encoding.v
StringDecoder.v
Timers.v
Events.v
JsonStringify.v
JsonParse.v
LossyString.v
SearchParams.v
FormUrlencoded.v
Buffer.v
Package.v
WritableStream.v
WritableInvariant.v
TextDecoder.v
TextEncoder.v
Numbers.v
StructuredClone.v
CloneCorrect.v
ReadableStream.v
ReadableInvariant.v
Blob.v
FormData.v
ByteStream.v
ByteCore.v
ByteInvariant.v
ByteReads.v
ByteCorrect.v
Logging.v
Console.v
CryptoKeys.v
CryptoImport.v
CryptoOps.v
CryptoExport.v
CryptoCorrect.v
CryptoSupports.v
