(* ===== verification/Prelude.v ===== *)
(** * A verification library for LLRT

    LLRT is a JavaScript runtime: a Rust process that embeds the QuickJS
    engine and provides the modules and globals a program expects of Node.js
    and of the web platform.  The engine, the operating system and third-party
    crates do part of the work; the library models LLRT's own logic between
    them, as executable definitions translated from the Rust sources, and
    proves what makes each part correct.

    ** Parts, files and sources

    - [Prelude], [F64], [RustStr], [Utf8], [Utf16], [StableSort], [Js]: what the
      sources use of Rust's standard library (byte strings, [usize]
      subtraction, [f64], [str] and [char] functions, [slice::sort_by]) and of the
      bindings (exceptions, JavaScript values); the tactics and the hint
      database [llrt].
    - [ReuseList] - src/libs/llrt_utils/src/reuse_list.rs: a list that reuses
      freed slots.  It refines a finite map for every sequence of calls.
    - [Path] - src/modules/llrt_path/src/lib.rs: the path module of the Unix
      build; [Path.Windows] has the byte functions of the Windows build.  The
      join and resolve loop refines an abstract path (an anchor and a stack of
      segments).
    - [JsonEscape], [JsonStringify], [JsonParse] - src/libs/llrt_json/src/: the
      64-bit-at-a-time string escaper, equal to a byte-by-byte reference; the
      serializer, whose text is that of a reference printer on finite values,
      which ends on every finite heap and throws on cycles; the decoding of
      the parser's tape, in which a member __proto__ is an assignment.
    - [Headers] - src/modules/llrt_fetch/src/headers.rs and
      src/libs/llrt_utils/src/class.rs: the header list of fetch, its guards,
      normalization, construction and iteration.
    - [Encoding], [Rfc4648] - src/libs/llrt_encoding/src/lib.rs: text encodings;
      the codec crates are the class [Codecs], of which [CodecLaws] says that
      they compute the reference definitions of [Rfc4648].
    - [StringDecoder] - src/modules/llrt_string_decoder/src/string_decoder.rs:
      decoding of a stream of chunks.
    - [LossyString] - src/libs/llrt_utils/src/bytes.rs: engine strings and
      arbitrary bytes made into well-formed text.
    - [SearchParams], [FormUrlencoded] - src/modules/llrt_url/src/: the query
      parameters of a URL; the crate url is the class [UrlOps] with laws
      [UrlLaws], of which [FormUrlencoded] is an instance.
    - [Buffer] - src/modules/llrt_buffer/src/buffer.rs: views over shared array
      buffers, their reads and writes, with the properties that a program adds
      to a view, which the bounds checks of the writes count.
    - [StdPath], [Package] - src/llrt_modules/src/package/resolver.rs: the
      resolution of module names, with the process-wide cache of directories
      as an argument and the operating system as a record of functions.
    - [WritableStream], [WritableInvariant] - src/modules/llrt_stream_web/src/:
      writable streams, their default controller and writers, as a step
      relation over calls, promise jobs and the sink's answers; the invariant
      of the reachable states.
    - [ReadableStream], [ReadableInvariant] - src/modules/llrt_stream_web/src/:
      readable streams with their default controller and default readers, whose
      source calls the stream while it is pulled.
    - [ByteStream], [ByteCore], [ByteInvariant], [ByteReads], [ByteCorrect] -
      byte_controller.rs and byob_reader.rs of the same directory: readable byte
      streams over a store of array buffers that the program shares, writes to
      and transfers, with reads into views of the program; what each operation
      does to the memory, and the theorems on every sequence of actions.
    - [Logging], [Console] - src/libs/llrt_logging/src/lib.rs,
      src/llrt_core/src/modules/console.rs and src/modules/llrt_console/src/lib.rs:
      what the console prints for format strings and values, in color or not,
      lines and JSON records of a Lambda function, counters and timers.
    - [CryptoKeys], [CryptoImport], [CryptoOps], [CryptoExport], [CryptoCorrect],
      [CryptoSupports] - src/modules/llrt_crypto/src/subtle/: the keys of the Web
      Crypto API with their usages, their import, generation, export and wrapping,
      the operations that use them, digests, and what is said to be supported.
      The crypto provider is the class [Provider]: the safety theorems hold for
      every provider.
    - [TextDecoder], [TextEncoder] - src/modules/llrt_util/src/ and
      src/libs/llrt_utils/src/bytes.rs: the text decoder and encoder and the
      callbacks of their stream classes.
    - [Numbers] - src/libs/llrt_numbers/src/lib.rs: numbers as text in a radix.
    - [StructuredClone], [CloneCorrect] - src/llrt_core/src/clone.rs: the walk of
      an object graph with its stack and tape, and the assembly of the copy.
    - [Blob] - src/modules/llrt_buffer/src/blob.rs and file.rs: blobs from their
      parts and their slices.
    - [FormData] - src/modules/llrt_fetch/src/form_data.rs: the entries of a form
      and the multipart bodies that carry them.
    - [Timers] - src/modules/llrt_timers/src/lib.rs: the timer list of a runtime
      and the task that polls it, as a reachability relation over the calls of
      programs, time and the task's turns.
    - [Events] - src/modules/llrt_events/src/: event lists shared through
      objects and the methods of emitters.

    ** How the parts interact

    The string decoder and buffers call the encodings; search parameters and
    the JSON serializer build on the lossy strings and the escaper; callbacks
    (timers, listeners, replacers, getters) are functions on the whole state
    of the component that calls them, so that they may call it again; the
    source of a readable stream is a function of what happened so far.  The
    text decoder and the lossy strings share the UTF-8 and UTF-16 functions;
    both kinds of streams share the arithmetic of [F64].

    ** Conventions

    Bytes and code units are [Z]; a string is the list of its UTF-8 bytes;
    lengths and indices are [nat] where the code cannot overflow them (each
    file says so) and [Z] with [wrap] where the width matters.  Exceptions are
    [Err] of [result]; a panic of the Rust code is [None].  What is not under
    src/ is a section variable or a class; its laws are hypotheses with an
    instance that shows they can hold.  The comment of a theorem states the
    conditions under which it holds.

    ** Fuel

    Loops that are not structural take fuel, and the theorems say how much is
    enough: the length of the part for the path loop, eight for the set bits
    of a mask, the number of bytes for the decoders and scanners, the number
    of header characters for normalization, the length of a tape for the JSON
    parser, the nesting depth of a value (at most 20 plus the number of
    objects, cycles included) for the JSON serializer, a measure of the queue
    and of the waiting callbacks for a writable stream, a bound on the turns
    of the structured clone from the number of objects and their children,
    the pending views or the queued chunks and two for the loops of a byte
    stream, five levels and the length of a chain of promises for each of them
    for the console.

    ** Properties

    The theorems marked C1, C2, ... are the claims of the library; each names
    the behaviour it states.  Refinement of an abstract state: lists, paths,
    header and parameter lists (against an independent specification of each
    operation), serialized trees, copied object graphs.  Round
    trips: escaping, encodings, paths, parameters, numbers as text and in
    buffers, secret keys exported and wrapped.  Safety: keys do what their usages
    allow and leave only when they may.  Invariants by induction
    over reachable states: headers, timers, event lists, streams.  Liveness:
    every request of a writable stream is settled, and a read waits only for
    what can still come.  Order: the bytes of a byte stream are read as they
    were accepted, whichever way they go.
    Equivalence: text decoded and encoded in chunks, and what is printed with
    and without colors.  Bounds: writes stay inside their view or
    panic.  Termination: the
    serializer and the console on cyclic heaps.  Examples that evaluate the
    definitions show the places where the code does what its
    documentation or its standard does not say.

    ** Not modelled

    The engine and the bindings; sockets, files, processes and the network
    protocols; the providers of cryptography, compression, Intl and Temporal,
    which call other crates; the command line.  Not yet modelled, though they are logic of this
    repository: module loaders, transform streams, tee and pipes, the XML
    tree. *)
From stdpp Require Import base list numbers strings gmap.
From Stdlib Require Import ZArith Lia.

(** ** Bytes and strings

    A Rust [u8] is a [Z] between 0 and 255; [String], [&str] and [&[u8]] are
    lists of bytes (the UTF-8 encoding of the text).  [str] turns a Rocq
    string literal into that representation, so that the constants of the
    source keep their spelling. *)
Abbreviation byte := Z (only parsing).
Abbreviation bytes := (list Z) (only parsing).

Definition byte_ok (b : Z) : Prop := (0 <= b < 256)%Z.

Fixpoint str (s : string) : bytes :=
  match s with
  | EmptyString => []
  | String a s' => Z.of_N (Ascii.N_of_ascii a) :: str s'
  end.
Arguments str s%_string_scope.

(** ** Machine integers *)

(** [usize] subtraction; [None] is the overflow panic. *)
Definition usize_sub (a b : nat) : option nat :=
  if (b <=? a)%nat then Some (a - b) else None.

(** Wrap-around of a value at an unsigned width. *)
Definition wrap (w : Z) (z : Z) : Z := (z mod 2 ^ w)%Z.

Lemma usize_sub_Some (a b : nat) : (b <= a)%nat -> usize_sub a b = Some (a - b).
Proof. intros H. unfold usize_sub. by rewrite (proj2 (Nat.leb_le b a)). Qed.

Lemma usize_sub_None (a b : nat) : (a < b)%nat -> usize_sub a b = None.
Proof. intros H. unfold usize_sub. by rewrite (proj2 (Nat.leb_gt b a)). Qed.

(** ** Error results *)

Inductive result (E A : Type) : Type :=
| Ok (val : A)
| Err (err : E).
Arguments Ok {E A} val.
Arguments Err {E A} err.

#[export] Instance result_eq_dec {E A} `{EqDecision E, EqDecision A} :
  EqDecision (result E A).
Proof. solve_decision. Defined.

Definition result_bind {E A B} (r : result E A) (k : A -> result E B) : result E B :=
  match r with
  | Ok v => k v
  | Err e => Err e
  end.

Declare Scope llrt_scope.
Delimit Scope llrt_scope with llrt.

Notation "'let?' x ':=' r 'in' k" := (result_bind r (fun x => k))
  (at level 10, x pattern, r at level 100, k at level 200,
   format "'[v' 'let?'  x  ':='  r  'in' '/' k ']'") : llrt_scope.
Notation "'let!' x ':=' o 'in' k" :=
  (match o with Some x => k | None => None end)
  (at level 10, x pattern, o at level 100, k at level 200,
   format "'[v' 'let!'  x  ':='  o  'in' '/' k ']'") : llrt_scope.
Open Scope llrt_scope.

(** ** Automation *)

Create HintDb llrt discriminated.

(** Case analysis on every test of the goal, closing the impossible cases. *)
Ltac case_tests :=
  repeat first
    [ case_decide
    | match goal with
      | |- context [if ?b then _ else _] => destruct b eqn:?
      end
    ]; try done.

(** Turn the boolean comparisons of the context into propositions. *)
Ltac bool_to_prop :=
  repeat match goal with
  | H : (_ && _) = true |- _ => apply andb_prop in H as [? ?]
  | H : (_ <=? _)%nat = true |- _ => apply Nat.leb_le in H
  | H : (_ <=? _)%nat = false |- _ => apply Nat.leb_gt in H
  | H : (_ <? _)%nat = true |- _ => apply Nat.ltb_lt in H
  | H : (_ <? _)%nat = false |- _ => apply Nat.ltb_ge in H
  | H : (_ =? _)%nat = true |- _ => apply Nat.eqb_eq in H
  | H : (_ =? _)%nat = false |- _ => apply Nat.eqb_neq in H
  | H : (_ <=? _)%Z = true |- _ => apply Z.leb_le in H
  | H : (_ <=? _)%Z = false |- _ => apply Z.leb_gt in H
  | H : (_ <? _)%Z = true |- _ => apply Z.ltb_lt in H
  | H : (_ <? _)%Z = false |- _ => apply Z.ltb_ge in H
  | H : (_ =? _)%Z = true |- _ => apply Z.eqb_eq in H
  | H : (_ =? _)%Z = false |- _ => apply Z.eqb_neq in H
  end.

(** ** Searching and splitting byte strings *)

(** [s.find(c)]: index of the first [c]. *)
Fixpoint find_byte (c : Z) (s : list Z) : option nat :=
  match s with
  | [] => None
  | x :: s' => if (x =? c)%Z then Some 0 else S <$> find_byte c s'
  end.

(** [s.rfind(c)]: index of the last [c]. *)
Fixpoint rfind_byte (c : Z) (s : list Z) : option nat :=
  match s with
  | [] => None
  | x :: s' =>
      match rfind_byte c s' with
      | Some i => Some (S i)
      | None => if (x =? c)%Z then Some 0 else None
      end
  end.

(** [s.split(c)]. *)
Fixpoint split_on (c : Z) (s : list Z) : list (list Z) :=
  match s with
  | [] => [[]]
  | x :: s' =>
      if (x =? c)%Z then [] :: split_on c s'
      else match split_on c s' with
           | [] => [[x]]
           | h :: t => (x :: h) :: t
           end
  end.

(** [parts.join(sep)]. *)
Fixpoint join_with (sep : list Z) (parts : list (list Z)) : list Z :=
  match parts with
  | [] => []
  | [p] => p
  | p :: ps => p ++ sep ++ join_with sep ps
  end.

Definition starts_with (p s : list Z) : bool := bool_decide (p `prefix_of` s).
Definition ends_with_byte (c : Z) (s : list Z) : bool := bool_decide (last s = Some c).

Lemma find_byte_Some c s i :
  find_byte c s = Some i ->
  s !! i = Some c /\ c ∉ take i s.
Proof.
  revert i. induction s as [|x s IH]; intros i; simpl; [done|].
  destruct (Z.eqb_spec x c) as [->|Hne].
  - intros [= <-]. simpl. split; [done|apply not_elem_of_nil].
  - destruct (find_byte c s) as [j|] eqn:E; simpl; [|done]. intros [= <-].
    destruct (IH j eq_refl) as [Hj Hn]. simpl. split; [done|].
    rewrite elem_of_cons. naive_solver.
Qed.

Lemma find_byte_None c s : find_byte c s = None <-> c ∉ s.
Proof.
  induction s as [|x s IH]; simpl; [split; [intros _; apply not_elem_of_nil|done]|].
  rewrite elem_of_cons. destruct (Z.eqb_spec x c) as [->|Hne]; [naive_solver|].
  rewrite fmap_None, IH. naive_solver.
Qed.

Lemma find_byte_app c p s : c ∉ p -> find_byte c (p ++ c :: s) = Some (length p).
Proof.
  intros Hn. induction p as [|x p IH]; simpl; [by rewrite Z.eqb_refl|].
  apply not_elem_of_cons in Hn as [Hx Hn]. rewrite (proj2 (Z.eqb_neq x c)) by congruence.
  by rewrite IH.
Qed.

Lemma find_byte_lt c s i : find_byte c s = Some i -> i < length s.
Proof. intros [H _]%find_byte_Some. by eapply lookup_lt_Some. Qed.

Lemma rfind_byte_None c s : rfind_byte c s = None <-> c ∉ s.
Proof.
  induction s as [|x s IH]; simpl; [split; [intros _; apply not_elem_of_nil|done]|].
  rewrite elem_of_cons. destruct (rfind_byte c s) as [i|].
  - assert (c ∈ s) by (destruct (decide (c ∈ s)); [done|]; by apply IH in n). naive_solver.
  - destruct (Z.eqb_spec x c); naive_solver.
Qed.

Lemma rfind_byte_app c s t : c ∉ t -> rfind_byte c (s ++ c :: t) = Some (length s).
Proof.
  intros Hn. induction s as [|x s IH]; simpl.
  - rewrite (proj2 (rfind_byte_None c t) Hn). by rewrite Z.eqb_refl.
  - by rewrite IH.
Qed.

Lemma rfind_byte_lt c s i : rfind_byte c s = Some i -> i < length s.
Proof.
  revert i. induction s as [|x s IH]; intros i; simpl; [done|].
  destruct (rfind_byte c s) as [j|]; [intros [= <-]; specialize (IH j eq_refl); lia|].
  destruct (x =? c)%Z; [intros [= <-]; lia|done].
Qed.

Lemma split_on_nonempty c s : split_on c s <> [].
Proof. destruct s; simpl; [done|]. case_tests. by destruct (split_on c s). Qed.

Lemma split_on_find c s :
  split_on c s =
  match find_byte c s with
  | Some i => take i s :: split_on c (drop (S i) s)
  | None => [s]
  end.
Proof.
  induction s as [|x s IH]; simpl; [done|].
  destruct (x =? c)%Z; [done|]. rewrite IH.
  by destruct (find_byte c s).
Qed.

Lemma split_on_not_in c s p : p ∈ split_on c s -> c ∉ p.
Proof.
  revert p. induction s as [|x s IH]; simpl; intros p.
  - rewrite list_elem_of_singleton. intros ->. apply not_elem_of_nil.
  - destruct (Z.eqb_spec x c) as [->|Hne].
    + rewrite elem_of_cons. intros [->|?]; [apply not_elem_of_nil|by apply IH].
    + destruct (split_on c s) as [|h t]; rewrite elem_of_cons.
      * rewrite elem_of_nil. intros [->|[]]. rewrite list_elem_of_singleton. congruence.
      * intros [->|?].
        -- rewrite elem_of_cons. intros [->|?]; [done|]. eapply IH; [left|done].
        -- apply IH. by right.
Qed.

Lemma split_on_app c p s : c ∉ p -> split_on c (p ++ c :: s) = p :: split_on c s.
Proof.
  intros Hn. induction p as [|x p IH]; simpl.
  - by rewrite Z.eqb_refl.
  - apply not_elem_of_cons in Hn as [Hx Hn]. rewrite (proj2 (Z.eqb_neq x c)) by congruence.
    by rewrite IH.
Qed.

Lemma split_on_none c s : c ∉ s -> split_on c s = [s].
Proof. intros H. rewrite split_on_find. by rewrite (proj2 (find_byte_None c s) H). Qed.

(** Splitting undoes joining with a one-byte separator. *)
Lemma split_on_join c ps :
  ps <> [] -> (forall p, p ∈ ps -> c ∉ p) -> split_on c (join_with [c] ps) = ps.
Proof.
  induction ps as [|p ps IH]; intros Hne Hin; [done|]. destruct ps as [|q ps].
  - apply split_on_none, Hin. by left.
  - change (join_with [c] (p :: q :: ps)) with (p ++ c :: join_with [c] (q :: ps)).
    rewrite split_on_app by (apply Hin; by left). rewrite IH; [done..|].
    intros r Hr. apply Hin. by right.
Qed.

Lemma join_split_on c s : join_with [c] (split_on c s) = s.
Proof.
  induction s as [|x s IH]; simpl; [done|].
  destruct (Z.eqb_spec x c) as [->|Hne].
  - destruct (split_on c s) as [|h t] eqn:E; [by apply split_on_nonempty in E|].
    simpl in *. by rewrite <- IH.
  - destruct (split_on c s) as [|h t] eqn:E; [by apply split_on_nonempty in E|].
    destruct t; simpl in *; by rewrite <- IH.
Qed.

Lemma join_with_cons sep p ps :
  ps <> [] -> join_with sep (p :: ps) = p ++ sep ++ join_with sep ps.
Proof. by destruct ps. Qed.

Lemma join_with_snoc sep ps p :
  ps <> [] -> join_with sep (ps ++ [p]) = join_with sep ps ++ sep ++ p.
Proof.
  intros Hne. induction ps as [|q ps IH]; [done|]. clear Hne. destruct ps as [|r ps]; [done|].
  rewrite <- app_comm_cons, join_with_cons by (simpl; congruence).
  rewrite IH, (join_with_cons sep q (r :: ps)) by congruence. by rewrite <- !(assoc_L (++)).
Qed.

Lemma ends_with_byte_snoc c s x : ends_with_byte c (s ++ [x]) = (x =? c)%Z.
Proof.
  unfold ends_with_byte. rewrite last_snoc.
  case_bool_decide as H; [simplify_eq; by rewrite Z.eqb_refl|].
  symmetry. apply Z.eqb_neq. congruence.
Qed.

Lemma ends_with_byte_nil c : ends_with_byte c [] = false.
Proof. done. Qed.

(** A property of a small range, by evaluation. *)
Lemma check_range (f : Z -> bool) (n : Z) :
  forallb f (seqZ 0 n) = true -> forall i, (0 <= i < n)%Z -> f i = true.
Proof.
  intros H i Hi. apply (proj1 (forallb_forall f _) H), list_elem_of_In, elem_of_seqZ. lia.
Qed.


(** Filtering by what all elements satisfy. *)
Lemma filter_all {A} (P : A -> Prop) `{forall x, Decision (P x)} (l : list A) :
  Forall P l -> filter P l = l.
Proof. induction 1; [done|]. rewrite filter_cons_True by done. by f_equal. Qed.

Lemma Forall_incl {A} (P : A -> Prop) (l l' : list A) :
  Forall P l -> (forall x, x ∈ l' -> x ∈ l) -> Forall P l'.
Proof. rewrite !Forall_forall. auto. Qed.

Lemma split_on_concat c a b : split_on c (a ++ c :: b) = split_on c a ++ split_on c b.
Proof.
  induction a as [|x a IH]; cbn [app split_on]; [by rewrite Z.eqb_refl|].
  rewrite IH. destruct (x =? c)%Z; [done|].
  destruct (split_on c a) eqn:E; [by apply split_on_nonempty in E|done].
Qed.
