(* ===== verification/F64.v ===== *)
(** * Rust's f64

    IEEE 754 binary64 numbers as the specification floats of the Standard
    Library, with the operations, casts and bit patterns the components use. *)
From Stdlib Require Import ZArith Lia SpecFloat.
From stdpp Require Import base numbers.
From S2P Require Import Prelude.
Local Open Scope Z_scope.

Abbreviation f64 := spec_float.

Definition zero : f64 := S754_zero false.
Definition one : f64 := S754_finite false 4503599627370496 (-52).
Definition half : f64 := S754_finite false 4503599627370496 (-53).

Definition f64_add (a b : f64) : f64 := SFadd 53 1024 a b.
Definition f64_sub (a b : f64) : f64 := SFsub 53 1024 a b.
Definition f64_mul (a b : f64) : f64 := SFmul 53 1024 a b.
Definition f64_neg (a : f64) : f64 := SFopp a.
Definition is_nan (a : f64) : bool := match a with S754_nan => true | _ => false end.
Definition is_infinite (a : f64) : bool := match a with S754_infinity _ => true | _ => false end.

(** [z as f64]. *)
Definition of_Z (z : Z) : f64 := binary_normalize 53 1024 z 0 false.

(** The integer part of a finite number. *)
Definition integer_part (a : f64) : Z :=
  match a with
  | S754_finite s m e =>
      let n := if 0 <=? e then Zpos m * 2 ^ e else Zpos m / 2 ^ (- e) in
      if s then - n else n
  | _ => 0
  end.

(** [a.trunc()]; a number without a fraction is itself. *)
Definition trunc (a : f64) : f64 :=
  match a with
  | S754_finite s m e =>
      if (0 <=? e) || (Zpos m mod 2 ^ (- e) =? 0) then a
      else let t := of_Z (Zpos m / 2 ^ (- e)) in if s then f64_neg t else t
  | _ => a
  end.

(** [a as i64] and [a as usize] saturate, and NaN becomes 0. *)
Definition clamp (lo hi z : Z) : Z := Z.max lo (Z.min hi z).
Definition saturate (lo hi : Z) (a : f64) : Z :=
  match a with
  | S754_nan => 0
  | S754_infinity s => if s then lo else hi
  | _ => clamp lo hi (integer_part a)
  end.
Definition as_i64 (a : f64) : Z := saturate (- 2 ^ 63) (2 ^ 63 - 1) a.
Definition as_usize (a : f64) : Z := saturate 0 (2 ^ 64 - 1) a.

(** [a.to_bits()] and [f64::from_bits]; the bits of a NaN are those of the
    quiet NaN. *)
Definition sign_bit (s : bool) : Z := if s then 2 ^ 63 else 0.
Definition to_bits (a : f64) : Z :=
  match a with
  | S754_zero s => sign_bit s
  | S754_infinity s => sign_bit s + 0x7ff0000000000000
  | S754_nan => 0x7ff8000000000000
  | S754_finite s m e =>
      sign_bit s + (if Zpos m <? 2 ^ 52 then Zpos m else (e + 1075) * 2 ^ 52 + (Zpos m - 2 ^ 52))
  end.
Definition from_bits (bits : Z) : f64 :=
  let s := 2 ^ 63 <=? bits in
  let rest := bits mod 2 ^ 63 in
  let exp := rest / 2 ^ 52 in
  let mant := rest mod 2 ^ 52 in
  if exp =? 0 then match mant with Zpos m => S754_finite s m (-1074) | _ => S754_zero s end
  else if exp =? 2047 then if mant =? 0 then S754_infinity s else S754_nan
  else match mant + 2 ^ 52 with Zpos m => S754_finite s m (exp - 1075) | _ => S754_zero s end.

(** ** Lemmas *)

Lemma sub_self s m e : f64_sub (S754_finite s m e) (S754_finite s m e) = S754_zero false.
Proof. unfold f64_sub, SFsub. by rewrite Z.sub_diag. Qed.
