(* ===== verification/ReuseList.v ===== *)
(** * [ReuseList]: the slot list of src/libs/llrt_utils/src/reuse_list.rs *)
From stdpp Require Import base list numbers gmap.
From Stdlib Require Import Lia.
From S2P Require Import Prelude.

Section ReuseList.
Context {T : Type}.

(** [struct ReuseList<T>]. *)
Record ReuseList := mkReuseList {
  items : list (option T);
  slots : list nat;
  last_slot_idx : nat;
  len_ : nat;
  slot_size : nat;
}.

Definition with_capacity (_capacity : nat) : ReuseList :=
  {| items := []; slots := []; last_slot_idx := 0; len_ := 0; slot_size := 0 |}.

Definition new : ReuseList := with_capacity 0.

(** The method: the field [len] is [len_] here. *)
Definition len (l : ReuseList) : nat := len_ l.

Definition is_empty (l : ReuseList) : bool := (len_ l =? 0)%nat.

(** The end of [append]: push at the end of [items]. *)
Definition push_end (item : T) (l : ReuseList) : nat * ReuseList :=
  (length (items l ++ [Some item]) - 1,
   {| items := items l ++ [Some item]; slots := slots l;
      last_slot_idx := last_slot_idx l; len_ := len_ l + 1;
      slot_size := slot_size l |}).

(** [append]; [None] is an index-out-of-bounds or subtraction panic. *)
Definition append (item : T) (l : ReuseList) : option (nat * ReuseList) :=
  if (0 <? slot_size l)%nat then
    let! k := usize_sub (last_slot_idx l) 1 in
    let! slot := slots l !! k in
    if (0 <? slot)%nat then
      let! _ := items l !! (slot - 1) in
      Some (slot - 1,
        {| items := <[slot - 1 := Some item]> (items l);
           slots := <[k := 0]> (slots l);
           last_slot_idx :=
             if (1 <? last_slot_idx l)%nat then last_slot_idx l - 1
             else last_slot_idx l;
           len_ := len_ l + 1;
           slot_size := slot_size l |})
    else Some (push_end item l)
  else Some (push_end item l).

(** [remove] returns the item taken out, if any. *)
Definition remove (index : nat) (l : ReuseList) : option (option T * ReuseList) :=
  match items l !! index with
  | None => Some (None, l)
  | Some None => Some (None, l)
  | Some (Some item) =>
      let items' := <[index := None]> (items l) in
      let! len_' := usize_sub (len_ l) 1 in
      let pushed :=
        {| items := items'; slots := slots l ++ [index + 1];
           last_slot_idx := last_slot_idx l + 1; len_ := len_';
           slot_size := slot_size l + 1 |} in
      if (0 <? slot_size l)%nat then
        let! k := usize_sub (last_slot_idx l) 1 in
        let! slot := slots l !! k in
        if (slot =? 0)%nat then
          Some (Some item,
            {| items := items'; slots := <[k := index + 1]> (slots l);
               last_slot_idx := last_slot_idx l; len_ := len_';
               slot_size := slot_size l |})
        else Some (Some item, pushed)
      else Some (Some item, pushed)
  end.

Definition get (index : nat) (l : ReuseList) : option T :=
  match items l !! index with
  | None => None
  | Some item => item
  end.

(** [get_mut] hands out a mutable reference; [f] is the write through it. *)
Definition get_mut (index : nat) (f : T -> T) (l : ReuseList) : option T * ReuseList :=
  match items l !! index with
  | Some (Some x) =>
      (Some x,
       {| items := <[index := Some (f x)]> (items l); slots := slots l;
          last_slot_idx := last_slot_idx l; len_ := len_ l; slot_size := slot_size l |})
  | _ => (None, l)
  end.

Definition iter (l : ReuseList) : list T := omap id (items l).

(** [iter_mut] with the write [f] applied through every reference. *)
Definition iter_mut (f : T -> T) (l : ReuseList) : ReuseList :=
  {| items := option_map f <$> items l; slots := slots l;
     last_slot_idx := last_slot_idx l; len_ := len_ l; slot_size := slot_size l |}.

Definition clear (_ : ReuseList) : ReuseList :=
  {| items := []; slots := []; last_slot_idx := 0; len_ := 0; slot_size := 0 |}.

Definition optimize (l : ReuseList) : ReuseList :=
  {| items := Some <$> omap id (items l); slots := [];
     last_slot_idx := 0; len_ := len_ l; slot_size := 0 |}.

End ReuseList.
Arguments ReuseList : clear implicits.

(** ** Invariant *)
Section ReuseListInvariant.
Context {T : Type}.
Implicit Type l : ReuseList T.

(** Bookkeeping of the struct: [slot_size] is the length of [slots],
    [last_slot_idx] points into it, [len] counts the live items, every
    recorded slot is an empty item and no slot is recorded twice. *)
Record wf l : Prop := {
  wf_size : slot_size l = length (slots l);
  wf_last : last_slot_idx l <= length (slots l);
  wf_pos : 0 < slot_size l -> 0 < last_slot_idx l;
  wf_len : len_ l = length (iter l);
  wf_hole : forall j i, slots l !! j = Some (S i) -> items l !! i = Some None;
  wf_inj : forall j k i, slots l !! j = Some (S i) -> slots l !! k = Some (S i) -> j = k;
}.

Lemma iter_insert_Some (its : list (option T)) i x :
  its !! i = Some None ->
  length (omap id (<[i := Some x]> its)) = S (length (omap id its)).
Proof.
  revert i. induction its as [|o its IH]; intros [|i]; simpl; try done.
  - intros [= ->]. done.
  - intros H. destruct o; simpl; [f_equal|]; by apply IH.
Qed.

Lemma iter_insert_None (its : list (option T)) i x :
  its !! i = Some (Some x) ->
  S (length (omap id (<[i := None]> its))) = length (omap id its).
Proof.
  revert i. induction its as [|o its IH]; intros [|i]; simpl; try done.
  - intros [= ->]. done.
  - intros H. destruct o; simpl; [f_equal|]; by apply IH.
Qed.

Lemma iter_snoc (its : list (option T)) x :
  omap id (its ++ [Some x]) = omap id its ++ [x].
Proof. by rewrite omap_app. Qed.

Lemma wf_new : wf new.
Proof. by split. Qed.

Lemma wf_clear l : wf (clear l).
Proof. by split. Qed.

Lemma wf_push_end x l : wf l -> wf (push_end x l).2.
Proof.
  intros [??? Hlen Hh Hi]. split; simpl; try done.
  - unfold iter in *. simpl. rewrite iter_snoc, length_app, Hlen. simpl. lia.
  - intros j i Hj. apply Hh in Hj. by apply lookup_app_l_Some.
Qed.

(** The record of the last slot, when there is one. *)
Lemma wf_top l :
  wf l -> (0 < slot_size l)%nat ->
  exists slot, usize_sub (last_slot_idx l) 1 = Some (last_slot_idx l - 1)
    /\ slots l !! (last_slot_idx l - 1) = Some slot.
Proof.
  intros H Hp. destruct H as [Hs Hl Hpos _ _ _].
  specialize (Hpos Hp).
  destruct (lookup_lt_is_Some_2 (slots l) (last_slot_idx l - 1)) as [slot Hslot]; [lia|].
  exists slot. by rewrite usize_sub_Some by lia.
Qed.

Lemma get_insert (l l' : ReuseList T) i o :
  i < length (items l) -> items l' = <[i := o]> (items l) ->
  forall j, get j l' = if decide (i = j) then o else get j l.
Proof.
  intros Hi He j. unfold get. rewrite He. case_decide as Hij.
  - subst j. by rewrite list_lookup_insert_eq.
  - by rewrite list_lookup_insert_ne.
Qed.

Lemma get_push_end x l j :
  get j (push_end x l).2 = if decide (length (items l) = j) then Some x else get j l.
Proof.
  unfold get. simpl. case_decide as Hij.
  - subst j. rewrite lookup_app_r by lia. by rewrite Nat.sub_diag.
  - destruct (decide (j < length (items l))) as [Hlt|Hge].
    + by rewrite lookup_app_l.
    + rewrite (lookup_ge_None_2 (items l) j), lookup_ge_None_2 by
        (rewrite ?length_app; simpl; lia). done.
Qed.

Lemma wf_reuse x l k i :
  wf l -> slots l !! k = Some (S i) -> k = last_slot_idx l - 1 ->
  wf {| items := <[i := Some x]> (items l); slots := <[k := 0]> (slots l);
        last_slot_idx := if 1 <? last_slot_idx l then last_slot_idx l - 1 else last_slot_idx l;
        len_ := len_ l + 1; slot_size := slot_size l |}.
Proof.
  intros [Hs Hl Hp Hlen Hh Hi] Hk ->. pose proof (Hh _ _ Hk) as Hit.
  split; simpl; rewrite ?length_insert; try done.
  - destruct (1 <? last_slot_idx l) eqn:?; lia.
  - intros H. specialize (Hp H). destruct (1 <? last_slot_idx l) eqn:?; bool_to_prop; lia.
  - unfold iter in *. simpl. rewrite iter_insert_Some by done. lia.
  - intros j m Hj. apply list_lookup_insert_Some in Hj as [(_ & ? & _)|[Hne Hj]]; [done|].
    destruct (decide (i = m)) as [->|]; [by destruct Hne; eapply Hi|].
    rewrite list_lookup_insert_ne by done. by eapply Hh.
  - intros j1 j2 m H1 H2.
    apply list_lookup_insert_Some in H1 as [(_ & ? & _)|[_ H1]]; [done|].
    apply list_lookup_insert_Some in H2 as [(_ & ? & _)|[_ H2]]; [done|].
    by eapply Hi.
Qed.

(** Recording the hole [i] at position [k] of a slot vector. *)
Lemma slots_record (its : list (option T)) (sl sl' : list nat) k i x :
  its !! i = Some (Some x) ->
  (forall j m, sl !! j = Some (S m) -> its !! m = Some None) ->
  (forall j k m, sl !! j = Some (S m) -> sl !! k = Some (S m) -> j = k) ->
  (forall j m, sl' !! j = Some (S m) -> (j = k /\ m = i) \/ sl !! j = Some (S m)) ->
  (forall j m, sl' !! j = Some (S m) -> <[i := None]> its !! m = Some None) /\
  (forall j k m, sl' !! j = Some (S m) -> sl' !! k = Some (S m) -> j = k).
Proof.
  intros Hx Hh Hi Hsl.
  assert (Hne : forall j, sl !! j <> Some (S i)).
  { intros j Hj. apply Hh in Hj. congruence. }
  split.
  - intros j m [[_ ->]|Hj]%Hsl.
    + apply list_lookup_insert_eq. by eapply lookup_lt_Some.
    + rewrite list_lookup_insert_ne by (intros ->; by eapply Hne). by eapply Hh.
  - intros j1 j2 m [[-> ->]|H1]%Hsl [[-> ?]|H2]%Hsl; subst; try done;
      [by apply Hne in H2|by apply Hne in H1|by eapply Hi].
Qed.

Lemma wf_remove_reuse x l k i :
  wf l -> items l !! i = Some (Some x) -> slots l !! k = Some 0 ->
  wf {| items := <[i := None]> (items l); slots := <[k := i + 1]> (slots l);
        last_slot_idx := last_slot_idx l; len_ := len_ l - 1; slot_size := slot_size l |}.
Proof.
  intros [Hs Hl Hp Hlen Hh Hi] Hx Hk. pose proof (iter_insert_None _ _ _ Hx) as Hc.
  destruct (slots_record (items l) (slots l) (<[k := i + 1]> (slots l)) k i x Hx Hh Hi)
    as [Hh' Hi'].
  { intros j m [(-> & ? & _)|[_ Hj]]%list_lookup_insert_Some; [left; split; [done|lia]|by right]. }
  split; simpl; rewrite ?length_insert; try done.
  unfold iter in *. simpl. lia.
Qed.

Lemma wf_remove_push x l i :
  wf l -> items l !! i = Some (Some x) ->
  wf {| items := <[i := None]> (items l); slots := slots l ++ [i + 1];
        last_slot_idx := last_slot_idx l + 1; len_ := len_ l - 1;
        slot_size := slot_size l + 1 |}.
Proof.
  intros [Hs Hl Hp Hlen Hh Hi] Hx. pose proof (iter_insert_None _ _ _ Hx) as Hc.
  destruct (slots_record (items l) (slots l) (slots l ++ [i + 1]) (length (slots l)) i x
    Hx Hh Hi) as [Hh' Hi'].
  { intros j m [Hj|[? Hj]]%lookup_app_Some; [by right|left].
    apply list_lookup_singleton_Some in Hj as [??]. split; lia. }
  split; simpl; rewrite ?length_app; simpl; try done; try lia.
  unfold iter in *. simpl. lia.
Qed.

(** [append] never panics on a well-formed list, hands out an index that held
    no item and changes that index only. *)
Lemma append_spec x l :
  wf l -> exists i l', append x l = Some (i, l') /\ wf l' /\ get i l = None /\
    forall j, get j l' = if decide (i = j) then Some x else get j l.
Proof.
  intros Hwf. unfold append.
  assert (Hend : exists i l', Some (push_end x l) = Some (i, l') /\ wf l' /\ get i l = None /\
    forall j, get j l' = if decide (i = j) then Some x else get j l).
  { exists (length (items l)), (push_end x l).2. split_and!.
    - unfold push_end. simpl. rewrite length_app. simpl. repeat f_equal. lia.
    - by apply wf_push_end.
    - unfold get. by rewrite lookup_ge_None_2.
    - apply get_push_end. }
  destruct (0 <? slot_size l) eqn:Hp; [|done]. bool_to_prop.
  destruct (wf_top l Hwf Hp) as (slot & -> & Hs). rewrite Hs.
  destruct slot as [|i]; [done|]. simpl. rewrite Nat.sub_0_r.
  pose proof (wf_hole l Hwf _ _ Hs) as Hit. rewrite Hit.
  eexists i, _. split_and!; [done|by apply wf_reuse|by unfold get; rewrite Hit|].
  intros j. by apply get_insert; [eapply lookup_lt_Some|].
Qed.

(** [remove] never panics on a well-formed list, returns what the index held
    and empties that index only. *)
Lemma remove_spec i l :
  wf l -> exists l', remove i l = Some (get i l, l') /\ wf l' /\
    forall j, get j l' = if decide (i = j) then None else get j l.
Proof.
  intros Hwf. unfold remove, get at 1.
  destruct (items l !! i) as [[x|]|] eqn:Hi.
  2,3: exists l; split_and!; try done; intros j; case_decide; [subst|done];
    unfold get; by rewrite Hi.
  assert (Hlt : i < length (items l)) by by eapply lookup_lt_Some.
  rewrite usize_sub_Some by (rewrite (wf_len l Hwf); unfold iter;
    rewrite <- (iter_insert_None _ _ _ Hi); lia).
  destruct (0 <? slot_size l) eqn:Hp; bool_to_prop.
  - destruct (wf_top l Hwf Hp) as (slot & -> & Hs). rewrite Hs.
    destruct slot as [|m]; simpl.
    + eexists. split_and!; [done|by eapply wf_remove_reuse|by apply get_insert].
    + eexists. split_and!; [done|by eapply wf_remove_push|by apply get_insert].
  - eexists. split_and!; [done|by eapply wf_remove_push|by apply get_insert].
Qed.
End ReuseListInvariant.

(** ** Refinement: a [ReuseList] is a finite map from indices to items *)
Section ReuseListRefinement.
Context {T : Type}.
Implicit Type l : ReuseList T.
Implicit Type m : gmap nat T.

(** The abstract state: the live indices with their items. *)
Definition to_map l : gmap nat T := omap id (map_seq (M := gmap nat (option T)) 0 (items l)).

Lemma lookup_to_map l i : to_map l !! i = get i l.
Proof.
  unfold to_map, get. rewrite lookup_omap, lookup_map_seq_0.
  by destruct (items l !! i) as [[]|].
Qed.

Lemma size_to_map l : size (to_map l) = length (iter l).
Proof.
  unfold to_map, iter. induction (items l) as [|o its IH] using rev_ind; [done|].
  rewrite omap_app, length_app, map_seq_snoc. simpl.
  assert (Hfree : map_seq (M := gmap nat (option T)) 0 its !! length its = None).
  { by rewrite lookup_map_seq_0, lookup_ge_None_2. }
  destruct o as [x|]; simpl.
  - rewrite omap_insert_Some with (y := x) by done.
    rewrite map_size_insert_None; [by rewrite IH, Nat.add_1_r|].
    by rewrite lookup_omap, Hfree.
  - rewrite omap_insert_None by done. rewrite delete_id; [by rewrite IH, Nat.add_0_r|].
    by rewrite lookup_omap, Hfree.
Qed.

(** The calls of the interface and what each returns. *)
Inductive op : Type :=
| OpAppend (x : T) | OpRemove (i : nat) | OpGet (i : nat) | OpLen | OpIsEmpty
| OpGetMut (i : nat) (f : T -> T) | OpIterMut (f : T -> T) | OpClear.

Inductive ret : Type :=
| RIndex (i : nat) | RItem (o : option T) | RLen (n : nat) | RBool (b : bool) | RUnit.

Definition exec (o : op) (l : ReuseList T) : option (ret * ReuseList T) :=
  match o with
  | OpAppend x => let! (i, l') := append x l in Some (RIndex i, l')
  | OpRemove i => let! (r, l') := remove i l in Some (RItem r, l')
  | OpGet i => Some (RItem (get i l), l)
  | OpLen => Some (RLen (len l), l)
  | OpIsEmpty => Some (RBool (is_empty l), l)
  | OpGetMut i f => let '(r, l') := get_mut i f l in Some (RItem r, l')
  | OpIterMut f => Some (RUnit, iter_mut f l)
  | OpClear => Some (RUnit, clear l)
  end.

Fixpoint run (ops : list op) (l : ReuseList T) : option (list ret * ReuseList T) :=
  match ops with
  | [] => Some ([], l)
  | o :: ops' =>
      let! (r, l') := exec o l in
      let! (rs, l'') := run ops' l' in
      Some (r :: rs, l'')
  end.

(** The promise of the component: an index handed out by [append] is fresh,
    and every other call is the map operation. *)
Inductive spec_step : gmap nat T -> op -> ret -> gmap nat T -> Prop :=
| SpecAppend m x i : m !! i = None -> spec_step m (OpAppend x) (RIndex i) (<[i := x]> m)
| SpecRemove m i : spec_step m (OpRemove i) (RItem (m !! i)) (delete i m)
| SpecGet m i : spec_step m (OpGet i) (RItem (m !! i)) m
| SpecLen m : spec_step m OpLen (RLen (size m)) m
| SpecIsEmpty m : spec_step m OpIsEmpty (RBool (bool_decide (m = ∅))) m
| SpecGetMut m i f : spec_step m (OpGetMut i f) (RItem (m !! i)) (alter f i m)
| SpecIterMut m f : spec_step m (OpIterMut f) RUnit (f <$> m)
| SpecClear m : spec_step m OpClear RUnit ∅.

Inductive spec_run : gmap nat T -> list op -> list ret -> gmap nat T -> Prop :=
| SpecNil m : spec_run m [] [] m
| SpecCons m m' m'' o r os rs :
    spec_step m o r m' -> spec_run m' os rs m'' -> spec_run m (o :: os) (r :: rs) m''.

Lemma wf_get_mut l i f : wf l -> wf (get_mut i f l).2.
Proof.
  intros Hwf. unfold get_mut. destruct (items l !! i) as [[x|]|] eqn:Hi; try done.
  destruct Hwf as [Hs Hl Hp Hlen Hh Hi']. split; simpl; try done.
  - rewrite Hlen. unfold iter. simpl. clear -Hi. revert i Hi.
    induction (items l) as [|o its IH]; intros [|i] H; simpl in *; simplify_eq; try done.
    destruct o; simpl; [f_equal|]; by apply IH.
  - intros j k Hj. rewrite list_lookup_insert_ne; [by eapply Hh|].
    intros ->. apply Hh in Hj. congruence.
Qed.

Lemma wf_iter_mut l f : wf l -> wf (iter_mut f l).
Proof.
  intros [Hs Hl Hp Hlen Hh Hi]. split; simpl; try done.
  - rewrite Hlen. unfold iter. simpl. clear. induction (items l) as [|[] its IH]; simpl; auto.
  - intros j i Hj. by rewrite list_lookup_fmap, (Hh _ _ Hj).
Qed.

Lemma to_map_empty l : wf l -> is_empty l = bool_decide (to_map l = ∅).
Proof.
  intros Hwf. unfold is_empty. rewrite (wf_len l Hwf), <- size_to_map.
  case_bool_decide as H.
  - by rewrite H, map_size_empty.
  - apply Nat.eqb_neq. by rewrite map_size_empty_iff.
Qed.

Lemma exec_refines o l :
  wf l -> exists r l', exec o l = Some (r, l') /\ wf l' /\ spec_step (to_map l) o r (to_map l').
Proof.
  intros Hwf. destruct o as [x|i|i| | |i f|f|]; simpl.
  - destruct (append_spec x l Hwf) as (i & l' & -> & Hwf' & Hfresh & Hget).
    eexists _, l'. split_and!; [done..|].
    replace (to_map l') with (<[i := x]> (to_map l)); [by constructor; rewrite lookup_to_map|].
    apply map_eq. intros j. rewrite lookup_insert, !lookup_to_map, Hget. done.
  - destruct (remove_spec i l Hwf) as (l' & -> & Hwf' & Hget).
    eexists _, l'. split_and!; [done..|]. rewrite <- lookup_to_map.
    replace (to_map l') with (delete i (to_map l)); [by constructor|].
    apply map_eq. intros j. rewrite lookup_delete, !lookup_to_map, Hget. done.
  - eexists _, l. split_and!; [done..|]. rewrite <- lookup_to_map. constructor.
  - eexists _, l. split_and!; [done..|]. unfold len; rewrite (wf_len l Hwf), <- size_to_map. constructor.
  - eexists _, l. split_and!; [done..|]. rewrite to_map_empty by done. constructor.
  - pose proof (wf_get_mut l i f Hwf) as Hwf'.
    assert (Hr : (get_mut i f l).1 = to_map l !! i
      /\ to_map (get_mut i f l).2 = alter f i (to_map l)).
    { split; [rewrite lookup_to_map; unfold get_mut, get; by destruct (items l !! i) as [[]|]|].
      apply map_eq. intros j. rewrite lookup_alter, !lookup_to_map. unfold get_mut, get.
      destruct (items l !! i) as [[x|]|] eqn:Hi; simpl; case_decide; subst; rewrite ?Hi; try done.
      - by rewrite list_lookup_insert_eq by (by eapply lookup_lt_Some).
      - by rewrite list_lookup_insert_ne. }
    destruct (get_mut i f l) as [r l'] eqn:E. simpl in *. destruct Hr as [-> Hm].
    eexists _, _. split_and!; [done..|]. rewrite Hm. constructor.
  - eexists _, _. split_and!; [done|by apply wf_iter_mut|].
    replace (to_map (iter_mut f l)) with (f <$> to_map l); [constructor|].
    apply map_eq. intros j. rewrite lookup_fmap, !lookup_to_map. unfold get, iter_mut. simpl.
    rewrite list_lookup_fmap. by destruct (items l !! j) as [[]|].
  - eexists _, _. split_and!; [done|apply wf_clear|].
    replace (to_map (clear l)) with (∅ : gmap nat T); [constructor|].
    apply map_eq. intros j. by rewrite lookup_to_map, lookup_empty.
Qed.

Lemma run_refines ops l :
  wf l -> exists rs l', run ops l = Some (rs, l') /\ wf l' /\
    spec_run (to_map l) ops rs (to_map l').
Proof.
  revert l. induction ops as [|o ops IH]; intros l Hwf; simpl.
  - eexists _, _. split_and!; [done..|constructor].
  - destruct (exec_refines o l Hwf) as (r & l1 & -> & Hwf1 & Hstep).
    destruct (IH l1 Hwf1) as (rs & l2 & -> & Hwf2 & Hrun).
    eexists _, _. split_and!; [done..|]. by econstructor.
Qed.

End ReuseListRefinement.

(** ** Properties *)
Section ReuseListProperties.
Context {T : Type}.
Implicit Type l : ReuseList T.

(** C25: every sequence of calls on a new list runs without a panic and
    returns what a finite map from indices to items would return: [append]
    hands out an index that is not in use, [remove], [get], [len] and the
    mutating accessors are the map operations. *)
Theorem reuse_list_refines_map (ops : list (@op T)) :
  exists rs l, run ops new = Some (rs, l) /\ wf l /\ spec_run ∅ ops rs (to_map l).
Proof. apply (run_refines ops new wf_new). Qed.

(** [optimize] keeps the live items in order, makes their indices
    contiguous and leaves a well-formed list without recorded holes. *)
Theorem reuse_list_optimize l :
  wf l -> wf (optimize l) /\ iter (optimize l) = iter l /\ slots (optimize l) = [] /\
    forall j, get j (optimize l) = iter l !! j.
Proof.
  intros Hwf.
  assert (Hit : iter (optimize l) = iter l).
  { unfold iter, optimize. simpl. induction (omap id (items l)) as [|x xs IH]; simpl; auto.
    f_equal. apply IH. }
  split_and!; try done.
  - split; simpl; try done. by rewrite Hit, (wf_len l Hwf).
  - intros j. unfold get, optimize, iter. simpl. rewrite list_lookup_fmap.
    by destruct (omap id (items l) !! j).
Qed.

Lemma append_top l k i y :
  items l !! i = Some None -> 0 < slot_size l -> last_slot_idx l = S k ->
  slots l !! k = Some (i + 1) -> exists l2, append y l = Some (i, l2).
Proof.
  intros Hit Hsz Hk Hs. unfold append.
  rewrite (proj2 (Nat.ltb_lt 0 _) Hsz), Hk, usize_sub_Some by lia. simpl.
  rewrite Nat.sub_0_r, Hs, Nat.add_1_r. simpl. rewrite Nat.sub_0_r, Hit. by eexists.
Qed.

(** When no stale entry lies above [last_slot_idx], an index freed by
    [remove] is the one the next [append] hands out. *)
Theorem reuse_list_remove_append l i x y :
  wf l -> get i l = Some x -> last_slot_idx l = length (slots l) ->
  exists l1 l2, remove i l = Some (Some x, l1) /\ append y l1 = Some (i, l2).
Proof.
  intros Hwf Hg Hlast. unfold get in Hg. unfold remove.
  destruct (items l !! i) as [o|] eqn:Hi; [subst o|done].
  assert (Hlt : i < length (items l)) by by eapply lookup_lt_Some.
  rewrite usize_sub_Some by (rewrite (wf_len l Hwf); unfold iter;
    rewrite <- (iter_insert_None _ _ _ Hi); lia).
  assert (Happ : exists l2, append y
    {| items := <[i := None]> (items l); slots := slots l ++ [i + 1];
       last_slot_idx := last_slot_idx l + 1; len_ := len_ l - 1;
       slot_size := slot_size l + 1 |} = Some (i, l2)).
  { apply (append_top _ (length (slots l))); simpl; [by rewrite list_lookup_insert_eq|lia..|].
    by rewrite lookup_app_r, Nat.sub_diag by lia. }
  destruct (0 <? slot_size l) eqn:Hp; [|destruct Happ; eauto].
  bool_to_prop. destruct (wf_top l Hwf Hp) as (slot & -> & Hs). rewrite Hs.
  destruct (slot =? 0) eqn:Hz; [|destruct Happ; eauto].
  edestruct (append_top {| items := <[i := None]> (items l);
      slots := <[last_slot_idx l - 1 := i + 1]> (slots l);
      last_slot_idx := last_slot_idx l; len_ := len_ l - 1; slot_size := slot_size l |}
    (last_slot_idx l - 1) i y) as [l2 H2]; simpl; eauto.
  - by rewrite list_lookup_insert_eq.
  - pose proof (wf_pos l Hwf Hp). lia.
  - apply list_lookup_insert_eq. by eapply lookup_lt_Some.
Qed.
End ReuseListProperties.

(** When [remove] pushes its hole above a stale entry, the hole is not
    found again: after the calls below the indices 0 and 2 are free, yet
    [append] grows the list to index 3. *)
Example reuse_list_hole_not_reused :
  exists l : ReuseList nat,
    run [OpAppend 10; OpAppend 11; OpAppend 12; OpRemove 0; OpRemove 1;
         OpAppend 21; OpRemove 2] new
      = Some ([RIndex 0; RIndex 1; RIndex 2; RItem (Some 10); RItem (Some 11);
               RIndex 1; RItem (Some 12)], l)
    /\ get 0 l = None /\ get 2 l = None
    /\ exists l', append 22 l = Some (3, l').
Proof. eexists. split_and!; [vm_compute; reflexivity..|]. eexists. vm_compute. reflexivity. Qed.

(** Witnesses. *)
Definition sample : ReuseList nat :=
  {| items := [Some 7; None; Some 9]; slots := [2]; last_slot_idx := 1; len_ := 2; slot_size := 1 |}.

Lemma wf_sample : wf sample.
Proof.
  split; simpl; try lia; try done.
  - intros [|[]] i; simpl; intros; simplify_eq; done.
  - intros [|[]] [|[]] i; simpl; intros; simplify_eq; done.
Qed.

Lemma reuse_list_optimize_witness :
  iter (optimize sample) = [7; 9] /\ get 1 (optimize sample) = Some 9.
Proof.
  destruct (reuse_list_optimize sample wf_sample) as (_ & -> & _ & Hg).
  split; [reflexivity|]. rewrite Hg. reflexivity.
Defined.

Lemma reuse_list_remove_append_witness :
  exists l1 l2, remove 2 sample = Some (Some 9, l1) /\ append 5 l1 = Some (2, l2).
Proof. apply (reuse_list_remove_append sample 2 9 5 wf_sample); reflexivity. Defined.
