(* ===== verification/Path.v ===== *)
(** * [path]: the path module of src/modules/llrt_path/src/lib.rs

    Paths are byte strings.  The operations are those of the Unix build
    ([cfg(not(windows))]); [Module Windows] has the byte-level functions the
    Windows build compiles instead.  The working directory, which the source
    reads from the operating system, is an argument. *)
From stdpp Require Import base list numbers strings.
From Stdlib Require Import ZArith Lia.
From S2P Require Import Prelude.

Definition MAIN_SEPARATOR : Z := 47.
Definition SEP : list Z := [MAIN_SEPARATOR].
Definition BACKSLASH : Z := 92.
Definition DOT : Z := 46.

Definition replace_backslash (path : list Z) : list Z :=
  (fun b => if (b =? BACKSLASH)%Z then MAIN_SEPARATOR else b) <$> path.

Definition find_next_separator (s : list Z) : option nat := find_byte MAIN_SEPARATOR s.
Definition find_last_sep (path : list Z) : option nat := rfind_byte MAIN_SEPARATOR path.
Definition ends_with_sep (path : list Z) : bool := ends_with_byte MAIN_SEPARATOR path.
Definition is_absolute (path : list Z) : bool := starts_with SEP path.

(** Both separators count here, on every platform. *)
Definition starts_with_sep (path : list Z) : bool :=
  match path with
  | b :: _ => (b =? MAIN_SEPARATOR)%Z || (b =? BACKSLASH)%Z
  | [] => false
  end.

(** ** dirname, basename, extname *)

(** [for i in (offset..bytes.len()).rev()]: [n] counts the indices left. *)
Fixpoint find_dirname_end_loop (is_separator : Z -> bool) (s : list Z) (offset n : nat)
    (matched_slash : bool) : option nat :=
  match n with
  | O => None
  | S n' =>
      let i := offset + n' in
      match s !! i with
      | None => None
      | Some b =>
          if is_separator b then
            if negb matched_slash then Some i
            else find_dirname_end_loop is_separator s offset n' matched_slash
          else find_dirname_end_loop is_separator s offset n' false
      end
  end.

Definition find_dirname_end (is_separator : Z -> bool) (s : list Z) (offset : nat) : option nat :=
  find_dirname_end_loop is_separator s offset (length s - offset) true.

Definition is_slash (b : Z) : bool := (b =? MAIN_SEPARATOR)%Z.

Definition dirname (path : list Z) : list Z :=
  match path with
  | [] => str "."
  | [b] => if is_slash b then path else str "."
  | b :: _ =>
      let has_root := is_slash b in
      match find_dirname_end is_slash path 1 with
      | Some e => if has_root && (e =? 1)%nat then str "//" else take e path
      | None => if has_root then str "/" else str "."
      end
  end.

Definition strip_last_sep (path : list Z) : list Z :=
  if ends_with_sep path then take (length path - 1) path else path.

Definition name_extname (path : list Z) : list Z * list Z :=
  let path := strip_last_sep path in
  let path := match find_last_sep path with
              | Some idx => drop (idx + 1) path
              | None => path
              end in
  if starts_with (str ".") path then (path, [])
  else match rfind_byte DOT path with
       | Some idx => (take idx path, drop idx path)
       | None => (path, [])
       end.

(** [name.rfind(&suffix)]: the last position where [pat] occurs. *)
Fixpoint rfind_str (pat s : list Z) : option nat :=
  match s with
  | [] => if bool_decide (pat = []) then Some 0 else None
  | _ :: s' =>
      match rfind_str pat s' with
      | Some i => Some (S i)
      | None => if starts_with pat s then Some 0 else None
      end
  end.

Definition basename (path : list Z) (suffix : option (list Z)) : list Z :=
  if bool_decide (path = []) || bool_decide (path = SEP) then []
  else
    let '(base, ext) := name_extname path in
    let name := base ++ ext in
    match suffix with
    | Some suffix =>
        match rfind_str suffix name with
        | Some location => take location name
        | None => name
        end
    | None => name
    end.

Definition extname (path : list Z) : list Z := (name_extname path).2.

(** The object [format] reads; an absent property is the empty string. *)
Record path_object := {
  po_dir : list Z; po_root : list Z; po_base : list Z; po_name : list Z; po_ext : list Z;
}.

Definition format (obj : path_object) : list Z :=
  let with_sep d := d ++ (if ends_with_sep d then [] else SEP) in
  let path :=
    if negb (bool_decide (po_dir obj = [])) then with_sep (po_dir obj)
    else if negb (bool_decide (po_root obj = [])) then with_sep (po_root obj)
    else [] in
  if negb (bool_decide (po_base obj = [])) then path ++ po_base obj
  else
    let path := path ++ po_name obj in
    if negb (bool_decide (po_ext obj = [])) then
      path ++ (if starts_with (str ".") (po_ext obj) then [] else str ".") ++ po_ext obj
    else path.

(** ** join, resolve, normalize *)

(** The local variables of [join_resolve_path] that its loop updates. *)
Record jr_state := mkJR {
  result : list Z;
  index_stack : list nat;
  empty : bool;
  first : bool;
}.

Definition set_result (r : list Z) (st : jr_state) : jr_state :=
  {| result := r; index_stack := index_stack st; empty := empty st; first := first st |}.

(** One segment between separators: the [match &part_ref[start..end]]. *)
Definition segment (resolve : bool) (seg : list Z) (st : jr_state) : jr_state :=
  if bool_decide (seg = str "..") then
    match index_stack st with
    | last_index :: rest =>
        {| result := take last_index (result st); index_stack := rest;
           empty := empty st; first := first st |}
    | [] =>
        if empty st && resolve then
          match find_last_sep (result st) with
          | Some last_index => set_result (take last_index (result st)) st
          | None => st
          end
        else if empty st then set_result (result st ++ str ".." ++ SEP) st
        else st
    end
  else if bool_decide (seg = []) || bool_decide (seg = str ".") then st
  else
    let len := length (result st) in
    let r :=
      if negb (ends_with_byte MAIN_SEPARATOR (result st)) && negb (bool_decide (result st = []))
      then result st ++ SEP else result st in
    {| result := r ++ seg ++ SEP; index_stack := len :: index_stack st;
       empty := empty st; first := first st |}.

(** [while start < part_ref.len() { .. }]. *)
Fixpoint walk_part (fuel : nat) (resolve : bool) (part : list Z) (start : nat)
    (st : jr_state) : jr_state :=
  match fuel with
  | O => st
  | S fuel' =>
      if (start <? length part)%nat then
        let end_ := match find_next_separator (drop start part) with
                    | Some i => i + start
                    | None => length part
                    end in
        walk_part fuel' resolve part (end_ + 1)
          (segment resolve (take (end_ - start) (drop start part)) st)
      else st
  end.

(** One iteration of [for part in parts]. *)
Definition do_part (resolve : bool) (st : jr_state) (part : list Z) : jr_state :=
  let '(start, st1) :=
    if resolve then
      if starts_with SEP part then
        (1, {| result := SEP; index_stack := index_stack st; empty := false; first := first st |})
      else (0, st)
    else if starts_with_sep part && empty st && first st then
      (1, {| result := result st ++ SEP; index_stack := index_stack st;
             empty := false; first := first st |})
    else (0, st) in
  let st2 := walk_part (length part) resolve part start st1 in
  {| result := result st2; index_stack := index_stack st2; empty := empty st2;
     first := first st2 && bool_decide (part = []) |}.

Definition join_resolve_path (parts : list (list Z)) (resolve : bool) (res : list Z) : list Z :=
  let res := if ends_with_sep res && (1 <? length res)%nat then take (length res - 1) res
             else res in
  let st := foldl (do_part resolve)
              {| result := res; index_stack := []; empty := true; first := true |} parts in
  let res := result st in
  let res := if negb resolve && bool_decide (res = []) then res ++ str "." else res in
  if (1 <? length res)%nat && ends_with_sep res then take (length res - 1) res else res.

Definition join_path (parts : list (list Z)) : list Z := join_resolve_path parts false [].
Definition normalize (path : list Z) : list Z := join_path [path].

Definition resolve_path (cwd : list Z) (parts : list (list Z)) : list Z :=
  join_resolve_path parts true
    (if ends_with_byte MAIN_SEPARATOR cwd then cwd else cwd ++ SEP).

(** ** relative *)

(** End of the component of [s] that starts at [i]. *)
Definition next_end (s : list Z) (i : nat) : nat :=
  default (length s - i) (find_next_separator (drop i s)) + i.

Definition component (s : list Z) (i : nat) : list Z := take (next_end s i - i) (drop i s).

(** Skip the common prefix. *)
Fixpoint skip_common (fuel : nat) (from to : list Z) (from_index to_index : nat) : nat * nat :=
  match fuel with
  | O => (from_index, to_index)
  | S fuel' =>
      if (from_index <? length from)%nat && (to_index <? length to)%nat then
        if bool_decide (component from from_index = component to to_index) then
          skip_common fuel' from to (next_end from from_index + 1) (next_end to to_index + 1)
        else (from_index, to_index)
      else (from_index, to_index)
  end.

(** One [..] for each component of [from] that is left. *)
Fixpoint add_ups (fuel : nat) (from : list Z) (from_index : nat) (relative : list Z) : list Z :=
  match fuel with
  | O => relative
  | S fuel' =>
      if (from_index <? length from)%nat then
        let relative := if bool_decide (relative = []) then relative else relative ++ SEP in
        add_ups fuel' from (next_end from from_index + 1) (relative ++ str "..")
      else relative
  end.

(** The components of [to] that are left. *)
Fixpoint add_rest (fuel : nat) (to : list Z) (to_index : nat) (relative : list Z) : list Z :=
  match fuel with
  | O => relative
  | S fuel' =>
      if (to_index <? length to)%nat then
        let relative := if bool_decide (relative = []) then relative else relative ++ SEP in
        let relative :=
          if bool_decide (component to to_index = str ".") then relative
          else relative ++ component to to_index in
        add_rest fuel' to (next_end to to_index + 1) relative
      else relative
  end.

Definition relative (cwd from to : list Z) : list Z :=
  if bool_decide (from = to) then []
  else
    let absolute p := if is_absolute p then p else cwd ++ SEP ++ p in
    let from := absolute from in
    let to := absolute to in
    let '(from_index, to_index) := skip_common (length from) from to 0 0 in
    let r := add_ups (length from) from from_index [] in
    let r := add_rest (length to) to to_index r in
    if bool_decide (r = []) then str "." else r.

(** ** The Windows build of the byte-level functions *)
Module Windows.
Definition is_sep (c : Z) : bool := (c =? MAIN_SEPARATOR)%Z || (c =? BACKSLASH)%Z.

Definition is_drive_letter (c : Z) : bool :=
  ((65 <=? c)%Z && (c <=? 90)%Z) || ((97 <=? c)%Z && (c <=? 122)%Z).

(** [while j < len && p(bytes[j]) { j += 1 }]: number of steps taken. *)
Fixpoint span_len (p : Z -> bool) (s : list Z) : nat :=
  match s with
  | b :: s' => if p b then S (span_len p s') else 0
  | [] => 0
  end.

Definition parse_unc_root (s : list Z) : option (nat * nat) :=
  let len := length s in
  let j := 2 + span_len (fun b => negb (is_sep b)) (drop 2 s) in
  if (len <=? j)%nat || (j =? 2)%nat then None
  else
    let share_start := j + span_len is_sep (drop j s) in
    if (len <=? share_start)%nat then None
    else
      let j := share_start + span_len (fun b => negb (is_sep b)) (drop share_start s) in
      if (j =? share_start)%nat then None
      else if (j =? len)%nat then None
      else Some (j + 1, j + 1).

Definition dirname (path : list Z) : list Z :=
  match path with
  | [] => str "."
  | [b] => if is_sep b then path else str "."
  | b0 :: b1 :: rest =>
      let '(root_end, offset) :=
        if is_sep b0 then
          if is_sep b1 then default (1, 1) (parse_unc_root path) else (1, 1)
        else if is_drive_letter b0 && (b1 =? 58)%Z then
          match rest with
          | b2 :: _ => if is_sep b2 then (3, 3) else (2, 2)
          | [] => (2, 2)
          end
        else (0, 0) in
      match find_dirname_end is_sep path offset with
      | Some e => take e path
      | None => if (0 <? root_end)%nat then take root_end path else str "."
      end
  end.
End Windows.

(** ** Abstract specification of join and resolve

    A path under construction is an anchor and a stack of ordinary segments
    (top first).  [Root] is [/]; [Up n] is a relative path that climbs [n]
    directories; [Cwd base] is a working directory given by its segments
    (innermost first). *)
Inductive anchor : Type :=
| Root
| Up (n : nat)
| Cwd (base : list (list Z)).

Abbreviation astate := (anchor * list (list Z))%type.

Definition is_dot (s : list Z) : bool := bool_decide (s = []) || bool_decide (s = str ".").

(** The effect of a segment; [None]: [..] would climb above the outermost
    segment of the working directory. *)
Definition aseg (st : option astate) (seg : list Z) : option astate :=
  let! (a, stack) := st in
  if bool_decide (seg = str "..") then
    match stack, a with
    | _ :: rest, _ => Some (a, rest)
    | [], Root => Some (Root, [])
    | [], Up n => Some (Up (S n), [])
    | [], Cwd (_ :: ((_ :: _) as base')) => Some (Cwd base', [])
    | [], Cwd _ => None
    end
  else if is_dot seg then Some (a, stack)
  else Some (a, seg :: stack).

Definition asegs (st : option astate) (part : list Z) : option astate :=
  foldl aseg st (split_on MAIN_SEPARATOR part).

(** [join] reads the first non-empty part to see whether the path is
    absolute; [resolve] starts over at an absolute part. *)
Fixpoint spec_join (parts : list (list Z)) : option astate :=
  match parts with
  | [] => Some (Up 0, [])
  | [] :: ps => spec_join ps
  | p :: ps =>
      foldl asegs
        (if starts_with_sep p then asegs (Some (Root, [])) (drop 1 p)
         else asegs (Some (Up 0, [])) p) ps
  end.

Definition aresolve (st : option astate) (part : list Z) : option astate :=
  let! _ := st in
  asegs (if is_absolute part then Some (Root, []) else st) part.

Definition spec_resolve (base : list (list Z)) (parts : list (list Z)) : option astate :=
  foldl aresolve (Some (Cwd base, [])) parts.

(** The segments of the path a state stands for, outermost first. *)
Definition segments (st : astate) : list (list Z) :=
  match st with
  | (Root, stack) => rev stack
  | (Up n, stack) => replicate n (str "..") ++ rev stack
  | (Cwd base, stack) => rev base ++ rev stack
  end.

Definition absolute (st : astate) : bool :=
  match st.1 with Up _ => false | _ => true end.

(** Its text. *)
Definition render (st : astate) : list Z :=
  (if absolute st then SEP else if bool_decide (segments st = []) then str "." else [])
  ++ join_with SEP (segments st).

(** ** The loop over a part is a fold over its segments *)

Lemma segment_nil resolve st : segment resolve [] st = st.
Proof. done. Qed.

Lemma walk_part_split fuel resolve part start st :
  length part <= fuel + start ->
  walk_part fuel resolve part start st
  = foldl (fun st seg => segment resolve seg st) st (split_on MAIN_SEPARATOR (drop start part)).
Proof.
  revert start st. induction fuel as [|fuel IH]; intros start st Hlen; simpl.
  - rewrite drop_ge by lia. done.
  - destruct (start <? length part) eqn:Hlt; bool_to_prop.
    2: by rewrite drop_ge by lia.
    rewrite split_on_find. unfold find_next_separator.
    destruct (find_byte MAIN_SEPARATOR (drop start part)) as [i|] eqn:Hf.
    + rewrite IH by lia. rewrite drop_drop. simpl.
      replace (i + start - start) with i by lia.
      by replace (i + start + 1) with (start + S i) by lia.
    + rewrite IH by lia. rewrite (drop_ge part (length part + 1)) by lia. simpl.
      rewrite segment_nil, take_ge by (rewrite length_drop; lia). done.
Qed.

(** ** Text of a base and a stack of segments *)

(** [text base stack]: each segment followed by a separator, after [base] and
    a separator if [base] needs one. *)
Definition gap (base : list Z) : list Z :=
  if negb (ends_with_byte MAIN_SEPARATOR base) && negb (bool_decide (base = [])) then SEP else [].

Fixpoint text (base : list Z) (stack : list (list Z)) : list Z :=
  match stack with
  | [] => base
  | s :: rest => text base rest ++ gap (text base rest) ++ s ++ SEP
  end.

(** The lengths [index_stack] records. *)
Fixpoint marks (base : list Z) (stack : list (list Z)) : list nat :=
  match stack with
  | [] => []
  | _ :: rest => length (text base rest) :: marks base rest
  end.

Lemma segment_push resolve seg st base stack left :
  seg <> str ".." -> is_dot seg = false ->
  result st = text base stack -> index_stack st = marks base stack ++ left ->
  segment resolve seg st =
  {| result := text base (seg :: stack); index_stack := marks base (seg :: stack) ++ left;
     empty := empty st; first := first st |}.
Proof.
  intros Hne Hdot Hr Hi. unfold segment. rewrite bool_decide_eq_false_2 by done.
  unfold is_dot in Hdot. rewrite Hdot. simpl. rewrite Hr, Hi. unfold gap.
  destruct (negb _ && negb _); [by rewrite <- !(assoc_L (++))|done].
Qed.

Lemma segment_pop resolve st base s stack left :
  result st = text base (s :: stack) -> index_stack st = marks base (s :: stack) ++ left ->
  segment resolve (str "..") st =
  {| result := text base stack; index_stack := marks base stack ++ left;
     empty := empty st; first := first st |}.
Proof.
  intros Hr Hi. unfold segment. simpl. rewrite Hi, Hr. simpl. f_equal. apply take_app_length.
Qed.

Lemma segment_dot resolve seg st :
  is_dot seg = true -> seg <> str ".." -> segment resolve seg st = st.
Proof.
  intros Hd Hne. unfold segment. rewrite bool_decide_eq_false_2 by done.
  unfold is_dot in Hd. by rewrite Hd.
Qed.

(** ** Representation of abstract states by loop states *)

Definition plain (s : list Z) : Prop := s <> [] /\ MAIN_SEPARATOR ∉ s.

(** An ordinary name: neither empty, [.] nor [..]. *)
Definition valid_seg (s : list Z) : Prop :=
  s <> str ".." /\ is_dot s = false /\ MAIN_SEPARATOR ∉ s.

Lemma valid_plain s : valid_seg s -> plain s.
Proof.
  intros (_ & Hd & Hs). split; [|done]. intros ->. done.
Qed.

Fixpoint climb (n : nat) : list Z :=
  match n with
  | O => []
  | S n' => climb n' ++ str ".." ++ SEP
  end.

Definition base_text (a : anchor) : list Z :=
  match a with
  | Root => SEP
  | Up n => climb n
  | Cwd base => SEP ++ join_with SEP (rev base)
  end.

#[local] Arguments base_text : simpl never.

Definition anchor_ok (resolve : bool) (a : anchor) : Prop :=
  match a with
  | Root => True
  | Up _ => resolve = false
  | Cwd base => resolve = true /\ Forall valid_seg base
  end.

Definition is_root (a : anchor) : bool := match a with Root => true | _ => false end.

(** Marks below an absolute part are still on [index_stack]; they are never 0. *)
Definition leftover_ok (resolve : bool) (a : anchor) (left : list nat) : Prop :=
  left = [] \/ (resolve = true /\ a = Root /\ Forall (fun i => 1 <= i) left).

Record rep (resolve : bool) (st : jr_state) (x : astate) : Prop := {
  rep_result : result st = text (base_text x.1) x.2;
  rep_marks : exists left, index_stack st = marks (base_text x.1) x.2 ++ left /\
                leftover_ok resolve x.1 left;
  rep_empty : empty st = negb (is_root x.1);
  rep_anchor : anchor_ok resolve x.1;
  rep_stack : Forall valid_seg x.2;
}.

Lemma plain_not_ends s : plain s -> ends_with_byte MAIN_SEPARATOR s = false.
Proof.
  intros [Hne Hs]. destruct s as [|x s _] using rev_ind; [done|].
  rewrite ends_with_byte_snoc. apply Z.eqb_neq. intros ->.
  apply Hs, elem_of_app. right. by left.
Qed.

Lemma find_last_sep_cwd s s2 r :
  Forall valid_seg (s :: s2 :: r) ->
  find_last_sep (base_text (Cwd (s :: s2 :: r))) = Some (length (base_text (Cwd (s2 :: r)))) /\
  take (length (base_text (Cwd (s2 :: r)))) (base_text (Cwd (s :: s2 :: r)))
  = base_text (Cwd (s2 :: r)).
Proof.
  intros Hv. apply Forall_cons_1 in Hv as [(_ & _ & Hs) _]. unfold base_text.
  change (rev (s :: s2 :: r)) with (rev (s2 :: r) ++ [s]).
  assert (Hne : rev (s2 :: r) <> []) by (simpl; destruct (rev r); simpl; congruence).
  rewrite join_with_snoc by done. rewrite (assoc_L (++)).
  split; [|apply take_app_length].
  unfold find_last_sep. apply rfind_byte_app. done.
Qed.

Lemma rep_segment resolve st x seg y :
  rep resolve st x -> MAIN_SEPARATOR ∉ seg -> aseg (Some x) seg = Some y ->
  rep resolve (segment resolve seg st) y /\ first (segment resolve seg st) = first st.
Proof.
  destruct x as [a stack]. intros [Hr (left & Hi & Hl) He Ha Hst] Hseg Hstep. simpl in *.
  case_bool_decide as Hdd.
  - subst seg. destruct stack as [|s rest].
    + unfold segment. simpl. simpl in Hi, Hr. rewrite Hi.
      destruct a as [|n|[|s [|s2 r]]]; try discriminate Hstep; injection Hstep as <-;
        simpl in *.
      * destruct left as [|i left]; rewrite He; simpl.
        -- split; [|done]. split; simpl; eauto.
        -- destruct Hl as [|(? & _ & Hl)]; [done|]. apply Forall_cons_1 in Hl as [Hi1 Hl].
           split; [|done]. split; simpl; eauto.
           ++ rewrite Hr, take_ge by (simpl; lia). done.
           ++ exists left. split; [done|]. right. eauto.
      * destruct Hl as [->|(_ & ? & _)]; [|done]. rewrite He, Ha. simpl.
        split; [|done]. split; simpl; eauto.
        -- by rewrite Hr.
        -- exists []. split; [done|by left].
      * destruct Hl as [->|(_ & ? & _)]; [|done]. destruct Ha as [-> Hv]. rewrite He. simpl.
        rewrite Hr. destruct (find_last_sep_cwd s s2 r Hv) as [-> Htake]. rewrite Htake.
        split; [|done]. split; simpl; eauto.
        -- exists []. split; [done|by left].
        -- split; [done|]. by apply Forall_cons_1 in Hv as [_ ?].
    + injection Hstep as <-.
      rewrite (segment_pop _ _ (base_text a) s rest left) by done.
      split; [|done]. apply Forall_cons_1 in Hst as [_ ?]. split; simpl; eauto.
  - destruct (is_dot seg) eqn:Hd; injection Hstep as <-.
    + rewrite segment_dot by done. split; [|done]. split; simpl; eauto.
    + rewrite (segment_push _ _ _ (base_text a) stack left) by done.
      split; [|done]. split; simpl; eauto. constructor; [|done]. by split_and!.
Qed.

Lemma aseg_None segs : foldl aseg None segs = None.
Proof. induction segs; simpl; auto. Qed.

Lemma rep_fold resolve st x segs y :
  rep resolve st x -> (forall s, s ∈ segs -> MAIN_SEPARATOR ∉ s) ->
  foldl aseg (Some x) segs = Some y ->
  rep resolve (foldl (fun st seg => segment resolve seg st) st segs) y /\
  first (foldl (fun st seg => segment resolve seg st) st segs) = first st.
Proof.
  revert st x. induction segs as [|s segs IH]; intros st x Hrep Hin Hf; cbn [foldl] in *.
  - by simplify_eq.
  - destruct (aseg (Some x) s) as [z|] eqn:Hz; [|by rewrite aseg_None in Hf].
    destruct (rep_segment _ _ _ _ _ Hrep (Hin s ltac:(by left)) Hz) as [Hrep' Hfst].
    rewrite <- Hfst. eapply IH; eauto. intros s' ?. apply Hin. by right.
Qed.

(** Walking a part is [asegs]. *)
Lemma rep_walk resolve st x part start y :
  rep resolve st x -> asegs (Some x) (drop start part) = Some y ->
  rep resolve (walk_part (length part) resolve part start st) y /\
  first (walk_part (length part) resolve part start st) = first st.
Proof.
  intros Hrep Hy. rewrite walk_part_split by lia. eapply rep_fold; eauto.
  intros s. apply split_on_not_in.
Qed.

(** ** From the loop's final text to the rendered path *)

Definition trail (segs : list (list Z)) : list Z := concat ((fun s => s ++ SEP) <$> segs).

Lemma trail_app s t : trail (s ++ t) = trail s ++ trail t.
Proof. unfold trail. by rewrite fmap_app, concat_app. Qed.

Lemma trail_join segs : segs <> [] -> trail segs = join_with SEP segs ++ SEP.
Proof.
  induction segs as [|s segs IH]; intros H; [done|].
  destruct segs as [|t segs]; [by unfold trail; simpl; rewrite app_nil_r|].
  rewrite join_with_cons by congruence.
  change (trail (s :: t :: segs)) with ((s ++ SEP) ++ trail (t :: segs)).
  rewrite IH by congruence. by rewrite <- !(assoc_L (++)).
Qed.

Lemma climb_trail n : climb n = trail (replicate n (str "..")).
Proof.
  induction n as [|n IH]; [done|]. rewrite replicate_S_end, trail_app. cbn [climb]. by rewrite IH.
Qed.

Lemma ends_sep_trail pre segs :
  segs <> [] -> ends_with_byte MAIN_SEPARATOR (pre ++ trail segs) = true.
Proof.
  intros H. rewrite trail_join by done. rewrite (assoc_L (++)).
  apply (ends_with_byte_snoc MAIN_SEPARATOR _ MAIN_SEPARATOR).
Qed.

Definition root_text (x : astate) : list Z := if absolute x then SEP else [].

Definition astate_ok (x : astate) : Prop :=
  Forall valid_seg x.2 /\ match x.1 with Cwd base => Forall valid_seg base | _ => True end.

Lemma join_not_ends segs :
  segs <> [] -> Forall plain segs -> ends_with_byte MAIN_SEPARATOR (join_with SEP segs) = false.
Proof.
  intros Hne Hp. destruct segs as [|s segs _] using rev_ind; [done|].
  apply Forall_app in Hp as [_ Hs]. apply Forall_cons_1 in Hs as [[Hs0 Hs] _].
  destruct s as [|x s _] using rev_ind; [done|].
  assert (Hx : (x =? MAIN_SEPARATOR)%Z = false).
  { apply Z.eqb_neq. intros ->. apply Hs, elem_of_app. right. by left. }
  destruct segs as [|t segs].
  - simpl. by rewrite ends_with_byte_snoc.
  - rewrite join_with_snoc by congruence. rewrite !(assoc_L (++)).
    by rewrite ends_with_byte_snoc.
Qed.

Lemma join_ne segs : segs <> [] -> Forall plain segs -> join_with SEP segs <> [].
Proof.
  intros Hne Hp. destruct segs as [|[|x s] segs]; [done| |].
  - apply Forall_cons_1 in Hp as [[? _] _]. done.
  - by destruct segs.
Qed.

Lemma valid_plain_list l : Forall valid_seg l -> Forall plain l.
Proof. intros H. eapply Forall_impl; [done|apply valid_plain]. Qed.

Lemma rev_ne {A} (l : list A) : l <> [] -> rev l <> [].
Proof. destruct l; [done|]. simpl. by destruct (rev l). Qed.

Lemma gap_sep pre segs :
  segs <> [] \/ pre = [] \/ pre = SEP -> gap (pre ++ trail segs) = [].
Proof.
  intros H. unfold gap. destruct segs as [|s segs].
  - destruct H as [|[-> | ->]]; done.
  - by rewrite ends_sep_trail.
Qed.

Lemma cwd_not_ends base :
  base <> [] -> Forall valid_seg base ->
  ends_with_byte MAIN_SEPARATOR (base_text (Cwd base)) = false.
Proof.
  intros Hne Hv. pose proof (rev_ne _ Hne) as Hne'.
  pose proof (valid_plain_list _ (List.Forall_rev Hv)) as Hp.
  change (base_text (Cwd base)) with (SEP ++ join_with SEP (rev base)).
  rewrite <- (join_not_ends (rev base)) by done. unfold ends_with_byte.
  rewrite last_app. pose proof (join_ne _ Hne' Hp) as Hj.
  destruct (last (join_with SEP (rev base))) eqn:E; [done|]. by apply last_None in E.
Qed.

(** The gap after the text of a working directory. *)
Lemma cwd_gap base :
  Forall valid_seg base ->
  base_text (Cwd base) ++ gap (base_text (Cwd base)) = SEP ++ trail (rev base).
Proof.
  intros Hv. destruct (decide (base = [])) as [->|Hne]; [done|].
  pose proof (rev_ne _ Hne) as Hne'.
  unfold gap. rewrite cwd_not_ends by done. rewrite bool_decide_eq_false_2 by done.
  unfold base_text. rewrite trail_join by done. by rewrite <- (assoc_L (++)).
Qed.

Lemma text_trail x :
  astate_ok x -> x.2 <> [] \/ (forall b, x.1 <> Cwd b) ->
  text (base_text x.1) x.2 = root_text x ++ trail (segments x).
Proof.
  destruct x as [a stack]. intros [Hv Ha] Hc. cbn [fst snd] in *.
  induction stack as [|s rest IH].
  - destruct Hc as [|Hc]; [done|]. destruct a as [|n|b]; [done| |by destruct (Hc b)].
    unfold root_text, base_text. simpl. by rewrite app_nil_r, climb_trail.
  - apply Forall_cons_1 in Hv as [Hs Hv]. specialize (IH Hv). cbn [text].
    assert (Hd : (rest = [] /\ exists b, a = Cwd b) \/ (rest <> [] \/ forall b, a <> Cwd b)).
    { destruct rest; [|by right; left]. destruct a; [right; right; congruence..|].
      left. eauto. }
    assert (Hgap : text (base_text a) rest ++ gap (text (base_text a) rest)
      = root_text (a, rest) ++ trail (segments (a, rest))).
    { destruct Hd as [[-> [b ->]]|Hn].
      - simpl. rewrite app_nil_r. by apply cwd_gap.
      - rewrite (IH Hn). rewrite gap_sep, app_nil_r; [done|].
        destruct (segments (a, rest)) eqn:E; [|by left]. right.
        destruct a; unfold root_text; simpl; auto. }
    rewrite (assoc_L (++)), Hgap, <- (assoc_L (++)). unfold root_text. f_equal.
    assert (Ht : trail [s] = s ++ SEP) by (unfold trail; simpl; by rewrite app_nil_r).
    destruct a; cbn [segments rev]; rewrite ?trail_app, Ht; by rewrite <- ?(assoc_L (++)).
Qed.

(** [segments] never contains an empty or separator-holding piece. *)
Lemma segments_plain x : astate_ok x -> Forall plain (segments x).
Proof.
  destruct x as [a stack]. intros [Hv Ha]. simpl in *.
  pose proof (valid_plain_list _ (List.Forall_rev Hv)) as Hr.
  destruct a as [|n|base]; [done| |].
  - apply Forall_app. split; [|done]. apply Forall_replicate. split; [done|].
    intros H. by repeat (apply elem_of_cons in H as [?|H]; [done|]); apply elem_of_nil in H.
  - apply Forall_app. split; [|done]. by apply valid_plain_list, List.Forall_rev.
Qed.

(** The end of [join_resolve_path]. *)
Definition finish (resolve : bool) (res : list Z) : list Z :=
  let res := if negb resolve && bool_decide (res = []) then res ++ str "." else res in
  if (1 <? length res)%nat && ends_with_sep res then take (length res - 1) res else res.

Lemma finish_sep resolve s : s <> [] -> finish resolve (s ++ SEP) = s.
Proof.
  intros Hs. unfold finish. rewrite bool_decide_eq_false_2 by (by destruct s).
  rewrite andb_false_r.
  assert (Hl : (1 <? length (s ++ SEP)) = true).
  { apply Nat.ltb_lt. rewrite length_app. simpl. destruct s; [done|]. simpl. lia. }
  rewrite Hl. unfold ends_with_sep, SEP. rewrite ends_with_byte_snoc. simpl.
  apply take_app_length'. rewrite length_app. simpl. lia.
Qed.

Lemma finish_no_sep resolve s :
  s <> [] -> ends_with_sep s = false -> finish resolve s = s.
Proof.
  intros Hs He. unfold finish. rewrite bool_decide_eq_false_2 by done.
  by rewrite andb_false_r, He, andb_false_r.
Qed.

Lemma finish_render resolve x :
  astate_ok x -> anchor_ok resolve x.1 ->
  finish resolve (text (base_text x.1) x.2) = render x.
Proof.
  intros Hok Ha. pose proof (segments_plain x Hok) as Hp. unfold render.
  destruct (decide (segments x = [])) as [Hs|Hs].
  - rewrite (bool_decide_eq_true_2 (segments x = [])) by done. rewrite Hs.
    destruct x as [[|[|n]|base] stack]; simpl in Hs.
    + destruct stack; [by destruct resolve|]. by apply app_eq_nil in Hs as [_ ?].
    + destruct stack; [simpl in Ha; by subst|]. by apply app_eq_nil in Hs as [_ ?].
    + done.
    + apply app_eq_nil in Hs as [Hb Hs].
      destruct base; [|by apply app_eq_nil in Hb as [_ ?]].
      destruct stack; [by destruct resolve|]. by apply app_eq_nil in Hs as [_ ?].
  - rewrite (bool_decide_eq_false_2 (segments x = [])) by done.
    pose proof (join_ne _ Hs Hp) as Hj. fold (root_text x).
    destruct (decide (x.2 = [])) as [Hst|Hst].
    2: { rewrite text_trail by (try done; by left). rewrite trail_join, (assoc_L (++)) by done.
         apply finish_sep. by destruct (root_text x). }
    destruct x as [[|n|base] stack]; simpl in Hst; subst stack.
    1,2: rewrite text_trail by (try done; right; intros; simpl; congruence);
      rewrite trail_join, (assoc_L (++)) by done; apply finish_sep; by destruct (root_text _).
    simpl in Hs, Hp, Hj |- *. rewrite app_nil_r in *. unfold root_text. simpl.
    apply finish_no_sep; [done|].
    apply cwd_not_ends; [by intros ->|apply Hok].
Qed.

(** ** join_resolve_path refines the specification *)

Lemma rep_ok resolve st x : rep resolve st x -> astate_ok x.
Proof.
  intros [_ _ _ Ha Hs]. split; [done|]. destruct x.1; simpl in *; tauto.
Qed.

Lemma rep_finish resolve st x : rep resolve st x -> finish resolve (result st) = render x.
Proof.
  intros H. pose proof (rep_ok _ _ _ H). destruct H as [-> _ _ Ha _]. by apply finish_render.
Qed.

(** [first] plays no part in the representation. *)
Lemma rep_first resolve st x f :
  rep resolve st x ->
  rep resolve {| result := result st; index_stack := index_stack st; empty := empty st; first := f |} x.
Proof. intros [???? ?]. by split. Qed.

Definition no_cwd (x : astate) : Prop := forall b, x.1 <> Cwd b.

Lemma aseg_total x s : no_cwd x -> exists y, aseg (Some x) s = Some y /\ no_cwd y.
Proof.
  destruct x as [a stack]. intros Hc. unfold no_cwd in *. simpl in *.
  case_tests; destruct stack, a; try (by edestruct Hc); eexists; split; try done; simpl; done.
Qed.

Lemma asegs_total x p : no_cwd x -> exists y, asegs (Some x) p = Some y /\ no_cwd y.
Proof.
  unfold asegs. revert x. induction (split_on MAIN_SEPARATOR p) as [|s segs IH]; intros x Hc.
  - by exists x.
  - destruct (aseg_total x s Hc) as (y & Hy & Hc'). cbn [foldl]. rewrite Hy. by apply IH.
Qed.

Lemma join_step st x part :
  rep false st x -> no_cwd x -> first st = false ->
  exists y, asegs (Some x) part = Some y /\ no_cwd y /\
    rep false (do_part false st part) y /\ first (do_part false st part) = false.
Proof.
  intros Hrep Hc Hf. destruct (asegs_total x part Hc) as (y & Hy & Hcy).
  exists y. split_and!; [done..| |]; unfold do_part; rewrite Hf, andb_false_r.
  - apply rep_first. by apply (rep_walk false st x part 0 y).
  - cbn [first]. destruct (rep_walk false st x part 0 y) as [_ ->]; [done..|]. by rewrite Hf.
Qed.

Lemma join_rest parts st x :
  rep false st x -> no_cwd x -> first st = false ->
  exists y, foldl asegs (Some x) parts = Some y /\ rep false (foldl (do_part false) st parts) y.
Proof.
  revert st x. induction parts as [|p parts IH]; intros st x Hrep Hc Hf; cbn [foldl].
  - by exists x.
  - destruct (join_step st x p Hrep Hc Hf) as (y & -> & Hcy & Hrep' & Hf'). by eapply IH.
Qed.

Definition jr_init (res : list Z) : jr_state :=
  {| result := res; index_stack := []; empty := true; first := true |}.

Lemma rep_init_join : rep false (jr_init []) (Up 0, []).
Proof. split; simpl; try done. exists []. split; [done|by left]. Qed.

Lemma rep_root resolve ist f :
  (ist = [] \/ (resolve = true /\ Forall (fun i => 1 <= i) ist)) ->
  rep resolve {| result := SEP; index_stack := ist; empty := false; first := f |} (Root, []).
Proof.
  intros H. split; simpl; try done. exists ist. split; [done|].
  destruct H as [->|[-> ?]]; [by left|by right].
Qed.

Lemma spec_join_cons c p ps :
  spec_join ((c :: p) :: ps) =
  foldl asegs (asegs (Some (if starts_with_sep (c :: p) then Root else Up 0, []))
                 (if starts_with_sep (c :: p) then drop 1 (c :: p) else c :: p)) ps.
Proof. cbn [spec_join]. by destruct (starts_with_sep (c :: p)). Qed.

Lemma join_correct parts :
  exists y, spec_join parts = Some y /\ rep false (foldl (do_part false) (jr_init []) parts) y.
Proof.
  induction parts as [|p parts IH]; cbn [foldl].
  - exists (Up 0, []). split; [done|apply rep_init_join].
  - destruct p as [|c p]; [exact IH|]. clear IH. rewrite spec_join_cons.
    assert (Hnc : no_cwd (Up 0, []) /\ no_cwd (Root, [])) by (split; intros b; simpl; congruence).
    destruct Hnc as [Hn1 Hn2].
    destruct (starts_with_sep (c :: p)) eqn:Hsep; cbv match.
    + destruct (asegs_total (Root, []) (drop 1 (c :: p)) Hn2) as (y & Hy & Hcy).
      rewrite Hy. apply join_rest; [|done|].
      * unfold do_part. rewrite Hsep. apply rep_first.
        apply (rep_walk false _ (Root, []) _ 1 y); [|done]. apply rep_root. by left.
      * unfold do_part. rewrite Hsep. simpl. apply andb_false_r.
    + destruct (asegs_total (Up 0, []) (c :: p) Hn1) as (y & Hy & Hcy).
      rewrite Hy. apply join_rest; [|done|].
      * unfold do_part. rewrite Hsep. apply rep_first.
        apply (rep_walk false _ (Up 0, []) _ 0 y); [|done]. apply rep_init_join.
      * unfold do_part. rewrite Hsep. simpl. apply andb_false_r.
Qed.

(** ** resolve *)

Lemma marks_pos base stack : base <> [] -> Forall (fun i => 1 <= i) (marks base stack).
Proof.
  intros Hb. induction stack as [|s stack IH]; simpl; constructor; [|done].
  clear IH. induction stack as [|t stack IH]; simpl.
  - destruct base; simpl; [done|lia].
  - rewrite !length_app. lia.
Qed.

Lemma rep_marks_pos st x : rep true st x -> Forall (fun i => 1 <= i) (index_stack st).
Proof.
  intros [_ (left & -> & Hl) _ Ha _]. apply Forall_app. split.
  - apply marks_pos. destruct x.1; simpl in *; try done.
  - destruct Hl as [->|(_ & _ & ?)]; done.
Qed.

Lemma resolve_step st x part y :
  rep true st x -> aresolve (Some x) part = Some y -> rep true (do_part true st part) y.
Proof.
  intros Hrep Hy. unfold aresolve in Hy. unfold is_absolute in Hy. unfold do_part.
  destruct (starts_with SEP part) eqn:Hs; apply rep_first.
  - eapply (rep_walk true _ (Root, [])); [|].
    + apply rep_root. right. split; [done|by eapply rep_marks_pos].
    + unfold starts_with in Hs. apply bool_decide_eq_true_1 in Hs as [rest ->].
      exact Hy.
  - by eapply (rep_walk true st x part 0).
Qed.

Lemma aresolve_None parts : foldl aresolve None parts = None.
Proof. induction parts; simpl; auto. Qed.

Lemma resolve_fold parts st x y :
  rep true st x -> foldl aresolve (Some x) parts = Some y ->
  rep true (foldl (do_part true) st parts) y.
Proof.
  revert st x. induction parts as [|p parts IH]; intros st x Hrep Hf; cbn [foldl] in *.
  - by simplify_eq.
  - destruct (aresolve (Some x) p) as [z|] eqn:Hz; [|by rewrite aresolve_None in Hf].
    eapply IH; [by eapply resolve_step|done].
Qed.

Lemma strip_cwd base :
  Forall valid_seg base ->
  let cwd := base_text (Cwd base) in
  let res := if ends_with_byte MAIN_SEPARATOR cwd then cwd else cwd ++ SEP in
  (if ends_with_sep res && (1 <? length res)%nat then take (length res - 1) res else res) = cwd.
Proof.
  intros Hv. cbv zeta. destruct (decide (base = [])) as [->|Hne]; [done|].
  rewrite cwd_not_ends by done. unfold ends_with_sep.
  assert (He : ends_with_byte MAIN_SEPARATOR (base_text (Cwd base) ++ SEP) = true)
    by apply (ends_with_byte_snoc MAIN_SEPARATOR _ MAIN_SEPARATOR).
  assert (Hl : (1 <? length (base_text (Cwd base) ++ SEP)) = true)
    by (apply Nat.ltb_lt; rewrite length_app; unfold base_text; simpl; lia).
  rewrite He, Hl. cbv [andb]. apply take_app_length'. rewrite length_app. simpl. lia.
Qed.

Lemma spec_resolve_absolute parts x y :
  absolute x = true -> foldl aresolve (Some x) parts = Some y -> absolute y = true.
Proof.
  assert (Hseg : forall segs x y, absolute x = true -> foldl aseg (Some x) segs = Some y ->
    absolute y = true).
  { induction segs as [|s segs IH]; intros [a stack] z Hx Hf; cbn [foldl] in Hf; [by simplify_eq|].
    destruct (aseg (Some (a, stack)) s) as [w|] eqn:Hw; [|by rewrite aseg_None in Hf].
    eapply IH; [|exact Hf]. unfold aseg in Hw. clear -Hx Hw.
    destruct (bool_decide (s = str "..")), (is_dot s), stack, a as [| |[|? []]];
      try discriminate Hx; try discriminate Hw; by injection Hw as <-. }
  revert x. induction parts as [|p parts IH]; intros x Hx Hf; cbn [foldl] in Hf; [by simplify_eq|].
  destruct (aresolve (Some x) p) as [z|] eqn:Hz; [|by rewrite aresolve_None in Hf].
  eapply IH; [|exact Hf]. unfold aresolve, asegs in Hz.
  destruct (is_absolute p); (eapply Hseg; [|exact Hz]); done.
Qed.

(** ** Normal forms *)

(** A state whose segments are all ordinary names. *)
Lemma split_render x :
  astate_ok x -> segments x <> [] ->
  split_on MAIN_SEPARATOR (join_with SEP (segments x)) = segments x.
Proof.
  intros Hok Hne. apply split_on_join; [done|]. intros p Hp.
  pose proof (segments_plain x Hok) as Hpl. rewrite Forall_forall in Hpl.
  by apply Hpl.
Qed.

Lemma aseg_valid x s : valid_seg s -> aseg (Some x) s = Some (x.1, s :: x.2).
Proof.
  destruct x as [a stack]. intros (H1 & H2 & _). unfold aseg.
  by rewrite bool_decide_eq_false_2, H2.
Qed.

Lemma foldl_aseg_valid x segs :
  Forall valid_seg segs -> foldl aseg (Some x) segs = Some (x.1, rev segs ++ x.2).
Proof.
  revert x. induction segs as [|s segs IH]; intros [a stack] Hv; cbn [foldl rev].
  - done.
  - apply Forall_cons_1 in Hv as [Hs Hv]. rewrite aseg_valid by done.
    rewrite IH by done. simpl. by rewrite <- (assoc_L (++)).
Qed.

Lemma foldl_aseg_ups n k : foldl aseg (Some (Up k, [])) (replicate n (str "..")) = Some (Up (k + n), []).
Proof.
  revert k. induction n as [|n IH]; intros k.
  - simpl. by rewrite Nat.add_0_r.
  - cbn [replicate foldl]. change (aseg (Some (Up k, [])) (str "..")) with (Some (Up (S k), @nil (list Z))).
    rewrite IH. do 3 f_equal. lia.
Qed.

(** Parsing the segments of a state that is not [Cwd] gives it back. *)
Lemma foldl_aseg_segments a stack :
  Forall valid_seg stack -> (forall b, a <> Cwd b) ->
  foldl aseg (Some (match a with Root => Root | _ => Up 0 end, [])) (segments (a, stack))
  = Some (a, stack).
Proof.
  intros Hv Hc. pose proof (List.Forall_rev Hv) as Hr. destruct a as [|n|b]; cbn [segments].
  - rewrite foldl_aseg_valid by done. cbn [fst snd]. by rewrite rev_involutive, app_nil_r.
  - rewrite foldl_app, foldl_aseg_ups, foldl_aseg_valid by done. cbn [fst snd].
    by rewrite rev_involutive, app_nil_r.
  - by destruct (Hc b).
Qed.

(** ** Bytes of the segments come from the path *)

Lemma split_on_bytes c s p b : p ∈ split_on c s -> b ∈ p -> b ∈ s.
Proof.
  intros Hp Hb. rewrite <- (join_split_on c s). revert Hp.
  induction (split_on c s) as [|q qs IH]; intros Hp; [by apply elem_of_nil in Hp|].
  apply elem_of_cons in Hp as [->|Hp]; destruct qs as [|r qs].
  - done.
  - rewrite join_with_cons by congruence. apply elem_of_app. by left.
  - by apply elem_of_nil in Hp.
  - rewrite join_with_cons by congruence. rewrite !elem_of_app. right. right. by apply IH.
Qed.

Lemma aseg_bytes b x segs y :
  foldl aseg (Some x) segs = Some y ->
  (forall s, s ∈ segs ++ x.2 -> b ∉ s) -> (forall s, s ∈ y.2 -> b ∉ s).
Proof.
  revert x. induction segs as [|s segs IH]; intros [a stack] Hf Hb; cbn [foldl] in Hf.
  - simplify_eq. intros t Ht. by apply Hb.
  - destruct (aseg (Some (a, stack)) s) as [z|] eqn:Hz; [|by rewrite aseg_None in Hf].
    apply (IH z Hf). intros t Ht. apply Hb. cbn [snd] in *.
    unfold aseg in Hz. rewrite <- app_comm_cons, elem_of_cons, elem_of_app.
    apply elem_of_app in Ht as [Ht|Ht]; [by right; left|].
    destruct (bool_decide (s = str "..")), (is_dot s), stack, a as [| |[|? []]];
      try discriminate Hz; injection Hz as <-; cbn [snd] in Ht;
      rewrite ?elem_of_cons in *; tauto.
Qed.

Lemma spec_join_one c p x :
  spec_join [c :: p] = Some x ->
  asegs (Some (if starts_with_sep (c :: p) then Root else Up 0, []))
    (if starts_with_sep (c :: p) then p else c :: p) = Some x.
Proof. rewrite spec_join_cons. by destruct (starts_with_sep (c :: p)). Qed.

Lemma normalize_bytes b p x :
  spec_join [p] = Some x -> b ∉ p -> forall s, s ∈ x.2 -> b ∉ s.
Proof.
  destruct p as [|c p].
  - intros [= <-] _ s Hs. by apply elem_of_nil in Hs.
  - intros Hx%spec_join_one Hb. unfold asegs in Hx. eapply aseg_bytes; [done|].
    intros s Hs Hbs. rewrite app_nil_r in Hs. apply Hb.
    eapply split_on_bytes in Hbs; [|done].
    destruct (starts_with_sep (c :: p)); [by right|done].
Qed.

Lemma asegs_root stack :
  Forall valid_seg stack ->
  asegs (Some (Root, [])) (join_with SEP (rev stack)) = Some (Root, stack).
Proof.
  intros Hv. unfold asegs. destruct (decide (stack = [])) as [->|Hne]; [done|].
  pose proof (split_render (Root, stack)) as Hs. cbn [segments] in Hs.
  rewrite Hs; [|by split|by apply rev_ne].
  by apply (foldl_aseg_segments Root stack).
Qed.

Lemma spec_join_render x :
  astate_ok x -> no_cwd x -> (forall s, s ∈ x.2 -> BACKSLASH ∉ s) ->
  spec_join [render x] = Some x.
Proof.
  destruct x as [a stack]. intros Hok Hc Hb. pose proof Hok as [Hv _]. cbn [snd] in *.
  destruct a as [|n|b]; [| |by destruct (Hc b)].
  - change (spec_join [MAIN_SEPARATOR :: join_with SEP (rev stack)] = Some (Root, stack)).
    rewrite spec_join_cons. by apply (asegs_root stack).
  - unfold render. cbn [absolute fst]. destruct (segments (Up n, stack)) as [|s segs] eqn:Hs.
    + simpl in Hs. apply app_eq_nil in Hs as [Hn Hs]. destruct n; [|done].
      destruct stack; [done|]. by apply app_eq_nil in Hs as [_ ?].
    + assert (Hne : segments (Up n, stack) <> []) by (rewrite Hs; congruence).
      assert (Hfold := foldl_aseg_segments (Up n) stack Hv Hc). cbv match in Hfold.
      rewrite <- (split_render _ Hok Hne), Hs in Hfold.
      rewrite bool_decide_eq_false_2 by congruence. cbn [app].
      assert (Hhead : exists c p, join_with SEP (s :: segs) = c :: p /\ starts_with_sep (c :: p) = false).
      { pose proof (segments_plain _ Hok) as Hpl. rewrite Hs in Hpl.
        apply Forall_cons_1 in Hpl as [[Hs0 Hs1] _]. destruct s as [|c s]; [done|].
        exists c, (match segs with [] => s | _ => s ++ SEP ++ join_with SEP segs end).
        split; [by destruct segs|]. simpl.
        assert (Hc1 : c <> MAIN_SEPARATOR) by (intros ->; apply Hs1; by left).
        assert (Hc2 : c <> BACKSLASH).
        { intros ->. assert (Hin : (BACKSLASH :: s) ∈ segments (Up n, stack)) by (rewrite Hs; by left).
          cbn [segments] in Hin. apply elem_of_app in Hin as [Hin|Hin].
          - by apply elem_of_replicate in Hin as [? _].
          - apply list_elem_of_In, in_rev, list_elem_of_In in Hin. apply (Hb _ Hin). by left. }
        apply orb_false_iff. by split; apply Z.eqb_neq. }
      destruct Hhead as (c & p & Heq & Hsw). rewrite Heq in *. rewrite spec_join_cons, Hsw. done.
Qed.

(** ** The loops of [relative] *)

(** [cursor s i ps]: from index [i] the loops of [relative] read the
    components [ps]. *)
Inductive cursor (s : list Z) : nat -> list (list Z) -> Prop :=
| cursor_end i : length s <= i -> cursor s i []
| cursor_step i ps :
    i < length s -> cursor s (next_end s i + 1) ps -> cursor s i (component s i :: ps).

Lemma next_end_ge s i : i <= next_end s i.
Proof. unfold next_end. lia. Qed.

Lemma cursor_length s i ps : cursor s i ps -> length ps <= length s - i.
Proof.
  induction 1 as [|i ps Hi _ IH]; simpl; [lia|]. pose proof (next_end_ge s i). lia.
Qed.

Lemma drop_cons_lt {A} (s : list A) i x r : drop i s = x :: r -> i < length s.
Proof.
  intros H. destruct (decide (i < length s)); [done|]. by rewrite drop_ge in H by lia.
Qed.

Lemma cursor_join s i p ps :
  drop i s = join_with SEP (p :: ps) -> i < length s -> MAIN_SEPARATOR ∉ p -> Forall plain ps ->
  cursor s i (p :: ps).
Proof.
  revert i p. induction ps as [|q ps IH]; intros i p Hd Hlt Hp Hpl.
  - simpl in Hd. pose proof (length_drop s i) as Hlen. rewrite Hd in Hlen.
    assert (Hne : next_end s i = length s).
    { unfold next_end, find_next_separator. rewrite Hd, (proj2 (find_byte_None _ _) Hp). simpl. lia. }
    replace p with (component s i).
    + constructor; [done|]. constructor. lia.
    + unfold component. rewrite Hne, Hd, take_ge by lia. done.
  - rewrite join_with_cons in Hd by congruence. apply Forall_cons_1 in Hpl as [[Hq0 Hq] Hpl].
    assert (Hf : find_next_separator (drop i s) = Some (length p)).
    { rewrite Hd. by apply find_byte_app. }
    assert (Hne : next_end s i = length p + i) by (unfold next_end; by rewrite Hf).
    assert (Hrest : drop (next_end s i + 1) s = join_with SEP (q :: ps)).
    { rewrite Hne. replace (length p + i + 1) with (i + (length p + 1)) by lia.
      rewrite <- drop_drop, Hd. rewrite (assoc_L (++)). apply drop_app_length'.
      rewrite length_app. done. }
    replace p with (component s i).
    + constructor; [done|]. apply IH; try done.
      assert (Hj : join_with SEP (q :: ps) <> [])
        by (destruct q; [done|]; by destruct ps).
      destruct (join_with SEP (q :: ps)) eqn:E; [done|]. by eapply drop_cons_lt.
    + unfold component. rewrite Hne. replace (length p + i - i) with (length p) by lia.
      rewrite Hd. apply take_app_length.
Qed.

(** The components of a rooted path. *)
Lemma cursor_rooted segs : Forall plain segs -> cursor (SEP ++ join_with SEP segs) 0 ([] :: segs).
Proof.
  intros Hp. destruct segs as [|s segs].
  - apply (cursor_step SEP 0 []); [simpl; lia|]. constructor. done.
  - apply cursor_join; [reflexivity|simpl; lia|apply not_elem_of_nil|done].
Qed.

(** The reference definition: drop the common prefix of two lists. *)
Fixpoint strip_common (f t : list (list Z)) : list (list Z) * list (list Z) :=
  match f, t with
  | x :: f', y :: t' => if bool_decide (x = y) then strip_common f' t' else (f, t)
  | _, _ => (f, t)
  end.

Lemma strip_common_spec f t :
  exists c, f = c ++ (strip_common f t).1 /\ t = c ++ (strip_common f t).2.
Proof.
  revert t. induction f as [|x f IH]; intros [|y t]; simpl; try by exists [].
  case_bool_decide as Hxy; [subst|by exists []].
  destruct (IH t) as (c & Hf & Ht). exists (y :: c). simpl. by split; f_equal.
Qed.

Lemma skip_common_spec fuel from to i j f t :
  cursor from i f -> cursor to j t -> length f <= fuel ->
  cursor from (skip_common fuel from to i j).1 (strip_common f t).1 /\
  cursor to (skip_common fuel from to i j).2 (strip_common f t).2.
Proof.
  intros Hf. revert j t fuel. induction Hf as [i Hi|i ps Hi Hf IH]; intros j t fuel Ht Hfuel.
  - assert (Hs : skip_common fuel from to i j = (i, j)).
    { destruct fuel; [done|]. simpl. by rewrite (proj2 (Nat.ltb_ge i _)) by lia. }
    rewrite Hs. destruct t; simpl; split; try done; by constructor.
  - simpl in Hfuel. destruct fuel as [|fuel]; [lia|]. simpl.
    rewrite (proj2 (Nat.ltb_lt i _)) by done. inversion Ht as [? Hj|? qs Hj Ht']; subst.
    + rewrite (proj2 (Nat.ltb_ge j _)) by done. simpl. split; [by constructor|done].
    + rewrite (proj2 (Nat.ltb_lt j _)) by done. simpl.
      case_bool_decide as Heq; [apply IH; [done|lia]|].
      split; by constructor.
Qed.

(** A relative path under construction, as the list of its components. *)
Lemma push_component l c :
  Forall plain l ->
  (if bool_decide (join_with SEP l = []) then join_with SEP l else join_with SEP l ++ SEP) ++ c
  = join_with SEP (l ++ [c]).
Proof.
  intros Hp. destruct (decide (l = [])) as [->|Hne]; [done|].
  rewrite bool_decide_eq_false_2 by (by apply join_ne).
  rewrite join_with_snoc by done. by rewrite <- (assoc_L (++)).
Qed.

Lemma plain_dotdot : plain (str "..").
Proof.
  split; [done|]. intros H.
  by repeat (apply elem_of_cons in H as [?|H]; [done|]); apply elem_of_nil in H.
Qed.

Lemma add_ups_spec fuel from i f l :
  cursor from i f -> length f <= fuel -> Forall plain l ->
  add_ups fuel from i (join_with SEP l) = join_with SEP (l ++ replicate (length f) (str "..")).
Proof.
  intros Hf. revert fuel l. induction Hf as [i Hi|i ps Hi Hf IH]; intros fuel l Hfuel Hl; simpl in *.
  - rewrite app_nil_r. destruct fuel; [done|]. simpl. by rewrite (proj2 (Nat.ltb_ge i _)).
  - destruct fuel as [|fuel]; [lia|]. cbn [add_ups].
    rewrite (proj2 (Nat.ltb_lt i _)) by done.
    rewrite push_component by done. rewrite IH; [|lia|].
    + by rewrite <- (assoc_L (++)).
    + apply Forall_app. split; [done|]. repeat constructor; apply plain_dotdot.
Qed.

Lemma add_rest_spec fuel to j t l :
  cursor to j t -> length t <= fuel -> Forall plain l -> Forall valid_seg t ->
  add_rest fuel to j (join_with SEP l) = join_with SEP (l ++ t).
Proof.
  intros Ht. revert fuel l. induction Ht as [j Hj|j ps Hj Ht IH]; intros fuel l Hfuel Hl Hv; simpl in *.
  - rewrite app_nil_r. destruct fuel; [done|]. simpl. by rewrite (proj2 (Nat.ltb_ge j _)).
  - destruct fuel as [|fuel]; [lia|]. cbn [add_rest].
    rewrite (proj2 (Nat.ltb_lt j _)) by done.
    apply Forall_cons_1 in Hv as [Hs Hv].
    assert (Hd : component to j <> str ".").
    { intros E. destruct Hs as (_ & Hd & _). by rewrite E in Hd. }
    rewrite (bool_decide_eq_false_2 (component to j = str ".")) by done.
    rewrite push_component by done. rewrite IH; [|lia| |done].
    + by rewrite <- (assoc_L (++)).
    + apply Forall_app. split; [done|]. repeat constructor; by apply valid_plain.
Qed.

(** [relative] between two normal absolute paths. *)
Lemma relative_spec cwd f t :
  Forall valid_seg f -> Forall valid_seg t -> f <> t ->
  relative cwd (SEP ++ join_with SEP f) (SEP ++ join_with SEP t) =
  join_with SEP (replicate (length (strip_common f t).1) (str "..") ++ (strip_common f t).2).
Proof.
  intros Hf Ht Hne. pose proof (valid_plain_list _ Hf) as Hpf.
  pose proof (valid_plain_list _ Ht) as Hpt.
  pose proof (cursor_rooted f Hpf) as Cf. pose proof (cursor_rooted t Hpt) as Ct.
  destruct (strip_common_spec f t) as (c & Ef & Et).
  set (from := SEP ++ join_with SEP f) in *. set (to := SEP ++ join_with SEP t) in *.
  assert (Hft : from <> to).
  { intros E. unfold from, to in E. apply app_inv_head in E. apply Hne.
    destruct (decide (f = [])) as [->|Hf0], (decide (t = [])) as [->|Ht0]; try done.
    - symmetry in E. by apply join_ne in E.
    - by apply join_ne in E.
    - rewrite <- (split_on_join MAIN_SEPARATOR f), <- (split_on_join MAIN_SEPARATOR t); try done.
      + by f_equal.
      + rewrite Forall_forall in Hpt. intros p Hp. by apply Hpt.
      + rewrite Forall_forall in Hpf. intros p Hp. by apply Hpf. }
  unfold relative. rewrite bool_decide_eq_false_2 by done.
  change (is_absolute from) with true. change (is_absolute to) with true. cbv zeta match.
  destruct (skip_common_spec (length from) from to 0 0 _ _ Cf Ct) as [C1 C2].
  { pose proof (cursor_length _ _ _ Cf). lia. }
  destruct (skip_common (length from) from to 0 0) as [i j]. cbn [fst snd] in C1, C2.
  change (strip_common ([] :: f) ([] :: t)) with (strip_common f t) in *.
  destruct (strip_common f t) as [f' t']. cbn [fst snd] in *.
  pose proof (cursor_length _ _ _ C1). pose proof (cursor_length _ _ _ C2).
  rewrite (add_ups_spec _ _ _ f' []) by (try done; lia). cbn [app].
  assert (Hup : Forall plain (replicate (length f') (str "..")))
    by (apply Forall_replicate, plain_dotdot).
  assert (Hvt : Forall valid_seg t') by (subst t; by apply Forall_app in Ht as [_ ?]).
  rewrite (add_rest_spec _ _ _ t') by (try done; lia).
  rewrite bool_decide_eq_false_2; [done|]. apply join_ne.
  - intros E. apply app_eq_nil in E as [E1 ->]. apply Hne. destruct f'; [|done]. congruence.
  - apply Forall_app. split; [done|]. by apply valid_plain_list.
Qed.

(** ** dirname and basename *)

(** Scanning down over bytes that are not separators. *)
Lemma dirname_loop_plain is_separator s offset n m matched :
  m <= n -> (forall i b, offset + m <= i -> i < offset + n -> s !! i = Some b -> is_separator b = false) ->
  offset + n <= length s ->
  find_dirname_end_loop is_separator s offset n matched =
  find_dirname_end_loop is_separator s offset m (if (m <? n)%nat then false else matched).
Proof.
  revert matched. induction n as [|n IH]; intros matched Hm Hp Hlen.
  - replace m with 0 by lia. done.
  - destruct (decide (m = S n)) as [->|Hne]; [by rewrite (proj2 (Nat.ltb_ge _ _))|].
    cbn [find_dirname_end_loop].
    destruct (lookup_lt_is_Some_2 s (offset + n)) as [b Hb]; [lia|].
    rewrite Hb, (Hp (offset + n) b) by (done || lia). rewrite IH; [|lia| |lia].
    + rewrite (proj2 (Nat.ltb_lt m (S n))) by lia. by destruct (m <? n).
    + intros i b' ???. eapply Hp; eauto; lia.
Qed.

Lemma find_dirname_end_split is_separator dir base sepb offset :
  is_separator sepb = true -> offset <= length dir -> base <> [] ->
  (forall b, b ∈ base -> is_separator b = false) ->
  find_dirname_end is_separator (dir ++ sepb :: base) offset = Some (length dir).
Proof.
  intros Hsep Hoff Hne Hp. unfold find_dirname_end.
  set (s := dir ++ sepb :: base).
  assert (Hlen : length s = length dir + S (length base)) by (unfold s; by rewrite length_app).
  assert (Hbl : 0 < length base) by (destruct base; [done|simpl; lia]).
  rewrite (dirname_loop_plain _ s offset _ (S (length dir - offset))).
  - rewrite (proj2 (Nat.ltb_lt _ _)) by lia. cbn [find_dirname_end_loop].
    replace (offset + (length dir - offset)) with (length dir) by lia.
    unfold s. rewrite lookup_app_r, Nat.sub_diag by lia. simpl. by rewrite Hsep.
  - lia.
  - intros i b H1 H2 Hb. apply Hp. unfold s in Hb. rewrite lookup_app_r in Hb by lia.
    destruct (i - length dir) as [|k] eqn:E; [lia|]. simpl in Hb.
    by apply list_elem_of_lookup_2 in Hb.
  - lia.
Qed.

Lemma basename_split dir base :
  plain base -> basename (dir ++ SEP ++ base) None = base.
Proof.
  intros Hb. unfold basename.
  assert (H1 : dir ++ SEP ++ base <> []) by (destruct dir; simpl; congruence).
  assert (H2 : dir ++ SEP ++ base <> SEP).
  { intros E. apply (f_equal length) in E. rewrite !length_app in E. simpl in E.
    destruct base; [by destruct Hb|]. simpl in E. lia. }
  rewrite !bool_decide_eq_false_2 by done. cbn [orb]. unfold name_extname.
  assert (Hstrip : strip_last_sep (dir ++ SEP ++ base) = dir ++ SEP ++ base).
  { unfold strip_last_sep, ends_with_sep, ends_with_byte.
    pose proof (plain_not_ends base Hb) as He. unfold ends_with_byte in He.
    rewrite !last_app. destruct (last base) eqn:El; [by rewrite He|].
    apply last_None in El. by destruct Hb. }
  rewrite Hstrip. unfold find_last_sep. change (SEP ++ base) with (MAIN_SEPARATOR :: base).
  rewrite rfind_byte_app by apply Hb.
  assert (Hd : drop (length dir + 1) (dir ++ MAIN_SEPARATOR :: base) = base).
  { change (MAIN_SEPARATOR :: base) with (SEP ++ base). rewrite (assoc_L (++)).
    apply drop_app_length'. by rewrite length_app. }
  rewrite Hd. destruct (starts_with (str ".") base); [apply app_nil_r|].
  destruct (rfind_byte DOT base); [apply take_drop|apply app_nil_r].
Qed.

(** On a path with no backslash and no colon that does not start with two
    slashes, both builds look for the same separators. *)
Lemma dirname_loop_ext p q s offset n matched :
  (forall b, b ∈ s -> p b = q b) ->
  find_dirname_end_loop p s offset n matched = find_dirname_end_loop q s offset n matched.
Proof.
  intros Hpq. revert matched. induction n as [|n IH]; intros matched; [done|]. cbn.
  destruct (s !! (offset + n)) as [b|] eqn:Hb; [|done].
  rewrite (Hpq b) by (by eapply list_elem_of_lookup_2). by rewrite !IH.
Qed.

Lemma dirname_loop_S p s offset n matched :
  find_dirname_end_loop p s offset (S n) matched =
  match s !! (offset + n) with
  | None => None
  | Some b =>
      if p b then
        if negb matched then Some (offset + n) else find_dirname_end_loop p s offset n matched
      else find_dirname_end_loop p s offset n false
  end.
Proof. done. Qed.

Lemma dirname_loop_shift p s n matched :
  (forall b, s !! 0 = Some b -> p b = false) ->
  find_dirname_end_loop p s 0 (S n) matched = find_dirname_end_loop p s 1 n matched.
Proof.
  intros H0. revert matched. induction n as [|n IH]; intros matched.
  - cbn. destruct s as [|b s]; [done|]. simpl. by rewrite (H0 b).
  - rewrite (dirname_loop_S p s 0 (S n)), (dirname_loop_S p s 1 n).
    change (0 + S n) with (1 + n). destruct (s !! (1 + n)) as [b|]; [|done]. by rewrite !IH.
Qed.

Lemma dirname_end_sep p s offset n matched e :
  find_dirname_end_loop p s offset n matched = Some e -> exists b, s !! e = Some b /\ p b = true.
Proof.
  revert matched. induction n as [|n IH]; intros matched; [done|]. cbn.
  destruct (s !! (offset + n)) as [b|] eqn:Hb; [|done].
  destruct (p b) eqn:Hp; [|apply IH]. destruct matched; [apply IH|].
  intros [= <-]. by exists b.
Qed.

Lemma do_part_relative st part :
  starts_with SEP part = false ->
  let st2 := foldl (fun st seg => segment true seg st) st (split_on MAIN_SEPARATOR part) in
  do_part true st part =
  {| result := result st2; index_stack := index_stack st2; empty := empty st2;
     first := first st2 && bool_decide (part = []) |}.
Proof.
  intros Hs. unfold do_part. rewrite Hs. by rewrite walk_part_split, drop_0 by lia.
Qed.

Lemma dirname_join dir base :
  dir <> [] -> ends_with_sep dir = false -> plain base -> dirname (dir ++ SEP ++ base) = dir.
Proof.
  intros Hd He Hb. destruct dir as [|c dir]; [done|].
  assert (Hfind : find_dirname_end is_slash ((c :: dir) ++ SEP ++ base) 1 = Some (length (c :: dir))).
  { apply find_dirname_end_split; [done|simpl; lia|by destruct Hb|].
    intros b Hin. apply Z.eqb_neq. intros ->. by destruct Hb. }
  unfold dirname. destruct ((c :: dir) ++ SEP ++ base) as [|x [|y l]] eqn:E.
  - done.
  - apply (f_equal length) in E. rewrite length_app in E. simpl in E. lia.
  - rewrite Hfind. injection E as <- E.
    assert (Hroot : is_slash c && (length (c :: dir) =? 1) = false).
    { destruct dir; [|by rewrite andb_false_r]. rewrite andb_true_r.
      change (ends_with_sep ([] ++ [c]) = false) in He. unfold ends_with_sep in He.
      by rewrite ends_with_byte_snoc in He. }
    rewrite Hroot. rewrite <- E. change (c :: dir ++ SEP ++ base) with ((c :: dir) ++ SEP ++ base).
    exact (take_app_length (c :: dir) (SEP ++ base)).
Qed.

(** A normal absolute path is where [resolve] starts over. *)
Lemma aresolve_rooted x f :
  Forall valid_seg f -> aresolve (Some x) (SEP ++ join_with SEP f) = Some (Root, rev f).
Proof.
  intros Hf. unfold aresolve. change (is_absolute (SEP ++ join_with SEP f)) with true. cbv match.
  unfold asegs. change (SEP ++ join_with SEP f) with ([] ++ MAIN_SEPARATOR :: join_with SEP f).
  rewrite split_on_app by apply not_elem_of_nil. cbn [foldl].
  rewrite <- (rev_involutive f) at 1. apply (asegs_root (rev f)), List.Forall_rev, Hf.
Qed.

Lemma resolve_path_render cwd parts x :
  Forall valid_seg cwd -> spec_resolve (rev cwd) parts = Some x ->
  resolve_path (SEP ++ join_with SEP cwd) parts = render x /\
  is_absolute (render x) = true /\ Forall plain (segments x).
Proof.
  intros Hv Hx. pose proof (List.Forall_rev Hv) as Hr.
  assert (Hrep0 : rep true (jr_init (base_text (Cwd (rev cwd)))) (Cwd (rev cwd), [])).
  { split; simpl; try done. exists []. split; [done|by left]. }
  pose proof (resolve_fold parts _ _ _ Hrep0 Hx) as Hrep.
  pose proof (spec_resolve_absolute _ (Cwd (rev cwd), []) _ eq_refl Hx) as Habs.
  split_and!.
  - unfold resolve_path, join_resolve_path.
    replace (SEP ++ join_with SEP cwd) with (base_text (Cwd (rev cwd)))
      by (unfold base_text; by rewrite rev_involutive).
    rewrite (strip_cwd (rev cwd) Hr). exact (rep_finish _ _ _ Hrep).
  - unfold render. rewrite Habs. unfold is_absolute, starts_with.
    apply bool_decide_eq_true_2. by eexists.
  - eapply segments_plain, rep_ok, Hrep.
Qed.

(** ** Properties *)

(** C26: [join_path] computes the normal form of the concatenated parts: the
    text it returns is the rendering of the abstract state, so [.] and empty
    segments vanish, [..] removes the segment before it and climbing above a
    relative path is kept as leading [..]. *)
Theorem join_path_spec parts :
  exists x, spec_join parts = Some x /\ join_path parts = render x /\ Forall plain (segments x).
Proof.
  destruct (join_correct parts) as (x & Hx & Hrep). exists x. split_and!; [done| |].
  - exact (rep_finish _ _ _ Hrep).
  - eapply segments_plain, rep_ok, Hrep.
Qed.

(** [normalize] is idempotent on paths without a backslash. *)
Theorem normalize_idempotent p :
  BACKSLASH ∉ p -> normalize (normalize p) = normalize p.
Proof.
  intros Hb. destruct (join_correct [p]) as (x & Hx & Hrep).
  assert (Hr : normalize p = render x) by exact (rep_finish _ _ _ Hrep).
  assert (Hnc : no_cwd x).
  { intros b E. destruct Hrep as [_ _ _ Ha _]. rewrite E in Ha. by destruct Ha. }
  rewrite Hr. destruct (join_correct [render x]) as (y & Hy & Hrep').
  rewrite spec_join_render in Hy.
  - injection Hy as <-. exact (rep_finish _ _ _ Hrep').
  - by eapply rep_ok.
  - done.
  - by eapply normalize_bytes.
Qed.

(** With a normal absolute working directory, [resolve_path] returns the
    absolute normal path of the specification whenever no [..] climbs above
    the outermost directory of the working directory. *)
Theorem resolve_path_spec cwd parts x :
  Forall valid_seg cwd -> spec_resolve (rev cwd) parts = Some x ->
  resolve_path (SEP ++ join_with SEP cwd) parts = render x /\
  is_absolute (render x) = true /\ Forall plain (segments x).
Proof. apply resolve_path_render. Qed.

(** [resolve] undoes [relative]: from a normal absolute path [from],
    resolving the relative path to [to] gives [to]. *)
Theorem resolve_relative cwd f t :
  Forall valid_seg cwd -> Forall valid_seg f -> Forall valid_seg t ->
  let from := SEP ++ join_with SEP f in
  let to := SEP ++ join_with SEP t in
  resolve_path (SEP ++ join_with SEP cwd) [from; relative (SEP ++ join_with SEP cwd) from to] = to.
Proof.
  intros Hc Hf Ht from to.
  assert (Hfrom : aresolve (Some (Cwd (rev cwd), [])) from = Some (Root, rev f))
    by by apply aresolve_rooted.
  assert (Hrel : aresolve (Some (Root, rev f)) (relative (SEP ++ join_with SEP cwd) from to)
    = Some (Root, rev t)).
  { destruct (decide (f = t)) as [->|Hne].
    { unfold relative, from, to. by rewrite bool_decide_eq_true_2. }
    unfold from, to. rewrite relative_spec by done.
    destruct (strip_common_spec f t) as (c & Ef & Et).
    destruct (strip_common f t) as [f' t']. cbn [fst snd] in *. subst f t.
    apply Forall_app in Hf as [Hvc Hf]. apply Forall_app in Ht as [_ Ht].
    set (l := replicate (length f') (str "..") ++ t').
    assert (Hpl : Forall plain l).
    { apply Forall_app. split; [apply Forall_replicate, plain_dotdot|by apply valid_plain_list]. }
    assert (Hl : l <> []).
    { intros E. apply app_eq_nil in E as [E ->]. by destruct f'. }
    assert (Habs : is_absolute (join_with SEP l) = false).
    { destruct l as [|[|b s] l]; [done|by apply Forall_cons_1 in Hpl as [[? _] _]|].
      apply Forall_cons_1 in Hpl as [[_ Hb] _]. unfold is_absolute, starts_with.
      apply bool_decide_eq_false_2. intros [r Hr]. apply Hb.
      destruct l; simpl in Hr; injection Hr as -> _; by left. }
    unfold aresolve. rewrite Habs. cbv match. unfold asegs.
    rewrite split_on_join; [|done|rewrite Forall_forall in Hpl; intros p Hp; by apply Hpl].
    unfold l. rewrite foldl_app.
    assert (Hpop : foldl aseg (Some (Root, rev (c ++ f'))) (replicate (length f') (str ".."))
      = Some (Root, rev c)).
    { rewrite rev_app_distr. rewrite <- (length_rev f'). clear.
      induction (rev f') as [|s r IH]; simpl; [done|]. exact IH. }
    rewrite Hpop, foldl_aseg_valid by done. cbn [fst snd]. by rewrite <- rev_app_distr. }
  destruct (resolve_path_render cwd [from; relative (SEP ++ join_with SEP cwd) from to] (Root, rev t))
    as [-> _]; [done| |].
  - unfold spec_resolve. cbn [foldl]. rewrite Hfrom. exact Hrel.
  - unfold render. cbn [absolute fst segments]. by rewrite rev_involutive.
Qed.

(** [dirname] and [basename] take apart what [format] puts together from
    a directory and a base name. *)
Theorem dirname_basename_format dir base :
  dir <> [] -> ends_with_sep dir = false -> plain base ->
  let p := format {| po_dir := dir; po_root := []; po_base := base; po_name := []; po_ext := [] |} in
  dirname p = dir /\ basename p None = base.
Proof.
  intros Hd He Hb p.
  assert (Hp : p = dir ++ SEP ++ base).
  { unfold p, format. cbn [po_dir po_base]. rewrite (bool_decide_eq_false_2 (dir = [])), (bool_decide_eq_false_2 (base = []))
      by (done || by destruct Hb). cbn [negb]. rewrite He. by rewrite <- (assoc_L (++)). }
  rewrite Hp. split; [by apply dirname_join|by apply basename_split].
Qed.

(** On paths written with forward slashes only, the Windows build of
    [dirname] agrees with the Unix build. *)
Theorem dirname_windows_unix p :
  BACKSLASH ∉ p -> 58%Z ∉ p -> starts_with (str "//") p = false ->
  Windows.dirname p = dirname p.
Proof.
  intros Hb Hcol Hss.
  assert (Hsep : forall b, b ∈ p -> Windows.is_sep b = is_slash b).
  { intros b Hin. unfold Windows.is_sep. rewrite (proj2 (Z.eqb_neq b BACKSLASH)) by congruence.
    apply orb_false_r. }
  destruct p as [|b0 [|b1 rest]]; [done| |].
  - unfold Windows.dirname, dirname. by rewrite Hsep by (by left).
  - unfold Windows.dirname, dirname.
    rewrite (Hsep b0) by (by left). rewrite (Hsep b1) by (by right; left).
    assert (Hb1 : is_slash b0 = true -> is_slash b1 = false).
    { intros H0. destruct (is_slash b1) eqn:H1; [|done]. exfalso.
      apply Z.eqb_eq in H0 as ->. apply Z.eqb_eq in H1 as ->.
      unfold starts_with in Hss. apply bool_decide_eq_false_1 in Hss. apply Hss. by eexists. }
    assert (Hd : (b1 =? 58)%Z = false) by (apply Z.eqb_neq; intros ->; apply Hcol; by right; left).
    rewrite Hd, andb_false_r. unfold find_dirname_end.
    set (p := b0 :: b1 :: rest) in *.
    destruct (is_slash b0) eqn:H0.
    + rewrite (Hb1 eq_refl). rewrite (dirname_loop_ext _ is_slash) by done.
      destruct (find_dirname_end_loop is_slash p 1 (length p - 1) true) as [e|] eqn:He.
      * destruct (decide (e = 1)) as [->|Hne1]; [|by rewrite (proj2 (Nat.eqb_neq _ _))].
        exfalso. apply dirname_end_sep in He as (b & Hbe & Hs). simpl in Hbe. simplify_eq.
        rewrite Hb1 in Hs; done.
      * by apply Z.eqb_eq in H0 as ->.
    + rewrite (dirname_loop_ext _ is_slash) by done.
      replace (length p - 0) with (S (length p - 1)) by (simpl; lia).
      rewrite dirname_loop_shift by (intros b [= <-]; done). simpl andb. done.
Qed.

(** A [..] that reaches the outermost directory of the working
    directory makes [resolve_path] return a relative path. *)
Theorem resolve_path_escape c s :
  valid_seg c -> valid_seg s ->
  resolve_path (SEP ++ c) [str ".."; s] = s /\ is_absolute s = false.
Proof.
  intros Hc Hs. pose proof (valid_plain s Hs) as [Hs0 Hs1].
  assert (Habs : starts_with SEP s = false).
  { apply bool_decide_eq_false_2. intros [r ->]. apply Hs1. by left. }
  split; [|done]. unfold resolve_path, join_resolve_path.
  change (SEP ++ c) with (base_text (Cwd [c])). rewrite strip_cwd by (by constructor).
  cbn [foldl]. rewrite (do_part_relative _ (str "..")) by done.
  change (split_on MAIN_SEPARATOR (str "..")) with [str ".."]. cbn [foldl].
  assert (Hup : segment true (str "..") (jr_init (base_text (Cwd [c]))) = jr_init []).
  { unfold segment. rewrite bool_decide_eq_true_2 by done. cbn [index_stack jr_init empty andb result].
    change (find_last_sep (base_text (Cwd [c])))
      with (rfind_byte MAIN_SEPARATOR ([] ++ MAIN_SEPARATOR :: c)).
    by rewrite rfind_byte_app by apply Hc. }
  unfold jr_init in Hup. rewrite Hup. cbn [result index_stack empty first].
  rewrite do_part_relative by done. rewrite split_on_none by done. cbn [foldl].
  destruct Hs as (H1 & H2 & _).
  rewrite (segment_push true s _ [] [] []) by done. cbn [result].
  exact (finish_sep true s Hs0).
Qed.

(** ** Witnesses and examples *)

#[export] Instance valid_seg_dec s : Decision (valid_seg s).
Proof. unfold valid_seg. apply _. Defined.

#[export] Instance plain_dec s : Decision (plain s).
Proof. unfold plain. apply _. Defined.

(** A [basename] suffix is cut wherever it last occurs, not only at the end. *)
Example basename_inner_suffix :
  basename (str "/u/foo.txt.bak") (Some (str ".txt")) = str "foo".
Proof. vm_compute. reflexivity. Qed.

(** A leading backslash counts as a root in [normalize] on Unix, too. *)
Example normalize_backslash :
  normalize (str "./\foo") = str "\foo" /\ normalize (str "\foo") = str "/foo".
Proof. vm_compute. split; reflexivity. Qed.

Lemma normalize_idempotent_witness :
  normalize (str "/a/./b/../c//") = str "/a/c" /\
  normalize (normalize (str "/a/./b/../c//")) = normalize (str "/a/./b/../c//").
Proof.
  split; [vm_compute; reflexivity|].
  apply (normalize_idempotent (str "/a/./b/../c//")).
  apply (bool_decide_unpack _). vm_compute. exact I.
Defined.

Lemma resolve_path_spec_witness :
  resolve_path (str "/var/task") [str "../x"; str "./y"] = str "/var/x/y".
Proof.
  destruct (resolve_path_spec [str "var"; str "task"] [str "../x"; str "./y"]
    (Cwd [str "var"], [str "y"; str "x"])) as [H _].
  - apply (bool_decide_unpack _). vm_compute. exact I.
  - vm_compute. reflexivity.
  - exact H.
Defined.

Lemma resolve_relative_witness :
  resolve_path (str "/home") [str "/a/b/c"; relative (str "/home") (str "/a/b/c") (str "/a/d")]
  = str "/a/d".
Proof.
  apply (resolve_relative [str "home"] [str "a"; str "b"; str "c"] [str "a"; str "d"]);
    apply (bool_decide_unpack _); vm_compute; exact I.
Defined.

Lemma dirname_basename_format_witness :
  dirname (str "/usr/bin/env") = str "/usr/bin" /\ basename (str "/usr/bin/env") None = str "env".
Proof.
  apply (dirname_basename_format (str "/usr/bin") (str "env"));
    try (apply (bool_decide_unpack _); vm_compute; exact I).
Defined.

Lemma dirname_windows_unix_witness :
  Windows.dirname (str "/usr/local/bin") = str "/usr/local".
Proof.
  rewrite (dirname_windows_unix (str "/usr/local/bin"));
    try (apply (bool_decide_unpack _); vm_compute; exact I); vm_compute; reflexivity.
Defined.

Lemma resolve_path_escape_witness :
  resolve_path (str "/tmp") [str ".."; str "etc"] = str "etc".
Proof.
  apply (resolve_path_escape (str "tmp") (str "etc"));
    apply (bool_decide_unpack _); vm_compute; exact I.
Defined.
