(* ===== verification/StdPath.v ===== *)
(** * The std::path operations the package resolver uses, on Unix

    [Path::components().next_back()], [Path::parent], [Path::file_name],
    [PathBuf::pop] and [Path::join] of the Rust standard library, on byte
    strings: a path is read from its end, empty and [.] components in its body
    are skipped, and the text before a component is kept as it is written.
    Called from src/llrt_modules/src/package/resolver.rs. *)
From stdpp Require Import base list numbers strings.
From Stdlib Require Import ZArith Lia.
From S2P Require Import Prelude Path.

Inductive path_component : Type :=
| RootDir
| CurDir
| ParentDir
| Normal (name : list Z).

#[export] Instance path_component_eq_dec : EqDecision path_component.
Proof. solve_decision. Defined.

(** A leading [.] counts as a component of a relative path. *)
Definition include_cur_dir (p : list Z) : bool :=
  negb (is_absolute p) && (bool_decide (p = str ".") || starts_with (str "./") p).

Definition len_before_body (p : list Z) : nat :=
  (if is_absolute p then 1 else 0) + (if include_cur_dir p then 1 else 0).

Definition parse_single_component (comp : list Z) : option path_component :=
  if is_dot comp then None
  else if bool_decide (comp = str "..") then Some ParentDir
  else Some (Normal comp).

(** The number of bytes the last component takes, with its separator. *)
Definition parse_next_component_back (p : list Z) : nat * option path_component :=
  let body := drop (len_before_body p) p in
  let '(extra, comp) := match rfind_byte MAIN_SEPARATOR body with
                        | Some i => (1, drop (i + 1) body)
                        | None => (0, body)
                        end in
  (length comp + extra, parse_single_component comp).

(** [Components::next_back] and the path that is left, with a flag that says
    whether the body was not yet exhausted. *)
Fixpoint next_back_loop (fuel : nat) (p : list Z) : option path_component * list Z * bool :=
  match fuel with
  | O => (None, p, true)
  | S fuel' =>
      if (len_before_body p <? length p)%nat then
        let '(size, comp) := parse_next_component_back p in
        let p := take (length p - size) p in
        match comp with
        | Some c => (Some c, p, true)
        | None => next_back_loop fuel' p
        end
      else if is_absolute p then (Some RootDir, take (length p - 1) p, false)
      else if include_cur_dir p then (Some CurDir, take (length p - 1) p, false)
      else (None, p, false)
  end.

Definition next_back (p : list Z) : option path_component * list Z * bool :=
  next_back_loop (S (length p)) p.

(** [Components::trim_right], which [as_path] applies to a non-empty body. *)
Fixpoint trim_right (fuel : nat) (p : list Z) : list Z :=
  match fuel with
  | O => p
  | S fuel' =>
      if (len_before_body p <? length p)%nat then
        let '(size, comp) := parse_next_component_back p in
        match comp with
        | Some _ => p
        | None => trim_right fuel' (take (length p - size) p)
        end
      else p
  end.

Definition parent (p : list Z) : option (list Z) :=
  match next_back p with
  | (Some RootDir, _, _) | (None, _, _) => None
  | (Some _, rest, true) => Some (trim_right (S (length rest)) rest)
  | (Some _, rest, false) => Some rest
  end.

Definition file_name (p : list Z) : option (list Z) :=
  match next_back p with
  | (Some (Normal name), _, _) => Some name
  | _ => None
  end.

(** [Path::join] with a relative path. *)
Definition path_join (p name : list Z) : list Z :=
  if bool_decide (p = []) || ends_with_sep p then p ++ name else p ++ SEP ++ name.

(** The absolute path with the given names, outermost first. *)
Definition abs_path (segs : list (list Z)) : list Z := SEP ++ join_with SEP segs.

Example parent_examples :
  parent (str "/a/b//./c/.") = Some (str "/a/b") /\ parent (str "/a") = Some (str "/") /\
  parent (str "/") = None /\ parent (str "a") = Some [] /\ parent [] = None /\
  parent (str "./a/") = Some (str ".") /\ parent (str ".") = Some [] /\
  parent (str "/a/..") = Some (str "/a") /\
  file_name (str "/a/b/") = Some (str "b") /\ file_name (str "a/..") = None.
Proof. vm_compute. repeat split. Qed.

(** ** A parent is a shorter path *)

Lemma parse_back_size p :
  (len_before_body p < length p)%nat ->
  (0 < (parse_next_component_back p).1 <= length p)%nat.
Proof.
  intros Hlt. unfold parse_next_component_back.
  destruct (rfind_byte _ _) as [i|] eqn:Hr; simpl.
  - apply rfind_byte_lt in Hr. rewrite !length_drop in *. lia.
  - rewrite length_drop. lia.
Qed.

Lemma next_back_shorter fuel p c rest body :
  (length p < fuel)%nat -> next_back_loop fuel p = (Some c, rest, body) -> (length rest < length p)%nat.
Proof.
  revert p. induction fuel as [|fuel IH]; intros p Hf; [lia|]. cbn [next_back_loop].
  destruct (len_before_body p <? length p)%nat eqn:Hlt; bool_to_prop.
  - pose proof (parse_back_size p Hlt) as Hs.
    destruct (parse_next_component_back p) as [size [c'|]]; cbn [fst] in Hs.
    + intros [= <- <- <-]. rewrite length_take. lia.
    + intros Hn. apply IH in Hn; rewrite ?length_take in *; lia.
  - assert (Hp : is_absolute p = true \/ include_cur_dir p = true -> (0 < length p)%nat).
    { destruct p; [|simpl; lia]. by intros [?|?]. }
    destruct (is_absolute p); [|destruct (include_cur_dir p)]; intros [= <- <- <-];
      rewrite length_take; specialize (Hp ltac:(auto)); lia.
Qed.

Lemma trim_right_length fuel p : (length (trim_right fuel p) <= length p)%nat.
Proof.
  revert p. induction fuel as [|fuel IH]; intros p; cbn [trim_right]; [done|].
  destruct (len_before_body p <? length p)%nat; [|done].
  destruct (parse_next_component_back p) as [size [c|]]; [done|].
  etrans; [apply IH|]. rewrite length_take. lia.
Qed.

Lemma parent_shorter p q : parent p = Some q -> (length q < length p)%nat.
Proof.
  unfold parent. destruct (next_back p) as [[[c|] rest] body] eqn:Hn; [|done].
  apply next_back_shorter in Hn; [|lia].
  pose proof (trim_right_length (S (length rest)) rest) as Ht.
  remember (trim_right (S (length rest)) rest) as r.
  destruct c, body; try done; intros [= <-]; lia.
Qed.

(** ** Normal absolute paths *)

Lemma abs_path_absolute segs : is_absolute (abs_path segs) = true.
Proof. unfold is_absolute, starts_with. apply bool_decide_eq_true_2. by eexists. Qed.

Lemma abs_path_body segs : len_before_body (abs_path segs) = 1.
Proof. unfold len_before_body, include_cur_dir. by rewrite abs_path_absolute. Qed.

Lemma abs_path_snoc segs s :
  segs <> [] -> abs_path (segs ++ [s]) = abs_path segs ++ SEP ++ s.
Proof.
  intros Hne. unfold abs_path. rewrite join_with_snoc by done. by rewrite (assoc_L (++)).
Qed.

Lemma valid_component s : valid_seg s -> parse_single_component s = Some (Normal s).
Proof.
  intros (Hd & Hs & _). unfold parse_single_component. rewrite Hs.
  by rewrite bool_decide_eq_false_2.
Qed.

Lemma parse_back_abs segs s :
  valid_seg s ->
  parse_next_component_back (abs_path (segs ++ [s])) =
    (length s + (if bool_decide (segs = []) then 0 else 1), Some (Normal s)).
Proof.
  intros Hs. unfold parse_next_component_back. rewrite abs_path_body.
  assert (Hns : MAIN_SEPARATOR ∉ s) by apply Hs.
  destruct (bool_decide_reflect (segs = [])) as [->|Hne].
  - change (drop 1 (abs_path ([] ++ [s]))) with s. rewrite (proj2 (rfind_byte_None _ _) Hns). by rewrite (valid_component s Hs).
  - unfold abs_path. rewrite join_with_snoc by done.
    change (drop 1 (SEP ++ join_with SEP segs ++ SEP ++ s))
      with (join_with SEP segs ++ MAIN_SEPARATOR :: s).
    rewrite rfind_byte_app by done.
    replace (drop (length (join_with SEP segs) + 1) (join_with SEP segs ++ MAIN_SEPARATOR :: s))
      with s; [by rewrite valid_component|].
    rewrite drop_app_ge by lia.
    by replace (length (join_with SEP segs) + 1 - length (join_with SEP segs)) with 1 by lia.
Qed.

Lemma abs_path_length segs s :
  length (abs_path (segs ++ [s])) =
  length (abs_path segs) + (length s + (if bool_decide (segs = []) then 0 else 1)).
Proof.
  destruct (bool_decide_reflect (segs = [])) as [->|Hne]; [unfold abs_path; simpl; lia|].
  rewrite abs_path_snoc, !length_app by done. simpl. lia.
Qed.

Lemma abs_path_take segs s :
  take (length (abs_path segs)) (abs_path (segs ++ [s])) = abs_path segs.
Proof.
  destruct (decide (segs = [])) as [->|Hne]; [done|].
  by rewrite abs_path_snoc, take_app_length.
Qed.

Lemma abs_path_long segs s : valid_seg s ->
  (len_before_body (abs_path (segs ++ [s])) <? length (abs_path (segs ++ [s])))%nat = true.
Proof.
  intros Hs%valid_plain. apply Nat.ltb_lt. rewrite abs_path_body, abs_path_length.
  destruct Hs as [Hs _]. destruct s; [done|]. cbn. lia.
Qed.

Lemma trim_right_abs fuel segs : Forall valid_seg segs -> trim_right fuel (abs_path segs) = abs_path segs.
Proof.
  intros Hv. destruct fuel as [|fuel]; [done|].
  destruct segs as [|s segs _] using rev_ind; [done|].
  apply Forall_app in Hv as [_ Hs]. apply Forall_cons_1 in Hs as [Hs _]. cbn [trim_right].
  by rewrite (abs_path_long segs s Hs), (parse_back_abs segs s Hs).
Qed.

Lemma next_back_abs segs s : valid_seg s ->
  next_back (abs_path (segs ++ [s])) = (Some (Normal s), abs_path segs, true).
Proof.
  intros Hs. unfold next_back. cbn [next_back_loop].
  rewrite abs_path_long, parse_back_abs by done. rewrite abs_path_length.
  replace (_ + _ - _) with (length (abs_path segs)) by lia. by rewrite abs_path_take.
Qed.

Lemma parent_abs segs s : valid_seg s -> Forall valid_seg segs ->
  parent (abs_path (segs ++ [s])) = Some (abs_path segs).
Proof. intros Hs Hv. unfold parent. by rewrite next_back_abs, trim_right_abs. Qed.

Lemma parent_root : parent (abs_path []) = None.
Proof. done. Qed.

Lemma file_name_abs segs s : valid_seg s -> file_name (abs_path (segs ++ [s])) = Some s.
Proof. intros Hs. unfold file_name. by rewrite next_back_abs. Qed.

Lemma path_join_abs segs s : Forall valid_seg segs ->
  path_join (abs_path segs) s = abs_path (segs ++ [s]).
Proof.
  intros Hv. unfold path_join. destruct segs as [|a segs]; [done|].
  rewrite abs_path_snoc by done. rewrite bool_decide_eq_false_2 by done.
  replace (ends_with_sep (abs_path (a :: segs))) with false; [done|].
  unfold ends_with_sep, abs_path. symmetry.
  pose proof (join_not_ends (a :: segs) ltac:(done) (valid_plain_list _ Hv)) as He.
  pose proof (join_ne (a :: segs) ltac:(done) (valid_plain_list _ Hv)) as Hne.
  unfold ends_with_byte in *. apply bool_decide_eq_false in He. apply bool_decide_eq_false_2.
  rewrite last_app. destruct (last (join_with SEP (a :: segs))) eqn:Hl; [done|].
  by apply last_None in Hl.
Qed.

(** A test for ordinary names. *)
Definition valid_segb (s : list Z) : bool :=
  negb (bool_decide (s = str "..")) && negb (is_dot s) && bool_decide (MAIN_SEPARATOR ∉ s).

Lemma valid_segs_check segs : forallb valid_segb segs = true -> Forall valid_seg segs.
Proof.
  intros Hs. apply Forall_forall. intros s Hin. rewrite forallb_forall in Hs.
  apply list_elem_of_In, Hs in Hin. unfold valid_segb in Hin.
  apply andb_prop in Hin as [Hin H3]. apply andb_prop in Hin as [H1 H2].
  apply negb_true_iff, bool_decide_eq_false in H1. apply negb_true_iff in H2.
  by apply bool_decide_eq_true in H3.
Qed.
