(* ===== verification/Utf8.v ===== *)
(** * UTF-8 as the Rust standard library decodes it

    [String::from_utf8], [String::from_utf8_lossy], [str::chars] and
    [char::encode_utf8]: the part of the language the text components use. *)
From stdpp Require Import base list numbers.
From Stdlib Require Import ZArith Lia.
From S2P Require Import Prelude.
Open Scope Z_scope.

Definition REPLACEMENT : Z := 0xFFFD.

Definition is_cont (b : Z) : bool := (128 <=? b) && (b <=? 191).

Definition in_range (lo hi b : Z) : bool := (lo <=? b) && (b <=? hi).

(** Second bytes allowed after a given lead byte. *)
Definition second_ok (b0 b1 : Z) : bool :=
  if b0 =? 0xE0 then in_range 0xA0 0xBF b1
  else if b0 =? 0xED then in_range 0x80 0x9F b1
  else if b0 =? 0xF0 then in_range 0x90 0xBF b1
  else if b0 =? 0xF4 then in_range 0x80 0x8F b1
  else is_cont b1.

(** Length of the sequence a lead byte announces; 0 for a byte that starts none. *)
Definition lead_width (b : Z) : nat :=
  if b <? 0x80 then 1
  else if in_range 0xC2 0xDF b then 2
  else if in_range 0xE0 0xEF b then 3
  else if in_range 0xF0 0xF4 b then 4
  else 0.

(** First character of a string: the bytes it takes, and the character or
    [None] for a maximal invalid subpart. *)
Definition utf8_step (s : list Z) : nat * option Z :=
  match s with
  | [] => (0%nat, None)
  | b0 :: r =>
      match lead_width b0 with
      | 1%nat => (1%nat, Some b0)
      | 2%nat =>
          match r with
          | b1 :: _ =>
              if second_ok b0 b1 then (2%nat, Some ((b0 - 192) * 64 + (b1 - 128))) else (1%nat, None)
          | [] => (1%nat, None)
          end
      | 3%nat =>
          match r with
          | b1 :: r1 =>
              if second_ok b0 b1 then
                match r1 with
                | b2 :: _ =>
                    if is_cont b2
                    then (3%nat, Some ((b0 - 224) * 4096 + (b1 - 128) * 64 + (b2 - 128)))
                    else (2%nat, None)
                | [] => (2%nat, None)
                end
              else (1%nat, None)
          | [] => (1%nat, None)
          end
      | 4%nat =>
          match r with
          | b1 :: r1 =>
              if second_ok b0 b1 then
                match r1 with
                | b2 :: r2 =>
                    if is_cont b2 then
                      match r2 with
                      | b3 :: _ =>
                          if is_cont b3
                          then (4%nat, Some ((b0 - 240) * 262144 + (b1 - 128) * 4096
                                             + (b2 - 128) * 64 + (b3 - 128)))
                          else (3%nat, None)
                      | [] => (3%nat, None)
                      end
                    else (2%nat, None)
                | [] => (2%nat, None)
                end
              else (1%nat, None)
          | [] => (1%nat, None)
          end
      | _ => (1%nat, None)
      end
  end.

Fixpoint utf8_decode_fuel (fuel : nat) (s : list Z) : list (option Z) :=
  match fuel, s with
  | S fuel', _ :: _ =>
      let '(n, c) := utf8_step s in c :: utf8_decode_fuel fuel' (drop n s)
  | _, _ => []
  end.

Definition utf8_decode (s : list Z) : list (option Z) := utf8_decode_fuel (length s) s.

Definition utf8_encode (c : Z) : list Z :=
  if c <? 0x80 then [c]
  else if c <? 0x800 then [192 + c / 64; 128 + c mod 64]
  else if c <? 0x10000 then [224 + c / 4096; 128 + (c / 64) mod 64; 128 + c mod 64]
  else [240 + c / 262144; 128 + (c / 4096) mod 64; 128 + (c / 64) mod 64; 128 + c mod 64].

Definition encode_all (cs : list Z) : list Z := concat (utf8_encode <$> cs).

(** [String::from_utf8_lossy]. *)
Definition from_utf8_lossy (s : list Z) : list Z :=
  encode_all (default REPLACEMENT <$> utf8_decode s).

(** [String::from_utf8(..).is_ok()]. *)
Definition utf8_valid (s : list Z) : bool := bool_decide (Forall is_Some (utf8_decode s)).

(** [s.chars()]. *)
Definition chars (s : list Z) : list Z := omap id (utf8_decode s).

(** [char]: a Unicode scalar value. *)
Definition scalar (c : Z) : Prop := 0 <= c < 0xD800 \/ 0xE000 <= c < 0x110000.

(** ** Lemmas *)

Lemma utf8_step_pos b s : (1 <= (utf8_step (b :: s)).1)%nat.
Proof.
  unfold utf8_step. destruct (lead_width b) as [|[|[|[|[|n]]]]]; simpl; try lia;
    repeat (case_match; simpl; try lia).
Qed.

Lemma utf8_decode_fuel_enough fuel s :
  (length s <= fuel)%nat -> utf8_decode_fuel fuel s = utf8_decode s.
Proof.
  unfold utf8_decode. intros Hf.
  assert (H : forall n m s, (length s <= n)%nat -> (length s <= m)%nat ->
    utf8_decode_fuel n s = utf8_decode_fuel m s).
  { induction n as [|n IH]; intros m [|b t] Hn Hm; cbn [length] in *; try lia; try by destruct m.
    destruct m as [|m]; [lia|]. cbn [utf8_decode_fuel].
    pose proof (utf8_step_pos b t) as Hp. destruct (utf8_step (b :: t)) as [k c]. simpl in Hp.
    f_equal. apply IH; rewrite length_drop; simpl; lia. }
  apply H; lia.
Qed.

Lemma utf8_decode_cons b s :
  utf8_decode (b :: s) =
  (utf8_step (b :: s)).2 :: utf8_decode (drop (utf8_step (b :: s)).1 (b :: s)).
Proof.
  unfold utf8_decode at 1. cbn [length utf8_decode_fuel].
  pose proof (utf8_step_pos b s). destruct (utf8_step (b :: s)) as [n c] eqn:E. simpl in *.
  f_equal. apply utf8_decode_fuel_enough. rewrite length_drop. simpl. lia.
Qed.

Lemma scalar_bounds c : scalar c -> 0 <= c < 0x110000.
Proof. unfold scalar. lia. Qed.

Ltac range_tests :=
  unfold in_range, is_cont in *;
  repeat match goal with
  | |- context [?a <? ?b] => destruct (Z.ltb_spec a b); try lia
  | |- context [?a <=? ?b] => destruct (Z.leb_spec a b); try lia
  | |- context [?a =? ?b] => destruct (Z.eqb_spec a b); try lia
  end; simpl; try done.

Lemma cont_ok x : is_cont (128 + x mod 64) = true.
Proof. pose proof (Z.mod_pos_bound x 64 ltac:(lia)). range_tests. Qed.

Lemma second_ok_encode b0 c :
  0 <= c ->
  (b0 = 0xE0 -> 0x800 <= c) -> (b0 = 0xED -> c < 0xD800) -> (b0 <> 0xF0) -> (b0 <> 0xF4) ->
  (b0 = 0xE0 -> c < 0x1000) -> (b0 = 0xED -> 0xD000 <= c) ->
  second_ok b0 (128 + (c / 64) mod 64) = true.
Proof.
  intros H0 H1 H2 H3 H4 H5 H6. unfold second_ok.
  destruct (Z.eqb_spec b0 0xE0) as [E|_].
  { specialize (H1 E). specialize (H5 E). unfold in_range.
    assert (32 <= c / 64 < 64) by (split; [apply Z.div_le_lower_bound|apply Z.div_lt_upper_bound]; lia).
    rewrite Z.mod_small by lia. range_tests. }
  destruct (Z.eqb_spec b0 0xED) as [E|_].
  { specialize (H2 E). specialize (H6 E). unfold in_range.
    assert (832 <= c / 64 < 864) by (split; [apply Z.div_le_lower_bound|apply Z.div_lt_upper_bound]; lia).
    assert ((c / 64) mod 64 = c / 64 - 832) as -> by (symmetry; apply (Z.mod_unique_pos _ _ 13); lia).
    range_tests. }
  destruct (Z.eqb_spec b0 0xF0); [done|]. destruct (Z.eqb_spec b0 0xF4); [done|]. apply cont_ok.
Qed.

(** Decoding the first character of an encoded text. *)
Lemma utf8_step_encode c s :
  scalar c -> utf8_step (utf8_encode c ++ s) = (length (utf8_encode c), Some c).
Proof.
  intros Hc. pose proof (scalar_bounds c Hc) as Hb. unfold utf8_encode, scalar in *.
  destruct (Z.ltb_spec c 0x80).
  { cbn [app utf8_step length]. unfold lead_width. by rewrite (proj2 (Z.ltb_lt _ _)). }
  destruct (Z.ltb_spec c 0x800).
  { assert (Hq : 2 <= c / 64 < 32) by (split; [apply Z.div_le_lower_bound|apply Z.div_lt_upper_bound]; lia).
    cbn [app utf8_step length].
    assert (lead_width (192 + c / 64) = 2%nat) as -> by (unfold lead_width; range_tests).
    assert (second_ok (192 + c / 64) (128 + c mod 64) = true) as ->.
    { unfold second_ok. rewrite !(proj2 (Z.eqb_neq _ _)) by lia. apply cont_ok. }
    f_equal. f_equal. pose proof (Z.div_mod c 64 ltac:(lia)). lia. }
  destruct (Z.ltb_spec c 0x10000).
  { assert (Hq : 0 <= c / 4096 < 16) by (split; [apply Z.div_pos|apply Z.div_lt_upper_bound]; lia).
    pose proof (Z.div_mod c 4096 ltac:(lia)) as Hdm. pose proof (Z.mod_pos_bound c 4096 ltac:(lia)).
    cbn [app utf8_step length].
    assert (lead_width (224 + c / 4096) = 3%nat) as -> by (unfold lead_width; range_tests).
    rewrite second_ok_encode by lia. rewrite cont_ok.
    f_equal. f_equal. Z.to_euclidean_division_equations. lia. }
  assert (Hq : 0 <= c / 262144 <= 4).
  { split; [apply Z.div_pos; lia|]. apply Z.lt_succ_r, Z.div_lt_upper_bound; lia. }
  pose proof (Z.div_mod c 262144 ltac:(lia)) as Hdm. pose proof (Z.mod_pos_bound c 262144 ltac:(lia)).
  cbn [app utf8_step length].
  assert (lead_width (240 + c / 262144) = 4%nat) as -> by (unfold lead_width; range_tests).
  assert (second_ok (240 + c / 262144) (128 + (c / 4096) mod 64) = true) as ->.
  { unfold second_ok. rewrite !(proj2 (Z.eqb_neq _ 0xE0)), !(proj2 (Z.eqb_neq _ 0xED)) by lia.
    assert (Hd : (c / 4096) / 64 = c / 262144) by (rewrite Z.div_div by lia; done).
    pose proof (Z.div_mod (c / 4096) 64 ltac:(lia)) as Hm.
    pose proof (Z.mod_pos_bound (c / 4096) 64 ltac:(lia)).
    assert (16 <= c / 4096 < 272) by (split; [apply Z.div_le_lower_bound|apply Z.div_lt_upper_bound]; lia).
    destruct (Z.eqb_spec (240 + c / 262144) 240); [range_tests|].
    destruct (Z.eqb_spec (240 + c / 262144) 244); [range_tests|]. apply cont_ok. }
  rewrite !cont_ok. f_equal. f_equal. Z.to_euclidean_division_equations. lia.
Qed.

Lemma utf8_encode_cons c : exists b r, utf8_encode c = b :: r.
Proof. unfold utf8_encode. case_tests; eauto. Qed.

Lemma utf8_decode_encode c s :
  scalar c -> utf8_decode (utf8_encode c ++ s) = Some c :: utf8_decode s.
Proof.
  intros Hc. pose proof (utf8_step_encode c s Hc) as Hs.
  destruct (utf8_encode_cons c) as (b & r & Hr). rewrite Hr in *. cbn [app] in *.
  rewrite utf8_decode_cons, Hs. cbn [fst snd]. f_equal. f_equal. apply (drop_app_length (b :: r)).
Qed.

Lemma utf8_decode_encode_all cs s :
  Forall scalar cs -> utf8_decode (encode_all cs ++ s) = (Some <$> cs) ++ utf8_decode s.
Proof.
  induction 1 as [|c cs Hc _ IH]; [done|]. cbn [encode_all fmap list_fmap concat].
  rewrite <- (assoc_L (++)), utf8_decode_encode by done. simpl. f_equal. exact IH.
Qed.

Lemma encode_all_app a b : encode_all (a ++ b) = encode_all a ++ encode_all b.
Proof. unfold encode_all. by rewrite fmap_app, concat_app. Qed.

(** Text that is valid decodes to itself. *)
Lemma from_utf8_lossy_encode_all cs :
  Forall scalar cs -> from_utf8_lossy (encode_all cs) = encode_all cs.
Proof.
  intros Hs. unfold from_utf8_lossy. pose proof (utf8_decode_encode_all cs [] Hs) as H.
  rewrite app_nil_r in H. rewrite H. change (utf8_decode []) with (@nil (option Z)).
  rewrite app_nil_r, <- list_fmap_compose. f_equal. apply list_fmap_id.
Qed.

(** Decoded characters are scalar values. *)
Lemma utf8_step_scalar s c : Forall byte_ok s -> (utf8_step s).2 = Some c -> scalar c.
Proof.
  intros Hs. destruct Hs as [|b0 s H0 Hs]; [done|]. unfold byte_ok in H0.
  destruct (lead_width b0) as [|[|[|[|[|n]]]]] eqn:E; unfold utf8_step; rewrite E; cbn [snd]; try done.
  - intros [= <-]. revert E. unfold lead_width, scalar. range_tests.
  - destruct Hs as [|b1 s H1 Hs]; [done|]. destruct (second_ok b0 b1) eqn:E1; [|done].
    intros [= <-]. revert E E1. unfold lead_width, scalar, second_ok.
    range_tests; intros; lia.
  - destruct Hs as [|b1 s H1 Hs]; [done|]. destruct (second_ok b0 b1) eqn:E1; [|done].
    destruct Hs as [|b2 s H2 Hs]; [done|]. destruct (is_cont b2) eqn:E2; [|done].
    intros [= <-]. revert E E1 E2. unfold lead_width, scalar, second_ok. range_tests; intros; lia.
  - destruct Hs as [|b1 s H1 Hs]; [done|]. destruct (second_ok b0 b1) eqn:E1; [|done].
    destruct Hs as [|b2 s H2 Hs]; [done|]. destruct (is_cont b2) eqn:E2; [|done].
    destruct Hs as [|b3 s H3 Hs]; [done|]. destruct (is_cont b3) eqn:E3; [|done].
    intros [= <-]. revert E E1 E2 E3. unfold lead_width, scalar, second_ok. range_tests; intros; lia.
Qed.

Lemma chars_scalar s : Forall byte_ok s -> Forall scalar (chars s).
Proof.
  intros Hs. unfold chars. remember (length s) as n eqn:Hn. revert s Hs Hn.
  induction (lt_wf n) as [n _ IH]. intros [|b s] Hs ->; [done|].
  rewrite utf8_decode_cons. pose proof (utf8_step_pos b s) as Hp.
  pose proof (utf8_step_scalar (b :: s)) as Hsc.
  destruct (utf8_step (b :: s)) as [k oc]. cbn [fst snd] in *.
  assert (IHr : Forall scalar (omap id (utf8_decode (drop k (b :: s))))).
  { eapply IH; [|by apply Forall_drop|reflexivity]. rewrite length_drop. simpl. lia. }
  destruct oc as [c|]; cbn [omap list_omap id]; [constructor; [by apply Hsc|]|]; exact IHr.
Qed.

Lemma utf8_encode_byte_ok c : scalar c -> Forall byte_ok (utf8_encode c).
Proof.
  intros Hc. apply scalar_bounds in Hc. unfold utf8_encode, byte_ok.
  case_tests; bool_to_prop; repeat constructor; Z.to_euclidean_division_equations; lia.
Qed.

Lemma encode_all_byte_ok cs : Forall scalar cs -> Forall byte_ok (encode_all cs).
Proof.
  induction 1 as [|c cs Hc _ IH]; [constructor|].
  change (encode_all (c :: cs)) with (utf8_encode c ++ encode_all cs).
  apply Forall_app. by split; [apply utf8_encode_byte_ok|].
Qed.

Lemma utf8_encode_high c : scalar c -> 128 <= c -> Forall (fun b => 128 <= b) (utf8_encode c).
Proof.
  intros Hs Hc. pose proof (scalar_bounds c Hs). unfold utf8_encode.
  rewrite (proj2 (Z.ltb_ge c 0x80)) by lia.
  assert (Hm : forall x, 128 <= 128 + x mod 64).
  { intros x. pose proof (Z.mod_pos_bound x 64 ltac:(lia)). lia. }
  assert (0 <= c / 64) by (apply Z.div_pos; lia). assert (0 <= c / 4096) by (apply Z.div_pos; lia).
  assert (0 <= c / 262144) by (apply Z.div_pos; lia).
  case_tests; repeat constructor; auto; lia.
Qed.

Lemma utf8_encode_low c : c < 128 -> utf8_encode c = [c].
Proof. intros H. unfold utf8_encode. by rewrite (proj2 (Z.ltb_lt c 0x80)). Qed.

Lemma encode_all_cons c cs : encode_all (c :: cs) = utf8_encode c ++ encode_all cs.
Proof. done. Qed.

Lemma encode_all_nil cs : encode_all cs = [] <-> cs = [].
Proof.
  destruct cs as [|c cs]; [done|]. rewrite encode_all_cons.
  destruct (utf8_encode_cons c) as (b & r & ->). split; done.
Qed.
