(* ===== verification/JsonEscape.v ===== *)
(** * JSON string escaping: src/libs/llrt_json/src/escape.rs

    The scanner reads 64-byte strides as eight 64-bit words, finds the bytes
    that may need an escape with word arithmetic, and falls back to a byte
    loop.  The file models every function of the source at its machine width
    and proves the scanner equal to a byte-by-byte reference. *)
From stdpp Require Import base list numbers strings.
From Stdlib Require Import ZArith Lia.
From S2P Require Import Prelude.
Open Scope Z_scope.

(** ** Tables *)

Definition JSON_ESCAPE_CHARS : list Z := [
   0; 1; 2; 3; 4; 5; 6; 7; 8; 9; 10; 11; 12; 13; 14; 15; 16; 17; 18; 19; 20; 21; 22; 23;
   24; 25; 26; 27; 28; 29; 30; 31; 34; 34; 32; 34; 34; 34; 34; 34; 34; 34; 34; 34; 34; 34; 34; 34;
   34; 34; 34; 34; 34; 34; 34; 34; 34; 34; 34; 34; 34; 34; 34; 34; 34; 34; 34; 34; 34; 34; 34; 34;
   34; 34; 34; 34; 34; 34; 34; 34; 34; 34; 34; 34; 34; 34; 34; 34; 34; 34; 34; 34; 33; 34; 34; 34;
   34; 34; 34; 34; 34; 34; 34; 34; 34; 34; 34; 34; 34; 34; 34; 34; 34; 34; 34; 34; 34; 34; 34; 34;
   34; 34; 34; 34; 34; 34; 34; 34; 34; 34; 34; 34; 34; 34; 34; 34; 34; 34; 34; 34; 34; 34; 34; 34;
   34; 34; 34; 34; 34; 34; 34; 34; 34; 34; 34; 34; 34; 34; 34; 34; 34; 34; 34; 34; 34; 34; 34; 34;
   34; 34; 34; 34; 34; 34; 34; 34; 34; 34; 34; 34; 34; 34; 34; 34; 34; 34; 34; 34; 34; 34; 34; 34;
   34; 34; 34; 34; 34; 34; 34; 34; 34; 34; 34; 34; 34; 34; 34; 34; 34; 34; 34; 34; 34; 34; 34; 34;
   34; 34; 34; 34; 34; 34; 34; 34; 34; 34; 34; 34; 34; 34; 34; 34; 34; 34; 34; 34; 34; 34; 34; 34;
   34; 34; 34; 34; 34; 34; 34; 34; 34; 34; 34; 34; 34; 34; 34; 34].

Definition JSON_ESCAPE_QUOTES : list (list Z) := [
   str "\u0000"; str "\u0001"; str "\u0002"; str "\u0003"; str "\u0004"; str "\u0005";
   str "\u0006"; str "\u0007"; str "\b"; str "\t"; str "\n"; str "\u000b";
   str "\f"; str "\r"; str "\u000e"; str "\u000f"; str "\u0010"; str "\u0011";
   str "\u0012"; str "\u0013"; str "\u0014"; str "\u0015"; str "\u0016"; str "\u0017";
   str "\u0018"; str "\u0019"; str "\u001a"; str "\u001b"; str "\u001c"; str "\u001d";
   str "\u001e"; str "\u001f"; [92; 34]%Z; str "\\"].

Definition ESCAPE_LEN : Z := 34.

(** [bytes[i]] on an index the source has checked. *)
Definition at_ (s : list Z) (i : nat) : Z := default 0 (s !! i).

(** [&bytes[a..b]]. *)
Definition slice (s : list Z) (a b : nat) : list Z := take (b - a) (drop a s).

(** ** Lone surrogates *)

Definition hex_digit (h : Z) : Z := if h <? 10 then 48 + h else 97 + h - 10.

Definition surrogate_code_point (b0 b1 b2 : Z) : Z :=
  Z.lor (Z.lor (Z.shiftl (Z.land b0 15) 12) (Z.shiftl (Z.land b1 63) 6)) (Z.land b2 63).

Definition hex4 (code_point : Z) : list Z :=
  hex_digit <$>
    [Z.shiftr code_point 12; Z.land (Z.shiftr code_point 8) 15;
     Z.land (Z.shiftr code_point 4) 15; Z.land code_point 15].

Definition write_surrogate_escape (result : list Z) (bytes : list Z) (i : nat) : list Z * nat :=
  let code_point := surrogate_code_point (at_ bytes i) (at_ bytes (i + 1)) (at_ bytes (i + 2)) in
  (result ++ str "\u" ++ hex4 code_point, 3%nat).

(** ** The byte loop *)

(** The variables the scanner threads through its helpers. *)
Record scan := mkScan { result : list Z; i_ : nat; start : nat }.

Definition process_byte (bytes : list Z) (byte : Z) (len : nat) (s : scan) : scan :=
  let c := at_ JSON_ESCAPE_CHARS (Z.to_nat byte) in
  if c <? ESCAPE_LEN then
    let esc := default [] (JSON_ESCAPE_QUOTES !! Z.to_nat c) in
    let pending := slice bytes (start s) (i_ s) in
    {| result := result s ++ pending ++ esc; i_ := i_ s + 1; start := i_ s + 1 |}
  else if (byte =? 237) && (i_ s + 2 <? len)%nat
          && (160 <=? Z.land (at_ bytes (i_ s + 1)) 240) then
    let r := if (start s <? i_ s)%nat then result s ++ slice bytes (start s) (i_ s) else result s in
    let '(r', n) := write_surrogate_escape r bytes (i_ s) in
    {| result := r'; i_ := i_ s + n; start := i_ s + n |}
  else {| result := result s; i_ := i_ s + 1; start := start s |}.

(** ** Word-level detection *)

Definition ONES : Z := 0x0101010101010101.
Definition HIGH : Z := 0x8080808080808080.
Definition U64_MAX : Z := 0xffffffffffffffff.

Fixpoint from_le_bytes (chunk : list Z) : Z :=
  match chunk with
  | [] => 0
  | b :: chunk' => b + 256 * from_le_bytes chunk'
  end.

Definition wrapping_sub (a b : Z) : Z := wrap 64 (a - b).
Definition not64 (x : Z) : Z := Z.lxor x U64_MAX.

Definition chunk_escape_mask (chunk : list Z) : Z :=
  let x := from_le_bytes chunk in
  let lt32 := Z.land (wrapping_sub x (0x20 * ONES)) (not64 x) in
  let eq v := let y := Z.lxor x (v * ONES) in Z.land (wrapping_sub y ONES) (not64 y) in
  Z.land (Z.lor (Z.lor (Z.lor lt32 (eq 0x22)) (eq 0x5C)) (eq 0xED)) HIGH.

(** [u64::count_ones] and [u64::trailing_zeros]. *)
Fixpoint popcount_pos (p : positive) : nat :=
  match p with
  | xH => 1
  | xO p => popcount_pos p
  | xI p => S (popcount_pos p)
  end.
Definition count_ones (z : Z) : nat := match z with Zpos p => popcount_pos p | _ => 0%nat end.

Fixpoint ctz_pos (p : positive) : nat :=
  match p with
  | xO p => S (ctz_pos p)
  | _ => 0%nat
  end.
Definition trailing_zeros (z : Z) : nat := match z with Zpos p => ctz_pos p | _ => 64%nat end.

(** [!0u64 << n] for [n < 64], and [checked_shl(n).unwrap_or(0)]. *)
Definition shl_ones (n : nat) : Z := wrap 64 (Z.shiftl U64_MAX (Z.of_nat n)).
Definition checked_shl_ones (n : nat) : Z := if (n <? 64)%nat then shl_ones n else 0.

(** Jump to the next flagged byte and process it. *)
Definition process_flagged (bytes : list Z) (half_start : nat) (m : Z) (len : nat) (s : scan) : scan :=
  let i := (half_start + trailing_zeros m / 8)%nat in
  process_byte bytes (at_ bytes i) len {| result := result s; i_ := i; start := start s |}.

Fixpoint dirty_loop (fuel : nat) (bytes : list Z) (half_start : nat) (m : Z) (len : nat)
    (s : scan) : scan :=
  match fuel with
  | O => s
  | S fuel' =>
      if m =? 0 then s
      else
        let s' := process_flagged bytes half_start m len s in
        let consumed := (i_ s' - half_start)%nat in
        dirty_loop fuel' bytes half_start (Z.land m (checked_shl_ones (consumed * 8))) len s'
  end.

Definition set_i (f : nat -> nat) (s : scan) : scan :=
  {| result := result s; i_ := f (i_ s); start := start s |}.

Definition process_dirty_half (bytes : list Z) (half_start : nat) (mask : Z) (len : nat)
    (s : scan) : scan :=
  let half_end := (half_start + 8)%nat in
  let to_end := set_i (fun i => Nat.max i half_end) in
  if mask =? 0 then to_end s
  else
    let m := Z.land mask (shl_ones ((i_ s - half_start) * 8)) in
    if (count_ones m =? 1)%nat then to_end (process_flagged bytes half_start m len s)
    else to_end (dirty_loop 8 bytes half_start m len s).

(** ** The scanner *)

Definition mask_at (bytes : list Z) (off : nat) : Z :=
  chunk_escape_mask (slice bytes off (off + 8)).

Definition lane_offsets : list nat := [0; 8; 16; 24; 32; 40; 48; 56]%nat.

(** One 64-byte stride at [base]. *)
Definition stride (bytes : list Z) (len : nat) (s : scan) (base : nat) : scan :=
  let masks := (fun off => mask_at bytes (base + off)) <$> lane_offsets in
  if foldl Z.lor 0 masks =? 0 then set_i (fun _ => (base + 64)%nat) s
  else foldl (fun s '(off, m) => process_dirty_half bytes (base + off) m len s) s
         (zip lane_offsets masks).

(** One 8-byte chunk of the tail. *)
Definition sub_chunk (bytes : list Z) (len : nat) (s : scan) (off : nat) : scan :=
  process_dirty_half bytes off (mask_at bytes off) len s.

(** [while i < len { process_byte(..) }]. *)
Fixpoint byte_loop (fuel : nat) (bytes : list Z) (len : nat) (s : scan) : scan :=
  match fuel with
  | O => s
  | S fuel' =>
      if (i_ s <? len)%nat
      then byte_loop fuel' bytes len (process_byte bytes (at_ bytes (i_ s)) len s)
      else s
  end.

Definition escape_json_string_simple (res : list Z) (bytes : list Z) : list Z :=
  let len := length bytes in
  let strides := (len / 64)%nat in
  let s := {| result := res; i_ := 0; start := 0 |} in
  let s := foldl (stride bytes len) s ((fun k => k * 64)%nat <$> seq 0 strides) in
  let tail_len := (len mod 64)%nat in
  let s := foldl (sub_chunk bytes len) s
             ((fun k => strides * 64 + k * 8)%nat <$> seq 0 (tail_len / 8)) in
  let s := byte_loop len bytes len s in
  if (start s <? len)%nat then result s ++ slice bytes (start s) len else result s.

Definition escape_json_string (res bytes : list Z) : list Z := escape_json_string_simple res bytes.
Definition escape_json (bytes : list Z) : list Z := escape_json_string [] bytes.

(** ** Byte lanes of a word *)

(** Byte [k] of a word. *)
Definition lane (x k : Z) : Z := (x / 2 ^ (8 * k)) mod 256.

Lemma pow8_pos k : 0 <= k -> 0 < 2 ^ (8 * k).
Proof. intros H. apply Z.pow_pos_nonneg; lia. Qed.

(** Subtraction acts on each lane up to a borrow. *)
Lemma lane_sub x c k :
  0 <= k < 8 -> exists b, (b = 0 \/ b = 1) /\
    lane (wrapping_sub x c) k = (lane x k - lane c k - b) mod 256.
Proof.
  intros Hk. pose proof (pow8_pos k ltac:(lia)) as HP. unfold lane, wrapping_sub, wrap.
  set (P := 2 ^ (8 * k)) in *.
  assert (H64 : 2 ^ 64 = P * (256 * 2 ^ (56 - 8 * k))).
  { unfold P. change 256 with (2 ^ 8). rewrite <- !Z.pow_add_r by lia. f_equal. lia. }
  set (R := 2 ^ (56 - 8 * k)) in *.
  assert (HR : 0 < R) by (apply Z.pow_pos_nonneg; lia).
  pose proof (Z.div_mod (x - c) (2 ^ 64) ltac:(lia)) as Hz.
  set (q := (x - c) / 2 ^ 64) in *. set (r := (x - c) mod 2 ^ 64) in *.
  pose proof (Z.div_mod x P ltac:(lia)) as Hx. pose proof (Z.mod_pos_bound x P HP) as Hxm.
  pose proof (Z.div_mod c P ltac:(lia)) as Hc. pose proof (Z.mod_pos_bound c P HP) as Hcm.
  set (b := if x mod P <? c mod P then 1 else 0).
  exists b. split; [unfold b; destruct (_ <? _); auto|].
  assert (Hr : r / P = x / P - c / P - b - 256 * R * q).
  { symmetry. apply (Z.div_unique_pos _ _ _ (x mod P - c mod P + b * P)).
    - unfold b. destruct (Z.ltb_spec (x mod P) (c mod P)); lia.
    - rewrite H64 in Hz. nia. }
  rewrite Hr. rewrite (Zminus_mod (x / P - c / P - b)).
  replace (256 * R * q) with (R * q * 256) by lia. rewrite Z_mod_mult, Z.sub_0_r, Zmod_mod.
  rewrite Zminus_mod, (Zminus_mod (x / P)). symmetry.
  by rewrite Zminus_mod.
Qed.

Lemma lane_lxor x y k :
  0 <= k -> lane (Z.lxor x y) k = Z.lxor (lane x k) (lane y k).
Proof.
  intros Hk. unfold lane. change 256 with (2 ^ 8).
  rewrite <- !Z.land_ones, <- !Z.shiftr_div_pow2 by lia.
  rewrite Z.shiftr_lxor. apply Z.bits_inj'. intros n Hn.
  rewrite ?Z.land_spec, ?Z.lxor_spec, ?Z.land_spec. by destruct (Z.testbit (Z.ones 8) n),
    (Z.testbit (Z.shiftr x (8 * k)) n), (Z.testbit (Z.shiftr y (8 * k)) n).
Qed.

(** The high bit of lane [k]. *)
Lemma lane_testbit x k : 0 <= k -> Z.testbit x (8 * k + 7) = (128 <=? lane x k).
Proof.
  intros Hk. unfold lane. rewrite <- Z.shiftr_div_pow2 by lia.
  replace (8 * k + 7) with (7 + 8 * k) by lia. rewrite <- Z.shiftr_spec by lia.
  set (w := Z.shiftr x (8 * k)). rewrite <- (Z.mod_pow2_bits_low w 8 7) by lia.
  change (2 ^ 8) with 256. pose proof (Z.mod_pos_bound w 256 ltac:(lia)) as Hb.
  set (v := w mod 256) in *. rewrite Z.testbit_eqb by lia. change (2 ^ 7) with 128.
  destruct (Z.leb_spec 128 v).
  - assert (v / 128 = 1) as -> by (symmetry; apply (Z.div_unique_pos _ _ _ (v - 128)); lia). done.
  - rewrite Z.div_small by lia. done.
Qed.

Lemma lane_from_le_bytes chunk k :
  Forall byte_ok chunk -> (k < length chunk)%nat ->
  lane (from_le_bytes chunk) (Z.of_nat k) = at_ chunk k.
Proof.
  revert k. induction chunk as [|b chunk IH]; intros k Hb Hk; simpl in *; [lia|].
  apply Forall_cons_1 in Hb as [Hb0 Hb]. unfold byte_ok in Hb0. unfold lane.
  destruct k as [|k].
  - simpl. rewrite Z.div_1_r. unfold at_. simpl.
    rewrite Z.mul_comm, Z_mod_plus_full. by apply Z.mod_small.
  - unfold at_. simpl. fold (at_ chunk k). rewrite <- IH by (done || lia). unfold lane. f_equal.
    replace (8 * Z.of_nat (S k)) with (8 + 8 * Z.of_nat k) by lia.
    rewrite Z.pow_add_r by lia. change (2 ^ 8) with 256.
    rewrite <- Z.div_div by (try apply pow8_pos; lia). f_equal.
    rewrite Z.mul_comm, Z.div_add by lia. rewrite (Z.div_small b) by lia. lia.
Qed.

Lemma lane_const v k : 0 <= v < 256 -> (k < 8)%nat -> lane (v * ONES) (Z.of_nat k) = v.
Proof.
  intros Hv Hk. replace (v * ONES) with (from_le_bytes (replicate 8 v)).
  - rewrite lane_from_le_bytes.
    + unfold at_. by rewrite lookup_replicate_2.
    + by apply Forall_replicate.
    + by rewrite length_replicate.
  - simpl. unfold ONES. lia.
Qed.

Lemma not64_testbit x n : 0 <= n < 64 -> Z.testbit (not64 x) n = negb (Z.testbit x n).
Proof.
  intros Hn. unfold not64. rewrite Z.lxor_spec. change U64_MAX with (Z.ones 64).
  rewrite Z.ones_spec_low by lia. apply xorb_true_r.
Qed.

Lemma HIGH_testbit n :
  0 <= n < 64 -> Z.testbit HIGH n = (n mod 8 =? 7).
Proof.
  intros Hn. assert (H : forallb (fun n => Bool.eqb (Z.testbit HIGH n) (n mod 8 =? 7)) (seqZ 0 64) = true)
    by (vm_compute; reflexivity).
  rewrite forallb_forall in H. apply Bool.eqb_prop, H. apply list_elem_of_In, elem_of_seqZ. lia.
Qed.

(** [(y - v) & !y] has its lane bit set where the lane of [y] is below both
    [v] and 128. *)
Lemma below_testbit y v k :
  0 <= k < 8 -> 0 <= lane y k -> lane y k < lane v k <= 128 - 1 ->
  Z.testbit (Z.land (wrapping_sub y v) (not64 y)) (8 * k + 7) = true.
Proof.
  intros Hk H0 Hl. rewrite Z.land_spec, not64_testbit by lia. rewrite !lane_testbit by lia.
  destruct (lane_sub y v k Hk) as (b & Hb & ->).
  assert (Hm : (lane y k - lane v k - b) mod 256 = lane y k - lane v k - b + 256).
  { symmetry. apply (Z.mod_unique_pos _ _ (-1)); lia. }
  rewrite Hm. apply andb_true_intro. split; [apply Z.leb_le; lia|].
  apply negb_true_iff, Z.leb_gt. lia.
Qed.

(** The bytes that may need an escape. *)
Definition dirty (b : Z) : bool := (b <? 32) || (b =? 34) || (b =? 92) || (b =? 237).

Lemma mask_flags_dirty chunk k :
  Forall byte_ok chunk -> length chunk = 8%nat -> (k < 8)%nat -> dirty (at_ chunk k) = true ->
  Z.testbit (chunk_escape_mask chunk) (8 * Z.of_nat k + 7) = true.
Proof.
  intros Hok Hlen Hk Hd. unfold chunk_escape_mask. set (x := from_le_bytes chunk).
  assert (Hx : lane x (Z.of_nat k) = at_ chunk k) by (apply lane_from_le_bytes; [done|lia]).
  assert (Hb : byte_ok (at_ chunk k)).
  { unfold at_. destruct (chunk !! k) eqn:E; [|by split].
    rewrite Forall_forall in Hok. apply Hok. by eapply list_elem_of_lookup_2. }
  unfold byte_ok in Hb. rewrite Z.land_spec, HIGH_testbit by lia.
  replace ((8 * Z.of_nat k + 7) mod 8) with 7
    by (apply (Z.mod_unique_pos _ _ (Z.of_nat k)); lia).
  rewrite andb_true_r, !Z.lor_spec.
  assert (Heq : forall v, 0 <= v < 256 -> at_ chunk k = v ->
    Z.testbit (Z.land (wrapping_sub (Z.lxor x (v * ONES)) ONES) (not64 (Z.lxor x (v * ONES))))
      (8 * Z.of_nat k + 7) = true).
  { intros v Hv Hat. assert (Hl : lane (Z.lxor x (v * ONES)) (Z.of_nat k) = 0)
      by (rewrite lane_lxor, Hx, lane_const, Hat by lia; apply Z.lxor_nilpotent).
    assert (H1 : lane ONES (Z.of_nat k) = 1) by (change ONES with (1 * ONES); by apply lane_const).
    apply below_testbit; rewrite ?Hl, ?H1; lia. }
  unfold dirty in Hd. rewrite !orb_true_iff in Hd. rewrite !orb_true_iff.
  destruct Hd as [[[Hd|Hd]|Hd]|Hd]; bool_to_prop.
  - left. left. left. apply below_testbit; rewrite ?Hx, ?lane_const by lia; lia.
  - left. left. right. by apply Heq.
  - left. right. by apply Heq.
  - right. by apply Heq.
Qed.

(** Only lane bits are set. *)
Lemma mask_only_high chunk n :
  Z.testbit (chunk_escape_mask chunk) n = true -> exists k, (k < 8)%nat /\ n = 8 * Z.of_nat k + 7.
Proof.
  unfold chunk_escape_mask. rewrite Z.land_spec. intros [_ H]%andb_true_iff.
  assert (Hn : 0 <= n < 64).
  { destruct (Z.ltb_spec n 0); [by rewrite Z.testbit_neg_r in H|].
    destruct (Z.ltb_spec n 64); [lia|]. rewrite Z.bits_above_log2 in H; [done|done|].
    unfold HIGH. simpl. lia. }
  rewrite HIGH_testbit in H by done. bool_to_prop. exists (Z.to_nat (n / 8)).
  pose proof (Z.div_mod n 8 ltac:(lia)). split; lia.
Qed.

(** ** Reference: escaping byte by byte (RFC 8259, section 7)

    Control characters, the quote and the backslash are escaped with the
    short form where there is one; a lone surrogate in WTF-8 becomes a
    [\uXXXX] escape; every other byte stands for itself. *)
Definition escape_of (b : Z) : list Z :=
  if b =? 8 then str "\b" else if b =? 9 then str "\t" else if b =? 10 then str "\n"
  else if b =? 12 then str "\f" else if b =? 13 then str "\r"
  else if b =? 34 then [92; 34] else if b =? 92 then [92; 92]
  else str "\u" ++ hex4 b.

Definition must_escape (b : Z) : bool := (b <? 32) || (b =? 34) || (b =? 92).

Fixpoint escape_ref (s : list Z) : list Z :=
  match s with
  | [] => []
  | b :: rest =>
      if must_escape b then escape_of b ++ escape_ref rest
      else match rest with
           | b1 :: b2 :: rest' =>
               if (b =? 237) && (160 <=? Z.land b1 240)
               then str "\u" ++ hex4 (surrogate_code_point b b1 b2) ++ escape_ref rest'
               else b :: escape_ref rest
           | _ => b :: escape_ref rest
           end
  end.

Lemma table_spec b :
  byte_ok b ->
  (at_ JSON_ESCAPE_CHARS (Z.to_nat b) <? ESCAPE_LEN) = must_escape b /\
  (must_escape b = true ->
   default [] (JSON_ESCAPE_QUOTES !! Z.to_nat (at_ JSON_ESCAPE_CHARS (Z.to_nat b))) = escape_of b).
Proof.
  intros Hb.
  assert (H : forallb (fun b =>
    Bool.eqb (at_ JSON_ESCAPE_CHARS (Z.to_nat b) <? ESCAPE_LEN) (must_escape b) &&
    (negb (must_escape b) ||
     bool_decide (default [] (JSON_ESCAPE_QUOTES !! Z.to_nat (at_ JSON_ESCAPE_CHARS (Z.to_nat b)))
                  = escape_of b))) (seqZ 0 256) = true) by (vm_compute; reflexivity).
  rewrite forallb_forall in H. specialize (H b).
  assert (Hin : In b (seqZ 0 256)) by (apply list_elem_of_In, elem_of_seqZ; unfold byte_ok in Hb; lia).
  apply H, andb_true_iff in Hin as [H1 H2]. split; [by apply Bool.eqb_prop|].
  intros Hm. rewrite Hm in H2. by apply bool_decide_eq_true_1 in H2.
Qed.

Lemma dirty_must b : dirty b = must_escape b || (b =? 237).
Proof. done. Qed.

Lemma escape_ref_clean b rest : dirty b = false -> escape_ref (b :: rest) = b :: escape_ref rest.
Proof.
  rewrite dirty_must. intros [H1 H2]%orb_false_iff. cbn [escape_ref]. rewrite H1, H2. simpl.
  by destruct rest as [|? []].
Qed.

(** ** Bits of a mask *)

Lemma ctz_testbit m :
  0 < m -> Z.testbit m (Z.of_nat (trailing_zeros m)) = true /\
  forall n, 0 <= n < Z.of_nat (trailing_zeros m) -> Z.testbit m n = false.
Proof.
  destruct m as [|p|p]; intros Hm; try lia. clear Hm. cbn [trailing_zeros].
  induction p as [p _|p [IH1 IH2]|]; cbn [ctz_pos]; [split; [done|lia]| |split; [done|lia]].
  rewrite Pos2Z.inj_xO. split.
  - rewrite Nat2Z.inj_succ. by rewrite Z.double_bits_succ.
  - intros n Hn. destruct (decide (n = 0)) as [->|]; [done|].
    replace n with (Z.succ (n - 1)) by lia. rewrite Z.double_bits_succ. apply IH2. lia.
Qed.

Lemma count_ones_1 m :
  0 <= m -> count_ones m = 1%nat -> m = 2 ^ Z.of_nat (trailing_zeros m).
Proof.
  destruct m as [|p|p]; intros Hm; try lia; cbn [count_ones trailing_zeros]; [done|]. clear Hm.
  assert (Hpos : forall p, (1 <= popcount_pos p)%nat) by (induction p0; simpl; lia).
  induction p as [p _|p IH|]; cbn [ctz_pos popcount_pos]; intros H.
  - pose proof (Hpos p). lia.
  - rewrite Nat2Z.inj_succ, Z.pow_succ_r by lia. rewrite <- IH by done. lia.
  - done.
Qed.

Lemma shl_ones_testbit k n :
  (k < 64)%nat -> 0 <= n < 64 -> Z.testbit (shl_ones k) n = (Z.of_nat k <=? n).
Proof.
  intros Hk Hn. unfold shl_ones, wrap. rewrite Z.mod_pow2_bits_low by lia.
  rewrite Z.shiftl_spec by lia. change U64_MAX with (Z.ones 64).
  destruct (Z.leb_spec (Z.of_nat k) n).
  - apply Z.ones_spec_low. lia.
  - apply Z.testbit_neg_r. lia.
Qed.

Lemma checked_shl_ones_testbit k n :
  0 <= n < 64 -> Z.testbit (checked_shl_ones k) n = (Z.of_nat k <=? n).
Proof.
  intros Hn. unfold checked_shl_ones. destruct (Nat.ltb_spec k 64).
  - by apply shl_ones_testbit.
  - rewrite Z.bits_0. symmetry. apply Z.leb_gt. lia.
Qed.

(** ** The scanner's invariant *)
Section Scanner.
Context (res0 bytes : list Z).
Hypothesis Hbytes : Forall byte_ok bytes.
Abbreviation len := (length bytes).

(** What has been written, the pending bytes and the escape of the rest make
    up the answer. *)
Definition Inv (s : scan) : Prop :=
  (start s <= i_ s <= len)%nat /\
  result s ++ slice bytes (start s) (i_ s) ++ escape_ref (drop (i_ s) bytes)
  = res0 ++ escape_ref bytes.

Lemma at_ok i : byte_ok (at_ bytes i).
Proof.
  unfold at_. destruct (bytes !! i) eqn:E; [|by split].
  rewrite Forall_forall in Hbytes. apply Hbytes. by eapply list_elem_of_lookup_2.
Qed.

Lemma drop_at i : (i < len)%nat -> drop i bytes = at_ bytes i :: drop (i + 1) bytes.
Proof.
  intros H. destruct (lookup_lt_is_Some_2 bytes i H) as [b Hb]. unfold at_. rewrite Hb.
  rewrite Nat.add_1_r. by apply drop_S.
Qed.

Lemma slice_extend a i : (a <= i < len)%nat -> slice bytes a (i + 1) = slice bytes a i ++ [at_ bytes i].
Proof.
  intros H. unfold slice. replace (i + 1 - a)%nat with (S (i - a)) by lia.
  apply take_S_r. rewrite lookup_drop. replace (a + (i - a))%nat with i by lia.
  unfold at_. destruct (lookup_lt_is_Some_2 bytes i) as [b Hb]; [lia|]. by rewrite Hb.
Qed.

Lemma slice_nil a : slice bytes a a = [].
Proof. unfold slice. by rewrite Nat.sub_diag. Qed.

Lemma skip_one s :
  Inv s -> (i_ s < len)%nat ->
  escape_ref (drop (i_ s) bytes) = at_ bytes (i_ s) :: escape_ref (drop (i_ s + 1) bytes) ->
  Inv {| result := result s; i_ := i_ s + 1; start := start s |}.
Proof.
  intros [Hle He] Hi Hr. split; simpl; [lia|]. rewrite slice_extend by lia.
  rewrite <- He, Hr. by rewrite <- !(assoc_L (++)).
Qed.

Lemma process_byte_inv s :
  Inv s -> (i_ s < len)%nat ->
  let s' := process_byte bytes (at_ bytes (i_ s)) len s in
  Inv s' /\ (i_ s < i_ s' <= i_ s + 3)%nat.
Proof.
  intros HI Hi. cbv zeta. unfold process_byte.
  destruct (table_spec (at_ bytes (i_ s)) (at_ok _)) as [Ht Hq]. rewrite Ht.
  pose proof HI as [Hle He]. rewrite (drop_at (i_ s)) in He by done. cbn [escape_ref] in He.
  destruct (must_escape (at_ bytes (i_ s))) eqn:Hm.
  { rewrite (Hq eq_refl). simpl. split; [|lia]. split; simpl; [lia|].
    rewrite slice_nil. simpl. rewrite <- He. by rewrite <- !(assoc_L (++)). }
  destruct ((at_ bytes (i_ s) =? 237) && (i_ s + 2 <? len)%nat
          && (160 <=? Z.land (at_ bytes (i_ s + 1)) 240)) eqn:Hc.
  - bool_to_prop. rewrite (drop_at (i_ s + 1)), (drop_at (i_ s + 1 + 1)) in He by lia.
    rewrite <- Nat.add_assoc in He. rewrite (proj2 (Z.eqb_eq _ _)) in He by done.
    rewrite (proj2 (Z.leb_le 160 _)) in He by done. cbn [andb] in He.
    simpl. split; [|lia]. split; simpl; [lia|]. rewrite slice_nil. cbn [app].
    replace (i_ s + 3)%nat with (i_ s + (1 + 1) + 1)%nat by lia.
    rewrite <- He. destruct (Nat.ltb_spec (start s) (i_ s)).
    + by rewrite <- !(assoc_L (++)).
    + replace (start s) with (i_ s) by lia. rewrite slice_nil. cbn [app].
      by rewrite <- !(assoc_L (++)).
  - simpl. split; [|lia]. apply skip_one; [done..|].
    rewrite (drop_at (i_ s)) by done. cbn [escape_ref]. rewrite Hm.
    destruct (drop (i_ s + 1) bytes) as [|b1 [|b2 rest]] eqn:Ed; try done.
    assert (Hlen : (i_ s + 2 < len)%nat).
    { apply (f_equal length) in Ed. rewrite length_drop in Ed. simpl in Ed. lia. }
    assert (Hb1 : at_ bytes (i_ s + 1) = b1).
    { rewrite (drop_at (i_ s + 1)) in Ed by lia. by injection Ed. }
    rewrite (proj2 (Nat.ltb_lt _ _)) in Hc by lia. rewrite andb_true_r, Hb1 in Hc. by rewrite Hc.
Qed.

Lemma skip_clean s j :
  Inv s -> (i_ s <= j <= len)%nat ->
  (forall k, (i_ s <= k < j)%nat -> dirty (at_ bytes k) = false) ->
  Inv {| result := result s; i_ := j; start := start s |}.
Proof.
  intros HI Hj Hc. remember (j - i_ s)%nat as n eqn:Hn. revert s HI Hj Hc Hn.
  induction n as [|n IH]; intros s HI Hj Hc Hn.
  - replace j with (i_ s) by lia. by destruct s.
  - apply (IH {| result := result s; i_ := i_ s + 1; start := start s |}); simpl; [|lia| |lia].
    + apply skip_one; [done|lia|]. rewrite drop_at by lia. apply escape_ref_clean, Hc. lia.
    + intros k Hk. apply Hc. lia.
Qed.

(** The bits of the mask of the chunk at [hs] that lie at or above byte [i]. *)
Definition flags (hs i : nat) (m : Z) : Prop :=
  0 <= m /\ forall k, (k < 8)%nat ->
    Z.testbit m (8 * Z.of_nat k + 7)
    = Z.testbit (mask_at bytes hs) (8 * Z.of_nat k + 7) && (i - hs <=? k)%nat.

Definition only_lanes (m : Z) : Prop :=
  forall n, Z.testbit m n = true -> exists k, (k < 8)%nat /\ n = 8 * Z.of_nat k + 7.

Lemma slice_lane hs k : (k < 8)%nat -> (hs + 8 <= len)%nat ->
  at_ (slice bytes hs (hs + 8)) k = at_ bytes (hs + k).
Proof.
  intros Hk Hl. unfold at_, slice. replace (hs + 8 - hs)%nat with 8%nat by lia.
  rewrite lookup_take_lt by lia. by rewrite lookup_drop.
Qed.

Lemma unflagged_clean hs k :
  (hs + 8 <= len)%nat -> (k < 8)%nat ->
  Z.testbit (mask_at bytes hs) (8 * Z.of_nat k + 7) = false -> dirty (at_ bytes (hs + k)) = false.
Proof.
  intros Hl Hk Hf. destruct (dirty (at_ bytes (hs + k))) eqn:Hd; [|done].
  rewrite <- slice_lane in Hd by done. unfold mask_at in Hf.
  rewrite (mask_flags_dirty _ k) in Hf; [done| | |done|done].
  - unfold slice. by apply Forall_take, Forall_drop.
  - unfold slice. rewrite length_take, length_drop. lia.
Qed.

(** With no flag left at or above [i], the rest of the chunk is clean. *)
Lemma flags_zero_clean hs i k :
  (hs + 8 <= len)%nat -> flags hs i 0 -> (hs <= i)%nat -> (i <= k < hs + 8)%nat ->
  dirty (at_ bytes k) = false.
Proof.
  intros Hl [_ Hf] Hi Hk. replace k with (hs + (k - hs))%nat by lia.
  apply unflagged_clean; [done|lia|]. specialize (Hf (k - hs)%nat ltac:(lia)).
  rewrite Z.bits_0, (proj2 (Nat.leb_le _ _)), andb_true_r in Hf by lia. done.
Qed.

(** The next flag: its byte index, and that the bytes before it are clean. *)
Lemma flags_next hs s m :
  (hs + 8 <= len)%nat -> flags hs (i_ s) m -> only_lanes m -> m <> 0 -> (hs <= i_ s)%nat ->
  exists k, (k < 8)%nat /\ (i_ s <= hs + k)%nat /\ (trailing_zeros m / 8 = k)%nat /\
    Z.of_nat (trailing_zeros m) = 8 * Z.of_nat k + 7 /\
    forall j, (i_ s <= j < hs + k)%nat -> dirty (at_ bytes j) = false.
Proof.
  intros Hl [H0 Hf] Hol Hm Hi. destruct (ctz_testbit m ltac:(lia)) as [Ht Hlow].
  destruct (Hol _ Ht) as (k & Hk & Hn). exists k.
  pose proof (Hf k Hk) as Hfk. rewrite <- Hn, Ht in Hfk. symmetry in Hfk.
  apply andb_true_iff in Hfk as [_ Hik]. apply Nat.leb_le in Hik.
  split_and!; [done|lia| |done|].
  - assert (Hn' : trailing_zeros m = (8 * k + 7)%nat) by lia. rewrite Hn'.
    symmetry. apply (Nat.div_unique _ _ _ 7); lia.
  - intros j Hj. replace j with (hs + (j - hs))%nat by lia. apply unflagged_clean; [done|lia|].
    specialize (Hf (j - hs)%nat ltac:(lia)). rewrite Hlow in Hf by lia.
    rewrite (proj2 (Nat.leb_le _ _)), andb_true_r in Hf by lia. done.
Qed.

Lemma process_flagged_inv hs s m :
  Inv s -> (hs + 8 <= len)%nat -> flags hs (i_ s) m -> only_lanes m -> m <> 0 -> (hs <= i_ s)%nat ->
  let s' := process_flagged bytes hs m len s in
  Inv s' /\ exists k, (k < 8)%nat /\ (i_ s <= hs + k < i_ s')%nat /\ (i_ s' <= hs + k + 3)%nat /\
    Z.of_nat (trailing_zeros m) = 8 * Z.of_nat k + 7.
Proof.
  intros HI Hl Hf Hol Hm Hi. destruct (flags_next hs s m Hl Hf Hol Hm Hi) as (k & Hk & Hik & Hdiv & Htz & Hc).
  cbv zeta. unfold process_flagged. rewrite Hdiv.
  assert (HI' : Inv {| result := result s; i_ := hs + k; start := start s |})
    by (apply skip_clean; [done|lia|done]).
  destruct (process_byte_inv _ HI') as [HI2 Hb]; [simpl; lia|]. cbn [i_] in *.
  split; [done|]. exists k. split_and!; (done || lia).
Qed.

Lemma dirty_loop_inv fuel hs m s :
  Inv s -> (hs + 8 <= len)%nat -> flags hs (i_ s) m -> only_lanes m ->
  (hs <= i_ s <= hs + 10)%nat -> (8 <= fuel + (i_ s - hs))%nat ->
  let s' := dirty_loop fuel bytes hs m len s in
  Inv s' /\ (i_ s <= i_ s' <= hs + 10)%nat /\
  forall k, (i_ s' <= k < hs + 8)%nat -> dirty (at_ bytes k) = false.
Proof.
  revert m s. induction fuel as [|fuel IH]; intros m s HI Hl Hf Hol Hi Hfuel; cbv zeta; cbn [dirty_loop].
  - split_and!; [done|lia|lia|]. intros k Hk. lia.
  - destruct (Z.eqb_spec m 0) as [->|Hm].
    { split_and!; [done|lia|lia|]. intros k Hk.
      apply (flags_zero_clean hs (i_ s)); (done || lia). }
    destruct (process_flagged_inv hs s m) as (HI' & k & Hk & Hik & Hup & _); try done; [lia|].
    set (s' := process_flagged bytes hs m len s) in *.
    destruct (IH (Z.land m (checked_shl_ones ((i_ s' - hs) * 8))) s') as (HI2 & Hr & Hc); try done; try lia.
    + destruct Hf as [H0 Hf]. split; [by apply Z.land_nonneg; left|]. intros j Hj.
      rewrite Z.land_spec, (Hf j Hj), checked_shl_ones_testbit by lia.
      rewrite <- andb_assoc. f_equal.
      destruct (Nat.leb_spec (i_ s' - hs) j), (Nat.leb_spec (i_ s - hs) j),
        (Z.leb_spec (Z.of_nat ((i_ s' - hs) * 8)) (8 * Z.of_nat j + 7)); simpl; (done || lia).
    + intros n Hn. rewrite Z.land_spec in Hn. apply andb_true_iff in Hn as [Hn _]. by apply Hol.
    + split_and!; (done || lia).
Qed.

Lemma mask_nonneg hs : 0 <= mask_at bytes hs.
Proof. unfold mask_at, chunk_escape_mask. apply Z.land_nonneg. right. done. Qed.

Lemma mask_only_lanes hs : only_lanes (mask_at bytes hs).
Proof. intros n. apply mask_only_high. Qed.

(** Advancing to the end of a chunk whose rest is clean. *)
Lemma to_end_inv hs s :
  Inv s -> (hs + 8 <= len)%nat -> (hs <= i_ s <= hs + 10)%nat ->
  (forall k, (i_ s <= k < hs + 8)%nat -> dirty (at_ bytes k) = false) ->
  let s' := set_i (fun i => Nat.max i (hs + 8)) s in
  Inv s' /\ (hs + 8 <= i_ s' <= hs + 8 + 2)%nat.
Proof.
  intros HI Hl Hi Hc. cbv zeta. unfold set_i. simpl. split; [|lia].
  destruct (Nat.le_gt_cases (i_ s) (hs + 8)) as [Hle|Hgt].
  - rewrite Nat.max_r by lia. by apply skip_clean.
  - rewrite Nat.max_l by lia. by destruct s.
Qed.

Lemma process_dirty_half_inv hs s :
  Inv s -> (hs + 8 <= len)%nat -> (hs <= i_ s <= hs + 2)%nat ->
  let s' := process_dirty_half bytes hs (mask_at bytes hs) len s in
  Inv s' /\ (hs + 8 <= i_ s' <= hs + 8 + 2)%nat.
Proof.
  intros HI Hl Hi. cbv zeta. unfold process_dirty_half.
  set (m := Z.land (mask_at bytes hs) (shl_ones ((i_ s - hs) * 8))).
  assert (Hf : flags hs (i_ s) m).
  { split; [apply Z.land_nonneg; left; apply mask_nonneg|]. intros k Hk. unfold m.
    rewrite Z.land_spec, shl_ones_testbit by lia. f_equal.
    destruct (Z.leb_spec (Z.of_nat ((i_ s - hs) * 8)) (8 * Z.of_nat k + 7)),
      (Nat.leb_spec (i_ s - hs) k); (done || lia). }
  assert (Hol : only_lanes m).
  { intros n Hn. unfold m in Hn. rewrite Z.land_spec in Hn.
    apply andb_true_iff in Hn as [Hn _]. by apply (mask_only_lanes hs). }
  destruct (Z.eqb_spec (mask_at bytes hs) 0) as [Hz|Hnz].
  { apply to_end_inv; [done..|lia|]. intros k Hk.
    apply (flags_zero_clean hs (i_ s)); [done| |lia|lia].
    unfold m in Hf. by rewrite Hz, Z.land_0_l in Hf. }
  destruct (Nat.eqb_spec (count_ones m) 1) as [H1|_].
  - assert (Hm : m <> 0) by (intros E; by rewrite E in H1).
    pose proof (count_ones_1 m (proj1 Hf) H1) as Hpow.
    destruct (process_flagged_inv hs s m) as (HI' & k & Hk & Hik & Hup & Htz); try done; [lia|].
    apply to_end_inv; [done..|lia|]. intros j Hj.
    replace j with (hs + (j - hs))%nat by lia. apply unflagged_clean; [done|lia|].
    destruct Hf as [_ Hf]. specialize (Hf (j - hs)%nat ltac:(lia)).
    rewrite (proj2 (Nat.leb_le _ _)), andb_true_r in Hf by lia. rewrite <- Hf, Hpow.
    apply Z.pow2_bits_false. lia.
  - destruct (dirty_loop_inv 8 hs m s) as (HI' & Hr & Hc); try done; [lia..|].
    apply to_end_inv; [done..|lia|done].
Qed.

Lemma sub_chunks_inv hs n s :
  Inv s -> (hs + n * 8 <= len)%nat -> (hs <= i_ s <= hs + 2)%nat ->
  let s' := foldl (sub_chunk bytes len) s ((fun k => hs + k * 8)%nat <$> seq 0 n) in
  Inv s' /\ (hs + n * 8 <= i_ s' <= hs + n * 8 + 2)%nat.
Proof.
  intros HI. induction n as [|n IH]; intros Hl Hi; cbv zeta.
  - simpl. split; [done|lia].
  - rewrite seq_S, fmap_app, foldl_app. cbn [fmap list_fmap foldl].
    destruct IH as [HI' Hr]; [lia|done|].
    rewrite Nat.add_0_l. set (s1 := foldl _ _ _) in *.
    destruct (process_dirty_half_inv (hs + n * 8) s1 HI') as [HI2 Hr2]; [lia|lia|].
    fold (sub_chunk bytes len s1 (hs + n * 8)) in HI2, Hr2. split; [done|lia].
Qed.

Lemma stride_lanes base s :
  foldl Z.lor 0 ((fun off => mask_at bytes (base + off)) <$> lane_offsets) <> 0 ->
  stride bytes len s base =
  foldl (sub_chunk bytes len) s ((fun k => base + k * 8)%nat <$> seq 0 8).
Proof.
  intros H. unfold stride. rewrite (proj2 (Z.eqb_neq _ _)) by done. reflexivity.
Qed.

Lemma foldl_lor_zero l a : foldl Z.lor a l = 0 -> a = 0 /\ Forall (fun m => m = 0) l.
Proof.
  revert a. induction l as [|m l IH]; intros a H; simpl in *; [by split|].
  apply IH in H as [H Hl]. apply Z.lor_eq_0_iff in H as [-> ->]. by split; [|constructor].
Qed.

Lemma stride_inv base s :
  Inv s -> (base + 64 <= len)%nat -> (base <= i_ s <= base + 2)%nat ->
  Inv (stride bytes len s base) /\ (base + 64 <= i_ (stride bytes len s base) <= base + 64 + 2)%nat.
Proof.
  intros HI Hl Hi.
  destruct (Z.eq_dec (foldl Z.lor 0 ((fun off => mask_at bytes (base + off)) <$> lane_offsets)) 0) as [Hz|Hnz].
  - unfold stride. rewrite (proj2 (Z.eqb_eq _ _)) by done. unfold set_i. simpl. split; [|lia].
    apply skip_clean; [done|lia|]. intros k Hk.
    apply foldl_lor_zero in Hz as [_ Hz]. rewrite Forall_forall in Hz.
    set (q := ((k - base) / 8)%nat).
    assert (Hq : (k - base = 8 * q + (k - base) mod 8)%nat) by (apply Nat.div_mod_eq).
    assert (Hmod : ((k - base) mod 8 < 8)%nat) by (apply Nat.mod_upper_bound; lia).
    assert (Hmask : mask_at bytes (base + q * 8) = 0).
    { apply Hz. apply list_elem_of_fmap. exists (q * 8)%nat. split; [done|].
      assert (Hq8 : (q < 8)%nat) by lia. unfold lane_offsets. clear -Hq8.
      do 8 (destruct q as [|q]; [by repeat (apply elem_of_cons; (by left) || right)|]). lia. }
    replace k with (base + q * 8 + (k - base) mod 8)%nat by lia.
    apply unflagged_clean; [lia|done|]. by rewrite Hmask, Z.bits_0.
  - rewrite stride_lanes by done. destruct (sub_chunks_inv base 8 s) as [HI' Hr]; [done|lia|done|].
    split; [done|lia].
Qed.

Lemma strides_inv n s :
  Inv s -> i_ s = 0%nat -> (n * 64 <= len)%nat ->
  let s' := foldl (stride bytes len) s ((fun k => k * 64)%nat <$> seq 0 n) in
  Inv s' /\ (n * 64 <= i_ s' <= n * 64 + 2)%nat.
Proof.
  intros HI H0. induction n as [|n IH]; intros Hl; cbv zeta.
  - simpl. split; [done|lia].
  - rewrite seq_S, fmap_app, foldl_app. cbn [fmap list_fmap foldl].
    rewrite Nat.add_0_l. destruct IH as [HI' Hr]; [lia|]. set (s1 := foldl _ _ _) in *.
    destruct (stride_inv (n * 64) s1 HI') as [HI2 Hr2]; [lia|lia|].
    split; [done|lia].
Qed.

Lemma byte_loop_inv fuel s :
  Inv s -> (len <= fuel + i_ s)%nat ->
  Inv (byte_loop fuel bytes len s) /\ i_ (byte_loop fuel bytes len s) = len.
Proof.
  revert s. induction fuel as [|fuel IH]; intros s HI Hf; cbn [byte_loop].
  - split; [done|]. destruct HI as [? _]. lia.
  - destruct (Nat.ltb_spec (i_ s) len) as [Hlt|Hge].
    + destruct (process_byte_inv s HI Hlt) as [HI' Hb]. apply IH; [done|lia].
    + split; [done|]. destruct HI as [? _]. lia.
Qed.

Lemma scanner_correct :
  escape_json_string_simple res0 bytes = res0 ++ escape_ref bytes.
Proof.
  unfold escape_json_string_simple.
  set (s0 := {| result := res0; i_ := 0; start := 0 |}).
  assert (HI0 : Inv s0) by (split; [simpl; lia|done]).
  pose proof (Nat.div_mod_eq len 64) as Hd. pose proof (Nat.mod_upper_bound len 64 ltac:(lia)) as Hm.
  pose proof (Nat.div_mod_eq (len mod 64) 8) as Hd2.
  destruct (strides_inv (len / 64) s0 HI0 eq_refl) as [HI1 Hr1]; [lia|].
  set (s1 := foldl (stride bytes len) s0 _) in *.
  destruct (sub_chunks_inv (len / 64 * 64) ((len mod 64) / 8) s1 HI1) as [HI2 Hr2]; [lia|lia|].
  set (s2 := foldl (sub_chunk bytes len) s1 _) in *.
  destruct (byte_loop_inv len s2 HI2) as [[Hle He] Hi]; [lia|].
  set (s3 := byte_loop len bytes len s2) in *. rewrite Hi in He, Hle.
  rewrite drop_ge, app_nil_r in He by done.
  destruct (Nat.ltb_spec (start s3) len) as [|Hge]; [done|].
  replace (start s3) with len in He by lia. by rewrite slice_nil, app_nil_r in He.
Qed.
End Scanner.

(** ** Reading escapes back (RFC 8259, with WTF-8 for surrogates) *)

Definition hex_val (c : Z) : option Z :=
  if (48 <=? c) && (c <=? 57) then Some (c - 48)
  else if (97 <=? c) && (c <=? 102) then Some (c - 87)
  else if (65 <=? c) && (c <=? 70) then Some (c - 55)
  else None.

Definition wtf8 (u : Z) : list Z :=
  if u <? 128 then [u]
  else if u <? 2048 then [192 + u / 64; 128 + u mod 64]
  else [224 + u / 4096; 128 + (u / 64) mod 64; 128 + u mod 64].

Definition short_escape (c : Z) : option Z :=
  if c =? 34 then Some 34 else if c =? 92 then Some 92 else if c =? 47 then Some 47
  else if c =? 98 then Some 8 else if c =? 102 then Some 12 else if c =? 110 then Some 10
  else if c =? 114 then Some 13 else if c =? 116 then Some 9 else None.

(** The content of a JSON string literal; [None] if it is not one. *)
Fixpoint unescape (s : list Z) : option (list Z) :=
  match s with
  | [] => Some []
  | b :: rest =>
      if b =? 92 then
        match rest with
        | c :: rest' =>
            if c =? 117 then
              match rest' with
              | h3 :: h2 :: h1 :: h0 :: r =>
                  let! d3 := hex_val h3 in let! d2 := hex_val h2 in
                  let! d1 := hex_val h1 in let! d0 := hex_val h0 in
                  let! t := unescape r in
                  Some (wtf8 (4096 * d3 + 256 * d2 + 16 * d1 + d0) ++ t)
              | _ => None
              end
            else
              let! x := short_escape c in
              let! t := unescape rest' in Some (x :: t)
        | [] => None
        end
      else if (b <? 32) || (b =? 34) then None
      else let! t := unescape rest in Some (b :: t)
  end.

(** Where [ED A0..] starts a three-byte group, the group is a surrogate. *)
Fixpoint wf_surrogates (s : list Z) : bool :=
  match s with
  | [] => true
  | b :: rest =>
      match rest with
      | b1 :: b2 :: _ =>
          negb ((b =? 237) && (160 <=? Z.land b1 240))
          || ((160 <=? b1) && (b1 <? 192) && (128 <=? b2) && (b2 <? 192))
      | _ => true
      end && wf_surrogates rest
  end.

Lemma hex_val_digit h : 0 <= h < 16 -> hex_val (hex_digit h) = Some h.
Proof.
  intros Hh. unfold hex_val, hex_digit. destruct (Z.ltb_spec h 10).
  - rewrite !(proj2 (Z.leb_le _ _)) by lia. simpl. f_equal. lia.
  - rewrite (proj2 (Z.leb_gt (97 + h - 10) 57)) by lia. rewrite andb_false_r.
    rewrite !(proj2 (Z.leb_le _ _)) by lia. simpl. f_equal. lia.
Qed.

Lemma unescape_u u t :
  0 <= u < 65536 ->
  unescape (str "\u" ++ hex4 u ++ t) = (let! r := unescape t in Some (wtf8 u ++ r)).
Proof.
  intros Hu. unfold hex4. rewrite !Z.shiftr_div_pow2 by lia. change 15 with (Z.ones 4).
  rewrite !Z.land_ones by lia.
  change (2 ^ 4) with 16. change (2 ^ 8) with 256. change (2 ^ 12) with 4096.
  assert (H3 : 0 <= u / 4096 < 16) by (split; [apply Z.div_pos; lia|apply Z.div_lt_upper_bound; lia]).
  assert (Hsum : 4096 * (u / 4096) + 256 * ((u / 256) mod 16) + 16 * ((u / 16) mod 16) + u mod 16 = u).
  { Z.to_euclidean_division_equations. lia. }
  change (str "\u") with [92; 117]. cbn [app fmap list_fmap unescape Z.eqb Pos.eqb].
  rewrite !hex_val_digit by (done || apply Z.mod_pos_bound; lia). by rewrite Hsum.
Qed.

Lemma wtf8_surrogate b1 b2 :
  160 <= b1 < 192 -> 128 <= b2 < 192 ->
  0 <= surrogate_code_point 237 b1 b2 < 65536 /\
  wtf8 (surrogate_code_point 237 b1 b2) = [237; b1; b2].
Proof.
  intros H1 H2.
  assert (H : forallb (fun b1 => forallb (fun b2 =>
    let u := surrogate_code_point 237 b1 b2 in
    (0 <=? u) && (u <? 65536) && bool_decide (wtf8 u = [237; b1; b2])) (seqZ 128 64)) (seqZ 160 32) = true)
    by (vm_compute; reflexivity).
  rewrite forallb_forall in H. specialize (H b1). rewrite forallb_forall in H.
  assert (Hi1 : In b1 (seqZ 160 32)) by (apply list_elem_of_In, elem_of_seqZ; lia).
  assert (Hi2 : In b2 (seqZ 128 64)) by (apply list_elem_of_In, elem_of_seqZ; lia).
  specialize (H Hi1 b2 Hi2). apply andb_true_iff in H as [Hr Hw].
  apply andb_true_iff in Hr as [Hr1 Hr2]. bool_to_prop.
  apply bool_decide_eq_true_1 in Hw. split; [lia|done].
Qed.

Lemma unescape_escape_of b t :
  0 <= b -> must_escape b = true ->
  unescape (escape_of b ++ t) = (let! r := unescape t in Some (b :: r)).
Proof.
  intros H0 Hm. unfold escape_of.
  repeat match goal with
  | |- context [if ?x =? ?y then _ else _] => destruct (Z.eqb_spec x y) as [->|]; [done|]
  end.
  unfold must_escape in Hm. rewrite !orb_true_iff in Hm.
  destruct Hm as [[Hm|Hm]|Hm]; bool_to_prop; try lia.
  rewrite <- (assoc_L (++)), unescape_u by lia. unfold wtf8.
  by rewrite (proj2 (Z.ltb_lt _ _)) by lia.
Qed.

Lemma unescape_plain b t :
  must_escape b = false -> unescape (b :: t) = (let! r := unescape t in Some (b :: r)).
Proof.
  unfold must_escape. intros [[H1 H2]%orb_false_iff H3]%orb_false_iff. cbn [unescape].
  by rewrite H3, H1, H2.
Qed.

Lemma unescape_escape_ref s :
  Forall byte_ok s -> wf_surrogates s = true -> unescape (escape_ref s) = Some s.
Proof.
  remember (length s) as n eqn:Hn. revert s Hn.
  induction (lt_wf n) as [n _ IH]. intros s -> Hok Hwf.
  destruct s as [|b rest]; [done|]. apply Forall_cons_1 in Hok as [Hb Hok].
  cbn [wf_surrogates] in Hwf. apply andb_true_iff in Hwf as [Hs Hwf].
  assert (Hrest : unescape (escape_ref rest) = Some rest) by (eapply IH; [|reflexivity|..]; simpl; (done || lia)).
  cbn [escape_ref]. destruct (must_escape b) eqn:Hm.
  - rewrite unescape_escape_of by (done || apply Hb). by rewrite Hrest.
  - destruct rest as [|b1 [|b2 rest]]; try (rewrite unescape_plain by done; by rewrite Hrest).
    destruct ((b =? 237) && (160 <=? Z.land b1 240)) eqn:Hc;
      [|rewrite unescape_plain by done; by rewrite Hrest].
    simpl in Hs. rewrite !andb_true_iff in Hs. destruct Hs as [[[? ?] ?] ?]. bool_to_prop. subst b.
    destruct (wtf8_surrogate b1 b2) as [Hu Hw]; [lia|lia|].
    rewrite unescape_u by done. rewrite Hw.
    apply Forall_cons_1 in Hok as [_ Hok]. apply Forall_cons_1 in Hok as [_ Hok].
    cbn [wf_surrogates] in Hwf. apply andb_true_iff in Hwf as [_ Hwf].
    apply andb_true_iff in Hwf as [_ Hwf].
    erewrite IH; [done| |reflexivity|done|done]. simpl. lia.
Qed.

(** ** Properties *)

(** The SWAR scanner appends exactly the byte-by-byte escape of its
    input, for every byte string and every accumulated result. *)
Theorem escape_json_string_correct res bytes :
  Forall byte_ok bytes -> escape_json_string res bytes = res ++ escape_ref bytes.
Proof. intros H. by apply scanner_correct. Qed.

(** Reading the escaped text back as a JSON string gives the bytes that
    were escaped, lone surrogates included. *)
Theorem escape_json_roundtrip bytes :
  Forall byte_ok bytes -> wf_surrogates bytes = true -> unescape (escape_json bytes) = Some bytes.
Proof.
  intros Hb Hw. unfold escape_json, escape_json_string. rewrite scanner_correct by done.
  by apply unescape_escape_ref.
Qed.

(** The word-level detector misses no byte: if byte [k] of a chunk is a
    control character, a quote, a backslash or 0xED, bit [8k+7] of the mask
    is set; and no bit outside these positions ever is. *)
Theorem chunk_escape_mask_complete chunk :
  Forall byte_ok chunk -> length chunk = 8%nat ->
  (forall k, (k < 8)%nat -> dirty (at_ chunk k) = true ->
     Z.testbit (chunk_escape_mask chunk) (8 * Z.of_nat k + 7) = true) /\
  (forall n, Z.testbit (chunk_escape_mask chunk) n = true ->
     exists k, (k < 8)%nat /\ n = 8 * Z.of_nat k + 7).
Proof.
  intros Hok Hl. split; [|apply mask_only_high]. intros k Hk Hd. by apply mask_flags_dirty.
Qed.

(** ** Witnesses *)

Definition sample_text : list Z :=
  str "tab" ++ [9] ++ str "and a lone surrogate " ++ [237; 160; 128] ++
  str " in a text that is longer than one sixty-four byte stride" ++ [34].

#[export] Instance byte_ok_dec b : Decision (byte_ok b).
Proof. unfold byte_ok. apply _. Defined.

Lemma sample_text_ok : Forall byte_ok sample_text.
Proof. apply (bool_decide_unpack _). vm_compute. exact I. Qed.

Lemma escape_json_string_correct_witness :
  escape_json_string (str "[") sample_text = str "[" ++ escape_ref sample_text.
Proof. apply (escape_json_string_correct (str "[") sample_text sample_text_ok). Defined.

Lemma escape_json_roundtrip_witness : unescape (escape_json sample_text) = Some sample_text.
Proof.
  apply (escape_json_roundtrip sample_text sample_text_ok). vm_compute. reflexivity.
Defined.

Lemma chunk_escape_mask_complete_witness :
  Z.testbit (chunk_escape_mask ([34] ++ str "abcdefg")) 7 = true.
Proof.
  apply (proj1 (chunk_escape_mask_complete ([34] ++ str "abcdefg")
    ltac:(apply (bool_decide_unpack _); vm_compute; exact I) eq_refl) 0%nat); [lia|reflexivity].
Defined.
