(* ===== verification/StableSort.v ===== *)
(** * Stable sorting, as [slice::sort_by] does it

    [Vec::sort_by] of the standard library is a stable sort: the result is
    ordered, is a permutation of the input and keeps the order of elements
    that compare equal.  [sort_by] below is the insertion sort with that
    behaviour; its three laws are what the header list and the query-string
    list rely on.  [bytes_leb] is the order of Rust's [str]. *)
From stdpp Require Import base list numbers sorting.
From Stdlib Require Import ZArith Lia.
From S2P Require Import Prelude.

(** What a comparison has to satisfy to be sorted by. *)
Class TotalPreorder {A} (leb : A -> A -> bool) : Prop := {
  leb_total : forall x y, leb x y = true \/ leb y x = true;
  leb_trans : forall x y z, leb x y = true -> leb y z = true -> leb x z = true;
}.

Section Sort.
Context {A : Type} (leb : A -> A -> bool) `{!TotalPreorder leb}.

Fixpoint insert_by (x : A) (l : list A) : list A :=
  match l with
  | [] => [x]
  | y :: l' => if leb x y then x :: l else y :: insert_by x l'
  end.

Definition sort_by (l : list A) : list A := foldr insert_by [] l.

Abbreviation le := (fun x y => leb x y = true).

Lemma insert_by_perm x l : insert_by x l ≡ₚ x :: l.
Proof.
  induction l as [|y l IH]; simpl; [done|]. destruct (leb x y); [done|].
  rewrite IH. constructor.
Qed.

Lemma sort_by_perm l : sort_by l ≡ₚ l.
Proof. induction l as [|x l IH]; simpl; [done|]. by rewrite insert_by_perm, IH. Qed.

Lemma insert_by_sorted x l : StronglySorted le l -> StronglySorted le (insert_by x l).
Proof.
  induction 1 as [|y l Hs IH Hy]; simpl; [by repeat constructor|].
  destruct (leb x y) eqn:E.
  - constructor; [by constructor|]. constructor; [done|].
    eapply Forall_impl; [exact Hy|]. intros z Hz. by eapply leb_trans.
  - constructor; [done|]. rewrite insert_by_perm. constructor; [|done].
    destruct (leb_total x y); [congruence|done].
Qed.

Lemma sort_by_sorted l : StronglySorted le (sort_by l).
Proof. induction l; simpl; [constructor|by apply insert_by_sorted]. Qed.

(** Elements selected by a predicate whose members all compare equal keep
    their order. *)
Lemma insert_by_stable (p : A -> bool) x l :
  (forall a b, p a = true -> p b = true -> leb a b = true) ->
  filter (fun a => p a = true) (insert_by x l) = filter (fun a => p a = true) (x :: l).
Proof.
  intros Hp. induction l as [|y l IH]; simpl; [done|]. destruct (leb x y) eqn:E; [done|].
  rewrite !filter_cons in *. rewrite IH. repeat case_decide; try done.
  rewrite Hp in E; done.
Qed.

Lemma sort_by_stable (p : A -> bool) l :
  (forall a b, p a = true -> p b = true -> leb a b = true) ->
  filter (fun a => p a = true) (sort_by l) = filter (fun a => p a = true) l.
Proof.
  intros Hp. induction l as [|x l IH]; [done|]. cbn [sort_by foldr].
  rewrite insert_by_stable by done. rewrite !filter_cons. by rewrite <- IH.
Qed.

Lemma sort_by_elem x l : x ∈ sort_by l <-> x ∈ l.
Proof. by rewrite (sort_by_perm l). Qed.

Lemma sort_by_id l : StronglySorted le l -> sort_by l = l.
Proof.
  induction 1 as [|x l Hs IH Hx]; [done|]. cbn [sort_by foldr]. fold (sort_by l).
  rewrite IH. destruct l as [|y l]; [done|]. simpl. apply Forall_cons_1 in Hx as [-> _]. done.
Qed.

Lemma sort_by_idemp l : sort_by (sort_by l) = sort_by l.
Proof. apply sort_by_id, sort_by_sorted. Qed.
End Sort.

(** ** The order of [str]: bytes, lexicographically *)
Fixpoint bytes_leb (a b : list Z) : bool :=
  match a, b with
  | [], _ => true
  | _ :: _, [] => false
  | x :: a', y :: b' => (x <? y)%Z || ((x =? y)%Z && bytes_leb a' b')
  end.

Lemma bytes_leb_refl a : bytes_leb a a = true.
Proof. induction a as [|x a IH]; simpl; [done|]. by rewrite Z.eqb_refl, IH, orb_true_r. Qed.

Lemma bytes_leb_antisym a b : bytes_leb a b = true -> bytes_leb b a = true -> a = b.
Proof.
  revert b. induction a as [|x a IH]; intros [|y b]; simpl; try done.
  rewrite !orb_true_iff, !andb_true_iff, !Z.ltb_lt, !Z.eqb_eq.
  intros [?|[-> ?]] [?|[? ?]]; try lia. f_equal. auto.
Qed.

#[export] Instance bytes_leb_order : TotalPreorder bytes_leb.
Proof.
  split.
  - induction x as [|x a IH]; intros [|y b]; simpl; auto.
    rewrite !orb_true_iff, !andb_true_iff, !Z.ltb_lt, !Z.eqb_eq.
    destruct (Z.lt_total x y) as [?|[->|?]]; auto. destruct (IH b); auto.
  - induction x as [|x a IH]; intros [|y b] [|z c]; simpl; try done.
    rewrite !orb_true_iff, !andb_true_iff, !Z.ltb_lt, !Z.eqb_eq.
    intros [?|[-> ?]] [?|[-> ?]]; [left; lia|left; lia|left; lia|]. right. split; [done|]. eauto.
Qed.

(** Comparing by a key. *)
#[export] Instance key_order {A B} (leb : B -> B -> bool) (key : A -> B) :
  TotalPreorder leb -> TotalPreorder (fun x y => leb (key x) (key y)).
Proof. intros [Ht Htr]. split; [auto|]. intros x y z. apply Htr. Qed.
