(* ===== verification/Js.v ===== *)
(** * JavaScript values as the native modules see them

    The engine (rquickjs) hands a native method values of this type.  What a
    number is, what an object is and how an object becomes a string belong to
    the engine: [num] and [obj] are parameters, and so are the functions on
    them that the modules call.  Strings are given by their UTF-8 bytes. *)
From stdpp Require Import base list numbers strings.
From Stdlib Require Import ZArith Lia.
From S2P Require Import Prelude Utf8.
Open Scope Z_scope.

(** An exception: one that the native code throws with a message, a library
    error turned into an exception ([or_throw]), a failed conversion of the
    bindings, or one thrown by JavaScript code that was called. *)
Inductive js_error : Type :=
| TypeError (msg : string)
| RangeError (msg : string)
| InternalError (msg : string)
| ErrorMsg (msg : string)
| LibraryError
| FromJs
| Thrown (id : nat).

#[export] Instance js_error_eq_dec : EqDecision js_error.
Proof. solve_decision. Defined.

Inductive jsval (num obj : Type) : Type :=
| VNull
| VUndefined
| VBool (b : bool)
| VNumber (n : num)
| VString (s : list Z)
| VSymbol (id : nat)
| VObject (o : obj).
Arguments VNull {num obj}.
Arguments VUndefined {num obj}.
Arguments VBool {num obj} b.
Arguments VNumber {num obj} n.
Arguments VString {num obj} s.
Arguments VSymbol {num obj} id.
Arguments VObject {num obj} o.

(** A Rust [String]: bytes that are the encoding of characters. *)
Definition text (s : list Z) : Prop := exists cs, Forall scalar cs /\ s = encode_all cs.

Lemma text_nil : text [].
Proof. by exists []. Qed.

Lemma text_app a b : text a -> text b -> text (a ++ b).
Proof.
  intros (ca & Ha & ->) (cb & Hb & ->). exists (ca ++ cb).
  split; [by apply Forall_app|]. by rewrite encode_all_app.
Qed.

Lemma chars_encode_all cs : Forall scalar cs -> chars (encode_all cs) = cs.
Proof.
  intros H. unfold chars. pose proof (utf8_decode_encode_all cs [] H) as E.
  rewrite app_nil_r in E. rewrite E. change (utf8_decode []) with (@nil (option Z)).
  rewrite app_nil_r. clear. induction cs; simpl; [done|]. by f_equal.
Qed.

Lemma chars_app a b : text a -> text b -> chars (a ++ b) = chars a ++ chars b.
Proof.
  intros (ca & Ha & ->) (cb & Hb & ->). rewrite <- encode_all_app, !chars_encode_all; try done.
  by apply Forall_app.
Qed.

Lemma text_chars s : text s -> encode_all (chars s) = s /\ Forall scalar (chars s).
Proof. intros (cs & Hc & ->). by rewrite chars_encode_all. Qed.

Lemma text_valid s : text s -> utf8_valid s = true.
Proof.
  intros (cs & Hc & ->). apply bool_decide_eq_true_2.
  pose proof (utf8_decode_encode_all cs [] Hc) as E. rewrite app_nil_r in E. rewrite E.
  change (utf8_decode []) with (@nil (option Z)). rewrite app_nil_r.
  apply Forall_fmap, Forall_forall. intros x _. by exists x.
Qed.

(** ASCII strings are their own characters. *)
Definition ascii (s : list Z) : Prop := Forall (fun b => 0 <= b < 128) s.

Lemma encode_ascii s : ascii s -> encode_all s = s.
Proof.
  induction 1 as [|b s Hb _ IH]; [done|]. change (encode_all (b :: s)) with (utf8_encode b ++ encode_all s).
  unfold utf8_encode. rewrite (proj2 (Z.ltb_lt b 0x80)) by lia. by rewrite IH.
Qed.

Lemma ascii_text s : ascii s -> text s.
Proof.
  intros H. exists s. split; [|by rewrite encode_ascii].
  eapply Forall_impl; [exact H|]. unfold scalar. simpl. lia.
Qed.

#[export] Hint Resolve text_nil text_app : llrt.

(** String constants are text. *)
Ltac solve_ascii :=
  apply ascii_text; unfold ascii; apply (bool_decide_unpack _); vm_compute; exact I.
