(* ===== verification/RustStr.v ===== *)
(** * String functions of the Rust standard library

    Case mapping, white space, trimming and splitting of [str], with the
    lemmas the text components share. *)
From stdpp Require Import base list numbers strings.
From Stdlib Require Import ZArith Lia.
From S2P Require Import Prelude Utf8.
Open Scope Z_scope.

(** ** Character classes *)

Definition to_ascii_lowercase (b : Z) : Z := if in_range 65 90 b then b + 32 else b.
Definition to_ascii_uppercase (b : Z) : Z := if in_range 97 122 b then b - 32 else b.

(** [str::to_ascii_lowercase], [str::make_ascii_lowercase]. *)
Definition ascii_lowercase (s : list Z) : list Z := to_ascii_lowercase <$> s.

Definition eq_ignore_ascii_case (a b : list Z) : bool := bool_decide (ascii_lowercase a = ascii_lowercase b).

(** [char::is_ascii_whitespace]. *)
Definition is_ascii_whitespace (b : Z) : bool :=
  (b =? 32) || (b =? 9) || (b =? 10) || (b =? 12) || (b =? 13).

(** [char::is_whitespace]. *)
Definition is_whitespace (c : Z) : bool :=
  in_range 9 13 c || (c =? 32) || (c =? 0x85) || (c =? 0xA0) || (c =? 0x1680) ||
  in_range 0x2000 0x200A c || (c =? 0x2028) || (c =? 0x2029) || (c =? 0x202F) ||
  (c =? 0x205F) || (c =? 0x3000).

Fixpoint drop_while (p : Z -> bool) (s : list Z) : list Z :=
  match s with
  | b :: s' => if p b then drop_while p s' else s
  | [] => []
  end.

(** [str::trim_matches]. *)
Definition trim_matches (p : Z -> bool) (s : list Z) : list Z :=
  rev (drop_while p (rev (drop_while p s))).

(** [str::trim]. *)
Definition trim (s : list Z) : list Z := encode_all (trim_matches is_whitespace (chars s)).

(** [str::split] with a predicate. *)
Fixpoint split_by (p : Z -> bool) (s : list Z) : list (list Z) :=
  match s with
  | [] => [[]]
  | x :: s' =>
      if p x then [] :: split_by p s'
      else match split_by p s' with
           | [] => [[x]]
           | h :: t => (x :: h) :: t
           end
  end.

(** [value.split(c).next().unwrap_or("")]. *)
Definition split_first (c : Z) (s : list Z) : list Z := default [] (head (split_on c s)).

(** [str::trim_ascii]. *)
Definition trim_ascii (s : list Z) : list Z := trim_matches is_ascii_whitespace s.

(** ** Lemmas *)

Lemma drop_while_suffix p s : exists t, s = t ++ drop_while p s.
Proof.
  induction s as [|b s [t Ht]]; [by exists []|]. simpl. destruct (p b); [|by exists []].
  exists (b :: t). simpl. by rewrite <- Ht.
Qed.

Lemma trim_matches_Forall (P : Z -> Prop) p s : Forall P s -> Forall P (trim_matches p s).
Proof.
  assert (Hd : forall q t, Forall P t -> Forall P (drop_while q t)).
  { intros q t Ht. destruct (drop_while_suffix q t) as [u Hu]. rewrite Hu in Ht.
    by apply Forall_app in Ht as [_ ?]. }
  intros H. unfold trim_matches. apply List.Forall_rev, Hd, List.Forall_rev, Hd, H.
Qed.

Lemma split_first_Forall (P : Z -> Prop) c s : Forall P s -> Forall P (split_first c s).
Proof.
  intros H. unfold split_first. rewrite split_on_find.
  destruct (find_byte c s); simpl; [by apply Forall_take|done].
Qed.

Lemma split_by_nonempty p s : split_by p s <> [].
Proof. destruct s; simpl; [done|]. case_tests. by destruct (split_by p s). Qed.

Lemma split_by_app p a c b :
  p c = true -> split_by p (a ++ c :: b) = split_by p a ++ split_by p b.
Proof.
  intros Hc. induction a as [|x a IH]; simpl; [by rewrite Hc|]. rewrite IH.
  pose proof (split_by_nonempty p a). destruct (p x); [done|]. by destruct (split_by p a).
Qed.

Lemma drop_while_app p a b :
  drop_while p (a ++ b) = if forallb p a then drop_while p b else drop_while p a ++ b.
Proof.
  induction a as [|x a IH]; [done|]. cbn [app drop_while forallb]. by destruct (p x).
Qed.

Lemma trim_matches_pad p a s b :
  forallb p a = true -> forallb p b = true -> trim_matches p (a ++ s ++ b) = trim_matches p s.
Proof.
  intros Ha Hb. unfold trim_matches. rewrite (drop_while_app p a), Ha, (drop_while_app p s b).
  assert (Hr : forallb p (rev b) = true).
  { apply forallb_forall. intros x Hx%in_rev. by apply (proj1 (forallb_forall p b) Hb). }
  destruct (forallb p s) eqn:E.
  - assert (Hd : forall t, forallb p t = true -> drop_while p t = []).
    { intros t Ht. rewrite <- (app_nil_r t), drop_while_app, Ht. done. }
    by rewrite (Hd b Hb), (Hd s E).
  - by rewrite rev_app_distr, drop_while_app, Hr.
Qed.

Lemma drop_while_fmap p (f : Z -> Z) s :
  (forall b, p (f b) = p b) -> drop_while p (f <$> s) = f <$> drop_while p s.
Proof.
  intros Hp. induction s as [|b s IH]; [done|]. rewrite fmap_cons. cbn [drop_while].
  rewrite Hp. by destruct (p b).
Qed.

Lemma trim_matches_fmap p (f : Z -> Z) s :
  (forall b, p (f b) = p b) -> trim_matches p (f <$> s) = f <$> trim_matches p s.
Proof.
  intros Hp. assert (Hrev : forall t : list Z, rev (f <$> t) = f <$> rev t).
  { intros t. symmetry. apply (map_rev f t). }
  unfold trim_matches. by rewrite drop_while_fmap, Hrev, drop_while_fmap, Hrev.
Qed.

Lemma lower_whitespace b : is_ascii_whitespace (to_ascii_lowercase b) = is_ascii_whitespace b.
Proof.
  unfold is_ascii_whitespace, to_ascii_lowercase. destruct (in_range 65 90 b) eqn:E; [|done].
  unfold in_range in E. bool_to_prop. by rewrite !(proj2 (Z.eqb_neq _ _)) by lia.
Qed.
