(* ===== verification/Headers.v ===== *)
(** * Headers (src/modules/llrt_fetch/src/headers.rs)

    The header list of [Headers]: a vector of (lower-case name, value) pairs
    with a guard.  The section variables are what the bindings provide: the
    text of a number and the string conversion of any other value.  A method
    that returns [Err] leaves the list as it was, so an operation returns a
    [result] with the new list. *)
From stdpp Require Import base list numbers strings sorting.
From Stdlib Require Import ZArith Lia.
From S2P Require Import Prelude Utf8 StableSort Js RustStr.
Open Scope Z_scope.

Definition lower_key (key : list Z) : list Z := ascii_lowercase key.

(** ** Header names *)

Definition SET_COOKIE := str "set-cookie".
Definition COOKIE := str "cookie".
Definition ACCEPT := str "accept".
Definition ACCEPT_LANGUAGE := str "accept-language".
Definition CONTENT_LANGUAGE := str "content-language".
Definition CONTENT_TYPE := str "content-type".

(** The [HeaderName] constants [is_forbidden_request_header] compares with;
    comparing a [str] with a [HeaderName] ignores ASCII case. *)
Definition forbidden_names : list (list Z) := str <$>
  [ "accept-charset"; "accept-encoding"; "access-control-request-headers";
    "access-control-request-method"; "connection"; "content-length"; "date";
    "expect"; "host"; "origin"; "referer"; "set-cookie"; "te"; "trailer";
    "transfer-encoding"; "upgrade"; "via" ]%string.

Definition is_forbidden_request_header (name : list Z) : bool :=
  existsb (eq_ignore_ascii_case name) forbidden_names
  || bool_decide (name = str "dnt") || bool_decide (name = str "keep-alive")
  || starts_with (str "proxy-") name || starts_with (str "sec-") name.

Definition forbidden_method (tok : list Z) : bool :=
  let t := to_ascii_uppercase <$> tok in
  bool_decide (t = str "CONNECT") || bool_decide (t = str "TRACE") || bool_decide (t = str "TRACK").

Definition is_forbidden_method_override (name value : list Z) : bool :=
  if negb (bool_decide (name = str "x-http-method")
           || bool_decide (name = str "x-http-method-override")
           || bool_decide (name = str "x-method-override")) then false
  else existsb forbidden_method
         (split_by (fun c => (c =? 44) || is_ascii_whitespace c) value).

Definition is_token_byte (b : Z) : bool :=
  existsb (Z.eqb b) (str "!#$%&'*+-.^_`|~")
  || in_range 48 57 b || in_range 65 90 b || in_range 97 122 b.

Definition is_http_header_name (name : list Z) : bool :=
  negb (bool_decide (name = [])) && forallb is_token_byte name.

(** ** Header values *)

Definition is_sp_tab (b : Z) : bool := (b =? 32) || (b =? 9).
Definition is_cr_lf (b : Z) : bool := (b =? 10) || (b =? 13).

Definition has_bare_cr_lf (value : list Z) : bool :=
  existsb is_cr_lf (trim_matches (fun b => is_sp_tab b || is_cr_lf b) value).

Definition value_char (cp : Z) : bool :=
  (cp =? 0x09) || (cp =? 0x0C) || in_range 0x20 0x7E cp || in_range 0x80 0xFF cp.

Definition is_http_header_value (value : list Z) : bool := forallb value_char (chars value).

Definition cors_unsafe_byte (b : Z) : bool :=
  in_range 0x00 0x08 b || in_range 0x0A 0x1F b ||
  existsb (Z.eqb b) [0x22; 0x28; 0x29; 0x3A; 0x3C; 0x3E; 0x3F; 0x40; 0x5B; 0x5C; 0x5D; 0x7B; 0x7F; 0x7D].

Definition contains_cors_unsafe_request_header_byte (value : list Z) : bool :=
  existsb cors_unsafe_byte value.

Definition is_cors_safelisted_field_value (value : list Z) : bool :=
  forallb (fun b =>
    in_range 0x30 0x39 b || in_range 0x41 0x5A b || in_range 0x61 0x7A b ||
    existsb (Z.eqb b) [0x20; 0x2A; 0x2C; 0x2D; 0x2E; 0x3B; 0x3D]) value.

Definition safelisted_mime_types : list (list Z) := str <$>
  [ "application/x-www-form-urlencoded"; "multipart/form-data"; "text/plain"; "" ]%string.

Definition is_cors_safelisted_request_header (key value : list Z) : bool :=
  if (128 <? length value)%nat then false
  else if eq_ignore_ascii_case key ACCEPT then
    negb (contains_cors_unsafe_request_header_byte value)
  else if eq_ignore_ascii_case key ACCEPT_LANGUAGE || eq_ignore_ascii_case key CONTENT_LANGUAGE then
    is_cors_safelisted_field_value value
  else if eq_ignore_ascii_case key CONTENT_TYPE then
    if contains_cors_unsafe_request_header_byte value then false
    else existsb (eq_ignore_ascii_case (trim (split_first 59 value))) safelisted_mime_types
  else false.

(** ** normalize_header_value_inplace *)

(** The buffer and the loop variables; reads and writes stay in range. *)
Record norm_state := mkNorm {
  input : list Z;
  read_idx : nat;
  write_idx : nat;
  pending_whitespace : option Z;
}.

(** [while read_idx < input.len() && is SP or HTAB { read_idx += 1 }]. *)
Fixpoint skip_leading (s : list Z) (read_idx : nat) : nat :=
  match s with
  | b :: s' => if is_sp_tab b then skip_leading s' (S read_idx) else read_idx
  | [] => read_idx
  end.

(** One iteration of the copying loop, at [read_idx < input.len()]. *)
Definition norm_step (st : norm_state) : norm_state :=
  let byte_at i := default 0 (input st !! i) in
  let r := read_idx st in
  let byte := byte_at r in
  if (byte =? 13) && (r + 2 <? length (input st))%nat
     && (byte_at (r + 1)%nat =? 10) && is_sp_tab (byte_at (r + 2)%nat) then
    {| input := input st; read_idx := r + 3; write_idx := write_idx st;
       pending_whitespace := Some (byte_at (r + 2)%nat) |}
  else if is_cr_lf byte then
    {| input := input st; read_idx := r + 1; write_idx := write_idx st;
       pending_whitespace := pending_whitespace st |}
  else if is_sp_tab byte then
    {| input := input st; read_idx := r + 1; write_idx := write_idx st;
       pending_whitespace := Some byte |}
  else
    let '(inp, w) :=
      match pending_whitespace st with
      | Some ws => if (0 <? write_idx st)%nat
                   then (<[write_idx st := ws]> (input st), (write_idx st + 1)%nat)
                   else (input st, write_idx st)
      | None => (input st, write_idx st)
      end in
    {| input := <[w := byte]> inp; read_idx := r + 1; write_idx := w + 1;
       pending_whitespace := None |}.

Fixpoint norm_loop (fuel : nat) (st : norm_state) : norm_state :=
  match fuel with
  | O => st
  | S fuel' =>
      if (read_idx st <? length (input st))%nat then norm_loop fuel' (norm_step st) else st
  end.

(** [while write_idx > 0 && input[write_idx - 1] is SP or HTAB { write_idx -= 1 }]. *)
Fixpoint trim_trailing (s : list Z) (w : nat) : nat :=
  match w with
  | O => O
  | S w' => if is_sp_tab (default 0 (s !! w')) then trim_trailing s w' else w
  end.

(** The text after the call, and whether it succeeded: when the bytes are not
    UTF-8 the text stays empty ([mem::take]). *)
Definition normalize_header_value_inplace (text : list Z) : list Z * result js_error unit :=
  let st := norm_loop (length text)
              {| input := text; read_idx := skip_leading text 0; write_idx := 0;
                 pending_whitespace := None |} in
  let out := take (trim_trailing (input st) (write_idx st)) (input st) in
  if utf8_valid out then (out, Ok tt) else ([], Err LibraryError).

(** ** The header list *)

Inductive HeadersGuard := GNone | GRequest | GRequestNoCors | GResponse | GImmutable.

#[export] Instance guard_eq_dec : EqDecision HeadersGuard.
Proof. solve_decision. Defined.

Definition request_like (g : HeadersGuard) : bool :=
  bool_decide (g = GRequest) || bool_decide (g = GRequestNoCors).

Record Headers := mkHeaders {
  headers : list (list Z * list Z);
  guard : HeadersGuard;
}.

Definition set_headers (l : list (list Z * list Z)) (h : Headers) : Headers :=
  {| headers := l; guard := guard h |}.

Definition has_key (key : list Z) (l : list (list Z * list Z)) : bool :=
  existsb (fun kv => bool_decide (kv.1 = key)) l.

Definition find_key (key : list Z) (l : list (list Z * list Z)) : option (list Z) :=
  snd <$> head (filter (fun kv => kv.1 = key) l).

(** [iter_mut().find(|(k, _)| k == &key)] and an assignment to the value. *)
Fixpoint update_first (key : list Z) (f : list Z -> list Z) (l : list (list Z * list Z)) :
    list (list Z * list Z) :=
  match l with
  | [] => []
  | (k, v) :: l' => if bool_decide (k = key) then (k, f v) :: l' else (k, v) :: update_first key f l'
  end.

(** [retain(|(k, _)| k != &key)]. *)
Definition retain_not (key : list Z) (l : list (list Z * list Z)) : list (list Z * list Z) :=
  filter (fun kv => kv.1 <> key) l.

Definition separator (key : list Z) : list Z :=
  if bool_decide (key = COOKIE) then str "; " else str ", ".

(** Push a pair or combine it with the first pair of the same name. *)
Definition combine (key value : list Z) (l : list (list Z * list Z)) : list (list Z * list Z) :=
  if bool_decide (key = SET_COOKIE) then l ++ [(key, value)]
  else if has_key key l then update_first key (fun old => old ++ separator key ++ value) l
  else l ++ [(key, value)].

Section Operations.
Context {num obj : Type}.
(** [f64::to_string], and the engine's string conversion of symbols and objects. *)
Context (f64_to_string : num -> list Z) (coerced_string : jsval num obj -> result js_error (list Z)).

Definition coerce_to_string (value : jsval num obj) : result js_error (list Z) :=
  match value with
  | VNull => Ok (str "null")
  | VUndefined => Ok (str "undefined")
  | VBool v => Ok (if v then str "true" else str "false")
  | VNumber v => Ok (f64_to_string v)
  | VString s => Ok s
  | _ => coerced_string value
  end.

(** What [append] and [set] do before they look at the list: the name and the
    normalized value, or [None] when the call is silently ignored. *)
Definition validate (g : HeadersGuard) (key : list Z) (value : jsval num obj) :
    result js_error (option (list Z * list Z)) :=
  let key := lower_key key in
  if negb (is_http_header_name key) then Err (TypeError "Invalid key")
  else if bool_decide (g = GImmutable) then Err (TypeError "Headers are immutable")
  else if request_like g && is_forbidden_request_header key then Ok None
  else if bool_decide (g = GResponse) && bool_decide (key = SET_COOKIE) then Ok None
  else
    let? value := coerce_to_string value in
    if existsb (Z.eqb 0) value || has_bare_cr_lf value then Err (TypeError "Invalid header value")
    else
      let '(value, r) := normalize_header_value_inplace value in
      let? _ := r in
      if request_like g && is_forbidden_method_override key value then Ok None
      else Ok (Some (key, value)).

(** [value.split(',').next().unwrap_or("").trim()]. *)
Definition first_value (value : list Z) : list Z := trim (split_first 44 value).

Definition append (h : Headers) (key : list Z) (value : jsval num obj) : result js_error Headers :=
  let? v := validate (guard h) key value in
  match v with
  | None => Ok h
  | Some (key, value) =>
      let no_cors := bool_decide (guard h = GRequestNoCors) in
      let val := first_value value in
      if no_cors && negb (is_cors_safelisted_request_header key val) then Ok h
      else if no_cors && has_key key (headers h) then Ok h
      else
        let value := if no_cors then val else value in
        if negb (is_http_header_value value) then Err (TypeError "Invalid value of key")
        else Ok (set_headers (combine key value (headers h)) h)
  end.

Definition set (h : Headers) (key : list Z) (value : jsval num obj) : result js_error Headers :=
  let? v := validate (guard h) key value in
  match v with
  | None => Ok h
  | Some (key, value) =>
      let no_cors := bool_decide (guard h = GRequestNoCors) in
      let val := first_value value in
      if no_cors && negb (is_cors_safelisted_request_header key val) then Ok h
      else
        let value := if no_cors then val else value in
        if negb (is_http_header_value value) then Err (TypeError "Invalid value of key")
        else
          let l := headers h in
          Ok (set_headers
               (if bool_decide (key = SET_COOKIE) then retain_not key l ++ [(key, value)]
                else if has_key key l then update_first key (fun _ => value) l
                else l ++ [(key, value)]) h)
  end.

Definition get (h : Headers) (key : list Z) : result js_error (option (list Z)) :=
  let key := lower_key key in
  if negb (is_http_header_name key) then Err (TypeError "Invalid key")
  else if bool_decide (key = SET_COOKIE) then
    let res := snd <$> filter (fun kv => kv.1 = key) (headers h) in
    Ok (if bool_decide (res = []) then None else Some (join_with (str ", ") res))
  else Ok (find_key key (headers h)).

Definition get_set_cookie (h : Headers) : list (list Z) :=
  snd <$> filter (fun kv => kv.1 = SET_COOKIE) (headers h).

Definition has (h : Headers) (key : list Z) : result js_error bool :=
  let key := lower_key key in
  if negb (is_http_header_name key) then Err (TypeError "Invalid key")
  else Ok (has_key key (headers h)).

Definition contains_lower (h : Headers) (key : list Z) : bool := has_key key (headers h).

Definition delete (h : Headers) (key : list Z) : result js_error Headers :=
  let key := lower_key key in
  if negb (is_http_header_name key) then Err (TypeError "Invalid key")
  else if bool_decide (guard h = GImmutable) then Err (TypeError "Headers are immutable")
  else if request_like (guard h) && is_forbidden_request_header key then Ok h
  else if bool_decide (guard h = GResponse) && bool_decide (key = SET_COOKIE) then Ok h
  else Ok (set_headers (retain_not key (headers h)) h).

(** *** Iteration *)

Definition key_leb (a b : list Z * list Z) : bool := bytes_leb a.1 b.1.

(** The loop of [sorted_entries] with its [seen] set. *)
Fixpoint dedup (seen : list (list Z)) (l : list (list Z * list Z)) : list (list Z * list Z) :=
  match l with
  | [] => []
  | (k, v) :: l' =>
      if bool_decide (k = SET_COOKIE) then (k, v) :: dedup seen l'
      else if bool_decide (k ∈ seen) then dedup seen l'
      else (k, v) :: dedup (k :: seen) l'
  end.

Definition sorted_entries (h : Headers) : list (list Z * list Z) :=
  sort_by key_leb (dedup [] (headers h)).

Definition read_entry (h : Headers) (index : nat) : option (list Z * list Z) :=
  sorted_entries h !! index.

Inductive IterKind := Keys | Values | Entries.

(** The object [iterator_result] builds. *)
Inductive iter_result :=
| Done
| Value (v : list Z)
| Entry (k v : list Z).

Definition iterator_result (kind : IterKind) (entry : option (list Z * list Z)) : iter_result :=
  match entry with
  | Some (key, value) =>
      match kind with
      | Keys => Value key
      | Values => Value value
      | Entries => Entry key value
      end
  | None => Done
  end.

(** [HeadersIter::next]: the new index and the result. *)
Definition next (h : Headers) (kind : IterKind) (index : nat) : nat * iter_result :=
  let entry := read_entry h index in
  (match entry with Some _ => index + 1 | None => index end%nat, iterator_result kind entry).

(** [for_each]: the calls of the callback, in order, on the list as it is
    when the call starts; the first exception stops it. *)
Fixpoint for_each_loop {S : Type} (callback : S -> list Z -> list Z -> result js_error S)
    (entries : list (list Z * list Z)) (s : S) : result js_error S :=
  match entries with
  | [] => Ok s
  | (k, v) :: rest => let? s' := callback s v k in for_each_loop callback rest s'
  end.

Definition for_each {S : Type} (h : Headers)
    (callback : S -> list Z -> list Z -> result js_error S) (s : S) : result js_error S :=
  for_each_loop callback (sorted_entries h) s.

(** *** Construction *)

(** hyper's [HeaderMap]: its keys in iteration order, each with its values. *)
Definition http_entries (nv : list Z * list (list Z)) : list (list Z * list Z) :=
  let '(name, values) := nv in
  if bool_decide (name = SET_COOKIE) then (fun v => (name, from_utf8_lossy v)) <$> values
  else [(name, join_with (str ", ") (from_utf8_lossy <$> values))].

Definition from_http_headers (header_map : list (list Z * list (list Z))) (g : HeadersGuard) : Headers :=
  {| headers := concat (http_entries <$> header_map); guard := g |}.

(** An element of the init array: a value that is an array (its elements) or
    any other value, which the loop skips. *)
Inductive init_entry :=
| EArray (elems : list (jsval num obj))
| EOther.

(** [array_entry.get::<String>(i)]: a missing element reads as [undefined]. *)
Definition get_string (elems : list (jsval num obj)) (i : nat) : result js_error (list Z) :=
  match default VUndefined (elems !! i) with
  | VString s => Ok s
  | _ => Err FromJs
  end.

Definition array_entry (g : HeadersGuard) (l : list (list Z * list Z)) (e : init_entry) :
    result js_error (list (list Z * list Z)) :=
  match e with
  | EOther => Ok l
  | EArray elems =>
      if negb (length elems mod 2 =? 0)%nat then Err (TypeError "Header arrays are not paired")
      else
        let? raw_key := get_string elems 0 in
        let raw_key := lower_key raw_key in
        if negb (is_http_header_name raw_key) then Err (TypeError "Invalid key")
        else if request_like g && is_forbidden_request_header raw_key then Ok l
        else
          let? value := coerce_to_string (default VUndefined (elems !! 1%nat)) in
          if negb (is_http_header_value value) then Err (TypeError "Invalid value of key")
          else if request_like g && is_forbidden_method_override raw_key value then Ok l
          else if bool_decide (g = GRequestNoCors)
                  && negb (is_cors_safelisted_request_header raw_key value) then Ok l
          else Ok (combine raw_key value l)
  end.

Fixpoint array_loop (g : HeadersGuard) (l : list (list Z * list Z)) (es : list init_entry) :
    result js_error (list (list Z * list Z)) :=
  match es with
  | [] => Ok l
  | e :: es' => let? l' := array_entry g l e in array_loop g l' es'
  end.

Definition from_array (es : list init_entry) (g : HeadersGuard) : result js_error Headers :=
  let? l := array_loop g [] es in
  Ok {| headers := sort_by key_leb l; guard := g |}.

(** One own key of a record: the key, its property descriptor ([None] when the
    descriptor is not an object, else its [enumerable] flag) and its value. *)
Inductive prop_key := KString (s : list Z) | KSymbol | KOther.
Record own_prop := {
  p_key : prop_key;
  p_desc : result js_error (option bool);
  p_value : result js_error (jsval num obj);
}.

Definition record_entry (g : HeadersGuard) (l : list (list Z * list Z)) (p : own_prop) :
    result js_error (list (list Z * list Z)) :=
  let? desc := p_desc p in
  match desc with
  | None | Some false => Ok l
  | Some true =>
      match p_key p with
      | KSymbol => Err (TypeError "Cannot convert a Symbol value to a string")
      | KOther => Ok l
      | KString key =>
          let k_lower := lower_key key in
          if negb (is_http_header_name k_lower) then Err (TypeError "Invalid header name")
          else if request_like g && is_forbidden_request_header k_lower then Ok l
          else
            let? raw_value := p_value p in
            let? value := coerce_to_string raw_value in
            let value := (normalize_header_value_inplace value).1 in
            if negb (is_http_header_value value) then Err (TypeError "Invalid header value")
            else if request_like g && is_forbidden_method_override k_lower value then Ok l
            else if bool_decide (g = GRequestNoCors)
                    && negb (is_cors_safelisted_request_header k_lower value) then Ok l
            else Ok (l ++ [(k_lower, value)])
      end
  end.

Fixpoint record_loop (g : HeadersGuard) (l : list (list Z * list Z)) (ps : list own_prop) :
    result js_error (list (list Z * list Z)) :=
  match ps with
  | [] => Ok l
  | p :: ps' => let? l' := record_entry g l p in record_loop g l' ps'
  end.

(** The init value as [from_value] tells them apart: an array (an element
    whose read fails is an [Err], which [flatten] drops), an object whose
    [Symbol.iterator] is a function (with what [Array.from] returns, or its
    exception), an object whose [Symbol.iterator] getter throws, any other
    object (with what [Reflect.ownKeys] returns), a primitive. *)
Inductive init_value :=
| IArray (elems : list (result js_error init_entry))
| IIterable (elems : result js_error (list (result js_error init_entry)))
| IIteratorThrows (e : js_error)
| IRecord (props : result js_error (list own_prop))
| IPrimitive (v : jsval num obj).

(** [array.into_iter().flatten()]. *)
Definition flatten (elems : list (result js_error init_entry)) : list init_entry :=
  omap (fun r => match r with Ok e => Some e | Err _ => None end) elems.

Definition from_value (v : init_value) (g : HeadersGuard) : result js_error Headers :=
  match v with
  | IArray elems => from_array (flatten elems) g
  | IIterable r => let? elems := r in from_array (flatten elems) g
  | IIteratorThrows e => Err e
  | IRecord r =>
      let? props := r in
      let? l := record_loop g [] props in
      Ok {| headers := sort_by key_leb l; guard := g |}
  | IPrimitive _ => Ok {| headers := []; guard := g |}
  end.

Definition new (init : option init_value) : result js_error Headers :=
  match init with
  | Some (IPrimitive VNull) | Some (IPrimitive (VNumber _)) => Err (TypeError "Invalid argument")
  | Some init => from_value init GNone
  | None => Ok {| headers := []; guard := GNone |}
  end.
End Operations.

(** ** Normalization: the in-place loop and a reference *)

(** The same scan with an output list instead of a write index. *)
Fixpoint norm_go (s : list Z) (pending : option Z) (out : list Z) : list Z :=
  match s with
  | [] => out
  | b :: s1 =>
      let plain :=
        if is_cr_lf b then norm_go s1 pending out
        else if is_sp_tab b then norm_go s1 (Some b) out
        else norm_go s1 None
               (out ++ match pending with
                       | Some ws => if bool_decide (out = []) then [] else [ws]
                       | None => []
                       end ++ [b]) in
      match s1 with
      | b1 :: s2 =>
          match s2 with
          | w :: s3 =>
              if (b =? 13) && (b1 =? 10) && is_sp_tab w then norm_go s3 (Some w) out else plain
          | [] => plain
          end
      | [] => plain
      end
  end.

Definition normalized (s : list Z) : list Z := norm_go s None [].

Lemma take_insert_snoc {A} (l : list A) w x :
  (w < length l)%nat -> take (w + 1) (<[w:=x]> l) = take w l ++ [x].
Proof.
  intros H. rewrite Nat.add_1_r. erewrite take_S_r; [|by apply list_lookup_insert_eq].
  by rewrite take_insert_ge by lia.
Qed.

Lemma drop_lookup_cons {A} (l : list A) i x s :
  drop i l = x :: s -> l !! i = Some x /\ drop (i + 1) l = s /\ (i < length l)%nat.
Proof.
  intros H. assert (Hi : (i < length l)%nat).
  { apply Nat.lt_nge. intros Hge. rewrite drop_ge in H by lia. done. }
  split_and!; [|by rewrite <- drop_drop, H|done].
  rewrite <- (Nat.add_0_r i), <- lookup_drop, H. done.
Qed.

Definition norm_inv (st : norm_state) : Prop :=
  (write_idx st + (if pending_whitespace st is Some _ then 1 else 0) <= read_idx st)%nat /\
  (read_idx st <= length (input st))%nat.

(** What is still to read, what is pending and what is written. *)
Definition norm_rest (st : norm_state) : list Z :=
  norm_go (drop (read_idx st) (input st)) (pending_whitespace st) (take (write_idx st) (input st)).

Lemma norm_step_fold st w s :
  norm_inv st -> drop (read_idx st) (input st) = 13 :: 10 :: w :: s -> is_sp_tab w = true ->
  let st' := norm_step st in
  norm_inv st' /\ norm_rest st' = norm_rest st /\ (read_idx st < read_idx st')%nat /\
  length (input st') = length (input st).
Proof.
  intros [H1 H2] Hd Hw. destruct st as [inp r wi pw]; simpl in *.
  destruct (drop_lookup_cons _ _ _ _ Hd) as (L0 & D1 & ?).
  destruct (drop_lookup_cons _ _ _ _ D1) as (L1 & D2 & ?).
  destruct (drop_lookup_cons _ _ _ _ D2) as (L2 & D3 & ?).
  rewrite <- Nat.add_assoc in L2. change (1 + 1)%nat with 2%nat in L2. unfold norm_step. simpl. rewrite L0, L1, L2. simpl.
  rewrite (proj2 (Nat.ltb_lt _ _)), Hw by lia. simpl. unfold norm_inv, norm_rest. simpl.
  rewrite Hd. replace (r + 3)%nat with (r + 1 + 1 + 1)%nat by lia. rewrite D3.
  split_and!; try done; [destruct pw; lia|lia|cbn [norm_go]; by rewrite Hw|lia].
Qed.

(** The look-ahead test for a folded line. *)
Definition folds (s : list Z) : option (Z * list Z) :=
  match s with
  | b :: b1 :: w :: s' =>
      if (b =? 13) && (b1 =? 10) && is_sp_tab w then Some (w, s') else None
  | _ => None
  end.

Lemma folds_Some s w s' :
  folds s = Some (w, s') -> s = 13 :: 10 :: w :: s' /\ is_sp_tab w = true.
Proof.
  destruct s as [|b [|b1 [|v s]]]; try done. unfold folds.
  destruct (Z.eqb_spec b 13) as [->|]; [|done]. destruct (Z.eqb_spec b1 10) as [->|]; [|done].
  destruct (is_sp_tab v) eqn:E; [|done]. cbn. intros [= -> ->]. done.
Qed.

Lemma norm_go_crlf w s pending out :
  is_sp_tab w = true -> norm_go (13 :: 10 :: w :: s) pending out = norm_go s (Some w) out.
Proof. intros Hw. cbn [norm_go]. by rewrite Hw. Qed.

Lemma norm_go_plain b s pending out :
  folds (b :: s) = None ->
  norm_go (b :: s) pending out =
    if is_cr_lf b then norm_go s pending out
    else if is_sp_tab b then norm_go s (Some b) out
    else norm_go s None
           (out ++ match pending with
                   | Some ws => if bool_decide (out = []) then [] else [ws]
                   | None => []
                   end ++ [b]).
Proof.
  intros Hf. destruct s as [|b1 [|w s]]; try done. cbn [norm_go].
  unfold folds in Hf. by destruct ((b =? 13) && (b1 =? 10) && is_sp_tab w).
Qed.

Lemma norm_step_plain st b s :
  norm_inv st -> drop (read_idx st) (input st) = b :: s -> folds (b :: s) = None ->
  let st' := norm_step st in
  norm_inv st' /\ norm_rest st' = norm_rest st /\ (read_idx st < read_idx st')%nat /\
  length (input st') = length (input st).
Proof.
  intros [H1 H2] Hd Hf. destruct st as [inp r wi pw]; cbn [input read_idx write_idx pending_whitespace] in *.
  destruct (drop_lookup_cons _ _ _ _ Hd) as (L0 & D1 & Hr).
  unfold norm_step, norm_inv, norm_rest. cbn [input read_idx write_idx pending_whitespace].
  rewrite Hd, norm_go_plain by done. rewrite L0. cbn [default id].
  match goal with |- context [if ?c then _ else _] => assert (c = false) as -> end.
  { destruct (Z.eqb_spec b 13) as [->|]; [|done].
    destruct (Nat.ltb_spec (r + 2) (length inp)) as [Hl|]; [|done]. simpl.
    destruct s as [|b1 s].
    { apply (f_equal length) in D1. rewrite length_drop in D1. simpl in D1. lia. }
    destruct (drop_lookup_cons _ _ _ _ D1) as (L1 & D2 & ?). rewrite L1. simpl.
    destruct (Z.eqb_spec b1 10) as [->|]; [|done]. simpl. destruct s as [|w s].
    { apply (f_equal length) in D2. rewrite length_drop in D2. simpl in D2. lia. }
    destruct (drop_lookup_cons _ _ _ _ D2) as (L2 & _ & _).
    rewrite <- Nat.add_assoc in L2. change (1 + 1)%nat with 2%nat in L2. rewrite L2.
    unfold folds in Hf. cbn [default id Z.eqb Pos.eqb andb] in *. by destruct (is_sp_tab w). }
  destruct (is_cr_lf b); [|destruct (is_sp_tab b)].
  - cbn. rewrite D1. split_and!; try done; destruct pw; lia.
  - cbn. rewrite D1. split_and!; try done; destruct pw; lia.
  - assert (Hout : bool_decide (take wi inp = []) = negb (0 <? wi)%nat).
    { destruct wi as [|wi]; [done|]. apply bool_decide_eq_false_2. destruct inp; [simpl in *; lia|done]. }
    destruct pw as [ws|]; [rewrite Hout; destruct (Nat.ltb_spec 0 wi)|];
      cbn [fst snd input read_idx write_idx pending_whitespace negb app];
      rewrite ?length_insert, ?drop_insert_lt, D1, take_insert_snoc,
        ?take_insert_snoc, <- ?(assoc_L (++)) by (rewrite ?length_insert; lia);
      split_and!; try done; lia.
Qed.

Lemma norm_loop_rest fuel st :
  norm_inv st -> (length (input st) - read_idx st <= fuel)%nat ->
  let st' := norm_loop fuel st in
  take (write_idx st') (input st') = norm_rest st /\ (write_idx st' <= length (input st'))%nat.
Proof.
  revert st. induction fuel as [|fuel IH]; intros st Hinv Hf.
  - simpl. unfold norm_rest. destruct Hinv as [? ?]. rewrite drop_ge by lia. simpl. split; [done|lia].
  - cbn [norm_loop]. destruct (Nat.ltb_spec (read_idx st) (length (input st))) as [Hlt|Hge].
    + assert (Hs : exists b s, drop (read_idx st) (input st) = b :: s).
      { destruct (drop (read_idx st) (input st)) as [|b s] eqn:E; [|eauto].
        apply (f_equal length) in E. rewrite length_drop in E. simpl in E. lia. }
      destruct Hs as (b & s & Hd).
      assert (Hstep : norm_inv (norm_step st) /\ norm_rest (norm_step st) = norm_rest st /\
        (read_idx st < read_idx (norm_step st))%nat /\
        length (input (norm_step st)) = length (input st)).
      { destruct (folds (b :: s)) as [[w s']|] eqn:E; [|by eapply norm_step_plain].
        apply folds_Some in E as [E Hw]. rewrite E in Hd. by eapply norm_step_fold. }
      destruct Hstep as (Hi & Hr & Hlt' & Hlen). rewrite <- Hr. apply IH; [done|]. rewrite Hlen. lia.
    + unfold norm_rest. destruct Hinv as [? ?]. rewrite drop_ge by lia. simpl. split; [done|lia].
Qed.

(** Induction along the scan. *)
Lemma norm_ind (P : list Z -> Prop) :
  P [] ->
  (forall w s, is_sp_tab w = true -> P s -> P (13 :: 10 :: w :: s)) ->
  (forall b s, folds (b :: s) = None -> P s -> P (b :: s)) ->
  forall s, P s.
Proof.
  intros H0 Hf Hp s. remember (length s) as n eqn:Hn. revert s Hn.
  induction (lt_wf n) as [n _ IH]. intros [|b s] ->; [done|].
  destruct (folds (b :: s)) as [[w s']|] eqn:E.
  - apply folds_Some in E as [E Hw]. injection E as -> ->. apply Hf; [done|].
    eapply IH; [|reflexivity]. simpl. lia.
  - apply Hp; [done|]. eapply IH; [|reflexivity]. simpl. lia.
Qed.

(** Bytes that are neither white space nor part of a line end. *)
Definition solid (b : Z) : bool := negb (is_cr_lf b) && negb (is_sp_tab b).

(** The shape of a field content: solid bytes with at most one SP or HTAB
    between two of them. *)
Inductive field_content : list Z -> Prop :=
| fc_one b : solid b = true -> field_content [b]
| fc_snoc s b : field_content s -> solid b = true -> field_content (s ++ [b])
| fc_ws s w b : field_content s -> is_sp_tab w = true -> solid b = true ->
    field_content (s ++ [w; b]).

Definition pending_ok (p : option Z) : Prop := forall w, p = Some w -> is_sp_tab w = true.

Lemma pending_ok_None : pending_ok None.
Proof. by intros w. Qed.

Lemma pending_ok_Some w : is_sp_tab w = true -> pending_ok (Some w).
Proof. by intros H v [= <-]. Qed.

#[local] Hint Resolve pending_ok_None pending_ok_Some : core.

Lemma solid_intro b : is_cr_lf b = false -> is_sp_tab b = false -> solid b = true.
Proof. unfold solid. by intros -> ->. Qed.

Lemma solid_elim b : solid b = true -> is_cr_lf b = false /\ is_sp_tab b = false.
Proof. unfold solid. by destruct (is_cr_lf b), (is_sp_tab b). Qed.

Lemma solid_not_fold b s : solid b = true -> folds (b :: s) = None.
Proof.
  intros [H _]%solid_elim. unfold is_cr_lf in H. apply orb_false_iff in H as [_ H].
  destruct s as [|b1 [|w s]]; try done. unfold folds. by rewrite H.
Qed.

Lemma sp_tab_not_cr_lf w : is_sp_tab w = true -> is_cr_lf w = false.
Proof.
  unfold is_sp_tab, is_cr_lf. rewrite orb_true_iff, !Z.eqb_eq. by intros [-> | ->].
Qed.

Lemma sp_tab_not_solid w : is_sp_tab w = true -> solid w = false.
Proof. intros H. unfold solid. by rewrite H, andb_false_r. Qed.

Lemma sp_tab_not_fold w s : is_sp_tab w = true -> folds (w :: s) = None.
Proof.
  unfold is_sp_tab. rewrite orb_true_iff, !Z.eqb_eq.
  intros [-> | ->]; by destruct s as [|? [|? ?]].
Qed.

Lemma norm_go_solid_step b s pending out :
  solid b = true ->
  norm_go (b :: s) pending out =
    norm_go s None (out ++ match pending with
                           | Some ws => if bool_decide (out = []) then [] else [ws]
                           | None => []
                           end ++ [b]).
Proof.
  intros H. rewrite norm_go_plain by by apply solid_not_fold.
  apply solid_elim in H as [-> ->]. done.
Qed.

Lemma field_content_ne s : field_content s -> s <> [].
Proof. destruct 1 as [|s ? ? ?|s ? ? ? ? ?]; by try destruct s. Qed.

Lemma norm_go_content s pending out :
  pending_ok pending -> out = [] \/ field_content out ->
  norm_go s pending out = [] \/ field_content (norm_go s pending out).
Proof.
  revert pending out. induction s as [|w s Hw IH|b s Hf IH] using norm_ind; intros p out Hp Hout.
  - done.
  - rewrite norm_go_crlf by done. apply IH; auto.
  - rewrite norm_go_plain by done. destruct (is_cr_lf b) eqn:E1; [by apply IH|].
    destruct (is_sp_tab b) eqn:E2; [apply IH; auto|].
    pose proof (solid_intro b E1 E2) as Hb. apply IH; [auto|]. right.
    destruct Hout as [->|Hout]; [destruct p; by apply fc_one|].
    assert (out <> []) by by apply field_content_ne.
    destruct p as [ws|]; [|by apply fc_snoc].
    rewrite bool_decide_eq_false_2 by done. apply fc_ws; auto.
Qed.

Lemma norm_go_solids s pending out :
  pending_ok pending ->
  filter (fun b => solid b = true) (norm_go s pending out) =
  filter (fun b => solid b = true) out ++ filter (fun b => solid b = true) s.
Proof.
  revert pending out. induction s as [|w s Hw IH|b s Hf IH] using norm_ind; intros p out Hp.
  - by rewrite app_nil_r.
  - rewrite norm_go_crlf by done. rewrite IH by auto.
    rewrite (filter_cons_False _ 13), (filter_cons_False _ 10), filter_cons_False; try done.
    by rewrite sp_tab_not_solid.
  - rewrite norm_go_plain by done. destruct (is_cr_lf b) eqn:E1.
    { rewrite IH, filter_cons_False; [done| |done]. unfold solid. by rewrite E1. }
    destruct (is_sp_tab b) eqn:E2.
    { rewrite IH, filter_cons_False; [done| |auto]. by rewrite sp_tab_not_solid. }
    rewrite IH by auto. rewrite !filter_app, filter_cons_True, (filter_cons_True _ b s)
      by by apply solid_intro. rewrite filter_nil, <- !(assoc_L (++)). f_equal.
    destruct p as [ws|]; [|done]. case_bool_decide; [done|].
    rewrite filter_cons_False; [done|]. by rewrite sp_tab_not_solid by auto.
Qed.

Lemma norm_go_id s t : field_content s -> norm_go (s ++ t) None [] = norm_go t None s.
Proof.
  intros H. revert t. induction H as [b Hb|s b Hs IH Hb|s w b Hs IH Hw Hb]; intros t.
  - cbn [app]. by rewrite norm_go_solid_step by done.
  - rewrite <- (assoc_L (++)), IH. cbn [app]. by rewrite norm_go_solid_step by done.
  - rewrite <- (assoc_L (++)), IH. cbn [app].
    rewrite norm_go_plain by by apply sp_tab_not_fold.
    rewrite sp_tab_not_cr_lf, Hw, norm_go_solid_step by done.
    rewrite bool_decide_eq_false_2; [done|]. by apply field_content_ne.
Qed.

Lemma normalized_content s : normalized s = [] \/ field_content (normalized s).
Proof. apply norm_go_content; auto. Qed.

Lemma normalized_idemp s : normalized (normalized s) = normalized s.
Proof.
  destruct (normalized_content s) as [E|Hc]; [by rewrite E|].
  unfold normalized at 1. rewrite <- (app_nil_r (normalized s)) at 1. by rewrite norm_go_id.
Qed.

(** Pending white space is dropped while nothing is written. *)
Lemma norm_go_pending_nil s p q : norm_go s p [] = norm_go s q [].
Proof.
  revert p q. induction s as [|w s Hw IH|b s Hf IH] using norm_ind; intros p q; [done| |].
  - by rewrite !norm_go_crlf by done.
  - rewrite !norm_go_plain by done. case_tests.
Qed.

(** The loops before and after the copying loop do not change the result. *)
Lemma skip_leading_go s r :
  let k := skip_leading s r in
  (r <= k <= r + length s)%nat /\ normalized (drop (k - r) s) = normalized s.
Proof.
  revert r. induction s as [|b s IH]; intros r; cbn [skip_leading length].
  { split; [lia|]. by destruct (r - r)%nat. }
  destruct (is_sp_tab b) eqn:E; [|split; [lia|]; by replace (r - r)%nat with 0%nat by lia].
  destruct (IH (S r)) as [Hk Hgo]. split; [lia|].
  replace (skip_leading s (S r) - r)%nat with (S (skip_leading s (S r) - S r)) by lia.
  cbn [drop]. rewrite Hgo. unfold normalized at 2.
  rewrite norm_go_plain by by apply sp_tab_not_fold. rewrite sp_tab_not_cr_lf, E by done.
  apply norm_go_pending_nil.
Qed.

Lemma trim_trailing_content s w :
  (w <= length s)%nat -> take w s = [] \/ field_content (take w s) -> trim_trailing s w = w.
Proof.
  intros Hw [E|Hc].
  - apply (f_equal length) in E. rewrite length_take in E. simpl in E.
    replace w with 0%nat by lia. done.
  - destruct w as [|w]; [done|]. cbn [trim_trailing].
    destruct (lookup_lt_is_Some_2 s w ltac:(lia)) as [b Hb]. rewrite Hb. cbn [default id].
    rewrite (take_S_r _ _ _ Hb) in Hc.
    assert (Hs : solid b = true).
    { inversion Hc as [c Hs E|t c Ht Hs E|t v c Ht Hv Hs E].
      - change [c] with ([] ++ [c]) in E. apply app_inj_tail in E as [_ ->]. done.
      - apply app_inj_tail in E as [_ ->]. done.
      - change [v; c] with ([v] ++ [c]) in E. rewrite (assoc_L (++)) in E.
        apply app_inj_tail in E as [_ ->]. done. }
    by apply solid_elim in Hs as [_ ->].
Qed.

(** The in-place routine computes the reference. *)
Lemma normalize_is_normalized s :
  normalize_header_value_inplace s =
  if utf8_valid (normalized s) then (normalized s, Ok tt) else ([], Err LibraryError).
Proof.
  unfold normalize_header_value_inplace.
  destruct (skip_leading_go s 0) as [Hk Hgo]. rewrite Nat.sub_0_r in Hgo.
  set (st0 := {| input := s; read_idx := skip_leading s 0; write_idx := 0; pending_whitespace := None |}).
  destruct (norm_loop_rest (length s) st0) as [Hr Hl].
  { split; simpl; lia. }
  { simpl. lia. }
  change (norm_rest st0) with (normalized (drop (skip_leading s 0) s)) in Hr. rewrite Hgo in Hr.
  rewrite trim_trailing_content, Hr; [done|done|]. rewrite Hr. apply normalized_content.
Qed.

(** *** Normalization works on characters *)

Lemma high_solid b : 128 <= b -> solid b = true.
Proof.
  intros H. unfold solid, is_cr_lf, is_sp_tab. by rewrite !(proj2 (Z.eqb_neq b _)) by lia.
Qed.

Lemma norm_go_high bs t p out :
  Forall (fun b => 128 <= b) bs -> bs <> [] ->
  norm_go (bs ++ t) p out =
  norm_go t None (out ++ match p with
                         | Some ws => if bool_decide (out = []) then [] else [ws]
                         | None => []
                         end ++ bs).
Proof.
  intros H Hne. destruct H as [|b bs Hb Hbs]; [done|]. clear Hne. cbn [app].
  rewrite norm_go_solid_step by by apply high_solid.
  assert (Hgo : forall t out, norm_go (bs ++ t) None out = norm_go t None (out ++ bs)).
  { induction Hbs as [|c bs Hc _ IH]; intros t' out'; [by rewrite app_nil_r|]. cbn [app].
    rewrite norm_go_solid_step, IH by by apply high_solid. by rewrite <- (assoc_L (++)). }
  rewrite Hgo. by rewrite <- !(assoc_L (++)).
Qed.

(** The first byte of an encoded character is ASCII only for that character. *)
Lemma encode_head c cs b r :
  scalar c -> encode_all (c :: cs) = b :: r -> b < 128 -> c = b /\ r = encode_all cs.
Proof.
  intros Hs E Hb. rewrite encode_all_cons in E. destruct (Z.lt_ge_cases c 128) as [Hc|Hc].
  - rewrite utf8_encode_low in E by done. injection E as <- <-. done.
  - pose proof (utf8_encode_high c Hs Hc) as Hh. destruct (utf8_encode_cons c) as (b' & r' & E').
    rewrite E' in *. injection E as -> _. apply Forall_cons_1 in Hh as [? _]. lia.
Qed.

Lemma folds_encode b s :
  b < 128 -> Forall scalar s -> folds (b :: s) = None -> folds (b :: encode_all s) = None.
Proof.
  intros Hb Hs Hf. destruct (folds (b :: encode_all s)) as [[w t]|] eqn:E; [|done].
  apply folds_Some in E as [E Hw]. injection E as -> E.
  destruct s as [|b1 s]; [done|]. apply Forall_cons_1 in Hs as [Hs1 Hs].
  apply encode_head in E as [-> E]; [|done|lia].
  destruct s as [|w' s]; [done|]. apply Forall_cons_1 in Hs as [Hs2 Hs].
  apply eq_sym, encode_head in E as [-> ->]; [|done|].
  - cbn [folds Z.eqb Pos.eqb andb] in Hf. by rewrite Hw in Hf.
  - unfold is_sp_tab in Hw. rewrite orb_true_iff, !Z.eqb_eq in Hw. lia.
Qed.

Lemma norm_go_encode cs p out :
  Forall scalar cs -> pending_ok p ->
  norm_go (encode_all cs) p (encode_all out) = encode_all (norm_go cs p out).
Proof.
  intros Hcs. revert Hcs p out.
  induction cs as [|w cs Hw IH|b cs Hf IH] using norm_ind; intros Hcs p out Hp; [done| |].
  - do 3 apply Forall_cons_1 in Hcs as [? Hcs]. rewrite norm_go_crlf by done.
    assert (w < 128) by (unfold is_sp_tab in Hw; rewrite orb_true_iff, !Z.eqb_eq in Hw; lia).
    rewrite !encode_all_cons, (utf8_encode_low w) by done. cbn [app].
    rewrite (utf8_encode_low 13), (utf8_encode_low 10) by done. cbn [app].
    rewrite norm_go_crlf by done. by apply IH; auto.
  - apply Forall_cons_1 in Hcs as [Hb Hcs].
    assert (Hpend : match p with
                    | Some ws => if bool_decide (encode_all out = []) then [] else [ws]
                    | None => []
                    end = encode_all match p with
                    | Some ws => if bool_decide (out = []) then [] else [ws]
                    | None => []
                    end).
    { destruct p as [ws|]; [|done]. rewrite (bool_decide_ext _ _ (encode_all_nil out)).
      case_bool_decide; [done|]. rewrite encode_all_cons, utf8_encode_low; [done|].
      specialize (Hp _ eq_refl). unfold is_sp_tab in Hp. rewrite orb_true_iff, !Z.eqb_eq in Hp. lia. }
    rewrite (norm_go_plain b cs) by done. rewrite encode_all_cons.
    destruct (Z.lt_ge_cases b 128) as [Hlt|Hge].
    + rewrite utf8_encode_low by done. cbn [app].
      rewrite norm_go_plain, Hpend by by apply folds_encode.
      destruct (is_cr_lf b); [by apply IH; auto|].
      destruct (is_sp_tab b) eqn:?; [by apply IH; auto|]. rewrite <- IH by auto. f_equal.
      by rewrite !encode_all_app, encode_all_cons, utf8_encode_low.
    + pose proof (high_solid b Hge) as [-> ->]%solid_elim.
      rewrite norm_go_high, Hpend by (auto using utf8_encode_high; by destruct (utf8_encode_cons b) as (? & ? & ->)).
      rewrite <- IH by auto. f_equal. rewrite !encode_all_app, encode_all_cons.
      by rewrite app_nil_r.
Qed.

Lemma norm_go_Forall s p out :
  Forall scalar s -> Forall scalar out -> pending_ok p -> Forall scalar (norm_go s p out).
Proof.
  intros Hs Ho. revert Hs p out Ho.
  induction s as [|w s Hw IH|b s Hf IH] using norm_ind; intros Hs p out Ho Hp; [done| |].
  - rewrite norm_go_crlf by done. do 3 apply Forall_cons_1 in Hs as [_ Hs]. auto.
  - apply Forall_cons_1 in Hs as [Hb Hs]. rewrite norm_go_plain by done. destruct (is_cr_lf b); [by auto|].
    destruct (is_sp_tab b) eqn:?; [by auto|]. apply IH; auto. rewrite !Forall_app. split_and!; [done| |by constructor].
    destruct p as [ws|]; [|done]. case_bool_decide; [done|]. constructor; [|done].
    specialize (Hp _ eq_refl). unfold is_sp_tab in Hp. rewrite orb_true_iff, !Z.eqb_eq in Hp.
    unfold scalar. lia.
Qed.

Lemma normalized_text s : text s -> text (normalized s).
Proof.
  intros (cs & Hcs & ->). exists (normalized cs). split.
  - by apply norm_go_Forall.
  - by apply (norm_go_encode cs None []).
Qed.

Lemma normalize_text s :
  text s -> normalize_header_value_inplace s = (normalized s, Ok tt).
Proof. intros H. rewrite normalize_is_normalized, text_valid; [done|by apply normalized_text]. Qed.

(** ** The list as a map from names to values *)

Definition values (k : list Z) (l : list (list Z * list Z)) : list (list Z) :=
  snd <$> filter (fun kv => kv.1 = k) l.

(** Names other than [set-cookie] occur at most once. *)
Definition unique (l : list (list Z * list Z)) : Prop :=
  NoDup (fst <$> filter (fun kv => kv.1 <> SET_COOKIE) l).

(** What [get] reads: the values of a name, combined. *)
Definition combined (k : list Z) (l : list (list Z * list Z)) : option (list Z) :=
  match values k l with
  | [] => None
  | vs => Some (join_with (str ", ") vs)
  end.

Lemma values_app k l m : values k (l ++ m) = values k l ++ values k m.
Proof. unfold values. by rewrite filter_app, fmap_app. Qed.

Lemma values_cons k k' v l :
  values k ((k', v) :: l) = if decide (k' = k) then v :: values k l else values k l.
Proof. unfold values. rewrite filter_cons. simpl. by case_decide. Qed.

Lemma values_one k k' v : values k [(k', v)] = if decide (k' = k) then [v] else [].
Proof. by rewrite values_cons. Qed.

Lemma has_key_values k l : has_key k l = negb (bool_decide (values k l = [])).
Proof.
  induction l as [|[k' v] l IH]; [done|]. rewrite values_cons.
  unfold has_key in *. cbn [existsb fst]. rewrite IH.
  case_decide; [by rewrite bool_decide_eq_true_2|by rewrite bool_decide_eq_false_2].
Qed.

Lemma find_key_values k l : find_key k l = head (values k l).
Proof. unfold find_key, values. by destruct (filter _ l). Qed.

Lemma unique_cons k v l :
  unique ((k, v) :: l) <-> (k <> SET_COOKIE -> values k l = []) /\ unique l.
Proof.
  unfold unique. rewrite filter_cons. simpl. case_decide as Hk; [|tauto].
  rewrite fmap_cons, NoDup_cons. simpl. apply and_iff_compat_r.
  transitivity (values k l = []); [|naive_solver]. unfold values. split.
  - intros Hn. destruct (filter (fun kv => kv.1 = k) l) as [|p r] eqn:E; [done|]. destruct Hn.
    assert (Hp : p ∈ filter (fun kv => kv.1 = k) l) by (rewrite E; by left).
    apply list_elem_of_filter in Hp as [<- Hp]. apply list_elem_of_fmap. exists p.
    split; [done|]. by apply list_elem_of_filter.
  - intros E (p & -> & [Hne Hp]%list_elem_of_filter)%list_elem_of_fmap.
    apply fmap_nil_inv in E. apply (filter_nil_not_elem_of _ _ p) in E; done.
Qed.

Lemma unique_values k l : k <> SET_COOKIE -> unique l -> (length (values k l) <= 1)%nat.
Proof.
  intros Hk. induction l as [|[k' v] l IH]; [simpl; lia|]. intros [Hc Hu]%unique_cons.
  rewrite values_cons. case_decide as E; [|auto]. subst. rewrite Hc by done. simpl. lia.
Qed.

Lemma unique_snoc k v l :
  (k <> SET_COOKIE -> values k l = []) -> unique l -> unique (l ++ [(k, v)]).
Proof.
  induction l as [|[k' v'] l IH]; intros Hk Hu.
  { apply unique_cons. split; [done|]. apply NoDup_nil_2. }
  apply unique_cons in Hu as [Hc Hu]. cbn [app]. apply unique_cons.
  rewrite values_cons in Hk. split.
  - intros Hk'. rewrite values_app, values_one, Hc by done. destruct (decide (k = k')) as [E|]; [|done].
    subst k'. rewrite decide_True in Hk by done. by specialize (Hk Hk').
  - apply IH; [|done]. intros Hne. specialize (Hk Hne). by case_decide.
Qed.

Lemma values_update k key f l :
  values k (update_first key f l) =
  if decide (k = key) then match values k l with v :: vs => f v :: vs | [] => [] end
  else values k l.
Proof.
  induction l as [|[k' v] l IH]; simpl; [by case_decide|].
  case_bool_decide as E; rewrite !values_cons, ?IH; repeat case_decide; congruence.
Qed.

Lemma update_keys key f l : fst <$> update_first key f l = fst <$> l.
Proof.
  induction l as [|[k v] l IH]; simpl; [done|]. case_bool_decide; [done|].
  rewrite fmap_cons. by rewrite IH.
Qed.

Lemma unique_keys l m : fst <$> l = fst <$> m -> unique l -> unique m.
Proof.
  revert m. induction l as [|[k v] l IH]; intros [|[k' v'] m] E; try done.
  injection E as -> E. rewrite !unique_cons. intros [Hc Hu]. split; [|by eapply IH].
  intros Hk. specialize (Hc Hk). clear IH Hu Hk. revert m E.
  induction l as [|[k1 v1] l IH]; intros [|[k2 v2] m] E; try done. injection E as -> E.
  rewrite values_cons in *. case_decide; [done|]. by apply IH.
Qed.

Lemma values_retain k key l :
  values k (retain_not key l) = if decide (k = key) then [] else values k l.
Proof.
  unfold retain_not. induction l as [|[k' v] l IH]; [by case_decide|].
  rewrite filter_cons. simpl. repeat case_decide; simplify_eq; rewrite ?values_cons, ?IH;
    repeat case_decide; congruence.
Qed.

Lemma unique_retain key l : unique l -> unique (retain_not key l).
Proof.
  unfold retain_not. induction l as [|[k v] l IH]; [done|]. intros [Hc Hu]%unique_cons.
  rewrite filter_cons. simpl. case_decide as E; [|auto]. apply unique_cons. split; [|auto].
  intros Hk. change (values k (retain_not key l) = []). rewrite values_retain, Hc by done.
  by case_decide.
Qed.

Lemma get_combined h key :
  unique (headers h) -> is_http_header_name (lower_key key) = true ->
  get h key = Ok (combined (lower_key key) (headers h)).
Proof.
  intros Hu Hn. unfold get, combined. rewrite Hn. cbn [negb].
  change (snd <$> filter (fun kv => kv.1 = lower_key key) (headers h))
    with (values (lower_key key) (headers h)).
  case_bool_decide as Hk.
  - by destruct (values (lower_key key) (headers h)).
  - rewrite find_key_values. pose proof (unique_values _ _ Hk Hu).
    destruct (values (lower_key key) (headers h)) as [|v [|v' vs]]; simpl in *; [done|done|lia].
Qed.

Lemma combine_other key v l k : k <> key -> values k (combine key v l) = values k l.
Proof.
  intros Hk. unfold combine. case_tests; rewrite ?values_app, ?values_one, ?values_update;
    rewrite ?decide_False by congruence; by rewrite ?app_nil_r.
Qed.

Lemma combine_same key v l :
  unique l ->
  combined key (combine key v l) =
  Some match combined key l with Some old => old ++ separator key ++ v | None => v end.
Proof.
  intros Hu. unfold combine, combined, separator. case_bool_decide as Hk.
  - subst. rewrite values_app, values_one, decide_True by done.
    destruct (values SET_COOKIE l) as [|x xs]; [done|].
    cbn [app]. change (x :: xs ++ [v]) with ((x :: xs) ++ [v]). by rewrite join_with_snoc by done.
  - rewrite has_key_values. pose proof (unique_values _ _ Hk Hu).
    destruct (values key l) as [|x [|y ys]] eqn:E; cbn [length] in *; [| |lia].
    + rewrite bool_decide_eq_true_2 by done. cbn [negb].
      by rewrite values_app, values_one, E, decide_True by done.
    + rewrite bool_decide_eq_false_2 by done. cbn [negb].
      by rewrite values_update, decide_True, E by done.
Qed.

Lemma unique_combine key v l : unique l -> unique (combine key v l).
Proof.
  intros Hu. unfold combine. case_bool_decide as Hk; [by apply unique_snoc|].
  destruct (has_key key l) eqn:E.
  - eapply unique_keys; [|exact Hu]. by rewrite update_keys.
  - apply unique_snoc; [|done]. intros _. rewrite has_key_values in E.
    by case_bool_decide.
Qed.

(** The list part of [set]. *)
Definition replace (key value : list Z) (l : list (list Z * list Z)) : list (list Z * list Z) :=
  if bool_decide (key = SET_COOKIE) then retain_not key l ++ [(key, value)]
  else if has_key key l then update_first key (fun _ => value) l
  else l ++ [(key, value)].

Lemma replace_other key v l k : k <> key -> values k (replace key v l) = values k l.
Proof.
  intros Hk. unfold replace.
  case_tests; rewrite ?values_app, ?values_one, ?values_update, ?values_retain;
    rewrite ?decide_False by congruence; by rewrite ?app_nil_r.
Qed.

Lemma replace_same key v l : unique l -> combined key (replace key v l) = Some v.
Proof.
  intros Hu. unfold replace, combined. case_bool_decide as Hk.
  - subst. by rewrite values_app, values_one, values_retain, !decide_True by done.
  - rewrite has_key_values. pose proof (unique_values _ _ Hk Hu).
    destruct (values key l) as [|x [|y ys]] eqn:E; cbn [length] in *; [| |lia].
    + rewrite bool_decide_eq_true_2 by done. cbn [negb].
      by rewrite values_app, values_one, E, decide_True by done.
    + rewrite bool_decide_eq_false_2 by done. cbn [negb].
      by rewrite values_update, decide_True, E by done.
Qed.

Lemma unique_replace key v l : unique l -> unique (replace key v l).
Proof.
  intros Hu. unfold replace. case_bool_decide as Hk.
  - apply unique_snoc; [done|by apply unique_retain].
  - destruct (has_key key l) eqn:E.
    + eapply unique_keys; [|exact Hu]. by rewrite update_keys.
    + apply unique_snoc; [|done]. intros _. rewrite has_key_values in E. by case_bool_decide.
Qed.

Lemma combined_ext k l m : values k l = values k m -> combined k l = combined k m.
Proof. unfold combined. by intros ->. Qed.

(** A value that [append] and [set] store. *)
Definition acceptable (v : list Z) : Prop :=
  text v /\ existsb (Z.eqb 0) v = false /\ has_bare_cr_lf v = false /\
  is_http_header_value (normalized v) = true.

Section Behaviour.
Context {num obj : Type}.
Context (f64_to_string : num -> list Z) (coerced_string : jsval num obj -> result js_error (list Z)).

Lemma validate_string key v :
  is_http_header_name (lower_key key) = true -> acceptable v ->
  validate f64_to_string coerced_string GNone key (VString v) =
  Ok (Some (lower_key key, normalized v)).
Proof.
  intros Hn (Ht & H0 & Hc & Hv). unfold validate. rewrite Hn. cbn [negb].
  rewrite bool_decide_eq_false_2 by done. cbn [request_like andb coerce_to_string result_bind].
  rewrite H0, Hc. cbn [orb]. rewrite normalize_text by done. done.
Qed.

Lemma get_frame h l key key' :
  unique (headers h) -> unique l ->
  (forall k, k <> lower_key key -> values k l = values k (headers h)) ->
  lower_key key' <> lower_key key -> get (set_headers l h) key' = get h key'.
Proof.
  intros Hu Hl Hv Hne. destruct (is_http_header_name (lower_key key')) eqn:En.
  - rewrite !get_combined by done. f_equal. by apply combined_ext, Hv.
  - unfold get. by rewrite En.
Qed.

Lemma append_string h key v :
  guard h = GNone -> is_http_header_name (lower_key key) = true -> acceptable v ->
  append f64_to_string coerced_string h key (VString v) =
  Ok (set_headers (combine (lower_key key) (normalized v) (headers h)) h).
Proof.
  intros Hg Hn Hv. unfold append. rewrite Hg, validate_string by done. cbn [result_bind].
  rewrite bool_decide_eq_false_2 by done. cbn [andb].
  destruct Hv as (_ & _ & _ & ->). done.
Qed.

Lemma set_string h key v :
  guard h = GNone -> is_http_header_name (lower_key key) = true -> acceptable v ->
  set f64_to_string coerced_string h key (VString v) =
  Ok (set_headers (replace (lower_key key) (normalized v) (headers h)) h).
Proof.
  intros Hg Hn Hv. unfold set. rewrite Hg, validate_string by done. cbn [result_bind].
  rewrite bool_decide_eq_false_2 by done. cbn [andb].
  destruct Hv as (_ & _ & _ & ->). done.
Qed.

(** *** What the list can contain *)

Definition entry_ok (g : HeadersGuard) (kv : list Z * list Z) : Prop :=
  is_http_header_name kv.1 = true /\ lower_key kv.1 = kv.1 /\
  text kv.2 /\ is_http_header_value kv.2 = true /\
  (request_like g = true ->
     is_forbidden_request_header kv.1 = false /\ is_forbidden_method_override kv.1 kv.2 = false).

(** The string a value is converted to is a Rust [String]. *)
Definition coerced_text (v : jsval num obj) : Prop :=
  forall s, coerce_to_string f64_to_string coerced_string v = Ok s -> text s.

Definition entries_text (es : list (@init_entry num obj)) : Prop :=
  forall xs, EArray xs ∈ es -> Forall coerced_text xs.

Definition init_text (init : @init_value num obj) : Prop :=
  match init with
  | IArray elems | IIterable (Ok elems) => entries_text (flatten elems)
  | IRecord (Ok props) => forall p v, p ∈ props -> p_value p = Ok v -> coerced_text v
  | _ => True
  end.

(** Header lists a program can hold: built by [from_value], then changed by
    the three mutating methods in any order. *)
Inductive reachable : Headers -> Prop :=
| reach_new init g h : init_text init ->
    from_value f64_to_string coerced_string init g = Ok h -> reachable h
| reach_append h key v h' : reachable h -> coerced_text v ->
    append f64_to_string coerced_string h key v = Ok h' -> reachable h'
| reach_set h key v h' : reachable h -> coerced_text v ->
    set f64_to_string coerced_string h key v = Ok h' -> reachable h'
| reach_delete h key h' : reachable h -> delete h key = Ok h' -> reachable h'.

Lemma lower_key_idemp k : lower_key (lower_key k) = lower_key k.
Proof.
  unfold lower_key, ascii_lowercase. rewrite <- list_fmap_compose. apply list_fmap_ext. intros _ b _. simpl.
  unfold to_ascii_lowercase. destruct (in_range 65 90 b) eqn:E; [|by rewrite E].
  revert E. range_tests.
Qed.

Lemma override_combined k a b :
  is_forbidden_method_override k (a ++ separator k ++ b) =
  is_forbidden_method_override k a || is_forbidden_method_override k b.
Proof.
  unfold is_forbidden_method_override, separator.
  destruct (bool_decide (k = COOKIE)) eqn:E.
  { apply bool_decide_eq_true in E as ->. done. }
  match goal with |- context [negb ?c] => destruct c; [|done] end. cbn [negb].
  change (str ", " ++ b) with (44 :: 32 :: b).
  by rewrite split_by_app, existsb_app by done.
Qed.

Lemma value_combined k a b :
  text a -> text b -> is_http_header_value a = true -> is_http_header_value b = true ->
  text (a ++ separator k ++ b) /\ is_http_header_value (a ++ separator k ++ b) = true.
Proof.
  intros Ha Hb Va Vb.
  assert (Hs : text (separator k) /\ is_http_header_value (separator k) = true).
  { unfold separator. case_tests; (split; [solve_ascii|vm_compute; done]). }
  destruct Hs as [Hs Vs]. split; [by auto with llrt|].
  unfold is_http_header_value in *. rewrite !chars_app by auto with llrt.
  by rewrite !forallb_app, Va, Vs, Vb.
Qed.

Lemma entry_ok_combine g k v l :
  Forall (entry_ok g) l -> entry_ok g (k, v) -> Forall (entry_ok g) (combine k v l).
Proof.
  intros Hl Hv. unfold combine. case_bool_decide; [by apply Forall_app; auto|].
  destruct (has_key k l); [|by apply Forall_app; auto].
  induction Hl as [|[k' old] l Hx Hl IH]; [done|]. cbn [update_first].
  case_bool_decide as E; [|by constructor]. constructor; [|done]. subst k'.
  destruct Hx as (N1 & L1 & T1 & V1 & G1), Hv as (N2 & L2 & T2 & V2 & G2). cbn in *.
  destruct (value_combined k old v T1 T2 V1 V2) as [T V]. split_and!; try done.
  intros Hg. cbn. rewrite override_combined.
  destruct (G1 Hg) as [-> ->], (G2 Hg) as [_ ->]. done.
Qed.

Lemma Forall_retain (P : list Z * list Z -> Prop) k l : Forall P l -> Forall P (retain_not k l).
Proof.
  rewrite !Forall_forall. intros H x [_ Hx]%list_elem_of_filter. auto.
Qed.

Lemma entry_ok_replace g k v l :
  Forall (entry_ok g) l -> entry_ok g (k, v) -> Forall (entry_ok g) (replace k v l).
Proof.
  intros Hl Hv. unfold replace. case_bool_decide.
  { apply Forall_app. split; [by apply Forall_retain|by auto]. }
  destruct (has_key k l); [|by apply Forall_app; auto].
  induction Hl as [|[k' old] l Hx Hl IH]; [done|]. cbn [update_first].
  case_bool_decide as E; constructor; auto. by subst.
Qed.

Lemma first_value_text s : text s -> text (first_value s).
Proof.
  intros (cs & Hcs & ->). unfold first_value, trim. eexists. split; [|reflexivity].
  apply trim_matches_Forall, chars_scalar, split_first_Forall. by apply encode_all_byte_ok.
Qed.

Lemma safelisted_no_override k x v :
  is_cors_safelisted_request_header k x = true -> lower_key k = k ->
  is_forbidden_method_override k v = false.
Proof.
  intros Hs Hl. unfold is_forbidden_method_override.
  match goal with |- context [negb ?c] => destruct c eqn:E; [|done] end. exfalso.
  rewrite !orb_true_iff, !bool_decide_eq_true in E. revert Hs.
  unfold is_cors_safelisted_request_header. destruct (128 <? length x)%nat; [done|].
  destruct E as [[-> | ->] | ->]; done.
Qed.

(** What passes [validate] may be stored. *)
Lemma validate_entry g key v k x :
  coerced_text v -> validate f64_to_string coerced_string g key v = Ok (Some (k, x)) ->
  k = lower_key key /\ is_http_header_name k = true /\ text x /\
  (request_like g = true ->
     is_forbidden_request_header k = false /\ is_forbidden_method_override k x = false).
Proof.
  intros Ht. unfold validate.
  destruct (is_http_header_name (lower_key key)) eqn:Hn; [|done]. cbn [negb].
  case_bool_decide; [done|].
  destruct (request_like g && is_forbidden_request_header (lower_key key)) eqn:Ef; [done|].
  destruct (bool_decide (g = GResponse) && _); [done|].
  destruct (coerce_to_string f64_to_string coerced_string v) as [s|] eqn:Es; [|done].
  cbn [result_bind]. specialize (Ht s Es). destruct (_ || _); [done|].
  rewrite normalize_text by done. cbn [result_bind].
  destruct (request_like g && is_forbidden_method_override _ _) eqn:Eo; [done|].
  intros [= <- <-]. split_and!; [done|done|by apply normalized_text|].
  intros Hg. rewrite Hg in *. done.
Qed.

(** The value that is finally stored, in no-cors mode the first one. *)
Lemma stored_entry g k x :
  is_http_header_name (lower_key k) = true -> text x ->
  (request_like g = true ->
     is_forbidden_request_header (lower_key k) = false /\
     is_forbidden_method_override (lower_key k) x = false) ->
  bool_decide (g = GRequestNoCors)
    && negb (is_cors_safelisted_request_header (lower_key k) (first_value x)) = false ->
  let y := if bool_decide (g = GRequestNoCors) then first_value x else x in
  is_http_header_value y = true -> entry_ok g (lower_key k, y).
Proof.
  intros Hn Ht Hf Hs y Hy. split_and!; cbn; [done|apply lower_key_idemp| |done|].
  - unfold y. case_bool_decide; [by apply first_value_text|done].
  - intros Hg. destruct (Hf Hg) as [? ?]. split; [done|]. unfold y. case_bool_decide; [|done].
    cbn in Hs. apply negb_false_iff in Hs. eapply safelisted_no_override; [exact Hs|apply lower_key_idemp].
Qed.

Lemma append_ok h key v h' :
  coerced_text v -> append f64_to_string coerced_string h key v = Ok h' ->
  h' = h \/ exists k x, entry_ok (guard h) (k, x) /\ h' = set_headers (combine k x (headers h)) h.
Proof.
  intros Ht. unfold append.
  destruct (validate _ _ _ _ _) as [[[k x]|]|] eqn:Ev; cbn [result_bind]; [|naive_solver|done].
  apply validate_entry in Ev as (-> & Hn & Hx & Hf); [|done].
  destruct (_ && negb _) eqn:Es; [naive_solver|].
  destruct (_ && has_key _ _); [naive_solver|].
  destruct (is_http_header_value _) eqn:Hv; [|done]. cbn [negb]. intros [= <-]. right.
  eexists _, _. split; [|reflexivity]. by apply stored_entry.
Qed.

Lemma set_ok h key v h' :
  coerced_text v -> set f64_to_string coerced_string h key v = Ok h' ->
  h' = h \/ exists k x, entry_ok (guard h) (k, x) /\ h' = set_headers (replace k x (headers h)) h.
Proof.
  intros Ht. unfold set.
  destruct (validate _ _ _ _ _) as [[[k x]|]|] eqn:Ev; cbn [result_bind]; [|naive_solver|done].
  apply validate_entry in Ev as (-> & Hn & Hx & Hf); [|done].
  destruct (_ && negb _) eqn:Es; [naive_solver|].
  destruct (is_http_header_value _) eqn:Hv; [|done]. cbn [negb]. intros [= <-]. right.
  eexists _, _. split; [|reflexivity]. by apply stored_entry.
Qed.

Lemma delete_ok h key h' :
  delete h key = Ok h' ->
  h' = h \/ h' = set_headers (retain_not (lower_key key) (headers h)) h.
Proof. unfold delete. repeat (case_match; try done); intros [= <-]; auto. Qed.

(** With the response guard the name of a change is not [set-cookie]. *)
Lemma validate_response key v k x :
  validate f64_to_string coerced_string GResponse key v = Ok (Some (k, x)) -> SET_COOKIE <> k.
Proof.
  unfold validate. destruct (negb _); [done|]. cbn [request_like andb orb].
  rewrite (bool_decide_eq_false_2 (GResponse = GImmutable)) by done.
  destruct (request_like _ && _); [done|].
  destruct (bool_decide_reflect (lower_key key = SET_COOKIE)) as [|Hk]; [done|].
  rewrite andb_false_r. destruct (coerce_to_string _ _ v) as [s|]; [|done]. cbn [result_bind].
  destruct (_ || _); [done|]. destruct (normalize_header_value_inplace s) as [y [[]|]]; [|done].
  cbn [result_bind]. destruct (_ && _); [done|]. congruence.
Qed.

Lemma append_response h key v h' :
  append f64_to_string coerced_string h key v = Ok h' -> guard h = GResponse ->
  h' = h \/ exists k x, SET_COOKIE <> k /\ h' = set_headers (combine k x (headers h)) h.
Proof.
  unfold append. intros H Hg. rewrite Hg in H.
  destruct (validate _ _ _ _ _) as [[[k x]|]|] eqn:Ev; cbn [result_bind] in H; [|naive_solver|done].
  apply validate_response in Ev.
  change (bool_decide (GResponse = GRequestNoCors)) with false in H. cbn [andb] in H.
  destruct (negb _); [done|]. injection H as <-. eauto.
Qed.

Lemma set_response h key v h' :
  set f64_to_string coerced_string h key v = Ok h' -> guard h = GResponse ->
  h' = h \/ exists k x, SET_COOKIE <> k /\ h' = set_headers (replace k x (headers h)) h.
Proof.
  unfold set. intros H Hg. rewrite Hg in H.
  destruct (validate _ _ _ _ _) as [[[k x]|]|] eqn:Ev; cbn [result_bind] in H; [|naive_solver|done].
  apply validate_response in Ev.
  change (bool_decide (GResponse = GRequestNoCors)) with false in H. cbn [andb] in H.
  destruct (negb _); [done|]. injection H as <-. eauto.
Qed.

Lemma delete_response h key h' :
  delete h key = Ok h' -> guard h = GResponse ->
  h' = h \/ SET_COOKIE <> lower_key key /\ h' = set_headers (retain_not (lower_key key) (headers h)) h.
Proof.
  unfold delete. intros H Hg. rewrite Hg in H. destruct (negb _); [done|].
  change (bool_decide (GResponse = GImmutable)) with false in H.
  change (request_like GResponse) with false in H.
  change (bool_decide (GResponse = GResponse)) with true in H. cbn [andb] in H.
  destruct (bool_decide_reflect (lower_key key = SET_COOKIE)); naive_solver.
Qed.

(** The tests shared by the two loops that build a list. *)
Lemma built_entry g k x :
  is_http_header_name (lower_key k) = true -> text x -> is_http_header_value x = true ->
  request_like g && is_forbidden_request_header (lower_key k) = false ->
  request_like g && is_forbidden_method_override (lower_key k) x = false ->
  entry_ok g (lower_key k, x).
Proof.
  intros Hn Ht Hv H1 H2. split_and!; cbn; [done|apply lower_key_idemp|done|done|].
  intros Hg. by rewrite Hg in *.
Qed.

Lemma coerced_undefined : coerced_text VUndefined.
Proof. intros s [= <-]. solve_ascii. Qed.

Lemma array_loop_ok g l es l' :
  entries_text es -> array_loop f64_to_string coerced_string g l es = Ok l' ->
  Forall (entry_ok g) l -> unique l -> Forall (entry_ok g) l' /\ unique l'.
Proof.
  revert l. induction es as [|e es IH]; intros l Ht; cbn [array_loop]; [by intros [= <-]|].
  destruct (array_entry _ _ g l e) as [m|] eqn:Ee; [|done]. cbn [result_bind]. intros Hm Hl Hu.
  assert (Hes : entries_text es) by (intros xs Hxs; apply Ht; by right).
  assert (Hok : Forall (entry_ok g) m /\ unique m); [|by eapply IH; [| |apply Hok..]; eauto].
  clear IH Hm Hes. revert Ee. unfold array_entry. destruct e as [xs|]; [|by intros [= <-]].
  destruct (_ =? 0)%nat; [|done]. cbn [negb].
  destruct (get_string xs 0) as [k|]; [|done]. cbn [result_bind].
  destruct (is_http_header_name (lower_key k)) eqn:Hn; [|done]. cbn [negb].
  destruct (request_like g && is_forbidden_request_header _) eqn:Ef; [by intros [= <-]|].
  destruct (coerce_to_string _ _ _) as [x|] eqn:Ex; [|done]. cbn [result_bind].
  destruct (is_http_header_value x) eqn:Hv; [|done]. cbn [negb].
  destruct (request_like g && is_forbidden_method_override _ _) eqn:Eo; [by intros [= <-]|].
  destruct (bool_decide _ && _); [by intros [= <-]|]. intros [= <-].
  split; [|by apply unique_combine]. apply entry_ok_combine; [done|]. apply built_entry; try done.
  assert (Hx : coerced_text (default VUndefined (xs !! 1%nat))); [|by apply Hx].
  destruct (xs !! 1%nat) as [v|] eqn:E1; [|apply coerced_undefined].
  specialize (Ht xs ltac:(by left)). eapply Forall_forall; [exact Ht|].
  by eapply list_elem_of_lookup_2.
Qed.

Lemma record_loop_ok g l ps l' :
  (forall p v, p ∈ ps -> p_value p = Ok v -> coerced_text v) ->
  record_loop f64_to_string coerced_string g l ps = Ok l' ->
  Forall (entry_ok g) l -> Forall (entry_ok g) l'.
Proof.
  revert l. induction ps as [|p ps IH]; intros l Ht; cbn [record_loop]; [by intros [= <-]|].
  destruct (record_entry _ _ g l p) as [m|] eqn:Ee; [|done]. cbn [result_bind]. intros Hm Hl.
  eapply IH; [|exact Hm|].
  { intros q v Hq. apply Ht. by right. }
  specialize (Ht p). clear IH Hm. revert Ee. unfold record_entry.
  destruct (p_desc p) as [[[|]|]|]; cbn [result_bind]; try done; try by intros [= <-].
  destruct (p_key p) as [k| |]; try done; [|by intros [= <-]].
  destruct (is_http_header_name (lower_key k)) eqn:Hn; [|done]. cbn [negb].
  destruct (request_like g && is_forbidden_request_header _) eqn:Ef; [by intros [= <-]|].
  destruct (p_value p) as [v|] eqn:Ev; [|done]. cbn [result_bind].
  destruct (coerce_to_string _ _ v) as [x|] eqn:Ex; [|done]. cbn [result_bind].
  assert (Hx : text x) by (eapply Ht; [by left|done|exact Ex]).
  rewrite normalize_text by done. cbn [fst].
  destruct (is_http_header_value _) eqn:Hv; [|done]. cbn [negb].
  destruct (request_like g && is_forbidden_method_override _ _) eqn:Eo; [by intros [= <-]|].
  destruct (bool_decide _ && _); [by intros [= <-]|]. intros [= <-].
  apply Forall_app. split; [done|]. constructor; [|done].
  apply built_entry; try done. by apply normalized_text.
Qed.

Lemma from_value_ok init g h :
  init_text init -> from_value f64_to_string coerced_string init g = Ok h ->
  guard h = g /\ Forall (entry_ok g) (headers h).
Proof.
  assert (Harr : forall es, entries_text es ->
    from_array f64_to_string coerced_string es g = Ok h ->
    guard h = g /\ Forall (entry_ok g) (headers h)).
  { intros es Ht. unfold from_array.
    destruct (array_loop _ _ g [] es) as [l|] eqn:E; [|done]. cbn [result_bind]. intros [= <-].
    split; [done|]. cbn [headers]. rewrite sort_by_perm.
    eapply array_loop_ok; [exact Ht|exact E|done|]. apply NoDup_nil_2. }
  intros Ht. destruct init as [es|[es|]| |[ps|]|v]; cbn [from_value result_bind]; try done.
  - by apply Harr.
  - by apply Harr.
  - destruct (record_loop _ _ g [] ps) as [l|] eqn:E; [|done]. cbn [result_bind]. intros [= <-].
    split; [done|]. cbn [headers]. rewrite sort_by_perm. by eapply record_loop_ok.
  - by intros [= <-].
Qed.

Lemma reachable_ok h : reachable h -> Forall (entry_ok (guard h)) (headers h).
Proof.
  induction 1 as [init g h Ht H|h key v h' _ IH Ht H|h key v h' _ IH Ht H|h key h' _ IH H].
  - apply from_value_ok in H as [-> ?]; done.
  - apply append_ok in H as [-> |(k & x & Hk & ->)]; [done| |done]. by apply entry_ok_combine.
  - apply set_ok in H as [-> |(k & x & Hk & ->)]; [done| |done]. by apply entry_ok_replace.
  - apply delete_ok in H as [-> | ->]; [done|]. by apply Forall_retain.
Qed.

(** ** Properties *)

(** C27: whatever a program does with a header list, every stored name is a
    lower-case HTTP token and every stored value is text of allowed
    characters; with a request guard no stored name is a forbidden header and
    no method-override header carries a forbidden method, also after values
    were combined. *)
Theorem headers_reachable_safe h k v :
  reachable h -> (k, v) ∈ headers h ->
  is_http_header_name k = true /\ lower_key k = k /\ text v /\ is_http_header_value v = true /\
  (request_like (guard h) = true ->
     is_forbidden_request_header k = false /\ is_forbidden_method_override k v = false).
Proof. intros Hr Hin. exact (proj1 (Forall_forall _ _) (reachable_ok h Hr) (k, v) Hin). Qed.

(** [set] makes [get] return the normalized value and leaves every other
    name alone. *)
Theorem headers_set_get h key v :
  unique (headers h) -> guard h = GNone -> is_http_header_name (lower_key key) = true ->
  acceptable v ->
  exists h', set f64_to_string coerced_string h key (VString v) = Ok h' /\
    unique (headers h') /\ get h' key = Ok (Some (normalized v)) /\
    forall key', lower_key key' <> lower_key key -> get h' key' = get h key'.
Proof.
  intros Hu Hg Hn Hv. rewrite set_string by done. eexists. split; [done|].
  assert (Hr := unique_replace (lower_key key) (normalized v) _ Hu). split_and!; [done| |].
  - rewrite get_combined by done. cbn [headers set_headers]. by rewrite replace_same.
  - intros key' Hne. eapply get_frame; [done|done| |exact Hne]. intros k Hk. by apply replace_other.
Qed.

(** [append] adds the normalized value behind the value that was there,
    separated by "; " for cookies and by ", " otherwise, and leaves every
    other name alone. *)
Theorem headers_append_get h key v old :
  unique (headers h) -> guard h = GNone -> acceptable v -> get h key = Ok old ->
  exists h', append f64_to_string coerced_string h key (VString v) = Ok h' /\
    unique (headers h') /\
    get h' key = Ok (Some match old with
                          | Some o => o ++ separator (lower_key key) ++ normalized v
                          | None => normalized v
                          end) /\
    forall key', lower_key key' <> lower_key key -> get h' key' = get h key'.
Proof.
  intros Hu Hg Hv Hold.
  assert (Hn : is_http_header_name (lower_key key) = true).
  { unfold get in Hold. by destruct (is_http_header_name (lower_key key)). }
  rewrite get_combined in Hold by done. injection Hold as <-.
  rewrite append_string by done. eexists. split; [done|].
  assert (Hr := unique_combine (lower_key key) (normalized v) _ Hu). split_and!; [done| |].
  - rewrite get_combined by done. cbn [headers set_headers]. by rewrite combine_same.
  - intros key' Hne. eapply get_frame; [done|done| |exact Hne]. intros k Hk. by apply combine_other.
Qed.

(** [delete] removes a name and nothing else. *)
Theorem headers_delete_get h key :
  unique (headers h) -> guard h = GNone -> is_http_header_name (lower_key key) = true ->
  exists h', delete h key = Ok h' /\ unique (headers h') /\
    get h' key = Ok None /\ has h' key = Ok false /\
    forall key', lower_key key' <> lower_key key -> get h' key' = get h key'.
Proof.
  intros Hu Hg Hn. eexists. unfold delete. rewrite Hn, Hg. cbn [negb]. split; [done|].
  assert (Hr := unique_retain (lower_key key) _ Hu). split_and!; [done| | |].
  - rewrite get_combined by done. cbn [headers set_headers]. unfold combined.
    by rewrite values_retain, decide_True.
  - unfold has. rewrite Hn. cbn [negb headers set_headers].
    by rewrite has_key_values, values_retain, decide_True.
  - intros key' Hne. eapply get_frame; [done|done| |exact Hne].
    intros k Hk. by rewrite values_retain, decide_False.
Qed.

(** C28: an immutable header list refuses every mutation; with the response
    guard no mutation changes what [getSetCookie] returns. *)
Theorem headers_guards l key v h' :
  (forall h, append f64_to_string coerced_string {| headers := l; guard := GImmutable |} key v <> Ok h /\
             set f64_to_string coerced_string {| headers := l; guard := GImmutable |} key v <> Ok h /\
             delete {| headers := l; guard := GImmutable |} key <> Ok h) /\
  let h := {| headers := l; guard := GResponse |} in
  (append f64_to_string coerced_string h key v = Ok h' \/
   set f64_to_string coerced_string h key v = Ok h' \/ delete h key = Ok h' ->
   get_set_cookie h' = get_set_cookie h).
Proof.
  split.
  { intros h. unfold append, set, delete, validate. cbn [guard].
    destruct (is_http_header_name (lower_key key)); done. }
  intros h Hop.
  assert (Hl : exists m, h' = set_headers m h /\ values SET_COOKIE m = values SET_COOKIE l).
  { destruct Hop as [H|[H|H]].
    - apply append_response in H as [-> |(k & x & Hk & ->)]; [by exists l| |done].
      eexists. split; [done|]. by apply combine_other.
    - apply set_response in H as [-> |(k & x & Hk & ->)]; [by exists l| |done].
      eexists. split; [done|]. by apply replace_other.
    - apply delete_response in H as [-> |(Hk & ->)]; [by exists l| |done].
      eexists. split; [done|]. by rewrite values_retain, decide_False. }
  destruct Hl as (m & -> & Hm). exact Hm.
Qed.
End Behaviour.

(** *** Iteration order *)

Lemma dedup_values k seen l :
  values k (dedup seen l) =
  if bool_decide (k = SET_COOKIE) then values k l
  else if bool_decide (k ∈ seen) then [] else take 1 (values k l).
Proof.
  revert seen. induction l as [|[k' v] l IH]; intros seen; cbn [dedup].
  { by repeat case_bool_decide. }
  destruct (bool_decide_reflect (k' = SET_COOKIE)) as [-> |Hsc].
  { rewrite !values_cons, IH. destruct (decide (SET_COOKIE = k)) as [<-|]; [|done].
    by rewrite !bool_decide_eq_true_2 by done. }
  destruct (bool_decide_reflect (k' ∈ seen)) as [Hin|Hin].
  - rewrite IH, values_cons. destruct (decide (k' = k)) as [<-|]; [|done].
    by rewrite bool_decide_eq_false_2, bool_decide_eq_true_2.
  - rewrite !values_cons, IH. destruct (decide (k' = k)) as [<-|Hne].
    + rewrite !(bool_decide_eq_false_2 (k' = SET_COOKIE)), (bool_decide_eq_false_2 (k' ∈ seen)) by done.
      rewrite bool_decide_eq_true_2 by by left. done.
    + rewrite (bool_decide_ext (k ∈ k' :: seen) (k ∈ seen)); [done|].
      rewrite elem_of_cons. naive_solver.
Qed.

Lemma dedup_unique seen l : unique (dedup seen l).
Proof.
  revert seen. induction l as [|[k v] l IH]; intros seen; cbn [dedup]; [apply NoDup_nil_2|].
  case_bool_decide; [apply unique_cons; done|]. case_bool_decide; [done|].
  apply unique_cons. split; [|done]. intros _. rewrite dedup_values.
  rewrite bool_decide_eq_false_2, bool_decide_eq_true_2; [done|by left|done].
Qed.

Lemma dedup_id seen l :
  unique l -> (forall k, k ∈ seen -> k <> SET_COOKIE -> values k l = []) -> dedup seen l = l.
Proof.
  revert seen. induction l as [|[k v] l IH]; intros seen Hu Hs; [done|].
  apply unique_cons in Hu as [Hc Hu]. cbn [dedup].
  assert (Hs' : forall j, j ∈ seen -> j <> SET_COOKIE -> values j l = []).
  { intros j Hj Hne. specialize (Hs j Hj Hne). rewrite values_cons in Hs. by case_decide. }
  case_bool_decide as Hk; [by rewrite IH|]. case_bool_decide as Hin.
  - specialize (Hs k Hin Hk). rewrite values_cons, decide_True in Hs; done.
  - rewrite IH; [done|done|]. intros j [-> |Hj]%elem_of_cons; auto.
Qed.

#[export] Instance key_leb_order : TotalPreorder key_leb.
Proof. exact (key_order bytes_leb fst _). Qed.

Lemma sort_values k l : values k (sort_by key_leb l) = values k l.
Proof.
  unfold values. f_equal.
  assert (Hiff : forall m : list (list Z * list Z), filter (fun kv => kv.1 = k) m =
    filter (fun kv => bool_decide (kv.1 = k) = true) m).
  { intros m. apply list_filter_iff. intros x. by rewrite bool_decide_eq_true. }
  rewrite !Hiff. apply sort_by_stable. intros a b Ha%bool_decide_eq_true Hb%bool_decide_eq_true.
  unfold key_leb. rewrite Ha, Hb. apply bytes_leb_refl.
Qed.

(** The results of calling [next] until the iterator is done, with the header
    list left alone. *)
Fixpoint drain (fuel : nat) (h : Headers) (kind : IterKind) (index : nat) : list iter_result :=
  match fuel with
  | O => []
  | S fuel' =>
      match next h kind index with
      | (_, Done) => [Done]
      | (index', r) => r :: drain fuel' h kind index'
      end
  end.

Lemma drain_spec fuel h kind i :
  (length (sorted_entries h) - i < fuel)%nat ->
  drain fuel h kind i =
  ((fun e => iterator_result kind (Some e)) <$> drop i (sorted_entries h)) ++ [Done].
Proof.
  revert i. induction fuel as [|fuel IH]; intros i Hf; [lia|]. cbn [drain next].
  unfold next, read_entry. destruct (sorted_entries h !! i) as [[k v]|] eqn:E.
  - rewrite (drop_S _ _ _ E). pose proof (lookup_lt_Some _ _ _ E). cbn [iterator_result].
    rewrite Nat.add_1_r. destruct kind; rewrite IH by lia; done.
  - apply lookup_ge_None in E. rewrite drop_ge by lia. done.
Qed.

(** Iteration visits the headers sorted by name, each name once but
    [set-cookie], whose values keep their order; on a list without repeated
    names nothing is dropped, and an iterator driven to its end yields exactly
    these entries. *)
Theorem headers_iteration h kind :
  let es := sorted_entries h in
  StronglySorted (fun a b => key_leb a b = true) es /\ unique es /\
  values SET_COOKIE es = get_set_cookie h /\
  (unique (headers h) -> es ≡ₚ headers h) /\
  drain (S (length es)) h kind 0 = ((fun e => iterator_result kind (Some e)) <$> es) ++ [Done].
Proof.
  intros es. split_and!.
  - apply sort_by_sorted, _.
  - unfold unique, es, sorted_entries. rewrite sort_by_perm. apply dedup_unique.
  - unfold es, sorted_entries. rewrite sort_values, dedup_values.
    by rewrite bool_decide_eq_true_2.
  - intros Hu. unfold es, sorted_entries. rewrite sort_by_perm.
    by rewrite dedup_id; [|done|intros k []%elem_of_nil].
  - rewrite drain_spec by (unfold es; lia). done.
Qed.

(** On text the in-place normalization succeeds; the result is empty or
    solid characters with single blanks between them, the characters that are
    not blanks or line ends are kept in order, and normalizing again changes
    nothing. *)
Theorem normalize_header_value_correct s :
  text s ->
  exists t, normalize_header_value_inplace s = (t, Ok tt) /\
    (t = [] \/ field_content t) /\
    filter (fun b => solid b = true) t = filter (fun b => solid b = true) s /\
    normalize_header_value_inplace t = (t, Ok tt).
Proof.
  intros Ht. exists (normalized s). rewrite normalize_text by done. split_and!; [done| | |].
  - apply normalized_content.
  - unfold normalized. rewrite norm_go_solids by done. done.
  - rewrite normalize_text by by apply normalized_text. by rewrite normalized_idemp.
Qed.

(** *** Received headers *)

Lemma http_entries_other k n ws : n <> k -> values k (http_entries (n, ws)) = [].
Proof.
  intros Hne. unfold http_entries. case_bool_decide; [|by rewrite values_one, decide_False].
  induction ws as [|w ws IH]; [done|]. by rewrite fmap_cons, values_cons, decide_False.
Qed.

Lemma http_entries_same k vs :
  values k (http_entries (k, vs)) =
  if bool_decide (k = SET_COOKIE) then from_utf8_lossy <$> vs
  else [join_with (str ", ") (from_utf8_lossy <$> vs)].
Proof.
  unfold http_entries. case_bool_decide; [|by rewrite values_one, decide_True].
  induction vs as [|w ws IH]; [done|]. by rewrite !fmap_cons, values_cons, decide_True, IH.
Qed.

Lemma http_values_none k m : k ∉ fst <$> m -> values k (concat (http_entries <$> m)) = [].
Proof.
  induction m as [|[n ws] m IH]; [done|]. intros [Hn Hm]%not_elem_of_cons.
  rewrite fmap_cons, concat_cons, values_app, http_entries_other by (intros <-; by apply Hn). by apply IH.
Qed.

Lemma http_values k vs m :
  NoDup (fst <$> m) -> (k, vs) ∈ m ->
  values k (concat (http_entries <$> m)) = values k (http_entries (k, vs)).
Proof.
  induction m as [|[n ws] m IH]; intros Hnd Hin; [by apply elem_of_nil in Hin|].
  apply NoDup_cons in Hnd as [Hni Hnd].
  rewrite fmap_cons, concat_cons, values_app. apply elem_of_cons in Hin as [[= <- <-]|Hin].
  - by rewrite http_values_none, app_nil_r.
  - rewrite http_entries_other; [by apply IH|]. intros ->. apply Hni, list_elem_of_fmap.
    by exists (k, vs).
Qed.

(** The header list built from a received message answers [get] with all
    values of a name joined by ", ". *)
Theorem headers_from_http m g key vs :
  NoDup (fst <$> m) -> (lower_key key, vs) ∈ m -> vs <> [] ->
  is_http_header_name (lower_key key) = true ->
  get (from_http_headers m g) key = Ok (Some (join_with (str ", ") (from_utf8_lossy <$> vs))).
Proof.
  intros Hnd Hin Hvs Hn. pose proof (http_values _ _ _ Hnd Hin) as Hval.
  rewrite http_entries_same in Hval. unfold get. rewrite Hn. cbn [negb from_http_headers headers].
  fold (values (lower_key key) (concat (http_entries <$> m))).
  rewrite find_key_values, Hval. case_bool_decide; [|done].
  rewrite bool_decide_eq_false_2; [done|]. by destruct vs.
Qed.

(** ** Concrete runs *)

Abbreviation sval := (jsval Empty_set Empty_set).
Definition sample_number (n : Empty_set) : list Z := match n with end.
Definition sample_coerced (v : sval) : result js_error (list Z) :=
  Err (TypeError "cannot convert").

Abbreviation sappend := (append sample_number sample_coerced).
Abbreviation sset := (set sample_number sample_coerced).
Abbreviation sfrom := (from_value sample_number sample_coerced).

Definition sample_headers : Headers :=
  {| headers := [(str "accept", str "text/html"); (str "cookie", str "a=1")]; guard := GNone |}.

Lemma sample_unique : unique (headers sample_headers).
Proof. apply (bool_decide_unpack _). vm_compute. exact I. Qed.

Definition sample_value : list Z := str "b=2 ".

Lemma sample_acceptable : acceptable sample_value.
Proof. split_and!; [solve_ascii|vm_compute; done..]. Qed.

Definition sample_prop (k v : string) : @own_prop Empty_set Empty_set :=
  {| p_key := KString (str k); p_desc := Ok (Some true); p_value := Ok (VString (str v)) |}.

(** A record whose keys differ only in case gives two entries of one name, of
    which [get] sees the first; appending the same pairs combines them. *)
Example record_keys_not_combined :
  (let? h := sfrom (IRecord (Ok [sample_prop "A" "1"; sample_prop "a" "2"])) GNone in get h (str "a"))
    = Ok (Some (str "1")) /\
  (let? h := sappend {| headers := []; guard := GNone |} (str "A") (VString (str "1")) in
   let? h := sappend h (str "a") (VString (str "2")) in get h (str "a"))
    = Ok (Some (str "1, 2")).
Proof. split; vm_compute; reflexivity. Qed.

(** A list of pairs keeps the blanks around a value; [append] strips them. *)
Example array_values_not_normalized :
  (let? h := sfrom (IArray [Ok (EArray [VString (str "a"); VString (str " x ")])]) GNone in
   get h (str "a")) = Ok (Some (str " x ")) /\
  (let? h := sappend {| headers := []; guard := GNone |} (str "a") (VString (str " x ")) in
   get h (str "a")) = Ok (Some (str "x")).
Proof. split; vm_compute; reflexivity. Qed.

Lemma headers_reachable_safe_witness :
  is_forbidden_request_header (str "x-http-method") = false /\
  is_forbidden_method_override (str "x-http-method") (str "GET, PUT") = false.
Proof.
  assert (Ht : forall s, text (str s) -> coerced_text sample_number sample_coerced (VString (str s))).
  { intros s H t [= <-]. exact H. }
  pose proof (headers_reachable_safe sample_number sample_coerced
    {| headers := [(str "x-http-method", str "GET, PUT")]; guard := GRequest |}
    (str "x-http-method") (str "GET, PUT")) as H.
  apply H; [|by left|done].
  eapply (reach_append _ _ {| headers := [(str "x-http-method", str "GET")]; guard := GRequest |}
            (str "X-HTTP-Method") (VString (str "PUT"))); [|apply Ht; solve_ascii|vm_compute; reflexivity].
  eapply (reach_append _ _ {| headers := []; guard := GRequest |}
            (str "X-HTTP-Method") (VString (str "GET"))); [|apply Ht; solve_ascii|vm_compute; reflexivity].
  by apply (reach_new _ _ (IPrimitive VUndefined) GRequest).
Defined.

Lemma headers_set_get_witness :
  exists h', sset sample_headers (str "Cookie") (VString sample_value) = Ok h' /\
    get h' (str "COOKIE") = Ok (Some (str "b=2")).
Proof.
  destruct (headers_set_get sample_number sample_coerced sample_headers (str "Cookie") sample_value)
    as (h' & H & _ & Hget & _);
    [apply sample_unique|done|vm_compute; done|apply sample_acceptable|].
  exists h'. split; [exact H|]. exact Hget.
Defined.

Lemma headers_append_get_witness :
  exists h', sappend sample_headers (str "Cookie") (VString sample_value) = Ok h' /\
    get h' (str "cookie") = Ok (Some (str "a=1; b=2")).
Proof.
  destruct (headers_append_get sample_number sample_coerced sample_headers (str "Cookie") sample_value
              (Some (str "a=1"))) as (h' & H & _ & Hget & _);
    [apply sample_unique|done|apply sample_acceptable|vm_compute; done|].
  exists h'. split; [exact H|]. exact Hget.
Defined.

Lemma headers_delete_get_witness :
  exists h', delete sample_headers (str "Cookie") = Ok h' /\ has h' (str "cookie") = Ok false.
Proof.
  destruct (headers_delete_get sample_headers (str "Cookie")) as (h' & H & _ & _ & Hhas & _);
    [apply sample_unique|done|vm_compute; done|].
  exists h'. split; [exact H|]. exact Hhas.
Defined.

Lemma normalize_header_value_correct_witness :
  exists t, normalize_header_value_inplace (str " a  b ") = (t, Ok tt) /\ field_content t.
Proof.
  destruct (normalize_header_value_correct (str " a  b ")) as (t & H & Hc & _); [solve_ascii|].
  exists t. split; [exact H|]. destruct Hc as [-> |Hc]; [|exact Hc].
  vm_compute in H. discriminate H.
Defined.

Lemma headers_from_http_witness :
  get (from_http_headers [(str "via", [str "a"; str "b"])] GImmutable) (str "Via") =
  Ok (Some (str "a, b")).
Proof.
  apply (headers_from_http [(str "via", [str "a"; str "b"])] GImmutable (str "Via") [str "a"; str "b"]).
  - apply NoDup_singleton.
  - by left.
  - done.
  - vm_compute. done.
Defined.
