(* ===== verification/Utf16.v ===== *)
(** * UTF-16 as the Rust standard library handles it

    [str::encode_utf16], [String::from_utf16] and [String::from_utf16_lossy]
    on 16-bit units, and the byte orders of [u16]. *)
From stdpp Require Import base list numbers.
From Stdlib Require Import ZArith Lia.
From S2P Require Import Prelude Utf8.
Open Scope Z_scope.

Definition is_high (u : Z) : bool := in_range 0xD800 0xDBFF u.
Definition is_low (u : Z) : bool := in_range 0xDC00 0xDFFF u.

(** [char::encode_utf16]. *)
Definition utf16_units (c : Z) : list Z :=
  if c <? 0x10000 then [c]
  else [0xD800 + (c - 0x10000) / 0x400; 0xDC00 + (c - 0x10000) mod 0x400].

Definition encode_utf16 (cs : list Z) : list Z := concat (utf16_units <$> cs).

(** [char::decode_utf16]: [None] is an unpaired surrogate; the unit after it
    is decoded on its own. *)
Fixpoint decode_utf16 (us : list Z) : list (option Z) :=
  match us with
  | [] => []
  | u :: rest =>
      if is_low u then None :: decode_utf16 rest
      else if is_high u then
        match rest with
        | v :: rest' =>
            if is_low v
            then Some (0x10000 + (u - 0xD800) * 0x400 + (v - 0xDC00)) :: decode_utf16 rest'
            else None :: decode_utf16 rest
        | [] => [None]
        end
      else Some u :: decode_utf16 rest
  end.

(** [String::from_utf16_lossy]. *)
Definition from_utf16_lossy (us : list Z) : list Z :=
  encode_all (default REPLACEMENT <$> decode_utf16 us).

(** [String::from_utf16]. *)
Definition from_utf16 (us : list Z) : option (list Z) :=
  if bool_decide (Forall is_Some (decode_utf16 us)) then Some (encode_all (omap id (decode_utf16 us)))
  else None.

Definition to_le_bytes (u : Z) : list Z := [u mod 256; u / 256].
Definition to_be_bytes (u : Z) : list Z := [u / 256; u mod 256].

(** [bytes.as_chunks::<2>().0] read with [u16::from_le_bytes], and big-endian. *)
Fixpoint units_le (s : list Z) : list Z :=
  match s with
  | a :: b :: s' => (a + 256 * b) :: units_le s'
  | _ => []
  end.
Fixpoint units_be (s : list Z) : list Z :=
  match s with
  | a :: b :: s' => (256 * a + b) :: units_be s'
  | _ => []
  end.

Lemma decode_utf16_units c us :
  scalar c -> decode_utf16 (utf16_units c ++ us) = Some c :: decode_utf16 us.
Proof.
  intros Hc. pose proof (scalar_bounds c Hc). unfold utf16_units, scalar in *.
  destruct (Z.ltb_spec c 0x10000); cbn [app decode_utf16]; unfold is_low, is_high.
  - assert (in_range 0xDC00 0xDFFF c = false /\ in_range 0xD800 0xDBFF c = false) as [-> ->];
      [|done]. split; range_tests.
  - assert (0 <= (c - 0x10000) / 0x400 < 0x400)
      by (split; [apply Z.div_pos|apply Z.div_lt_upper_bound]; lia).
    pose proof (Z.mod_pos_bound (c - 0x10000) 0x400 ltac:(lia)).
    pose proof (Z.div_mod (c - 0x10000) 0x400 ltac:(lia)).
    assert (in_range 0xDC00 0xDFFF (0xD800 + (c - 0x10000) / 0x400) = false /\
      in_range 0xD800 0xDBFF (0xD800 + (c - 0x10000) / 0x400) = true /\
      in_range 0xDC00 0xDFFF (0xDC00 + (c - 0x10000) mod 0x400) = true) as (-> & -> & ->)
      by (split_and!; range_tests).
    f_equal. f_equal. lia.
Qed.

Lemma decode_encode_utf16 cs : Forall scalar cs -> decode_utf16 (encode_utf16 cs) = Some <$> cs.
Proof.
  induction 1 as [|c cs Hc _ IH]; [done|]. unfold encode_utf16. rewrite fmap_cons, concat_cons.
  rewrite decode_utf16_units by done. rewrite fmap_cons. by f_equal.
Qed.

Lemma from_utf16_encode cs :
  Forall scalar cs ->
  from_utf16 (encode_utf16 cs) = Some (encode_all cs) /\
  from_utf16_lossy (encode_utf16 cs) = encode_all cs.
Proof.
  intros H. unfold from_utf16, from_utf16_lossy. rewrite decode_encode_utf16 by done. split.
  - rewrite bool_decide_eq_true_2.
    + f_equal. f_equal. clear H. induction cs as [|c cs IH]; [done|]. cbn. by rewrite IH.
    + apply Forall_fmap, Forall_forall. intros x _. by exists x.
  - f_equal. rewrite <- list_fmap_compose. apply list_fmap_id.
Qed.

Lemma units_le_bytes us : units_le (concat (to_le_bytes <$> us)) = us.
Proof.
  induction us as [|u us IH]; [done|]. cbn. rewrite IH. f_equal.
  pose proof (Z.div_mod u 256 ltac:(lia)). lia.
Qed.

Lemma units_be_bytes us : units_be (concat (to_be_bytes <$> us)) = us.
Proof.
  induction us as [|u us IH]; [done|]. cbn. rewrite IH. f_equal.
  pose proof (Z.div_mod u 256 ltac:(lia)). lia.
Qed.

Lemma length_bytes16 (f : Z -> list Z) us :
  (forall u, length (f u) = 2%nat) -> (length (concat (f <$> us)) mod 2 = 0)%nat.
Proof.
  intros Hf. induction us as [|u us IH]; [done|]. rewrite fmap_cons, concat_cons, length_app, Hf.
  rewrite Nat.add_comm. change 2%nat with (1 * 2)%nat at 1. by rewrite Nat.Div0.mod_add.
Qed.
