(* ===== verification/Rfc4648.v ===== *)
(** * Hex and base64 of RFC 4648

    Reference definitions of the texts and of what they mean: hexadecimal,
    base64 with both alphabets, and the forgiving decoding of the WHATWG Infra
    standard, which ignores white space and missing padding.  The encodings
    that the crates hex_simd and base64_simd compute are stated with them
    ([Encoding.CodecLaws]); the round trips are proved here. *)
From stdpp Require Import base list numbers strings.
From Stdlib Require Import ZArith Lia.
From S2P Require Import Prelude Utf8 RustStr.
Open Scope Z_scope.

(** ** Hexadecimal *)

Definition hex_char (n : Z) : Z := if n <? 10 then 48 + n else 87 + n.
Definition hex_value (c : Z) : option Z :=
  if (48 <=? c) && (c <=? 57) then Some (c - 48)
  else if (97 <=? c) && (c <=? 102) then Some (c - 87)
  else if (65 <=? c) && (c <=? 70) then Some (c - 55)
  else None.

Fixpoint hex_of (s : list Z) : list Z :=
  match s with
  | [] => []
  | b :: s' => hex_char (b / 16) :: hex_char (b mod 16) :: hex_of s'
  end.

Fixpoint hex_read (s : list Z) : option (list Z) :=
  match s with
  | [] => Some []
  | a :: b :: s' =>
      let! x := hex_value a in
      let! y := hex_value b in
      let! r := hex_read s' in
      Some (16 * x + y :: r)
  | _ => None
  end.

Lemma hex_value_char n : 0 <= n < 16 -> hex_value (hex_char n) = Some n.
Proof.
  intros H.
  pose proof (check_range (fun n => bool_decide (hex_value (hex_char n) = Some n)) 16 eq_refl n H) as E.
  by apply bool_decide_eq_true_1 in E.
Qed.

Lemma hex_read_of s : Forall byte_ok s -> hex_read (hex_of s) = Some s.
Proof.
  induction 1 as [|b s Hb _ IH]; [done|]. unfold byte_ok in Hb. cbn [hex_of hex_read].
  rewrite !hex_value_char, IH by (Z.to_euclidean_division_equations; lia).
  f_equal. f_equal. Z.to_euclidean_division_equations; lia.
Qed.

Lemma hex_value_lower c : hex_value (to_ascii_lowercase c) = hex_value c.
Proof.
  unfold to_ascii_lowercase, in_range. destruct ((65 <=? c) && (c <=? 90)) eqn:Hc; [|done].
  unfold hex_value. case_tests; bool_to_prop; first [exfalso; lia|f_equal; lia].
Qed.

Lemma hex_read_lower s : hex_read (ascii_lowercase s) = hex_read s.
Proof.
  unfold ascii_lowercase. remember (length s) as n eqn:Hn. revert s Hn. induction (lt_wf n) as [n _ IH]. intros [|a [|b s]] ->; [done..|].
  rewrite !fmap_cons. cbn [hex_read]. by rewrite !hex_value_lower, (IH (length s)) by (done || simpl; lia).
Qed.

(** ** Base64; [url] selects the alphabet, [pad] the padding *)

Definition b64_char (url : bool) (n : Z) : Z :=
  if n <? 26 then 65 + n
  else if n <? 52 then 71 + n
  else if n <? 62 then n - 4
  else if n =? 62 then (if url then 45 else 43)
  else (if url then 95 else 47).

Definition b64_value (url : bool) (c : Z) : option Z :=
  if (65 <=? c) && (c <=? 90) then Some (c - 65)
  else if (97 <=? c) && (c <=? 122) then Some (c - 71)
  else if (48 <=? c) && (c <=? 57) then Some (c + 4)
  else if c =? (if url then 45 else 43) then Some 62
  else if c =? (if url then 95 else 47) then Some 63
  else None.

Fixpoint b64_of (url pad : bool) (s : list Z) : list Z :=
  match s with
  | [] => []
  | [a] => [b64_char url (a / 4); b64_char url (a mod 4 * 16)] ++ (if pad then [61; 61] else [])
  | [a; b] =>
      [b64_char url (a / 4); b64_char url (a mod 4 * 16 + b / 16); b64_char url (b mod 16 * 4)]
      ++ (if pad then [61] else [])
  | a :: b :: c :: s' =>
      b64_char url (a / 4) :: b64_char url (a mod 4 * 16 + b / 16) ::
      b64_char url (b mod 16 * 4 + c / 64) :: b64_char url (c mod 64) :: b64_of url pad s'
  end.

(** The last two or three characters. *)
Definition read_two (url : bool) (a b : Z) : option (list Z) :=
  let! x := b64_value url a in
  let! y := b64_value url b in
  Some [x * 4 + y / 16].
Definition read_three (url : bool) (a b c : Z) : option (list Z) :=
  let! x := b64_value url a in
  let! y := b64_value url b in
  let! z := b64_value url c in
  Some [x * 4 + y / 16; y mod 16 * 16 + z / 4].

(** [pad] demands padding; without it padding is optional. *)
Fixpoint b64_read (url pad : bool) (s : list Z) : option (list Z) :=
  match s with
  | [] => Some []
  | [a; b] => if pad then None else read_two url a b
  | [a; b; c] => if pad then None else read_three url a b c
  | a :: b :: c :: d :: s' =>
      if (d =? 61) && bool_decide (s' = []) then
        if c =? 61 then read_two url a b else read_three url a b c
      else
        let! x := b64_value url a in
        let! y := b64_value url b in
        let! z := b64_value url c in
        let! w := b64_value url d in
        let! r := b64_read url pad s' in
        Some (x * 4 + y / 16 :: y mod 16 * 16 + z / 4 :: z mod 4 * 64 + w :: r)
  | _ => None
  end.

Lemma b64_value_char url n : 0 <= n < 64 -> b64_value url (b64_char url n) = Some n.
Proof.
  intros H.
  pose proof (check_range (fun n => bool_decide (b64_value url (b64_char url n) = Some n)) 64) as E.
  apply bool_decide_eq_true_1 with (1 := E ltac:(by destruct url) n H).
Qed.

Lemma b64_char_not_pad url n : 0 <= n < 64 -> (b64_char url n =? 61) = false.
Proof. intros H. apply Z.eqb_neq. unfold b64_char. destruct url; case_tests; bool_to_prop; lia. Qed.

(** Induction over blocks of three. *)
Lemma block_ind (P : list Z -> Prop) :
  P [] -> (forall a, P [a]) -> (forall a b, P [a; b]) ->
  (forall a b c s, P s -> P (a :: b :: c :: s)) -> forall s, P s.
Proof.
  intros H0 H1 H2 H3. fix IH 1. intros [|a [|b [|c s]]]; [done|apply H1|apply H2|apply H3, IH].
Qed.

Ltac sextet :=
  rewrite ?b64_value_char, ?b64_char_not_pad
    by (Z.to_euclidean_division_equations; lia).

Lemma b64_read_of url pad s : Forall byte_ok s -> b64_read url pad (b64_of url pad s) = Some s.
Proof.
  unfold byte_ok. induction s as [|a|a b|a b c s IH] using block_ind; intros Hs.
  - done.
  - apply Forall_cons_1 in Hs as [Ha _].
    destruct pad; cbn [b64_of app b64_read Z.eqb Pos.eqb]; rewrite ?bool_decide_eq_true_2 by done;
      cbn [andb]; unfold read_two; sextet; do 2 f_equal; Z.to_euclidean_division_equations; lia.
  - apply Forall_cons_1 in Hs as [Ha Hs]. apply Forall_cons_1 in Hs as [Hb _].
    destruct pad; cbn [b64_of app b64_read]; rewrite ?bool_decide_eq_true_2 by done;
      cbn [andb Z.eqb Pos.eqb]; sextet; unfold read_three; sextet; do 2 f_equal;
      try f_equal; Z.to_euclidean_division_equations; lia.
  - apply Forall_cons_1 in Hs as [Ha Hs]. apply Forall_cons_1 in Hs as [Hb Hs].
    apply Forall_cons_1 in Hs as [Hc Hs]. cbn [b64_of b64_read]. sextet. cbn [andb].
    rewrite IH by done. do 2 f_equal; [|f_equal; [|f_equal]]; Z.to_euclidean_division_equations; lia.
Qed.

(** The standard alphabet for the URL-safe one. *)
Definition standard_byte (b : Z) : Z := if b =? 45 then 43 else if b =? 95 then 47 else b.

Lemma b64_char_standard url n :
  0 <= n < 64 -> standard_byte (b64_char url n) = b64_char false n.
Proof.
  intros H. apply Z.eqb_eq.
  apply (check_range (fun n => standard_byte (b64_char url n) =? b64_char false n) 64); [|done].
  by destruct url.
Qed.

Lemma b64_of_standard url pad s :
  Forall byte_ok s -> standard_byte <$> b64_of url pad s = b64_of false pad s.
Proof.
  unfold byte_ok. induction s as [|a|a b|a b c s IH] using block_ind; intros Hs; [done| | |].
  - apply Forall_cons_1 in Hs as [Ha _]. destruct pad; cbn [b64_of app fmap list_fmap];
      rewrite !b64_char_standard by (Z.to_euclidean_division_equations; lia); done.
  - apply Forall_cons_1 in Hs as [Ha Hs]. apply Forall_cons_1 in Hs as [Hb _].
    destruct pad; cbn [b64_of app fmap list_fmap];
      rewrite !b64_char_standard by (Z.to_euclidean_division_equations; lia); done.
  - apply Forall_cons_1 in Hs as [Ha Hs]. apply Forall_cons_1 in Hs as [Hb Hs].
    apply Forall_cons_1 in Hs as [Hc Hs]. cbn [b64_of]. rewrite !fmap_cons, IH by done.
    by rewrite !b64_char_standard by (Z.to_euclidean_division_equations; lia).
Qed.

Lemma b64_of_app url pad s t :
  (length s mod 3 = 0)%nat -> b64_of url pad (s ++ t) = b64_of url pad s ++ b64_of url pad t.
Proof.
  induction s as [|a|a b|a b c s IH] using block_ind; intros Hl; try done.
  cbn [app b64_of]. rewrite IH; [done|].
  change (length (a :: b :: c :: s)) with (3 + length s)%nat in Hl.
  rewrite Nat.add_comm in Hl. change 3%nat with (1 * 3)%nat in Hl at 1. by rewrite Nat.Div0.mod_add in Hl.
Qed.

(** Padding may be there or not when it is not demanded. *)
Lemma b64_read_padded url pad s : Forall byte_ok s -> b64_read url false (b64_of url pad s) = Some s.
Proof.
  destruct pad; [|apply b64_read_of]. intros Hs. pose proof (b64_read_of url true s Hs) as Hr. revert Hr.
  generalize (b64_of url true s). intros l. remember (length l) as n eqn:Hn. clear Hs.
  revert l s Hn. induction (lt_wf n) as [n _ IH]. intros [|a [|b [|c [|d l]]]] s ->; try done. cbn [b64_read].
  destruct ((d =? 61) && _); [done|]. do 4 (destruct (b64_value url _); [|done]).
  destruct (b64_read url true l) as [r|] eqn:E; [|done]. by rewrite (IH (length l) ltac:(simpl; lia) l r eq_refl E).
Qed.

(** ** The forgiving decoding *)

Definition forgiving_read (s : list Z) : option (list Z) :=
  b64_read false false (filter (fun b => is_ascii_whitespace b = false) s).

Lemma b64_char_no_space url n : 0 <= n < 64 -> is_ascii_whitespace (b64_char url n) = false.
Proof. intros H. unfold is_ascii_whitespace, b64_char. destruct url; case_tests; bool_to_prop; lia. Qed.

Lemma b64_of_no_space url pad s : Forall byte_ok s -> Forall (fun b => is_ascii_whitespace b = false) (b64_of url pad s).
Proof.
  unfold byte_ok. induction s as [|a|a b|a b c s IH] using block_ind; intros Hs; [constructor| | |];
    rewrite ?Forall_cons in Hs; destruct pad; cbn [b64_of app]; rewrite ?Forall_cons;
    repeat match goal with |- _ /\ _ => split end;
    try (apply b64_char_no_space; Z.to_euclidean_division_equations; lia); try done; apply IH; tauto.
Qed.
