(* ===== verification/Encoding.v ===== *)
(** * Text encodings (src/libs/llrt_encoding/src/lib.rs)

    [Encoder] and the conversions between byte strings and text.  Hex and
    base64 are done by the crates hex_simd and base64_simd: the class
    [Codecs] names their functions, and [CodecLaws] states what they compute
    with the reference definitions of [Rfc4648], for which the round trips are
    proved; [rfc4648] is the instance they make. *)
From stdpp Require Import base list numbers strings.
From Stdlib Require Import ZArith Lia.
From S2P Require Import Prelude Utf8 Utf16 Js RustStr Rfc4648.
Open Scope Z_scope.

Inductive Encoder := Hex | Base64 | Windows1252 | Utf8 | Utf16le | Utf16be.

#[export] Instance Encoder_eq_dec : EqDecision Encoder.
Proof. solve_decision. Defined.

Definition ENCODING_MAP : list (list Z * Encoder) :=
  (fun p => (str p.1, p.2)) <$>
  [ ("buffer", Utf8); ("hex", Hex); ("base64", Base64); ("unicode-1-1-utf-8", Utf8);
    ("unicode11utf8", Utf8); ("unicode20utf8", Utf8); ("utf-8", Utf8); ("utf8", Utf8);
    ("x-unicode20utf8", Utf8); ("csunicode", Utf16le); ("iso-10646-ucs-2", Utf16le);
    ("ucs-2", Utf16le); ("ucs2", Utf16le); ("unicode", Utf16le); ("unicodefeff", Utf16le);
    ("utf-16", Utf16le); ("utf-16le", Utf16le); ("utf16le", Utf16le); ("unicodefffe", Utf16be);
    ("utf-16be", Utf16be); ("ansi_x3.4-1968", Windows1252); ("ascii", Windows1252);
    ("cp1252", Windows1252); ("cp819", Windows1252); ("csisolatin1", Windows1252);
    ("ibm819", Windows1252); ("iso-8859-1", Windows1252); ("iso-ir-100", Windows1252);
    ("iso8859-1", Windows1252); ("iso88591", Windows1252); ("iso_8859-1", Windows1252);
    ("iso_8859-1:1987", Windows1252); ("l1", Windows1252); ("latin1", Windows1252);
    ("us-ascii", Windows1252); ("windows-1252", Windows1252); ("x-cp1252", Windows1252) ]%string.

(** Errors are messages; those of a library are its own. *)
Inductive enc_error :=
| Unsupported (encoding : list Z)
| OddLength
| Library.

#[export] Instance enc_error_eq_dec : EqDecision enc_error.
Proof. solve_decision. Defined.

Fixpoint map_get (key : list Z) (m : list (list Z * Encoder)) : option Encoder :=
  match m with
  | [] => None
  | (k, e) :: m' => if bool_decide (k = key) then Some e else map_get key m'
  end.

Definition from_str (encoding : list Z) : result enc_error Encoder :=
  match map_get (ascii_lowercase (trim_ascii encoding)) ENCODING_MAP with
  | Some e => Ok e
  | None => Err (Unsupported encoding)
  end.

Definition from_optional_str (encoding : option (list Z)) : result enc_error Encoder :=
  match encoding with
  | None => Ok Utf8
  | Some s => from_str s
  end.

Definition as_label (e : Encoder) : list Z :=
  str match e with
  | Hex => "hex"
  | Base64 => "base64"
  | Windows1252 => "windows-1252"
  | Utf8 => "utf-8"
  | Utf16le => "utf-16le"
  | Utf16be => "utf-16be"
  end.

(** ** The codec crates *)

Class Codecs := {
  hex_encode : list Z -> list Z;                        (* hex_simd, lower case *)
  hex_decode : list Z -> option (list Z);
  b64_encode : list Z -> list Z;                        (* base64_simd::STANDARD *)
  b64_decode : list Z -> option (list Z);
  b64_forgiving_decode : list Z -> option (list Z);
  b64url_encode : list Z -> list Z;                     (* URL_SAFE_NO_PAD *)
  b64url_decode : list Z -> option (list Z);
}.

(** The encoders write RFC 4648 (lower-case hex, padded base64, URL-safe base64
    without padding); the hex decoder reads it, and the forgiving decoder is
    that of the WHATWG Infra standard.  Of the URL-safe decoder it is assumed
    only that it reads texts without padding and spare bits like the
    reference. *)
Class CodecLaws `{Codecs} : Prop := {
  hex_encode_rfc : forall s, hex_encode s = hex_of s;
  hex_decode_rfc : forall s, hex_decode s = hex_read s;
  b64_encode_rfc : forall s, b64_encode s = b64_of false true s;
  b64_forgiving_rfc : forall s, b64_forgiving_decode s = forgiving_read s;
  b64url_encode_rfc : forall s, b64url_encode s = b64_of true false s;
  b64url_decode_rfc : forall s t, Forall byte_ok s -> t = b64_of true false s -> b64url_decode t = b64_read true false t;
}.

Section Conversions.
Context `{Codecs}.

Definition lib_result {A} (o : option A) : result enc_error A :=
  match o with
  | Some v => Ok v
  | None => Err Library
  end.

Definition bytes_to_hex (bytes : list Z) : list Z := hex_encode bytes.
Definition bytes_from_hex (hex_bytes : list Z) : result enc_error (list Z) :=
  lib_result (hex_decode hex_bytes).

(** [memchr2_iter(b'-', b'_', bytes)]: the positions of the two bytes. *)
Fixpoint url_safe_positions (i : nat) (s : list Z) : list nat :=
  match s with
  | [] => []
  | b :: s' =>
      if (b =? 45) || (b =? 95) then i :: url_safe_positions (S i) s'
      else url_safe_positions (S i) s'
  end.

(** [bytes[pos] = match bytes[pos] { .. }]; the [unreachable] arm keeps the byte. *)
Definition to_standard (bytes : list Z) (pos : nat) : list Z :=
  let b := default 0 (bytes !! pos) in
  <[pos := if b =? 45 then 43 else if b =? 95 then 47 else b]> bytes.

Definition bytes_from_b64 (bytes : list Z) : result enc_error (list Z) :=
  let positions := url_safe_positions 0 bytes in
  if bool_decide (positions = []) then lib_result (b64_forgiving_decode bytes)
  else lib_result (b64_forgiving_decode (foldl to_standard bytes positions)).

Definition bytes_from_b64_strict (bytes : list Z) : result enc_error (list Z) :=
  lib_result (b64_decode bytes).
Definition bytes_to_b64_string (bytes : list Z) : list Z := b64_encode bytes.
Definition bytes_to_b64_url_safe_string (bytes : list Z) : list Z := b64url_encode bytes.
Definition bytes_from_b64_url_safe (bytes : list Z) : result enc_error (list Z) :=
  lib_result (b64url_decode bytes).
Definition bytes_to_b64 (bytes : list Z) : list Z := b64_encode bytes.
Definition bytes_to_hex_string (bytes : list Z) : list Z := hex_encode bytes.

Definition bytes_to_utf8_string (bytes : list Z) (lossy : bool) : result enc_error (list Z) :=
  if lossy then Ok (from_utf8_lossy bytes)
  else if utf8_valid bytes then Ok bytes else Err Library.

Definition WINDOWS_1252 : list (Z * Z) :=
  [ (0x80, 0x20AC); (0x82, 0x201A); (0x83, 0x0192); (0x84, 0x201E); (0x85, 0x2026);
    (0x86, 0x2020); (0x87, 0x2021); (0x88, 0x02C6); (0x89, 0x2030); (0x8A, 0x0160);
    (0x8B, 0x2039); (0x8C, 0x0152); (0x8E, 0x017D); (0x91, 0x2018); (0x92, 0x2019);
    (0x93, 0x201C); (0x94, 0x201D); (0x95, 0x2022); (0x96, 0x2013); (0x97, 0x2014);
    (0x98, 0x02DC); (0x99, 0x2122); (0x9A, 0x0161); (0x9B, 0x203A); (0x9C, 0x0153);
    (0x9E, 0x017E); (0x9F, 0x0178) ].

Definition index_windows_1252 (byte : Z) : Z :=
  match List.find (fun p => p.1 =? byte) WINDOWS_1252 with
  | Some p => p.2
  | None => byte
  end.

Definition bytes_to_windows1252_string (bytes : list Z) : list Z :=
  encode_all (index_windows_1252 <$> bytes).

Inductive Endian := Little | Big.

Definition bytes_to_utf16_string (bytes : list Z) (endian : Endian) (lossy : bool) :
    result enc_error (list Z) :=
  let odd := negb (length bytes mod 2 =? 0)%nat in
  if negb lossy && odd then Err OddLength
  else
    let data16 := match endian with Little => units_le bytes | Big => units_be bytes end in
    let? res := if lossy then Ok (from_utf16_lossy data16) else lib_result (from_utf16 data16) in
    let last_high := match last data16 with Some u => is_high u | None => false end in
    Ok (if lossy && odd && negb last_high then res ++ utf8_encode REPLACEMENT else res).

Definition encode_to_string (e : Encoder) (bytes : list Z) (lossy : bool) : result enc_error (list Z) :=
  match e with
  | Hex => Ok (bytes_to_hex_string bytes)
  | Base64 => Ok (bytes_to_b64_string bytes)
  | Utf8 => bytes_to_utf8_string bytes lossy
  | Windows1252 => Ok (bytes_to_windows1252_string bytes)
  | Utf16le => bytes_to_utf16_string bytes Little lossy
  | Utf16be => bytes_to_utf16_string bytes Big lossy
  end.

Definition encode (e : Encoder) (bytes : list Z) : result enc_error (list Z) :=
  match e with
  | Hex => Ok (bytes_to_hex bytes)
  | Base64 => Ok (bytes_to_b64 bytes)
  | _ => Ok bytes
  end.

Definition decode (e : Encoder) (bytes : list Z) : result enc_error (list Z) :=
  match e with
  | Hex => bytes_from_hex bytes
  | Base64 => bytes_from_b64 bytes
  | _ => Ok bytes
  end.

Definition decode_from_string (e : Encoder) (s : list Z) : result enc_error (list Z) :=
  match e with
  | Hex => bytes_from_hex s
  | Base64 => bytes_from_b64 s
  | Utf8 | Windows1252 => Ok s
  | Utf16le => Ok (concat (to_le_bytes <$> encode_utf16 (chars s)))
  | Utf16be => Ok (concat (to_be_bytes <$> encode_utf16 (chars s)))
  end.
End Conversions.

(** ** Lemmas *)

Section Laws.
Context `{CodecLaws}.

(** Three bytes become four characters, independently of their neighbours. *)
Lemma b64_blocks s t : (length s mod 3 = 0)%nat -> b64_encode (s ++ t) = b64_encode s ++ b64_encode t.
Proof. rewrite !b64_encode_rfc. apply b64_of_app. Qed.

Lemma b64url_roundtrip s : Forall byte_ok s -> b64url_decode (b64url_encode s) = Some s.
Proof. intros Hs. rewrite b64url_encode_rfc, (b64url_decode_rfc s) by done. by apply b64_read_of. Qed.

(** Rewriting the positions one by one rewrites every byte. *)
Lemma to_standard_map done s :
  foldl to_standard (done ++ s) (url_safe_positions (length done) s) = done ++ (standard_byte <$> s).
Proof.
  revert done. induction s as [|b s IH]; intros d; [done|].
  cbn [url_safe_positions]. rewrite fmap_cons.
  assert (Hrest : foldl to_standard ((d ++ [standard_byte b]) ++ s) (url_safe_positions (S (length d)) s)
    = d ++ standard_byte b :: (standard_byte <$> s)).
  { replace (S (length d)) with (length (d ++ [standard_byte b])) by (rewrite length_app; simpl; lia).
    rewrite IH. by rewrite <- (assoc_L (++)). }
  destruct ((b =? 45) || (b =? 95)) eqn:E.
  - cbn [foldl]. unfold to_standard at 2. rewrite list_lookup_middle by done. cbn [default id].
    fold (standard_byte b). rewrite insert_app_r_alt, Nat.sub_diag by done. cbn [insert list_insert].
    rewrite <- (assoc_L (++)) in Hrest. exact Hrest.
  - assert (standard_byte b = b) as Hb.
    { unfold standard_byte. apply orb_false_iff in E as [-> ->]. done. }
    rewrite Hb in *. rewrite <- (assoc_L (++)) in Hrest. exact Hrest.
Qed.

(** Decoding maps the URL-safe alphabet to the standard one first. *)
Lemma bytes_from_b64_map s :
  bytes_from_b64 s = lib_result (b64_forgiving_decode (standard_byte <$> s)).
Proof.
  unfold bytes_from_b64. pose proof (to_standard_map [] s) as Hm. cbn [app length] in Hm.
  case_bool_decide as E; [|by rewrite Hm]. rewrite E in Hm. cbn [foldl] in Hm. by rewrite <- Hm.
Qed.

Lemma bytes_from_b64_reads s t pad : Forall byte_ok s ->
  filter (fun b => is_ascii_whitespace b = false) (standard_byte <$> t) = b64_of false pad s -> bytes_from_b64 t = Ok s.
Proof.
  intros Hs Ht. rewrite bytes_from_b64_map, b64_forgiving_rfc. unfold forgiving_read. rewrite Ht.
  by rewrite b64_read_padded.
Qed.

Lemma b64_of_plain url pad s : Forall byte_ok s ->
  filter (fun b => is_ascii_whitespace b = false) (standard_byte <$> b64_of url pad s) = b64_of false pad s.
Proof. intros Hs. rewrite b64_of_standard by done. apply filter_all. by apply b64_of_no_space. Qed.
End Laws.

(** ** Properties *)

(** Text written in a Unicode encoding and read back is unchanged, in
    strict and in lossy mode. *)
Theorem encoding_text_roundtrip `{Codecs} e s lossy :
  text s -> e = Utf8 \/ e = Utf16le \/ e = Utf16be ->
  exists b, decode_from_string e s = Ok b /\ encode_to_string e b lossy = Ok s.
Proof.
  intros Ht He.
  assert (H16 : forall endian (f : Z -> list Z),
    (forall u, length (f u) = 2%nat) ->
    (forall us, match endian with
                | Little => units_le (concat (f <$> us))
                | Big => units_be (concat (f <$> us)) end = us) ->
    bytes_to_utf16_string (concat (f <$> encode_utf16 (chars s))) endian lossy = Ok s).
  { intros endian f Hf Hu. unfold bytes_to_utf16_string.
    rewrite length_bytes16 by done. rewrite Hu. cbn [Nat.eqb negb andb]. rewrite andb_false_r.
    destruct (text_chars s Ht) as [Hs Hc]. destruct (from_utf16_encode _ Hc) as [E1 E2].
    destruct lossy; [rewrite E2|rewrite E1]; cbn [lib_result result_bind andb]; by rewrite Hs. }
  destruct He as [-> |[-> | ->]]; eexists; (split; [done|]); cbn [encode_to_string].
  - unfold bytes_to_utf8_string. destruct lossy; [|by rewrite text_valid].
    destruct Ht as (cs & Hcs & ->). by rewrite from_utf8_lossy_encode_all.
  - apply H16; [done|]. apply units_le_bytes.
  - apply H16; [done|]. apply units_be_bytes.
Qed.

(** C29: decoding undoes encoding for every encoder.  Hex is read in either case
    of its letters; base64 is read with or without padding, with white space
    anywhere and in the standard alphabet, the URL-safe one or a mixture. *)
Theorem encoding_binary_roundtrip `{CodecLaws} e s :
  Forall byte_ok s ->
  (exists t, encode e s = Ok t /\ decode e t = Ok s) /\
  (forall t, ascii_lowercase t = bytes_to_hex s -> decode Hex t = Ok s) /\
  (forall t pad, filter (fun b => is_ascii_whitespace b = false) (standard_byte <$> t) = b64_of false pad s ->
    decode Base64 t = Ok s) /\
  decode Base64 (bytes_to_b64_url_safe_string s) = Ok s.
Proof.
  intros Hs.
  assert (Hhex : forall t, ascii_lowercase t = bytes_to_hex s -> decode Hex t = Ok s).
  { intros t Ht. cbn [decode]. unfold bytes_from_hex. unfold bytes_to_hex in Ht.
    by rewrite hex_decode_rfc, <- hex_read_lower, Ht, hex_encode_rfc, hex_read_of. }
  assert (Hb64 : forall t pad, filter (fun b => is_ascii_whitespace b = false) (standard_byte <$> t) = b64_of false pad s ->
    decode Base64 t = Ok s) by (intros t pad; by apply bytes_from_b64_reads).
  split_and!; [|done..|].
  - destruct e; eexists; (split; [done|]); cbn [decode]; try done.
    + unfold bytes_from_hex, bytes_to_hex. by rewrite hex_decode_rfc, hex_encode_rfc, hex_read_of.
    + apply (Hb64 _ true). unfold bytes_to_b64. rewrite b64_encode_rfc. by apply b64_of_plain.
  - apply (Hb64 _ false). unfold bytes_to_b64_url_safe_string. rewrite b64url_encode_rfc. by apply b64_of_plain.
Qed.

(** An encoding label is recognised in any ASCII case and with blanks
    around it, and the label an encoder reports names that encoder. *)
Theorem encoding_labels e pre post s t :
  from_str (as_label e) = Ok e /\
  (forallb is_ascii_whitespace pre = true -> forallb is_ascii_whitespace post = true ->
   ascii_lowercase s = ascii_lowercase t -> from_str t = Ok e -> from_str (pre ++ s ++ post) = Ok e).
Proof.
  split; [by destruct e; vm_compute|]. intros Hpre Hpost Hl. unfold from_str, trim_ascii.
  rewrite trim_matches_pad by done.
  assert (Hlow : forall u, ascii_lowercase (trim_matches is_ascii_whitespace u) =
    trim_matches is_ascii_whitespace (ascii_lowercase u)).
  { intros u. unfold ascii_lowercase. rewrite trim_matches_fmap; [done|apply lower_whitespace]. }
  rewrite !Hlow, Hl. by destruct (map_get _ _).
Qed.

(** ** The instance of RFC 4648 *)

#[export] Instance rfc4648 : Codecs := {|
  hex_encode := hex_of;
  hex_decode := hex_read;
  b64_encode := b64_of false true;
  b64_decode := b64_read false true;
  b64_forgiving_decode := forgiving_read;
  b64url_encode := b64_of true false;
  b64url_decode := b64_read true false;
|}.

#[export] Instance rfc4648_laws : CodecLaws.
Proof. split; done. Qed.

(** ** Concrete runs of the encoding component *)

Lemma encoding_text_roundtrip_witness :
  exists b, decode_from_string Utf16le (str "h" ++ [240; 159; 146; 169]) = Ok b /\
    encode_to_string Utf16le b false = Ok (str "h" ++ [240; 159; 146; 169]).
Proof.
  apply (encoding_text_roundtrip Utf16le); [|by right; left].
  exists [104; 0x1F4A9]. split; [|by vm_compute].
  repeat constructor; unfold scalar; lia.
Defined.

Lemma encoding_binary_roundtrip_witness :
  (exists t, encode Base64 [251; 255; 1; 2] = Ok t /\ decode Base64 t = Ok [251; 255; 1; 2]) /\
  decode Base64 (str "-/8B Ag") = Ok [251; 255; 1; 2] /\ decode Hex (str "fBff0102") = Ok [251; 255; 1; 2].
Proof.
  destruct (encoding_binary_roundtrip Base64 [251; 255; 1; 2]) as (Hr & Hh & Hb & _);
    [unfold byte_ok; repeat constructor; lia|].
  split; [exact Hr|]. split; [apply (Hb _ false); reflexivity|apply Hh; reflexivity].
Defined.

Lemma encoding_labels_witness :
  from_str (str " UTF-8") = Ok Utf8.
Proof.
  apply (proj2 (encoding_labels Utf8 (str " ") [] (str "UTF-8") (str "utf-8"))); vm_compute; done.
Defined.
