(* ===== verification/StringDecoder.v ===== *)
(** * StringDecoder (src/modules/llrt_string_decoder/src/string_decoder.rs)

    Decoding of a byte stream that arrives in chunks: the bytes of a character
    cut by a chunk boundary wait in a buffer until the next chunk.  The
    counters are [usize]; every subtraction of the code is of a smaller
    number, so natural subtraction is exact. *)
From stdpp Require Import base list numbers strings.
From Stdlib Require Import ZArith Lia.
From S2P Require Import Prelude Utf8 Utf16 Js Encoding Rfc4648.
Open Scope Z_scope.

Record StringDecoder := mkDecoder {
  encoder : Encoder;
  buffer : list Z;
  buffered_bytes : nat;
  missing_bytes : nat;
}.

(** [Some i] for the first byte that satisfies the test. *)
Fixpoint first_index (p : Z -> bool) (s : list Z) : option nat :=
  match s with
  | [] => None
  | b :: s' => if p b then Some 0%nat else S <$> first_index p s'
  end.

Definition not_continuation (b : Z) : bool := negb (Z.land b 0xC0 =? 0x80).
Definition high_surrogate_byte (b : Z) : bool := Z.land b 0xFC =? 0xD8.

(** Length that the upper bits of a lead byte announce. *)
Definition announced (b : Z) : option nat :=
  if Z.land b 0xE0 =? 0xC0 then Some 2%nat
  else if Z.land b 0xF0 =? 0xE0 then Some 3%nat
  else if Z.land b 0xF8 =? 0xF0 then Some 4%nat
  else None.

Definition byte_at (data : list Z) (i : nat) : Z := default 0 (data !! i).

Section Decoder.
Context `{Codecs}.

Definition make_string (d : StringDecoder) (data : list Z) : result js_error (list Z) :=
  match encode_to_string (encoder d) data true with
  | Ok s => Ok s
  | Err _ => Err (InternalError "Encoding error")
  end.

(** The alignment treatment when a character is to be finished: the decoder
    and the data that remain to be looked at. *)
Definition align (d : StringDecoder) (data : list Z) : StringDecoder * list Z :=
  match encoder d with
  | Utf8 =>
      match first_index not_continuation (take (missing_bytes d) data) with
      | Some i =>
          ({| encoder := encoder d; buffer := buffer d ++ take i data;
              buffered_bytes := buffered_bytes d + i; missing_bytes := 0 |}, drop i data)
      | None => (d, data)
      end
  | Utf16le =>
      match first_index high_surrogate_byte (take (missing_bytes d) data) with
      | Some _ =>
          ({| encoder := encoder d; buffer := buffer d; buffered_bytes := buffered_bytes d;
              missing_bytes := 3 |}, data)
      | None => (d, data)
      end
  | _ => (d, data)
  end.

(** Take the missing bytes from the data; when none is missing any more, the
    buffered character is decoded. *)
Definition finish_char (d : StringDecoder) (data : list Z) :
    result js_error (list Z * StringDecoder * list Z) :=
  let found_bytes := Nat.min (length data) (missing_bytes d) in
  let buf := buffer d ++ take found_bytes data in
  let missing := (missing_bytes d - found_bytes)%nat in
  let d1 := {| encoder := encoder d; buffer := buf;
               buffered_bytes := buffered_bytes d + found_bytes; missing_bytes := missing |} in
  let data := drop found_bytes data in
  if (missing =? 0)%nat then
    let? result := make_string d1 buf in
    Ok (result, {| encoder := encoder d; buffer := []; buffered_bytes := 0; missing_bytes := 0 |}, data)
  else Ok ([], d1, data).

(** The backward scan for a character cut off at the end of the data, from
    index [i]; the buffer, the buffered and the missing bytes. *)
Fixpoint utf8_tail (data : list Z) (i : nat) (buf : list Z) (buffered missing : nat) :
    list Z * nat * nat :=
  let buffered := (buffered + 1)%nat in
  let byte := byte_at data i in
  if negb (not_continuation byte) then
    match i with
    | O => ([], 0%nat, missing)
    | S i' => if (4 <=? buffered)%nat then ([], 0%nat, missing)
              else utf8_tail data i' buf buffered missing
    end
  else
    match announced byte with
    | None => (buf, 0%nat, missing)
    | Some n => if (n <=? buffered)%nat then (buf, 0%nat, 0%nat) else (buf, buffered, (n - buffered)%nat)
    end.

(** How much of non-empty data is kept back for the next chunk. *)
Definition cut_off (d : StringDecoder) (data : list Z) : StringDecoder :=
  let len := length data in
  let set_counts (b m : nat) :=
    {| encoder := encoder d; buffer := buffer d; buffered_bytes := b; missing_bytes := m |} in
  match encoder d with
  | Utf8 =>
      if negb (Z.land (byte_at data (len - 1)) 0x80 =? 0) then
        let '(buf, b, m) := utf8_tail data (len - 1) (buffer d) (buffered_bytes d) (missing_bytes d) in
        {| encoder := encoder d; buffer := buf; buffered_bytes := b; missing_bytes := m |}
      else d
  | Utf16le =>
      if (len mod 2 =? 1)%nat then
        if (3 <=? len)%nat && high_surrogate_byte (byte_at data (len - 2)) then set_counts 3%nat 1%nat
        else set_counts 1%nat 1%nat
      else if high_surrogate_byte (byte_at data (len - 1)) then set_counts 2%nat 2%nat
      else d
  | Base64 =>
      let b := (len mod 3)%nat in
      set_counts b (if (0 <? b)%nat then (3 - b)%nat else missing_bytes d)
  | _ => d
  end.

(** The part of [decode_data] after a waiting character was dealt with; the
    text [res] of that character comes first. *)
Definition decode_body (res : list Z) (d : StringDecoder) (data : list Z) :
    result js_error (list Z * StringDecoder) :=
  if bool_decide (data = []) then Ok (res, d)
  else
    let d := cut_off d data in
    let keep := (length data - buffered_bytes d)%nat in
    let '(d, data) :=
      if (0 <? buffered_bytes d)%nat then
        ({| encoder := encoder d; buffer := buffer d ++ drop keep data;
            buffered_bytes := buffered_bytes d; missing_bytes := missing_bytes d |},
         take keep data)
      else (d, data) in
    if bool_decide (data = []) then Ok (res, d)
    else
      let? s := make_string d data in
      Ok (res ++ s, d).

Definition decode_data (d : StringDecoder) (data : list Z) : result js_error (list Z * StringDecoder) :=
  match encoder d with
  | Utf8 | Utf16le | Base64 =>
      if (0 <? missing_bytes d)%nat then
        let '(d, data) := align d data in
        let? (result, d, data) := finish_char d data in
        decode_body result d data
      else decode_body [] d data
  | _ => let? s := make_string d data in Ok (s, d)
  end.

Definition flush (d : StringDecoder) : result js_error (list Z * StringDecoder) :=
  let odd := bool_decide (encoder d = Utf16le) && (buffered_bytes d mod 2 =? 1)%nat in
  let missing := (if odd then missing_bytes d - 1 else missing_bytes d)%nat in
  let buffered := (if odd then buffered_bytes d - 1 else buffered_bytes d)%nat in
  if (buffered =? 0)%nat then
    Ok ([], {| encoder := encoder d; buffer := buffer d; buffered_bytes := buffered;
               missing_bytes := missing |})
  else
    let decode_len := (length (buffer d) - (if odd then 1 else 0))%nat in
    let? res := make_string d (take decode_len (buffer d)) in
    let code_unit := byte_at (buffer d) (decode_len - 2) + 256 * byte_at (buffer d) (decode_len - 1) in
    let res := if odd && (2 <=? decode_len)%nat && is_high code_unit
               then res ++ utf8_encode REPLACEMENT else res in
    Ok (res, {| encoder := encoder d; buffer := []; buffered_bytes := 0; missing_bytes := 0 |}).

(** The message of the source also repeats the label. *)
Definition new (encoding : option (list Z)) : result js_error StringDecoder :=
  match from_str (default (str "utf-8") encoding) with
  | Ok e => Ok {| encoder := e; buffer := []; buffered_bytes := 0; missing_bytes := 0 |}
  | Err _ => Err (TypeError "Unknown encoding")
  end.

Definition encoding (d : StringDecoder) : list Z := as_label (encoder d).

(** [write]; [None] is a detached buffer. *)
Definition write (d : StringDecoder) (buf : option (list Z)) : result js_error (list Z * StringDecoder) :=
  match buf with
  | None => Err (ErrorMsg "Buffer has already been used")
  | Some data => decode_data d data
  end.

Definition end_ (d : StringDecoder) (buf : option (list Z)) : result js_error (list Z * StringDecoder) :=
  match buf with
  | Some data =>
      let? (output, d) := decode_data d data in
      let? (fl, d) := flush d in
      Ok (output ++ fl, d)
  | None => flush d
  end.

(** A whole stream: the chunks written one after the other, then [end]. *)
Fixpoint write_all (d : StringDecoder) (chunks : list (list Z)) :
    result js_error (list Z * StringDecoder) :=
  match chunks with
  | [] => Ok ([], d)
  | c :: chunks' =>
      let? (o, d) := write d (Some c) in
      let? (os, d) := write_all d chunks' in
      Ok (o ++ os, d)
  end.

Definition decode_stream (d : StringDecoder) (chunks : list (list Z)) : result js_error (list Z) :=
  let? (o, d) := write_all d chunks in
  let? (e, _) := end_ d None in
  Ok (o ++ e).
End Decoder.

(** ** UTF-8 streams *)

Lemma byte_range (f : Z -> bool) :
  forallb f (seqZ 0 256) = true -> forall b, byte_ok b -> f b = true.
Proof. intros H b Hb. by apply (check_range f 256). Qed.

Lemma not_continuation_range b : byte_ok b -> not_continuation b = negb (is_cont b).
Proof.
  intros Hb. apply eqb_prop.
  by apply (byte_range (fun b => Bool.eqb (not_continuation b) (negb (is_cont b)))).
Qed.

Lemma announced_lead b :
  byte_ok b -> (2 <= lead_width b)%nat -> announced b = Some (lead_width b) /\ is_cont b = false.
Proof.
  intros Hb Hw.
  pose proof (byte_range (fun b => negb (2 <=? lead_width b)%nat ||
    (bool_decide (announced b = Some (lead_width b)) && negb (is_cont b)))) as H.
  specialize (H eq_refl b Hb). cbv beta in H. rewrite (proj2 (Nat.leb_le _ _) Hw) in H. cbn [negb orb] in H.
  apply andb_true_iff in H as [H1 H2]. apply bool_decide_eq_true in H1. by apply negb_true_iff in H2.
Qed.

(** The bytes of a character that is not ASCII. *)
Lemma encode_shape c :
  scalar c -> 128 <= c ->
  exists lead conts, utf8_encode c = lead :: conts /\
    announced lead = Some (S (length conts)) /\ not_continuation lead = true /\
    Forall (fun b => not_continuation b = false) conts /\ (1 <= length conts <= 3)%nat.
Proof.
  intros Hs Hc. pose proof (scalar_bounds c Hs). pose proof (utf8_encode_byte_ok c Hs) as Hok.
  assert (Hcont : forall x, not_continuation (128 + x mod 64) = false).
  { intros x. rewrite not_continuation_range, cont_ok; [done|].
    pose proof (Z.mod_pos_bound x 64 ltac:(lia)). unfold byte_ok. lia. }
  assert (Hlead : forall lead n, byte_ok lead -> (2 <= n)%nat -> lead_width lead = n ->
    announced lead = Some n /\ not_continuation lead = true).
  { intros b n Hb Hw <-. rewrite not_continuation_range by done.
    by destruct (announced_lead b Hb Hw) as [-> ->]. }
  unfold utf8_encode in *. rewrite (proj2 (Z.ltb_ge c 0x80)) in * by lia.
  destruct (Z.ltb_spec c 0x800); [|destruct (Z.ltb_spec c 0x10000)];
    apply Forall_cons_1 in Hok as [Hb _]; eexists _, _; (split; [reflexivity|]).
  - destruct (Hlead (192 + c / 64) 2%nat) as [-> ->]; [done|lia| |].
    { assert (2 <= c / 64 < 32) by (split; [apply Z.div_le_lower_bound|apply Z.div_lt_upper_bound]; lia).
      unfold lead_width. range_tests. }
    cbn [length]. split_and!; auto; lia.
  - destruct (Hlead (224 + c / 4096) 3%nat) as [-> ->]; [done|lia| |].
    { assert (0 <= c / 4096 < 16) by (split; [apply Z.div_pos|apply Z.div_lt_upper_bound]; lia).
      unfold lead_width. range_tests. }
    cbn [length]. split_and!; auto; lia.
  - destruct (Hlead (240 + c / 262144) 4%nat) as [-> ->]; [done|lia| |].
    { assert (0 <= c / 262144 <= 4).
      { split; [apply Z.div_pos; lia|]. apply Z.lt_succ_r, Z.div_lt_upper_bound; lia. }
      unfold lead_width. range_tests. }
    cbn [length]. split_and!; auto; lia.
Qed.

(** A character cut by the chunk boundary: the part that came, the part that
    is missing. *)
Definition pending (part rest : list Z) : Prop :=
  (part = [] /\ rest = []) \/
  (part <> [] /\ rest <> [] /\ exists c, scalar c /\ part ++ rest = utf8_encode c).

(** The decoder that waits for [rest] after [part]. *)
Definition waiting (part rest : list Z) : StringDecoder :=
  {| encoder := Utf8; buffer := part; buffered_bytes := length part; missing_bytes := length rest |}.

Lemma pending_shape part rest :
  pending part rest -> part <> [] ->
  exists lead conts c, part = lead :: conts /\ scalar c /\ utf8_encode c = part ++ rest /\
    announced lead = Some (length part + length rest)%nat /\ not_continuation lead = true /\
    Forall (fun b => not_continuation b = false) (conts ++ rest) /\
    (length conts + length rest <= 3)%nat.
Proof.
  intros [[-> _]|(Hp & Hr & c & Hc & E)] Hne; [done|].
  destruct (Z.lt_ge_cases c 128) as [Hlt|Hge].
  { rewrite (utf8_encode_low c Hlt) in E. destruct part as [|? [|? ?]]; try done.
    destruct rest; done. }
  destruct (encode_shape c Hc Hge) as (lead & conts & E' & Ha & Hn & Hf & Hl).
  destruct part as [|x part]; [done|]. rewrite E' in E. injection E as -> E.
  exists lead, part, c. rewrite E. rewrite <- E in Ha, Hl. rewrite length_app in Ha, Hl.
  split_and!; [done|done|by rewrite E', <- E|by rewrite Ha|done|done|lia].
Qed.

(** Where a chunk boundary falls in a text. *)
Lemma split_text cs data future :
  Forall scalar cs -> data ++ future = encode_all cs ->
  exists before part rest after, data = encode_all before ++ part /\
    future = rest ++ encode_all after /\ pending part rest /\
    Forall scalar before /\ Forall scalar after.
Proof.
  intros Hcs. revert data. induction Hcs as [|c cs Hc Hcs IH]; intros data E.
  { apply app_eq_nil in E as [-> ->]. exists [], [], [], []. split_and!; try done. by left. }
  rewrite encode_all_cons in E. destruct (decide (length data < length (utf8_encode c))%nat) as [Hl|Hl].
  - destruct data as [|b data].
    { exists [], [], [], (c :: cs). split_and!; try done; [by left|by constructor]. }
    apply app_eq_inv in E as [(k & E1 & E2)|(k & E1 & E2)].
    + rewrite E1, length_app in Hl. lia.
    + exists [], (b :: data), k, cs. split_and!; try done. right. split_and!; [done| |eauto].
      intros ->. rewrite app_nil_r in E1. rewrite E1 in Hl. lia.
  - apply app_eq_inv in E as [(k & E1 & E2)|(k & E1 & E2)].
    2: { rewrite E1, length_app in Hl. assert (k = []) as ->.
      { destruct k; [done|]. simpl in Hl. lia. }
      rewrite app_nil_r in E1. exists [c], [], [], cs. rewrite app_nil_r, encode_all_cons, app_nil_r.
      split_and!; try done; [by left|by constructor]. }
    destruct (IH k (eq_sym E2)) as (before & part & rest & after & -> & -> & Hp & Hb & Ha).
    exists (c :: before), part, rest, after. rewrite encode_all_cons, <- (assoc_L (++)).
    split_and!; try done. by constructor.
Qed.

Lemma utf8_tail_lead data i lead n buf b m :
  not_continuation lead = true -> announced lead = Some n -> byte_at data i = lead ->
  utf8_tail data i buf b m =
  if (n <=? b + 1)%nat then (buf, 0%nat, 0%nat) else (buf, (b + 1)%nat, (n - (b + 1))%nat).
Proof. intros Hl Ha E. destruct i; cbn [utf8_tail]; by rewrite E, Hl, Ha. Qed.

(** The backward scan stops at the lead byte before the trailing ones. *)
Lemma utf8_tail_scan x lead conts n j m :
  not_continuation lead = true -> Forall (fun b => not_continuation b = false) conts ->
  (length conts <= 3)%nat -> announced lead = Some n -> (j <= length conts)%nat ->
  let total := S (length conts) in
  utf8_tail (x ++ lead :: conts) (length x + j) [] (length conts - j) m =
  if (n <=? total)%nat then ([], 0%nat, 0%nat) else ([], total, (n - total)%nat).
Proof.
  intros Hlead Hconts Hl Ha. induction j as [|j IH]; intros Hj total.
  - rewrite Nat.add_0_r, Nat.sub_0_r. rewrite (utf8_tail_lead _ _ lead n); [|done..|].
    + unfold total. by rewrite Nat.add_1_r.
    + unfold byte_at. by rewrite list_lookup_middle.
  - rewrite Nat.add_succ_r. cbn [utf8_tail]. unfold byte_at.
    rewrite lookup_app_r by lia. replace (S (length x + j) - length x)%nat with (S j) by lia.
    change ((lead :: conts) !! S j) with (conts !! j). destruct (lookup_lt_is_Some_2 conts j) as [b Hb]; [lia|].
    rewrite Hb. cbn [default id]. rewrite (Forall_lookup_1 _ _ _ _ Hconts Hb). cbn [negb].
    rewrite (proj2 (Nat.leb_gt _ _)) by lia.
    replace (length conts - S j + 1)%nat with (length conts - j)%nat by lia. apply IH. lia.
Qed.

Lemma high_bit b : byte_ok b -> (Z.land b 0x80 =? 0) = (b <? 128).
Proof.
  intros Hb. apply eqb_prop.
  by apply (byte_range (fun b => Bool.eqb (Z.land b 0x80 =? 0) (b <? 128))).
Qed.

Lemma byte_at_last x s b : byte_at (x ++ s ++ [b]) (length (x ++ s ++ [b]) - 1) = b.
Proof.
  unfold byte_at. rewrite (assoc_L (++)), length_app. cbn [length].
  replace (length (x ++ s) + 1 - 1)%nat with (length (x ++ s)) by lia.
  by rewrite list_lookup_middle.
Qed.

(** What [cut_off] keeps back at the end of lead and trailing bytes. *)
Lemma cut_off_tail x lead conts n :
  not_continuation lead = true -> Forall (fun b => not_continuation b = false) conts ->
  (length conts <= 3)%nat -> announced lead = Some n -> (S (length conts) <= n)%nat ->
  Forall byte_ok (lead :: conts) -> Forall (fun b => 128 <= b) (lead :: conts) ->
  cut_off (waiting [] []) (x ++ lead :: conts) =
  let total := S (length conts) in
  if (n <=? total)%nat then waiting [] []
  else {| encoder := Utf8; buffer := []; buffered_bytes := total; missing_bytes := n - total |}.
Proof.
  intros Hlead Hconts Hl Ha Hn Hok Hhigh.
  assert (Hlast : exists s b, lead :: conts = s ++ [b] /\ byte_ok b /\ 128 <= b).
  { destruct (exists_last (l := lead :: conts) ltac:(done)) as (s & b & E).
    rewrite E in Hok, Hhigh. apply Forall_app in Hok as [_ Hok], Hhigh as [_ Hhigh].
    apply Forall_cons_1 in Hok as [? _], Hhigh as [? _]. eauto. }
  destruct Hlast as (s & b & E & Hb & Hb').
  assert (Hbyte : byte_at (x ++ lead :: conts) (length (x ++ lead :: conts) - 1) = b).
  { rewrite E. apply byte_at_last. }
  unfold cut_off. cbn [encoder waiting]. rewrite Hbyte, high_bit by done.
  rewrite (proj2 (Z.ltb_ge b 128)) by done. cbn [negb].
  assert (Hi : (length (x ++ lead :: conts) - 1 = length x + length conts)%nat).
  { rewrite length_app. simpl. lia. }
  rewrite Hi. cbn [waiting buffer buffered_bytes missing_bytes length].
  pose proof (utf8_tail_scan x lead conts n (length conts) 0 Hlead Hconts Hl Ha ltac:(lia)) as Hs.
  rewrite Nat.sub_diag in Hs. rewrite Hs. cbv zeta. by destruct (n <=? _)%nat.
Qed.

Lemma pending_high part rest :
  pending part rest -> Forall (fun b => 128 <= b) part /\ Forall byte_ok part.
Proof.
  intros Hp. destruct (decide (part = [])) as [->|Hne]; [done|].
  destruct (pending_shape _ _ Hp Hne) as (lead & conts & c & E & Hc & Ec & Ha & _).
  pose proof (utf8_encode_byte_ok c Hc) as Hok. rewrite Ec in Hok. apply Forall_app in Hok as [Hok _].
  split; [|done].
  assert (Hge : 128 <= c).
  { apply Z.nlt_ge. intros Hlt. rewrite utf8_encode_low in Ec by done.
    destruct Hp as [[? _]|(_ & Hr & _)]; [done|]. destruct part as [|? [|? ?]], rest; done. }
  pose proof (utf8_encode_high c Hc Hge) as Hh. rewrite Ec in Hh. by apply Forall_app in Hh as [? _].
Qed.

(** At the end of a chunk exactly the cut character is kept back. *)
Lemma cut_off_text before part rest :
  Forall scalar before -> pending part rest -> encode_all before ++ part <> [] ->
  cut_off (waiting [] []) (encode_all before ++ part) =
  {| encoder := Utf8; buffer := []; buffered_bytes := length part; missing_bytes := length rest |}.
Proof.
  intros Hb Hp Hne. destruct (decide (part = [])) as [->|Hpart].
  - destruct Hp as [[_ ->]|(? & _)]; [|done]. rewrite app_nil_r in *.
    destruct (exists_last (l := before)) as (cs & c & ->); [by intros ->|].
    apply Forall_app in Hb as [_ Hc%Forall_cons_1]. destruct Hc as [Hc _].
    rewrite encode_all_app, encode_all_cons, app_nil_r.
    destruct (Z.lt_ge_cases c 128) as [Hlt|Hge].
    + rewrite utf8_encode_low by done. unfold cut_off. cbn [encoder waiting].
      change (encode_all cs ++ [c]) with (encode_all cs ++ [] ++ [c]).
      rewrite (byte_at_last (encode_all cs) [] c), high_bit.
      * rewrite (proj2 (Z.ltb_lt c 128)) by done. done.
      * apply scalar_bounds in Hc. unfold byte_ok. lia.
    + destruct (encode_shape c Hc Hge) as (lead & conts & E & Ha & Hn & Hf & Hl).
      pose proof (utf8_encode_byte_ok c Hc) as Hok. pose proof (utf8_encode_high c Hc Hge) as Hh.
      rewrite E in *. erewrite cut_off_tail; try done; try lia. cbv zeta. by rewrite Nat.leb_refl.
  - destruct (pending_high _ _ Hp) as [Hh Hok].
    assert (Hr : rest <> []) by (by destruct Hp as [[? _]|(_ & ? & _)]).
    destruct (pending_shape _ _ Hp Hpart) as (lead & conts & c & -> & Hc & Ec & Ha & Hn & Hf & Hl).
    apply Forall_app in Hf as [Hf _]. destruct rest as [|r rest]; [done|]. cbn [length] in *.
    erewrite cut_off_tail; try done; try lia. cbv zeta. rewrite (proj2 (Nat.leb_gt _ _)) by lia.
    f_equal. lia.
Qed.

Section Utf8Stream.
Context `{Codecs}.

Lemma make_string_utf8 d cs :
  encoder d = Utf8 -> Forall scalar cs -> make_string d (encode_all cs) = Ok (encode_all cs).
Proof.
  intros He Hcs. unfold make_string. rewrite He. cbn [encode_to_string bytes_to_utf8_string].
  by rewrite from_utf8_lossy_encode_all.
Qed.

Lemma decode_body_text res before part rest :
  Forall scalar before -> pending part rest ->
  decode_body res (waiting [] []) (encode_all before ++ part) =
  Ok (res ++ encode_all before, waiting part rest).
Proof.
  intros Hb Hp. unfold decode_body. case_bool_decide as E.
  { apply app_eq_nil in E as [E ->]. rewrite E, app_nil_r.
    destruct Hp as [[_ ->]|(? & _)]; done. }
  rewrite (cut_off_text _ _ rest) by done. cbn [encoder buffer buffered_bytes missing_bytes].
  rewrite length_app, Nat.add_sub.
  rewrite take_app_length, drop_app_length. cbn [app].
  destruct part as [|b part]; cbn [length Nat.ltb Nat.leb].
  - destruct Hp as [[_ ->]|(? & _)]; [|done]. rewrite app_nil_r in *.
    rewrite bool_decide_eq_false_2 by done. rewrite make_string_utf8 by done. done.
  - case_bool_decide as E'; [by rewrite E', app_nil_r|].
    rewrite make_string_utf8 by done. done.
Qed.

Lemma first_index_None p s : Forall (fun b => p b = false) s -> first_index p s = None.
Proof. induction 1 as [|b s Hb _ IH]; [done|]. cbn [first_index]. by rewrite Hb, IH. Qed.

(** One chunk of a text, from any point of it. *)
Lemma decode_data_text part rest data future cs :
  pending part rest -> Forall scalar cs -> data ++ future = rest ++ encode_all cs ->
  exists out part' rest' cs', decode_data (waiting part rest) data = Ok (out, waiting part' rest') /\
    pending part' rest' /\ Forall scalar cs' /\ future = rest' ++ encode_all cs' /\
    part ++ data = out ++ part'.
Proof.
  intros Hp Hcs E. unfold decode_data. cbn [encoder waiting missing_bytes].
  destruct (decide (part = [])) as [->|Hpart].
  { destruct Hp as [[_ ->]|(? & _)]; [|done]. cbn [app] in E. cbn [length Nat.ltb Nat.leb].
    destruct (split_text _ _ _ Hcs E) as (b & p & r & a & -> & -> & Hp & Hb & Ha).
    exists (encode_all b), p, r, a. fold (waiting [] []). rewrite (decode_body_text [] b p r) by done.
    by split_and!. }
  destruct (pending_shape _ _ Hp Hpart) as (lead & conts & c & Ep & Hc & Ec & Ha & Hn & Hf & Hl).
  apply Forall_app in Hf as [_ Hf].
  assert (Hr : rest <> []) by (by destruct Hp as [[? _]|(_ & ? & _)]).
  rewrite (proj2 (Nat.ltb_lt _ _)) by (destruct rest; [done|simpl; lia]).
  fold (waiting part rest). unfold align. cbn [encoder waiting missing_bytes].
  assert (Hnone : first_index not_continuation (take (length rest) data) = None).
  { apply first_index_None. apply (f_equal (take (length rest))) in E.
    rewrite take_app_length in E. rewrite <- E in Hf.
    rewrite take_app in Hf. by apply Forall_app in Hf as [? _]. }
  rewrite Hnone. fold (waiting part rest). unfold finish_char.
  cbn [encoder waiting missing_bytes buffer buffered_bytes].
  apply app_eq_inv in E as [(k & -> & E2)|(k & -> & E2)].
  - rewrite (Nat.min_r _ (length rest)) by (rewrite length_app; lia).
    rewrite Nat.sub_diag, take_app_length, drop_app_length. cbn [Nat.eqb].
    rewrite <- Ec. replace (utf8_encode c) with (encode_all [c]) by (rewrite encode_all_cons; apply app_nil_r).
    rewrite make_string_utf8 by (done || by constructor). cbn [result_bind].
    destruct (split_text _ _ _ Hcs (eq_sym E2)) as (b & p & r & a & -> & -> & Hp' & Hb & Ha').
    exists (encode_all [c] ++ encode_all b), p, r, a. change (mkDecoder _ _ _ _) with (waiting [] []).
    rewrite (decode_body_text _ b p r) by done. split_and!; try done.
    rewrite (assoc_L (++)), <- Ec, encode_all_cons, app_nil_r. by rewrite <- !(assoc_L (++)).
  - rewrite Nat.min_l by (rewrite length_app; lia).
    rewrite take_ge, drop_ge, length_app by lia.
    replace (length data + length k - length data)%nat with (length k) by lia.
    destruct k as [|b k].
    + rewrite app_nil_r in *. cbn [length Nat.eqb]. rewrite <- Ec.
      replace (utf8_encode c) with (encode_all [c]) by (rewrite encode_all_cons; apply app_nil_r).
      rewrite make_string_utf8 by (done || by constructor). cbn [result_bind].
      exists (encode_all [c]), [], [], cs. cbn [app] in E2. split_and!; try done.
      * by left.
      * by rewrite app_nil_r, encode_all_cons, app_nil_r, Ec.
    + cbn [length Nat.eqb result_bind]. unfold decode_body. rewrite bool_decide_eq_true_2 by done.
      exists [], (part ++ data), (b :: k), cs. split_and!; try done.
      * unfold waiting. by rewrite length_app.
      * right. split_and!; [by destruct part|done|]. exists c. by rewrite <- (assoc_L (++)), Ec.
Qed.

Lemma write_all_text chunks part rest cs :
  pending part rest -> Forall scalar cs -> concat chunks = rest ++ encode_all cs ->
  write_all (waiting part rest) chunks = Ok (part ++ concat chunks, waiting [] []).
Proof.
  revert part rest cs. induction chunks as [|c chunks IH]; intros part rest cs Hp Hcs E.
  - apply eq_sym, app_eq_nil in E as [-> _]. destruct Hp as [[-> _]|(_ & ? & _)]; done.
  - rewrite concat_cons in E.
    destruct (decode_data_text part rest c (concat chunks) cs Hp Hcs E)
      as (out & part' & rest' & cs' & Hd & Hp' & Hcs' & E' & Eo).
    cbn [write_all write]. rewrite Hd. cbn [result_bind]. rewrite (IH _ _ _ Hp' Hcs' E').
    cbn [result_bind]. rewrite concat_cons, !(assoc_L (++)), Eo. done.
Qed.
End Utf8Stream.

(** ** Base64 streams *)

Section Base64Stream.
Context `{CodecLaws}.

(** The decoder that holds back [rest], less than one block. *)
Definition holding (rest : list Z) : StringDecoder :=
  {| encoder := Base64; buffer := rest; buffered_bytes := length rest;
     missing_bytes := if (0 <? length rest)%nat then 3 - length rest else 0 |}.

Lemma b64_nil : b64_encode [] = [].
Proof.
  pose proof (b64_blocks [] [] eq_refl) as E. cbn [app] in E. apply (f_equal length) in E.
  rewrite length_app in E. destruct (b64_encode []); [done|]. simpl in E. lia.
Qed.

Lemma make_string_b64 d data : encoder d = Base64 -> make_string d data = Ok (b64_encode data).
Proof. intros E. unfold make_string. by rewrite E. Qed.

(** The data after a finished block: whole blocks are encoded, the rest waits. *)
Lemma decode_body_b64 res data :
  exists full rest, data = full ++ rest /\ (length full mod 3 = 0)%nat /\ (length rest < 3)%nat /\
  decode_body res (holding []) data = Ok (res ++ b64_encode full, holding rest).
Proof.
  pose proof (Nat.mod_upper_bound (length data) 3 ltac:(lia)) as Hm.
  pose proof (Nat.div_mod_eq (length data) 3) as Hdm.
  assert (Hle : (length data mod 3 <= length data)%nat) by (apply Nat.Div0.mod_le).
  set (keep := (length data - length data mod 3)%nat).
  exists (take keep data), (drop keep data).
  assert (Hd : length (drop keep data) = (length data mod 3)%nat) by (rewrite length_drop; lia).
  assert (Ht : length (take keep data) = (length data / 3 * 3)%nat) by (rewrite length_take_le; lia).
  split_and!; [by rewrite take_drop|by rewrite Ht, Nat.Div0.mod_mul|lia|].
  unfold decode_body. case_bool_decide as E.
  { subst data. rewrite take_nil, drop_nil, b64_nil, app_nil_r. done. }
  unfold cut_off. cbn [holding encoder buffer buffered_bytes missing_bytes length].
  change (if (0 <? 0)%nat then (3 - 0)%nat else 0%nat) with 0%nat. fold keep. destruct (Nat.ltb_spec 0 (length data mod 3)) as [Hpos|Hz].
  - cbn [app]. assert (Hw : {| encoder := Base64; buffer := drop keep data;
      buffered_bytes := length data mod 3; missing_bytes := 3 - length data mod 3 |}
      = holding (drop keep data)).
    { unfold holding. rewrite Hd. by rewrite (proj2 (Nat.ltb_lt _ _)). }
    rewrite Hw. case_bool_decide as Et; [by rewrite Et, b64_nil, app_nil_r|].
    by rewrite make_string_b64.
  - assert (Hk : keep = length data) by lia. rewrite Hk, take_ge, drop_ge by lia.
    rewrite bool_decide_eq_false_2 by done. rewrite make_string_b64 by done. cbn [result_bind].
    replace (length data mod 3)%nat with 0%nat by lia. done.
Qed.

Lemma decode_data_b64 rest data :
  (length rest < 3)%nat ->
  exists full rest', rest ++ data = full ++ rest' /\ (length full mod 3 = 0)%nat /\
    (length rest' < 3)%nat /\ decode_data (holding rest) data = Ok (b64_encode full, holding rest').
Proof.
  intros Hr. unfold decode_data. cbn [encoder holding missing_bytes].
  destruct rest as [|x rest].
  { cbn [length Nat.ltb Nat.leb app]. destruct (decode_body_b64 [] data) as (f & r & ? & ? & ? & Hb).
    exists f, r. by split_and!. }
  set (rs := x :: rest) in *. assert (Hpos : (0 < length rs)%nat) by (simpl; lia).
  rewrite (proj2 (Nat.ltb_lt 0 (length rs)) Hpos), (proj2 (Nat.ltb_lt _ _)) by lia.
  unfold align. cbn [encoder holding]. unfold finish_char.
  cbn [encoder holding buffer buffered_bytes missing_bytes].
  rewrite !(proj2 (Nat.ltb_lt 0 (length rs)) Hpos).
  set (found := Nat.min (length data) (3 - length rs)).
  destruct (Nat.eqb_spec (3 - length rs - found) 0) as [E|E].
  - rewrite make_string_b64 by done. cbn [result_bind].
    change {| encoder := Base64; buffer := []; buffered_bytes := 0; missing_bytes := 0 |}
      with (holding []).
    destruct (decode_body_b64 (b64_encode (rs ++ take found data)) (drop found data))
      as (f & r & E1 & Hf & Hlr & ->).
    assert (Hblock : length (rs ++ take found data) = 3%nat).
    { rewrite length_app, length_take. lia. }
    exists ((rs ++ take found data) ++ f), r. split_and!; [| |done|].
    + rewrite <- !(assoc_L (++)), <- E1, take_drop. done.
    + rewrite length_app, Hblock, Nat.add_comm. change 3%nat with (1 * 3)%nat at 1.
      by rewrite Nat.Div0.mod_add.
    + rewrite (b64_blocks (rs ++ take found data) f); [done|]. by rewrite Hblock.
  - assert (Hall : found = length data) by lia.
    cbn [result_bind]. unfold decode_body. rewrite Hall, take_ge, drop_ge by lia.
    rewrite bool_decide_eq_true_2 by done. exists [], (rs ++ data). split_and!; [done|done| |].
    + rewrite length_app. lia.
    + rewrite b64_nil. unfold holding. rewrite length_app.
      rewrite (proj2 (Nat.ltb_lt 0 (length rs + length data))) by lia.
      do 3 f_equal. lia.
Qed.

Lemma write_all_b64 chunks rest :
  (length rest < 3)%nat ->
  exists full rest', rest ++ concat chunks = full ++ rest' /\ (length full mod 3 = 0)%nat /\
    (length rest' < 3)%nat /\ write_all (holding rest) chunks = Ok (b64_encode full, holding rest').
Proof.
  revert rest. induction chunks as [|c chunks IH]; intros rest Hr.
  - exists [], rest. cbn [concat]. rewrite app_nil_r, b64_nil. by split_and!.
  - destruct (decode_data_b64 rest c Hr) as (f & r & E & Hf & Hlr & Hd).
    destruct (IH r Hlr) as (f2 & r2 & E2 & Hf2 & Hl2 & Hd2).
    exists (f ++ f2), r2. split_and!; [| |done|].
    + rewrite concat_cons, (assoc_L (++)), E, <- !(assoc_L (++)), E2. done.
    + rewrite length_app. rewrite Nat.Div0.add_mod, Hf, Hf2. done.
    + cbn [write_all write]. rewrite Hd. cbn [result_bind]. rewrite Hd2. cbn [result_bind].
      by rewrite b64_blocks.
Qed.
End Base64Stream.

(** ** Properties *)

(** C30: with the encoding utf8 a well-formed text cut into chunks anywhere,
    inside characters too, is decoded to that text: what the writes and the
    end return, put together, is the input. (For UTF-16 see
    [utf16_low_surrogate_misread].) *)
Theorem string_decoder_utf8_stream `{Codecs} chunks s :
  text s -> concat chunks = s ->
  decode_stream {| encoder := Utf8; buffer := []; buffered_bytes := 0; missing_bytes := 0 |} chunks = Ok s.
Proof.
  intros (cs & Hcs & ->) E. unfold decode_stream.
  change (mkDecoder _ _ _ _) with (waiting [] []).
  rewrite (write_all_text chunks [] [] cs) by (done || by left). cbn [result_bind app].
  change (Ok (E := js_error) (concat chunks ++ []) = Ok (encode_all cs)).
  by rewrite app_nil_r, E.
Qed.

(** The base64 text of a stream does not depend on how it was cut into
    chunks: it is the base64 of all its bytes. *)
Theorem string_decoder_base64_stream `{CodecLaws} chunks :
  decode_stream {| encoder := Base64; buffer := []; buffered_bytes := 0; missing_bytes := 0 |} chunks
  = Ok (b64_encode (concat chunks)).
Proof.
  unfold decode_stream. change (mkDecoder _ _ _ _) with (holding []).
  destruct (write_all_b64 chunks [] ltac:(simpl; lia)) as (f & r & E & Hf & Hl & ->).
  cbn [app] in E. rewrite E, b64_blocks by done. cbn [result_bind end_]. unfold flush.
  cbn [holding encoder buffered_bytes missing_bytes buffer].
  rewrite bool_decide_eq_false_2 by done. cbn [andb].
  destruct r as [|x r]; [cbn; by rewrite b64_nil|].
  cbn [length Nat.eqb]. rewrite make_string_b64, Nat.sub_0_r, take_ge by done. done.
Qed.

(** A UTF-16 low surrogate whose first byte is 0xD8 is taken for a high
    surrogate when it starts a chunk, and the text after it is damaged. *)
Lemma utf16_low_surrogate_misread :
  let d := {| encoder := Utf16le; buffer := []; buffered_bytes := 0; missing_bytes := 0 |} in
  decode_stream (H := rfc4648) d [[0; 0xD8]; [0xD8; 0xDC]; [0x41; 0]] <>
  decode_stream (H := rfc4648) d [[0; 0xD8; 0xD8; 0xDC; 0x41; 0]].
Proof. by vm_compute. Qed.

(** After [end] drops a single UTF-16 byte the byte is still in the buffer and
    shows up in the next text. *)
Lemma utf16_end_keeps_byte :
  let d := {| encoder := Utf16le; buffer := []; buffered_bytes := 0; missing_bytes := 0 |} in
  match end_ (H := rfc4648) d (Some [0x61]) with
  | Ok (_, d') => decode_stream (H := rfc4648) d' [[0x62]; [0]] <> decode_stream (H := rfc4648) d [[0x62]; [0]]
  | Err _ => False
  end.
Proof. by vm_compute. Qed.

Lemma string_decoder_utf8_stream_witness :
  decode_stream (H := rfc4648)
    {| encoder := Utf8; buffer := []; buffered_bytes := 0; missing_bytes := 0 |}
    [[226]; [152; 131; 240]; [159; 146]; [169]] = Ok [226; 152; 131; 240; 159; 146; 169].
Proof.
  apply string_decoder_utf8_stream; [|reflexivity]. exists [0x2603; 0x1F4A9].
  split; [repeat constructor; unfold scalar; lia|by vm_compute].
Defined.

Lemma string_decoder_base64_stream_witness :
  decode_stream {| encoder := Base64; buffer := []; buffered_bytes := 0; missing_bytes := 0 |}
    [[1; 2]; [3; 4; 5]] = Ok (b64_encode [1; 2; 3; 4; 5]).
Proof. apply (string_decoder_base64_stream [[1; 2]; [3; 4; 5]]). Defined.
