(* ===== verification/Timers.v ===== *)
(** * Timers (src/modules/llrt_timers/src/lib.rs)

    The timer list of one JavaScript runtime, the calls that change it and the
    task that polls it.  Times are nanoseconds ([Instant]s and [Duration]s as
    [Z]).  [Notify] is a flag: [notify_one] stores one permit.  The task
    spawned by [create_spawn_loop] is [task]: the time its [sleep] is set to,
    or [None] when no task runs.  [sort_unstable_by_key], the callbacks, the
    hooks and the job queue are parameters; a callback may call the timer
    functions again, so they all act on the whole [world]. *)
From stdpp Require Import base list numbers strings sorting.
From Stdlib Require Import ZArith Lia.
From S2P Require Import Prelude Js StableSort.
Open Scope Z_scope.

Definition from_millis (n : Z) : Z := n * 1000000.
Definition from_secs (n : Z) : Z := n * 1000000000.

Definition MIN_SLEEP : Z := from_millis 4.
Definition FAR_FUTURE : Z := from_secs (84200 * 365 * 30).

(** A callback is named by the address of its function object ([uid]). *)
Record Timeout := mkTimeout {
  callback : option nat;
  deadline : Z;
  raw_ctx : nat;
  id : Z;
  repeating : bool;
  interval : Z;
}.

Record RuntimeTimerState := mkState {
  timers : list Timeout;
  running : bool;
  state_deadline : Z;
  notified : bool;
}.

(** [ExecutingTimer(deadline, ctx, callback)]. *)
Record ExecutingTimer := mkExec { ex_deadline : Z; ex_ctx : nat; ex_callback : nat }.

(** [TimeoutP] and [NoProvider] are [ProviderType::Timeout] and [::None];
    the other provider types are never passed here. *)
Inductive ProviderType := Immediate | TimeoutP | Interval | Microtask | NoProvider.
Inductive HookType := Init | Before | After.

Section World.
Context {X : Type}.

Record world := mkWorld {
  state : RuntimeTimerState;
  timer_id : Z;
  clock : Z;
  task : option Z;
  ext : X;
}.

Definition set_state (s : RuntimeTimerState) (w : world) : world :=
  {| state := s; timer_id := timer_id w; clock := clock w; task := task w; ext := ext w |}.
Definition set_task (t : option Z) (w : world) : world :=
  {| state := state w; timer_id := timer_id w; clock := clock w; task := t; ext := ext w |}.

(** [RuntimeTimerState::new] at time [now]. *)
Definition new_state (now : Z) : RuntimeTimerState :=
  {| timers := []; running := false; state_deadline := now + from_secs (86400 * 365 * 30);
     notified := false |}.

(** [register_finalization_registry] and [invoke_async_hook]. *)
Context (register : nat -> nat -> world -> result js_error world)
        (invoke_hook : HookType -> ProviderType -> nat -> world -> result js_error world).

Definition timer_deadline (now delay : Z) (p : ProviderType) : option (bool * Z) :=
  match p with
  | Immediate => Some (false, now - from_secs 600)
  | TimeoutP => Some (false, now + from_millis delay)
  | Interval => Some (true, now + from_millis delay)
  | _ => None
  end.

(** The part of [set_timeout_interval] after the hooks: allocate the id, push
    the timer and wake or start the task. *)
Definition push_timer (ctx cb : nat) (delay : Z) (rep : bool) (dl : Z) (w : world) : world * Z :=
  let s := state w in
  let id := timer_id w in
  let timeout := {| callback := Some cb; deadline := dl; raw_ctx := ctx; id := id;
                    repeating := rep; interval := delay |} in
  let ts := timers s ++ [timeout] in
  let next_id := wrap 64 (id + 1) in
  (if running s then
     {| state := if dl <? state_deadline s
                 then {| timers := ts; running := true; state_deadline := dl; notified := true |}
                 else {| timers := ts; running := true; state_deadline := state_deadline s;
                         notified := notified s |};
        timer_id := next_id; clock := clock w; task := task w; ext := ext w |}
   else
     {| state := {| timers := ts; running := true; state_deadline := state_deadline s;
                    notified := notified s |};
        timer_id := next_id; clock := clock w; task := Some dl; ext := ext w |},
   id).

(** The deadline is computed before the hooks run. *)
Definition set_timeout_interval (ctx cb : nat) (delay : Z) (p : ProviderType) (w : world) :
    result js_error (world * Z) :=
  match timer_deadline (clock w) delay p with
  | None => Err (TypeError "The specified provider type is not supported.")
  | Some (rep, dl) =>
      let? w := register cb cb w in
      let? w := invoke_hook Init p cb w in
      Ok (push_timer ctx cb delay rep dl w)
  end.

(** [queue_microtask]; [defer] puts the call on the job queue. *)
Definition queue_microtask (defer : nat -> world -> result js_error world) (cb : nat) (w : world) :
    result js_error world :=
  let? w := register cb cb w in
  let? w := invoke_hook Init Microtask cb w in
  defer cb w.

Fixpoint clear_first (now i : Z) (ts : list Timeout) : option (list Timeout) :=
  match ts with
  | [] => None
  | t :: ts' =>
      if id t =? i then
        Some ({| callback := None; deadline := now - from_secs 1; raw_ctx := raw_ctx t;
                 id := id t; repeating := false; interval := interval t |} :: ts')
      else (fun r => t :: r) <$> clear_first now i ts'
  end.

(** [clear_timeout_interval]; [None] is a missing id or one that is not a number. *)
Definition clear_timeout_interval (i : option Z) (w : world) : world :=
  match i with
  | None => w
  | Some i =>
      let s := state w in
      match clear_first (clock w) i (timers s) with
      | None => w
      | Some ts => set_state {| timers := ts; running := running s;
                                state_deadline := state_deadline s; notified := true |} w
      end
  end.

(** ** Polling *)

(** [retain_mut]: the timers that stay, the calls that are due and the lowest
    deadline, started at [lowest]. *)
Fixpoint retain_due (now : Z) (ts : list Timeout) (lowest : Z) :
    list Timeout * list ExecutingTimer * Z :=
  match ts with
  | [] => ([], [], lowest)
  | t :: ts' =>
      if deadline t <? now then
        match callback t with
        | Some cb =>
            if negb (repeating t) then
              let '(kept, calls, low) := retain_due now ts' lowest in
              (kept, mkExec (deadline t) (raw_ctx t) cb :: calls, low)
            else
              let dl := now + from_millis (interval t) in
              let t' := {| callback := Some cb; deadline := dl; raw_ctx := raw_ctx t; id := id t;
                           repeating := repeating t; interval := interval t |} in
              let '(kept, calls, low) := retain_due now ts' (if dl <? lowest then dl else lowest) in
              (t' :: kept, mkExec dl (raw_ctx t) cb :: calls, low)
        | None => retain_due now ts' lowest
        end
      else
        let '(kept, calls, low) := retain_due now ts' (if deadline t <? lowest then deadline t else lowest) in
        (t :: kept, calls, low)
  end.

(** The first part of [poll_timers], up to the release of the lock: the new
    world and the calls to make.  The task's sleep is reset with the deadline. *)
Definition collect_due (w : world) : world * list ExecutingTimer :=
  let s := state w in
  let now := clock w in
  let '(kept, calls, lowest) := retain_due now (timers s) (now + FAR_FUTURE) in
  if bool_decide (timers s = []) then (w, [])
  else
    let lowest := if lowest - now <? MIN_SLEEP then now + MIN_SLEEP else lowest in
    ({| state := {| timers := kept; running := running s; state_deadline := lowest;
                    notified := notified s |};
        timer_id := timer_id w; clock := clock w; task := Some lowest; ext := ext w |}, calls).

(** [sort_unstable_by_key], the job queue of a context ([execute_pending_job]
    until it returns false), [Persistent::restore] and the call of a function. *)
Context (sort_unstable : list ExecutingTimer -> list ExecutingTimer)
        (execute_pending_jobs : nat -> world -> world)
        (restores : nat -> nat -> bool)
        (call : nat -> world -> result js_error world).

Definition execute (e : ExecutingTimer) (w : world) : result js_error world :=
  let? w := (if restores (ex_ctx e) (ex_callback e) then
      let? w := invoke_hook Before NoProvider (ex_callback e) w in
      let? w := call (ex_callback e) w in
      invoke_hook After NoProvider (ex_callback e) w
    else Ok w) in
  Ok (execute_pending_jobs (ex_ctx e) w).

Fixpoint execute_all (es : list ExecutingTimer) (w : world) : result js_error world :=
  match es with
  | [] => Ok w
  | e :: es' => let? w := execute e w in execute_all es' w
  end.

(** The pending jobs run once before the first callback. *)
Definition execute_batch (es : list ExecutingTimer) (w : world) : result js_error world :=
  match es with
  | [] => Ok w
  | e :: _ => execute_all es (execute_pending_jobs (ex_ctx e) w)
  end.

Definition poll_timers (w : world) : result js_error (world * bool) :=
  let '(w1, calls) := collect_due w in
  let has_items := negb (bool_decide (timers (state w1) = [])) in
  let? w2 := execute_batch (sort_unstable calls) w1 in
  if negb has_items then
    let is_empty := bool_decide (timers (state w2) = []) in
    let s := state w2 in
    Ok (set_state {| timers := timers s; running := negb is_empty;
                     state_deadline := state_deadline s; notified := notified s |} w2,
        negb is_empty)
  else Ok (w2, true).

(** One turn of the task's loop: [select!] on the notification and the sleep,
    then a poll; the task ends when the poll returns [false].  When both are
    ready [select!] picks one at random: [permit] tells whether it is the
    notification, whose permit is then used up. *)
Definition ready (w : world) : bool :=
  match task w with
  | Some sleep => notified (state w) || (sleep <=? clock w)
  | None => false
  end.

Definition task_turn (permit : bool) (w : world) : result js_error world :=
  let s := state w in
  let w := set_state {| timers := timers s; running := running s;
                        state_deadline := state_deadline s;
                        notified := notified s && negb permit |} w in
  let? (w, again) := poll_timers w in
  Ok (if again then w else set_task None w).
End World.
Arguments world X : clear implicits.

(** ** One pass over the list *)

Definition due (now : Z) (t : Timeout) : bool := deadline t <? now.

(** An interval that fired, armed again. *)
Definition rearm (now : Z) (t : Timeout) : Timeout :=
  {| callback := callback t; deadline := now + from_millis (interval t); raw_ctx := raw_ctx t;
     id := id t; repeating := repeating t; interval := interval t |}.

Definition keeps (now : Z) (t : Timeout) : option Timeout :=
  if due now t then
    match callback t with
    | Some _ => if repeating t then Some (rearm now t) else None
    | None => None
    end
  else Some t.

Definition fires (now : Z) (t : Timeout) : option ExecutingTimer :=
  if due now t then
    cb ← callback t;
    Some (mkExec (if repeating t then deadline (rearm now t) else deadline t) (raw_ctx t) cb)
  else None.

Lemma retain_due_spec now ts low :
  let '(kept, calls, low') := retain_due now ts low in
  kept = omap (keeps now) ts /\ calls = omap (fires now) ts /\
  low' <= low /\ (forall t, t ∈ kept -> low' <= deadline t) /\
  (kept = [] -> low' = low).
Proof.
  revert low. induction ts as [|t ts IH]; intros low; cbn [retain_due omap list_omap].
  { split_and!; try done. by intros t ?%elem_of_nil. }
  assert (Hle : forall d, (if d <? low then d else low) <= low /\ (if d <? low then d else low) <= d).
  { intros d. destruct (Z.ltb_spec d low); lia. }
  unfold keeps at 1, fires at 1, due. destruct (deadline t <? now).
  - destruct (callback t) as [cb|] eqn:Ecb; [|apply IH].
    cbn [mbind option_bind]. destruct (repeating t) eqn:Er; cbn [negb].
    + specialize (IH (if now + from_millis (interval t) <? low
                      then now + from_millis (interval t) else low)).
      destruct (retain_due now ts _) as [[kept calls] low'].
      destruct IH as (-> & -> & H1 & H2 & H3). destruct (Hle (now + from_millis (interval t))).
      split_and!; [by unfold rearm; rewrite Ecb, Er|done|lia| |done].
      intros t' [-> |Ht]%elem_of_cons; [cbn; lia|by apply H2].
    + specialize (IH low). destruct (retain_due now ts low) as [[kept calls] low'].
      destruct IH as (-> & -> & H1 & H2 & H3). by split_and!.
  - specialize (IH (if deadline t <? low then deadline t else low)).
    destruct (retain_due now ts _) as [[kept calls] low'].
    destruct IH as (-> & -> & H1 & H2 & H3). destruct (Hle (deadline t)).
    split_and!; [done|done|lia| |done].
    intros t' [-> |Ht]%elem_of_cons; [lia|by apply H2].
Qed.

(** ** What programs can do *)

Section Runs.
Context {X : Type}.
(** The runtime starts at [T0]; deadlines are set at most up to [horizon],
    which the far-future deadline covers. *)
Context (T0 horizon : Z) (Hhorizon : horizon <= T0 + FAR_FUTURE).

(** What JavaScript code can do between two native steps: let time pass,
    change other state, set and clear timers (ids do not wrap around). *)
Inductive api : world X -> world X -> Prop :=
| api_refl w : api w w
| api_time w t x : clock w <= t ->
    api w {| state := state w; timer_id := timer_id w; clock := t; task := task w; ext := x |}
| api_push w ctx cb delay rep dl : dl <= horizon -> timer_id w + 1 < 2 ^ 64 ->
    api w (push_timer ctx cb delay rep dl w).1
| api_clear w i : api w (clear_timeout_interval i w)
| api_trans w1 w2 w3 : api w1 w2 -> api w2 w3 -> api w1 w3.

Record Inv (w : world X) : Prop := {
  inv_clock : T0 <= clock w;
  inv_run : timers (state w) <> [] -> running (state w) = true;
  inv_task : running (state w) = true <-> is_Some (task w);
  inv_sleep : forall s, task w = Some s -> notified (state w) = true \/ s <= state_deadline (state w);
  inv_wake : forall s t, task w = Some s -> t ∈ timers (state w) ->
    notified (state w) = true \/ s <= Z.max (deadline t) (clock w + MIN_SLEEP);
  inv_idle : timers (state w) = [] -> horizon <= state_deadline (state w);
  inv_ids : NoDup (id <$> timers (state w));
  inv_next : forall t, t ∈ timers (state w) -> 0 <= id t < timer_id w;
  inv_pos : 0 <= timer_id w < 2 ^ 64;
}.

Lemma inv_push w ctx cb delay rep dl :
  Inv w -> dl <= horizon -> timer_id w + 1 < 2 ^ 64 -> Inv (push_timer ctx cb delay rep dl w).1.
Proof.
  intros [Hc Hr Ht Hs Hw Hi Hids Hn Hp] Hdl Hb.
  assert (Hwrap : wrap 64 (timer_id w + 1) = timer_id w + 1) by (apply Z.mod_small; lia).
  set (t := {| callback := Some cb; deadline := dl; raw_ctx := ctx; id := timer_id w;
               repeating := rep; interval := delay |}).
  assert (Hids' : NoDup (id <$> timers (state w) ++ [t])).
  { rewrite fmap_app. apply NoDup_app. split_and!; [done| |apply NoDup_singleton].
    intros i (t' & -> & Ht')%list_elem_of_fmap Hin. apply list_elem_of_singleton in Hin.
    specialize (Hn _ Ht'). cbn in Hin. lia. }
  assert (Hn' : forall t', t' ∈ timers (state w) ++ [t] -> 0 <= id t' < timer_id w + 1).
  { intros t' [Ht'|Ht']%elem_of_app; [specialize (Hn _ Ht'); lia|].
    apply list_elem_of_singleton in Ht' as ->. cbn. lia. }
  assert (Hne : timers (state w) ++ [t] <> []) by by destruct (timers (state w)).
  unfold push_timer. fold t. destruct (running (state w)) eqn:Erun; cbn [fst].
  - destruct (Z.ltb_spec dl (state_deadline (state w))) as [Hlt|Hge];
      split; cbn [state timers running state_deadline notified timer_id clock task];
      rewrite ?Hwrap; auto; try lia; try (by intros; left); try by intros ?%Hne.
    intros s t' Es [Ht'|Ht']%elem_of_app; [by apply Hw|].
    apply list_elem_of_singleton in Ht' as ->. cbn.
    destruct (Hs s Es); [by left|right; lia].
  - assert (Hnil : timers (state w) = []).
    { destruct (timers (state w)) eqn:E; [done|]. by specialize (Hr ltac:(done)). }
    split; cbn [state timers running state_deadline notified timer_id clock task];
      rewrite ?Hwrap; auto; try lia; try by intros ?%Hne.
    + split; intros; [by eexists|done].
    + intros s [= <-]. right. specialize (Hi Hnil). lia.
    + intros s t' [= <-] Ht'. rewrite Hnil in Ht'. apply list_elem_of_singleton in Ht' as ->.
      right. cbn. lia.
Qed.

Lemma clear_first_Some now i ts ts' :
  clear_first now i ts = Some ts' ->
  id <$> ts' = id <$> ts /\ (ts = [] <-> ts' = []) /\
  (NoDup (id <$> ts) -> forall t, t ∈ ts' -> id t = i -> callback t = None /\ deadline t = now - from_secs 1) /\
  (forall t, t ∈ ts' -> t ∈ ts \/ deadline t = now - from_secs 1).
Proof.
  revert ts'. induction ts as [|t ts IH]; intros ts'; cbn [clear_first]; [done|].
  destruct (Z.eqb_spec (id t) i) as [Hi|Hi].
  - intros [= <-]. rewrite !fmap_cons. split_and!; [done|done| |].
    + intros [Hni _]%NoDup_cons t' [-> |Ht']%elem_of_cons Hid; [done|].
      destruct Hni. rewrite Hi, <- Hid. apply list_elem_of_fmap. by exists t'.
    + intros t' [-> |Ht']%elem_of_cons; [by right|]. left. by right.
  - destruct (clear_first now i ts) as [r|] eqn:E; [|done]. intros [= <-].
    destruct (IH r eq_refl) as (H1 & H2 & H3 & H4). rewrite !fmap_cons, H1. split_and!; [done|done| |].
    + intros [_ Hnd]%NoDup_cons t' [-> |Ht']%elem_of_cons Hid; [done|]. by apply H3.
    + intros t' [-> |Ht']%elem_of_cons; [left; by left|].
      destruct (H4 t' Ht'); [left; by right|by right].
Qed.

Lemma inv_clear w i : Inv w -> Inv (clear_timeout_interval i w).
Proof.
  intros HI. unfold clear_timeout_interval. destruct i as [i|]; [|done].
  destruct (clear_first (clock w) i (timers (state w))) as [ts|] eqn:E; [|done].
  destruct (clear_first_Some _ _ _ _ E) as (Hid & Hnil & _ & Hin).
  destruct HI as [Hc Hr Ht Hs Hw Hi Hids Hn Hp].
  split; cbn [state set_state timers running state_deadline notified timer_id clock task]; auto.
  - intros Hne. apply Hr. by rewrite Hnil.
  - intros Hts. apply Hi. by rewrite Hnil.
  - by rewrite Hid.
  - intros t Ht'. assert (Hm : id t ∈ id <$> timers (state w)).
    { rewrite <- Hid. apply list_elem_of_fmap. by exists t. }
    apply list_elem_of_fmap in Hm as (t0 & -> & Ht0). by apply Hn.
Qed.

Lemma inv_api w w' : api w w' -> Inv w -> Inv w'.
Proof.
  induction 1 as [w|w t x Hle|w ctx cb delay rep dl Hdl Hb|w i|w1 w2 w3 _ IH1 _ IH2]; auto.
  - intros [Hc Hr Ht Hs Hw Hi Hids Hn Hp].
    split; cbn [state timer_id clock task]; auto; [lia|].
    intros s t' Es Hin. destruct (Hw s t' Es Hin); [by left|right; lia].
  - intros. by apply inv_push.
  - apply inv_clear.
Qed.

Lemma keeps_id now t t' : keeps now t = Some t' -> id t' = id t.
Proof. unfold keeps. repeat (case_match; try done); by intros [= <-]. Qed.

Lemma omap_keeps_ids now ts :
  NoDup (id <$> ts) -> NoDup (id <$> omap (keeps now) ts) /\
  (forall t', t' ∈ omap (keeps now) ts -> exists t, t ∈ ts /\ keeps now t = Some t').
Proof.
  intros Hnd. assert (Hin : forall t', t' ∈ omap (keeps now) ts -> exists t, t ∈ ts /\ keeps now t = Some t').
  { intros t' Ht'. apply list_elem_of_omap in Ht' as (t & Ht & E). eauto. }
  split; [|done]. clear Hin. induction ts as [|t ts IH]; [done|].
  rewrite fmap_cons in Hnd. apply NoDup_cons in Hnd as [Hni Hnd]. cbn [omap list_omap].
  destruct (keeps now t) as [t'|] eqn:E; [|by apply IH]. rewrite fmap_cons.
  apply NoDup_cons. split; [|by apply IH]. intros (t1 & Et & Ht1)%list_elem_of_fmap.
  apply list_elem_of_omap in Ht1 as (t2 & Ht2 & E2). apply Hni.
  rewrite <- (keeps_id _ _ _ E), Et, (keeps_id _ _ _ E2). apply list_elem_of_fmap. by exists t2.
Qed.

(** The flag of the notification, as [select!] leaves it. *)
Definition take_permit (permit : bool) (w : world X) : world X :=
  set_state {| timers := timers (state w); running := running (state w);
               state_deadline := state_deadline (state w);
               notified := notified (state w) && negb permit |} w.

(** A poll of a list that is not empty sets the sleep anew, so it does not
    matter whether the notification was used up. *)
Lemma inv_collect permit w :
  Inv w -> timers (state w) <> [] -> Inv (collect_due (take_permit permit w)).1.
Proof.
  intros [Hc Hr Ht Hs Hw Hi Hids Hn Hp] E. unfold collect_due.
  cbn [take_permit set_state state timers clock timer_id ext].
  pose proof (retain_due_spec (clock w) (timers (state w)) (clock w + FAR_FUTURE)) as Hspec.
  destruct (retain_due _ _ _) as [[kept calls] low].
  destruct Hspec as (Hk & _ & Hle & Hlow & Hnil).
  rewrite bool_decide_eq_false_2 by done. specialize (Hr E).
  destruct (omap_keeps_ids (clock w) _ Hids) as [Hids' Hin]. rewrite <- Hk in Hids', Hin.
  set (low' := if low - clock w <? MIN_SLEEP then clock w + MIN_SLEEP else low).
  assert (Hlow' : low <= low' /\ low' <= Z.max low (clock w + MIN_SLEEP)).
  { unfold low'. destruct (Z.ltb_spec (low - clock w) MIN_SLEEP); lia. }
  split; cbn [fst state timers running state_deadline notified timer_id clock task]; auto.
  - rewrite Hr. split; [intros; by eexists|done].
  - intros s [= <-]. by right.
  - intros s t [= <-] Hin'. right. specialize (Hlow t Hin'). lia.
  - intros Ek. specialize (Hnil Ek). lia.
  - intros t' (t & Hin' & Et)%Hin. rewrite (keeps_id _ _ _ Et). by apply Hn.
Qed.

(** *** The task *)

Context (register : nat -> nat -> world X -> result js_error (world X))
        (invoke_hook : HookType -> ProviderType -> nat -> world X -> result js_error (world X))
        (sort_unstable : list ExecutingTimer -> list ExecutingTimer)
        (execute_pending_jobs : nat -> world X -> world X)
        (restores : nat -> nat -> bool)
        (call : nat -> world X -> result js_error (world X)).

(** Code that is called changes the timers only through the timer functions. *)
Record well_behaved : Prop := {
  wb_hook : forall h p cb w w', invoke_hook h p cb w = Ok w' -> api w w';
  wb_jobs : forall c w, api w (execute_pending_jobs c w);
  wb_call : forall cb w w', call cb w = Ok w' -> api w w';
}.

(** [sort_unstable_by_key]: a permutation, ordered by deadline. *)
Record sorts : Prop := {
  sort_perm : forall l, sort_unstable l ≡ₚ l;
  sort_sorted : forall l, StronglySorted (fun a b => ex_deadline a <= ex_deadline b) (sort_unstable l);
}.

Context (Hwb : well_behaved).

Lemma execute_api e w w' :
  execute invoke_hook execute_pending_jobs restores call e w = Ok w' -> api w w'.
Proof.
  unfold execute. destruct (restores _ _); cbn [result_bind].
  - destruct (invoke_hook Before _ _ w) as [w1|] eqn:E1; [|done]. cbn [result_bind].
    destruct (call _ w1) as [w2|] eqn:E2; [|done]. cbn [result_bind].
    destruct (invoke_hook After _ _ w2) as [w3|] eqn:E3; [|done]. cbn [result_bind]. intros [= <-].
    eapply api_trans; [by eapply wb_hook|]. eapply api_trans; [by eapply wb_call|].
    eapply api_trans; [by eapply wb_hook|]. by apply wb_jobs.
  - intros [= <-]. by apply wb_jobs.
Qed.

Lemma execute_batch_api es w w' :
  execute_batch invoke_hook execute_pending_jobs restores call es w = Ok w' -> api w w'.
Proof.
  assert (Hall : forall es w w',
    execute_all invoke_hook execute_pending_jobs restores call es w = Ok w' -> api w w').
  { clear es w w'. induction es as [|e es IH]; intros w w'; cbn [execute_all].
    - intros [= <-]. apply api_refl.
    - destruct (execute _ _ _ _ e w) as [w1|] eqn:E; [|done]. cbn [result_bind]. intros H.
      eapply api_trans; [by eapply execute_api|by apply IH]. }
  unfold execute_batch. destruct es as [|e es]; [intros [= <-]; apply api_refl|].
  intros H. eapply api_trans; [by eapply wb_jobs|by eapply Hall].
Qed.

(** Outside a poll a task runs only while there are timers. *)
Definition live (w : world X) : Prop := running (state w) = true -> timers (state w) <> [].

Lemma api_nonempty w w' : api w w' -> timers (state w) <> [] -> timers (state w') <> [].
Proof.
  induction 1 as [w|w t x Hle|w ctx cb delay rep dl Hdl Hb|w i|w1 w2 w3 _ IH1 _ IH2]; auto.
  - intros _. unfold push_timer. destruct (running (state w)); cbn [fst];
      [destruct (dl <? _)|]; cbn [state timers]; by destruct (timers (state w)).
  - unfold clear_timeout_interval. destruct i as [i|]; [|done].
    destruct (clear_first _ i _) as [ts|] eqn:E; [|done]. cbn [state set_state timers].
    destruct (clear_first_Some _ _ _ _ E) as (_ & Hnil & _). by rewrite Hnil.
Qed.

Lemma api_live w w' : api w w' -> live w -> live w'.
Proof.
  induction 1 as [w|w t x Hle|w ctx cb delay rep dl Hdl Hb|w i|w1 w2 w3 _ IH1 _ IH2]; auto.
  - intros _ _. unfold push_timer. destruct (running (state w)); cbn [fst];
      [destruct (dl <? _)|]; cbn [state timers]; by destruct (timers (state w)).
  - intros Hl. unfold clear_timeout_interval. destruct i as [i|]; [|done].
    destruct (clear_first _ i _) as [ts|] eqn:E; [|done]. unfold live. cbn [state set_state timers running].
    destruct (clear_first_Some _ _ _ _ E) as (_ & Hnil & _). rewrite <- Hnil. exact Hl.
Qed.

Lemma inv_turn permit w w' :
  Inv w -> live w -> is_Some (task w) ->
  task_turn invoke_hook sort_unstable execute_pending_jobs restores call permit w = Ok w' ->
  Inv w' /\ live w'.
Proof.
  intros HI Hl Htask. unfold task_turn. fold (take_permit permit w).
  assert (Hne : timers (state w) <> []) by (apply Hl; by apply (inv_task w HI)).
  pose proof (inv_collect permit w HI Hne) as HI1. unfold poll_timers.
  destruct (collect_due (take_permit permit w)) as [w1 calls]. cbn [fst] in HI1.
  destruct (execute_batch _ _ _ _ _ w1) as [w2|] eqn:Eb; [|done]. cbn [result_bind].
  pose proof (execute_batch_api _ _ _ Eb) as Hapi. pose proof (inv_api _ _ Hapi HI1) as HI2.
  case_bool_decide as Hempty; cbn [negb result_bind].
  - case_bool_decide as He2; cbn [negb]; intros [= <-].
    + split; [|done]. destruct HI2 as [Hc Hr Ht Hs Hw Hi Hids Hn Hp].
      split; cbn [state set_state set_task timers running state_deadline notified timer_id clock task]; auto;
        try done.
    + assert (Hrun : running (state w2) = true) by by apply (inv_run w2 HI2).
      split; [|by intros _]. destruct HI2 as [Hc Hr Ht Hs Hw Hi Hids Hn Hp].
      split; cbn [state set_state timers running state_deadline notified timer_id clock task]; auto.
      by rewrite Hrun in Ht.
  - intros [= <-]. split; [done|]. intros _. eapply api_nonempty; [exact Hapi|done].
Qed.

(** The states of a runtime: programs act, and the task takes turns. *)
Inductive reachable : world X -> Prop :=
| reach_start x : reachable {| state := new_state T0; timer_id := 0; clock := T0; task := None; ext := x |}
| reach_api w w' : reachable w -> api w w' -> reachable w'
| reach_turn permit w w' : reachable w -> is_Some (task w) ->
    task_turn invoke_hook sort_unstable execute_pending_jobs restores call permit w = Ok w' ->
    reachable w'.

Lemma reachable_inv w : reachable w -> Inv w /\ live w.
Proof.
  induction 1 as [x|w w' _ [HI Hl] Ha|permit w w' _ [HI Hl] Ht E].
  - split; [|done]. split; cbn; try done; try lia.
    + intros _. unfold FAR_FUTURE, from_secs in *. lia.
    + apply NoDup_nil_2.
    + by intros t ?%elem_of_nil.
  - split; [by eapply inv_api|by eapply api_live].
  - by eapply inv_turn.
Qed.

(** *** Cleared timers *)

(** The timer [i] was issued, and where it is still listed it is cleared. *)
Definition cleared (i : Z) (w : world X) : Prop :=
  i < timer_id w /\ 0 <= timer_id w < 2 ^ 64 /\
  forall t, t ∈ timers (state w) -> id t = i -> callback t = None /\ deadline t < clock w.

Lemma clear_first_in now i ts ts' t :
  clear_first now i ts = Some ts' -> t ∈ ts' ->
  t ∈ ts \/ (callback t = None /\ deadline t = now - from_secs 1).
Proof.
  revert ts'. induction ts as [|u ts IH]; intros ts'; cbn [clear_first]; [done|].
  destruct (id u =? i).
  - intros [= <-] [-> |Ht]%elem_of_cons; [by right|]. left. by right.
  - destruct (clear_first now i ts) as [r|]; [|done].
    intros [= <-] [-> |Ht]%elem_of_cons; [left; by left|].
    destruct (IH r eq_refl Ht); [left; by right|by right].
Qed.

Lemma cleared_api i w w' : api w w' -> cleared i w -> cleared i w'.
Proof.
  induction 1 as [w|w t x Hle|w ctx cb delay rep dl Hdl Hb|w j|w1 w2 w3 _ IH1 _ IH2]; auto.
  - intros (Hi & Hp & Hc). split_and!; cbn; try done; try lia.
    intros t' Ht' Hid. destruct (Hc t' Ht' Hid) as [? ?]. split; [done|lia].
  - intros (Hi & Hp & Hc).
    assert (Hwrap : wrap 64 (timer_id w + 1) = timer_id w + 1) by (apply Z.mod_small; lia).
    assert (Hin : forall t', t' ∈ timers (state w) ++ [{| callback := Some cb; deadline := dl;
      raw_ctx := ctx; id := timer_id w; repeating := rep; interval := delay |}] -> id t' = i ->
      callback t' = None /\ deadline t' < clock w).
    { intros t' [Ht'|Ht']%elem_of_app; [by apply Hc|].
      apply list_elem_of_singleton in Ht' as ->. cbn. lia. }
    unfold push_timer. destruct (running (state w)); cbn [fst]; [destruct (dl <? _)|];
      split_and!; cbn [state timers timer_id clock]; rewrite ?Hwrap; try done; lia.
  - intros (Hi & Hp & Hc). unfold clear_timeout_interval. destruct j as [j|]; [|done].
    destruct (clear_first _ j _) as [ts|] eqn:E; [|done].
    split_and!; cbn [state set_state timers timer_id clock]; try done; try lia.
    intros t Ht Hid. destruct (clear_first_in _ _ _ _ _ E Ht) as [Ht'|[-> ->]]; [by apply Hc|].
    split; [done|]. unfold from_secs. lia.
Qed.

Lemma clear_cleared w i :
  Inv w -> i < timer_id w -> cleared i (clear_timeout_interval (Some i) w).
Proof.
  intros HI Hi. unfold clear_timeout_interval.
  destruct (clear_first (clock w) i (timers (state w))) as [ts|] eqn:E.
  - destruct (clear_first_Some _ _ _ _ E) as (_ & _ & H3 & _).
    split_and!; cbn [state set_state timers timer_id clock]; try done; try apply (inv_pos w HI).
    intros t Ht Hid. destruct (H3 (inv_ids w HI) t Ht Hid) as [-> ->]. split; [done|].
    unfold from_secs. lia.
  - split_and!; try done; try apply (inv_pos w HI). intros t Ht Hid. exfalso. clear HI Hi.
    induction (timers (state w)) as [|u ts IH]; [by apply elem_of_nil in Ht|]. cbn [clear_first] in E.
    destruct (Z.eqb_spec (id u) i); [done|]. destruct (clear_first (clock w) i ts); [done|].
    apply elem_of_cons in Ht as [-> |Ht]; [done|by apply IH].
Qed.

(** ** Properties *)

(** C39: no timer is lost.  In every state of the runtime the listed timers
    have different ids, and for each of them the task runs and will poll:
    it was notified, or it sleeps no longer than until the deadline of the
    timer or four milliseconds from now. *)
Theorem timers_never_lost w t :
  reachable w -> t ∈ timers (state w) ->
  NoDup (id <$> timers (state w)) /\
  exists sleep, task w = Some sleep /\
    (notified (state w) = true \/ sleep <= Z.max (deadline t) (clock w + MIN_SLEEP)).
Proof.
  intros [HI _]%reachable_inv Ht. split; [apply (inv_ids w HI)|].
  assert (Hrun : running (state w) = true).
  { apply (inv_run w HI). intros E. rewrite E in Ht. by apply elem_of_nil in Ht. }
  apply (inv_task w HI) in Hrun as [s Hs]. exists s. split; [done|]. by apply (inv_wake w HI).
Qed.

(** What a turn of the task does.  It calls, in the order of their
    deadlines, exactly the callbacks of the timers whose deadline has passed
    and that were not cleared; timeouts that fired and cleared timers leave
    the list, intervals are armed again from now on, the other timers stay as
    they are; and the task does not sleep for less than four milliseconds. *)
Theorem timers_turn permit w w' (Hs : sorts) :
  reachable w -> timers (state w) <> [] ->
  task_turn invoke_hook sort_unstable execute_pending_jobs restores call permit w = Ok w' ->
  exists es w1 w2 sleep,
    es ≡ₚ omap (fires (clock w)) (timers (state w)) /\
    StronglySorted (fun a b => ex_deadline a <= ex_deadline b) es /\
    (forall e, e ∈ es -> exists t, t ∈ timers (state w) /\ deadline t < clock w /\
       callback t = Some (ex_callback e)) /\
    timers (state w1) = omap (keeps (clock w)) (timers (state w)) /\
    task w1 = Some sleep /\ clock w + MIN_SLEEP <= sleep /\
    execute_batch invoke_hook execute_pending_jobs restores call es w1 = Ok w2 /\
    timers (state w') = timers (state w2).
Proof.
  intros Hr Hne. unfold task_turn, poll_timers. fold (take_permit permit w).
  unfold collect_due. cbn [take_permit set_state state timers clock timer_id ext].
  pose proof (retain_due_spec (clock w) (timers (state w)) (clock w + FAR_FUTURE)) as Hspec.
  destruct (retain_due _ _ _) as [[kept calls] low]. destruct Hspec as (Hk & Hc & _).
  rewrite bool_decide_eq_false_2 by done.
  set (w1 := mkWorld _ _ _ _ _).
  destruct (execute_batch _ _ _ _ _ w1) as [w2|] eqn:Eb; [|done]. cbn [result_bind]. intros E.
  exists (sort_unstable calls), w1, w2, (if low - clock w <? MIN_SLEEP then clock w + MIN_SLEEP else low).
  split_and!; [by rewrite sort_perm, Hc|by apply sort_sorted| |done|done| |done|].
  - intros e He. rewrite (sort_perm Hs), Hc in He.
    apply list_elem_of_omap in He as (t & Ht & Ef). exists t. split; [done|].
    unfold fires, due in Ef. destruct (Z.ltb_spec (deadline t) (clock w)); [|done].
    destruct (callback t); [|done]. cbn in Ef. by simplify_eq.
  - destruct (Z.ltb_spec (low - clock w) MIN_SLEEP); lia.
  - revert E. case_bool_decide; cbn [negb result_bind]; [|by intros [= <-]].
    case_bool_decide; cbn [negb]; by intros [= <-].
Qed.

(** A cleared timer never fires.  Whatever the program does after
    clearing an id that was issued, a poll neither calls that timer nor keeps
    it. *)
Theorem timers_clear w i w' t :
  reachable w -> i < timer_id w -> api (clear_timeout_interval (Some i) w) w' ->
  t ∈ timers (state w') -> id t = i ->
  fires (clock w') t = None /\ keeps (clock w') t = None.
Proof.
  intros [HI _]%reachable_inv Hi Ha Ht Hid.
  destruct (cleared_api i _ _ Ha (clear_cleared w i HI Hi)) as (_ & _ & Hc).
  destruct (Hc t Ht Hid) as [Hcb Hdl]. unfold fires, keeps, due.
  rewrite (proj2 (Z.ltb_lt _ _) Hdl), Hcb. done.
Qed.
End Runs.

(** ** Concrete runs: callbacks that log their name; callback 7 also clears timer 1 *)

Definition sample_log (cb : nat) (w : world (list nat)) : world (list nat) :=
  {| state := state w; timer_id := timer_id w; clock := clock w; task := task w; ext := ext w ++ [cb] |}.
Definition sample_next (cb : nat) (w : world (list nat)) : world (list nat) :=
  if (cb =? 7)%nat then clear_timeout_interval (Some 1) (sample_log cb w) else sample_log cb w.
Definition sample_call (cb : nat) (w : world (list nat)) : result js_error (world (list nat)) :=
  Ok (sample_next cb w).
Definition sample_hook (h : HookType) (p : ProviderType) (cb : nat) (w : world (list nat)) :
    result js_error (world (list nat)) := Ok w.
Definition sample_register (a b : nat) (w : world (list nat)) : result js_error (world (list nat)) := Ok w.
Definition sample_sort (l : list ExecutingTimer) : list ExecutingTimer :=
  sort_by (fun a b => ex_deadline a <=? ex_deadline b) l.
Definition sample_jobs (c : nat) (w : world (list nat)) : world (list nat) := w.
Definition sample_restores (c cb : nat) : bool := true.

Abbreviation sample_turn :=
  (task_turn sample_hook sample_sort sample_jobs sample_restores sample_call).

#[export] Instance Zleb_order : TotalPreorder Z.leb.
Proof. split; intros; [lia|]. apply Z.leb_le. rewrite !Z.leb_le in *. lia. Qed.

Lemma sample_sorts : sorts sample_sort.
Proof.
  split; intros l; [apply sort_by_perm|].
  pose proof (sort_by_sorted (fun a b => ex_deadline a <=? ex_deadline b) l) as H.
  unfold sample_sort. induction H as [|a l' _ IH Ha]; constructor; [done|].
  eapply Forall_impl; [exact Ha|]. intros b Hb. by apply Z.leb_le.
Qed.

Lemma sample_well_behaved h : well_behaved h sample_hook sample_jobs sample_call.
Proof.
  split.
  - intros ? ? ? w w' [= <-]. apply api_refl.
  - intros c w. apply api_refl.
  - intros cb w w' E. assert (w' = sample_next cb w) as -> by (unfold sample_call in E; congruence).
    unfold sample_next. assert (Hlog : api h w (sample_log cb w)) by (apply api_time; lia).
    destruct (cb =? 7)%nat; [|done]. eapply api_trans; [exact Hlog|apply api_clear].
Qed.

Definition sample_start : world (list nat) :=
  {| state := new_state 0; timer_id := 0; clock := 0; task := None; ext := [] |}.

(** [setTimeout(cb7, 1); setTimeout(cb8, 2)], then ten milliseconds pass. *)
Definition sample_two : world (list nat) :=
  (push_timer 0 8 2 false (from_millis 2) (push_timer 0 7 1 false (from_millis 1) sample_start).1).1.
Definition sample_later : world (list nat) :=
  {| state := state sample_two; timer_id := timer_id sample_two; clock := from_millis 10;
     task := task sample_two; ext := [] |}.

Abbreviation sample_reachable :=
  (reachable 0 FAR_FUTURE sample_hook sample_sort sample_jobs sample_restores sample_call).

Lemma sample_later_reachable : sample_reachable sample_later.
Proof.
  eapply reach_api; [|apply (api_time _ sample_two (from_millis 10) []); by vm_compute].
  eapply reach_api; [|apply api_push; by vm_compute].
  eapply reach_api; [|apply api_push; by vm_compute]. apply reach_start.
Qed.

Lemma sample_later_timers : timers (state sample_later) <> [].
Proof. by vm_compute. Qed.

Lemma sample_turn_ok : exists w', sample_turn true sample_later = Ok w'.
Proof. eexists. vm_compute. reflexivity. Qed.

(** A timer that is cleared by another timer of the same batch still fires. *)
Lemma clear_in_same_batch_fires :
  match sample_turn true sample_later with
  | Ok w => ext w = [7; 8]%nat
  | Err _ => False
  end.
Proof. by vm_compute. Qed.

Definition sample_timer : Timeout :=
  {| callback := Some 7%nat; deadline := from_millis 1; raw_ctx := 0; id := 0;
     repeating := false; interval := 1 |}.

Lemma sample_timer_in : sample_timer ∈ timers (state sample_later).
Proof.
  assert (E : head (timers (state sample_later)) = Some sample_timer) by (vm_compute; reflexivity).
  destruct (timers (state sample_later)) as [|t ts]; [done|]. injection E as ->. by left.
Qed.

Lemma timers_never_lost_witness :
  exists sleep, task sample_later = Some sleep /\
    (notified (state sample_later) = true \/
     sleep <= Z.max (deadline sample_timer) (clock sample_later + MIN_SLEEP)).
Proof.
  exact (proj2 (timers_never_lost 0 FAR_FUTURE (Z.le_refl _) sample_hook sample_sort sample_jobs
    sample_restores sample_call (sample_well_behaved FAR_FUTURE) sample_later
    sample_timer sample_later_reachable sample_timer_in)).
Defined.

Lemma timers_turn_witness :
  exists es : list ExecutingTimer, es ≡ₚ omap (fires (clock sample_later)) (timers (state sample_later)) /\
    StronglySorted (fun a b => ex_deadline a <= ex_deadline b) es.
Proof.
  destruct sample_turn_ok as [w' E].
  destruct (timers_turn 0 FAR_FUTURE sample_hook sample_sort sample_jobs sample_restores sample_call
    true sample_later w' sample_sorts sample_later_reachable sample_later_timers E)
    as (es & _ & _ & _ & Hp & Hs & _).
  exists es. split; [exact Hp|exact Hs].
Defined.

(** Timer 1 once it is cleared: its callback is gone. *)
Definition sample_cleared : Timeout :=
  default sample_timer (last (timers (state (clear_timeout_interval (Some 1) sample_later)))).

Lemma sample_cleared_in :
  sample_cleared ∈ timers (state (clear_timeout_interval (Some 1) sample_later)) /\ id sample_cleared = 1.
Proof.
  split; [|by vm_compute]. unfold sample_cleared.
  assert (E : is_Some (last (timers (state (clear_timeout_interval (Some 1) sample_later)))))
    by (vm_compute; by eexists).
  destruct E as [t E]. rewrite E. cbn [default from_option]. by eapply last_Some_elem_of.
Qed.

Lemma timers_clear_witness :
  fires (clock sample_later) sample_cleared = None /\ keeps (clock sample_later) sample_cleared = None.
Proof.
  apply (timers_clear 0 FAR_FUTURE ltac:(lia) sample_hook sample_sort sample_jobs sample_restores
    sample_call (sample_well_behaved FAR_FUTURE) sample_later 1
    (clear_timeout_interval (Some 1) sample_later) sample_cleared sample_later_reachable);
    [by vm_compute|apply api_refl|apply sample_cleared_in|apply sample_cleared_in].
Defined.
