(* ===== verification/Events.v ===== *)
(** * Event emitters (src/modules/llrt_events/src/)

    The event list of an emitter and the methods of the [Emitter] trait.  Event
    lists are shared objects ([Arc<RwLock<EventList>>]): the [world] holds
    them by address, [native] gives the list of an emitter object and [hidden]
    the one stored under the hidden symbol of a plain object.  Callbacks are
    arbitrary functions on the world: a listener may add, remove and emit. *)
From stdpp Require Import base list numbers strings gmap.
From Stdlib Require Import ZArith Lia.
From S2P Require Import Prelude Js.

Inductive EventKey := KSymbol (s : nat) | KString (s : list Z).

#[export] Instance EventKey_eq_dec : EqDecision EventKey.
Proof. solve_decision. Defined.

(** A callback is a function object, named by its address. *)
Record EventItem := mkItem { callback : nat; once : bool }.
Abbreviation EventList := (list (EventKey * list EventItem)).

(** ** Event objects (event.rs, custom_event.rs) *)

Record Event := mkEvent { event_type : list Z; bubbles : bool; cancelable : bool; composed : bool }.

(** Reading an option by name: the read may throw, the property may be absent. *)
Definition event_new (ty : list Z) (options : option (string -> result js_error (option bool))) :
    result js_error Event :=
  match options with
  | None => Ok {| event_type := ty; bubbles := false; cancelable := false; composed := false |}
  | Some get_optional =>
      let? b := get_optional "bubbles"%string in
      let? c := get_optional "cancelable"%string in
      let? d := get_optional "composed"%string in
      Ok {| event_type := ty; bubbles := default false b; cancelable := default false c;
            composed := default false d |}
  end.

Record CustomEvent (V : Type) := mkCustomEvent { custom_type : list Z; detail : option V }.

Definition custom_event_new {V} (ty : list Z) (options : option (result js_error (option V))) :
    result js_error (CustomEvent V) :=
  match options with
  | None => Ok (mkCustomEvent V ty None)
  | Some r => let? d := r in Ok (mkCustomEvent V ty d)
  end.

(** ** Emitters *)

Section Emitter.
Context {num obj X : Type}.

(** [EventKey::from_value]. *)
Definition from_value (v : jsval num obj) : result js_error EventKey :=
  match v with
  | VString s => Ok (KString s)
  | VSymbol s => Ok (KSymbol s)
  | _ => Err LibraryError
  end.

Record world := mkWorld {
  lists : gmap nat EventList;
  native : gmap nat nat;
  hidden : gmap nat nat;
  next_addr : nat;
  ext : X;
}.

Definition set_list (a : nat) (l : EventList) (w : world) : world :=
  {| lists := <[a := l]> (lists w); native := native w; hidden := hidden w;
     next_addr := next_addr w; ext := ext w |}.
Definition set_ext (x : X) (w : world) : world :=
  {| lists := lists w; native := native w; hidden := hidden w; next_addr := next_addr w; ext := x |}.

(** [resolve_events]: the list of an object, created on first use. *)
Definition resolve_events (this : nat) (w : world) : nat * world :=
  match native w !! this with
  | Some a => (a, w)
  | None =>
      match hidden w !! this with
      | Some a => (a, w)
      | None =>
          let a := next_addr w in
          (a, {| lists := <[a := []]> (lists w); native := native w;
                 hidden := <[this := a]> (hidden w); next_addr := S a; ext := ext w |})
      end
  end.

Definition get_list (a : nat) (w : world) : EventList := default [] (lists w !! a).

(** [EventEmitter::new], [EventTarget::new]: the object at [this]. *)
Definition new_emitter (this : nat) (w : world) : world :=
  let a := next_addr w in
  {| lists := <[a := []]> (lists w); native := <[this := a]> (native w); hidden := hidden w;
     next_addr := S a; ext := ext w |}.

(** ** Operations on a list *)

Definition has_key (key : EventKey) (l : EventList) : bool :=
  existsb (fun e => bool_decide (e.1 = key)) l.

(** The items of the first entry of a key. *)
Fixpoint items_of (key : EventKey) (l : EventList) : option (list EventItem) :=
  match l with
  | [] => None
  | (k, items) :: l' => if bool_decide (k = key) then Some items else items_of key l'
  end.

(** Change the items of the first entry of a key. *)
Fixpoint update_items (key : EventKey) (f : list EventItem -> list EventItem) (l : EventList) : EventList :=
  match l with
  | [] => []
  | (k, items) :: l' =>
      if bool_decide (k = key) then (k, f items) :: l' else (k, items) :: update_items key f l'
  end.

(** [events.remove(index)] for the first entry of a key. *)
Fixpoint remove_entry (key : EventKey) (l : EventList) : EventList :=
  match l with
  | [] => []
  | (k, items) :: l' => if bool_decide (k = key) then l' else (k, items) :: remove_entry key l'
  end.

(** [items.remove(pos)] for the first item with the callback. *)
Fixpoint remove_item (cb : nat) (items : list EventItem) : option (list EventItem) :=
  match items with
  | [] => None
  | i :: items' =>
      if (callback i =? cb)%nat then Some items' else (fun r => i :: r) <$> remove_item cb items'
  end.

Definition find_all_listeners (key : EventKey) (l : EventList) : list nat :=
  match items_of key l with
  | Some items => callback <$> items
  | None => []
  end.

(** The list part of [add_event_listener], and whether the key is new. *)
Definition add_item (key : EventKey) (item : EventItem) (prepend : bool) (l : EventList) :
    EventList * bool :=
  let '(l, is_new) := if has_key key l then (l, false) else (l ++ [(key, [])], true) in
  (update_items key (fun items => if prepend then item :: items else items ++ [item]) l, is_new).

(** The list part of [remove_event_listener]. *)
Definition remove_listener (key : EventKey) (cb : nat) (l : EventList) : EventList :=
  match items_of key l with
  | None => l
  | Some items =>
      match remove_item cb items with
      | None => l
      | Some [] => remove_entry key l
      | Some items' => update_items key (fun _ => items') l
      end
  end.

(** The list part of [do_emit]: the callbacks to run, the list left behind and
    whether the entry went away; [None] without a listener. *)
Definition take_callbacks (key : EventKey) (l : EventList) : option (list nat * EventList * bool) :=
  match items_of key l with
  | None => None
  | Some items =>
      let callbacks := callback <$> items in
      let kept := filter (fun i => once i = false) items in
      Some (if bool_decide (kept = []) then (callbacks, remove_entry key l, true)
            else (callbacks, update_items key (fun _ => kept) l, false))
  end.

(** ** Methods *)

(** [on_event_changed] of the class (which class overrides it is the object's
    business), the call of a listener with [this] and the arguments, and
    [Function::defer]. *)
Context (on_event_changed : nat -> EventKey -> bool -> world -> result js_error world)
        (call : nat -> nat -> list (jsval num obj) -> world -> result js_error world)
        (defer_call : nat -> nat -> list (jsval num obj) -> world -> result js_error world).

Definition remove_event_listener (this : nat) (event : jsval num obj) (listener : nat) (w : world) :
    result js_error world :=
  let '(a, w) := resolve_events this w in
  let? key := from_value event in
  Ok (set_list a (remove_listener key listener (get_list a w)) w).

Definition add_event_listener (this : nat) (event : jsval num obj) (listener : nat)
    (prepend once_ : bool) (w : world) : result js_error world :=
  let '(a, w) := resolve_events this w in
  let? key := from_value event in
  let '(l, is_new) := add_item key {| callback := listener; once := once_ |} prepend (get_list a w) in
  let w := set_list a l w in
  if is_new then
    match native w !! this with
    | Some _ => on_event_changed this key true w
    | None => Ok w
    end
  else Ok w.

Definition once_ (this : nat) (event : jsval num obj) (listener : nat) (w : world) :=
  add_event_listener this event listener false true w.
Definition on (this : nat) (event : jsval num obj) (listener : nat) (w : world) :=
  add_event_listener this event listener false false w.
Definition prepend_listener (this : nat) (event : jsval num obj) (listener : nat) (w : world) :=
  add_event_listener this event listener true false w.
Definition prepend_once_listener (this : nat) (event : jsval num obj) (listener : nat) (w : world) :=
  add_event_listener this event listener true true w.

(** [options.once]: absent options, an absent property, or its value; reading
    the property may throw. *)
Definition evt_add_event_listener (this : nat) (event : jsval num obj) (listener : nat)
    (options : option (result js_error (option bool))) (w : world) : result js_error world :=
  let? o := match options with
            | None => Ok false
            | Some r => let? v := r in Ok (default false v)
            end in
  add_event_listener this event listener false o w.

Fixpoint call_all (defer : bool) (this : nat) (cbs : list nat) (args : list (jsval num obj)) (w : world) :
    result js_error world :=
  match cbs with
  | [] => Ok w
  | cb :: cbs' =>
      let? w := (if defer then defer_call cb this args w else call cb this args w) in
      call_all defer this cbs' args w
  end.

Definition do_emit (this : nat) (event : jsval num obj) (args : list (jsval num obj)) (defer : bool)
    (w : world) : result js_error (world * bool) :=
  let '(a, w) := resolve_events this w in
  let? key := from_value event in
  match take_callbacks key (get_list a w) with
  | None => Ok (w, false)
  | Some (callbacks, l, gone) =>
      let w := set_list a l w in
      let? w := (if gone then
                   match native w !! this with
                   | Some _ => on_event_changed this key false w
                   | None => Ok w
                   end
                 else Ok w) in
      let? w := call_all defer this callbacks args w in
      Ok (w, true)
  end.

Definition emit (this : nat) (event : jsval num obj) (args : list (jsval num obj)) (w : world) :=
  do_emit this event args false w.

Definition emit_str (this : nat) (event : list Z) (args : list (jsval num obj)) (defer : bool) (w : world) :
    result js_error world :=
  let? (w, _) := do_emit this (VString event) args defer w in Ok w.

(** [event.type] of the event object, [Err] when it has none ([unwrap]). *)
Definition evt_dispatch_event (this : nat) (event : jsval num obj) (event_type : result js_error (jsval num obj))
    (w : world) : result js_error (world * bool) :=
  let? t := event_type in do_emit this t [event] false w.

Definition event_names (this : nat) (w : world) : list (jsval num obj) * world :=
  let '(a, w) := resolve_events this w in
  ((fun e => match e.1 with KSymbol s => VSymbol s | KString s => VString s end) <$> get_list a w, w).

Definition listener_count (this : nat) (event : jsval num obj) (w : world) : result js_error (nat * world) :=
  let '(a, w) := resolve_events this w in
  let? key := from_value event in
  Ok (match items_of key (get_list a w) with Some items => length items | None => 0%nat end, w).

(** [None] is a missing argument. *)
Definition remove_all_listeners (this : nat) (event : option (jsval num obj)) (w : world) :
    result js_error world :=
  let '(a, w) := resolve_events this w in
  match event with
  | None | Some VUndefined => Ok (set_list a [] w)
  | Some event =>
      let? key := from_value event in
      Ok (set_list a (filter (fun e => e.1 <> key) (get_list a w)) w)
  end.

Definition has_listener (this : nat) (key : EventKey) (w : world) : bool :=
  match native w !! this with
  | Some a => has_key key (get_list a w)
  | None => false
  end.

(** [Result::emit_error]: an error of a native operation goes to the [error]
    listeners; without one it is thrown.  [value] is the error as a JS value. *)
Definition emit_error {T} (r : result js_error T) (value : js_error -> jsval num obj) (this : nat)
    (w : world) : result js_error (world * bool) :=
  match r with
  | Ok _ => Ok (w, false)
  | Err err =>
      if has_listener this (KString (str "error")) w then
        let? w := emit_str this (str "error") [value err] false w in Ok (w, true)
      else Err err
  end.
End Emitter.
Arguments world X : clear implicits.

(** ** The list as a map *)

(** Keys occur once and no entry is empty. *)
Definition wf_list (l : EventList) : Prop :=
  NoDup (fst <$> l) /\ Forall (fun e => e.2 <> []) l.

(** The listeners of a key. *)
Definition items (key : EventKey) (l : EventList) : list EventItem := default [] (items_of key l).

Lemma has_key_items key l : has_key key l = bool_decide (is_Some (items_of key l)).
Proof.
  induction l as [|[k its] l IH]; [done|]. unfold has_key in *. cbn [existsb items_of fst].
  rewrite IH. by destruct (bool_decide (k = key)).
Qed.

Lemma has_key_fst key l : has_key key l = bool_decide (key ∈ fst <$> l).
Proof.
  induction l as [|[k its] l IH]; [done|]. unfold has_key in *. cbn [existsb fst]. rewrite IH.
  rewrite fmap_cons, (bool_decide_ext _ _ (elem_of_cons _ _ _)), bool_decide_or. cbn [fst]. f_equal.
  by apply bool_decide_ext.
Qed.

Lemma items_of_update key f k l :
  items_of k (update_items key f l) =
  if bool_decide (k = key) then f <$> items_of k l else items_of k l.
Proof.
  induction l as [|[k' its] l IH]; cbn [update_items]; [by case_bool_decide|].
  destruct (bool_decide_reflect (k' = key)) as [-> |Hk]; cbn [items_of].
  - case_bool_decide as E; [subst; by rewrite bool_decide_eq_true_2|].
    by rewrite bool_decide_eq_false_2 by congruence.
  - rewrite IH. case_bool_decide; [|done]. subst. by rewrite bool_decide_eq_false_2.
Qed.

Lemma update_items_keys key f l : fst <$> update_items key f l = fst <$> l.
Proof.
  induction l as [|[k its] l IH]; [done|]. cbn [update_items]. case_bool_decide; [done|].
  by rewrite !fmap_cons, IH.
Qed.

Lemma items_of_not_in key l : key ∉ fst <$> l -> items_of key l = None.
Proof.
  intros H. pose proof (has_key_fst key l) as E. rewrite has_key_items in E.
  rewrite (bool_decide_eq_false_2 (key ∈ _)) in E by done. apply bool_decide_eq_false in E.
  by apply eq_None_not_Some.
Qed.

Lemma items_of_remove key k l :
  NoDup (fst <$> l) ->
  items_of k (remove_entry key l) = if bool_decide (k = key) then None else items_of k l.
Proof.
  induction l as [|[k' its] l IH]; cbn [remove_entry]; [by case_bool_decide|].
  rewrite fmap_cons. intros [Hni Hnd]%NoDup_cons. cbn [fst] in Hni.
  destruct (bool_decide_reflect (k' = key)) as [-> |Hk]; cbn [items_of].
  - case_bool_decide as E; [subst; by apply items_of_not_in|].
    by rewrite bool_decide_eq_false_2 by congruence.
  - rewrite IH by done. case_bool_decide; [|done]. subst. by rewrite bool_decide_eq_false_2.
Qed.

Lemma remove_entry_sublist key l : remove_entry key l `sublist_of` l.
Proof.
  induction l as [|[k its] l IH]; [done|]. cbn [remove_entry].
  case_bool_decide; [by apply sublist_cons|by apply sublist_skip].
Qed.

Lemma wf_sublist l m : m `sublist_of` l -> wf_list l -> wf_list m.
Proof.
  intros Hs [Hnd Hf]. split.
  - eapply sublist_NoDup; [exact Hnd|]. by apply fmap_sublist.
  - rewrite Forall_forall in *. intros x Hx. apply Hf. by eapply elem_of_sublist.
Qed.

Lemma wf_update key f l :
  (forall its, items_of key l = Some its -> f its <> []) -> wf_list l -> wf_list (update_items key f l).
Proof.
  intros Hf [Hnd Hne]. split; [by rewrite update_items_keys|].
  induction Hne as [|[k its] l Hk Hne IH]; [done|]. cbn [update_items].
  rewrite fmap_cons in Hnd. apply NoDup_cons in Hnd as [Hni Hnd]. cbn [items_of] in Hf.
  destruct (bool_decide_reflect (k = key)); constructor; cbn; auto.
Qed.

Lemma wf_items key l its : wf_list l -> items_of key l = Some its -> its <> [].
Proof.
  intros [_ Hf]. induction Hf as [|[k i] l Hk _ IH]; [done|]. cbn [items_of].
  case_bool_decide; [by intros [= <-]|done].
Qed.

(** *** What the operations do to the listeners *)

Definition insert_item (prepend : bool) (item : EventItem) (its : list EventItem) : list EventItem :=
  if prepend then item :: its else its ++ [item].

Lemma items_of_app key l m :
  items_of key (l ++ m) = match items_of key l with Some i => Some i | None => items_of key m end.
Proof. induction l as [|[k i] l IH]; [done|]. cbn [app items_of]. by case_bool_decide. Qed.

Lemma add_item_spec key item prepend l k :
  wf_list l ->
  let l' := (add_item key item prepend l).1 in
  wf_list l' /\
  items k l' = if bool_decide (k = key) then insert_item prepend item (items key l) else items k l.
Proof.
  intros Hwf. unfold add_item. rewrite has_key_items.
  assert (Hne : forall its, insert_item prepend item its <> []).
  { intros its. unfold insert_item. destruct prepend; [done|]. by destruct its. }
  case_bool_decide as Hk; cbn [fst].
  - split; [apply wf_update; [intros its _; apply (Hne its)|done]|].
    unfold items. rewrite items_of_update. case_bool_decide; [|done]. subst. by destruct Hk as [its ->].
  - apply eq_None_not_Some in Hk. split.
    + assert (Hni : key ∉ fst <$> l).
      { pose proof (has_key_fst key l) as E. rewrite has_key_items, Hk in E.
        by apply eq_sym, bool_decide_eq_false in E. }
      destruct Hwf as [Hnd Hf]. split.
      * rewrite update_items_keys, fmap_app. apply NoDup_app. split_and!; [done| |apply NoDup_singleton].
        intros x Hx ->%list_elem_of_singleton. done.
      * clear Hnd Hni. induction Hf as [|[k' its] l Hk' Hf IH]; cbn [app update_items].
        { rewrite bool_decide_eq_true_2 by done. constructor; [apply Hne|done]. }
        cbn [items_of] in Hk. case_bool_decide; [done|]. constructor; [done|by apply IH].
    + unfold items. rewrite items_of_update, items_of_app.
      case_bool_decide; [subst; rewrite Hk; cbn [items_of]; by rewrite bool_decide_eq_true_2|].
      destruct (items_of k l); [done|]. cbn [items_of]. by rewrite bool_decide_eq_false_2 by congruence.
Qed.

Lemma items_filter key k l :
  items k (filter (fun e => e.1 <> key) l) = if bool_decide (k = key) then [] else items k l.
Proof.
  unfold items. induction l as [|[k' its] l IH]; [by destruct (bool_decide (k = key))|].
  rewrite filter_cons. cbn [fst]. destruct (decide (k' <> key)) as [Hk|Hk]; cbn [items_of].
  - destruct (bool_decide_reflect (k' = k)) as [-> |]; [|exact IH].
    by rewrite bool_decide_eq_false_2.
  - rewrite IH. destruct (bool_decide_reflect (k' = k)) as [-> |]; [|done].
    destruct (decide (k = key)); [by rewrite bool_decide_eq_true_2|by destruct Hk].
Qed.

(** The first item with a callback is taken out. *)
Fixpoint drop_first (cb : nat) (its : list EventItem) : list EventItem :=
  match its with
  | [] => []
  | i :: its' => if (callback i =? cb)%nat then its' else i :: drop_first cb its'
  end.

Lemma remove_item_drop cb its : default its (remove_item cb its) = drop_first cb its.
Proof.
  induction its as [|i its IH]; [done|]. cbn [remove_item drop_first].
  destruct (callback i =? cb)%nat; [done|]. rewrite <- IH. by destruct (remove_item cb its).
Qed.

Lemma remove_listener_spec key cb l k :
  wf_list l ->
  let l' := remove_listener key cb l in
  wf_list l' /\ items k l' = if bool_decide (k = key) then drop_first cb (items key l) else items k l.
Proof.
  intros Hwf. unfold remove_listener, items.
  destruct (items_of key l) as [its|] eqn:E; cbn [default id].
  2: { split; [done|]. case_bool_decide; [subst; by rewrite E|done]. }
  rewrite <- remove_item_drop. destruct (remove_item cb its) as [[|i r]|] eqn:Er; cbn [default id].
  - split; [eapply wf_sublist; [apply remove_entry_sublist|done]|].
    rewrite items_of_remove by apply Hwf. by destruct (bool_decide (k = key)).
  - split; [by apply wf_update|]. rewrite items_of_update. case_bool_decide; [|done]. subst. by rewrite E.
  - split; [done|]. case_bool_decide; [subst; by rewrite E|done].
Qed.

Lemma take_callbacks_spec key l cbs l' gone k :
  wf_list l -> take_callbacks key l = Some (cbs, l', gone) ->
  cbs = callback <$> items key l /\ items key l <> [] /\ wf_list l' /\
  items k l' = if bool_decide (k = key) then filter (fun i => once i = false) (items key l) else items k l.
Proof.
  intros Hwf. unfold take_callbacks, items. destruct (items_of key l) as [its|] eqn:E; [|done].
  pose proof (wf_items key l its Hwf E) as Hne. cbn [default id].
  case_bool_decide as Hk; intros [= <- <- <-]; (split_and!; [done|done| |]).
  - eapply wf_sublist; [apply remove_entry_sublist|done].
  - rewrite items_of_remove by apply Hwf. case_bool_decide; [by rewrite Hk|done].
  - by apply wf_update.
  - rewrite items_of_update. case_bool_decide; [|done]. subst. by rewrite E.
Qed.

(** ** Objects and their lists *)

Section Worlds.
Context {num obj X : Type}.

Definition addr (this : nat) (w : world X) : option nat :=
  match native w !! this with
  | Some a => Some a
  | None => hidden w !! this
  end.

(** The listeners of an event of an object, in the order they are called. *)
Definition listeners (this : nat) (key : EventKey) (w : world X) : list EventItem :=
  match addr this w with
  | Some a => items key (get_list a w)
  | None => []
  end.

Record wf_world (w : world X) : Prop := {
  wf_lists : forall a l, lists w !! a = Some l -> wf_list l;
  wf_addr : forall o a, addr o w = Some a -> (a < next_addr w)%nat;
  wf_inj : forall o1 o2 a, addr o1 w = Some a -> addr o2 w = Some a -> o1 = o2;
}.

Lemma wf_nil : wf_list [].
Proof. split; [apply NoDup_nil_2|done]. Qed.

Lemma get_list_wf a w : wf_world w -> wf_list (get_list a w).
Proof.
  intros Hw. unfold get_list. destruct (lists w !! a) eqn:E; [by eapply wf_lists|apply wf_nil].
Qed.

Lemma resolve_spec this w a w' :
  wf_world w -> resolve_events this w = (a, w') ->
  wf_world w' /\ addr this w' = Some a /\ native w' = native w /\
  forall o k, listeners o k w' = listeners o k w.
Proof.
  intros Hw. unfold resolve_events. destruct (native w !! this) as [b|] eqn:En.
  { intros [= -> ->]. split_and!; try done. unfold addr. by rewrite En. }
  destruct (hidden w !! this) as [b|] eqn:Eh.
  { intros [= -> ->]. split_and!; try done. unfold addr. by rewrite En. }
  intros [= <- <-].
  set (w1 := mkWorld _ _ _ _ _).
  assert (Ha : forall o, addr o w1 = if decide (o = this) then Some (next_addr w) else addr o w).
  { intros o. unfold addr, w1. cbn [native hidden]. destruct (decide (o = this)) as [-> |Hne].
    - rewrite En. by rewrite lookup_insert_eq.
    - destruct (native w !! o); [done|]. by rewrite lookup_insert_ne. }
  assert (Hself : addr this w = None) by (unfold addr; by rewrite En).
  split_and!; [|by rewrite Ha, decide_True|done|].
  - split.
    + intros b l. unfold w1. cbn [lists]. rewrite lookup_insert_Some.
      intros [[_ <-]|[_ E]]; [apply wf_nil|by eapply wf_lists].
    + intros o b. rewrite Ha. cbn [next_addr w1]. case_decide; [intros [= <-]; lia|].
      intros E. pose proof (wf_addr w Hw o b E). lia.
    + intros o1 o2 b. rewrite !Ha. do 2 case_decide; try congruence.
      * intros [= <-] E. pose proof (wf_addr w Hw o2 _ E). lia.
      * intros E [= <-]. pose proof (wf_addr w Hw o1 _ E). lia.
      * by apply wf_inj.
  - intros o k. unfold listeners. rewrite Ha. case_decide as E.
    + subst. rewrite Hself. unfold get_list, w1. cbn [lists]. by rewrite lookup_insert_eq.
    + destruct (addr o w) as [b|] eqn:Eb; [|done]. pose proof (wf_addr w Hw o b Eb).
      unfold get_list, w1. cbn [lists]. by rewrite lookup_insert_ne by lia.
Qed.

Lemma set_list_spec this a l w :
  wf_world w -> addr this w = Some a -> wf_list l ->
  wf_world (set_list a l w) /\
  forall o k, listeners o k (set_list a l w) = if decide (o = this) then items k l else listeners o k w.
Proof.
  intros Hw Ha Hl. split.
  - split; [|apply (wf_addr w Hw)|apply (wf_inj w Hw)].
    intros b m. cbn [lists set_list]. rewrite lookup_insert_Some.
    intros [[_ <-]|[_ E]]; [done|by eapply wf_lists].
  - intros o k. unfold listeners. change (addr o (set_list a l w)) with (addr o w).
    unfold get_list. cbn [lists set_list]. case_decide as E.
    + subst. rewrite Ha. by rewrite lookup_insert_eq.
    + destruct (addr o w) as [b|] eqn:Eb; [|done]. rewrite lookup_insert_ne; [done|].
      intros ->. by apply E, (wf_inj w Hw o this b).
Qed.

Lemma listeners_items this w a k : addr this w = Some a -> listeners this k w = items k (get_list a w).
Proof. intros E. unfold listeners. by rewrite E. Qed.

(** Two worlds with the same listeners. *)
Definition same_listeners (w w' : world X) : Prop := forall o k, listeners o k w' = listeners o k w.

(** ** Properties *)

(** Removing a listener takes out its first registration for that event
    of that object and nothing else; removing all listeners of an event, or
    of the object, does the same for all of them. *)
Theorem events_remove_listener this (event : jsval num obj) key cb w :
  wf_world w -> from_value event = Ok key ->
  (exists w', remove_event_listener this event cb w = Ok w' /\ wf_world w' /\
    forall o k, listeners o k w' =
      if decide (o = this /\ k = key) then drop_first cb (listeners this key w) else listeners o k w) /\
  (exists w', remove_all_listeners this (Some event) w = Ok w' /\ wf_world w' /\
    forall o k, listeners o k w' = if decide (o = this /\ k = key) then [] else listeners o k w) /\
  (exists w', remove_all_listeners (num := num) (obj := obj) this None w = Ok w' /\ wf_world w' /\
    forall o k, listeners o k w' = if decide (o = this) then [] else listeners o k w).
Proof.
  intros Hw Hkey. unfold remove_event_listener, remove_all_listeners.
  destruct (resolve_events this w) as [a w1] eqn:Er.
  destruct (resolve_spec _ _ _ _ Hw Er) as (Hw1 & Ha & Hn & Hsame). rewrite Hkey. cbn [result_bind].
  pose proof (get_list_wf a w1 Hw1) as Hl. split_and!.
  - assert (Hrm := fun k => remove_listener_spec key cb (get_list a w1) k Hl).
    destruct (set_list_spec this a _ w1 Hw1 Ha (proj1 (Hrm key))) as [Hw2 Hls].
    eexists. split_and!; [done|done|]. intros o k. rewrite Hls. destruct (Hrm k) as [_ Hi].
    rewrite <- (Hsame this key), <- (Hsame o k).
    destruct (decide (o = this)) as [-> |Ho]; [|rewrite decide_False by tauto; done].
    rewrite Hi, !(listeners_items this w1 a) by done.
    case_bool_decide; [by rewrite decide_True|by rewrite decide_False by tauto].
  - set (l := filter _ (get_list a w1)).
    assert (Hwl : wf_list l) by (eapply wf_sublist; [apply sublist_filter|done]).
    destruct (set_list_spec this a l w1 Hw1 Ha Hwl) as [Hw2 Hls].
    exists (set_list a l w1). split_and!; [by destruct event|done|].
    intros o k. rewrite Hls, <- (Hsame o k).
    destruct (decide (o = this)) as [-> |Ho]; [|rewrite decide_False by tauto; done].
    rewrite (listeners_items this w1 a) by done. unfold l. rewrite items_filter.
    case_bool_decide; [by rewrite decide_True|by rewrite decide_False by tauto].
  - destruct (set_list_spec this a [] w1 Hw1 Ha wf_nil) as [Hw2 Hls].
    eexists. split_and!; [done|done|]. intros o k. by rewrite Hls, <- (Hsame o k).
Qed.

(** The names and counts an emitter reports: the event names have no
    repetition and are exactly the events with a listener, and the count is
    the number of listeners. *)
Theorem events_names this (event : jsval num obj) key w :
  wf_world w -> from_value event = Ok key ->
  NoDup (event_names (num := num) (obj := obj) this w).1 /\
  (event ∈ (event_names this w).1 <-> listeners this key w <> []) /\
  exists w', listener_count this event w = Ok (length (listeners this key w), w').
Proof.
  intros Hw Hkey. unfold event_names, listener_count.
  destruct (resolve_events this w) as [a w1] eqn:Er.
  destruct (resolve_spec _ _ _ _ Hw Er) as (Hw1 & Ha & Hn & Hsame). rewrite Hkey.
  cbn [result_bind fst]. rewrite <- (Hsame this key), (listeners_items this w1 a) by done.
  pose proof (get_list_wf a w1 Hw1) as [Hnd Hf].
  set (name := fun k : EventKey => match k with KSymbol s => VSymbol s | KString s => VString s end : jsval num obj).
  change ((fun e : EventKey * list EventItem => _) <$> get_list a w1)
    with ((name ∘ fst) <$> get_list a w1).
  rewrite list_fmap_compose.
  assert (Hinj : Inj (=) (=) name) by (by intros [s|s] [t|t]; intros [= ->]).
  assert (Hev : event = name key).
  { unfold from_value in Hkey. by destruct event; simplify_eq. }
  split_and!.
  - by apply NoDup_fmap_2.
  - rewrite Hev, (list_elem_of_fmap_inj name). unfold items. split.
    + intros Hin E. pose proof (has_key_fst key (get_list a w1)) as Hk.
      rewrite has_key_items, (bool_decide_eq_true_2 (key ∈ _)) in Hk by done.
      apply bool_decide_eq_true in Hk as [its Hits]. rewrite Hits in E.
      apply (wf_items key (get_list a w1) its); [by split|done|exact E].
    + intros Hne. pose proof (has_key_fst key (get_list a w1)) as Hk. rewrite has_key_items in Hk.
      destruct (items_of key (get_list a w1)); [|done].
      rewrite bool_decide_eq_true_2 in Hk by done. by apply eq_sym, bool_decide_eq_true in Hk.
  - eexists. unfold items. by destruct (items_of key (get_list a w1)).
Qed.
Context (on_event_changed : nat -> EventKey -> bool -> world X -> result js_error (world X)).

(** The hook of a class succeeds and leaves the event lists alone. *)
Definition quiet_hook : Prop := forall o k b w, wf_world w ->
  exists w', on_event_changed o k b w = Ok w' /\ wf_world w' /\ same_listeners w w'.

(** Adding a listener. *)
Lemma add_event_listener_spec this (event : jsval num obj) key cb prepend is_once w :
  quiet_hook -> wf_world w -> from_value event = Ok key ->
  exists w', add_event_listener on_event_changed this event cb prepend is_once w = Ok w' /\
    wf_world w' /\
    forall o k, listeners o k w' =
      if decide (o = this /\ k = key)
      then insert_item prepend {| callback := cb; once := is_once |} (listeners this key w)
      else listeners o k w.
Proof.
  intros Hq Hw Hkey. unfold add_event_listener.
  destruct (resolve_events this w) as [a w1] eqn:Er.
  destruct (resolve_spec _ _ _ _ Hw Er) as (Hw1 & Ha & Hn & Hsame). rewrite Hkey. cbn [result_bind].
  destruct (add_item key _ prepend (get_list a w1)) as [l is_new] eqn:Ea.
  assert (Hadd := fun k => add_item_spec key {| callback := cb; once := is_once |} prepend
                             (get_list a w1) k (get_list_wf a w1 Hw1)).
  rewrite Ea in Hadd. cbn [fst] in Hadd. destruct (Hadd key) as [Hl _].
  destruct (set_list_spec this a l w1 Hw1 Ha Hl) as [Hw2 Hls].
  assert (Hfinal : forall o k, listeners o k (set_list a l w1) =
    if decide (o = this /\ k = key)
    then insert_item prepend {| callback := cb; once := is_once |} (listeners this key w)
    else listeners o k w).
  { intros o k. rewrite Hls. destruct (Hadd k) as [_ Hi]. rewrite <- (Hsame this key), <- (Hsame o k).
    destruct (decide (o = this)) as [-> |Ho]; [|rewrite decide_False by tauto; done].
    rewrite Hi, !(listeners_items this w1 a) by done.
    case_bool_decide; [by rewrite decide_True|by rewrite decide_False by tauto]. }
  destruct is_new; [|by eexists]. destruct (native (set_list a l w1) !! this); [|by eexists].
  destruct (Hq this key true (set_list a l w1) Hw2) as (w3 & -> & Hw3 & Hs3).
  exists w3. split_and!; [done|done|]. intros o k. by rewrite Hs3.
Qed.

(** Adding a listener puts it at the end, or in front when prepended, of
    the listeners of that event of that object, and changes no other event
    and no other object. *)
Theorem events_add_listener this (event : jsval num obj) key cb prepend is_once w :
  quiet_hook -> wf_world w -> from_value event = Ok key ->
  exists w', add_event_listener on_event_changed this event cb prepend is_once w = Ok w' /\
    wf_world w' /\
    forall o k, listeners o k w' =
      if decide (o = this /\ k = key)
      then insert_item prepend {| callback := cb; once := is_once |} (listeners this key w)
      else listeners o k w.
Proof. apply add_event_listener_spec. Qed.

Context (call defer_call : nat -> nat -> list (jsval num obj) -> world X -> result js_error (world X)).

Lemma take_callbacks_None key l : take_callbacks key l = None -> items key l = [].
Proof. unfold take_callbacks, items. by destruct (items_of key l). Qed.

(** What [do_emit] does before the first listener runs. *)
Lemma do_emit_spec this (event : jsval num obj) key args defer w :
  quiet_hook -> wf_world w -> from_value event = Ok key ->
  exists w1, wf_world w1 /\
    (forall o k, listeners o k w1 =
      if decide (o = this /\ k = key) then filter (fun i => once i = false) (listeners this key w)
      else listeners o k w) /\
    do_emit on_event_changed call defer_call this event args defer w =
    if decide (listeners this key w = []) then Ok (w1, false)
    else let? w2 := call_all call defer_call defer this (callback <$> listeners this key w) args w1 in
         Ok (w2, true).
Proof.
  intros Hq Hw Hkey. unfold do_emit. destruct (resolve_events this w) as [a w1] eqn:Er.
  destruct (resolve_spec _ _ _ _ Hw Er) as (Hw1 & Ha & Hn & Hsame). rewrite Hkey. cbn [result_bind].
  rewrite <- (Hsame this key), (listeners_items this w1 a key) by done.
  destruct (take_callbacks key (get_list a w1)) as [[[cbs l] gone]|] eqn:Et.
  2: { apply take_callbacks_None in Et. rewrite Et. exists w1. split_and!; [done| |done].
       intros o k. rewrite <- (Hsame o k). case_decide as E; [|done]. destruct E as [-> ->].
       by rewrite (listeners_items this w1 a), Et. }
  assert (Htk := fun k => take_callbacks_spec key _ cbs l gone k (get_list_wf a w1 Hw1) Et).
  destruct (Htk key) as (-> & Hne & Hl & _).
  destruct (set_list_spec this a l w1 Hw1 Ha Hl) as [Hw2 Hls].
  assert (Hfinal : forall o k, listeners o k (set_list a l w1) =
    if decide (o = this /\ k = key) then filter (fun i => once i = false) (items key (get_list a w1))
    else listeners o k w).
  { intros o k. rewrite Hls, <- (Hsame o k). destruct (Htk k) as (_ & _ & _ & Hi).
    destruct (decide (o = this)) as [-> |Ho]; [|rewrite decide_False by tauto; done].
    rewrite Hi, (listeners_items this w1 a) by done.
    case_bool_decide; [by rewrite decide_True|by rewrite decide_False by tauto]. }
  assert (Hdone : exists w3, wf_world w3 /\ same_listeners (set_list a l w1) w3 /\
    (if gone then
       match native (set_list a l w1) !! this with
       | Some _ => on_event_changed this key false (set_list a l w1)
       | None => Ok (set_list a l w1)
       end
     else Ok (set_list a l w1)) = Ok w3).
  { destruct gone; [|by exists (set_list a l w1)].
    destruct (native (set_list a l w1) !! this); [|by exists (set_list a l w1)].
    destruct (Hq this key false (set_list a l w1) Hw2) as (w3 & E & ? & ?). by exists w3. }
  destruct Hdone as (w3 & Hw3 & Hs3 & ->). cbn [result_bind]. exists w3. split_and!; [done| |by rewrite decide_False by done].
  intros o k. by rewrite Hs3.
Qed.

(** C40: an emission calls the listeners that were registered when it started,
    in their order, whatever they do; the one-time listeners are gone before
    the first of them runs, so that none is called again by a nested
    emission; without listeners it returns [false]. *)
Theorem events_emit this (event : jsval num obj) key args w :
  quiet_hook -> wf_world w -> from_value event = Ok key ->
  exists w1, wf_world w1 /\
    (forall o k, listeners o k w1 =
      if decide (o = this /\ k = key) then filter (fun i => once i = false) (listeners this key w)
      else listeners o k w) /\
    emit on_event_changed call defer_call this event args w =
    if decide (listeners this key w = []) then Ok (w1, false)
    else let? w2 := call_all call defer_call false this (callback <$> listeners this key w) args w1 in
         Ok (w2, true).
Proof. intros. by apply do_emit_spec. Qed.

End Worlds.

(** ** Concrete runs: listeners that log their name *)

Definition no_hook (o : nat) (k : EventKey) (b : bool) (w : world (list nat)) :
    result js_error (world (list nat)) := Ok w.
Abbreviation eval := (jsval Empty_set Empty_set).
Definition log_call (cb this : nat) (args : list eval) (w : world (list nat)) :
    result js_error (world (list nat)) := Ok (set_ext (ext w ++ [cb]) w).

Lemma no_hook_quiet : quiet_hook no_hook.
Proof. intros o k b w Hw. by exists w. Qed.

Definition sample_event : eval := VString (str "data").

(** An emitter at address 1 without listeners. *)
Definition sample_world : world (list nat) :=
  new_emitter 1 {| lists := ∅; native := ∅; hidden := ∅; next_addr := 0; ext := [] |}.

Lemma sample_world_wf : wf_world sample_world.
Proof.
  split; unfold sample_world, new_emitter; cbn [lists next_addr native hidden].
  - intros a l. rewrite lookup_insert_Some. intros [[_ <-]|[_ E]]; [apply wf_nil|].
    by rewrite lookup_empty in E.
  - intros o a. unfold addr. cbn [native hidden next_addr]. destruct (decide (o = 1%nat)) as [-> |].
    + rewrite lookup_insert_eq. intros [= <-]. lia.
    + rewrite lookup_insert_ne, !lookup_empty by done. done.
  - intros o1 o2 a. unfold addr. cbn [native hidden].
    assert (H : forall o, match <[1%nat := 0%nat]> (∅ : gmap nat nat) !! o with
      | Some a => Some a | None => (∅ : gmap nat nat) !! o end = Some a -> o = 1%nat).
    { intros o. destruct (decide (o = 1%nat)) as [-> |]; [done|].
      by rewrite lookup_insert_ne, !lookup_empty by done. }
    intros H1%H H2%H. congruence.
Qed.

(** [on(data, 5); once(data, 6); emit; emit] calls 5, 6 and then 5. *)
Example once_runs_once :
  match (let? w := on no_hook 1 sample_event 5 sample_world in
         let? w := once_ no_hook 1 sample_event 6 w in
         let? (w, _) := emit no_hook log_call log_call 1 sample_event [] w in
         emit no_hook log_call log_call 1 sample_event [] w) with
  | Ok (w, b) => ext w = [5; 6; 5]%nat /\ b = true
  | Err _ => False
  end.
Proof. by vm_compute. Qed.

Lemma events_add_listener_witness :
  exists w', on no_hook 1 sample_event 5 sample_world = Ok w' /\
    listeners 1 (KString (str "data")) w' = [{| callback := 5; once := false |}].
Proof.
  destruct (events_add_listener no_hook 1 sample_event (KString (str "data")) 5 false false sample_world)
    as (w' & E & _ & H); [apply no_hook_quiet|apply sample_world_wf|reflexivity|].
  exists w'. split; [exact E|]. rewrite H. reflexivity.
Defined.

(** The emitter after [on(data, 5); once(data, 6)]. *)
Definition busy_world : world (list nat) :=
  match (let? w := on no_hook 1 sample_event 5 sample_world in once_ no_hook 1 sample_event 6 w) with
  | Ok w => w
  | Err _ => sample_world
  end.

Lemma busy_world_wf : wf_world busy_world.
Proof.
  unfold busy_world, on, once_.
  destruct (add_event_listener_spec no_hook 1 sample_event (KString (str "data")) 5 false false sample_world)
    as (w & E & Hw & _); [apply no_hook_quiet|apply sample_world_wf|reflexivity|].
  rewrite E. cbn [result_bind].
  destruct (add_event_listener_spec no_hook 1 sample_event (KString (str "data")) 6 false true w)
    as (w' & E' & Hw' & _); [apply no_hook_quiet|done|reflexivity|]. by rewrite E'.
Qed.

Lemma busy_listeners :
  listeners 1 (KString (str "data")) busy_world
  = [{| callback := 5; once := false |}; {| callback := 6; once := true |}].
Proof. vm_compute. reflexivity. Qed.

Lemma events_remove_listener_witness :
  exists w', remove_event_listener 1 sample_event 5 busy_world = Ok w' /\
    listeners 1 (KString (str "data")) w' = [{| callback := 6; once := true |}].
Proof.
  destruct (events_remove_listener 1 sample_event (KString (str "data")) 5 busy_world)
    as ((w' & E & _ & H) & _ & _); [apply busy_world_wf|reflexivity|].
  exists w'. split; [exact E|]. rewrite H, busy_listeners. reflexivity.
Defined.

Lemma events_emit_witness :
  exists w1, listeners 1 (KString (str "data")) w1 = [{| callback := 5; once := false |}] /\
    emit no_hook log_call log_call 1 sample_event [] busy_world
    = Ok (set_ext (ext w1 ++ [5%nat] ++ [6%nat]) w1, true).
Proof.
  destruct (events_emit no_hook log_call log_call 1 sample_event (KString (str "data")) [] busy_world)
    as (w1 & _ & H & E); [apply no_hook_quiet|apply busy_world_wf|reflexivity|].
  exists w1. rewrite E, H, busy_listeners. split; [reflexivity|].
  cbn. unfold set_ext. cbn. by rewrite <- app_assoc.
Defined.

Lemma events_names_witness :
  exists w', listener_count 1 sample_event busy_world = Ok (2%nat, w').
Proof.
  destruct (events_names 1 sample_event (KString (str "data")) busy_world) as (_ & _ & w' & E);
    [apply busy_world_wf|reflexivity|].
  exists w'. rewrite E, busy_listeners. reflexivity.
Defined.
