(* ===== verification/JsonStringify.v ===== *)
(** * JSON.stringify (src/libs/llrt_json/src/stringify.rs)

    The serializer that LLRT installs in place of the engine's.  Objects and
    arrays live in a heap and are named by their address; reading a property,
    [toJSON] and the replacer function are calls of JavaScript code that may
    throw.  The number printers (itoa, ryu) are parameters.  The recursion is
    bounded by [fuel]: one unit per nesting level; [OutOfFuel] marks a run
    that needs more. *)
From stdpp Require Import base list numbers strings relations.
From Stdlib Require Import ZArith Lia Sorted.
From S2P Require Import JsonEscape Prelude Js.
Open Scope Z_scope.

Definition CIRCULAR_REF_DETECTION_DEPTH : nat := 20.

(** Values by [type_of]; a float is its 64-bit pattern.  [TObject] stands for
    objects, errors and proxies, which are treated alike, and for arrays: the
    heap says which. *)
Inductive value :=
| TNull | TUndefined | TBool (b : bool) | TInt (z : Z) | TFloat (bits : Z) | TString (s : list Z)
| TSymbol | TBigInt | TFunction | TConstructor
| TObject (id : nat).

#[export] Instance value_eq_dec : EqDecision value.
Proof. solve_decision. Defined.

(** What reading an object gives: whether it is an array, the keys QuickJS lists, the keys
    [Object.keys] returns (used when the former are none), the properties, the
    elements of an array, whether it has [toJSON] and what that returns. *)
Record node := {
  is_array : bool;
  own_keys : list (list Z);
  object_keys : list (list Z);
  get_prop : list Z -> Prelude.result js_error value;
  elems : list (Prelude.result js_error value);
  has_to_json : Prelude.result js_error bool;
  to_json : Prelude.result js_error value;
}.

Inductive outcome (A : Type) := Done (r : Prelude.result js_error A) | OutOfFuel.
Arguments Done {A} r.
Arguments OutOfFuel {A}.

Definition obind {A B} (o : outcome A) (k : A -> outcome B) : outcome B :=
  match o with
  | Done (Ok v) => k v
  | Done (Err e) => Done (Err e)
  | OutOfFuel => OutOfFuel
  end.
Notation "'let*' x ':=' o 'in' k" := (obind o (fun x => k))
  (at level 10, x pattern, o at level 100, k at level 200) : llrt_scope.

(** The fields of [StringifyContext] that differ between calls. *)
Record context := mkCtx {
  c_value : value;
  c_depth : nat;
  c_indentation : option (list Z);
  c_key : option (list Z);
  c_index : option nat;
  c_parent : option nat;
}.

Inductive PrimitiveStatus := Written | Ignored | Iterate (new_value : option value).

(** A message from its bytes. *)
Fixpoint of_bytes (s : list Z) : string :=
  match s with
  | [] => EmptyString
  | b :: s' => String (Ascii.ascii_of_N (Z.to_N b)) (of_bytes s')
  end.

(** [str::repeat]. *)
Fixpoint repeat (s : list Z) (n : nat) : list Z :=
  match n with
  | O => []
  | S n' => s ++ repeat s n'
  end.

Section Stringify.
Context (itoa ryu_finite : Z -> list Z).
Context (heap : nat -> node).
(** The replacer function gets the holder ([None] is the wrapper object made
    for the top level), the key and the value. *)
Context (replacer_fn : option (option nat -> list Z -> value -> Prelude.result js_error value)).
Context (include_keys_replacer : option (list (list Z))).

Definition write_sep (res : list Z) (add_comma has_indentation : bool) : list Z :=
  res ++ (if add_comma then str "," else []) ++ (if has_indentation then [10] else []).

Definition write_string (res s : list Z) : list Z :=
  escape_json_string (res ++ [34]) s ++ [34].

Definition write_key (res key : list Z) (indent : bool) : list Z :=
  escape_json_string (res ++ [34]) key ++ [34] ++ str ":" ++ (if indent then [32] else []).

Definition write_indentation (res : list Z) (indentation : option (list Z)) (depth : nat) : list Z :=
  match indentation with
  | Some ind => res ++ [10] ++ repeat ind (depth - 1)
  | None => res
  end.

Definition write_indented_separator (res : list Z) (key : option (list Z)) (add_comma : bool)
    (indentation : list Z) (depth : nat) : list Z :=
  let res := write_sep res add_comma true ++ repeat indentation depth in
  match key with
  | Some key => write_key res key true
  | None => res
  end.

Definition get_key_or_index (key : option (list Z)) (index : option nat) : list Z :=
  match key with
  | Some k => k
  | None => itoa (Z.of_nat (default 0%nat index))
  end.

Definition EXP_MASK : Z := 0x7ff0000000000000.

Definition float_text (bits : Z) : list Z :=
  if Z.land bits EXP_MASK =? EXP_MASK then str "null"
  else
    let s := ryu_finite bits in
    if bool_decide (drop (length s - 2) s = str ".0") then take (length s - 2) s else s.

Definition ignorable (v : value) : bool :=
  match v with
  | TSymbol | TUndefined | TFunction | TConstructor => true
  | _ => false
  end.

Definition write_primitive2 (c : context) (add_comma : bool) (new_value : option value) (res : list Z) :
    Prelude.result js_error (list Z * PrimitiveStatus) :=
  let v := default (c_value c) new_value in
  if negb (bool_decide (is_Some (c_index c))) && ignorable v then Ok (res, Ignored)
  else if bool_decide (v = TBigInt) then Err (TypeError "Do not know how to serialize a BigInt")
  else if match include_keys_replacer with
          | Some filter => negb (bool_decide (get_key_or_index (c_key c) (c_index c) ∈ filter))
          | None => false
          end then Ok (res, Ignored)
  else
    let res := match c_indentation c with
               | Some ind => write_indented_separator res (c_key c) add_comma ind (c_depth c)
               | None =>
                   let res := write_sep res add_comma false in
                   match c_key c with
                   | Some key => write_key res key false
                   | None => res
                   end
               end in
    match v with
    | TNull | TUndefined => Ok (res ++ str "null", Written)
    | TBool b => Ok (res ++ (if b then str "true" else str "false"), Written)
    | TInt z => Ok (res ++ itoa z, Written)
    | TFloat bits => Ok (res ++ float_text bits, Written)
    | TString s => Ok (write_string res s, Written)
    | _ => Ok (res, Iterate new_value)
    end.

Definition write_primitive (c : context) (add_comma : bool) (res : list Z) :
    Prelude.result js_error (list Z * PrimitiveStatus) :=
  match replacer_fn with
  | Some f =>
      let? new_value := f (c_parent c) (get_key_or_index (c_key c) (c_index c)) (c_value c) in
      write_primitive2 c add_comma (Some new_value) res
  | None => write_primitive2 c add_comma None res
  end.

(** The objects being visited, innermost first, with their keys. *)
Abbreviation ancestors := (list (nat * list Z)) (only parsing).

Fixpoint pop_to (parent : nat) (anc : list (nat * list Z)) : list (nat * list Z) :=
  match anc with
  | [] => []
  | (ptr, k) :: anc' => if (ptr =? parent)%nat then anc else pop_to parent anc'
  end.

(** The end of the path: the last four keys after the first, then the first. *)
Definition path_key (k : list Z) : list Z := if starts_with (str "[") k then k else str "." ++ k.

Definition circular_message (anc : list (nat * list Z)) : string :=
  match rev anc with
  | first :: rest =>
      of_bytes (str "Circular reference detected at: " ++ [34] ++ str ".."
                ++ concat (map (fun p => path_key p.2) (rev (take 4 (rev rest))))
                ++ path_key first.2 ++ [34])
  | [] => EmptyString
  end.

(** [unwrap_unchecked] of the parent: there always is one below the top. *)
Definition detect_circular_reference (current : nat) (key : option (list Z)) (index : option nat)
    (parent : option nat) (anc : list (nat * list Z)) : Prelude.result js_error (list (nat * list Z)) :=
  let anc := pop_to (default 0%nat parent) anc in
  if existsb (fun p => (p.1 =? current)%nat) anc
  then Err (TypeError (circular_message anc))
  else Ok ((current, match key with
                     | Some k => k
                     | None => str "[" ++ itoa (Z.of_nat (default 0%nat index)) ++ str "]"
                     end) :: anc).

Definition check_circular (c : context) (id depth : nat) (anc : list (nat * list Z)) :
    Prelude.result js_error (list (nat * list Z)) :=
  if (CIRCULAR_REF_DETECTION_DEPTH <? depth)%nat
  then detect_circular_reference id (c_key c) (c_index c) (c_parent c) anc
  else Ok anc.

Definition keys_of (n : node) : list (list Z) :=
  if bool_decide (own_keys n = []) then object_keys n else own_keys n.

(** Indentation is kept only for nested data. *)
Definition to_json_context (c : context) (id : nat) (val : value) : context :=
  {| c_value := val; c_depth := c_depth c;
     c_indentation := match val with TObject _ => c_indentation c | _ => None end;
     c_key := None; c_index := None; c_parent := Some id |}.

(** The loops over the members of an object and the elements of an array, for
    a given [append_value]. *)
Section Loops.
Context (append_value : context -> list Z -> list (nat * list Z) -> bool ->
           outcome (list Z * list (nat * list Z) * bool)).

Fixpoint members_loop (id depth : nat) (ind : option (list Z)) (keys : list (list Z))
    (value_written : bool) (res : list Z) (anc : list (nat * list Z)) :
    outcome (list Z * list (nat * list Z) * bool) :=
  match keys with
  | [] => Done (Ok (res, anc, value_written))
  | key :: keys' =>
      let* val := Done (get_prop (heap id) key) in
      let* (res, anc, add_comma) :=
        append_value {| c_value := val; c_depth := depth; c_indentation := ind; c_key := Some key;
                        c_index := None; c_parent := Some id |} res anc value_written in
      members_loop id depth ind keys' (value_written || add_comma) res anc
  end.

Fixpoint elems_loop (id depth : nat) (ind : option (list Z)) (i : nat) (vals : list (Prelude.result js_error value))
    (add_comma value_written : bool) (res : list Z) (anc : list (nat * list Z)) :
    outcome (list Z * list (nat * list Z) * bool) :=
  match vals with
  | [] => Done (Ok (res, anc, value_written))
  | v :: vals' =>
      let* val := Done v in
      let* (res, anc, add_comma) :=
        append_value {| c_value := val; c_depth := depth; c_indentation := ind; c_key := None;
                        c_index := Some i; c_parent := Some id |} res anc add_comma in
      elems_loop id depth ind (S i) vals' add_comma (value_written || add_comma) res anc
  end.

(** The call of [toJSON]: what it returns is written in place of the object,
    as a value without key or index. *)
Definition run_to_json (c : context) (id : nat) (res : list Z) (anc : list (nat * list Z)) :
    outcome (list Z * list (nat * list Z)) :=
  let* val := Done (to_json (heap id)) in
  let* (res, anc, _) := append_value (to_json_context c id val) res anc false in
  Done (Ok (res, anc)).

(** [iterate], with [c] at the depth of the members. *)
Definition iterate_with (c : context) (new_value : option value) (res : list Z)
    (anc : list (nat * list Z)) : outcome (list Z * list (nat * list Z)) :=
  match default (c_value c) new_value with
  | TObject id =>
      if is_array (heap id) then
        let* anc := Done (check_circular c id (c_depth c) anc) in
        let* (res, anc, written) :=
          elems_loop id (c_depth c) (c_indentation c) 0 (elems (heap id)) false false (res ++ str "[") anc in
        Done (Ok ((if written then write_indentation res (c_indentation c) (c_depth c) else res)
                    ++ str "]", anc))
      else
        let* b := Done (has_to_json (heap id)) in
        if b then run_to_json c id res anc
        else
          let* anc := Done (check_circular c id (c_depth c) anc) in
          let* (res, anc, written) :=
            members_loop id (c_depth c) (c_indentation c) (keys_of (heap id)) false (res ++ str "{") anc in
          Done (Ok ((if written then write_indentation res (c_indentation c) (c_depth c) else res)
                      ++ str "}", anc))
  | _ => Done (Ok (res, anc))
  end.
End Loops.

Definition deeper (c : context) : context :=
  {| c_value := c_value c; c_depth := S (c_depth c); c_indentation := c_indentation c;
     c_key := c_key c; c_index := c_index c; c_parent := c_parent c |}.

Fixpoint append_value (fuel : nat) (c : context) (res : list Z) (anc : list (nat * list Z))
    (add_comma : bool) : outcome (list Z * list (nat * list Z) * bool) :=
  match fuel with
  | O => OutOfFuel
  | S fuel' =>
      let* (res, status) := Done (write_primitive c add_comma res) in
      match status with
      | Written => Done (Ok (res, anc, true))
      | Ignored => Done (Ok (res, anc, false))
      | Iterate new_value =>
          let* (res, anc) := iterate_with (append_value fuel') (deeper c) new_value res anc in
          Done (Ok (res, anc, true))
      end
  end.

Definition iterate (fuel : nat) (c : context) (new_value : option value) (res : list Z)
    (anc : list (nat * list Z)) := iterate_with (append_value fuel) c new_value res anc.

(** The body of [json_stringify_replacer_space] once the replacer is known;
    [None] is [undefined].  After a replacer function the top level is iterated
    as the original value ([iterate(&mut context, None)]). *)
Definition stringify_top (fuel : nat) (v : value) (indentation : option (list Z)) :
    outcome (option (list Z)) :=
  let c := {| c_value := v; c_depth := 0; c_indentation := None; c_key := None; c_index := None;
              c_parent := None |} in
  let* (res, status) := Done (write_primitive c false []) in
  match status with
  | Written => Done (Ok (Some res))
  | Ignored => Done (Ok None)
  | Iterate _ =>
      let* (res, _) := iterate fuel
        {| c_value := v; c_depth := 1; c_indentation := indentation; c_key := None; c_index := None;
           c_parent := None |} None res [] in
      Done (Ok (Some res))
  end.
End Stringify.

(** The second argument of [JSON.stringify]. *)
Inductive replacer :=
| ReplacerFn (f : option nat -> list Z -> value -> Prelude.result js_error value)
| ReplacerArray (vals : list (Prelude.result js_error value))
| ReplacerOther.

Section Entry.
Context (itoa ryu_finite ryu_format : Z -> list Z).
Context (heap : nat -> node).

Fixpoint include_keys (vals : list (Prelude.result js_error value)) (filter : list (list Z)) :
    Prelude.result js_error (list (list Z)) :=
  match vals with
  | [] => Ok filter
  | v :: vals' =>
      let? v := v in
      include_keys vals' (match v with
                          | TString s => s :: filter
                          | TInt z => itoa z :: filter
                          | TFloat bits => ryu_format bits :: filter
                          | _ => filter
                          end)
  end.

Definition json_stringify_replacer_space (fuel : nat) (v : value) (r : option replacer)
    (indentation : option (list Z)) : outcome (option (list Z)) :=
  match r with
  | Some (ReplacerFn f) => stringify_top itoa ryu_finite heap (Some f) None fuel v indentation
  | Some (ReplacerArray vals) =>
      let* filter := Done (include_keys vals []) in
      stringify_top itoa ryu_finite heap None (Some filter) fuel v indentation
  | Some ReplacerOther | None => stringify_top itoa ryu_finite heap None None fuel v indentation
  end.

Definition json_stringify (fuel : nat) (v : value) : outcome (option (list Z)) :=
  json_stringify_replacer_space fuel v None None.

Definition json_stringify_replacer (fuel : nat) (v : value) (r : option replacer) : outcome (option (list Z)) :=
  json_stringify_replacer_space fuel v r None.

(** [String::truncate], which panics ([None]) inside a character. *)
Definition truncate (s : list Z) (n : nat) : option (list Z) :=
  if (length s <? n)%nat then Some s
  else match s !! n with
       | Some b => if (128 <=? b) && (b <? 192) then None else Some (take n s)
       | None => Some s
       end.

(** The indentation for a [space] argument. *)
Definition space_value (space : value) : option (option (list Z)) :=
  match space with
  | TString s => Some <$> truncate s 20
  | TInt number => Some (if 0 <? number then Some (repeat [32] (Z.to_nat (Z.min 10 number))) else None)
  | _ => Some None
  end.

(** The function installed as [JSON.stringify]; [None] is a panic. *)
Definition stringify_fn (fuel : nat) (v : value) (r : option replacer) (space : option value) :
    option (outcome (option (list Z))) :=
  match r, space with
  | Some r, Some space =>
      let! ind := space_value space in
      Some (json_stringify_replacer_space fuel v (Some r) ind)
  | Some r, None => Some (json_stringify_replacer_space fuel v (Some r) None)
  | None, _ => Some (json_stringify_replacer_space fuel v None None)
  end.
End Entry.

(** ** The text [JSON.stringify] promises *)

#[warnings="-register-all"]
Inductive json :=
| JNull | JBool (b : bool) | JInt (z : Z) | JFloat (bits : Z) | JString (s : list Z)
| JArr (js : list json) | JObj (ms : list (list Z * json)).

Definition line (ind : option (list Z)) (d : nat) : list Z :=
  match ind with
  | Some s => 10 :: repeat s d
  | None => []
  end.

Definition quoted (s : list Z) : list Z := [34] ++ escape_ref s ++ [34].

Definition key_text (ind : option (list Z)) (k : list Z) : list Z :=
  quoted k ++ str ":" ++ (if bool_decide (is_Some ind) then [32] else []).

Section Reference.
Context (itoa ryu_finite : Z -> list Z).

Definition container (ind : option (list Z)) (d : nat) (op cl : list Z) (items : list (list Z)) : list Z :=
  match items with
  | [] => op ++ cl
  | _ => op ++ join_with [44] items ++ line ind d ++ cl
  end.

Fixpoint print (ind : option (list Z)) (d : nat) (j : json) : list Z :=
  match j with
  | JNull => str "null"
  | JBool b => if b then str "true" else str "false"
  | JInt z => itoa z
  | JFloat bits => float_text ryu_finite bits
  | JString s => quoted s
  | JArr js =>
      container ind d (str "[") (str "]")
        (map (fun j => line ind (S d) ++ print ind (S d) j) js)
  | JObj ms =>
      container ind d (str "{") (str "}")
        (map (fun '(k, j) => line ind (S d) ++ key_text ind k ++ print ind (S d) j) ms)
  end.
End Reference.

(** The tree a value unfolds to, down to [n] levels: [Some None] is a value
    that is left out of objects; [None] when it is deeper than [n], when
    reading it throws, when it has [toJSON], holds a BigInt, holds a function
    or a symbol in an array, or a string that is not made of bytes. *)
Section Tree.
Context (heap : nat -> node).

Definition ok_opt {E A} (r : Prelude.result E A) : option A :=
  match r with
  | Ok v => Some v
  | Err _ => None
  end.

Definition bytes_opt (s : list Z) : option (list Z) :=
  if forallb (fun b => (0 <=? b) && (b <? 256)) s then Some s else None.

Fixpoint tree (n : nat) (v : value) : option (option json) :=
  match n with
  | O => None
  | S n' =>
      match v with
      | TNull => Some (Some JNull)
      | TUndefined | TSymbol | TFunction | TConstructor => Some None
      | TBool b => Some (Some (JBool b))
      | TInt z => Some (Some (JInt z))
      | TFloat bits => Some (Some (JFloat bits))
      | TString s => s ← bytes_opt s; Some (Some (JString s))
      | TBigInt => None
      | TObject o =>
          if is_array (heap o) then
            js ← mapM (fun r => v ← ok_opt r; t ← tree n' v;
                                match v, t with
                                | TUndefined, _ => Some JNull
                                | _, t => t
                                end) (elems (heap o));
            Some (Some (JArr js))
          else
            b ← ok_opt (has_to_json (heap o));
            if (b : bool) then None
            else
              ms ← mapM (fun k => k ← bytes_opt k; v ← ok_opt (get_prop (heap o) k); t ← tree n' v;
                                  Some (option_map (pair k) t)) (keys_of (heap o));
              Some (Some (JObj (omap id ms)))
      end
  end.
End Tree.

(** ** The separators *)

Lemma bytes_opt_Some s s' : bytes_opt s = Some s' -> s' = s /\ Forall byte_ok s.
Proof.
  unfold bytes_opt. destruct (forallb _ s) eqn:E; [|done]. intros [= <-]. split; [done|].
  apply Forall_forall. intros b Hb. rewrite forallb_forall in E.
  specialize (E b (proj1 (list_elem_of_In _ _) Hb)). simpl in E. bool_to_prop. by split.
Qed.

Lemma write_string_eq res s : Forall byte_ok s -> write_string res s = res ++ quoted s.
Proof.
  intros H. unfold write_string, escape_json_string, quoted. rewrite scanner_correct by done.
  by rewrite <- !(assoc_L (++)).
Qed.

Lemma write_key_eq res k (ind : option (list Z)) :
  Forall byte_ok k -> write_key res k (bool_decide (is_Some ind)) = res ++ key_text ind k.
Proof.
  intros H. unfold write_key, escape_json_string, key_text, quoted. rewrite scanner_correct by done.
  by rewrite <- !(assoc_L (++)).
Qed.

(** What is written before a value: the comma, the new line and the key. *)
Definition lead (c : context) (add_comma : bool) : list Z :=
  (if add_comma then [44] else []) ++ line (c_indentation c) (c_depth c)
  ++ (match c_key c with Some k => key_text (c_indentation c) k | None => [] end).

Definition key_ok (c : context) : Prop :=
  match c_key c with
  | Some k => Forall byte_ok k
  | None => True
  end.

Definition separated (c : context) (add_comma : bool) (res : list Z) : list Z :=
  match c_indentation c with
  | Some ind => write_indented_separator res (c_key c) add_comma ind (c_depth c)
  | None =>
      let res := write_sep res add_comma false in
      match c_key c with
      | Some key => write_key res key false
      | None => res
      end
  end.

Lemma separated_eq c ac res : key_ok c -> separated c ac res = res ++ lead c ac.
Proof.
  unfold key_ok, separated, lead, write_indented_separator, write_sep, line.
  destruct (c_indentation c) as [ind|], (c_key c) as [k|]; intros Hk;
    try rewrite (write_key_eq _ k (Some ind)) by done; try rewrite (write_key_eq _ k None) by done;
    rewrite ?app_nil_r, <- ?(assoc_L (++)); by destruct ac.
Qed.

(** Items separated by commas, the first one preceded by a comma or not. *)
Fixpoint sep_items (comma : bool) (items : list (list Z)) : list Z :=
  match items with
  | [] => []
  | x :: items' => (if comma then [44] else []) ++ x ++ sep_items true items'
  end.

Lemma sep_items_join items : sep_items false items = join_with [44] items.
Proof.
  destruct items as [|x items]; [done|]. revert x.
  induction items as [|y items IH]; intros x; simpl; [by rewrite app_nil_r|].
  f_equal. apply (f_equal (cons 44)), IH.
Qed.

Lemma close_container ind d op cl items res :
  (if negb (bool_decide (items = [])) then write_indentation (res ++ op ++ sep_items false items) ind (S d)
   else res ++ op ++ sep_items false items) ++ cl
  = res ++ container ind d op cl items.
Proof.
  rewrite sep_items_join. unfold container, write_indentation, line.
  destruct (bool_decide_reflect (items = [])) as [->|Hne]; cbn [negb].
  - simpl. by rewrite app_nil_r, <- (assoc_L (++)).
  - destruct items as [|x items]; [done|].
    replace (S d - 1)%nat with d by lia. destruct ind; by rewrite <- !(assoc_L (++)).
Qed.

(** ** Circular references *)

Section Graph.
Context (itoa : Z -> list Z) (heap : nat -> node).

(** The objects the walk visits from an object. *)
Definition edge (p o : nat) : Prop :=
  if is_array (heap p) then Ok (TObject o) ∈ elems (heap p)
  else exists k, k ∈ keys_of (heap p) /\ get_prop (heap p) k = Ok (TObject o).

Lemma mapM_elem {A B} (f : A -> option B) l r x :
  mapM f l = Some r -> x ∈ l -> is_Some (f x).
Proof.
  intros H Hx. apply mapM_Some_1 in H. apply list_elem_of_lookup_1 in Hx as [i Hi].
  destruct (Forall2_lookup_l _ _ _ _ _ H Hi) as (y & _ & Hy). by exists y.
Qed.

Lemma tree_edge n p o :
  is_Some (tree heap (S n) (TObject p)) -> edge p o -> is_Some (tree heap n (TObject o)).
Proof.
  unfold edge. simpl. destruct (is_array (heap p)).
  - intros [t Ht] Ho. apply bind_Some in Ht as (js & Hm & _).
    destruct (mapM_elem _ _ _ _ Hm Ho) as [j Hj]. simpl in Hj.
    apply bind_Some in Hj as (t' & Ht' & _). by exists t'.
  - intros [t Ht] (k & Hk & Hv). apply bind_Some in Ht as (b & _ & Ht). destruct b; [done|].
    apply bind_Some in Ht as (ms & Hm & _). destruct (mapM_elem _ _ _ _ Hm Hk) as [m Hj].
    apply bind_Some in Hj as (k' & Hk' & Hj). apply bytes_opt_Some in Hk' as [-> _].
    rewrite Hv in Hj. simpl in Hj. apply bind_Some in Hj as (t' & Ht' & _). by exists t'.
Qed.

Lemma tree_reach p o :
  tc edge p o -> forall n, is_Some (tree heap n (TObject p)) ->
  exists m, (m < n)%nat /\ is_Some (tree heap m (TObject o)).
Proof.
  induction 1 as [p o He|p q o He _ IH]; intros [|n] Hn; try (by destruct Hn).
  - exists n. split; [lia|]. by eapply tree_edge.
  - destruct (IH n) as (m & Hm & Ht); [by eapply tree_edge|]. exists m. split; [lia|done].
Qed.

Lemma tree_acyclic n o : is_Some (tree heap n (TObject o)) -> ~ tc edge o o.
Proof.
  induction (lt_wf n) as [n _ IH]. intros Hn Hc.
  destruct (tree_reach _ _ Hc n Hn) as (m & Hm & Ht). by apply (IH m Hm Ht).
Qed.

(** Each recorded ancestor is reachable from all that come after it. *)
Definition chained (anc : list (nat * list Z)) : Prop :=
  StronglySorted (fun a b => tc edge b.1 a.1) anc.

Lemma pop_to_chained p anc : chained anc -> chained (pop_to p anc).
Proof.
  induction 1 as [|[q k] anc Hs IH Hf]; simpl; [constructor|].
  destruct (Nat.eqb_spec q p); [by constructor|done].
Qed.

Lemma pop_to_head p anc : pop_to p anc = [] \/ exists k rest, pop_to p anc = (p, k) :: rest.
Proof.
  induction anc as [|[q k] anc IH]; simpl; [by left|].
  destruct (Nat.eqb_spec q p) as [->|]; [right; by eexists _, _|done].
Qed.

Lemma detect_ok n o key index p anc :
  is_Some (tree heap n (TObject o)) -> chained anc -> edge p o ->
  exists anc', detect_circular_reference itoa o key index (Some p) anc = Ok anc' /\ chained anc'.
Proof.
  intros Hn Hc He. unfold detect_circular_reference. cbn [default id].
  pose proof (pop_to_chained p anc Hc) as Hs.
  assert (Hall : Forall (fun a => tc edge a.1 o) (pop_to p anc)).
  { destruct (pop_to_head p anc) as [E|(k & rest & E)]; rewrite E in *; [constructor|].
    apply StronglySorted_inv in Hs as [_ Hf]. constructor; [by apply tc_once|].
    eapply Forall_impl; [exact Hf|]. simpl. intros a Ha. eapply tc_r; [exact Ha|done]. }
  destruct (existsb _ (pop_to p anc)) eqn:E.
  - apply existsb_exists in E as (a & Ha & Hao). apply Nat.eqb_eq in Hao.
    rewrite Forall_forall in Hall. specialize (Hall a (proj2 (list_elem_of_In _ _) Ha)). simpl in Hall.
    rewrite Hao in Hall. by destruct (tree_acyclic n o Hn).
  - eexists. split; [done|]. by constructor.
Qed.
End Graph.

(** ** The walk prints the tree *)

Section Walk.
Context (itoa ryu_finite : Z -> list Z) (heap : nat -> node).
Abbreviation wp2 := (write_primitive itoa ryu_finite None None).
Abbreviation append := (append_value itoa ryu_finite heap None None).
Abbreviation print := (print itoa ryu_finite).
Abbreviation tree := (tree heap).
Abbreviation chained := (chained heap).

Lemma write_primitive_eq c ac res :
  wp2 c ac res =
  (let v := c_value c in
   if negb (bool_decide (is_Some (c_index c))) && ignorable v then Ok (res, Ignored)
   else if bool_decide (v = TBigInt) then Err (TypeError "Do not know how to serialize a BigInt")
   else
     let res := separated c ac res in
     match v with
     | TNull | TUndefined => Ok (res ++ str "null", Written)
     | TBool b => Ok (res ++ (if b then str "true" else str "false"), Written)
     | TInt z => Ok (res ++ itoa z, Written)
     | TFloat bits => Ok (res ++ float_text ryu_finite bits, Written)
     | TString s => Ok (write_string res s, Written)
     | _ => Ok (res, Iterate None)
     end).
Proof. done. Qed.

(** A call of [append] on a value that unfolds to [j]. *)
Definition prints (ap : context -> list Z -> list (nat * list Z) -> bool ->
                         outcome (list Z * list (nat * list Z) * bool)) (c : context) (j : json) : Prop :=
  forall res anc ac, chained anc ->
  exists anc', ap c res anc ac
    = Done (Ok (res ++ lead c ac ++ print (c_indentation c) (c_depth c) j, anc', true))
    /\ chained anc'.

Lemma append_ignored fuel n c res anc ac :
  (0 < fuel)%nat -> c_index c = None -> tree n (c_value c) = Some None ->
  append fuel c res anc ac = Done (Ok (res, anc, false)).
Proof.
  intros Hf Hi Ht. destruct fuel as [|fuel]; [lia|]. cbn [append_value].
  rewrite write_primitive_eq, Hi. destruct n as [|n]; [done|].
  destruct (c_value c) as [| | | | |s| | | | |o]; simpl in Ht; try done.
  - by destruct (bytes_opt s).
  - destruct (is_array (heap o)).
    + by apply bind_Some in Ht as (? & _ & ?).
    + apply bind_Some in Ht as ([] & _ & Ht); [done|]. by apply bind_Some in Ht as (? & _ & ?).
Qed.

Section Level.
#[local] Opaque key_text.
Context (n : nat) (ap : context -> list Z -> list (nat * list Z) -> bool ->
                         outcome (list Z * list (nat * list Z) * bool)).
Hypothesis ap_prints : forall c p j,
  tree n (c_value c) = Some (Some j) -> key_ok c -> c_parent c = Some p ->
  (forall o, c_value c = TObject o -> edge heap p o) -> prints ap c j.
Hypothesis ap_ignores : forall c res anc ac,
  tree n (c_value c) = Some None -> c_index c = None -> ap c res anc ac = Done (Ok (res, anc, false)).
Hypothesis ap_hole : forall c,
  (0 < n)%nat -> c_value c = TUndefined -> c_key c = None -> is_Some (c_index c) -> prints ap c JNull.

Definition elem_tree (r : Prelude.result js_error value) : option json :=
  v ← ok_opt r; t ← tree n v;
  match v, t with
  | TUndefined, _ => Some JNull
  | _, t => t
  end.

Definition member_tree (o : nat) (k : list Z) : option (option (list Z * json)) :=
  k ← bytes_opt k; v ← ok_opt (get_prop (heap o) k); t ← tree n v; Some (option_map (pair k) t).

Definition elem_text (ind : option (list Z)) (d : nat) (j : json) : list Z := line ind d ++ print ind d j.

Definition member_text (ind : option (list Z)) (d : nat) (m : list Z * json) : list Z :=
  let '(k, j) := m in line ind d ++ key_text ind k ++ print ind d j.

Lemma elem_prints c p j :
  elem_tree (Ok (c_value c)) = Some j -> c_key c = None -> is_Some (c_index c) -> c_parent c = Some p ->
  (forall o, c_value c = TObject o -> edge heap p o) -> prints ap c j.
Proof.
  unfold elem_tree. simpl. intros H Hk Hi Hp He. apply bind_Some in H as (t & Ht & H).
  destruct (decide (c_value c = TUndefined)) as [E|E].
  - rewrite E in H, Ht. injection H as <-. apply ap_hole; try done. by destruct n; [|lia].
  - apply ap_prints with p; try done; [|by unfold key_ok; rewrite Hk].
    rewrite Ht. destruct (c_value c); by f_equal.
Qed.

Lemma elems_loop_ok o d ind vals : forall i js ac res anc,
  mapM elem_tree vals = Some js -> chained anc ->
  (forall q, Ok (TObject q) ∈ vals -> edge heap o q) ->
  exists anc', elems_loop ap o d ind i vals ac ac res anc
    = Done (Ok (res ++ sep_items ac (map (elem_text ind d) js), anc', ac || negb (bool_decide (js = []))))
    /\ chained anc'.
Proof.
  induction vals as [|r vals IH]; intros i js ac res anc Hm Hc He.
  - injection Hm as <-. exists anc. simpl. by rewrite app_nil_r, orb_false_r.
  - simpl in Hm. apply bind_Some in Hm as (j & Hj & Hm). apply bind_Some in Hm as (js' & Hm & [= <-]).
    destruct r as [v|]; [|done]. simpl.
    set (c := {| c_value := v |}).
    destruct (elem_prints c o j Hj eq_refl ltac:(by eexists) eq_refl) with (res := res) (anc := anc) (ac := ac)
      as (anc1 & Hap & Hc1); [|done|].
    { intros q Hq. apply He. simpl in Hq. subst v. by left. }
    rewrite Hap. simpl. rewrite orb_true_r.
    destruct (IH (S i) js' true (res ++ lead c ac ++ print ind d j) anc1 Hm Hc1) as (anc2 & Hl & Hc2).
    { intros q Hq. apply He. by right. }
    exists anc2. split; [|done]. rewrite Hl. unfold lead, elem_text. simpl. rewrite app_nil_r.
    do 4 f_equal. by rewrite <- !(assoc_L (++)).
Qed.

Lemma members_loop_ok o d ind keys : forall ms vw res anc,
  mapM (member_tree o) keys = Some ms -> chained anc ->
  (forall k q, k ∈ keys -> get_prop (heap o) k = Ok (TObject q) -> edge heap o q) ->
  exists anc', members_loop heap ap o d ind keys vw res anc
    = Done (Ok (res ++ sep_items vw (map (member_text ind d) (omap id ms)), anc',
                vw || negb (bool_decide (omap id ms = []))))
    /\ chained anc'.
Proof.
  induction keys as [|k keys IH]; intros ms vw res anc Hm Hc He.
  - injection Hm as <-. exists anc. simpl. by rewrite app_nil_r, orb_false_r.
  - simpl in Hm. apply bind_Some in Hm as (m & Hj & Hm). apply bind_Some in Hm as (ms' & Hm & [= <-]).
    apply bind_Some in Hj as (k' & Hk & Hj). apply bytes_opt_Some in Hk as [-> Hk].
    simpl. destruct (get_prop (heap o) k) as [v|] eqn:Hg; [|done]. simpl in Hj |- *.
    apply bind_Some in Hj as (t & Ht & [= <-]).
    set (c := {| c_value := v |}).
    assert (He' : forall k q, k ∈ keys -> get_prop (heap o) k = Ok (TObject q) -> edge heap o q).
    { intros k' q Hq. apply He. by right. }
    destruct t as [j|]; simpl.
    + destruct (ap_prints c o j Ht Hk eq_refl) with (res := res) (anc := anc) (ac := vw)
        as (anc1 & Hap & Hc1); [|done|].
      { intros q Hq. simpl in Hq. subst v. apply He with k; [by left|done]. }
      rewrite Hap. simpl. rewrite orb_true_r.
      destruct (IH ms' true (res ++ lead c vw ++ print ind d j) anc1 Hm Hc1 He') as (anc2 & Hl & Hc2).
      exists anc2. split; [|done]. rewrite Hl. unfold lead, member_text. simpl.
      do 4 f_equal. by rewrite <- !(assoc_L (++)).
    + rewrite (ap_ignores c) by done. simpl. rewrite orb_false_r. by apply IH.
Qed.

Lemma iterate_ok c o j d res anc :
  tree (S n) (TObject o) = Some (Some j) -> c_value c = TObject o -> c_depth c = S d -> chained anc ->
  ((20 < S d)%nat -> exists p, c_parent c = Some p /\ edge heap p o) ->
  exists anc', iterate_with itoa heap ap c None res anc
    = Done (Ok (res ++ print (c_indentation c) d j, anc')) /\ chained anc'.
Proof.
  intros Ht Hv Hd Hc Hp. unfold iterate_with. cbn [default]. rewrite Hv.
  assert (Hck : exists anc', check_circular itoa c o (c_depth c) anc = Ok anc' /\ chained anc').
  { unfold check_circular, CIRCULAR_REF_DETECTION_DEPTH. rewrite Hd.
    destruct (Nat.ltb_spec 20 (S d)) as [Hlt|]; [|by exists anc].
    destruct (Hp Hlt) as (p & -> & He). by apply detect_ok with (S n). }
  destruct Hck as (anc1 & Hck & Hc1). rewrite Hck. simpl in Ht.
  unfold edge in *. destruct (is_array (heap o)) eqn:Ha.
  - apply bind_Some in Ht as (js & Hm & [= <-]).
    destruct (elems_loop_ok o (c_depth c) (c_indentation c) (elems (heap o)) 0 js false (res ++ str "[") anc1
      Hm Hc1) as (anc2 & Hl & Hc2); [unfold edge; by rewrite Ha|].
    exists anc2. split; [|done]. cbn [obind]. rewrite Hl. cbn [obind orb]. do 3 f_equal.
    transitivity (res ++ container (c_indentation c) d (str "[") (str "]")
                    (map (elem_text (c_indentation c) (S d)) js)); [|done].
    rewrite <- close_container, Hd.
    replace (bool_decide (map _ js = [])) with (bool_decide (js = []))
      by (apply bool_decide_ext; by destruct js).
    by rewrite <- !(assoc_L (++)).
  - apply bind_Some in Ht as (b & Hb & Ht). destruct (has_to_json (heap o)) as [b'|]; [|done].
    injection Hb as ->. destruct b; [done|]. apply bind_Some in Ht as (ms & Hm & [= <-]).
    destruct (members_loop_ok o (c_depth c) (c_indentation c) (keys_of (heap o)) ms false (res ++ str "{") anc1
      Hm Hc1) as (anc2 & Hl & Hc2); [unfold edge; rewrite Ha; eauto|].
    exists anc2. split; [|done]. cbn [obind]. rewrite Hl. cbn [obind orb]. do 3 f_equal.
    transitivity (res ++ container (c_indentation c) d (str "{") (str "}")
                    (map (member_text (c_indentation c) (S d)) (omap id ms))); [|done].
    rewrite <- close_container, Hd.
    replace (bool_decide (map _ (omap id ms) = [])) with (bool_decide (omap id ms = []))
      by (apply bool_decide_ext; by destruct (omap id ms)).
    by rewrite <- !(assoc_L (++)).
Qed.
End Level.

Lemma append_hole fuel c :
  (0 < fuel)%nat -> c_value c = TUndefined -> c_key c = None -> is_Some (c_index c) ->
  prints (append fuel) c JNull.
Proof.
  intros Hf Hv Hk Hi res anc ac Hc. exists anc. split; [|done].
  destruct fuel as [|fuel]; [lia|]. cbn [append_value]. rewrite write_primitive_eq, Hv.
  rewrite bool_decide_eq_true_2 by done. simpl.
  rewrite separated_eq by (unfold key_ok; by rewrite Hk). by rewrite <- (assoc_L (++)).
Qed.

Lemma append_prints n : forall fuel c p j,
  (n <= fuel)%nat -> tree n (c_value c) = Some (Some j) -> key_ok c -> c_parent c = Some p ->
  (forall o, c_value c = TObject o -> edge heap p o) -> prints (append fuel) c j.
Proof.
  induction n as [|n IH]; intros fuel c p j Hf Ht Hk Hp He res anc ac Hc; [done|].
  destruct fuel as [|fuel]; [lia|]. cbn [append_value]. rewrite write_primitive_eq.
  destruct (c_value c) as [| |b|z|bits|s| | | | |o] eqn:Hv; simpl in Ht; try done;
    cbn [ignorable]; rewrite ?andb_false_r; rewrite bool_decide_eq_false_2 by done.
  1-4: (injection Ht as <-; exists anc; split; [|done]; cbn [obind]; rewrite separated_eq by done;
            by rewrite <- (assoc_L (++))).
  - simpl in Ht. apply bind_Some in Ht as (s' & Hs & [= <-]). apply bytes_opt_Some in Hs as [-> Hs].
    exists anc. split; [|done]. simpl. rewrite write_string_eq, separated_eq by done.
    by rewrite <- (assoc_L (++)).
  - simpl obind. rewrite separated_eq by done.
    destruct (iterate_ok n (append fuel)) with (c := deeper c) (o := o) (j := j) (d := c_depth c)
      (res := res ++ lead c ac) (anc := anc) as (anc' & Hit & Hc'); try done.
    + intros c' p' j' ? ? ? ?. apply (IH fuel c' p'); [lia|done..].
    + intros c' res' anc' ac' Ht' Hi'. apply (append_ignored fuel n); try done.
      destruct n; [done|lia].
    + intros c' Hn. apply append_hole. lia.
    + intros _. exists p. by split; [|apply He].
    + exists anc'. split; [|done]. simpl in Hit |- *. rewrite Hit. simpl. by rewrite <- (assoc_L (++)).
Qed.

Lemma stringify_tree n fuel v ind t :
  tree n v = Some t -> (n <= fuel)%nat ->
  stringify_top itoa ryu_finite heap None None fuel v ind = Done (Ok (print ind 0 <$> t)).
Proof.
  intros Ht Hf. unfold stringify_top. rewrite write_primitive_eq. cbn [c_value c_index].
  destruct n as [|n]; [done|].
  destruct v as [| |b|z|bits|s| | | | |o]; simpl in Ht; try (by injection Ht as <-); try done.
  - apply bind_Some in Ht as (s' & Hs & [= <-]). apply bytes_opt_Some in Hs as [-> Hs].
    cbn [ignorable andb negb bool_decide decide]. rewrite andb_false_r. simpl obind.
    by rewrite write_string_eq.
  - assert (exists j, t = Some j) as [j ->].
    { destruct (is_array (heap o)).
      - apply bind_Some in Ht as (js & _ & [= <-]). by eexists.
      - apply bind_Some in Ht as ([] & _ & Ht); [done|].
        apply bind_Some in Ht as (ms & _ & [= <-]). by eexists. }
    simpl obind. unfold iterate.
    destruct (iterate_ok n (append fuel)) with
      (c := {| c_value := TObject o; c_depth := 1; c_indentation := ind; c_key := None;
               c_index := None; c_parent := None |}) (o := o) (j := j) (d := 0%nat)
      (res := @nil Z) (anc := @nil (nat * list Z)) as (anc' & Hit & Hc'); try done.
    + intros c' p' j' ? ? ? ?. apply (append_prints n fuel c' p'); [lia|done..].
    + intros c' res' anc' ac' Ht' Hi'. apply (append_ignored fuel n); try done.
      destruct n; [done|lia].
    + intros c' Hn. apply append_hole. lia.
    + constructor.
    + lia.
    + unfold separated, write_sep. cbn [c_indentation c_key app]. rewrite Hit. done.
Qed.
End Walk.

(** ** Termination, cycles included *)

(** The run ends; what it returns satisfies [post]. *)
Definition ends {A} (post : A -> Prop) (o : outcome A) : Prop :=
  exists r, o = Done r /\ (forall x, r = Ok x -> post x).

Lemma ends_bind {A B} (P : A -> Prop) (Q : B -> Prop) (o : outcome A) (k : A -> outcome B) :
  ends P o -> (forall x, P x -> ends Q (k x)) -> ends Q (obind o k).
Proof. intros (r & -> & HP) Hk. destruct r as [x|e]; simpl; [by apply Hk, HP|]. by exists (Err e). Qed.

Lemma ends_done {A} (P : A -> Prop) (r : Prelude.result js_error A) :
  (forall x, r = Ok x -> P x) -> ends P (Done r).
Proof. intros H. by exists r. Qed.

Lemma ends_impl {A} (P Q : A -> Prop) (o : outcome A) :
  ends P o -> (forall x, P x -> Q x) -> ends Q o.
Proof. intros (r & -> & HP) H. exists r. split; [done|]. intros x E. by apply H, HP. Qed.

Lemma ends_ok {A} (P : A -> Prop) (x : A) : P x -> ends P (Done (Ok x)).
Proof. intros H. apply ends_done. by intros ? [= <-]. Qed.

(** Finitely many objects, none of which has [toJSON]. *)
Record finite_heap (heap : nat -> node) (N : nat) : Prop := {
  fh_props : forall o k q, get_prop (heap o) k = Ok (TObject q) -> (q < N)%nat;
  fh_elems : forall o q, Ok (TObject q) ∈ elems (heap o) -> (q < N)%nat;
  fh_plain : forall o, has_to_json (heap o) <> Ok true;
}.

Section Termination.
Context (itoa ryu_finite : Z -> list Z) (heap : nat -> node) (N : nat).
Context (filter : option (list (list Z))).
Hypothesis Hheap : finite_heap heap N.
Abbreviation append := (append_value itoa ryu_finite heap None filter).

Definition distinct (anc : list (nat * list Z)) : Prop :=
  NoDup anc.*1 /\ Forall (fun o => (o < N)%nat) anc.*1.

Lemma path_bound path anc : distinct anc -> path `suffix_of` anc.*1 -> (length path <= N)%nat.
Proof.
  intros [Hn Hf] [pre E]. rewrite E in Hn, Hf. apply NoDup_app in Hn as (_ & _ & Hn).
  apply Forall_app in Hf as [_ Hf]. rewrite <- (length_seq N 0).
  apply submseteq_length, NoDup_submseteq; [done|]. intros o Ho. rewrite Forall_forall in Hf.
  apply elem_of_seq. specialize (Hf o Ho). simpl in Hf. lia.
Qed.

Lemma pop_to_suffix p anc : (pop_to p anc).*1 `suffix_of` anc.*1.
Proof.
  induction anc as [|[q k] anc IH]; simpl; [done|].
  destruct (q =? p)%nat; [done|]. by apply suffix_cons_r.
Qed.

Lemma pop_to_exact p rest anc :
  NoDup anc.*1 -> (p :: rest) `suffix_of` anc.*1 -> (pop_to p anc).*1 = p :: rest.
Proof.
  induction anc as [|[q k] anc IH]; simpl; intros Hn Hs.
  - by apply suffix_nil_inv in Hs.
  - apply NoDup_cons in Hn as [Hq Hn].
    apply suffix_cons_inv in Hs as [E|Hs]; [injection E as -> ->; by rewrite Nat.eqb_refl|].
    destruct (Nat.eqb_spec q p) as [->|]; [|by apply IH].
    destruct Hq. eapply elem_of_suffix; [|exact Hs]. by left.
Qed.

Lemma distinct_suffix anc anc' : distinct anc -> anc'.*1 `suffix_of` anc.*1 -> distinct anc'.
Proof.
  intros [Hn Hf] [pre E]. rewrite E in Hn, Hf. apply NoDup_app in Hn as (_ & _ & Hn).
  by apply Forall_app in Hf as [_ Hf].
Qed.

Lemma detect_distinct o key index p anc anc' :
  distinct anc -> (o < N)%nat ->
  detect_circular_reference itoa o key index (Some p) anc = Ok anc' ->
  distinct anc' /\ anc'.*1 = o :: (pop_to p anc).*1.
Proof.
  intros Hd Ho. unfold detect_circular_reference. cbn [default id].
  destruct (existsb _ (pop_to p anc)) eqn:E; [done|]. intros [= <-]. split; [|done].
  pose proof (distinct_suffix _ _ Hd (pop_to_suffix p anc)) as [Hn Hf].
  split; simpl; constructor; try done. intros Hin.
  apply list_elem_of_fmap in Hin as (a & -> & Ha).
  rewrite (proj2 (existsb_exists _ _)) in E; [done|].
  exists a. split; [by apply list_elem_of_In|apply Nat.eqb_refl].
Qed.

(** The state of the walk among the members of [p] at depth [d]: below the
    detection depth [path] is the recorded path from there to [p]. *)
Definition walking (p d : nat) (path : list nat) (anc : list (nat * list Z)) : Prop :=
  distinct anc /\ path `suffix_of` anc.*1 /\ (d - 20 <= length path)%nat
  /\ ((d <= 20)%nat -> path = []) /\ ((20 < d)%nat -> exists rest, path = p :: rest).

(** A value that is an object is one of the heap. *)
Definition known (v : value) : Prop := forall o, v = TObject o -> (o < N)%nat.

Definition good (p d : nat) (path : list nat)
    (ap : context -> list Z -> list (nat * list Z) -> bool ->
          outcome (list Z * list (nat * list Z) * bool)) : Prop :=
  forall c res anc ac, c_depth c = d -> c_parent c = Some p -> known (c_value c) -> walking p d path anc ->
  ends (fun x => walking p d path x.1.2) (ap c res anc ac).

Lemma elems_loop_ends p d path ap ind vals : forall i ac vw res anc,
  good p d path ap -> (forall v, Ok v ∈ vals -> known v) -> walking p d path anc ->
  ends (fun x => walking p d path x.1.2) (elems_loop ap p d ind i vals ac vw res anc).
Proof.
  induction vals as [|r vals IH]; intros i ac vw res anc Hap Hk Hw; [by apply ends_ok|]. cbn [elems_loop].
  apply ends_bind with (fun v => r = Ok v); [by apply ends_done|]. intros v ->.
  eapply ends_bind.
  - apply Hap; try done. apply Hk. by left.
  - intros [[res' anc'] ac'] Hw'. apply IH; try done. intros v' Hv'. apply Hk. by right.
Qed.

Lemma members_loop_ends p d path ap ind keys : forall vw res anc,
  good p d path ap -> walking p d path anc ->
  ends (fun x => walking p d path x.1.2) (members_loop heap ap p d ind keys vw res anc).
Proof.
  induction keys as [|k keys IH]; intros vw res anc Hap Hw; [by apply ends_ok|]. cbn [members_loop].
  apply ends_bind with (fun v => get_prop (heap p) k = Ok v); [by apply ends_done|]. intros v Hv.
  eapply ends_bind.
  - apply Hap; try done. intros o Ho. simpl in Ho. subst v. by eapply fh_props.
  - intros [[res' anc'] ac'] Hw'. by apply IH.
Qed.

(** Entering [o]: the check throws, or the walk goes on inside [o] on a path
    from which [back] is recovered, for an [o] below [p] the path of [p]. *)
Definition enters (c : context) (o d : nat) (anc : list (nat * list Z))
    (back : list (nat * list Z) -> Prop) : Prop :=
  ends (fun anc1 => exists path', walking o (S d) path' anc1
                    /\ (forall anc2, walking o (S d) path' anc2 -> back anc2))
       (Done (check_circular itoa c o (S d) anc)).

Lemma check_circular_walking c o p d path anc :
  c_parent c = Some p -> (o < N)%nat -> walking p d path anc ->
  enters c o d anc (walking p d path).
Proof.
  intros Hp Ho (Hd & Hs & Hl & H0 & H1). apply ends_done. intros anc1 Hck.
  unfold check_circular, CIRCULAR_REF_DETECTION_DEPTH in Hck. rewrite Hp in Hck.
  destruct (Nat.ltb_spec 20 (S d)) as [Hlt|Hge].
  - apply detect_distinct in Hck as [Hd1 E]; [|done..].
    exists (o :: (pop_to p anc).*1). split.
    + split_and!; [exact Hd1|by rewrite E| |lia|by eexists]. simpl.
      destruct (decide (20 < d)%nat) as [Hlt'|]; [|lia]. destruct (H1 Hlt') as [rest ->].
      rewrite (pop_to_exact p rest) by (by destruct Hd). simpl in *. lia.
    + intros anc2 (Hd2 & Hs2 & _). split_and!; [exact Hd2| |lia|done|done].
      destruct (decide (20 < d)%nat) as [Hlt'|]; [|rewrite H0 by lia; apply suffix_nil].
      destruct (H1 Hlt') as [rest ->]. rewrite (pop_to_exact p rest) in Hs2 by (by destruct Hd).
      by apply suffix_cons_l in Hs2.
  - injection Hck as <-. exists []. rewrite H0 by lia. split.
    + split_and!; [exact Hd|apply suffix_nil|simpl; lia|done|lia].
    + intros anc2 (Hd2 & _). split_and!; [exact Hd2|apply suffix_nil|simpl; lia|done|lia].
Qed.

Lemma iterate_ends c o d ap res anc back :
  (forall path', good o (S d) path' ap) ->
  c_value c = TObject o -> c_depth c = S d -> enters c o d anc back ->
  ends (fun x => back x.2) (iterate_with itoa heap ap c None res anc).
Proof.
  intros Hap Hv Hd Hen. unfold iterate_with. cbn [default]. rewrite Hv, Hd.
  destruct (is_array (heap o)).
  - eapply ends_bind; [exact Hen|]. intros anc1 (path' & Hw1 & Hback).
    eapply ends_bind.
    + apply elems_loop_ends with (path := path'); try done. intros v Hv' q ->. by eapply fh_elems.
    + intros [[res' anc'] vw] Hw'. by apply ends_ok, Hback.
  - apply ends_bind with (fun b => has_to_json (heap o) = Ok b); [by apply ends_done|].
    intros [|] Hb; [by destruct (fh_plain heap N Hheap o)|].
    eapply ends_bind; [exact Hen|]. intros anc1 (path' & Hw1 & Hback).
    eapply ends_bind; [by apply members_loop_ends with (path := path')|].
    intros [[res' anc'] vw] Hw'. by apply ends_ok, Hback.
Qed.

Lemma write_primitive_iterate c ac res res' nv :
  write_primitive itoa ryu_finite None filter c ac res = Ok (res', Iterate nv) -> nv = None.
Proof.
  unfold write_primitive, write_primitive2. intros H. repeat case_match; by simplify_eq.
Qed.

Lemma append_ends fuel : forall p d path, (N + 21 <= d + fuel)%nat -> good p d path (append fuel).
Proof.
  induction fuel as [|fuel IH]; intros p d path Hf c res anc ac Hd Hp Hk Hw.
  - destruct Hw as (Hdi & Hs & Hl & _). pose proof (path_bound _ _ Hdi Hs). lia.
  - cbn [append_value].
    apply ends_bind with (fun x => write_primitive itoa ryu_finite None filter c ac res = Ok x);
      [by apply ends_done|].
    intros [res' [| |nv]] Hwp; [by apply ends_ok..|].
    apply write_primitive_iterate in Hwp as ->.
    apply ends_bind with (fun x => walking p d path x.2); [|intros [? ?] ?; by apply ends_ok].
    destruct (c_value c) as [| | | | | | | | | |o] eqn:Hv;
      try (unfold iterate_with; simpl; rewrite Hv; by apply ends_ok).
    apply (iterate_ends _ o d); try done; simpl.
    + intros path'. apply IH. lia.
    + by rewrite Hd.
    + apply check_circular_walking; try done. by apply Hk.
Qed.

Lemma stringify_ends fuel v ind :
  known v -> (N + 20 <= fuel)%nat ->
  ends (fun _ => True) (stringify_top itoa ryu_finite heap None filter fuel v ind).
Proof.
  intros Hk Hf. unfold stringify_top. set (c := {| c_value := v |}).
  apply ends_bind with (fun x => write_primitive itoa ryu_finite None filter c false [] = Ok x);
    [by apply ends_done|].
  intros [res' [| |nv]] _; [by apply ends_ok..|].
  apply ends_bind with (fun _ => True); [|intros [? ?] _; by apply ends_ok].
  unfold iterate. destruct v as [| | | | | | | | | |o]; try by apply ends_ok.
  apply (iterate_ends _ o 0 _ _ _ (fun _ => True)); try done.
  - intros path'. apply append_ends. lia.
  - apply ends_ok. exists []. split; [|done].
    split_and!; [split; constructor|apply suffix_nil|simpl; lia|done|lia].
Qed.
End Termination.

(** ** Cycles are not printed *)

Section Cycles.
Context (itoa ryu_finite : Z -> list Z) (heap : nat -> node).
Hypothesis plain : forall o, has_to_json (heap o) <> Ok true.
Abbreviation append := (append_value itoa ryu_finite heap None None).

(** Some call on [v] returns. *)
Definition returns (ap : context -> list Z -> list (nat * list Z) -> bool ->
                         outcome (list Z * list (nat * list Z) * bool)) (v : value) : Prop :=
  exists c res anc ac x, c_value c = v /\ ap c res anc ac = Done (Ok x).

Lemma elems_loop_returns ap p d ind vals v : forall i ac vw res anc x,
  elems_loop ap p d ind i vals ac vw res anc = Done (Ok x) -> Ok v ∈ vals -> returns ap v.
Proof.
  induction vals as [|r vals IH]; intros i ac vw res anc x Hl Hv; [by apply elem_of_nil in Hv|].
  cbn [elems_loop] in Hl. destruct r as [v'|]; [|done]. cbn [obind] in Hl.
  destruct (ap _ res anc ac) as [[[[res1 anc1] ac1]|]|] eqn:E; try done. cbn [obind] in Hl.
  apply elem_of_cons in Hv as [[= <-]|Hv]; [|by eapply IH]. eexists _, _, _, _, _. by split; [|exact E].
Qed.

Lemma members_loop_returns ap p d ind keys k v : forall vw res anc x,
  members_loop heap ap p d ind keys vw res anc = Done (Ok x) -> k ∈ keys ->
  get_prop (heap p) k = Ok v -> returns ap v.
Proof.
  induction keys as [|k' keys IH]; intros vw res anc x Hl Hk Hv; [by apply elem_of_nil in Hk|].
  cbn [members_loop] in Hl. destruct (get_prop (heap p) k') as [v'|] eqn:Hg; [|done]. cbn [obind] in Hl.
  destruct (ap _ res anc vw) as [[[[res1 anc1] ac1]|]|] eqn:E; try done. cbn [obind] in Hl.
  apply elem_of_cons in Hk as [->|Hk]; [|by eapply IH].
  rewrite Hv in Hg. injection Hg as <-. eexists _, _, _, _, _. by split; [|exact E].
Qed.

Lemma iterate_returns ap c o q res anc x :
  c_value c = TObject o -> edge heap o q ->
  iterate_with itoa heap ap c None res anc = Done (Ok x) -> returns ap (TObject q).
Proof.
  unfold iterate_with, edge. cbn [default id]. intros -> He H. destruct (is_array (heap o)).
  - destruct (check_circular _ _ _ _ _); [|done]. cbn [obind] in H.
    destruct (elems_loop _ _ _ _ _ _ _ _ _ _) as [[y|]|] eqn:E; try done.
    by eapply elems_loop_returns.
  - destruct (has_to_json (heap o)) as [[]|] eqn:Hj; try done; [by apply plain in Hj|].
    cbn [obind] in H. destruct (check_circular _ _ _ _ _); [|done]. cbn [obind] in H.
    destruct (members_loop _ _ _ _ _ _ _ _ _) as [[y|]|] eqn:E; try done.
    destruct He as (k & Hk & Hv). by eapply members_loop_returns.
Qed.

Lemma append_returns fuel o q :
  returns (append fuel) (TObject o) -> edge heap o q ->
  exists fuel', fuel = S fuel' /\ returns (append fuel') (TObject q).
Proof.
  intros (c & res & anc & ac & x & Hv & H) He. destruct fuel as [|fuel]; [done|].
  exists fuel. split; [done|]. cbn [append_value] in H.
  rewrite write_primitive_eq, Hv in H. cbn [ignorable] in H. rewrite andb_false_r in H.
  rewrite bool_decide_eq_false_2 in H by done. cbn [obind] in H.
  destruct (iterate_with _ _ _ _ _ _ _) as [[y|]|] eqn:E; try done.
  eapply iterate_returns; [|exact He|exact E]. exact Hv.
Qed.

Lemma append_reach o q : tc (edge heap) o q -> forall fuel,
  returns (append fuel) (TObject o) -> exists fuel', (fuel' < fuel)%nat /\ returns (append fuel') (TObject q).
Proof.
  induction 1 as [o q He|o r q He _ IH]; intros fuel Hr;
    destruct (append_returns fuel o _ Hr He) as (f & -> & Hf).
  - exists f. split; [lia|done].
  - destruct (IH f Hf) as (f' & ? & ?). exists f'. split; [lia|done].
Qed.

Lemma append_cycle fuel o : tc (edge heap) o o -> ~ returns (append fuel) (TObject o).
Proof.
  intros Hc. induction (lt_wf fuel) as [fuel _ IH]. intros Hr.
  destruct (append_reach o o Hc fuel Hr) as (f & Hf & Hr'). by apply (IH f Hf).
Qed.

Lemma stringify_cycle fuel o q ind x :
  rtc (edge heap) o q -> tc (edge heap) q q ->
  stringify_top itoa ryu_finite heap None None fuel (TObject o) ind <> Done (Ok x).
Proof.
  intros Ho Hq H. unfold stringify_top in H. rewrite write_primitive_eq in H. simpl in H.
  unfold iterate in H. destruct (iterate_with _ _ _ _ _ _ _) as [[y|]|] eqn:E; try done.
  pose proof (tc_rtc_l _ _ _ Ho Hq) as Hoq.
  assert (Hstep : forall r, edge heap o r -> returns (append fuel) (TObject r)).
  { intros r Hr. eapply iterate_returns; [|exact Hr|exact E]. done. }
  inversion Hoq as [? ? He|? r ? He Hr]; subst; apply Hstep in He as Hret.
  - by apply append_cycle in Hret.
  - destruct (append_reach _ _ Hr _ Hret) as (f & _ & Hf). by apply append_cycle in Hf.
Qed.
End Cycles.

(** ** Properties *)

(** C1: a value that unfolds to a finite tree is printed as the reference
    text of the tree, compact or indented; [undefined] is returned for a value
    that has no text.  Shared objects are printed at each occurrence: the
    detection of cycles, which starts below depth 20, never rejects them. *)
Theorem json_stringify_correct itoa ryu_finite ryu_format heap n fuel v ind t :
  tree heap n v = Some t -> (n <= fuel)%nat ->
  json_stringify_replacer_space itoa ryu_finite ryu_format heap fuel v None ind
  = Done (Ok (print itoa ryu_finite ind 0 <$> t)).
Proof. apply stringify_tree. Qed.

(** C2: on a heap of [N] objects without [toJSON], cyclic or not, [N + 20]
    nesting levels are enough: the serializer ends, with or without a list of
    keys to include. *)
Theorem json_stringify_terminates itoa ryu_finite ryu_format heap N fuel v vals ind :
  finite_heap heap N -> known N v -> (N + 20 <= fuel)%nat ->
  json_stringify_replacer_space itoa ryu_finite ryu_format heap fuel v None ind <> OutOfFuel
  /\ json_stringify_replacer_space itoa ryu_finite ryu_format heap fuel v (Some (ReplacerArray vals)) ind
     <> OutOfFuel.
Proof.
  intros Hh Hk Hf. split; simpl.
  - destruct (stringify_ends itoa ryu_finite heap N None Hh fuel v ind Hk Hf) as (r & -> & _). done.
  - destruct (include_keys itoa ryu_format vals []) as [filter|]; [|done]. simpl.
    destruct (stringify_ends itoa ryu_finite heap N (Some filter) Hh fuel v ind Hk Hf) as (r & -> & _). done.
Qed.

(** A value from which a cycle can be reached is never printed: the
    serializer throws. *)
Theorem json_stringify_cycle_throws itoa ryu_finite ryu_format heap N fuel o q ind :
  finite_heap heap N -> (o < N)%nat -> (N + 20 <= fuel)%nat ->
  rtc (edge heap) o q -> tc (edge heap) q q ->
  exists e, json_stringify_replacer_space itoa ryu_finite ryu_format heap fuel (TObject o) None ind
            = Done (Err e).
Proof.
  intros Hh Ho Hf Hr Hc. simpl.
  destruct (stringify_ends itoa ryu_finite heap N None Hh fuel (TObject o) ind) as (r & E & _); [|done|].
  { by intros ? [= <-]. }
  destruct r as [x|e]; [|by exists e].
  by apply (stringify_cycle itoa ryu_finite heap (fh_plain heap N Hh) fuel o q ind) in E.
Qed.

(** ** Witnesses and concrete runs *)

Definition sample_digit (z : Z) : list Z := [48 + z].

Definition sample_object (ms : list (list Z * value)) : node :=
  {| is_array := false; own_keys := map fst ms; object_keys := [];
     get_prop := fun k => Ok (match list_find (fun p => p.1 = k) ms with
                              | Some (_, (_, v)) => v
                              | None => TUndefined
                              end);
     elems := []; has_to_json := Ok false; to_json := Err FromJs |}.

Definition sample_array (vs : list value) : node :=
  {| is_array := true; own_keys := []; object_keys := []; get_prop := fun _ => Ok TUndefined;
     elems := map Ok vs; has_to_json := Ok false; to_json := Err FromJs |}.

Definition sample_to_json (r : value) : node :=
  {| is_array := false; own_keys := []; object_keys := []; get_prop := fun _ => Ok TUndefined;
     elems := []; has_to_json := Ok true; to_json := Ok r |}.

Definition sample_heap (o : nat) : node :=
  match o with
  | 0%nat => sample_object [(str "a", TInt 1); (str "u", TUndefined); (str "b", TObject 1); (str "c", TObject 1)]
  | 1%nat => sample_array [TNull; TUndefined; TString (str "x")]
  | _ => sample_array []
  end.

Lemma sample_object_get ms k q :
  get_prop (sample_object ms) k = Ok (TObject q) -> TObject q ∈ ms.*2.
Proof.
  simpl. destruct (list_find _ ms) as [[i [k' v]]|] eqn:E; [|done]. intros [= ->].
  apply list_find_Some in E as (Hi & _). apply list_elem_of_fmap. exists (k', TObject q).
  split; [done|]. by eapply list_elem_of_lookup_2.
Qed.

(** A value made of two references to one array. *)
Lemma json_stringify_correct_witness :
  json_stringify_replacer_space sample_digit sample_digit sample_digit sample_heap 9 (TObject 0) None None
  = Done (Ok (Some (str "{" ++ quoted (str "a") ++ str ":1," ++ quoted (str "b") ++ str ":[null,null,"
                    ++ quoted (str "x") ++ str "]," ++ quoted (str "c") ++ str ":[null,null,"
                    ++ quoted (str "x") ++ str "]}"))).
Proof.
  refine (eq_trans (json_stringify_correct sample_digit sample_digit sample_digit sample_heap 3 9 (TObject 0) None
    (Some (JObj [(str "a", JInt 1); (str "b", JArr [JNull; JNull; JString (str "x")]);
                 (str "c", JArr [JNull; JNull; JString (str "x")])])) _ _) _);
    [reflexivity|lia|reflexivity].
Defined.

(** [o.k = o]. *)
Definition cyclic_heap (o : nat) : node := sample_object [(str "k", TObject 0)].

Lemma cyclic_heap_finite : finite_heap cyclic_heap 1.
Proof.
  split.
  - intros o k q Hq. apply sample_object_get in Hq. apply list_elem_of_singleton in Hq as [= ->]. lia.
  - intros o q Hq. by apply elem_of_nil in Hq.
  - done.
Qed.

Lemma cyclic_heap_edge : edge cyclic_heap 0 0.
Proof. exists (str "k"). split; [by left|done]. Qed.

Lemma json_stringify_terminates_witness :
  json_stringify_replacer_space sample_digit sample_digit sample_digit cyclic_heap 21 (TObject 0) None None
  <> OutOfFuel.
Proof.
  apply (json_stringify_terminates sample_digit sample_digit sample_digit cyclic_heap 1 21 (TObject 0) [] None);
    [apply cyclic_heap_finite|intros ? [= <-]; lia|lia].
Defined.

Lemma json_stringify_cycle_throws_witness :
  exists e, json_stringify_replacer_space sample_digit sample_digit sample_digit cyclic_heap 21 (TObject 0) None None
            = Done (Err e).
Proof.
  apply (json_stringify_cycle_throws sample_digit sample_digit sample_digit cyclic_heap 1 21 0 0 None);
    [apply cyclic_heap_finite|lia|lia|apply rtc_refl|apply tc_once, cyclic_heap_edge].
Defined.

(** The message of the cyclic object above. *)
Example cyclic_message :
  json_stringify sample_digit sample_digit sample_digit cyclic_heap 21 (TObject 0)
  = Done (Err (TypeError (of_bytes (str "Circular reference detected at: " ++ [34] ++ str "...k" ++ [34])))).
Proof. vm_compute. reflexivity. Qed.

Definition odd_heap (o : nat) : node :=
  match o with
  | 0%nat => sample_array [TInt 1; TInt 2; TInt 3]
  | 1%nat => sample_array [TInt 1; TFunction; TInt 2]
  | 2%nat => sample_object [(str "a", TObject 3)]
  | 3%nat => sample_to_json TUndefined
  | 4%nat => sample_object [(str "a", TInt 1); (str "b", TInt 2)]
  | 5%nat => sample_object [(str "x", TInt 7)]
  | _ => sample_array []
  end.

(** A list of keys to include leaves out the top-level value, whose key is
    taken to be ["0"]: [JSON.stringify({a:1,b:2},["a"])] is [undefined]. *)
Example include_keys_drops_top_level :
  json_stringify_replacer_space sample_digit sample_digit sample_digit odd_heap 9 (TObject 4)
    (Some (ReplacerArray [Ok (TString (str "a"))])) None
  = Done (Ok None).
Proof. vm_compute. reflexivity. Qed.

(** With ["0"] and ["2"] to include, the array [[1,2,3]] is printed as [[13]]:
    elements are filtered by index and the comma is lost after one left out. *)
Example include_keys_filters_elements :
  json_stringify_replacer_space sample_digit sample_digit sample_digit odd_heap 9 (TObject 0)
    (Some (ReplacerArray [Ok (TString (str "0")); Ok (TInt 2)])) None
  = Done (Ok (Some (str "[13]"))).
Proof. vm_compute. reflexivity. Qed.

(** A function in an array is printed as nothing: [[1,,2]]. *)
Example function_in_array :
  json_stringify sample_digit sample_digit sample_digit odd_heap 9 (TObject 1)
  = Done (Ok (Some (str "[1,,2]"))).
Proof. vm_compute. reflexivity. Qed.

(** A member whose [toJSON] returns [undefined] is printed as a key without a
    value. *)
Example to_json_undefined :
  json_stringify sample_digit sample_digit sample_digit odd_heap 9 (TObject 2)
  = Done (Ok (Some (str "{" ++ quoted (str "a") ++ str ":}"))).
Proof. vm_compute. reflexivity. Qed.

(** An object that the replacer returns for the top level is ignored: the
    original is printed. *)
Example replacer_top_level_ignored :
  json_stringify_replacer_space sample_digit sample_digit sample_digit odd_heap 9 (TObject 4)
    (Some (ReplacerFn (fun holder k v => Ok (match holder with None => TObject 5 | Some _ => v end)))) None
  = json_stringify sample_digit sample_digit sample_digit odd_heap 9 (TObject 4).
Proof. vm_compute. reflexivity. Qed.

(** A [space] of seven euro signs is cut inside the seventh: a panic. *)
Example space_truncate_panics :
  stringify_fn sample_digit sample_digit sample_digit odd_heap 9 (TObject 4) (Some ReplacerOther)
    (Some (TString (concat (replicate 7 [226; 130; 172])))) = None.
Proof. vm_compute. reflexivity. Qed.
