(* ===== verification/JsonParse.v ===== *)
(** * JSON.parse (src/libs/llrt_json/src/parse.rs)

    The parser proper is simd_json's [to_tape], a parameter: it turns the text
    into a tape of nodes or an error.  Modelled are the decoding of the tape
    into a JavaScript value, the fallback to the engine's parser and the
    message of a syntax error.  [tape_of] is the documented layout of a tape:
    a container comes before its members, with their number.

    The members of an object are set as by an assignment ([js_object.set] is
    [JS_SetProperty]), so that the key __proto__ runs the setter that objects
    inherit: the prototype is part of an object.  The prototypes of the engine
    are taken to be as the engine made them (no other setters, nothing
    read-only). *)
From stdpp Require Import base list numbers strings.
From Stdlib Require Import ZArith Lia.
From S2P Require Import Prelude Utf8.
Open Scope Z_scope.

Inductive StaticNode := I64 (z : Z) | U64 (z : Z) | F64 (bits : Z) | SBool (b : bool) | SNull.

Inductive Node :=
| NString (s : list Z)
| NStatic (n : StaticNode)
| NObject (len count : nat)
| NArray (len count : nat).

(** What [JSON.parse] builds.  [PInteger] is the number the bindings make of a
    64-bit integer; an object holds its prototype ([None] is
    [Object.prototype], [Some PNull] no prototype) and its properties in the
    order in which they were first set. *)
#[warnings="-register-all"]
Inductive jsvalue :=
| PUndefined
| PNull
| PBool (b : bool)
| PInteger (z : Z)
| PDouble (bits : Z)
| PString (s : list Z)
| PArray (vs : list jsvalue)
| PObject (proto : option jsvalue) (ps : list (list Z * jsvalue)).

Definition static_node_to_value (n : StaticNode) : jsvalue :=
  match n with
  | I64 z => PInteger z
  | U64 z => PInteger z
  | F64 bits => PDouble bits
  | SBool b => PBool b
  | SNull => PNull
  end.

Definition proto_key : list Z := str "__proto__".

(** Whether an assignment to __proto__ finds the setter of [Object.prototype]:
    not when an object on the way has a property of that name, or the chain of
    prototypes ends before. *)
Fixpoint inherits_setter (v : jsvalue) : bool :=
  match v with
  | PNull => false
  | PObject proto ps =>
      if decide (proto_key ∈ ps.*1) then false
      else match proto with None => true | Some p => inherits_setter p end
  | _ => true
  end.

Definition reaches_setter (proto : option jsvalue) : bool :=
  match proto with None => true | Some p => inherits_setter p end.

(** What the setter does: values that are neither objects nor null are
    ignored. *)
Definition set_prototype (v : jsvalue) (proto : option jsvalue) : option jsvalue :=
  match v with
  | PNull | PArray _ | PObject _ _ => Some v
  | _ => proto
  end.

Fixpoint replace_prop (k : list Z) (v : jsvalue) (ps : list (list Z * jsvalue)) : list (list Z * jsvalue) :=
  match ps with
  | [] => []
  | (k', v') :: ps' => if decide (k' = k) then (k, v) :: ps' else (k', v') :: replace_prop k v ps'
  end.

(** [js_object.set], the assignment of a property. *)
Definition set_prop (k : list Z) (v : jsvalue) (o : option jsvalue * list (list Z * jsvalue)) :
    option jsvalue * list (list Z * jsvalue) :=
  let '(proto, ps) := o in
  if decide (k ∈ ps.*1) then (proto, replace_prop k v ps)
  else if bool_decide (k = proto_key) && reaches_setter proto then (set_prototype v proto, ps)
  else (proto, ps ++ [(k, v)]).

(** The loops over the members, for a given [parse_node]. *)
Section Loops.
Context (parse_node : nat -> option (jsvalue * nat)) (tape : list Node).

Fixpoint object_loop (len : nat) (o : option jsvalue * list (list Z * jsvalue)) (current_index : nat) :
    option ((option jsvalue * list (list Z * jsvalue)) * nat) :=
  match len with
  | O => Some (o, current_index)
  | S len' =>
      let! node := tape !! current_index in
      match node with
      | NString key =>
          let! (v, new_index) := parse_node (S current_index) in
          object_loop len' (set_prop key v o) new_index
      | _ => object_loop len' o current_index
      end
  end.

Fixpoint array_loop (len : nat) (vs : list jsvalue) (current_index : nat) :
    option (list jsvalue * nat) :=
  match len with
  | O => Some (vs, current_index)
  | S len' =>
      let! (v, new_index) := parse_node current_index in
      array_loop len' (vs ++ [v]) new_index
  end.
End Loops.

(** [None] is an index outside the tape (a panic) or a lack of fuel. *)
Fixpoint parse_node (fuel : nat) (tape : list Node) (index : nat) : option (jsvalue * nat) :=
  match fuel with
  | O => None
  | S fuel' =>
      let! node := tape !! index in
      match node with
      | NString s => Some (PString s, S index)
      | NStatic n => Some (static_node_to_value n, S index)
      | NObject len _ =>
          let! (o, i) := object_loop (parse_node fuel' tape) tape len (None, []) (S index) in
          Some (PObject o.1 o.2, i)
      | NArray len _ =>
          let! (vs, i) := array_loop (parse_node fuel' tape) len [] (S index) in
          Some (PArray vs, i)
      end
  end.

(** An error of simd_json: where, and at which character. *)
Record simd_error := { err_index : Z; err_character : option Z }.

Inductive parse_result :=
| Value (v : jsvalue)
| SyntaxError (msg : list Z)
| Panic.

Section Parse.
Context (itoa : Z -> list Z).
(** [to_tape] works in place: it also gives what it leaves of the text. *)
Context (to_tape : list Z -> list Z * result simd_error (list Node)).
(** The engine's own parser. *)
Context (engine_parse : list Z -> option jsvalue).

Definition error_message (json : list Z) (e : simd_error) : list Z :=
  (if (length json <? 128)%nat then [34] ++ from_utf8_lossy json ++ [34; 32] else [])
  ++ str "not valid JSON at index " ++ itoa (err_index e)
  ++ (match err_character e with
      | Some c => str " ('" ++ utf8_encode c ++ str "')"
      | None => []
      end).

Definition json_parse (json : list Z) : parse_result :=
  match to_tape json with
  | (json, Err e) =>
      match (if decide (err_character e = Some 117) then engine_parse json else None) with
      | Some v => Value v
      | None => SyntaxError (error_message json e)
      end
  | (_, Ok tape) =>
      match tape with
      | NString s :: _ => Value (PString s)
      | NStatic n :: _ => Value (static_node_to_value n)
      | _ :: _ =>
          match parse_node (length tape) tape 0 with
          | Some (v, _) => Value v
          | None => Panic
          end
      | [] => Value PUndefined
      end
  end.
End Parse.

(** ** Documents and their tapes *)

#[warnings="-register-all"]
Inductive doc :=
| DString (s : list Z)
| DStatic (n : StaticNode)
| DArray (ds : list doc)
| DObject (ms : list (list Z * doc)).

Fixpoint tape_of (d : doc) : list Node :=
  match d with
  | DString s => [NString s]
  | DStatic n => [NStatic n]
  | DArray ds =>
      let body := concat (map tape_of ds) in NArray (length ds) (length body) :: body
  | DObject ms =>
      let body := concat (map (fun '(k, d) => NString k :: tape_of d) ms) in
      NObject (length ms) (length body) :: body
  end.

(** The value of a document.  The members with the key __proto__ that come
    while the setter can be reached make the prototype, the last of them that
    is an object or null; the other members make the properties. *)
Fixpoint split_members (proto : option jsvalue) (ms : list (list Z * jsvalue)) :
    option jsvalue * list (list Z * jsvalue) :=
  match ms with
  | [] => (proto, [])
  | (k, v) :: ms' =>
      if bool_decide (k = proto_key) && reaches_setter proto then split_members (set_prototype v proto) ms'
      else let '(proto', ps) := split_members proto ms' in (proto', (k, v) :: ps)
  end.

(** The keys in the order of their first members, each with its last value. *)
Definition first_keys (ms : list (list Z * jsvalue)) : list (list Z) := rev (remove_dups (rev ms.*1)).

Definition last_value (ms : list (list Z * jsvalue)) (k : list Z) : jsvalue :=
  from_option snd PUndefined (last (filter (fun m => m.1 = k) ms)).

Definition properties (ms : list (list Z * jsvalue)) : list (list Z * jsvalue) :=
  (fun k => (k, last_value ms k)) <$> first_keys ms.

Definition object_of (ms : list (list Z * jsvalue)) : jsvalue :=
  let '(proto, ps) := split_members None ms in PObject proto (properties ps).

Fixpoint value_of (d : doc) : jsvalue :=
  match d with
  | DString s => PString s
  | DStatic n => static_node_to_value n
  | DArray ds => PArray (map value_of ds)
  | DObject ms => object_of (map (fun '(k, d) => (k, value_of d)) ms)
  end.

(** *** The assignments make this object *)

Lemma first_keys_snoc ms k v :
  first_keys (ms ++ [(k, v)]) = if decide (k ∈ ms.*1) then first_keys ms else first_keys ms ++ [k].
Proof.
  unfold first_keys. rewrite fmap_app, rev_app_distr. cbn [fmap list_fmap rev app fst remove_dups].
  assert (Hr : k ∈ rev ms.*1 <-> k ∈ ms.*1) by (by rewrite list_elem_of_In, <- in_rev, <- list_elem_of_In).
  destruct (decide_rel _ k _) as [H|H], (decide (k ∈ ms.*1)); tauto || done.
Qed.

Lemma first_keys_elem ms k : k ∈ first_keys ms <-> k ∈ ms.*1.
Proof.
  unfold first_keys. rewrite list_elem_of_In, <- in_rev, <- list_elem_of_In, elem_of_remove_dups.
  by rewrite list_elem_of_In, <- in_rev, <- list_elem_of_In.
Qed.

Lemma first_keys_NoDup ms : NoDup (first_keys ms).
Proof. unfold first_keys. apply NoDup_ListNoDup, NoDup_rev, NoDup_ListNoDup, NoDup_remove_dups. Qed.

Lemma last_value_snoc ms k v k' : last_value (ms ++ [(k, v)]) k' = if decide (k' = k) then v else last_value ms k'.
Proof.
  unfold last_value. rewrite filter_app. destruct (decide (k' = k)) as [->|H].
  - rewrite (filter_cons_True _ (k, v)) by done. rewrite filter_nil. by rewrite last_snoc.
  - rewrite (filter_cons_False _ (k, v)) by (cbn; congruence). by rewrite filter_nil, app_nil_r.
Qed.

Lemma replace_prop_fmap k v (f : list Z -> jsvalue) ks : NoDup ks ->
  replace_prop k v ((fun k => (k, f k)) <$> ks) = (fun k' => (k', if decide (k' = k) then v else f k')) <$> ks.
Proof.
  induction ks as [|k' ks IH]; [done|]. intros [Hn Hd]%NoDup_cons. cbn [fmap list_fmap replace_prop].
  destruct (decide (k' = k)) as [->|H]; [|by rewrite IH].
  f_equal. apply list_fmap_ext. intros i x Hx%list_elem_of_lookup_2. rewrite decide_False; [done|]. by intros ->.
Qed.

Lemma properties_snoc ms k v :
  properties (ms ++ [(k, v)]) =
    if decide (k ∈ (properties ms).*1) then replace_prop k v (properties ms) else properties ms ++ [(k, v)].
Proof.
  assert (Hk : (properties ms).*1 = first_keys ms) by (unfold properties; rewrite <- list_fmap_compose; apply list_fmap_id).
  rewrite Hk. unfold properties at 1. rewrite first_keys_snoc.
  rewrite (list_fmap_ext _ (fun k' => (k', if decide (k' = k) then v else last_value ms k')))
    by (intros; by rewrite last_value_snoc).
  destruct (decide (k ∈ ms.*1)) as [H|H]; rewrite <- first_keys_elem in H.
  - rewrite decide_True by done. unfold properties. by rewrite replace_prop_fmap by apply first_keys_NoDup.
  - rewrite decide_False by done. rewrite fmap_app. cbn [fmap list_fmap]. rewrite decide_True by done. f_equal.
    unfold properties. apply list_fmap_ext. intros i x Hx%list_elem_of_lookup_2. rewrite decide_False; [done|]. by intros ->.
Qed.

Lemma set_prop_eq k v proto ps : set_prop k v (proto, ps) =
  if decide (k ∈ ps.*1) then (proto, replace_prop k v ps)
  else if bool_decide (k = proto_key) && reaches_setter proto then (set_prototype v proto, ps)
  else (proto, ps ++ [(k, v)]).
Proof. done. Qed.

(** Once there is a property __proto__ the prototype stays. *)
Lemma assigned ms : forall proto done,
  (proto_key ∈ done.*1 -> reaches_setter proto = false) ->
  fold_left (fun o m => set_prop m.1 m.2 o) ms (proto, properties done)
  = let '(proto', ps) := split_members proto ms in (proto', properties (done ++ ps)).
Proof.
  induction ms as [|[k v] ms IH]; intros proto dn Hd; cbn [fold_left split_members fst snd]; [by rewrite app_nil_r|].
  assert (Hk : forall k, k ∈ (properties dn).*1 <-> k ∈ dn.*1).
  { intros k'. unfold properties. rewrite <- list_fmap_compose, list_fmap_id. apply first_keys_elem. }
  assert (Hstep : (k = proto_key -> reaches_setter proto = false) ->
    fold_left (fun o m => set_prop m.1 m.2 o) ms (proto, properties (dn ++ [(k, v)]))
    = (let '(proto', ps) := split_members proto ms in (proto', properties (dn ++ (k, v) :: ps)))).
  { intros Hs. rewrite IH.
    - destruct (split_members proto ms) as [p ps]. by rewrite <- (assoc_L (++)).
    - rewrite fmap_app, elem_of_app. intros [H|H]; [by apply Hd|]. apply Hs. symmetry. by apply list_elem_of_singleton in H. }
  rewrite set_prop_eq. destruct (bool_decide (k = proto_key) && reaches_setter proto) eqn:Hp.
  - apply andb_prop in Hp as [->%bool_decide_eq_true Hr]. rewrite decide_False by (rewrite Hk; intros H; apply Hd in H; congruence).
    apply IH. intros H. apply Hd in H. congruence.
  - destruct (split_members proto ms) as [p ps] eqn:Hsp. rewrite <- Hstep.
    + rewrite properties_snoc. by destruct (decide (k ∈ (properties dn).*1)).
    + intros ->. by rewrite bool_decide_true in Hp.
Qed.

Lemma object_of_assigned ms :
  (let o := fold_left (fun o m => set_prop m.1 m.2 o) ms (None, []) in PObject o.1 o.2) = object_of ms.
Proof.
  change (@nil (list Z * jsvalue)) with (properties []) at 1. rewrite assigned by (intros H; by apply elem_of_nil in H).
  unfold object_of. by destruct (split_members None ms).
Qed.

Lemma tape_of_pos d : (0 < length (tape_of d))%nat.
Proof. destruct d; simpl; lia. Qed.

(** [parse_node] reads [d] wherever its tape starts, given as much fuel as its
    tape is long. *)
Definition reads (d : doc) : Prop := forall fuel tape pre post,
  tape = pre ++ tape_of d ++ post -> (length (tape_of d) <= fuel)%nat ->
  parse_node fuel tape (length pre) = Some (value_of d, length pre + length (tape_of d))%nat.

Lemma array_loop_reads tape fuel ds : forall vs pre post,
  Forall reads ds -> tape = pre ++ concat (map tape_of ds) ++ post ->
  (length (concat (map tape_of ds)) <= fuel)%nat ->
  array_loop (parse_node fuel tape) (length ds) vs (length pre)
  = Some (vs ++ map value_of ds, length pre + length (concat (map tape_of ds)))%nat.
Proof.
  induction ds as [|d ds IH]; intros vs pre post Hr Ht Hf; simpl.
  - by rewrite app_nil_r, Nat.add_0_r.
  - apply Forall_cons in Hr as [Hd Hr]. simpl in Ht, Hf. rewrite length_app in Hf.
    rewrite (Hd fuel tape pre (concat (map tape_of ds) ++ post)) by (try lia; by rewrite Ht, <- !(assoc_L (++))).
    rewrite <- length_app, (IH _ (pre ++ tape_of d) post) by
      (try done; try lia; by rewrite Ht, <- !(assoc_L (++))).
    f_equal. f_equal; [by rewrite <- (assoc_L (++))|]. rewrite !length_app. lia.
Qed.

Definition member_tape (m : list Z * doc) : list Node := let '(k, d) := m in NString k :: tape_of d.
Definition member_value (m : list Z * doc) : list Z * jsvalue := let '(k, d) := m in (k, value_of d).

Lemma object_loop_reads tape fuel ms : forall o pre post,
  Forall (fun m => reads m.2) ms -> tape = pre ++ concat (map member_tape ms) ++ post ->
  (length (concat (map member_tape ms)) <= fuel)%nat ->
  object_loop (parse_node fuel tape) tape (length ms) o (length pre)
  = Some (fold_left (fun o m => set_prop m.1 m.2 o) (map member_value ms) o,
          length pre + length (concat (map member_tape ms)))%nat.
Proof.
  induction ms as [|[k d] ms IH]; intros o pre post Hr Ht Hf; cbn [object_loop map fold_left concat member_tape member_value length].
  - by rewrite Nat.add_0_r.
  - apply Forall_cons in Hr as [Hd Hr]. simpl in Ht, Hf, Hd. rewrite length_app in Hf.
    rewrite Ht at 1. rewrite list_lookup_middle by done.
    replace (S (length pre)) with (length (pre ++ [NString k])) by (rewrite length_app; simpl; lia).
    rewrite (Hd fuel tape (pre ++ [NString k]) (concat (map member_tape ms) ++ post))
      by (try lia; by rewrite Ht, <- !(assoc_L (++))).
    rewrite <- length_app, (IH _ ((pre ++ [NString k]) ++ tape_of d) post) by
      (try done; try lia; by rewrite Ht, <- !(assoc_L (++))).
    f_equal. f_equal. rewrite !length_app. simpl. lia.
Qed.

Lemma concat_elem {A} (x : list A) ls : x ∈ ls -> (length x <= length (concat ls))%nat.
Proof.
  induction ls as [|l ls IH]; [by intros ?%elem_of_nil|]. intros [->|H]%elem_of_cons; simpl;
    rewrite length_app; [lia|]. specialize (IH H). lia.
Qed.

Lemma reads_all n : forall d, (length (tape_of d) <= n)%nat -> reads d.
Proof.
  induction n as [|n IH]; intros d Hn; [pose proof (tape_of_pos d); lia|].
  intros fuel tape pre post Ht Hf. destruct fuel as [|fuel]; [pose proof (tape_of_pos d); lia|].
  simpl. destruct d as [s|sn|ds|ms]; simpl in Ht, Hf, Hn;
    rewrite Ht at 1; rewrite list_lookup_middle by done.
  - by rewrite Nat.add_1_r.
  - by rewrite Nat.add_1_r.
  - replace (S (length pre)) with (length (pre ++ [NArray (length ds) (length (concat (map tape_of ds)))]))
      by (rewrite length_app; simpl; lia).
    rewrite (array_loop_reads tape fuel ds _ _ post); [|clear Ht Hf| |lia].
    + f_equal. f_equal. rewrite length_app. simpl. lia.
    + apply Forall_forall. intros d Hd. apply IH. etrans; [|apply le_S_n, Hn].
      apply concat_elem, list_elem_of_fmap. by exists d.
    + by rewrite Ht, <- (assoc_L (++)).
  - change (map _ ms) with (map member_tape ms) in Ht, Hf, Hn |- *.
    replace (S (length pre)) with (length (pre ++ [NObject (length ms) (length (concat (map member_tape ms)))]))
      by (rewrite length_app; simpl; lia).
    rewrite (object_loop_reads tape fuel ms _ _ post); [|clear Ht Hf| |lia].
    + f_equal. f_equal; [exact (object_of_assigned (map member_value ms))|]. rewrite length_app.
      change (length (tape_of (DObject ms))) with (S (length (concat (map member_tape ms)))). simpl. lia.
    + apply Forall_forall. intros [k d] Hd. apply IH. simpl.
      assert (H : (length (member_tape (k, d)) <= length (concat (map member_tape ms)))%nat)
        by (apply concat_elem, list_elem_of_fmap; by exists (k, d)).
      simpl in H. lia.
    + by rewrite Ht, <- (assoc_L (++)).
Qed.

(** ** Properties *)

(** C3: on a text that simd_json accepts, the tape of any document is decoded
    to the value of the document, without an access outside the tape: nested
    arrays and objects; the keys of an object in the order of their first
    members, each with its last value; but a member __proto__ that is an object
    or null becomes the prototype, and one that is neither is lost, as long as
    the setter of [Object.prototype] is reached, which is unchanged. *)
Theorem json_parse_decodes itoa to_tape engine_parse json json' d :
  to_tape json = (json', Ok (tape_of d)) ->
  json_parse itoa to_tape engine_parse json = Value (value_of d).
Proof.
  intros E. unfold json_parse. rewrite E.
  pose proof (reads_all _ d (le_n _) (length (tape_of d)) (tape_of d) [] []) as H.
  rewrite app_nil_r in H. specialize (H eq_refl (le_n _)). cbn [length] in H.
  destruct d; cbn [tape_of] in H |- *; try done; by rewrite H.
Qed.

(** [{"a":[1,null],"a":"b"}]. *)
Definition sample_doc : doc :=
  DObject [(str "a", DArray [DStatic (I64 1); DStatic SNull]); (str "a", DString (str "b"))].

Lemma json_parse_decodes_witness :
  json_parse (fun z => [48 + z]) (fun s => (s, Ok (tape_of sample_doc))) (fun _ => None) []
  = Value (PObject None [(str "a", PString (str "b"))]).
Proof.
  exact (json_parse_decodes (fun z => [48 + z]) (fun s => (s, Ok (tape_of sample_doc))) (fun _ => None)
    [] [] sample_doc eq_refl).
Defined.

(** [{"__proto__":{"x":1},"y":2}] has no property __proto__ but a prototype, and
    [{"__proto__":7}] is an empty object. *)
Example proto_member_sets_prototype :
  parse_node 9 (tape_of (DObject [(str "__proto__", DObject [(str "x", DStatic (I64 1))]); (str "y", DStatic (I64 2))])) 0
    = Some (PObject (Some (PObject None [(str "x", PInteger 1)])) [(str "y", PInteger 2)], 7%nat) /\
  parse_node 9 (tape_of (DObject [(str "__proto__", DStatic (I64 7))])) 0 = Some (PObject None [], 3%nat).
Proof. split; reflexivity. Qed.
