(* ===== verification/LossyString.v ===== *)
(** * Lossy strings (src/libs/llrt_utils/src/bytes.rs)

    The engine gives a string as WTF-8: UTF-8 that may also encode lone
    surrogates.  [get_lossy_string] replaces those by U+FFFD;
    [replace_invalid_utf8_and_utf16] makes text of any bytes.  A scan position
    is the rest of the bytes from there; [fuel] bounds the scans by the number
    of bytes, which is enough since each step takes at least one. *)
From stdpp Require Import base list numbers strings.
From Stdlib Require Import ZArith Lia.
From S2P Require Import Prelude Utf8 Js.
Open Scope Z_scope.

(** [char::from_u32(cp).unwrap_or('\u{FFFD}')] pushed to a string. *)
Definition is_scalar (c : Z) : bool := in_range 0 0xD7FF c || in_range 0xE000 0x10FFFF c.
Definition push_u32 (code_point : Z) : list Z :=
  utf8_encode (if is_scalar code_point then code_point else REPLACEMENT).

Definition cont_byte (b : Z) : bool := Z.land b 0xC0 =? 0x80.
Definition FFFD : list Z := utf8_encode REPLACEMENT.

Fixpoint replace_into (fuel : nat) (bytes : list Z) : list Z :=
  match fuel, bytes with
  | S fuel', current :: rest =>
      let invalid := FFFD ++ replace_into fuel' rest in
      if in_range 0x00 0x7F current then current :: replace_into fuel' rest
      else if in_range 0xC0 0xDF current then
        match rest with
        | next :: rest1 =>
            if cont_byte next then
              push_u32 (Z.lor (Z.shiftl (Z.land current 0x1F) 6) (Z.land next 0x3F))
              ++ replace_into fuel' rest1
            else invalid
        | _ => invalid
        end
      else if in_range 0xE0 0xEF current then
        match rest with
        | next1 :: next2 :: rest2 =>
            if cont_byte next1 && cont_byte next2 then
              push_u32 (Z.lor (Z.lor (Z.shiftl (Z.land current 0x0F) 12) (Z.shiftl (Z.land next1 0x3F) 6))
                              (Z.land next2 0x3F))
              ++ replace_into fuel' rest2
            else invalid
        | _ => invalid
        end
      else if in_range 0xF0 0xF7 current then
        match rest with
        | next1 :: next2 :: next3 :: rest3 =>
            if cont_byte next1 && cont_byte next2 && cont_byte next3 then
              push_u32 (Z.lor (Z.lor (Z.lor (Z.shiftl (Z.land current 0x07) 18)
                                            (Z.shiftl (Z.land next1 0x3F) 12))
                                     (Z.shiftl (Z.land next2 0x3F) 6))
                              (Z.land next3 0x3F))
              ++ replace_into fuel' rest3
            else invalid
        | _ => invalid
        end
      else invalid
  | _, _ => []
  end.

Definition replace_invalid_utf8_and_utf16_into (bytes : list Z) : list Z :=
  replace_into (length bytes) bytes.

(** [Utf8Error::valid_up_to]: the length of the longest prefix of whole
    characters. *)
Fixpoint valid_up_to (fuel : nat) (s : list Z) : nat :=
  match fuel, s with
  | S fuel', _ :: _ =>
      match utf8_step s with
      | (n, Some _) => n + valid_up_to fuel' (drop n s)
      | (_, None) => 0
      end
  | _, _ => 0
  end%nat.

Definition replace_invalid_utf8_and_utf16 (bytes : list Z) : list Z :=
  if utf8_valid bytes then bytes
  else
    let n := valid_up_to (length bytes) bytes in
    take n bytes ++ replace_invalid_utf8_and_utf16_into (drop n bytes).

Fixpoint substitute_loop (fuel : nat) (bytes : list Z) : list Z :=
  match fuel, bytes with
  | S fuel', _ :: _ =>
      match find_byte 0xED bytes with
      | None => bytes
      | Some rel =>
          take rel bytes ++
          match drop rel bytes with
          | b0 :: b1 :: b2 :: rest =>
              if negb (cont_byte b1) || negb (cont_byte b2)
              then replace_invalid_utf8_and_utf16_into (drop rel bytes)
              else (if Z.land b1 0xE0 =? 0xA0 then FFFD else [b0; b1; b2]) ++ substitute_loop fuel' rest
          | _ => replace_invalid_utf8_and_utf16_into (drop rel bytes)
          end
      end
  | _, _ => []
  end.

Definition qjs_substitute_into (bytes : list Z) : list Z := substitute_loop (length bytes) bytes.

Definition get_lossy_string (bytes : list Z) : list Z :=
  match find_byte 0xED bytes with
  | None => bytes
  | Some first => take first bytes ++ qjs_substitute_into (drop first bytes)
  end.

(** ** WTF-8 *)

(** A code point: a scalar value or a surrogate; [encode_all] of such is
    WTF-8. *)
Definition code_point (c : Z) : Prop := 0 <= c < 0x110000.

Definition surrogate (c : Z) : bool := in_range 0xD800 0xDFFF c.

(** The code points whose first byte is 0xED. *)
Definition ed (c : Z) : bool := in_range 0xD000 0xDFFF c.

Lemma encode_ed c : ed c = true ->
  utf8_encode c = [0xED; 128 + (c / 64) mod 64; 128 + c mod 64].
Proof.
  unfold ed, in_range. intros H. bool_to_prop. unfold utf8_encode.
  rewrite !(proj2 (Z.ltb_ge _ _)) by lia. rewrite (proj2 (Z.ltb_lt c 0x10000)) by lia.
  f_equal. assert (c / 4096 = 13) by (symmetry; apply Z.div_unique with (c - 13 * 4096); lia). lia.
Qed.

Lemma encode_no_ed c : code_point c -> ed c = false -> 0xED ∉ utf8_encode c.
Proof.
  unfold code_point, ed, in_range. intros Hc He Hin.
  pose proof (Z.mod_pos_bound c 64 ltac:(lia)). pose proof (Z.mod_pos_bound (c / 64) 64 ltac:(lia)).
  pose proof (Z.mod_pos_bound (c / 4096) 64 ltac:(lia)).
  unfold utf8_encode in Hin. revert Hin.
  destruct (Z.ltb_spec c 0x80); [|destruct (Z.ltb_spec c 0x800); [|destruct (Z.ltb_spec c 0x10000)]];
    rewrite ?elem_of_cons, elem_of_nil; intros Hin; try lia.
  - assert (c / 64 < 32) by (apply Z.div_lt_upper_bound; lia). lia.
  - assert (c / 4096 <> 13); [|lia]. intros E. pose proof (Z.div_mod c 4096 ltac:(lia)) as Hd.
    pose proof (Z.mod_pos_bound c 4096 ltac:(lia)). rewrite E in Hd.
    rewrite (proj2 (Z.leb_le 53248 c)), (proj2 (Z.leb_le c 57343)) in He by lia. done.
  - assert (0 <= c / 262144) by (apply Z.div_pos; lia). lia.
Qed.

Lemma no_ed_all a : Forall code_point a -> Forall (fun c => ed c = false) a -> 0xED ∉ encode_all a.
Proof.
  induction 1 as [|c a Hc _ IH]; intros He; [by intros ?%elem_of_nil|].
  apply Forall_cons in He as [He Ha]. change (encode_all (c :: a)) with (utf8_encode c ++ encode_all a).
  intros [H|H]%elem_of_app; [by apply (encode_no_ed c)|by apply IH].
Qed.

(** The first code point with lead byte 0xED, if there is one. *)
Lemma split_ed cs :
  Forall (fun c => ed c = false) cs \/
  exists a c b, cs = a ++ c :: b /\ Forall (fun c => ed c = false) a /\ ed c = true.
Proof.
  induction cs as [|c cs IH]; [by left|]. destruct (ed c) eqn:E.
  - right. by exists [], c, cs.
  - destruct IH as [IH|(a & c' & b & -> & Ha & Hc)]; [left; by constructor|].
    right. exists (c :: a), c', b. split; [done|]. by split; [constructor|].
Qed.

Lemma cont_byte_encode x : cont_byte (128 + x mod 64) = true.
Proof.
  pose proof (Z.mod_pos_bound x 64 ltac:(lia)) as Hx. revert Hx. generalize (x mod 64). clear x.
  apply (check_range (fun x => cont_byte (128 + x)) 64). vm_compute. reflexivity.
Qed.

Lemma surrogate_bits c : ed c = true ->
  (Z.land (128 + (c / 64) mod 64) 0xE0 =? 0xA0) = surrogate c.
Proof.
  unfold ed, surrogate, in_range. intros H. bool_to_prop.
  assert (Hq : (c / 64) mod 64 = c / 64 - 832).
  { assert (832 <= c / 64) by (apply Z.div_le_lower_bound; lia).
    assert (c / 64 < 896) by (apply Z.div_lt_upper_bound; lia).
    symmetry. apply Z.mod_unique with 13; lia. }
  assert (Hs : (0xD800 <=? c) && (c <=? 0xDFFF) = (32 <=? (c / 64) mod 64)).
  { rewrite Hq, (proj2 (Z.leb_le c 0xDFFF)), andb_true_r by lia.
    apply eq_true_iff_eq. rewrite !Z.leb_le.
    pose proof (Z.div_mod c 64 ltac:(lia)). pose proof (Z.mod_pos_bound c 64 ltac:(lia)). lia. }
  rewrite Hs. pose proof (Z.mod_pos_bound (c / 64) 64 ltac:(lia)) as Hx. revert Hx. clear.
  generalize ((c / 64) mod 64). intros x Hx. apply eqb_prop. revert x Hx.
  apply (check_range (fun x => Bool.eqb (Z.land (128 + x) 0xE0 =? 0xA0) (32 <=? x)) 64).
  vm_compute. reflexivity.
Qed.

Definition without_surrogates (cs : list Z) : list Z :=
  (fun c => if surrogate c then REPLACEMENT else c) <$> cs.

Lemma without_surrogates_no_ed a :
  Forall (fun c => ed c = false) a -> without_surrogates a = a.
Proof.
  induction 1 as [|c a Hc _ IH]; [done|]. unfold without_surrogates in *. rewrite fmap_cons, IH. f_equal.
  destruct (surrogate c) eqn:E; [|done]. unfold surrogate, ed, in_range in *. bool_to_prop.
  rewrite (proj2 (Z.leb_le 53248 c)), (proj2 (Z.leb_le c 57343)) in Hc by lia. done.
Qed.

Lemma find_ed a c b : Forall code_point a -> Forall (fun c => ed c = false) a -> ed c = true ->
  find_byte 0xED (encode_all (a ++ c :: b)) = Some (length (encode_all a)).
Proof.
  intros Hc Ha He. rewrite encode_all_app. cbn [encode_all fmap list_fmap concat].
  rewrite encode_ed by done. apply find_byte_app. by apply no_ed_all.
Qed.

Lemma substitute_wtf8 fuel : forall cs,
  Forall code_point cs -> (length (encode_all cs) <= fuel)%nat ->
  substitute_loop fuel (encode_all cs) = encode_all (without_surrogates cs).
Proof.
  induction fuel as [|fuel IH]; intros cs Hcs Hf.
  - destruct cs as [|c cs]; [done|]. cbn in Hf. rewrite length_app in Hf.
    destruct (utf8_encode_cons c) as (x & r & E). rewrite E in Hf. simpl in Hf. lia.
  - destruct (split_ed cs) as [Hn|(a & c & b & -> & Ha & Hc)].
    + rewrite without_surrogates_no_ed by done. cbn [substitute_loop].
      destruct (encode_all cs) eqn:E; [done|]. rewrite <- E.
      by rewrite (proj2 (find_byte_None _ _)) by (by apply no_ed_all).
    + apply Forall_app in Hcs as [Hca Hcb]. apply Forall_cons in Hcb as [Hcc Hcb].
      cbn [substitute_loop]. rewrite find_ed by done.
      assert (E : encode_all (a ++ c :: b)
                  = encode_all a ++ [0xED; 128 + (c / 64) mod 64; 128 + c mod 64] ++ encode_all b)
        by (rewrite encode_all_app, <- encode_ed by done; done).
      rewrite E in Hf |- *. rewrite take_app_length, drop_app_length.
      rewrite !length_app in Hf. simpl in Hf.
      destruct (encode_all a ++ _ ++ encode_all b) eqn:E2; [by destruct (encode_all a)|]. clear E2.
      cbn [app]. rewrite !cont_byte_encode. cbn [negb orb]. rewrite surrogate_bits, IH by (done || lia).
      unfold without_surrogates at 2. rewrite fmap_app, fmap_cons, encode_all_app.
      fold (without_surrogates a). rewrite (without_surrogates_no_ed a) by done. f_equal.
      cbn [encode_all fmap list_fmap concat]. f_equal. destruct (surrogate c); [done|]. by rewrite encode_ed.
Qed.

(** ** The output is text *)

Lemma push_u32_text c : text (push_u32 c).
Proof.
  unfold push_u32. destruct (is_scalar c) eqn:E; [|exists [REPLACEMENT]; split; [constructor; [right; unfold REPLACEMENT; lia|done]|done]].
  exists [c]. split; [|cbn; by rewrite app_nil_r]. constructor; [|done].
  unfold is_scalar, in_range in E. unfold scalar. apply orb_true_iff in E as [E|E]; bool_to_prop; lia.
Qed.

Lemma FFFD_text : text FFFD.
Proof. apply (push_u32_text 0xD800). Qed.

#[local] Hint Resolve push_u32_text FFFD_text : llrt.

Lemma replace_into_text fuel : forall bytes, Forall byte_ok bytes -> text (replace_into fuel bytes).
Proof.
  induction fuel as [|fuel IH]; intros bytes Hb; [apply text_nil|].
  destruct bytes as [|b0 rest]; [apply text_nil|]. apply Forall_cons in Hb as [Hb0 Hr].
  assert (Hinv : text (FFFD ++ replace_into fuel rest)) by auto with llrt.
  cbn [replace_into]. destruct (in_range 0 127 b0) eqn:E0.
  { change (b0 :: replace_into fuel rest) with ([b0] ++ replace_into fuel rest).
    apply text_app; [|by apply IH]. apply ascii_text. constructor; [|done].
    unfold in_range in E0. bool_to_prop. lia. }
  destruct (in_range 192 223 b0).
  { destruct rest as [|b1 rest]; [done|]. apply Forall_cons in Hr as [_ Hr].
    destruct (cont_byte b1); auto with llrt. }
  destruct (in_range 224 239 b0).
  { destruct rest as [|b1 [|b2 rest]]; try done. rewrite !Forall_cons in Hr. destruct Hr as (_ & _ & Hr).
    destruct (cont_byte b1 && cont_byte b2); auto with llrt. }
  destruct (in_range 240 247 b0); [|done].
  destruct rest as [|b1 [|b2 [|b3 rest]]]; try done.
  rewrite !Forall_cons in Hr. destruct Hr as (_ & _ & _ & Hr).
  destruct (cont_byte b1 && cont_byte b2 && cont_byte b3); auto with llrt.
Qed.

Lemma encode_2 b0 b1 :
  194 <= b0 <= 223 -> 128 <= b1 <= 191 ->
  let c := (b0 - 192) * 64 + (b1 - 128) in scalar c /\ [b0; b1] = utf8_encode c.
Proof.
  intros H0 H1 c. unfold scalar. split; [lia|]. unfold utf8_encode.
  rewrite (proj2 (Z.ltb_ge c 0x80)), (proj2 (Z.ltb_lt c 0x800)) by lia.
  repeat f_equal; unfold c; Z.to_euclidean_division_equations; lia.
Qed.

Lemma encode_3 b0 b1 b2 :
  224 <= b0 <= 239 -> 128 <= b1 <= 191 -> 128 <= b2 <= 191 -> (b0 = 224 -> 160 <= b1) ->
  (b0 = 237 -> b1 <= 159) ->
  let c := (b0 - 224) * 4096 + (b1 - 128) * 64 + (b2 - 128) in scalar c /\ [b0; b1; b2] = utf8_encode c.
Proof.
  intros H0 H1 H2 Hlo Hhi c. unfold scalar. split; [lia|]. unfold utf8_encode.
  rewrite !(proj2 (Z.ltb_ge c _)), (proj2 (Z.ltb_lt c 0x10000)) by lia.
  repeat f_equal; unfold c; Z.to_euclidean_division_equations; lia.
Qed.

Lemma encode_4 b0 b1 b2 b3 :
  240 <= b0 <= 244 -> 128 <= b1 <= 191 -> 128 <= b2 <= 191 -> 128 <= b3 <= 191 ->
  (b0 = 240 -> 144 <= b1) -> (b0 = 244 -> b1 <= 143) ->
  let c := (b0 - 240) * 262144 + (b1 - 128) * 4096 + (b2 - 128) * 64 + (b3 - 128) in
  scalar c /\ [b0; b1; b2; b3] = utf8_encode c.
Proof.
  intros H0 H1 H2 H3 Hlo Hhi c. unfold scalar. split; [lia|]. unfold utf8_encode.
  rewrite !(proj2 (Z.ltb_ge c _)) by lia.
  repeat f_equal; unfold c; Z.to_euclidean_division_equations; lia.
Qed.

Lemma second_ok_range b0 b1 : second_ok b0 b1 = true ->
  128 <= b1 <= 191 /\ (b0 = 224 -> 160 <= b1) /\ (b0 = 237 -> b1 <= 159)
  /\ (b0 = 240 -> 144 <= b1) /\ (b0 = 244 -> b1 <= 143).
Proof.
  unfold second_ok, is_cont, in_range. intros H. repeat case_match; bool_to_prop; lia.
Qed.

Lemma is_cont_range b : is_cont b = true -> 128 <= b <= 191.
Proof. unfold is_cont. intros H. bool_to_prop. lia. Qed.

Lemma lead_width_range b :
  match lead_width b with
  | 1%nat => b < 128
  | 2%nat => 194 <= b <= 223
  | 3%nat => 224 <= b <= 239
  | 4%nat => 240 <= b <= 244
  | _ => True
  end.
Proof. unfold lead_width, in_range. repeat case_match; bool_to_prop; try done; lia. Qed.

(** A character that is read is the encoding of a scalar value. *)
Lemma utf8_step_inv s n c :
  Forall byte_ok s -> utf8_step s = (n, Some c) -> scalar c /\ take n s = utf8_encode c.
Proof.
  intros Hs E. destruct s as [|b0 r]; [done|]. apply Forall_cons in Hs as [H0 _]. simpl in E.
  pose proof (lead_width_range b0) as Hl.
  destruct (lead_width b0) as [|[|[|[|[|w]]]]]; try done.
  - injection E as <- <-. unfold scalar, byte_ok, utf8_encode in *.
    rewrite (proj2 (Z.ltb_lt b0 0x80)) by lia. split; [lia|done].
  - destruct r as [|b1 r]; [done|]. destruct (second_ok b0 b1) eqn:E1; [|done]. injection E as <- <-.
    apply second_ok_range in E1. apply (encode_2 b0 b1); lia.
  - destruct r as [|b1 [|b2 r]]; repeat case_match; try done. simplify_eq.
    apply second_ok_range in H as (? & ? & ? & _). apply is_cont_range in H1. by apply (encode_3 b0 b1 b2).
  - destruct r as [|b1 [|b2 [|b3 r]]]; repeat case_match; try done. simplify_eq.
    apply second_ok_range in H as (? & _ & _ & ? & ?). apply is_cont_range in H1, H2.
    by apply (encode_4 b0 b1 b2 b3).
Qed.

Lemma valid_prefix_text fuel : forall s, Forall byte_ok s -> text (take (valid_up_to fuel s) s).
Proof.
  induction fuel as [|fuel IH]; intros s Hs; [apply text_nil|]. cbn [valid_up_to].
  destruct s as [|b s']; [apply text_nil|]. remember (b :: s') as s eqn:Es. clear Es.
  destruct (utf8_step s) as [n [c|]] eqn:E; [|apply text_nil].
  destruct (utf8_step_inv s n c Hs E) as [Hc Ht].
  rewrite <- take_take_drop, Ht. apply text_app; [|by apply IH, Forall_drop].
  exists [c]. split; [by constructor|]. cbn. by rewrite app_nil_r.
Qed.

(** Valid bytes are one valid prefix. *)
Lemma valid_text n : forall s, (length s <= n)%nat -> Forall byte_ok s -> utf8_valid s = true -> text s.
Proof.
  induction n as [|n IH]; intros [|b s] Hn Hs Hv; try apply text_nil; simpl in Hn; [lia|].
  apply bool_decide_eq_true_1 in Hv. rewrite utf8_decode_cons in Hv.
  pose proof (utf8_step_pos b s) as Hp. pose proof (utf8_step_inv (b :: s)) as Hi.
  destruct (utf8_step (b :: s)) as [k oc]. cbn [fst snd] in Hv, Hp.
  apply Forall_cons in Hv as [[c Hc] Hv]. subst oc. destruct (Hi k c Hs eq_refl) as [Hsc Ht].
  rewrite <- (take_drop k (b :: s)), Ht. apply text_app.
  - exists [c]. split; [by constructor|]. cbn. by rewrite app_nil_r.
  - apply IH; [rewrite length_drop; simpl; lia|by apply Forall_drop|by apply bool_decide_eq_true_2].
Qed.

Lemma get_lossy_wtf8 cs :
  Forall code_point cs -> get_lossy_string (encode_all cs) = encode_all (without_surrogates cs).
Proof.
  intros Hcs. unfold get_lossy_string, qjs_substitute_into.
  destruct (split_ed cs) as [Hn|(a & c & b & -> & Ha & Hc)].
  - rewrite (proj2 (find_byte_None _ _)) by (by apply no_ed_all). by rewrite without_surrogates_no_ed.
  - apply Forall_app in Hcs as [Hca Hcb]. rewrite find_ed by done. rewrite encode_all_app.
    rewrite take_app_length, drop_app_length, substitute_wtf8 by done.
    unfold without_surrogates at 2. rewrite fmap_app, encode_all_app. fold (without_surrogates a).
    by rewrite (without_surrogates_no_ed a).
Qed.

(** Text is kept. *)
Lemma lossy_scalars cs : Forall scalar cs -> get_lossy_string (encode_all cs) = encode_all cs.
Proof.
  intros Hcs. rewrite get_lossy_wtf8; [f_equal|].
  - induction Hcs as [|c cs Hc _ IH]; [done|]. unfold without_surrogates. rewrite fmap_cons. f_equal; [|exact IH].
    destruct (surrogate c) eqn:E; [|done]. unfold surrogate, in_range, scalar in *. bool_to_prop. lia.
  - eapply Forall_impl; [exact Hcs|]. intros c Hc. unfold code_point, scalar in *. lia.
Qed.

(** ** Properties *)

(** A string of the engine becomes the same text with every lone
    surrogate replaced by U+FFFD; and whatever the bytes are, the repaired
    string is well-formed text. *)
Theorem lossy_strings_are_text cs bytes :
  Forall code_point cs -> Forall byte_ok bytes ->
  get_lossy_string (encode_all cs) = encode_all (without_surrogates cs)
  /\ text (encode_all (without_surrogates cs))
  /\ text (replace_invalid_utf8_and_utf16 bytes).
Proof.
  intros Hcs Hb. split_and!.
  - by apply get_lossy_wtf8.
  - eexists. split; [|done]. apply Forall_fmap. eapply Forall_impl; [exact Hcs|].
    intros c Hc. simpl. unfold code_point, surrogate, in_range, scalar, REPLACEMENT in *.
    destruct (_ && _) eqn:E; [lia|]. apply andb_false_iff in E. rewrite !Z.leb_gt in E. lia.
  - unfold replace_invalid_utf8_and_utf16. destruct (utf8_valid bytes) eqn:E; [by eapply valid_text|].
    apply text_app; [by apply valid_prefix_text|]. by apply replace_into_text, Forall_drop.
Qed.

(** "a", a lone high surrogate and U+D7FF; an overlong and a truncated byte. *)
Lemma lossy_strings_are_text_witness :
  get_lossy_string [97; 0xED; 0xA0; 0xBD; 0xED; 0x9F; 0xBF] = [97; 0xEF; 0xBF; 0xBD; 0xED; 0x9F; 0xBF]
  /\ text (replace_invalid_utf8_and_utf16 [0xC3; 0x20; 0xE0; 0xA0]).
Proof.
  destruct (lossy_strings_are_text [97; 0xD83D; 0xD7FF] [0xC3; 0x20; 0xE0; 0xA0]) as (H & _ & Ht).
  - repeat constructor; lia.
  - repeat constructor; lia.
  - split; [exact H|exact Ht].
Defined.
