(* ===== verification/SearchParams.v ===== *)
(** * URLSearchParams (src/modules/llrt_url/src/url_search_params.rs)

    The parameters of a URL are read from and written to the URL itself, an
    object of the crate url: the class [UrlOps] names the functions of that
    crate the code calls, [UrlLaws] states what their documentation promises.
    A [URLSearchParams] and the [URL] it belongs to share one such object; a
    method is a function on it.  [coerced] is the string conversion of the
    bindings. *)
From stdpp Require Import base list numbers strings gmap sorting.
From Stdlib Require Import ZArith Lia.
From S2P Require Import Prelude Utf8 Utf16 StableSort Js Headers LossyString.
Open Scope Z_scope.

Abbreviation pair_ := (list Z * list Z)%type (only parsing).

Class UrlOps := {
  Url : Type;
  scheme : Url -> list Z;
  path : Url -> list Z;
  fragment : Url -> option (list Z);
  query : Url -> option (list Z);
  set_path : list Z -> Url -> Url;
  set_query : option (list Z) -> Url -> Url;
  query_pairs : Url -> list (list Z * list Z);
  append_pair : list Z -> list Z -> Url -> Url;             (* query_pairs_mut().append_pair *)
  clear : Url -> Url;                                       (* query_pairs_mut().clear *)
  extend_pairs : list (list Z * list Z) -> Url -> Url;      (* query_pairs_mut().extend_pairs *)
  byte_serialize : list Z -> list Z;                        (* form_urlencoded::byte_serialize *)
  example_com : Url;                                        (* parse of http://example.com *)
  join : Url -> list Z -> Url;
}.

Section Params.
Context `{UrlOps} {num obj : Type} (coerced : jsval num obj -> result js_error (list Z)).

Definition is_special_scheme (s : list Z) : bool :=
  existsb (fun x => bool_decide (s = x))
    [str "http"; str "https"; str "ftp"; str "ws"; str "wss"; str "file"].

Definition convert_trailing_space (u : Url) : Url :=
  if is_special_scheme (scheme u) then u
  else
    let has_remaining := bool_decide (is_Some (fragment u)) || bool_decide (is_Some (query u)) in
    if ends_with_byte 32 (path u) && has_remaining
    then set_path (take (length (path u) - 1) (path u) ++ str "%20") u
    else u.

Definition serialize_pair (acc : list Z) (p : list Z * list Z) : list Z :=
  (if bool_decide (acc = []) then acc else acc ++ [38])
  ++ byte_serialize p.1 ++ [61] ++ byte_serialize p.2.

Definition to_string (u : Url) : list Z := foldl serialize_pair [] (query_pairs u).

Definition sync_query (u : Url) : Url :=
  let q := to_string u in
  if bool_decide (q = []) then set_query None u else set_query (Some q) u.

Definition size (u : Url) : nat := length (query_pairs u).

Definition append (key value : list Z) (u : Url) : Url :=
  sync_query (append_pair key value (convert_trailing_space u)).

(** [get_coerced_defined_string]: a failed conversion counts as no value. *)
Definition get_coerced_defined_string (v : option (jsval num obj)) : option (list Z) :=
  match v with
  | None | Some VUndefined => None
  | Some v => match coerced v with Ok s => Some s | Err _ => None end
  end.

Definition pair_matches (key : list Z) (value : option (list Z)) (p : list Z * list Z) : bool :=
  bool_decide (p.1 = key) &&
  match value with
  | Some v => bool_decide (p.2 = v)
  | None => true
  end.

Definition delete (key : list Z) (value : option (jsval num obj)) (u : Url) : Url :=
  let u := convert_trailing_space u in
  let value := get_coerced_defined_string value in
  let new_pairs := filter (fun p => pair_matches key value p = false) (query_pairs u) in
  sync_query (if bool_decide (new_pairs = []) then set_query None u else extend_pairs new_pairs (clear u)).

Definition get (key : list Z) (u : Url) : option (list Z) :=
  snd <$> head (filter (fun p => p.1 = key) (query_pairs u)).

Definition get_all (key : list Z) (u : Url) : list (list Z) :=
  snd <$> filter (fun p => p.1 = key) (query_pairs u).

Definition has (key : list Z) (value : option (jsval num obj)) (u : Url) : bool :=
  existsb (pair_matches key (get_coerced_defined_string value)) (query_pairs u).

(** [if uniques.insert(pair.clone()) { pairs.push(pair) }]. *)
Definition push_unique (st : list (list Z * list Z) * list (list Z * list Z)) (p : list Z * list Z) :
    list (list Z * list Z) * list (list Z * list Z) :=
  let '(uniques, pairs) := st in
  if bool_decide (p ∈ uniques) then st else (p :: uniques, pairs ++ [p]).

Definition set_value (key value : list Z) (p : list Z * list Z) : list Z * list Z :=
  (p.1, if bool_decide (p.1 = key) then value else p.2).

Definition set (key value : list Z) (u : Url) : Url :=
  let u := convert_trailing_space u in
  let st := foldl (fun st p => push_unique st (set_value key value p)) ([], []) (query_pairs u) in
  let '(_, new_query_pairs) := push_unique st (key, value) in
  sync_query (extend_pairs new_query_pairs (clear u)).

(** The order of UTF-16 code units. *)
Definition utf16_leb (a b : list Z * list Z) : bool :=
  bytes_leb (encode_utf16 (chars a.1)) (encode_utf16 (chars b.1)).

Definition sort (u : Url) : Url :=
  let new_pairs := sort_by utf16_leb (query_pairs u) in
  sync_query (if bool_decide (new_pairs = []) then set_query None u else extend_pairs new_pairs (clear u)).

Definition read_entry (u : Url) (index : nat) : option (list Z * list Z) := query_pairs u !! index.

(** [URLSearchParamsIter::next]: the new index and the result. *)
Definition next (u : Url) (kind : IterKind) (index : nat) : nat * iter_result :=
  let entry := read_entry u index in
  (match entry with Some _ => S index | None => index end, iterator_result kind entry).

(** [for_each]: the callback gets value, key and may change the parameters,
    which are read again for each index.  [None] is a lack of fuel. *)
Fixpoint for_each_loop (callback : list Z -> list Z -> Url -> result js_error Url)
    (fuel index : nat) (u : Url) : option (result js_error Url) :=
  match fuel with
  | O => None
  | S fuel' =>
      match read_entry u index with
      | None => Some (Ok u)
      | Some (k, v) =>
          match callback v k u with
          | Ok u' => for_each_loop callback fuel' (S index) u'
          | Err e => Some (Err e)
          end
      end
  end.

Definition for_each (callback : list Z -> list Z -> Url -> result js_error Url) (fuel : nat) (u : Url) :=
  for_each_loop callback fuel 0 u.

(** ** Construction *)

Definition from_str (q : list Z) : Url :=
  join example_com (if starts_with [63] q then q else [63] ++ q).

(** A string argument loses its lone surrogates; anything else is converted. *)
Definition usv_string (v : jsval num obj) : result js_error (list Z) :=
  match v with
  | VString s => Ok (get_lossy_string s)
  | _ => coerced v
  end.

(** An element of the array: [None] unless reading it gives an array of two,
    whose elements are then read. *)
Abbreviation tuple := (option (result js_error (jsval num obj) * result js_error (jsval num obj))).

Definition read_tuple (t : tuple) : result js_error (list Z * list Z) :=
  match t with
  | Some (k, v) =>
      let? k := k in
      let? v := v in
      let? key := usv_string k in
      let? value := usv_string v in
      Ok (key, value)
  | None => Err (TypeError "Invalid tuple: Each query pair must be an iterable [name, value] tuple")
  end.

Fixpoint collect {A B} (f : A -> result js_error B) (l : list A) : result js_error (list B) :=
  match l with
  | [] => Ok []
  | x :: l' => let? y := f x in let? ys := collect f l' in Ok (y :: ys)
  end.

Definition from_array (l : list tuple) : result js_error Url :=
  let? pairs := collect read_tuple l in Ok (extend_pairs pairs example_com).

(** An object: whether it has an iterator, what [Array.from] makes of it, and
    its keys with the values they give. *)
Record object_init := {
  has_iterator : result js_error bool;
  array_from : result js_error (list tuple);
  own_entries : list (result js_error (jsval num obj * result js_error (jsval num obj)));
}.

Definition read_record_entry (e : result js_error (jsval num obj * result js_error (jsval num obj))) :
    result js_error (list Z * list Z) :=
  let? (k, v) := e in
  let? key := usv_string k in
  let? v := v in
  let? value := usv_string v in
  Ok (key, value).

Definition record_step (st : list (list Z) * gmap (list Z) (list Z)) (p : list Z * list Z) :
    list (list Z) * gmap (list Z) (list Z) :=
  let '(order, m) := st in
  (if bool_decide (is_Some (m !! p.1)) then order else order ++ [p.1], <[p.1 := p.2]> m).

Fixpoint take_in_order (order : list (list Z)) (m : gmap (list Z) (list Z)) : list (list Z * list Z) :=
  match order with
  | [] => []
  | k :: order' => (k, default [] (m !! k)) :: take_in_order order' (base.delete k m)
  end.

Definition record_pairs (raw : list (list Z * list Z)) : list (list Z * list Z) :=
  let '(order, m) := foldl record_step ([], ∅) raw in take_in_order order m.

Definition from_object (o : object_init) : result js_error Url :=
  let? it := has_iterator o in
  if it then let? l := array_from o in from_array l
  else
    let? raw := collect read_record_entry (own_entries o) in
    Ok (extend_pairs (record_pairs raw) example_com).

Inductive init :=
| InitString (s : list Z)
| InitArray (l : list tuple)
| InitObject (o : object_init)
| InitOther.

Definition new (i : init) : result js_error Url :=
  match i with
  | InitString s => Ok (from_str (get_lossy_string s))
  | InitArray l => from_array l
  | InitObject o => from_object o
  | InitOther => Ok example_com
  end.
End Params.

(** ** What the crate promises *)

Definition pair_text (p : list Z * list Z) : Prop := text p.1 /\ text p.2.

(** The application/x-www-form-urlencoded text of a list of pairs. *)
Definition form `{UrlOps} (ps : list (list Z * list Z)) : list Z :=
  join_with [38] ((fun p => byte_serialize p.1 ++ [61] ++ byte_serialize p.2) <$> ps).

Class UrlLaws `{UrlOps} : Prop := {
  pairs_set_path : forall p u, query_pairs (set_path p u) = query_pairs u;
  pairs_append : forall k v u, text k -> text v ->
    query_pairs (append_pair k v u) = query_pairs u ++ [(k, v)];
  pairs_clear : forall u, query_pairs (clear u) = [];
  pairs_extend : forall ps u, Forall pair_text ps -> query_pairs (extend_pairs ps u) = query_pairs u ++ ps;
  pairs_none : forall u, query_pairs (set_query None u) = [];
  pairs_form : forall ps u, Forall pair_text ps -> ps <> [] ->
    query_pairs (set_query (Some (form ps)) u) = ps;
  pairs_example : query_pairs example_com = [];
  pairs_join : forall ps, Forall pair_text ps -> query_pairs (join example_com ([63] ++ form ps)) = ps;
  serialize_safe : forall s, text s -> 63 ∉ byte_serialize s;
}.

(** ** The list of pairs *)

(** The first occurrence of each element. *)
Fixpoint firsts {A} `{EqDecision A} (l : list A) : list A :=
  match l with
  | [] => []
  | x :: l' => x :: filter (fun y => y <> x) (firsts l')
  end.

Section Firsts.
Context {A : Type} `{EqDecision A}.
Implicit Types l : list A.

Lemma firsts_filter (P : A -> Prop) `{forall x, Decision (P x)} l :
  firsts (filter P l) = filter P (firsts l).
Proof.
  induction l as [|x l IH]; [done|]. cbn [firsts]. rewrite !filter_cons.
  destruct (decide (P x)) as [Hx|Hx]; cbn [firsts]; rewrite IH.
  - f_equal. rewrite !list_filter_filter. apply list_filter_iff. naive_solver.
  - rewrite list_filter_filter. apply list_filter_iff. intros y. naive_solver.
Qed.

Lemma firsts_elem x l : x ∈ firsts l <-> x ∈ l.
Proof.
  induction l as [|y l IH]; [done|]. cbn [firsts]. rewrite !elem_of_cons, list_elem_of_filter, IH.
  destruct (decide (x = y)); naive_solver.
Qed.

Lemma firsts_NoDup l : NoDup (firsts l).
Proof.
  induction l as [|x l IH]; cbn [firsts]; constructor; [|by apply NoDup_filter].
  rewrite list_elem_of_filter. naive_solver.
Qed.

Lemma firsts_head l : head (firsts l) = head l.
Proof. by destruct l. Qed.

Lemma firsts_fmap {B} `{EqDecision B} (f : A -> B) l :
  (forall x y, x ∈ l -> y ∈ l -> f x = f y -> x = y) -> firsts (f <$> l) = f <$> firsts l.
Proof.
  induction l as [|x l IH]; intros Hf; [done|]. rewrite fmap_cons. cbn [firsts]. rewrite fmap_cons.
  rewrite IH by (intros y z ??; apply Hf; by right). f_equal.
  assert (H : forall y, y ∈ firsts l -> y ∈ l) by (intros y; by rewrite firsts_elem).
  revert H. generalize (firsts l). intros m. induction m as [|y m IHm]; intros H; [done|].
  rewrite fmap_cons, !filter_cons.
  destruct (decide (f y <> f x)) as [E|E], (decide (y <> x)) as [E'|E'].
  - rewrite fmap_cons. f_equal. apply IHm. intros z Hz. apply H. by right.
  - destruct E. f_equal. by apply dec_stable.
  - destruct E'. apply Hf; [right; apply H; by left|by left|by apply dec_stable].
  - apply IHm. intros z Hz. apply H. by right.
Qed.

Lemma firsts_replicate (x : A) l : Forall (fun y => y = x) l -> l <> [] -> firsts l = [x].
Proof.
  intros Hl Hne. destruct l as [|y l]; [done|]. apply Forall_cons in Hl as [-> Hl]. cbn [firsts]. f_equal.
  rewrite <- firsts_filter. induction Hl as [|y l -> _ IH]; [done|].
  rewrite filter_cons, decide_False by naive_solver. by apply IH.
Qed.
End Firsts.

Lemma push_unique_firsts l : forall u ps,
  (foldl push_unique (u, ps) l).2 = ps ++ filter (fun p => p ∉ u) (firsts l).
Proof.
  induction l as [|p l IH]; intros u ps; cbn [foldl firsts]; [by rewrite app_nil_r|].
  rewrite filter_cons. cbn [push_unique].
  destruct (bool_decide_reflect (p ∈ u)) as [Hp|Hp].
  - rewrite decide_False by (intros H; by apply H). rewrite IH. f_equal.
    rewrite list_filter_filter. apply list_filter_iff. intros q. split; [|naive_solver].
    intros Hq. split; [done|]. by intros ->.
  - rewrite decide_True by done. rewrite IH, <- (assoc_L (++)). f_equal. cbn [app]. f_equal.
    rewrite list_filter_filter. apply list_filter_iff. intros q. rewrite not_elem_of_cons. naive_solver.
Qed.

(** The methods that change the parameters. *)
Inductive op (num obj : Type) :=
| OpAppend (k v : list Z)
| OpDelete (k : list Z) (v : option (jsval num obj))
| OpSet (k v : list Z)
| OpSort.
Arguments OpAppend {num obj} k v.
Arguments OpDelete {num obj} k v.
Arguments OpSet {num obj} k v.
Arguments OpSort {num obj}.

(** *** What the methods do to a list of pairs *)

(** The order of lists of code units: one is a prefix of the other, or has the
    smaller unit where they first differ. *)
Inductive code_units_le : list Z -> list Z -> Prop :=
| units_prefix u w : code_units_le u (u ++ w)
| units_less p x y u w : x < y -> code_units_le (p ++ x :: u) (p ++ y :: w).

Definition units (s : list Z) : list Z := encode_utf16 (chars s).

(** [set] of the URL standard: the first pair of the name gets the value, the
    others are removed, and there is a new pair if there is none. *)
Fixpoint standard_set (k v : list Z) (l : list (list Z * list Z)) : list (list Z * list Z) :=
  match l with
  | [] => [(k, v)]
  | p :: l' => if decide (p.1 = k) then (k, v) :: filter (fun q => q.1 <> k) l' else p :: standard_set k v l'
  end.

Inductive performs {num obj} (coerced : jsval num obj -> result js_error (list Z)) :
    op num obj -> list (list Z * list Z) -> list (list Z * list Z) -> Prop :=
| performs_append k v l : performs coerced (OpAppend k v) l (l ++ [(k, v)])
| performs_delete_name k v l :
    v = None \/ v = Some VUndefined \/ (exists w e, v = Some w /\ coerced w = Err e) ->
    performs coerced (OpDelete k v) l (filter (fun p => p.1 <> k) l)
| performs_delete_pair k w s l :
    w <> VUndefined -> coerced w = Ok s ->
    performs coerced (OpDelete k (Some w)) l (filter (fun p => p <> (k, s)) l)
| performs_set k v l : performs coerced (OpSet k v) l (firsts (standard_set k v l))
| performs_sort l l' :
    l' ≡ₚ l -> StronglySorted (fun p q => code_units_le (units p.1) (units q.1)) l' ->
    (forall k, filter (fun p => p.1 = k) l' = filter (fun p => p.1 = k) l) ->
    performs coerced OpSort l l'.

Inductive performs_all {num obj} (coerced : jsval num obj -> result js_error (list Z)) :
    list (op num obj) -> list (list Z * list Z) -> list (list Z * list Z) -> Prop :=
| performs_none l : performs_all coerced [] l l
| performs_next o ops l l' l'' :
    performs coerced o l l' -> performs_all coerced ops l' l'' -> performs_all coerced (o :: ops) l l''.

Lemma code_units_le_cons x u w : code_units_le u w -> code_units_le (x :: u) (x :: w).
Proof. intros [u' w'|p y z u' w' Hyz]; [apply (units_prefix (x :: u'))|by apply (units_less (x :: p))]. Qed.

Lemma bytes_leb_units a : forall b, bytes_leb a b = true -> code_units_le a b.
Proof.
  induction a as [|x a IH]; intros [|y b]; try done; [intros _; apply (units_prefix [] [])|intros _; apply (units_prefix [] _)|].
  cbn [bytes_leb]. rewrite orb_true_iff, andb_true_iff, Z.ltb_lt, Z.eqb_eq.
  intros [Hxy|[-> Hab]]; [by apply (units_less [])|]. by apply code_units_le_cons, IH.
Qed.

Lemma filter_set_value k v l :
  filter (fun p => p <> (k, v)) ((set_value k v <$> l) ++ [(k, v)]) = filter (fun p => p.1 <> k) l.
Proof.
  rewrite filter_app, (filter_cons_False _ (k, v)), filter_nil, app_nil_r by naive_solver.
  induction l as [|[k' v'] l IH]; [done|]. rewrite fmap_cons.
  change (set_value k v (k', v')) with (k', if bool_decide (k' = k) then v else v').
  destruct (bool_decide_reflect (k' = k)) as [->|Hk].
  - rewrite !filter_cons_False by naive_solver. exact IH.
  - rewrite !filter_cons_True by naive_solver. f_equal. exact IH.
Qed.

Lemma set_value_standard k v l : firsts ((set_value k v <$> l) ++ [(k, v)]) = firsts (standard_set k v l).
Proof.
  induction l as [|[k' v'] l IH]; [done|]. rewrite fmap_cons. unfold set_value at 1. cbn [fst snd app standard_set].
  destruct (bool_decide_reflect (k' = k)) as [->|Hk]; [rewrite decide_True by done|rewrite decide_False by done]; cbn [firsts].
  - f_equal. rewrite <- !firsts_filter, filter_set_value. f_equal. rewrite list_filter_filter. apply list_filter_iff. naive_solver.
  - by rewrite IH.
Qed.

Section Refinement.
Context `{UrlLaws} {num obj : Type} (coerced : jsval num obj -> result js_error (list Z)).

Definition run (o : op num obj) (u : Url) : Url :=
  match o with
  | OpAppend k v => append k v u
  | OpDelete k v => delete coerced k v u
  | OpSet k v => set k v u
  | OpSort => sort u
  end.

Definition op_text (o : op num obj) : Prop :=
  match o with
  | OpAppend k v | OpSet k v => text k /\ text v
  | _ => True
  end.

Definition wf (u : Url) : Prop := Forall pair_text (query_pairs u).

Lemma to_string_form u : to_string u = form (query_pairs u).
Proof.
  unfold to_string, form. induction (query_pairs u) as [|p l IH] using rev_ind; [done|].
  rewrite foldl_app. cbn [foldl]. rewrite IH, fmap_app, list_fmap_singleton. unfold serialize_pair.
  destruct l as [|q l]; [done|]. rewrite join_with_snoc by done.
  rewrite bool_decide_eq_false_2.
  - by rewrite <- !(assoc_L (++)).
  - rewrite fmap_cons. destruct (_ <$> l); cbn [join_with]; intros E; destruct (byte_serialize q.1); done.
Qed.

Lemma form_nonempty ps : ps <> [] -> form ps <> [].
Proof.
  intros Hne E. destruct ps as [|p ps]; [done|]. unfold form in E. rewrite fmap_cons in E.
  destruct (_ <$> ps); cbn [join_with] in E; by destruct (byte_serialize p.1).
Qed.

Lemma sync_pairs u : wf u -> query_pairs (sync_query u) = query_pairs u.
Proof.
  intros Hw. unfold sync_query. rewrite to_string_form.
  destruct (query_pairs u) as [|p l] eqn:E; [apply pairs_none|].
  rewrite bool_decide_eq_false_2 by (by apply form_nonempty).
  apply pairs_form; [by rewrite <- E|done].
Qed.

Lemma convert_pairs u : query_pairs (convert_trailing_space u) = query_pairs u.
Proof. unfold convert_trailing_space. case_tests. apply pairs_set_path. Qed.

(** The URL whose pairs are replaced. *)
Lemma replace_pairs ps u :
  Forall pair_text ps ->
  query_pairs (sync_query (if bool_decide (ps = []) then set_query None u else extend_pairs ps (clear u))) = ps.
Proof.
  intros Hps. match goal with |- context [sync_query ?x] => set (u' := x) end.
  assert (E : query_pairs u' = ps).
  { unfold u'. destruct (bool_decide_reflect (ps = [])) as [->|]; [apply pairs_none|].
    by rewrite pairs_extend, pairs_clear. }
  rewrite sync_pairs; [done|]. unfold wf. by rewrite E.
Qed.

Lemma set_value_text key value l :
  Forall pair_text l -> text key -> text value -> Forall pair_text ((set_value key value <$> l) ++ [(key, value)]).
Proof.
  intros Hl Hk Hv. apply Forall_app. split; [|by repeat constructor]. apply Forall_fmap.
  eapply Forall_impl; [exact Hl|]. intros p [H1 H2]. unfold set_value, compose, pair_text. cbn [fst snd].
  split; [done|]. by case_bool_decide.
Qed.

Lemma set_pairs key value u :
  wf u -> text key -> text value ->
  query_pairs (set key value u) = firsts ((set_value key value <$> query_pairs u) ++ [(key, value)]).
Proof.
  intros Hw Hk Hv. unfold set. rewrite convert_pairs. set (ps := (_ <$> _) ++ _).
  assert (E : forall st, push_unique (foldl (fun st p => push_unique st (set_value key value p)) st
                           (query_pairs u)) (key, value)
              = foldl push_unique st ps).
  { intros st. unfold ps. by rewrite foldl_app, foldl_fmap. }
  rewrite E. pose proof (push_unique_firsts ps [] []) as Hf.
  destruct (foldl push_unique ([], []) ps) as [u' l]. cbn [snd] in Hf. subst l. cbn [app].
  rewrite filter_all by (apply Forall_forall; intros ? _; apply not_elem_of_nil).
  pose proof (replace_pairs (firsts ps) (convert_trailing_space u)) as Hr.
  rewrite bool_decide_eq_false_2 in Hr by (unfold ps; by destruct (_ <$> _)). apply Hr.
  apply (Forall_incl _ ps); [by apply set_value_text|intros p; by rewrite firsts_elem].
Qed.

Lemma delete_performs k v l :
  performs coerced (OpDelete k v) l
    (filter (fun p => pair_matches k (get_coerced_defined_string coerced v) p = false) l).
Proof.
  assert (Hname : filter (fun p => pair_matches k None p = false) l = filter (fun p => p.1 <> k) l).
  { apply list_filter_iff. intros p. unfold pair_matches. rewrite andb_true_r. by rewrite bool_decide_eq_false. }
  assert (Hpair : forall s, filter (fun p => pair_matches k (Some s) p = false) l = filter (fun p => p <> (k, s)) l).
  { intros s. apply list_filter_iff. intros [k' s']. unfold pair_matches. cbn [fst snd].
    rewrite andb_false_iff, !bool_decide_eq_false. split; [naive_solver|]. intros Hne.
    destruct (decide (k' = k)) as [->|]; [|by left]. right. by intros ->. }
  unfold get_coerced_defined_string. destruct v as [w|]; [|rewrite Hname; apply performs_delete_name; by left].
  destruct w; try (rewrite Hname; apply performs_delete_name; by right; left);
    (destruct (coerced _) as [r|e] eqn:Hc; [rewrite Hpair; by apply performs_delete_pair|rewrite Hname; apply performs_delete_name; eauto 6]).
Qed.

Lemma sort_performs l : performs coerced OpSort l (sort_by utf16_leb l).
Proof.
  assert (Ho : TotalPreorder utf16_leb) by exact (key_order bytes_leb (fun p => encode_utf16 (chars p.1)) _).
  constructor; [apply sort_by_perm| |].
  - induction (sort_by_sorted utf16_leb l) as [|p l' _ IH Hp]; constructor; [done|].
    eapply Forall_impl; [exact Hp|]. intros q. apply bytes_leb_units.
  - intros k. assert (He : forall m : list (list Z * list Z),
      filter (fun p => p.1 = k) m = filter (fun p => bool_decide (p.1 = k) = true) m)
      by (intros m; apply list_filter_iff; intros; by rewrite bool_decide_eq_true).
    rewrite !He. apply (sort_by_stable utf16_leb (fun p => bool_decide (p.1 = k))). intros p q Hp%bool_decide_eq_true Hq%bool_decide_eq_true.
    unfold utf16_leb. rewrite Hp, Hq. apply bytes_leb_refl.
Qed.

Lemma run_performs o u : wf u -> op_text o -> performs coerced o (query_pairs u) (query_pairs (run o u)) /\ wf (run o u).
Proof.
  assert (Hall : forall l, Forall pair_text l -> query_pairs (run o u) = l ->
    performs coerced o (query_pairs u) l -> performs coerced o (query_pairs u) (query_pairs (run o u)) /\ wf (run o u)).
  { intros l Hl E Hp. unfold wf. by rewrite E. }
  intros Hw Ho. destruct o as [k v|k v|k v|]; cbn [run] in *.
  - destruct Ho as [Hk Hv].
    assert (Hl : Forall pair_text (query_pairs u ++ [(k, v)])) by (apply Forall_app; split; [done|]; by repeat constructor).
    apply (Hall _ Hl); [|constructor]. unfold append. rewrite sync_pairs; [by rewrite pairs_append, convert_pairs|].
    unfold wf. by rewrite pairs_append, convert_pairs.
  - eapply Hall; [| |apply delete_performs].
    + apply (Forall_incl _ _ _ Hw). intros p. by rewrite list_elem_of_filter; intros [_ ?].
    + unfold delete. rewrite convert_pairs. apply replace_pairs. apply (Forall_incl _ _ _ Hw).
      intros p. by rewrite list_elem_of_filter; intros [_ ?].
  - destruct Ho as [Hk Hv]. eapply Hall; [|by apply set_pairs|rewrite set_value_standard; constructor].
    apply (Forall_incl _ _ _ (set_value_text k v _ Hw Hk Hv)). intros p. by rewrite firsts_elem.
  - eapply Hall; [| |apply sort_performs].
    + apply (Forall_incl _ _ _ Hw). intros p. by rewrite sort_by_perm.
    + unfold sort. apply replace_pairs. apply (Forall_incl _ _ _ Hw). intros p. by rewrite sort_by_perm.
Qed.

Lemma set_filter_other key value key' l :
  key' <> key ->
  filter (fun p => p.1 = key') ((set_value key value <$> l) ++ [(key, value)]) = filter (fun p => p.1 = key') l.
Proof.
  intros Hne. rewrite filter_app, filter_cons_False, filter_nil, app_nil_r by (simpl; congruence).
  induction l as [|[k v] l IH]; [done|]. rewrite fmap_cons, !filter_cons.
  destruct (decide (k = key')) as [->|Hk].
  - rewrite !decide_True by done. f_equal; [|exact IH]. unfold set_value. cbn [fst snd].
    by rewrite bool_decide_eq_false_2.
  - rewrite !decide_False by done. exact IH.
Qed.

Lemma form_no_question ps : Forall pair_text ps -> starts_with [63] (form ps) = false.
Proof.
  intros Hps. apply bool_decide_eq_false_2. intros [t Ht]. cbn [app] in Ht.
  destruct ps as [|[k v] ps]; [done|]. unfold form in Ht. rewrite fmap_cons in Ht. cbn [fst snd] in Ht.
  apply Forall_cons in Hps as [[Hk _] _]. pose proof (serialize_safe k Hk) as Hs.
  destruct (byte_serialize k) as [|b s]; destruct (_ <$> ps); cbn [join_with app] in Ht; try done;
    injection Ht as -> _; destruct Hs; by left.
Qed.

Lemma text_lossy s : text s -> get_lossy_string s = s.
Proof. intros (cs & Hcs & ->). by apply lossy_scalars. Qed.

Lemma collect_entries l :
  Forall pair_text l ->
  collect (read_tuple coerced) ((fun p => Some (Ok (VString p.1), Ok (VString p.2))) <$> l) = Ok l.
Proof.
  induction 1 as [|[k v] l [Hk Hv] _ IH]; [done|]. rewrite fmap_cons. cbn [collect read_tuple fst snd].
  cbn [result_bind usv_string]. simpl in Hk, Hv. by rewrite !text_lossy, IH.
Qed.
End Refinement.

(** ** Properties *)

Section Properties.
Context `{UrlLaws} {num obj : Type} (coerced : jsval num obj -> result js_error (list Z)).

(** C31: any sequence of [append], [delete], [set] and [sort] does to the query
    of the URL what [performs] says of the list of its pairs: [append] adds the
    pair at the end; [delete] removes the pairs of the name, or, given a value
    that converts to a string, those of the name and the value; [set] replaces
    the first pair of the name, removes the others and adds one if there is
    none, as the standard says, but also removes every repetition of another
    pair; [sort] orders the pairs by the UTF-16 code units of their names, and
    pairs of the same name keep their order.  Names and values are text. *)
Theorem search_params_refine_list (ops : list (op num obj)) u :
  wf u -> Forall op_text ops ->
  performs_all coerced ops (query_pairs u) (query_pairs (foldl (fun u o => run coerced o u) u ops))
  /\ wf (foldl (fun u o => run coerced o u) u ops).
Proof.
  intros Hw Hops. revert u Hw. induction Hops as [|o ops Ho _ IH]; intros u Hw; [split; [constructor|done]|]. cbn [foldl].
  destruct (run_performs coerced o u Hw Ho) as [Hp Hw']. destruct (IH _ Hw') as [Hall Hw'']. split; [|done].
  by econstructor.
Qed.

(** After [set] a key has exactly the new value; every other key keeps its
    first value and, repeated values counted once, its values in order. *)
Theorem search_params_set_get key value key' u :
  wf u -> text key -> text value -> key' <> key ->
  get_all key (set key value u) = [value]
  /\ get key' (set key value u) = get key' u
  /\ get_all key' (set key value u) = firsts (get_all key' u)
  /\ NoDup (query_pairs (set key value u)).
Proof.
  intros Hw Hk Hv Hne. unfold get_all, get. rewrite set_pairs by done.
  set (l := query_pairs u). split_and!.
  - rewrite <- firsts_filter, filter_app, filter_cons_True by done.
    rewrite (firsts_replicate (key, value)); [done| |by destruct (filter _ _)].
    apply Forall_app. split; [|by repeat constructor]. apply Forall_forall. intros p.
    rewrite list_elem_of_filter. intros [Hp Hin]. apply list_elem_of_fmap in Hin as (q & -> & _).
    unfold set_value in *. cbn [fst] in Hp. by rewrite bool_decide_eq_true_2, Hp.
  - by rewrite <- firsts_filter, firsts_head, set_filter_other.
  - rewrite <- firsts_filter, set_filter_other by done. symmetry. apply firsts_fmap.
    intros [k1 v1] [k2 v2]. rewrite !list_elem_of_filter. simpl. intros [-> _] [-> _] ->. done.
  - apply firsts_NoDup.
Qed.

(** The text of the parameters read again, and the list of their entries
    given to the constructor, make the same parameters. *)
Theorem search_params_roundtrip u :
  wf u ->
  query_pairs (from_str (to_string u)) = query_pairs u
  /\ exists u', from_array coerced ((fun p => Some (Ok (VString p.1), Ok (VString p.2))) <$> query_pairs u) = Ok u'
       /\ query_pairs u' = query_pairs u.
Proof.
  intros Hw. split.
  - unfold from_str. rewrite to_string_form, form_no_question by done. by apply pairs_join.
  - exists (extend_pairs (query_pairs u) example_com). split.
    + unfold from_array. by rewrite collect_entries.
    + by rewrite pairs_extend, pairs_example.
Qed.
End Properties.
