(* ===== verification/FormUrlencoded.v ===== *)
(** * A concrete URL with a query in application/x-www-form-urlencoded

    An instance of the URL class: it shows that the laws assumed of the crate
    url hold together, and the concrete runs of the search parameters evaluate
    with it.  A URL is its query here; the other parts are those of
    http://example.com. *)
From stdpp Require Import base list numbers strings.
From Stdlib Require Import ZArith Lia.
From S2P Require Import Prelude Utf8 StableSort Js SearchParams.
Open Scope Z_scope.

Definition plain_byte (b : Z) : bool :=
  ((48 <=? b) && (b <=? 57)) || ((65 <=? b) && (b <=? 90)) || ((97 <=? b) && (b <=? 122))
  || (b =? 42) || (b =? 45) || (b =? 46) || (b =? 95).

Definition hex_upper (d : Z) : Z := if d <? 10 then 48 + d else 55 + d.
Definition hex_value (c : Z) : option Z :=
  if (48 <=? c) && (c <=? 57) then Some (c - 48)
  else if (65 <=? c) && (c <=? 70) then Some (c - 55)
  else if (97 <=? c) && (c <=? 102) then Some (c - 87)
  else None.

Definition percent (b : Z) : list Z :=
  if plain_byte b then [b] else if b =? 32 then [43] else [37; hex_upper (b / 16); hex_upper (b mod 16)].

Definition percent_all (s : list Z) : list Z := concat (percent <$> s).

Fixpoint percent_decode (s : list Z) : list Z :=
  match s with
  | [] => []
  | c :: r =>
      if c =? 43 then 32 :: percent_decode r
      else if c =? 37 then
        match r with
        | h :: l :: r' =>
            match hex_value h, hex_value l with
            | Some a, Some b => (16 * a + b) :: percent_decode r'
            | _, _ => c :: percent_decode r
            end
        | _ => c :: percent_decode r
        end
      else c :: percent_decode r
  end.

Definition form_text (s : list Z) : list Z := from_utf8_lossy (percent_decode s).

Definition parse_pair (part : list Z) : list Z * list Z :=
  match find_byte 61 part with
  | Some i => (form_text (take i part), form_text (drop (S i) part))
  | None => (form_text part, [])
  end.

Definition form_parse (q : list Z) : list (list Z * list Z) :=
  parse_pair <$> filter (fun part => part <> []) (split_on 38 q).

Definition pair_item (p : list Z * list Z) : list Z := percent_all p.1 ++ [61] ++ percent_all p.2.

Definition add_item (q : option (list Z)) (p : list Z * list Z) : option (list Z) :=
  Some (match q with
        | None | Some [] => pair_item p
        | Some q => q ++ [38] ++ pair_item p
        end).

#[export] Instance form_url : UrlOps := {
  Url := option (list Z);
  scheme _ := str "http";
  path _ := str "/";
  fragment _ := None;
  query u := u;
  set_path _ u := u;
  set_query q _ := q;
  query_pairs u := form_parse (default [] u);
  append_pair k v u := add_item u (k, v);
  clear _ := Some [];
  extend_pairs ps u := foldl add_item u ps;
  byte_serialize := percent_all;
  example_com := None;
  join _ q := Some (drop 1 q);
}.

(** ** Its laws *)

Lemma hex_round d : 0 <= d < 16 -> hex_value (hex_upper d) = Some d.
Proof.
  intros H. pose proof (check_range (fun d => bool_decide (hex_value (hex_upper d) = Some d)) 16 eq_refl d H) as E.
  by apply bool_decide_eq_true_1 in E.
Qed.

Lemma percent_decode_cons b s :
  byte_ok b -> percent_decode (percent b ++ s) = b :: percent_decode s.
Proof.
  intros Hb. unfold byte_ok in Hb. unfold percent. destruct (plain_byte b) eqn:E.
  - cbn [app percent_decode].
    rewrite (proj2 (Z.eqb_neq b 43)), (proj2 (Z.eqb_neq b 37)); [done|..]; by intros ->.
  - destruct (Z.eqb_spec b 32) as [->|]; [done|]. cbn [app percent_decode].
    rewrite !hex_round by (split; (apply Z.mod_pos_bound || apply Z.div_pos || apply Z.div_lt_upper_bound); lia).
    simpl. f_equal. pose proof (Z.div_mod b 16 ltac:(lia)). lia.
Qed.

Lemma percent_decode_all s : Forall byte_ok s -> percent_decode (percent_all s) = s.
Proof.
  induction 1 as [|b s Hb _ IH]; [done|]. unfold percent_all. rewrite fmap_cons. cbn [concat].
  rewrite percent_decode_cons by done. by f_equal.
Qed.

Lemma text_bytes s : text s -> Forall byte_ok s.
Proof.
  intros (cs & Hcs & ->). induction Hcs as [|c cs Hc _ IH]; [constructor|].
  change (encode_all (c :: cs)) with (utf8_encode c ++ encode_all cs). apply Forall_app. split; [|done].
  unfold scalar, utf8_encode, byte_ok in *.
  repeat match goal with |- context [if ?b then _ else _] => destruct b eqn:? end; bool_to_prop;
    repeat constructor; Z.to_euclidean_division_equations; lia.
Qed.

Lemma form_text_all s : text s -> form_text (percent_all s) = s.
Proof.
  intros Hs. unfold form_text. rewrite percent_decode_all by (by apply text_bytes).
  destruct Hs as (cs & Hcs & ->). by apply from_utf8_lossy_encode_all.
Qed.

Ltac separator := apply (bool_decide_unpack _); exact I.

(** The bytes that are written are none of the separators. *)
Lemma percent_safe c s : c ∈ [38; 61; 63] -> Forall byte_ok s -> c ∉ percent_all s.
Proof.
  intros Hc. induction 1 as [|b s Hb _ IH]; [apply not_elem_of_nil|].
  unfold percent_all. rewrite fmap_cons. cbn [concat]. rewrite not_elem_of_app. split; [|exact IH].
  pose proof (check_range (fun b => forallb (fun c => bool_decide (c ∉ percent b)) [38; 61; 63]) 256 eq_refl b Hb) as E.
  rewrite forallb_forall in E. specialize (E c (proj1 (list_elem_of_In _ _) Hc)).
  by apply bool_decide_eq_true_1 in E.
Qed.

Lemma parse_pair_item p : pair_text p -> parse_pair (pair_item p) = p.
Proof.
  intros [Hk Hv]. unfold parse_pair, pair_item.
  change ([61] ++ percent_all p.2) with (61 :: percent_all p.2).
  rewrite (find_byte_app 61 (percent_all p.1)) by (apply percent_safe; [separator|by apply text_bytes]).
  rewrite take_app_length, cons_middle, (assoc_L (++)).
  rewrite drop_app_length' by (rewrite length_app; simpl; lia).
  rewrite !form_text_all by done. by destruct p.
Qed.

Lemma pair_item_split p : pair_text p -> split_on 38 (pair_item p) = [pair_item p].
Proof.
  intros [Hk Hv]. apply split_on_none. unfold pair_item. rewrite !not_elem_of_app. split_and!.
  - apply percent_safe; [separator|by apply text_bytes].
  - by rewrite list_elem_of_singleton.
  - apply percent_safe; [separator|by apply text_bytes].
Qed.

Lemma pair_item_nonempty p : pair_item p <> [].
Proof. unfold pair_item. by destruct (percent_all p.1). Qed.

Lemma form_parse_item p : pair_text p -> form_parse (pair_item p) = [p].
Proof.
  intros Hp. unfold form_parse. rewrite pair_item_split by done.
  rewrite filter_cons_True, filter_nil by apply pair_item_nonempty. simpl. by rewrite parse_pair_item.
Qed.

Lemma form_parse_app a b : form_parse (a ++ [38] ++ b) = form_parse a ++ form_parse b.
Proof. unfold form_parse. cbn [app]. by rewrite split_on_concat, filter_app, fmap_app. Qed.

Lemma add_item_pairs u p :
  pair_text p -> form_parse (default [] (add_item u p)) = form_parse (default [] u) ++ [p].
Proof.
  intros Hp. unfold add_item. cbn [default id].
  destruct u as [[|b q]|]; cbn [default id].
  - by rewrite form_parse_item.
  - by rewrite form_parse_app, form_parse_item.
  - by rewrite form_parse_item.
Qed.

Lemma extend_items ps : forall u, Forall pair_text ps ->
  form_parse (default [] (foldl add_item u ps)) = form_parse (default [] u) ++ ps.
Proof.
  induction ps as [|p ps IH]; intros u Hps; cbn [foldl]; [by rewrite app_nil_r|].
  apply Forall_cons in Hps as [Hp Hps]. rewrite IH, add_item_pairs by done. by rewrite <- (assoc_L (++)).
Qed.

Lemma form_parse_form ps : Forall pair_text ps -> form_parse (form ps) = ps.
Proof.
  unfold form. change (fun p => _) with pair_item.
  induction 1 as [|p ps Hp Hps IH]; [done|]. rewrite fmap_cons.
  destruct ps as [|p' ps]; [by apply form_parse_item|].
  rewrite join_with_cons by done. by rewrite form_parse_app, form_parse_item, IH.
Qed.

#[export] Instance form_url_laws : UrlLaws.
Proof.
  split; try done.
  - intros k v u Hk Hv. by apply add_item_pairs.
  - intros ps u Hps. by apply extend_items.
  - intros ps u Hps _. by apply form_parse_form.
  - intros ps Hps. by apply form_parse_form.
  - intros s Hs. apply percent_safe; [separator|by apply text_bytes].
Qed.

(** ** Concrete runs *)

Abbreviation arg := (jsval Empty_set Empty_set).
Definition no_coercion (v : arg) : result js_error (list Z) :=
  match v with
  | VString s => Ok s
  | _ => Err FromJs
  end.

(** [a=1&b=2&a=3&c=x&c=x]. *)
Definition sample_pairs : list (list Z * list Z) :=
  [(str "a", str "1"); (str "b", str "2"); (str "a", str "3"); (str "c", str "x"); (str "c", str "x")].
Definition sample_params : Url := extend_pairs sample_pairs example_com.

Lemma sample_pairs_text : Forall pair_text sample_pairs.
Proof. repeat constructor; solve_ascii. Qed.

Lemma sample_params_wf : wf sample_params.
Proof. unfold wf, sample_params. rewrite pairs_extend by apply sample_pairs_text. apply sample_pairs_text. Qed.

Lemma search_params_refine_list_witness :
  let ops := [OpDelete (str "a") (Some (VString (str "3"))); OpAppend (str "b") (str "0 &"); OpSort; OpSet (str "b") (str "7")] in
  performs_all no_coercion ops sample_pairs [(str "a", str "1"); (str "b", str "7"); (str "c", str "x")].
Proof.
  intros ops. pose proof (search_params_refine_list no_coercion ops sample_params sample_params_wf) as H.
  unfold sample_params in H at 1. rewrite pairs_extend, pairs_example in H by apply sample_pairs_text.
  refine (proj1 (H _)). repeat constructor; solve_ascii.
Defined.

Lemma search_params_set_get_witness :
  get_all (str "a") (set (str "a") (str "4") sample_params) = [str "4"]
  /\ get (str "b") (set (str "a") (str "4") sample_params) = get (str "b") sample_params.
Proof.
  destruct (search_params_set_get (str "a") (str "4") (str "b") sample_params) as (Ha & Hb & _).
  - apply sample_params_wf.
  - solve_ascii.
  - solve_ascii.
  - discriminate.
  - split; [exact Ha|exact Hb].
Defined.

Lemma search_params_roundtrip_witness :
  query_pairs (from_str (to_string sample_params)) = query_pairs sample_params.
Proof. exact (proj1 (search_params_roundtrip no_coercion sample_params sample_params_wf)). Defined.

(** [set] of one key drops the repeated pair of another one. *)
Example set_drops_other_pairs :
  to_string sample_params = str "a=1&b=2&a=3&c=x&c=x"
  /\ to_string (set (str "a") (str "4") sample_params) = str "a=4&b=2&c=x".
Proof. vm_compute. split; reflexivity. Qed.
