(* ===== verification/Buffer.v ===== *)
(** * Buffer (src/modules/llrt_buffer/src/buffer.rs)

    A buffer is a view: an object with a range of the bytes of an array buffer,
    to which the program may have added properties of its own.  Views of one
    array buffer share its bytes, so that the operations act on a memory of
    array buffers by address; a detached one has no entry.  An operation
    returns [None] for a panic of the Rust code and otherwise a [result]; an
    exception leaves the memory as it was.  Numbers are the engine's: [as_int],
    [as_float] and [as_i64] are the conversions of the bindings, floats are
    their bit patterns.  A copy between overlapping views reads before it
    writes.  Messages are given without their inner quotes. *)
From stdpp Require Import base list numbers strings gmap.
From Stdlib Require Import ZArith Lia Sorted.
From S2P Require Import Prelude Utf8 Js Encoding Rfc4648.
Open Scope Z_scope.

Abbreviation memory := (gmap nat (list Z)) (only parsing).

(** [v_extra] counts the enumerable properties that the program added to the
    object, besides those of the bytes. *)
Record view := mkViewWith { v_buffer : nat; v_offset : nat; v_length : nat; v_extra : nat }.
Abbreviation mkView b offset len := (mkViewWith b offset len 0%nat).

(** Panic, exception or result. *)
Abbreviation fallible A := (option (result js_error A)) (only parsing).

Definition fbind {A B} (o : option (result js_error A)) (k : A -> option (result js_error B)) :
    option (result js_error B) :=
  match o with
  | None => None
  | Some (Err e) => Some (Err e)
  | Some (Ok x) => k x
  end.
Notation "'let@' x ':=' o 'in' k" := (fbind o (fun x => k))
  (at level 10, x pattern, o at level 100, k at level 200) : llrt_scope.

(** [bytes[a..b]]. *)
Definition slice_range (bytes : list Z) (a b : nat) : option (list Z) :=
  if (a <=? b)%nat && (b <=? length bytes)%nat then Some (take (b - a) (drop a bytes)) else None.

(** [bytes[a..].copy_from_slice(src)] for [src] that fits. *)
Definition put (bytes : list Z) (a : nat) (src : list Z) : list Z :=
  take a bytes ++ src ++ drop (a + length src) bytes.

(** [bytes[a..b].copy_from_slice(src)]. *)
Definition copy_into (bytes : list Z) (a b : nat) (src : list Z) : option (list Z) :=
  if (a <=? b)%nat && (b <=? length bytes)%nat && (length src =? b - a)%nat then Some (put bytes a src) else None.

Definition ERROR_MSG_ARRAY_BUFFER_DETACHED : string := "ArrayBuffer is detached".

(** [or_throw] of an encoding error. *)
Definition or_throw {A} (r : result enc_error A) : result js_error A :=
  match r with
  | Ok x => Ok x
  | Err _ => Err LibraryError
  end.

Definition resolve_view_bytes (m : gmap nat (list Z)) (v : view) : result js_error (list Z) :=
  match m !! v_buffer v with
  | None => Err (ErrorMsg ERROR_MSG_ARRAY_BUFFER_DETACHED)
  | Some raw =>
      if (length raw <? v_offset v)%nat || (length raw - v_offset v <? v_length v)%nat
      then Err (RangeError "The value of byteOffset is out of range")
      else Ok (take (v_length v) (drop (v_offset v) raw))
  end.

(** The bytes of the view replaced. *)
Definition store (m : gmap nat (list Z)) (v : view) (bytes : list Z) : gmap nat (list Z) :=
  match m !! v_buffer v with
  | Some raw => <[v_buffer v := put raw (v_offset v) bytes]> m
  | None => m
  end.

(** [ObjectBytes::as_bytes] of a typed array. *)
Definition as_bytes (m : gmap nat (list Z)) (v : view) : result js_error (list Z) :=
  match resolve_view_bytes m v with
  | Ok bytes => Ok bytes
  | Err _ => Err (ErrorMsg ERROR_MSG_ARRAY_BUFFER_DETACHED)
  end.

(** [this.0.len()]: the binding counts the enumerable properties of the object,
    one for each byte of the view (none when it is detached or out of its
    buffer) and those that the program added. *)
Definition object_len (m : gmap nat (list Z)) (v : view) : nat :=
  match resolve_view_bytes m v with
  | Ok bytes => length bytes
  | Err _ => 0
  end + v_extra v.

(** A new array buffer and the view of all of it ([Buffer(bytes).into_js]). *)
Definition into_js (m : gmap nat (list Z)) (bytes : list Z) : view * gmap nat (list Z) :=
  let b := fresh (dom m) in (mkView b 0 (length bytes), <[b := bytes]> m).

Definition get_start_end_indexes (source_len : nat) (target_len : option nat) (offset : nat) : nat * nat :=
  if (source_len <? offset)%nat then (0, 0)%nat
  else
    let target_len := default (source_len - offset)%nat target_len in
    if (source_len <? offset + target_len)%nat then (offset, source_len)
    else (offset, target_len + offset)%nat.

Section Buffer.
Context `{Codecs} {num : Type}.
Context (as_int as_float : num -> option Z) (as_i64 : num -> Z).
Context (num_to_string : num -> list Z) (as_offset : num -> result js_error nat).
Context (f64_as_f32 f32_as_f64 : Z -> Z).

(** Arguments: strings, numbers, arrays with the bytes their elements convert
    to, views (of a [Buffer] or another array buffer), and other values with
    the string they can be made into. *)
Inductive value :=
| VStr (s : list Z)
| VNum (n : num)
| VArr (vals : list (result js_error Z))
| VView (v : view) (is_buffer : bool)
| VOther (coerced : option (list Z)).

Fixpoint collect_bytes (vals : list (result js_error Z)) : result js_error (list Z) :=
  match vals with
  | [] => Ok []
  | v :: vals' => let? b := v in let? bs := collect_bytes vals' in Ok (b :: bs)
  end.

Definition get_array_bytes (vals : list (result js_error Z)) (offset : nat) (length_ : option nat) :
    result js_error (list Z) :=
  let '(start, end_) := get_start_end_indexes (length vals) length_ offset in
  collect_bytes (take (end_ - start) (drop start vals)).

(** ** Static methods *)

(** [byte_ref[i % byte_ref_length]] for each [i]; an empty [byte_ref] makes
    the remainder panic. *)
Definition alloc_byte_ref (byte_ref : list Z) (len : nat) : option (list Z) :=
  if (0 <? len)%nat && (length byte_ref =? 0)%nat then None
  else Some ((fun i => default 0 (byte_ref !! (i mod length byte_ref)%nat)) <$> seq 0 len).

Definition alloc (m : gmap nat (list Z)) (len : nat) (fill : option value) (encoding : option (list Z)) :
    option (result js_error (view * gmap nat (list Z))) :=
  match fill with
  | Some (VStr s) =>
      let@ bytes := (match encoding with
                     | Some e => Some (let? enc := or_throw (from_str e) in or_throw (decode_from_string enc s))
                     | None => Some (Ok s)
                     end) in
      let! filled := alloc_byte_ref bytes len in Some (Ok (into_js m filled))
  | Some (VNum n) =>
      Some (Ok (into_js m (replicate len (match as_int n with Some z => wrap 8 z | None => 0 end))))
  | Some (VView v _) =>
      let@ bytes := Some (as_bytes m v) in
      let! filled := alloc_byte_ref bytes len in Some (Ok (into_js m filled))
  | _ => Some (Ok (into_js m (replicate len 0)))
  end.

Definition byte_length (m : gmap nat (list Z)) (v : value) (encoding : option (list Z)) : result js_error nat :=
  match encoding with
  | Some e =>
      let? enc := or_throw (from_str e) in
      let? bytes := (match v with
                     | VStr s => Ok s
                     | VArr vals => get_array_bytes vals 0 None
                     | VView w _ => as_bytes m w
                     | VNum n => Ok (num_to_string n)
                     | VOther (Some s) => Ok s
                     | VOther None => Err (ErrorMsg "value must be typed DataView, Buffer, ArrayBuffer, Uint8Array or interpretable as string")
                     end) in
      let? decoded := or_throw (decode enc bytes) in Ok (length decoded)
  | None =>
      match v with
      | VStr s => Ok (length s)
      | VArr vals => let? _ := collect_bytes vals in Ok (length vals)
      | VView w _ => let? bytes := as_bytes m w in Ok (length bytes)
      | _ => Err (ErrorMsg "value must be typed DataView, Buffer, ArrayBuffer, Uint8Array or string")
      end
  end.

(** The loop of [concat] over the elements of the list, each read when it is
    its turn. *)
Fixpoint concat_loop (max_length : option nat) (total_length : nat) (list_ : list (result js_error (list Z))) :
    result js_error (list Z) :=
  match list_ with
  | [] => Ok []
  | r :: rest =>
      let? bytes_ref := r in
      let len := length bytes_ref in
      if (len =? 0)%nat then concat_loop max_length total_length rest
      else
        match max_length with
        | Some max =>
            let total_length := (total_length + len)%nat in
            if (max <? total_length)%nat then Ok (take (max - (total_length - len)) bytes_ref)
            else let? bytes := concat_loop max_length total_length rest in Ok (bytes_ref ++ bytes)
        | None => let? bytes := concat_loop max_length total_length rest in Ok (bytes_ref ++ bytes)
        end
  end.

(** The elements: views, or the error of one that is no byte array. *)
Definition concat (m : gmap nat (list Z)) (list_ : list (result js_error view)) (max_length : option nat) :
    result js_error (view * gmap nat (list Z)) :=
  let? bytes := concat_loop max_length 0 ((fun r => let? v := r in as_bytes m v) <$> list_) in
  Ok (into_js m bytes).

Definition from_encoding (m : gmap nat (list Z)) (bytes : list Z) (encoding : option (list Z)) :
    result js_error (view * gmap nat (list Z)) :=
  match encoding with
  | Some e => let? enc := or_throw (from_str e) in let? b := or_throw (decode enc bytes) in Ok (into_js m b)
  | None => Ok (into_js m bytes)
  end.

Definition from_string_encoding (m : gmap nat (list Z)) (s : list Z) (encoding : option (list Z)) :
    result js_error (view * gmap nat (list Z)) :=
  match encoding with
  | Some e => let? enc := or_throw (from_str e) in let? b := or_throw (decode_from_string enc s) in Ok (into_js m b)
  | None => Ok (into_js m s)
  end.

(** The construction of a view checks that it lies in its buffer. *)
Definition from_array_buffer_offset_length (m : gmap nat (list Z)) (b offset len : nat) : result js_error view :=
  match m !! b with
  | Some raw => if (offset + len <=? length raw)%nat then Ok (mkView b offset len) else Err (RangeError "invalid view")
  | None => Err (TypeError "detached")
  end.

Definition from (m : gmap nat (list Z)) (v : value) (offset_or_encoding : option value) (len : option nat) :
    result js_error (view * gmap nat (list Z)) :=
  let encoding := match offset_or_encoding with Some (VStr s) => Some s | _ => None end in
  let? offset := (match offset_or_encoding with Some (VNum n) => as_offset n | _ => Ok 0%nat end) in
  match v with
  | VStr s => from_string_encoding m s encoding
  | VArr vals => let? bytes := get_array_bytes vals offset len in from_encoding m bytes encoding
  | VView w is_buffer =>
      let? bytes := as_bytes m w in
      let '(start, end_) := get_start_end_indexes (length bytes) len offset in
      if is_buffer || bool_decide (is_Some encoding) then from_encoding m bytes encoding
      else
        let? r := from_array_buffer_offset_length m (v_buffer w) (start + v_offset w) (end_ - start) in
        Ok (r, m)
  | VNum n => from_string_encoding m (num_to_string n) encoding
  | VOther (Some s) => from_string_encoding m s encoding
  | VOther None =>
      Err (ErrorMsg "value must be typed DataView, Buffer, ArrayBuffer, Uint8Array or interpretable as string")
  end.

Definition is_encoding (v : value) : bool :=
  match v with
  | VStr s => match from_str s with Ok _ => true | Err _ => false end
  | _ => false
  end.

(** ** Prototype methods *)

(** [target] is [None] when it is not a view. *)
Definition copy (m : gmap nat (list Z)) (this : view) (target : option view)
    (target_start source_start : nat) (source_end : option nat) :
    option (result js_error (nat * gmap nat (list Z))) :=
  let source_end := default (object_len m this) source_end in
  let@ source_bytes := Some (as_bytes m this) in
  if (length source_bytes <? source_start)%nat
  then Some (Err (RangeError "The value of sourceStart is out of range"))
  else
    let source_end := Nat.min source_end (length source_bytes) in
    if (source_end <=? source_start)%nat then Some (Ok (0%nat, m))
    else
      match target with
      | None => Some (Ok (0%nat, m))
      | Some t =>
          let@ target_bytes := Some (resolve_view_bytes m t) in
          if (target_start <=? length target_bytes)%nat then
            let copyable_length := Nat.min (source_end - source_start) (length target_bytes - target_start) in
            let! src := slice_range source_bytes source_start (source_start + copyable_length) in
            let! bytes := copy_into target_bytes target_start (target_start + copyable_length) src in
            Some (Ok (copyable_length, store m t bytes))
          else Some (Ok (0%nat, m))
      end.

(** An index given as an [isize], from the end when negative. *)
Definition clamp_index (len i : Z) : Z := if i <? 0 then Z.max (len + i) 0 else Z.min i len.

Definition subarray (m : gmap nat (list Z)) (this : view) (start end_ : option Z) : result js_error view :=
  let view_length := Z.of_nat (v_length this) in
  let start_index := match start with Some s => clamp_index view_length s | None => 0 end in
  let end_index := match end_ with Some e => clamp_index view_length e | None => view_length end in
  let len := Z.to_nat (Z.max (end_index - start_index) 0) in
  let new_offset := Z.to_nat (Z.max (Z.of_nat (v_offset this) + start_index) 0) in
  from_array_buffer_offset_length m (v_buffer this) new_offset len.

(** The bounds are [i32]s: negative ones count as 0.  A start above the end
    makes the slice panic. *)
Definition to_string (m : gmap nat (list Z)) (this : view) (encoding : option (list Z)) (start end_ : option Z) :
    option (result js_error (list Z)) :=
  let@ bytes := Some (as_bytes m this) in
  let bound i d := Nat.min (match i with Some z => Z.to_nat (Z.max z 0) | None => d end) (length bytes) in
  let! bytes := slice_range bytes (bound start 0%nat) (bound end_ (length bytes)) in
  Some (let? enc := or_throw (from_optional_str encoding) in or_throw (encode_to_string enc bytes true)).

(** [n as usize] of an [i32]. *)
Definition as_usize (z : Z) : nat := Z.to_nat (wrap 64 z).

Definition get_write_parameters (args : list value) (len : nat) : result js_error (nat * nat * list Z) :=
  let int_arg v := match v with VNum n => as_int n | _ => None end in
  match args with
  | VStr s :: _ => Ok (0%nat, len, s)
  | _ =>
      let? (offset, length_) :=
        (match args with
         | v1 :: _ =>
             let offset := as_usize (default 0 (int_arg v1)) in
             if (len <? offset)%nat then Err (RangeError "The value of offset is out of range")
             else Ok (offset, (len - offset)%nat)
         | [] => Ok (0%nat, len)
         end) in
      match args with
      | _ :: VStr s :: _ => Ok (offset, (len - offset)%nat, s)
      | _ =>
          let length_ :=
            match args with
            | _ :: v2 :: _ =>
                match int_arg v2 with
                | Some l => Nat.min (as_usize l) (len - offset)
                | None => (len - offset)%nat
                end
            | _ => length_
            end in
          let encoding := match args with _ :: _ :: VStr s :: _ => s | _ => str "utf8" end in
          Ok (offset, length_, encoding)
      end
  end.

(** [char_indices().map(|(i, _)| i)]: where the characters start. *)
Fixpoint char_starts (i : nat) (cs : list Z) : list nat :=
  match cs with
  | [] => []
  | c :: cs' => i :: char_starts (i + length (utf8_encode c)) cs'
  end.

Definition safe_byte_slice (s : list Z) (end_ : nat) : list Z * nat :=
  if (length s <=? end_)%nat then (s, length s)
  else
    let valid_end := default 0%nat (last (filter (fun i => (i <= end_)%nat) (char_starts 0 (chars s)))) in
    (take valid_end s, valid_end).

Definition write (m : gmap nat (list Z)) (this : view) (string : list Z) (args : list value) :
    option (result js_error (nat * gmap nat (list Z))) :=
  let@ (offset, length_, encoding) := Some (get_write_parameters args (object_len m this)) in
  let@ target_bytes := Some (resolve_view_bytes m this) in
  let@ encoder := Some (or_throw (from_str encoding)) in
  if bool_decide (as_label encoder = str "utf-8") then
    let '(source_slice, valid_length) := safe_byte_slice string (Nat.min length_ (length string)) in
    let! bytes := copy_into target_bytes offset (offset + valid_length) source_slice in
    Some (Ok (valid_length, store m this bytes))
  else
    let@ decode_bytes := Some (or_throw (decode_from_string encoder string)) in
    let writable_length := Nat.min length_ (length decode_bytes) in
    let! bytes := copy_into target_bytes offset (offset + writable_length) (take writable_length decode_bytes) in
    Some (Ok (writable_length, store m this bytes)).

(** ** Numbers *)

Inductive NumberKind :=
| Int8 | UInt8 | Int16 | UInt16 | Int32 | UInt32 | Float32 | Float64 | BigInt | BigUInt.

Definition bits (k : NumberKind) : Z :=
  match k with
  | Int8 | UInt8 => 8
  | Int16 | UInt16 => 16
  | Int32 | UInt32 | Float32 => 32
  | Float64 | BigInt | BigUInt => 64
  end.

Definition is_signed (k : NumberKind) : bool :=
  match k with
  | Int8 | Int16 | Int32 => true
  | _ => false
  end.

Definition byte_count (k : NumberKind) : nat := Z.to_nat (bits k / 8).

(** Bytes taken out of a [u64] at the given shifts, each cleared when taken. *)
Fixpoint take_bytes (shifts : list Z) (val : Z) : list Z :=
  match shifts with
  | [] => []
  | shift :: shifts' =>
      wrap 8 (Z.shiftr val shift)
      :: take_bytes shifts' (Z.land val (Z.lxor (wrap 64 (Z.shiftl 0xFF shift)) (2 ^ 64 - 1)))
  end.

Definition shifts (endian : Endian) (count : nat) : list Z :=
  (fun i => match endian with
            | Big => (Z.of_nat count - 1 - Z.of_nat i) * 8
            | Little => Z.of_nat i * 8
            end) <$> seq 0 count.

Definition endian_bytes (val : Z) (endian : Endian) : list Z := take_bytes (shifts endian 8) val.
Definition shifted_bytes (val : Z) (bits : Z) (endian : Endian) : list Z :=
  take_bytes (shifts endian (Z.to_nat (bits / 8))) val.

(** [to_le_bytes] and [to_be_bytes] of the standard library. *)
Fixpoint le_bytes (n : nat) (z : Z) : list Z :=
  match n with
  | O => []
  | S n' => z mod 256 :: le_bytes n' (z / 256)
  end.
Fixpoint from_le (bytes : list Z) : Z :=
  match bytes with
  | [] => 0
  | b :: bytes' => b + 256 * from_le bytes'
  end.
Definition to_bytes (endian : Endian) (n : nat) (z : Z) : list Z :=
  match endian with
  | Little => le_bytes n z
  | Big => rev (le_bytes n z)
  end.
Definition from_bytes (endian : Endian) (bytes : list Z) : Z :=
  match endian with
  | Little => from_le bytes
  | Big => from_le (rev bytes)
  end.

(** The signed reading of a [w]-bit number. *)
Definition signed (w z : Z) : Z := if z <? 2 ^ (w - 1) then z else z - 2 ^ w.

(** The argument of a write: a number, a BigInt with its conversion to [i64],
    or something else. *)
Inductive number_arg :=
| ANumber (n : num)
| ABigInt (i64 : result js_error Z)
| AOther.

Definition number_bytes (v : number_arg) (endian : Endian) (kind : NumberKind) : result js_error (list Z) :=
  match kind with
  | BigInt =>
      match v with
      | ABigInt r => let? z := r in Ok (endian_bytes (wrap 64 z) endian)
      | _ => Err (TypeError "Expected BigInt")
      end
  | BigUInt => Err (TypeError "Uint64 is not supported")
  | Float32 =>
      match v with
      | ANumber n => match as_float n with
                     | Some b => Ok (to_bytes endian 4 (f64_as_f32 b))
                     | None => Err (TypeError "Expected number")
                     end
      | _ => Err (TypeError "Expected number")
      end
  | Float64 =>
      match v with
      | ANumber n => match as_float n with
                     | Some b => Ok (to_bytes endian 8 b)
                     | None => Err (TypeError "Expected number")
                     end
      | _ => Err (TypeError "Expected number")
      end
  | Int8 | UInt8 | Int16 | UInt16 | Int32 | UInt32 =>
      match v with
      | ANumber n =>
          let int_val := as_i64 n in
          let bit_mask := 2 ^ bits kind - 1 in
          let max_val := if is_signed kind then 2 ^ (bits kind - 1) - 1 else bit_mask in
          let min_val := if is_signed kind then - max_val - 1 else 0 in
          if (int_val <? min_val) || (max_val <? int_val) then Err (RangeError "Value out of range")
          else Ok (shifted_bytes (Z.land int_val bit_mask) (bits kind) endian)
      | _ => Err (TypeError "Expected number")
      end
  end.

Definition write_buf (m : gmap nat (list Z)) (this : view) (v : number_arg) (offset : option nat)
    (endian : Endian) (kind : NumberKind) : option (result js_error (nat * gmap nat (list Z))) :=
  let offset := default 0%nat offset in
  let@ bytes := Some (number_bytes v endian kind) in
  if (object_len m this <=? offset)%nat || (object_len m this <? offset + byte_count kind)%nat
  then Some (Err (RangeError "The specified offset is out of range"))
  else
    let@ target_bytes := Some (resolve_view_bytes m this) in
    let writable_length := (offset + length bytes)%nat in
    let! bytes := copy_into target_bytes offset writable_length bytes in
    Some (Ok (writable_length, store m this bytes)).

(** What a read returns: an int, a float that holds an integer, a float by its
    bits, a BigInt. *)
Inductive number_value := RInt (z : Z) | RFloatOf (z : Z) | RFloat (bits : Z) | RBigInt (z : Z).

Definition read_buf (m : gmap nat (list Z)) (this : view) (offset : option nat) (endian : Endian)
    (kind : NumberKind) : option (result js_error number_value) :=
  let@ target_bytes := Some (resolve_view_bytes m this) in
  let start := default 0%nat offset in
  let end_ := (start + byte_count kind)%nat in
  if (length target_bytes <? end_)%nat
  then Some (Err (RangeError "The value of offset is out of range"))
  else
    let! bytes := slice_range target_bytes start end_ in
    let z := from_bytes endian bytes in
    Some (match kind with
          | BigInt => Ok (RBigInt (signed 64 z))
          | BigUInt => Err (TypeError "Uint64 is not supported")
          | Float32 => Ok (RFloat (f32_as_f64 z))
          | Float64 => Ok (RFloat z)
          | Int8 | Int16 | Int32 => Ok (RInt (signed (bits kind) z))
          | UInt8 | UInt16 => Ok (RInt z)
          | UInt32 => Ok (RFloatOf z)
          end).
End Buffer.

(** ** Bytes of a number *)

Lemma wrap_testbit w z n : 0 <= w -> 0 <= n -> Z.testbit (wrap w z) n = (n <? w) && Z.testbit z n.
Proof.
  intros Hw Hn. unfold wrap. destruct (Z.ltb_spec n w).
  - by rewrite Z.mod_pow2_bits_low by lia.
  - by rewrite Z.mod_pow2_bits_high by lia.
Qed.

Lemma high_bits val n : 0 <= val < 2 ^ 64 -> 64 <= n -> Z.testbit val n = false.
Proof.
  intros Hv Hn. destruct (Z.eq_dec val 0) as [->|]; [apply Z.testbit_0_l|].
  apply Z.bits_above_log2; [lia|]. apply Z.log2_lt_pow2; [lia|].
  apply Z.lt_le_trans with (2 ^ 64); [lia|]. apply Z.pow_le_mono_r; lia.
Qed.

(** Clearing one byte leaves the others. *)
Lemma cleared_byte val s s' :
  0 <= val < 2 ^ 64 -> 0 <= s -> 0 <= s' -> (s + 8 <= s' \/ s' + 8 <= s) ->
  wrap 8 (Z.shiftr (Z.land val (Z.lxor (wrap 64 (Z.shiftl 0xFF s)) (2 ^ 64 - 1))) s') = wrap 8 (Z.shiftr val s').
Proof.
  intros Hv Hs Hs' Hd. apply Z.bits_inj'. intros n Hn. rewrite !wrap_testbit, !Z.shiftr_spec by lia.
  destruct (Z.ltb_spec n 8); [|done]. cbn [andb]. rewrite Z.land_spec, Z.lxor_spec, wrap_testbit by lia.
  change (2 ^ 64 - 1) with (Z.ones 64). rewrite Z.testbit_ones by lia.
  rewrite Z.shiftl_spec by lia. change 0xFF with (Z.ones 8).
  assert (Hb : Z.testbit (Z.ones 8) (n + s' - s) = false).
  { destruct Hd; [rewrite Z.testbit_ones by lia|rewrite Z.testbit_neg_r by lia; done].
    rewrite (proj2 (Z.ltb_ge (n + s' - s) 8)) by lia. apply andb_false_r. }
  rewrite Hb, andb_false_r. cbn [xorb].
  rewrite (proj2 (Z.leb_le 0 (n + s'))) by lia. cbn [andb].
  destruct (Z.ltb_spec (n + s') 64); [by rewrite andb_true_r|]. rewrite andb_false_r. symmetry.
  apply high_bits; lia.
Qed.

Lemma clear_bound val mask : 0 <= val < 2 ^ 64 -> 0 <= Z.land val mask < 2 ^ 64.
Proof.
  intros Hv. assert (E : Z.land val mask = wrap 64 (Z.land val mask)).
  { apply Z.bits_inj'. intros n Hn. rewrite wrap_testbit, Z.land_spec by lia.
    destruct (Z.ltb_spec n 64); [done|]. by rewrite high_bits by lia. }
  rewrite E. apply Z.mod_pos_bound. lia.
Qed.

(** Shifts that do not overlap take the bytes of the number itself. *)
Lemma take_bytes_disjoint l : forall val,
  0 <= val < 2 ^ 64 -> Forall (fun s => 0 <= s) l ->
  StronglySorted (fun s s' => s + 8 <= s' \/ s' + 8 <= s) l ->
  take_bytes l val = (fun s => wrap 8 (Z.shiftr val s)) <$> l.
Proof.
  induction l as [|s l IH]; intros val Hv Hp Hs; [done|]. cbn [take_bytes]. rewrite fmap_cons. f_equal.
  apply Forall_cons in Hp as [Hs0 Hp]. apply StronglySorted_inv in Hs as [Hs Hf].
  rewrite IH by (try done; by apply clear_bound).
  apply list_fmap_ext. intros i s' Hi. apply list_elem_of_lookup_2 in Hi.
  rewrite Forall_forall in Hp, Hf. apply cleared_byte; auto.
Qed.

Lemma le_bytes_shifts n : forall k z,
  (fun i => wrap 8 (Z.shiftr z (Z.of_nat i * 8))) <$> seq k n = le_bytes n (Z.shiftr z (Z.of_nat k * 8)).
Proof.
  induction n as [|n IH]; intros k z; [done|]. cbn [seq le_bytes]. rewrite fmap_cons, IH. f_equal. f_equal.
  change 256 with (2 ^ 8). rewrite <- Z.shiftr_div_pow2, Z.shiftr_shiftr by lia. f_equal. lia.
Qed.

Lemma seq_sorted n : forall k, StronglySorted (fun i j => (i < j)%nat) (seq k n).
Proof.
  induction n as [|n IH]; intros k; cbn [seq]; constructor; [done|].
  apply Forall_forall. intros j Hj. apply elem_of_seq in Hj. lia.
Qed.

Lemma StronglySorted_fmap {A B} (R : B -> B -> Prop) (f : A -> B) l :
  StronglySorted (fun x y => R (f x) (f y)) l -> StronglySorted R (f <$> l).
Proof.
  induction 1 as [|x l Hs IH Hf]; [constructor|]. rewrite fmap_cons. constructor; [done|]. by apply Forall_fmap.
Qed.

Lemma StronglySorted_impl {A} (R R' : A -> A -> Prop) l :
  (forall x y, x ∈ l -> y ∈ l -> R x y -> R' x y) -> StronglySorted R l -> StronglySorted R' l.
Proof.
  intros H. induction 1 as [|x l Hs IH Hf]; constructor.
  - apply IH. intros y z ??. apply H; by right.
  - apply Forall_forall. intros y Hy. rewrite Forall_forall in Hf. apply H; [by left|by right|auto].
Qed.

Lemma rev_seq {A} (f : nat -> A) n : rev (f <$> seq 0 n) = (fun i => f (n - 1 - i)%nat) <$> seq 0 n.
Proof.
  induction n as [|n IH]; [done|]. rewrite seq_S at 1. rewrite fmap_app, rev_app_distr, IH. cbn [rev fmap list_fmap app].
  cbn [seq]. rewrite fmap_cons. f_equal; [f_equal; lia|]. rewrite <- seq_shift.
  change (map S (seq 0 n)) with (S <$> seq 0 n). rewrite <- list_fmap_compose.
  apply list_fmap_ext. intros i x Hi. unfold compose. f_equal. lia.
Qed.

(** The loop gives the bytes of the standard library's [to_le_bytes] and
    [to_be_bytes]. *)
Lemma take_bytes_to_bytes endian n z :
  0 <= z < 2 ^ 64 -> take_bytes (shifts endian n) z = to_bytes endian n z.
Proof.
  intros Hz. unfold shifts. rewrite take_bytes_disjoint; [|done| |].
  - rewrite <- list_fmap_compose. destruct endian; cbn [to_bytes].
    + pose proof (le_bytes_shifts n 0 z) as H. rewrite Z.shiftr_0_r in H. exact H.
    + pose proof (le_bytes_shifts n 0 z) as H. rewrite Z.shiftr_0_r in H. rewrite <- H.
      rewrite rev_seq. apply list_fmap_ext. intros i x Hi. apply list_elem_of_lookup_2, elem_of_seq in Hi.
      unfold compose. do 2 f_equal. lia.
  - apply Forall_fmap, Forall_forall. intros i Hi. apply elem_of_seq in Hi. unfold compose.
    destruct endian; lia.
  - apply StronglySorted_fmap. eapply StronglySorted_impl; [|apply seq_sorted].
    intros i j Hi Hj. rewrite elem_of_seq in Hi, Hj. destruct endian; lia.
Qed.

Lemma from_le_bytes n : forall z, from_le (le_bytes n z) = z mod 2 ^ (8 * Z.of_nat n).
Proof.
  induction n as [|n IH]; intros z; [by rewrite Z.mod_1_r|]. cbn [le_bytes from_le]. rewrite IH.
  replace (8 * Z.of_nat (S n)) with (8 + 8 * Z.of_nat n) by lia. rewrite Z.pow_add_r by lia.
  change (2 ^ 8) with 256. rewrite Z.rem_mul_r by (try apply Z.pow_nonzero; lia). lia.
Qed.

Lemma from_to_bytes endian n z : from_bytes endian (to_bytes endian n z) = z mod 2 ^ (8 * Z.of_nat n).
Proof. destruct endian; cbn [from_bytes to_bytes]; rewrite ?rev_involutive; apply from_le_bytes. Qed.

Lemma length_le_bytes n : forall z, length (le_bytes n z) = n.
Proof. induction n; intros z; simpl; auto. Qed.

Lemma length_to_bytes endian n z : length (to_bytes endian n z) = n.
Proof. destruct endian; cbn [to_bytes]; rewrite ?length_rev; apply length_le_bytes. Qed.

Lemma signed_mod w z : 0 < w -> - 2 ^ (w - 1) <= z < 2 ^ (w - 1) -> signed w (z mod 2 ^ w) = z.
Proof.
  intros Hw Hz. assert (E : 2 ^ w = 2 * 2 ^ (w - 1)) by (rewrite <- Z.pow_succ_r by lia; f_equal; lia).
  unfold signed. destruct (Z.ltb_spec z 0).
  - rewrite <- (Z.mod_unique_pos z (2 ^ w) (-1) (z + 2 ^ w)) by lia.
    rewrite (proj2 (Z.ltb_ge _ _)) by lia. lia.
  - rewrite Z.mod_small by lia. by rewrite (proj2 (Z.ltb_lt _ _)) by lia.
Qed.

(** ** Views *)

Definition attached (m : gmap nat (list Z)) (v : view) : Prop :=
  exists raw, m !! v_buffer v = Some raw /\ (v_offset v + v_length v <= length raw)%nat.

(** A byte of an array buffer. *)
Definition byte_at (m : gmap nat (list Z)) (b i : nat) : option Z := raw ← m !! b; raw !! i.

Definition inside (v : view) (b i : nat) : Prop :=
  b = v_buffer v /\ (v_offset v <= i < v_offset v + v_length v)%nat.

(** The two memories have the same array buffers of the same sizes and differ
    only inside the view. *)
Definition only_inside (v : view) (m m' : gmap nat (list Z)) : Prop :=
  (forall b, length <$> m !! b = length <$> m' !! b) /\
  (forall b i, ~ inside v b i -> byte_at m' b i = byte_at m b i).

Lemma only_inside_refl v m : only_inside v m m.
Proof. by split. Qed.

Lemma length_put bytes a src :
  (a + length src <= length bytes)%nat -> length (put bytes a src) = length bytes.
Proof. intros H. unfold put. rewrite !length_app, length_take, length_drop. lia. Qed.

Lemma take_drop_put bytes a src n :
  (a + length src <= length bytes)%nat -> length src = n -> take n (drop a (put bytes a src)) = src.
Proof.
  intros H Hn. unfold put. rewrite drop_app_length' by (rewrite length_take; lia).
  by rewrite take_app_length'.
Qed.

Lemma lookup_put_outside bytes a src i :
  (a + length src <= length bytes)%nat -> (i < a \/ a + length src <= i)%nat ->
  put bytes a src !! i = bytes !! i.
Proof.
  intros H Hi. unfold put. destruct (decide (i < a)%nat).
  - rewrite lookup_app_l by (rewrite length_take; lia). by rewrite lookup_take_lt.
  - rewrite lookup_app_r, length_take by (rewrite length_take; lia).
    rewrite lookup_app_r by lia. rewrite lookup_drop. f_equal. lia.
Qed.

Lemma resolve_attached m v raw :
  m !! v_buffer v = Some raw -> (v_offset v + v_length v <= length raw)%nat ->
  resolve_view_bytes m v = Ok (take (v_length v) (drop (v_offset v) raw)).
Proof.
  intros Hm Hl. unfold resolve_view_bytes. rewrite Hm.
  rewrite (proj2 (Nat.ltb_ge _ _)), (proj2 (Nat.ltb_ge _ _)) by lia. done.
Qed.

Lemma resolve_ok m v : attached m v ->
  exists bytes, resolve_view_bytes m v = Ok bytes /\ length bytes = v_length v.
Proof.
  intros (raw & Hm & Hl). eexists. split; [by apply resolve_attached|].
  rewrite length_take, length_drop. lia.
Qed.

Lemma store_resolve m v bytes :
  attached m v -> length bytes = v_length v ->
  resolve_view_bytes (store m v bytes) v = Ok bytes /\ attached (store m v bytes) v
  /\ only_inside v m (store m v bytes).
Proof.
  intros (raw & Hm & Hl) Hb. unfold store. rewrite Hm.
  assert (Hlen : length (put raw (v_offset v) bytes) = length raw) by (apply length_put; lia).
  split_and!.
  - rewrite (resolve_attached _ _ (put raw (v_offset v) bytes)) by (rewrite ?lookup_insert_eq, ?Hlen; done).
    by rewrite take_drop_put by lia.
  - exists (put raw (v_offset v) bytes). by rewrite lookup_insert_eq, Hlen.
  - split.
    + intros b. destruct (decide (b = v_buffer v)) as [->|]; [|by rewrite lookup_insert_ne].
      rewrite lookup_insert_eq, Hm. simpl. by rewrite Hlen.
    + intros b i Hi. unfold byte_at. destruct (decide (b = v_buffer v)) as [->|]; [|by rewrite lookup_insert_ne].
      rewrite lookup_insert_eq, Hm. simpl. apply lookup_put_outside; [lia|].
      unfold inside in Hi. destruct (decide (i < v_offset v)%nat); [by left|right].
      destruct (decide (v_offset v + length bytes <= i)%nat); [done|]. destruct Hi. split; [done|lia].
Qed.

Lemma copy_into_ok bytes a src :
  (a + length src <= length bytes)%nat -> copy_into bytes a (a + length src) src = Some (put bytes a src).
Proof.
  intros H. unfold copy_into. rewrite (proj2 (Nat.leb_le _ _)), (proj2 (Nat.leb_le _ _)) by lia.
  rewrite (proj2 (Nat.eqb_eq _ _)) by lia. done.
Qed.

(** A write of [src] at [a] into an attached view: the store that the write
    methods end with. *)
Lemma write_view m v a src bytes :
  attached m v -> resolve_view_bytes m v = Ok bytes -> (a + length src <= v_length v)%nat ->
  copy_into bytes a (a + length src) src = Some (put bytes a src)
  /\ resolve_view_bytes (store m v (put bytes a src)) v = Ok (put bytes a src)
  /\ attached (store m v (put bytes a src)) v
  /\ only_inside v m (store m v (put bytes a src)).
Proof.
  intros Ha Hr Hl. destruct (resolve_ok m v Ha) as (bytes' & Hr' & Hlen). rewrite Hr in Hr'.
  injection Hr' as <-. split; [apply copy_into_ok; lia|]. apply store_resolve; [done|].
  rewrite length_put; lia.
Qed.

Lemma object_len_attached m v : attached m v -> object_len m v = (v_length v + v_extra v)%nat.
Proof. intros H. unfold object_len. by destruct (resolve_ok m v H) as (bytes & -> & ->). Qed.

Lemma as_bytes_attached m v : attached m v -> as_bytes m v = resolve_view_bytes m v.
Proof. intros H. unfold as_bytes. by destruct (resolve_ok m v H) as (bytes & -> & _). Qed.

(** ** Cutting text at a character *)

Lemma char_starts_spec cs : forall k,
  char_starts k cs = (fun i => (k + length (encode_all (take i cs)))%nat) <$> seq 0 (length cs).
Proof.
  induction cs as [|c cs IH]; intros k; [done|]. cbn [char_starts length seq]. rewrite fmap_cons.
  f_equal; [simpl; lia|]. rewrite IH, <- seq_shift.
  change (map S (seq 0 (length cs))) with (S <$> seq 0 (length cs)). rewrite <- list_fmap_compose.
  apply list_fmap_ext. intros i x _. unfold compose. cbn [take].
  change (encode_all (c :: take x cs)) with (utf8_encode c ++ encode_all (take x cs)). rewrite length_app. lia.
Qed.

Lemma last_sorted (l : list nat) v x :
  StronglySorted (fun i j => (i <= j)%nat) l -> last l = Some v -> x ∈ l -> (x <= v)%nat.
Proof.
  intros Hs. induction Hs as [|y l Hs IH Hf]; intros Hl Hx; [done|]. rewrite last_cons in Hl.
  destruct (last l) as [w|] eqn:E; injection Hl as <-.
  - apply elem_of_cons in Hx as [->|Hx]; [|by apply IH]. rewrite Forall_forall in Hf. apply Hf.
    by apply last_Some_elem_of.
  - apply last_None in E. subst l. by apply list_elem_of_singleton in Hx as ->.
Qed.

Lemma StronglySorted_filter {A} (R : A -> A -> Prop) (P : A -> Prop) `{forall x, Decision (P x)} l :
  StronglySorted R l -> StronglySorted R (filter P l).
Proof.
  induction 1 as [|x l Hs IH Hf]; [constructor|]. rewrite filter_cons. destruct (decide (P x)); [|done].
  constructor; [done|]. apply (Forall_incl _ _ _ Hf). intros y. by rewrite list_elem_of_filter; intros [_ ?].
Qed.

Lemma encode_take_le cs i j : (i <= j)%nat -> (length (encode_all (take i cs)) <= length (encode_all (take j cs)))%nat.
Proof.
  intros H. replace j with (i + (j - i))%nat by lia. rewrite <- take_take_drop, encode_all_app, length_app. lia.
Qed.

Lemma boundary_text cs i :
  Forall scalar cs ->
  take (length (encode_all (take i cs))) (encode_all cs) = encode_all (take i cs) /\ text (encode_all (take i cs)).
Proof.
  intros Hcs. split.
  - rewrite <- (take_drop i cs) at 2. by rewrite encode_all_app, take_app_length.
  - exists (take i cs). split; [by apply Forall_take|done].
Qed.

Lemma safe_byte_slice_spec cs e :
  Forall scalar cs ->
  let s := encode_all cs in
  exists n, safe_byte_slice s e = (take n s, n) /\ (n <= length s)%nat /\ (n <= e)%nat /\ text (take n s)
    /\ (forall i, (length (encode_all (take i cs)) <= e)%nat -> (length (encode_all (take i cs)) <= n)%nat).
Proof.
  intros Hcs s. unfold safe_byte_slice. destruct (Nat.leb_spec (length s) e) as [Hle|Hgt].
  - exists (length s). rewrite take_ge by lia. split_and!; try done; [by exists cs|].
    intros i _. etrans; [apply (encode_take_le cs i (i + length cs)); lia|]. by rewrite take_ge by lia.
  - replace (chars s) with cs by (unfold s; by rewrite chars_encode_all). rewrite char_starts_spec.
    set (L := (fun i => _) <$> seq 0 (length cs)). set (F := filter _ L).
    assert (HL : forall x, x ∈ L <-> exists i, (i < length cs)%nat /\ x = length (encode_all (take i cs))).
    { intros x. unfold L. rewrite list_elem_of_fmap. split.
      - intros (i & -> & Hi). apply elem_of_seq in Hi. exists i. split; [lia|done].
      - intros (i & Hi & ->). exists i. split; [done|]. apply elem_of_seq. lia. }
    assert (Hs : StronglySorted (fun i j => (i <= j)%nat) F).
    { apply StronglySorted_filter, StronglySorted_fmap. eapply StronglySorted_impl; [|apply seq_sorted].
      intros i j _ _ Hij. simpl in Hij |- *. apply encode_take_le. lia. }
    assert (Hne : cs <> []) by (intros ->; simpl in Hgt; lia).
    assert (H0 : 0%nat ∈ F).
    { apply list_elem_of_filter. split; [lia|]. apply HL. exists 0%nat. split; [|done]. destruct cs; simpl; [done|lia]. }
    destruct (last F) as [v|] eqn:Ev; [|apply last_None in Ev; rewrite Ev in H0; by apply elem_of_nil in H0].
    pose proof (last_Some_elem_of _ _ Ev) as Hv. apply list_elem_of_filter in Hv as [Hve Hv].
    apply HL in Hv as (i & Hi & Hvi). cbn [default id]. exists v.
    destruct (boundary_text cs i Hcs) as [Ht Htx]. fold s in Ht. rewrite Hvi, Ht. split_and!; try done; try lia.
    intros j Hj. rewrite <- Hvi. apply (last_sorted F v); [done|done|]. apply list_elem_of_filter. split; [done|].
    apply HL. exists j. split; [|done]. destruct (decide (j < length cs)%nat) as [|Hn]; [done|].
    rewrite take_ge in Hj by lia. unfold s in Hgt. lia.
Qed.

(** ** Properties *)

Lemma utf8_encoder : from_str (str "utf8") = Ok Utf8.
Proof. vm_compute. reflexivity. Qed.

Section Properties.
Context `{Codecs} {num : Type}.
Context (as_int as_float : num -> option Z) (as_i64 : num -> Z).
Context (f64_as_f32 f32_as_f64 : Z -> Z).

(** [v] is an argument for [kind] with the value [z]: an integer in range, or
    the bits of a double. *)
Definition holds (v : number_arg) (kind : NumberKind) (z : Z) : Prop :=
  match kind with
  | Int8 | Int16 | Int32 =>
      - 2 ^ (bits kind - 1) <= z < 2 ^ (bits kind - 1) /\ exists n, v = ANumber n /\ as_i64 n = z
  | UInt8 | UInt16 | UInt32 => 0 <= z < 2 ^ bits kind /\ exists n, v = ANumber n /\ as_i64 n = z
  | Float64 => 0 <= z < 2 ^ 64 /\ exists n, v = ANumber n /\ as_float n = Some z
  | BigInt => - 2 ^ 63 <= z < 2 ^ 63 /\ v = ABigInt (Ok z)
  | Float32 | BigUInt => False
  end.

Definition read_value (kind : NumberKind) (z : Z) : number_value :=
  match kind with
  | UInt32 => RFloatOf z
  | BigInt => RBigInt z
  | Float64 => RFloat z
  | _ => RInt z
  end.

Lemma shifted_masked endian kind z :
  bits kind = 8 \/ bits kind = 16 \/ bits kind = 32 ->
  shifted_bytes (Z.land z (2 ^ bits kind - 1)) (bits kind) endian
  = to_bytes endian (byte_count kind) (z mod 2 ^ bits kind).
Proof.
  intros Hb. unfold shifted_bytes.
  assert (E : Z.land z (2 ^ bits kind - 1) = z mod 2 ^ bits kind).
  { rewrite <- Z.land_ones by lia. by rewrite Z.ones_equiv, Z.sub_1_r. }
  rewrite E. apply take_bytes_to_bytes.
  destruct Hb as [-> | [-> | ->]]; (split; [apply Z.mod_pos_bound; lia|];
    etrans; [apply Z.mod_pos_bound; lia|lia]).
Qed.

(** The bytes of an integer in range are those of its residue. *)
Lemma int_bytes n endian kind z :
  bits kind = 8 \/ bits kind = 16 \/ bits kind = 32 ->
  match kind with Float32 => False | _ => True end -> as_i64 n = z ->
  (if is_signed kind then - 2 ^ (bits kind - 1) <= z < 2 ^ (bits kind - 1) else 0 <= z < 2 ^ bits kind) ->
  number_bytes as_float as_i64 f64_as_f32 (ANumber n) endian kind
  = Ok (to_bytes endian (byte_count kind) (z mod 2 ^ bits kind)).
Proof.
  intros Hb Hk <- Hz. rewrite <- shifted_masked by done. unfold number_bytes.
  destruct kind; cbn [is_signed bits] in *; try done; try lia; cbv zeta;
    (match goal with |- context [if ?b then _ else _] => destruct b eqn:E end; [|reflexivity];
     apply orb_true_iff in E as [E|E]; apply Z.ltb_lt in E; lia).
Qed.

Lemma number_bytes_ok v endian kind z :
  holds v kind z ->
  exists bytes, number_bytes as_float as_i64 f64_as_f32 v endian kind = Ok bytes /\
    length bytes = byte_count kind /\
    forall m this offset raw, resolve_view_bytes m this = Ok raw ->
      slice_range raw (default 0%nat offset) (default 0 offset + byte_count kind)%nat = Some bytes ->
      (default 0 offset + byte_count kind <= length raw)%nat ->
      read_buf f32_as_f64 m this offset endian kind = Some (Ok (read_value kind z)).
Proof.
  intros Hh.
  assert (Hint : forall w, bits kind = w -> 0 <= w ->
    from_bytes endian (to_bytes endian (byte_count kind) (z mod 2 ^ w)) = z mod 2 ^ w).
  { intros w <- _. rewrite from_to_bytes.
    assert (8 * Z.of_nat (byte_count kind) = bits kind) as -> by (by destruct kind). by rewrite Z.mod_mod by (apply Z.pow_nonzero; destruct kind; simpl; lia). }
  destruct kind; cbn [holds bits] in Hh; try done.
  1-6: destruct Hh as [Hz (n & -> & Hn)];
    eexists; split; [apply int_bytes with (z := z); [simpl; lia|done|done|exact Hz]|];
    split; [apply length_to_bytes|];
    intros m this offset raw Hr Hs Hl; unfold read_buf; rewrite Hr; cbn [fbind];
    rewrite (proj2 (Nat.ltb_ge _ _)) by lia; rewrite Hs, (Hint _ eq_refl) by (simpl; lia);
    cbn [bits read_value]; rewrite ?signed_mod by lia; rewrite ?Z.mod_small by lia; done.
  - destruct Hh as [Hz (n & -> & Hn)]. exists (to_bytes endian 8 z). cbn [number_bytes]. rewrite Hn.
    split; [done|]. split; [apply length_to_bytes|].
    intros m this offset raw Hr Hs Hl. unfold read_buf. rewrite Hr. cbn [fbind].
    rewrite (proj2 (Nat.ltb_ge _ _)) by lia. rewrite Hs, from_to_bytes, Z.mod_small by (simpl; lia). done.
  - destruct Hh as [Hz ->]. exists (to_bytes endian 8 (wrap 64 z)). cbn [number_bytes result_bind].
    unfold endian_bytes. rewrite take_bytes_to_bytes by (apply Z.mod_pos_bound; lia).
    split; [done|]. split; [apply length_to_bytes|].
    intros m this offset raw Hr Hs Hl. unfold read_buf. rewrite Hr. cbn [fbind].
    rewrite (proj2 (Nat.ltb_ge _ _)) by lia. rewrite Hs, from_to_bytes.
    change (8 * Z.of_nat 8) with 64. unfold wrap. rewrite Z.mod_mod, signed_mod by lia. done.
Qed.

Lemma slice_put raw a src :
  (a + length src <= length raw)%nat -> slice_range (put raw a src) a (a + length src) = Some src.
Proof.
  intros Hl. unfold slice_range. rewrite length_put by done.
  rewrite (proj2 (Nat.leb_le _ _)), (proj2 (Nat.leb_le _ _)) by lia. cbn [andb]. f_equal.
  apply take_drop_put; lia.
Qed.

(** A number written into a buffer and read back with the same kind, byte
    order and offset is the number that was written, for every integer kind,
    for BigInt and for double. *)
Theorem buffer_number_roundtrip m this v offset endian kind z :
  attached m this -> holds v kind z -> (default 0 offset + byte_count kind <= v_length this)%nat ->
  exists m', write_buf as_float as_i64 f64_as_f32 m this v offset endian kind
             = Some (Ok ((default 0 offset + byte_count kind)%nat, m'))
    /\ read_buf f32_as_f64 m' this offset endian kind = Some (Ok (read_value kind z)).
Proof.
  intros Ha Hh Hl. destruct (number_bytes_ok v endian kind z Hh) as (src & Hb & Hlen & Hread).
  assert (Hpos : (0 < byte_count kind)%nat) by (by destruct kind; vm_compute; lia).
  destruct (resolve_ok m this Ha) as (raw & Hr & Hrl). set (a := default 0%nat offset) in *.
  rewrite <- Hlen in Hl. destruct (write_view m this a src raw Ha Hr Hl) as (Hc & Hr' & _ & _).
  exists (store m this (put raw a src)). split.
  - unfold write_buf. fold a. rewrite Hb. cbn [fbind]. rewrite object_len_attached by done.
    rewrite (proj2 (Nat.leb_gt _ _)), (proj2 (Nat.ltb_ge _ _)) by lia. cbn [orb].
    rewrite Hr. cbn [fbind]. rewrite Hc. by rewrite Hlen.
  - apply (Hread _ _ offset _ Hr'); fold a; rewrite <- Hlen; [apply slice_put; lia|rewrite length_put; lia].
Qed.

Lemma write_parameters_bounds args len offset length_ enc :
  get_write_parameters as_int args len = Ok (offset, length_, enc) -> (offset + length_ <= len)%nat.
Proof.
  unfold get_write_parameters. intros E.
  destruct args as [|a1 args]; [by injection E as <- <- <-|].
  destruct a1; try (injection E as <- <- <-; lia); revert E;
    match goal with |- context [(len <? ?o)%nat] => generalize o end; intros o E;
    destruct (Nat.ltb_spec len o); try done; cbn [result_bind] in E; repeat case_match; simplify_eq; lia.
Qed.

(** The operation does not panic unless there are [extra] properties and, when
    it returns, has changed nothing outside the view. *)
Definition writes_in (v : view) (extra : nat) (m : gmap nat (list Z))
    (o : option (result js_error (nat * gmap nat (list Z)))) : Prop :=
  (extra = 0%nat -> o <> None) /\
  forall n m', o = Some (Ok (n, m')) -> only_inside v m m' /\ attached m' v /\ (n <= v_length v)%nat.

Lemma writes_err v extra m e : writes_in v extra m (Some (Err e)).
Proof. split; done. Qed.

Lemma writes_none v extra m n : attached m v -> (n <= v_length v)%nat -> writes_in v extra m (Some (Ok (n, m))).
Proof. intros Ha Hn. split; [done|]. intros ? ? [= <- <-]. by split; [apply only_inside_refl|]. Qed.

Lemma copy_into_fits bytes a b src out : copy_into bytes a b src = Some out -> (a + length src <= length bytes)%nat.
Proof.
  unfold copy_into. destruct (_ && _ && _) eqn:E; [|done]. intros _.
  apply andb_prop in E as [E Hl]. apply andb_prop in E as [Hab Hb]. apply Nat.leb_le in Hab, Hb. apply Nat.eqb_eq in Hl. lia.
Qed.

(** The last step of every write: the slice panics or the bytes fit. *)
Lemma writes_copy v extra m raw a src n :
  attached m v -> resolve_view_bytes m v = Ok raw -> (extra = 0 -> a + length src <= v_length v)%nat -> (n <= a + length src)%nat ->
  writes_in v extra m (let! bytes := copy_into raw a (a + length src) src in Some (Ok (n, store m v bytes))).
Proof.
  intros Ha Hr Hl Hn. destruct (resolve_ok m v Ha) as (raw' & Hr' & Hrl). rewrite Hr in Hr'. injection Hr' as <-.
  destruct (copy_into raw a (a + length src) src) as [out|] eqn:E.
  - apply copy_into_fits in E as Hf. rewrite Hrl in Hf. destruct (write_view m v a src raw Ha Hr Hf) as (Hc & _ & Ha' & Hi).
    rewrite Hc in E. injection E as <-. split; [done|]. intros ? ? [= <- <-]. split_and!; [done..|lia].
  - split; [|done]. intros He. specialize (Hl He). destruct (write_view m v a src raw Ha Hr Hl) as (Hc & _). congruence.
Qed.

Lemma number_bytes_length v endian kind bytes :
  number_bytes as_float as_i64 f64_as_f32 v endian kind = Ok bytes -> length bytes = byte_count kind.
Proof.
  assert (Hs : forall l z, length (take_bytes l z) = length l) by (induction l; intros; simpl; auto).
  assert (Hsh : forall n, length (shifts endian n) = n) by (intros n; unfold shifts; by rewrite length_fmap, length_seq).
  unfold number_bytes, shifted_bytes, endian_bytes. intros E.
  destruct kind; destruct v as [n|[z|]|]; cbn [result_bind] in E; repeat case_match; simplify_eq;
    rewrite ?Hs, ?Hsh, ?length_to_bytes; done.
Qed.

Lemma write_in m this s args : attached m this -> text s -> writes_in this (v_extra this) m (write as_int m this s args).
Proof.
  intros Ha (cs & Hcs & ->). unfold write. rewrite object_len_attached by done.
  destruct (get_write_parameters as_int args (v_length this + v_extra this)) as [[[offset len] enc]|e] eqn:E;
    [|apply writes_err].
  apply write_parameters_bounds in E. cbn [fbind].
  destruct (resolve_ok m this Ha) as (raw & Hr & Hrl). rewrite Hr. cbn [fbind].
  destruct (or_throw (from_str enc)) as [e|e]; [|apply writes_err]. cbn [fbind].
  destruct (bool_decide (as_label e = str "utf-8")).
  - destruct (safe_byte_slice_spec cs (Nat.min len (length (encode_all cs))) Hcs) as (n & -> & H1 & H2 & _).
    assert (Hn : length (take n (encode_all cs)) = n) by (rewrite length_take; lia).
    pose proof (writes_copy this (v_extra this) m raw offset (take n (encode_all cs)) n Ha Hr) as Hw.
    rewrite Hn in Hw. apply Hw; lia.
  - destruct (or_throw (decode_from_string e (encode_all cs))) as [d|d]; [|apply writes_err]. cbn [fbind].
    set (k := Nat.min len (length d)).
    assert (Hn : length (take k d) = k) by (rewrite length_take; lia).
    pose proof (writes_copy this (v_extra this) m raw offset (take k d) k Ha Hr) as Hw. rewrite Hn in Hw. apply Hw; lia.
Qed.

Lemma write_buf_in m this v offset endian kind :
  attached m this -> writes_in this (v_extra this) m (write_buf as_float as_i64 f64_as_f32 m this v offset endian kind).
Proof.
  intros Ha. unfold write_buf.
  destruct (number_bytes as_float as_i64 f64_as_f32 v endian kind) as [src|e] eqn:E; [|apply writes_err].
  cbn [fbind]. apply number_bytes_length in E. rewrite object_len_attached by done.
  destruct ((_ <=? _)%nat || _) eqn:Hb; [apply writes_err|].
  apply orb_false_iff in Hb as [_ Hb]. apply Nat.ltb_ge in Hb.
  destruct (resolve_ok m this Ha) as (raw & Hr & Hrl). rewrite Hr. cbn [fbind].
  apply writes_copy; try done; lia.
Qed.

Lemma copy_in m this target ts ss se :
  attached m this -> attached m target -> writes_in target 0 m (copy m this (Some target) ts ss se).
Proof.
  intros Ha Ht. unfold copy. rewrite as_bytes_attached by done.
  destruct (resolve_ok m this Ha) as (raw & Hr & Hrl). rewrite Hr. cbn [fbind].
  destruct (Nat.ltb_spec (length raw) ss); [apply writes_err|].
  set (e := Nat.min _ (length raw)). destruct (Nat.leb_spec e ss); [by apply writes_none; [|lia]|].
  destruct (resolve_ok m target Ht) as (traw & Htr & Htl). rewrite Htr. cbn [fbind].
  destruct (Nat.leb_spec ts (length traw)); [|by apply writes_none; [|lia]].
  set (n := Nat.min (e - ss) (length traw - ts)).
  assert (He : (e <= length raw)%nat) by (unfold e; lia).
  unfold slice_range. rewrite (proj2 (Nat.leb_le _ _)), (proj2 (Nat.leb_le _ _)) by lia. cbn [andb].
  assert (Hn : length (take (ss + n - ss) (drop ss raw)) = n) by (rewrite length_take, length_drop; lia).
  pose proof (writes_copy target 0 m traw ts (take (ss + n - ss) (drop ss raw)) n Ht Htr) as Hw.
  rewrite Hn in Hw. apply Hw; lia.
Qed.

(** C32: [write], the number writes and [copy] never change a byte outside the
    view they write to: not the rest of its array buffer, not another one.
    [copy] never panics on attached views; the writes panic only on a buffer to
    which the program added properties, which [this.len()] counts as bytes. *)
Theorem buffer_writes_in_view m this target :
  attached m this -> attached m target ->
  (forall s args, text s -> writes_in this (v_extra this) m (write as_int m this s args)) /\
  (forall v offset endian kind,
     writes_in this (v_extra this) m (write_buf as_float as_i64 f64_as_f32 m this v offset endian kind)) /\
  (forall target_start source_start source_end,
     writes_in target 0 m (copy m this (Some target) target_start source_start source_end)).
Proof.
  intros Ha Ht. split_and!; intros; [by apply write_in|by apply write_buf_in|by apply copy_in].
Qed.

(** [write] of a text puts the longest prefix of whole characters that
    fits at the front of the buffer and returns its length; a text that fits
    is read back by [toString]. *)
Theorem buffer_write_text m this cs :
  attached m this -> v_extra this = 0%nat -> Forall scalar cs ->
  let s := encode_all cs in
  exists n m' raw, resolve_view_bytes m this = Ok raw
    /\ write as_int m this s [] = Some (Ok (n, m'))
    /\ resolve_view_bytes m' this = Ok (take n s ++ drop n raw)
    /\ text (take n s) /\ (n <= v_length this)%nat
    /\ (forall i, (length (encode_all (take i cs)) <= v_length this)%nat -> (length (encode_all (take i cs)) <= n)%nat)
    /\ ((length s <= v_length this)%nat ->
        to_string m' this None None (Some (Z.of_nat n)) = Some (Ok s)).
Proof.
  intros Ha Hx Hcs s. destruct (resolve_ok m this Ha) as (raw & Hr & Hrl).
  destruct (safe_byte_slice_spec cs (Nat.min (v_length this) (length s)) Hcs) as (n & Hsl & Hns & Hne & Ht & Hmax).
  fold s in Hsl, Hns, Ht.
  assert (Hn : length (take n s) = n) by (rewrite length_take; lia).
  destruct (write_view m this 0 (take n s) raw Ha Hr) as (Hc & Hr' & Ha' & _); [lia|].
  assert (Hput : put raw 0 (take n s) = take n s ++ drop n raw) by (unfold put; simpl; by rewrite Hn).
  rewrite Hn in Hc. rewrite Hput in *. exists n, (store m this (take n s ++ drop n raw)), raw.
  assert (Hlen : forall i, (length (encode_all (take i cs)) <= length s)%nat).
  { intros i. etrans; [apply (encode_take_le cs i (i + length cs)); lia|]. by rewrite take_ge by lia. }
  split_and!; try done; try lia.
  - unfold write. rewrite object_len_attached, Hx, Nat.add_0_r by done. cbn [get_write_parameters result_bind fbind].
    rewrite Hr. cbn [fbind]. rewrite utf8_encoder. cbn [or_throw fbind].
    rewrite bool_decide_eq_true_2 by done. rewrite Hsl. by rewrite Hc.
  - intros i Hi. apply Hmax. specialize (Hlen i). lia.
  - intros Hfit. assert (n = length s).
    { specialize (Hmax (length cs)). rewrite take_ge in Hmax by lia. fold s in Hmax. lia. }
    subst n. rewrite take_ge in * by lia. unfold to_string. rewrite as_bytes_attached, Hr' by done. cbn [fbind].
    rewrite Z.max_l, Nat2Z.id by lia.
    assert (Hb : Nat.min (length s) (length (s ++ drop (length s) raw)) = length s)
      by (rewrite length_app; lia).
    rewrite Hb. unfold slice_range. cbn [Nat.min Nat.leb andb].
    rewrite (proj2 (Nat.leb_le _ _)) by (rewrite length_app; lia). rewrite Nat.sub_0_r, drop_0, take_app_length.
    cbn [from_optional_str or_throw result_bind encode_to_string bytes_to_utf8_string].
    unfold s. by rewrite from_utf8_lossy_encode_all.
Qed.
End Properties.

(** [subarray] gives a view of the same array buffer inside the view it is
    taken from; its bytes are the slice from start to end, where an index
    counts from the end when negative and is cut to the bounds. *)
Theorem buffer_subarray m this start end_ bytes :
  attached m this -> resolve_view_bytes m this = Ok bytes ->
  let len := Z.of_nat (v_length this) in
  let s := Z.to_nat (default 0 (clamp_index len <$> start)) in
  let e := Z.to_nat (default len (clamp_index len <$> end_)) in
  exists w, subarray m this start end_ = Ok w /\ attached m w /\ v_buffer w = v_buffer this
    /\ (v_offset this <= v_offset w /\ v_offset w + v_length w <= v_offset this + v_length this)%nat
    /\ resolve_view_bytes m w = Ok (take (e - s) (drop s bytes)).
Proof.
  intros (raw & Hm & Hl) Hr len s e. rewrite (resolve_attached m this raw Hm Hl) in Hr. injection Hr as <-.
  assert (Hc : forall i, 0 <= clamp_index len i <= len) by (intros i; unfold clamp_index; case_tests; lia).
  assert (Hs : (match start with Some s => clamp_index len s | None => 0 end) = Z.of_nat s /\ (s <= v_length this)%nat).
  { unfold s. destruct start as [i|]; cbn; [specialize (Hc i)|]; lia. }
  assert (He : (match end_ with Some s => clamp_index len s | None => len end) = Z.of_nat e /\ (e <= v_length this)%nat).
  { unfold e. destruct end_ as [i|]; cbn; [specialize (Hc i)|]; lia. }
  destruct Hs as [Hs Hs'], He as [He He']. unfold subarray. fold len. rewrite Hs, He.
  replace (Z.to_nat (Z.max (Z.of_nat e - Z.of_nat s) 0)) with (e - s)%nat by lia.
  replace (Z.to_nat (Z.max (Z.of_nat (v_offset this) + Z.of_nat s) 0)) with (v_offset this + s)%nat by lia.
  unfold from_array_buffer_offset_length. rewrite Hm, (proj2 (Nat.leb_le _ _)) by lia.
  set (w := mkViewWith _ _ _ _). exists w.
  assert (Hw : (v_offset w + v_length w <= length raw)%nat) by (unfold w; simpl; lia).
  split_and!; try done; try (unfold w; simpl; lia); [by exists raw|].
  rewrite (resolve_attached m w raw Hm Hw). unfold w. cbn [v_offset v_length]. f_equal.
  rewrite <- drop_drop, skipn_firstn_comm, firstn_firstn. f_equal. lia.
Qed.

(** ** Concrete runs *)

(** A buffer of twelve bytes and a view of eight of them. *)
Definition sample_memory : gmap nat (list Z) := {[ 0%nat := replicate 12 0 ]}.
Definition sample_view : view := mkView 0 2 8.
Definition sample_target : view := mkView 0 0 2.

Lemma sample_attached : attached sample_memory sample_view /\ attached sample_memory sample_target.
Proof. split; exists (replicate 12 0); (split; [reflexivity|simpl; lia]). Qed.

(** Numbers as integers. *)
Definition sample_int (z : Z) : option Z := Some z.

Lemma buffer_number_roundtrip_witness :
  exists m', write_buf sample_int id id sample_memory sample_view (ANumber (-2)) (Some 1%nat) Big Int32
             = Some (Ok (5%nat, m'))
    /\ read_buf id m' sample_view (Some 1%nat) Big Int32 = Some (Ok (RInt (-2))).
Proof.
  apply (buffer_number_roundtrip sample_int id id id sample_memory sample_view (ANumber (-2)) (Some 1%nat) Big
    Int32 (-2)).
  - apply sample_attached.
  - split; [simpl; lia|]. exists (-2). split; reflexivity.
  - vm_compute. lia.
Defined.

Lemma buffer_subarray_witness :
  exists w, subarray sample_memory sample_view (Some (-3)) None = Ok w /\ (v_offset w + v_length w <= 10)%nat.
Proof.
  destruct (buffer_subarray sample_memory sample_view (Some (-3)) None (replicate 8 0)) as (w & E & _ & _ & H & _).
  - apply sample_attached.
  - reflexivity.
  - exists w. split; [exact E|exact (proj2 H)].
Defined.

Lemma buffer_writes_in_view_witness :
  writes_in sample_view 0 sample_memory (write sample_int sample_memory sample_view (str "abcdefghij") []) /\
  writes_in sample_target 0 sample_memory (copy sample_memory sample_view (Some sample_target) 1 0 None).
Proof.
  destruct (buffer_writes_in_view sample_int sample_int id id sample_memory sample_view sample_target)
    as (Hw & _ & Hc).
  - apply sample_attached.
  - apply sample_attached.
  - split; [apply Hw; solve_ascii|apply Hc].
Defined.

(** Eight bytes hold two of three euro signs. *)
Lemma buffer_write_text_witness :
  exists n m', write sample_int sample_memory sample_view (encode_all [0x20AC; 0x20AC; 0x20AC]) [] = Some (Ok (n, m'))
    /\ (6 <= n)%nat.
Proof.
  destruct (buffer_write_text sample_int sample_memory sample_view [0x20AC; 0x20AC; 0x20AC])
    as (n & m' & raw & _ & E & _ & _ & _ & Hmax & _).
  - apply sample_attached.
  - reflexivity.
  - repeat constructor; lia.
  - exists n, m'. split; [exact E|]. apply (Hmax 2%nat). vm_compute. lia.
Defined.

(** [Buffer.alloc(5, '')] takes a remainder by zero: a panic. *)
Example alloc_empty_fill_panics :
  alloc (num := Z) sample_int sample_memory 5 (Some (VStr [])) None = None.
Proof. reflexivity. Qed.

(** [toString] with a start above the end slices backwards: a panic. *)
Example to_string_backwards_panics :
  to_string sample_memory sample_view None (Some 3) (Some 1) = None.
Proof. reflexivity. Qed.

(** After [buf.x = 1], [buf.writeInt8(1, buf.length)] passes the test of the
    offset, and the slice of the view panics. *)
Example added_property_panics :
  write_buf sample_int id id sample_memory (mkViewWith 0 2 8 1) (ANumber 1) (Some 8%nat) Little Int8 = None /\
  write_buf sample_int id id sample_memory (mkViewWith 0 2 8 0) (ANumber 1) (Some 8%nat) Little Int8
    = Some (Err (RangeError "The specified offset is out of range")).
Proof. split; reflexivity. Qed.
