(* ===== verification/Package.v ===== *)
(** * The package resolver of src/llrt_modules/src/package/resolver.rs

    [require_resolve] with the steps of the CommonJS algorithm it names:
    LOAD_AS_FILE, LOAD_INDEX, LOAD_AS_DIRECTORY, LOAD_NODE_MODULES with its
    process-wide cache, LOAD_PACKAGE_IMPORTS, LOAD_PACKAGE_EXPORTS and
    LOAD_PACKAGE_SELF, and the reading of a package.json.  The operating system
    and the JSON parser are the fields of [env]; the file system is the same
    throughout a call.  The cache is passed explicitly. *)
From stdpp Require Import base list numbers strings gmap.
From Stdlib Require Import ZArith Lia.
From S2P Require Import Path StdPath Prelude.

(** ** The environment *)

Inductive file_type : Type := File | Dir | Other.

#[export] Instance file_type_eq_dec : EqDecision file_type.
Proof. solve_decision. Defined.

(** [simd_json::BorrowedValue]; an object is its list of members. *)
#[warnings="-register-all"] Inductive json : Type :=
| JStatic
| JString (s : list Z)
| JArray (items : list json)
| JObject (members : list (list Z * json)).

Record env := mkEnv {
  (** [std::env::current_dir] *)
  cwd : list Z;
  (** [std::fs::metadata], following links *)
  metadata : list Z -> option file_type;
  (** [std::fs::read] *)
  read : list Z -> option (list Z);
  (** [std::path::Path::read_link] *)
  read_link : list Z -> option (list Z);
  (** [home::home_dir] *)
  home_dir : option (list Z);
  (** [simd_json::to_borrowed_value] *)
  to_borrowed_value : list Z -> option json;
  (** [env::var("LLRT_PLATFORM")] *)
  env_platform : option (list Z);
}.

Inductive error : Type :=
| Resolving (base name : list Z)
| Thrown.

#[export] Instance error_eq_dec : EqDecision error.
Proof. solve_decision. Defined.

Definition SUPPORTED_EXTENSIONS : list (list Z) := [str ".js"; str ".mjs"; str ".cjs"; str ".lrt"].
Definition JS_EXTENSIONS : list (list Z) := [str ".js"; str ".mjs"; str ".cjs"].
Definition is_supported_ext (ext : list Z) : bool := bool_decide (ext ∈ SUPPORTED_EXTENSIONS).
Definition CJS_IMPORT_PREFIX : list Z := str "__cjs:".
Definition CJS_LOADER_PREFIX : list Z := str "__cjsm:".
Definition FILESYSTEM_ROOT : list Z := SEP.

(** ** Members of JSON objects *)

Fixpoint assoc_get (key : list Z) (members : list (list Z * json)) : option json :=
  match members with
  | [] => None
  | (k, v) :: rest => if bool_decide (k = key) then Some v else assoc_get key rest
  end.

(** [if let BorrowedValue::Object(map) = value { map.get(key) }]. *)
Definition get (key : list Z) (value : json) : option json :=
  match value with
  | JObject members => assoc_get key members
  | _ => None
  end.

Definition as_string (value : json) : option (list Z) :=
  match value with
  | JString s => Some s
  | _ => None
  end.

Definition as_object (value : json) : option json :=
  match value with
  | JObject _ => Some value
  | _ => None
  end.

(** [if let Some(BorrowedValue::String(s)) = map.get(key)]. *)
Definition get_string (key : list Z) (map : json) : option (list Z) :=
  let! v := get key map in as_string v.

Definition get_object (key : list Z) (map : json) : option json :=
  let! v := get key map in as_object v.

Definition get_string_field (package_json : json) (key : list Z) : option (list Z) :=
  get_string key package_json.

Definition is_exports_field_exists (package_json : json) : bool :=
  match get_object (str "exports") package_json with
  | Some _ => true
  | None => false
  end.

(** ** Names *)

(** [(0..n).try_fold(x.len(), |p, _| x[..p].rfind('/'))]. *)
Fixpoint rfind_nth (x : list Z) (n p : nat) : option nat :=
  match n with
  | O => Some p
  | S n' => let! p := rfind_byte MAIN_SEPARATOR (take p x) in rfind_nth x n' p
  end.

Definition get_name_and_scope (x : list Z) (n : nat) : list Z * list Z * bool :=
  match rfind_nth x n (length x) with
  | Some pos => (drop (pos + 1) x, take pos x, false)
  | None => (str ".", x, true)
  end.

(** [x.trim_start_matches(pat)]: the prefix is removed as often as it occurs. *)
Fixpoint trim_start_loop (fuel : nat) (pat x : list Z) : list Z :=
  match fuel with
  | O => x
  | S fuel' =>
      if starts_with pat x then trim_start_loop fuel' pat (drop (length pat) x) else x
  end.
Definition trim_start_matches (pat x : list Z) : list Z := trim_start_loop (length x) pat x.

(** [x.trim_end_matches(pat)]. *)
Definition trim_end_matches (pat x : list Z) : list Z := rev (trim_start_matches (rev pat) (rev x)).

(** [scope.replace("*", name)]. *)
Definition replace_star (scope name : list Z) : list Z :=
  concat ((fun b => if (b =? 42)%Z then name else [b]) <$> scope).

(** [modules_name.rmatch_indices('/').nth(1)] *)
Definition second_last_slash (s : list Z) : option nat :=
  let! last := rfind_byte MAIN_SEPARATOR s in rfind_byte MAIN_SEPARATOR (take last s).

(** The pattern to look for in exports, and what its star stands for. *)
Definition wildcard (modules_name : list Z) : option (list Z * list Z) :=
  let! pos := second_last_slash modules_name in
  let '(name, scope, _) := get_name_and_scope modules_name pos in
  Some (name, scope ++ str "/*").

(** ** package.json entries *)

Section Resolver.
Context (E : env).

Definition LLRT_PLATFORM : list Z :=
  match env_platform E with
  | Some platform => if bool_decide (platform = str "node") then platform else str "browser"
  | None => str "browser"
  end.

(** The conditions of one entry of exports, in the order they are tried. *)
Definition entry_conditions (ident : list Z) (name : json) : option (list Z) :=
  match (let! platform := get_object LLRT_PLATFORM name in get_string ident platform) with
  | Some s => Some s
  | None =>
  match (let! i := get_object ident name in get_string (str "default") i) with
  | Some s => Some s
  | None =>
  match get_string LLRT_PLATFORM name with
  | Some s => Some s
  | None =>
  match get_string ident name with
  | Some s => Some s
  | None => get_string (str "default") name
  end end end end.

Definition package_exports_resolve (package_json : json) (modules_name : list Z) (is_esm : bool)
    : list Z * option (list Z) * bool :=
  let ident := if is_esm then str "import" else str "require" in
  let modules_name :=
    if bool_decide (modules_name <> str ".") then str "./" ++ modules_name else modules_name in
  let wildcard := wildcard modules_name in
  match as_object package_json with
  | None => (str "./index.js", None, true)
  | Some map =>
      let is_cjs := negb (bool_decide (get_string (str "type") map = Some (str "module"))) in
      let from_fields :=
        match get_string LLRT_PLATFORM map with
        | Some platform => (platform, None, is_cjs)
        | None =>
        match (if is_esm then get_string (str "module") map else None) with
        | Some module => (module, None, false)
        | None =>
        match get_string (str "main") map with
        | Some main => (main, None, is_cjs)
        | None => (str "./index.js", None, true)
        end end end in
      match get_object (str "exports") map with
      | None => from_fields
      | Some exports =>
          match (let! name := get_object modules_name exports in entry_conditions ident name) with
          | Some path => (path, None, is_cjs)
          | None =>
          match (let! (star, scope) := wildcard in
                 let! name := get_object scope exports in
                 let! path := entry_conditions ident name in
                 Some (path, star)) with
          | Some (path, star) => (path, Some (replace_star path star), is_cjs)
          | None =>
          match (let! i := get_object ident exports in get_string (str "default") i) with
          | Some default => (default, None, is_cjs)
          | None =>
          match get_string ident exports with
          | Some i => (i, None, is_cjs)
          | None =>
          match (if is_esm then None else get_string (str "default") exports) with
          | Some default => (default, None, is_cjs)
          | None => from_fields
          end end end end end
      end
  end.

Definition package_imports_resolve (package_json : json) (modules_name : list Z)
    : option (list Z) :=
  let! map := as_object package_json in
  let! imports := get_object (str "imports") map in
  match get_object modules_name imports with
  | Some name =>
      match get_string LLRT_PLATFORM name with
      | Some platform => Some platform
      | None =>
      match get_string (str "require") name with
      | Some require => Some require
      | None =>
      match get_string (str "module-sync") name with
      | Some module_sync => Some module_sync
      | None => get_string (str "default") name
      end end end
  | None => get_string modules_name imports
  end.

(** ** Files *)

Definition is_file (p : list Z) : bool := bool_decide (metadata E p = Some File).
Definition is_dir (p : list Z) : bool := bool_decide (metadata E p = Some Dir).
Definition exists_path (p : list Z) : bool := bool_decide (is_Some (metadata E p)).

(** [fs::read(..).or_throw(ctx)?] and [to_borrowed_value(..).or_throw(ctx)?]. *)
Definition read_json (p : list Z) : Prelude.result error json :=
  match read E p with
  | None => Err Thrown
  | Some text => match to_borrowed_value E text with
                 | None => Err Thrown
                 | Some v => Ok v
                 end
  end.

Fixpoint closest_scope_loop (fuel : nat) (current_dir : list Z) : option (list Z) :=
  match fuel with
  | O => None
  | S fuel' =>
      let package_json_path := path_join current_dir (str "package.json") in
      if exists_path package_json_path then Some package_json_path
      else let! current_dir := parent current_dir in closest_scope_loop fuel' current_dir
  end.

(** A parent is a shorter path, so the loop ends within the fuel. *)
Definition find_the_closest_package_scope (start : list Z) : option (list Z) :=
  closest_scope_loop (S (length start)) start.

(** [for extension in extensions { if is_file(base + extension) .. }]. *)
Fixpoint find_ext (p : list Z -> bool) (base : list Z) (extensions : list (list Z)) : option (list Z) :=
  match extensions with
  | [] => None
  | extension :: rest =>
      if p (base ++ extension) then Some (base ++ extension) else find_ext p base rest
  end.

(** *** Absolute paths *)

Definition normalize_absolute_path (path : list Z) : option (list Z) :=
  let simple :=
    bool_decide (path = SEP) ||
    match path with
    | b :: rest =>
        (b =? MAIN_SEPARATOR)%Z &&
        forallb (fun part => negb (is_dot part || bool_decide (part = str "..")))
          (split_on MAIN_SEPARATOR rest)
    | [] => false
    end in
  if simple then None else Some (normalize path).

Definition to_abs_path (path : list Z) : list Z :=
  let path := if is_absolute path then path else resolve_path (cwd E) [path] in
  match normalize_absolute_path path with
  | Some normalized => if bool_decide (normalized <> path) then normalized else path
  | None => path
  end.

Definition correct_extensions (x : list Z) : list Z :=
  if is_file x then x
  else
    let index := if is_dir x then str "/index" else [] in
    default x (find_ext is_file (x ++ index) JS_EXTENSIONS).

(** *** LOAD_AS_FILE, LOAD_INDEX and LOAD_AS_DIRECTORY *)

Definition load_as_file (x : list Z) : Prelude.result error (option (list Z)) :=
  if is_file x then Ok (Some x)
  else
    match find_ext is_file x SUPPORTED_EXTENSIONS with
    | Some current_file =>
        match find_the_closest_package_scope x with
        | None => Ok (Some current_file)
        | Some path =>
            let? package_json := read_json path in
            match get_string_field package_json (str "type") with
            | Some type =>
                if bool_decide (type = str "module") || bool_decide (type = str "commonjs")
                then Ok (Some current_file)
                else Ok (Some current_file)
            | None => Ok (Some current_file)
            end
        end
    | None =>
        let current_file := x ++ str ".json" in
        if is_file current_file then Ok (Some current_file) else Ok None
    end.

Definition load_index (x : list Z) : Prelude.result error (option (list Z)) :=
  let base_file := x ++ str "/index" in
  match find_ext is_file base_file SUPPORTED_EXTENSIONS with
  | Some file =>
      match find_the_closest_package_scope x with
      | None => Ok (Some file)
      | Some path =>
          let? package_json := read_json path in
          match get_string_field package_json (str "type") with
          | Some type => if bool_decide (type = str "module") then Ok (Some file) else Ok (Some file)
          | None => Ok (Some file)
          end
      end
  | None =>
      let file := base_file ++ str ".json" in
      if is_file file then Ok (Some file) else Ok None
  end.

(** [if let Ok(Some(path)) = r]: an error counts as nothing found. *)
Definition found {A} (r : Prelude.result error (option A)) : option A :=
  match r with
  | Ok o => o
  | Err _ => None
  end.

Definition load_as_directory (x : list Z) : Prelude.result error (option (list Z)) :=
  let file := x ++ str "/package.json" in
  let? main :=
    (if is_file file then
       let? package_json := read_json file in Ok (get_string_field package_json (str "main"))
     else Ok None) in
  match main with
  | Some main =>
      let m := x ++ SEP ++ main in
      match found (load_as_file m) with
      | Some path => Ok (Some path)
      | None =>
          match found (load_index m) with
          | Some path => Ok (Some path)
          | None => Err (Resolving [] x)
          end
      end
  | None => Ok (found (load_index x))
  end.

(** *** LOAD_PACKAGE_EXPORTS *)

(** The loop that looks for the longest prefix of [x] with a package.json:
    [name], [scope], the path of the package.json and whether it exists. *)
Fixpoint split_name_loop (fuel : nat) (x base_path : list Z) (n : nat)
    : option (list Z * list Z * list Z * bool) :=
  match fuel with
  | O => None
  | S fuel' =>
      let '(name, scope, is_last) := get_name_and_scope x n in
      let package_json_path := base_path ++ scope ++ str "/package.json" in
      let package_json_exists := exists_path package_json_path in
      if package_json_exists || is_last then Some (name, scope, package_json_path, package_json_exists)
      else split_name_loop fuel' x base_path (n + 1)
  end.

(** The number of slashes of [x] decreases; [None] is the fuel running out. *)
Definition split_name (x base_path : list Z) : option (list Z * list Z * list Z * bool) :=
  split_name_loop (S (length x)) x base_path 1.

Definition load_package_exports (x dir : list Z) (is_esm : bool) : Prelude.result error (list Z) :=
  let base_path := dir ++ SEP in
  match split_name x base_path with
  | None => Err Thrown
  | Some (name, scope, package_json_path, package_json_exists) =>
      let rest (package_json_path scope name : list Z) (sub_module : option (list Z)) :=
        let? package_json := read_json package_json_path in
        match sub_module with
        | Some sub_module =>
            if bool_decide (get_string (str "type") package_json <> Some (str "module")) then
              let sub_module := to_abs_path sub_module in
              if is_esm then Ok (CJS_LOADER_PREFIX ++ sub_module) else Ok sub_module
            else Ok sub_module
        | None =>
            let '(module_path, resolved, is_cjs) := package_exports_resolve package_json name is_esm in
            let module_path := default module_path resolved in
            let module_path :=
              to_abs_path (correct_extensions (dir ++ SEP ++ scope ++ SEP ++ module_path)) in
            if is_cjs && is_esm then Ok (CJS_LOADER_PREFIX ++ module_path) else Ok module_path
        end in
      if bool_decide (name <> str ".") && negb package_json_exists then
        let package_json_path := base_path ++ x ++ str "/package.json" in
        if negb (exists_path package_json_path) then Err (Resolving dir x)
        else rest package_json_path x (str ".") None
      else
        let trimmed_name := trim_start_matches (str ".") name in
        let path := base_path ++ scope ++ (if bool_decide (trimmed_name = []) then [] else SEP)
                    ++ trimmed_name in
        match find_ext exists_path path JS_EXTENSIONS with
        | Some current_path =>
            if bool_decide (current_path = path ++ str ".mjs") then Ok current_path
            else rest package_json_path scope name (Some current_path)
        | None => rest package_json_path scope name None
        end
  end.

(** *** LOAD_PACKAGE_IMPORTS and LOAD_PACKAGE_SELF *)

Definition load_package_imports (x dir : list Z) : Prelude.result error (option (list Z)) :=
  match find_the_closest_package_scope dir with
  | None => Ok None
  | Some path =>
      let? package_json := read_json path in
      match package_imports_resolve package_json x with
      | Some module_path =>
          let dir := trim_end_matches (str "package.json") path in
          Ok (Some (to_abs_path (correct_extensions (dir ++ module_path))))
      | None => Ok None
      end
  end.

(** The loop over the splits of [x]; the result is the name that is left. *)
Fixpoint self_name_loop (fuel : nat) (x : list Z) (package_json : json) (n : nat) : option (list Z) :=
  match fuel with
  | O => None
  | S fuel' =>
      let '(name, scope, is_last) := get_name_and_scope x n in
      if is_exports_field_exists package_json &&
         bool_decide (get_string_field package_json (str "name") = Some scope)
      then Some name
      else if is_last then None
      else self_name_loop fuel' x package_json (n + 1)
  end.

Definition load_package_self (x dir : list Z) (is_esm : bool) : Prelude.result error (option (list Z)) :=
  match find_the_closest_package_scope dir with
  | None => Ok None
  | Some path =>
      let? package_json := read_json path in
      match self_name_loop (S (length x)) x package_json 1 with
      | None => Ok None
      | Some name =>
          let '(module_path, resolved, _) := package_exports_resolve package_json name is_esm in
          let module_path := default module_path resolved in
          let dir := trim_end_matches (str "package.json") path in
          Ok (Some (correct_extensions (dir ++ module_path)))
      end
  end.

(** *** LOAD_NODE_MODULES *)

Definition HOME_NODE_MODULES : list (list Z) :=
  match home_dir E with
  | None => []
  | Some home =>
      filter (fun p => is_dir p = true)
        [path_join home (str ".node_modules"); path_join home (str ".node_libraries")]
  end.

Definition search_dir (dir x : list Z) (is_esm : bool) : option (list Z) :=
  match load_package_exports x dir is_esm with
  | Ok path => Some path
  | Err _ =>
      let dir_slash_x := dir ++ SEP ++ x in
      match found (load_as_file dir_slash_x) with
      | Some path => Some path
      | None => found (load_as_directory dir_slash_x)
      end
  end.

Fixpoint search_dirs (dirs : list (list Z)) (x : list Z) (is_esm : bool) : option (list Z) :=
  match dirs with
  | [] => None
  | dir :: rest =>
      match search_dir dir x is_esm with
      | Some path => Some path
      | None => search_dirs rest x is_esm
      end
  end.

(** [NODE_MODULES_PATHS_CACHE]; a [None] entry means that there are no
    node_modules directories at or above the path. *)
Abbreviation node_paths := (gmap (list Z) (option (list (list Z)))).

Definition node_modules_of (dir : list Z) : option (list Z) :=
  let! name := file_name dir in
  let node_modules := path_join dir (str "node_modules") in
  if bool_decide (name <> str "node_modules") && is_dir node_modules then Some node_modules else None.

(** [while let Some(dir) = current]: the directories found, the last index
    with a find and the paths that were not in the cache. *)
Fixpoint collect_dirs (fuel : nat) (cache : node_paths) (dir : list Z) (i last_found_index : nat)
    (results paths_to_cache : list (list Z)) : list (list Z) * nat * list (list Z) :=
  match fuel with
  | O => (results, last_found_index, paths_to_cache)
  | S fuel' =>
      match cache !! dir with
      | Some dirs => (results ++ default [] dirs, i, paths_to_cache)
      | None =>
          let '(results, last_found_index) :=
            match node_modules_of dir with
            | Some node_modules => (results ++ [node_modules], i)
            | None => (results, last_found_index)
            end in
          let paths_to_cache := paths_to_cache ++ [dir] in
          match parent dir with
          | Some current =>
              collect_dirs fuel' cache current (i + 1) last_found_index results paths_to_cache
          | None => (results, last_found_index, paths_to_cache)
          end
      end
  end.

(** [for (i, path) in paths_to_cache.iter().enumerate()]. *)
Fixpoint cache_paths (i last_found_index : nat) (results paths : list (list Z))
    (cache : node_paths) : node_paths :=
  match paths with
  | [] => cache
  | path :: rest =>
      if (i <=? last_found_index)%nat then
        cache_paths (i + 1) last_found_index results rest (<[path := Some results]> cache)
      else <[path := None]> cache
  end.

Definition load_node_modules (x start : list Z) (is_esm : bool) (cache : node_paths)
    : option (list Z) * node_paths :=
  let fast := match cache !! start with
              | Some (Some dirs) => search_dirs dirs x is_esm
              | _ => None
              end in
  match fast with
  | Some path => (Some path, cache)
  | None =>
      let '(results, last_found_index, paths_to_cache) :=
        collect_dirs (S (length start)) cache start 0 0 [] [] in
      let cache := cache_paths 0 last_found_index results paths_to_cache cache in
      match search_dirs results x is_esm with
      | Some path => (Some path, cache)
      | None => (search_dirs HOME_NODE_MODULES x is_esm, cache)
      end
  end.

(** ** require_resolve *)

(** [hooked_fn] is the hook of the bytecode cache, [None] its exception. *)
Definition require_resolve (x y : list Z) (hooked_fn : option (list Z -> list Z -> option (list Z)))
    (is_esm : bool) (cache : node_paths) : Prelude.result error (list Z) * node_paths :=
  let x := trim_start_matches (str "file://") x in
  let y := match read_link E y with
           | Some path => if is_absolute path then path else y ++ str "/../" ++ path
           | None => y
           end in
  match (let! hooked_resolve := hooked_fn in hooked_resolve x y) with
  | Some path => (Ok path, cache)
  | None =>
      let supported := is_supported_ext (name_extname x).2 in
      let x_is_absolute := is_absolute x in
      let x_starts_with_current_dir := starts_with (str "./") x in
      let x_starts_with_parent_dir := starts_with (str "..") x in
      if supported && is_file x then (Ok (to_abs_path x), cache)
      else
      let x_normalized := normalize x in
      if negb x_starts_with_parent_dir && supported && is_file x_normalized then
        (Ok (to_abs_path x_normalized), cache)
      else
      let y := if is_absolute x then FILESYSTEM_ROOT else y in
      let dirname_y := if is_dir y then resolve_path (cwd E) [y]
                       else resolve_path (cwd E) [Path.dirname y] in
      if x_starts_with_current_dir || x_is_absolute || x_starts_with_parent_dir then
        let y_plus_x := if x_is_absolute then x
                        else if x_starts_with_current_dir then dirname_y ++ SEP ++ drop 2 x
                        else dirname_y ++ SEP ++ x in
        match found (load_as_file y_plus_x) with
        | Some path => (Ok (to_abs_path path), cache)
        | None =>
            match found (load_as_directory y_plus_x) with
            | Some path => (Ok (to_abs_path path), cache)
            | None => (Err (Resolving y x), cache)
            end
        end
      else
      match (if starts_with (str "#") x then found (load_package_imports x dirname_y) else None) with
      | Some path => (Ok path, cache)
      | None =>
      match found (load_package_self x dirname_y is_esm) with
      | Some path => (Ok (to_abs_path path), cache)
      | None =>
      let '(path, cache) := load_node_modules x dirname_y is_esm cache in
      match path with
      | Some path => (Ok path, cache)
      | None =>
          match found (load_as_file x) with
          | Some path => (Ok (to_abs_path path), cache)
          | None => (Err (Resolving y x), cache)
          end
      end end end
  end.

(** [PackageResolver::resolve]. *)
Definition resolve (base name : list Z) (cache : node_paths)
    : Prelude.result error (list Z) * node_paths :=
  if starts_with CJS_IMPORT_PREFIX name then (Ok name, cache)
  else require_resolve name (trim_start_matches CJS_IMPORT_PREFIX base) None true cache.

(** ** Entries of package.json as JSON pointers *)

Fixpoint lookup_path (keys : list (list Z)) (v : json) : option json :=
  match keys with
  | [] => Some v
  | k :: ks => let! w := get k v in lookup_path ks w
  end.

(** The string at the end of a chain of members. *)
Definition at_pointer (v : json) (keys : list (list Z)) : option (list Z) :=
  let! w := lookup_path keys v in as_string w.

Definition entry_pointers (ident key : list Z) : list (list (list Z)) :=
  [ [str "exports"; key; LLRT_PLATFORM; ident];
    [str "exports"; key; ident; str "default"];
    [str "exports"; key; LLRT_PLATFORM];
    [str "exports"; key; ident];
    [str "exports"; key; str "default"] ].

(** What a found string means: its star, and whether the module is CommonJS. *)
Record rule := mkRule {
  pointer : list (list Z);
  star : option (list Z);
  forces_esm : bool;
}.

Definition plain_rule (keys : list (list Z)) : rule := mkRule keys None false.

(** The entries in order of precedence. *)
Definition exports_table (modules_name : list Z) (is_esm : bool) : list rule :=
  let ident := if is_esm then str "import" else str "require" in
  let name := if bool_decide (modules_name <> str ".") then str "./" ++ modules_name
              else modules_name in
  (plain_rule <$> entry_pointers ident name) ++
  match wildcard name with
  | Some (s, scope) => (fun keys => mkRule keys (Some s) false) <$> entry_pointers ident scope
  | None => []
  end ++
  [plain_rule [str "exports"; ident; str "default"]; plain_rule [str "exports"; ident]] ++
  (if is_esm then [] else [plain_rule [str "exports"; str "default"]]) ++
  [plain_rule [LLRT_PLATFORM]] ++
  (if is_esm then [mkRule [str "module"] None true] else []) ++
  [plain_rule [str "main"]].

Fixpoint first_rule (package_json : json) (rules : list rule) : option (rule * list Z) :=
  match rules with
  | [] => None
  | r :: rs =>
      match at_pointer package_json (pointer r) with
      | Some s => Some (r, s)
      | None => first_rule package_json rs
      end
  end.

Definition spec_exports (package_json : json) (modules_name : list Z) (is_esm : bool)
    : list Z * option (list Z) * bool :=
  match first_rule package_json (exports_table modules_name is_esm) with
  | Some (r, s) =>
      (s, replace_star s <$> star r,
       negb (forces_esm r) && bool_decide (at_pointer package_json [str "type"] <> Some (str "module")))
  | None => (str "./index.js", None, true)
  end.

Lemma first_rule_app j a b :
  first_rule j (a ++ b) = match first_rule j a with Some r => Some r | None => first_rule j b end.
Proof.
  induction a as [|r a IH]; simpl; [done|]. by destruct (at_pointer j (pointer r)).
Qed.

Lemma at_pointer_1 v k : at_pointer v [k] = get_string k v.
Proof. unfold at_pointer, get_string. simpl. by destruct (get k v). Qed.

(** Walking through a member first asks for an object. *)
Lemma at_pointer_cons v k k' ks :
  at_pointer v (k :: k' :: ks) = let! o := get_object k v in at_pointer o (k' :: ks).
Proof.
  unfold at_pointer, get_object. cbn [lookup_path]. by destruct (get k v) as [[]|].
Qed.

Lemma entry_conditions_spec f j ident key :
  (forall keys, pointer (f keys) = keys) ->
  (snd <$> first_rule j (f <$> entry_pointers ident key)) =
  (let! exports := get_object (str "exports") j in
   let! name := get_object key exports in entry_conditions ident name).
Proof.
  intros Hf. unfold entry_pointers, entry_conditions. cbn [fmap list_fmap first_rule].
  rewrite !Hf, !at_pointer_cons.
  destruct (get_object (str "exports") j) as [ex|]; [|done].
  rewrite !at_pointer_cons. destruct (get_object key ex) as [o|]; [|done].
  rewrite !at_pointer_1, !at_pointer_cons.
  destruct (get_object LLRT_PLATFORM o) as [p|];
    [rewrite at_pointer_1; destruct (get_string ident p); [done|]|];
    (destruct (get_object ident o) as [i|];
      [rewrite at_pointer_1; destruct (get_string (str "default") i); [done|]|]);
    destruct (get_string LLRT_PLATFORM o); try done;
    destruct (get_string ident o); try done;
    by destruct (get_string (str "default") o).
Qed.

Lemma first_rule_star f j ident key r s s0 :
  (forall keys, pointer (f keys) = keys /\ star (f keys) = s0 /\ forces_esm (f keys) = false) ->
  first_rule j (f <$> entry_pointers ident key) = Some (r, s) ->
  star r = s0 /\ forces_esm r = false.
Proof.
  intros Hf. induction (entry_pointers ident key) as [|k l IH]; cbn [fmap list_fmap first_rule]; [done|].
  destruct (at_pointer j (pointer (f k))); [|done]. intros [= <- <-]. by destruct (Hf k) as (_ & ? & ?).
Qed.

Lemma as_object_Some v o : as_object v = Some o -> o = v.
Proof. by destruct v; intros [= <-]. Qed.

Lemma as_object_None v keys : as_object v = None -> keys <> [] -> at_pointer v keys = None.
Proof. destruct keys; [done|]. by destruct v. Qed.

Lemma first_rule_None v rules :
  as_object v = None -> Forall (fun r => pointer r <> []) rules -> first_rule v rules = None.
Proof.
  intros Hv. induction 1 as [|r rs Hr _ IH]; [done|]. cbn [first_rule].
  by rewrite (as_object_None v (pointer r) Hv Hr).
Qed.

Lemma exports_table_pointers modules_name is_esm :
  Forall (fun r => pointer r <> []) (exports_table modules_name is_esm).
Proof.
  unfold exports_table. rewrite !Forall_app. split_and!; try by repeat constructor.
  - destruct (wildcard _) as [[s scope]|]; by repeat constructor.
  - destruct is_esm; by repeat constructor.
  - destruct is_esm; by repeat constructor.
Qed.

(** The rules that do not look inside an entry of exports. *)
Lemma rest_rules_spec j (is_esm : bool) ident (is_cjs : bool) :
  match first_rule j
    ([plain_rule [str "exports"; ident; str "default"]; plain_rule [str "exports"; ident]] ++
     (if is_esm then [] else [plain_rule [str "exports"; str "default"]]) ++
     [plain_rule [LLRT_PLATFORM]] ++
     (if is_esm then [mkRule [str "module"] None true] else []) ++ [plain_rule [str "main"]]) with
  | Some (r, s) => (s, replace_star s <$> star r : option (list Z), negb (forces_esm r) && is_cjs)
  | None => (str "./index.js", None, true)
  end =
  let from_fields :=
    match get_string LLRT_PLATFORM j with
    | Some platform => (platform, None, is_cjs)
    | None =>
    match (if is_esm then get_string (str "module") j else None) with
    | Some module => (module, None, false)
    | None =>
    match get_string (str "main") j with
    | Some main => (main, None, is_cjs)
    | None => (str "./index.js", None, true)
    end end end in
  match get_object (str "exports") j with
  | None => from_fields
  | Some exports =>
      match (let! i := get_object ident exports in get_string (str "default") i) with
      | Some default => (default, None, is_cjs)
      | None =>
      match get_string ident exports with
      | Some i => (i, None, is_cjs)
      | None =>
      match (if is_esm then None else get_string (str "default") exports) with
      | Some default => (default, None, is_cjs)
      | None => from_fields
      end end end
  end.
Proof.
  cbv zeta. rewrite !first_rule_app.
  destruct is_esm; cbn [first_rule pointer plain_rule];
    rewrite !at_pointer_cons, !at_pointer_1;
    (destruct (get_object (str "exports") j) as [ex|];
      [rewrite !at_pointer_cons, !at_pointer_1;
       destruct (get_object ident ex) as [i|];
       [rewrite at_pointer_1; destruct (get_string (str "default") i); [done|]|];
       (destruct (get_string ident ex); [done|]);
       try (destruct (get_string (str "default") ex); [done|])|]);
    (destruct (get_string LLRT_PLATFORM j); [done|]);
    try (destruct (get_string (str "module") j); [done|]);
    by destruct (get_string (str "main") j).
Qed.

(** The nested tests of [package_exports_resolve] are the table. *)
Lemma exports_resolve_spec j modules_name is_esm :
  package_exports_resolve j modules_name is_esm = spec_exports j modules_name is_esm.
Proof.
  unfold package_exports_resolve, spec_exports.
  destruct (as_object j) as [o|] eqn:Ho.
  2:{ by rewrite first_rule_None by (try done; apply exports_table_pointers). }
  apply as_object_Some in Ho as ->. unfold exports_table.
  set (ident := if is_esm then str "import" else str "require").
  set (name := if bool_decide _ then _ else modules_name).
  rewrite <- at_pointer_1. rewrite <- bool_decide_not.
  set (is_cjs := bool_decide _).
  rewrite first_rule_app.
  pose proof (entry_conditions_spec plain_rule j ident name (fun _ => eq_refl)) as He.
  pose proof (rest_rules_spec j is_esm ident is_cjs) as Hrest. cbv zeta in Hrest.
  destruct (first_rule j (plain_rule <$> entry_pointers ident name)) as [[r s]|] eqn:Hr.
  { apply (first_rule_star _ _ _ _ _ _ None) in Hr as [Hs Hf]; [|done].
    rewrite Hs, Hf. destruct (get_object (str "exports") j) as [ex|]; [|done].
    cbn in He. by rewrite <- He. }
  rewrite first_rule_app. clear Hr.
  destruct (wildcard name) as [[s0 scope]|]; cbv match.
  - set (starred := fun keys => mkRule keys (Some s0) false).
    pose proof (entry_conditions_spec starred j ident scope (fun _ => eq_refl)) as Hw.
    destruct (first_rule j (starred <$> entry_pointers ident scope)) as [[r s]|] eqn:Hr.
    + apply (first_rule_star _ _ _ _ _ _ (Some s0)) in Hr as [Hs Hf]; [|done].
      rewrite Hs, Hf. destruct (get_object (str "exports") j) as [ex|]; [|done].
      cbn in He, Hw. rewrite <- He. destruct (get_object scope ex); [|done].
      by rewrite <- Hw.
    + rewrite Hrest. destruct (get_object (str "exports") j) as [ex|]; [|done].
      cbn in He, Hw. rewrite <- He. destruct (get_object scope ex); [|done].
      by rewrite <- Hw.
  - cbn [first_rule]. rewrite Hrest. destruct (get_object (str "exports") j) as [ex|]; [|done].
    cbn in He. by rewrite <- He.
Qed.

(** ** Splitting a specifier *)

Lemma rfind_nth_le x n p q : rfind_nth x n p = Some q -> (q + n <= p)%nat.
Proof.
  revert p. induction n as [|n IH]; intros p; cbn [rfind_nth]; [intros [= ->]; lia|].
  destruct (rfind_byte _ _) as [p'|] eqn:Hr; [|done]. intros Hq%IH.
  apply rfind_byte_lt in Hr. rewrite length_take in Hr. lia.
Qed.

Lemma rfind_byte_at c s i : rfind_byte c s = Some i -> s !! i = Some c.
Proof.
  revert i. induction s as [|b s IH]; intros i; cbn [rfind_byte]; [done|].
  destruct (rfind_byte c s) as [j|].
  - intros [= <-]. by apply IH.
  - case_tests. intros [= <-]. bool_to_prop. by subst.
Qed.

Lemma rfind_nth_at x n p q : rfind_nth x (S n) p = Some q -> x !! q = Some MAIN_SEPARATOR.
Proof.
  revert p. induction n as [|n IH]; intros p; cbn [rfind_nth];
    (destruct (rfind_byte _ _) as [p'|] eqn:Hr; [|done]).
  - intros [= <-]. apply rfind_byte_at in Hr. by apply lookup_take_Some in Hr as [? _].
  - apply IH.
Qed.

(** A split that is not the last one gives back the specifier. *)
Lemma get_name_and_scope_join x n name scope is_last :
  (0 < n)%nat -> get_name_and_scope x n = (name, scope, is_last) ->
  if is_last then name = str "." /\ scope = x else x = scope ++ SEP ++ name.
Proof.
  intros Hn. unfold get_name_and_scope.
  destruct (rfind_nth x n (length x)) as [pos|] eqn:Hr; intros [= <- <- <-]; [|done].
  destruct n as [|n]; [lia|]. apply rfind_nth_at in Hr.
  rewrite <- (take_drop_middle x pos MAIN_SEPARATOR) at 1 by done.
  by rewrite Nat.add_1_r.
Qed.

Lemma get_name_and_scope_last x n : (length x < n)%nat -> (get_name_and_scope x n).2 = true.
Proof.
  intros Hn. unfold get_name_and_scope.
  destruct (rfind_nth x n (length x)) as [pos|] eqn:Hr; [|done]. apply rfind_nth_le in Hr. lia.
Qed.

Lemma split_name_loop_total fuel x base n :
  (length x < fuel + n - 1)%nat -> (0 < n)%nat -> (0 < fuel)%nat -> is_Some (split_name_loop fuel x base n).
Proof.
  revert n. induction fuel as [|fuel IH]; intros n Hf Hn Hp; [lia|]. cbn [split_name_loop].
  destruct (get_name_and_scope x n) as [[name scope] is_last] eqn:Hg.
  destruct (_ || is_last) eqn:Ho; [by eexists|]. apply orb_false_iff in Ho as [_ ->].
  assert (Hle : (n <= length x)%nat).
  { destruct (decide (length x < n)%nat) as [Hlt|]; [|lia].
    apply get_name_and_scope_last in Hlt. by rewrite Hg in Hlt. }
  apply IH; lia.
Qed.

Lemma split_name_loop_spec fuel x base n name scope path ex :
  (0 < n)%nat -> split_name_loop fuel x base n = Some (name, scope, path, ex) ->
  path = base ++ scope ++ str "/package.json" /\ ex = exists_path path /\
  (name = str "." /\ scope = x \/ x = scope ++ SEP ++ name /\ ex = true).
Proof.
  revert n. induction fuel as [|fuel IH]; intros n Hn; cbn [split_name_loop]; [done|].
  destruct (get_name_and_scope x n) as [[name' scope'] is_last] eqn:Hg.
  apply get_name_and_scope_join in Hg; [|done].
  destruct (exists_path (base ++ scope' ++ _)) eqn:Hex; [|destruct is_last]; cbn [orb]; cbv match.
  - intros [= <- <- <- <-]. split_and!; [done..|]. destruct is_last; [by left|by right].
  - intros [= <- <- <- <-]. split_and!; [done..|by left].
  - apply IH. lia.
Qed.

(** The search for the package.json ends, at a split of the specifier. *)
Lemma split_name_total x base :
  exists name scope path ex, split_name x base = Some (name, scope, path, ex) /\
    path = base ++ scope ++ str "/package.json" /\ ex = exists_path path /\
    (name = str "." /\ scope = x \/ x = scope ++ SEP ++ name /\ ex = true).
Proof.
  destruct (split_name_loop_total (S (length x)) x base 1) as [[[[name scope] path] ex] Hs]; try lia.
  exists name, scope, path, ex. split; [done|]. eapply split_name_loop_spec; [|done]. lia.
Qed.

(** ** The closest package scope *)

Definition scope_at (segs : list (list Z)) (k : nat) : list Z :=
  abs_path (take k segs ++ [str "package.json"]).

Lemma scope_at_app segs s k : (k <= length segs)%nat -> scope_at (segs ++ [s]) k = scope_at segs k.
Proof. intros Hk. unfold scope_at. by rewrite take_app_le. Qed.

Lemma closest_scope_loop_spec fuel segs :
  Forall valid_seg segs -> (length (abs_path segs) < fuel)%nat ->
  match closest_scope_loop fuel (abs_path segs) with
  | Some p => exists k, (k <= length segs)%nat /\ p = scope_at segs k /\ exists_path p = true /\
                forall j, (k < j <= length segs)%nat -> exists_path (scope_at segs j) = false
  | None => forall j, (j <= length segs)%nat -> exists_path (scope_at segs j) = false
  end.
Proof.
  revert fuel. induction segs as [|s segs IH] using rev_ind; intros fuel Hv Hf;
    (destruct fuel as [|fuel]; [lia|]); cbn [closest_scope_loop];
    rewrite path_join_abs by done.
  - destruct (exists_path _) eqn:Hex.
    + exists 0. split_and!; [done..|]. simpl. lia.
    + rewrite parent_root. intros j Hj. by replace j with 0 by (simpl in Hj; lia).
  - pose proof Hv as [Hvs Hs]%Forall_app. apply Forall_cons_1 in Hs as [Hs _].
    assert (Hlast : scope_at (segs ++ [s]) (length (segs ++ [s])) =
      abs_path ((segs ++ [s]) ++ [str "package.json"])) by (unfold scope_at; by rewrite firstn_all).
    rewrite <- Hlast. destruct (exists_path (scope_at _ _)) eqn:Hex.
    { exists (length (segs ++ [s])). split_and!; [done..|]. lia. }
    rewrite parent_abs by done.
    assert (Hshort : (length (abs_path segs) < fuel)%nat).
    { pose proof (parent_shorter _ _ (parent_abs segs s Hs Hvs)). lia. }
    specialize (IH fuel Hvs Hshort). rewrite length_app in *. cbn [length] in *.
    destruct (closest_scope_loop fuel (abs_path segs)) as [p|].
    + destruct IH as (k & Hk & -> & Hp & Hj). exists k.
      rewrite scope_at_app by lia. split_and!; [lia|done..|].
      intros j Hjk. destruct (decide (j <= length segs)%nat).
      * rewrite scope_at_app by lia. apply Hj. lia.
      * by replace j with (length segs + 1)%nat by lia.
    + intros j Hj. destruct (decide (j <= length segs)%nat).
      * rewrite scope_at_app by lia. by apply IH.
      * by replace j with (length segs + 1)%nat by lia.
Qed.

(** A prefix that does not occur is not trimmed. *)
Lemma trim_start_none pat x : starts_with pat x = false -> trim_start_matches pat x = x.
Proof. intros Hs. unfold trim_start_matches. destruct x; [done|]. simpl. by rewrite Hs. Qed.

Lemma dot_specifier x :
  starts_with (str "./") x || starts_with (str "..") x = true ->
  starts_with (str "file://") x = false /\ is_absolute x = false.
Proof.
  intros Hx. assert (Hc : exists rest, x = DOT :: rest).
  { apply orb_true_iff in Hx as [Hx|Hx]; apply bool_decide_eq_true in Hx as [rest ->]; by eexists. }
  destruct Hc as [rest ->].
  split; apply bool_decide_eq_false_2; intros [r Hr]; by injection Hr.
Qed.

(** ** The node_modules directories of a path

    What NODE_MODULES_PATHS of the algorithm lists for a directory: the
    node_modules directories of the path and its ancestors, nearest first. *)
Fixpoint ancestors_loop (fuel : nat) (dir : list Z) : list (list Z) :=
  match fuel with
  | O => []
  | S fuel' => dir :: match parent dir with Some d => ancestors_loop fuel' d | None => [] end
  end.

Definition ancestors (dir : list Z) : list (list Z) := ancestors_loop (S (length dir)) dir.
Definition node_dirs (dir : list Z) : list (list Z) := omap node_modules_of (ancestors dir).

Definition spec_search (x start : list Z) (is_esm : bool) : option (list Z) :=
  search_dirs (node_dirs start ++ HOME_NODE_MODULES) x is_esm.

Lemma ancestors_fuel f g dir :
  length dir < f -> length dir < g -> ancestors_loop f dir = ancestors_loop g dir.
Proof.
  revert g dir. induction f as [|f IH]; intros [|g] dir Hf Hg; try lia. cbn [ancestors_loop].
  f_equal. destruct (parent dir) as [d|] eqn:Hp; [|done]. apply parent_shorter in Hp.
  apply IH; lia.
Qed.

Lemma node_dirs_step dir :
  node_dirs dir = match node_modules_of dir with Some m => [m] | None => [] end
    ++ match parent dir with Some d => node_dirs d | None => [] end.
Proof.
  unfold node_dirs, ancestors. cbn [ancestors_loop omap list_omap].
  destruct (parent dir) as [d|] eqn:Hp.
  - apply parent_shorter in Hp. rewrite (ancestors_fuel (length dir) (S (length d)) d) by lia.
    by destruct (node_modules_of dir).
  - by destruct (node_modules_of dir).
Qed.

(** An entry of the cache lists at least the directories of its path, in order. *)
Definition cache_ok (cache : node_paths) : Prop :=
  forall p dirs, cache !! p = Some dirs -> node_dirs p `sublist_of` default [] dirs.

Lemma collect_spec fuel cache dir i last results paths R L P :
  cache_ok cache -> length dir < fuel -> last <= i ->
  collect_dirs fuel cache dir i last results paths = (R, L, P) ->
  exists ds ps, R = results ++ ds /\ P = paths ++ ps /\ last <= L /\
    node_dirs dir `sublist_of` ds /\
    (forall p, p ∈ ps -> node_dirs p `sublist_of` ds /\ length p <= length dir) /\
    (L < i -> node_dirs dir = []) /\
    (forall k p, ps !! k = Some p -> L < i + k -> node_dirs p = []).
Proof.
  intros Hok. revert dir i last results paths.
  induction fuel as [|fuel IH]; intros dir i last results paths Hf Hl; [lia|].
  cbn [collect_dirs]. destruct (cache !! dir) as [dirs|] eqn:Hc.
  { intros [= <- <- <-]. exists (default [] dirs), []. rewrite app_nil_r.
    split_and!; [done..|by apply Hok|set_solver|lia|done]. }
  set (found := match node_modules_of dir with Some m => [m] | None => [] end).
  set (last' := match node_modules_of dir with Some _ => i | None => last end).
  assert (Hstep : match node_modules_of dir with
    | Some m => (results ++ [m], i) | None => (results, last) end = (results ++ found, last')).
  { unfold found, last'. destruct (node_modules_of dir); [done|]. by rewrite app_nil_r. }
  rewrite Hstep. clear Hstep. pose proof (node_dirs_step dir) as Hnd. fold found in Hnd.
  assert (Hlast : last <= last' <= i /\ (last' < i -> found = [])).
  { unfold last', found. destruct (node_modules_of dir); [split; lia|]. split; [lia|done]. }
  destruct (parent dir) as [d|] eqn:Hp.
  - apply parent_shorter in Hp as Hd. intros HR. apply IH in HR; [|lia..].
    destruct HR as (ds & ps & -> & -> & HL & Hsub & Hps & Hnone & Hk).
    exists (found ++ ds), (dir :: ps). rewrite Hnd. split_and!.
    + by rewrite (assoc_L (++)).
    + by rewrite <- (assoc_L (++)).
    + lia.
    + by apply sublist_app.
    + intros p Hin. apply elem_of_cons in Hin as [->|Hin].
      * split; [|done]. rewrite Hnd. by apply sublist_app.
      * destruct (Hps p Hin). split; [by apply sublist_inserts_l|lia].
    + intros HLi. rewrite Hnone, app_nil_r by lia. apply Hlast. lia.
    + intros [|k] p; cbn [lookup list_lookup].
      * intros [= <-] HLi. rewrite Hnd, Hnone, app_nil_r by lia. apply Hlast. lia.
      * intros Hkp HLi. apply (Hk k); [done|lia].
  - intros [= <- <- <-]. exists found, [dir]. rewrite app_nil_r in Hnd. rewrite Hnd. split_and!.
    + done.
    + done.
    + lia.
    + done.
    + intros p Hin%list_elem_of_singleton. subst p. by rewrite Hnd.
    + apply Hlast.
    + intros [|k] p; [|by destruct k].
      intros [= <-] HLi. rewrite Hnd. apply Hlast. lia.
Qed.

(** With no cached path on the way the list is exact. *)
Lemma collect_exact fuel dir i last results paths :
  length dir < fuel -> (collect_dirs fuel ∅ dir i last results paths).1.1 = results ++ node_dirs dir.
Proof.
  revert dir i last results paths.
  induction fuel as [|fuel IH]; intros dir i last results paths Hf; [lia|].
  cbn [collect_dirs]. rewrite lookup_empty, node_dirs_step.
  destruct (node_modules_of dir) as [m|], (parent dir) as [d|] eqn:Hp;
    try (apply parent_shorter in Hp; rewrite IH by lia; by rewrite <- ?(assoc_L (++)));
    by rewrite ?app_nil_r.
Qed.

Lemma cache_paths_ok i last results paths cache :
  cache_ok cache ->
  (forall p, p ∈ paths -> node_dirs p `sublist_of` results) ->
  (forall k p, paths !! k = Some p -> last < i + k -> node_dirs p = []) ->
  cache_ok (cache_paths i last results paths cache).
Proof.
  revert i cache. induction paths as [|path paths IH]; intros i cache Hok Hsub Hnone; [done|].
  cbn [cache_paths]. destruct (i <=? last) eqn:Hi; bool_to_prop.
  - apply IH.
    + intros p dirs. rewrite lookup_insert_Some. intros [[<- <-]|[_ Hc]]; [|by apply Hok].
      apply Hsub. by left.
    + intros p Hp. apply Hsub. by right.
    + intros k p Hk Hlt. apply (Hnone (S k) p); [done|lia].
  - intros p dirs. rewrite lookup_insert_Some. intros [[<- <-]|[_ Hc]]; [|by apply Hok].
    rewrite (Hnone 0 path); [apply sublist_nil_l|done|lia].
Qed.

Lemma search_dirs_sublist ds dirs x is_esm path :
  ds `sublist_of` dirs -> search_dirs ds x is_esm = Some path -> is_Some (search_dirs dirs x is_esm).
Proof.
  intros Hs. revert path. induction Hs as [|d l1 l2 Hs IH|d l1 l2 Hs IH]; intros path; cbn [search_dirs].
  - done.
  - destruct (search_dir d x is_esm); [by eexists|]. apply IH.
  - intros Hp. destruct (search_dir d x is_esm); [by eexists|]. by eapply IH.
Qed.

Lemma search_dirs_app a b x is_esm :
  search_dirs (a ++ b) x is_esm =
  match search_dirs a x is_esm with Some p => Some p | None => search_dirs b x is_esm end.
Proof.
  induction a as [|d a IH]; cbn [search_dirs app]; [done|]. by destruct (search_dir d x is_esm).
Qed.

(** The caches a program can produce. *)
Inductive reachable_cache : node_paths -> Prop :=
| cache_empty : reachable_cache ∅
| cache_step x start is_esm cache r cache' :
    reachable_cache cache -> load_node_modules x start is_esm cache = (r, cache') ->
    reachable_cache cache'.

Lemma load_node_modules_ok x start is_esm cache r cache' :
  cache_ok cache -> load_node_modules x start is_esm cache = (r, cache') ->
  cache_ok cache' /\ (is_Some (spec_search x start is_esm) -> is_Some r).
Proof.
  intros Hok. unfold load_node_modules.
  destruct (match cache !! start with Some (Some dirs) => search_dirs dirs x is_esm | _ => None end)
    as [path|]; [by intros [= <- <-]|].
  destruct (collect_dirs _ _ _ _ _ _ _) as [[R L] P] eqn:HC.
  apply collect_spec in HC; [|done|lia..].
  destruct HC as (ds & ps & -> & -> & _ & Hsub & Hps & _ & Hk). cbn [app].
  assert (Hok' : cache_ok (cache_paths 0 L ds ps cache)).
  { apply cache_paths_ok; [done| |done]. intros p Hp. by apply Hps. }
  intros Hr.
  assert (r = match search_dirs ds x is_esm with Some p => Some p
              | None => search_dirs HOME_NODE_MODULES x is_esm end /\ cache' = cache_paths 0 L ds ps cache)
    as [-> ->] by (destruct (search_dirs ds x is_esm); by injection Hr as <- <-).
  split; [done|]. unfold spec_search. rewrite search_dirs_app.
  destruct (search_dirs (node_dirs start) x is_esm) as [p|] eqn:Hs.
  - destruct (search_dirs_sublist _ _ _ _ _ Hsub Hs) as [q ->]. intros _. by eexists.
  - intros Hh. destruct (search_dirs ds x is_esm); [by eexists|done].
Qed.

Lemma reachable_cache_ok cache : reachable_cache cache -> cache_ok cache.
Proof.
  induction 1 as [|x start is_esm cache r cache' _ IH Hl].
  - intros p dirs. by rewrite lookup_empty.
  - by apply load_node_modules_ok in Hl as [? _].
Qed.

(** Entries of other, shorter paths leave the entry of [start] alone. *)
Lemma cache_paths_other i last results paths cache q :
  q ∉ paths -> cache_paths i last results paths cache !! q = cache !! q.
Proof.
  revert i cache. induction paths as [|p paths IH]; intros i cache Hq; [done|].
  apply not_elem_of_cons in Hq as [Hne Hq]. cbn [cache_paths].
  destruct (i <=? last); [rewrite IH by done|]; by rewrite lookup_insert_ne.
Qed.

Lemma collect_hit fuel cache dir dirs i last results paths :
  cache !! dir = Some dirs -> 0 < fuel ->
  collect_dirs fuel cache dir i last results paths = (results ++ default [] dirs, i, paths).
Proof. intros Hc Hf. destruct fuel as [|fuel]; [lia|]. cbn [collect_dirs]. by rewrite Hc. Qed.

(** The paths to cache start with the directory and get shorter. *)
Lemma collect_paths fuel cache dir i last results paths :
  length dir < fuel ->
  exists ps, (collect_dirs fuel cache dir i last results paths).2 = paths ++ ps /\
    (cache !! dir = None -> head ps = Some dir) /\
    Forall (fun p => length p <= length dir) ps /\ NoDup ps.
Proof.
  revert dir i last results paths.
  induction fuel as [|fuel IH]; intros dir i last results paths Hf; [lia|]. cbn [collect_dirs].
  destruct (cache !! dir) as [dirs|] eqn:Hc.
  { exists []. rewrite app_nil_r. by repeat split; try constructor. }
  set (st := match node_modules_of dir with Some m => (results ++ [m], i) | None => (results, last) end).
  destruct st as [results' last']. destruct (parent dir) as [d|] eqn:Hp.
  - apply parent_shorter in Hp.
    destruct (IH d (i + 1) last' results' (paths ++ [dir])) as (ps & -> & _ & Hle & Hnd); [lia|].
    exists (dir :: ps). split_and!; [by rewrite <- (assoc_L (++))|done| |].
    + constructor; [done|]. eapply Forall_impl; [exact Hle|]. simpl. intros p Hlp. lia.
    + constructor; [|done]. intros Hin. rewrite Forall_forall in Hle. apply Hle in Hin. lia.
  - exists [dir]. split_and!; [done..| |]; repeat constructor; set_solver.
Qed.

(** After a search the entry of its directory is in the cache. *)
Lemma cache_paths_start cache start R L P :
  cache !! start = None -> collect_dirs (S (length start)) cache start 0 0 [] [] = (R, L, P) ->
  cache_paths 0 L R P cache !! start = Some (Some R).
Proof.
  intros Hc HC. destruct (collect_paths (S (length start)) cache start 0 0 [] []) as (ps & HP & Hh & _ & Hnd);
    [lia|]. rewrite HC in HP. cbn [snd app] in HP. subst P. specialize (Hh Hc).
  destruct ps as [|p ps]; [done|]. injection Hh as ->. apply NoDup_cons in Hnd as [Hni _].
  cbn [cache_paths Nat.leb]. by rewrite cache_paths_other, lookup_insert_eq.
Qed.

(** ** Absolute results *)

Lemma aseg_root segs stack : exists stack', foldl aseg (Some (Root, stack)) segs = Some (Root, stack').
Proof.
  revert stack. induction segs as [|s segs IH]; intros stack; cbn [foldl]; [by eexists|].
  unfold aseg at 2. destruct (bool_decide (s = str "..")); [by destruct stack; apply IH|].
  destruct (is_dot s); apply IH.
Qed.

Lemma is_absolute_cons p : is_absolute p = true -> exists rest, p = MAIN_SEPARATOR :: rest.
Proof.
  unfold is_absolute, starts_with. intros Ha%bool_decide_eq_true. destruct Ha as [rest ->].
  by exists rest.
Qed.

(** [normalize] of an absolute path is a normal absolute path. *)
Lemma normalize_absolute p :
  is_absolute p = true -> exists segs, Forall valid_seg segs /\ normalize p = abs_path segs.
Proof.
  intros [rest ->]%is_absolute_cons.
  destruct (join_correct [MAIN_SEPARATOR :: rest]) as (x & Hx & Hrep).
  assert (Hn : normalize (MAIN_SEPARATOR :: rest) = render x) by exact (rep_finish _ _ _ Hrep).
  destruct (rep_ok _ _ _ Hrep) as [Hv _].
  rewrite spec_join_cons in Hx. cbn [foldl] in Hx.
  change (starts_with_sep (MAIN_SEPARATOR :: rest)) with true in Hx. cbv match in Hx.
  unfold asegs in Hx. destruct (aseg_root (split_on MAIN_SEPARATOR (drop 1 (MAIN_SEPARATOR :: rest))) [])
    as [stack Hs]. rewrite Hs in Hx. injection Hx as <-.
  exists (rev stack). split; [by apply List.Forall_rev|]. by rewrite Hn.
Qed.

Lemma normalize_abs_path segs : Forall valid_seg segs -> normalize (abs_path segs) = abs_path segs.
Proof.
  intros Hv. destruct (join_correct [abs_path segs]) as (x & Hx & Hrep).
  assert (Hn : normalize (abs_path segs) = render x) by exact (rep_finish _ _ _ Hrep).
  change (abs_path segs) with (MAIN_SEPARATOR :: join_with SEP segs) in Hx.
  rewrite spec_join_cons in Hx. cbn [foldl] in Hx.
  change (asegs (Some (Root, [])) (join_with SEP segs) = Some x) in Hx.
  rewrite <- (rev_involutive segs), asegs_root in Hx by by apply List.Forall_rev.
  injection Hx as <-. rewrite Hn. unfold render. cbn [absolute fst segments].
  by rewrite rev_involutive.
Qed.

(** The test that spares the call of [normalize] is sound. *)
Lemma normalize_absolute_path_spec p :
  is_absolute p = true -> default p (normalize_absolute_path p) = normalize p.
Proof.
  intros Ha. unfold normalize_absolute_path.
  destruct (_ || _) eqn:Hs; [|done]. cbn [default id]. apply orb_true_iff in Hs as [Hs|Hs].
  - by apply bool_decide_eq_true in Hs as ->.
  - apply is_absolute_cons in Ha as [rest ->]. apply andb_prop in Hs as [_ Hs].
    assert (Hv : Forall valid_seg (split_on MAIN_SEPARATOR rest)).
    { apply Forall_forall. intros s Hin. rewrite forallb_forall in Hs.
      apply list_elem_of_In in Hin as Hin'. apply Hs, negb_true_iff, orb_false_iff in Hin' as [Hd Hp].
      apply bool_decide_eq_false in Hp. split_and!; [done..|]. by eapply split_on_not_in. }
    apply normalize_abs_path in Hv. unfold abs_path, SEP in Hv.
    rewrite join_split_on in Hv. by symmetry.
Qed.

Lemma to_abs_path_eq p :
  is_absolute p = true -> to_abs_path p = normalize p.
Proof.
  intros Ha. unfold to_abs_path. rewrite Ha. rewrite <- normalize_absolute_path_spec by done.
  destruct (normalize_absolute_path p) as [q|]; [|done]. cbn [default id].
  destruct (bool_decide_reflect (q <> p)) as [|Hq]; [done|]. by apply dec_stable in Hq.
Qed.

Lemma to_abs_path_relative p :
  is_absolute p = false -> is_absolute (resolve_path (cwd E) [p]) = true ->
  to_abs_path p = to_abs_path (resolve_path (cwd E) [p]).
Proof. intros Ha Hr. unfold to_abs_path. by rewrite Ha, Hr. Qed.

(** ** The files a specifier can mean *)

Definition candidates (p : list Z) : list (list Z) :=
  p :: ((fun ext => p ++ ext) <$> SUPPORTED_EXTENSIONS) ++ [p ++ str ".json"].

Definition index_candidates (p : list Z) : list (list Z) :=
  ((fun ext => (p ++ str "/index") ++ ext) <$> SUPPORTED_EXTENSIONS)
  ++ [(p ++ str "/index") ++ str ".json"].

Definition main_field (p : list Z) : option (list Z) :=
  if is_file (p ++ str "/package.json") then
    match read_json (p ++ str "/package.json") with
    | Ok v => get_string_field v (str "main")
    | Err _ => None
    end
  else None.

Definition directory_candidates (p : list Z) : list (list Z) :=
  match main_field p with
  | Some main => candidates (p ++ SEP ++ main) ++ index_candidates (p ++ SEP ++ main)
  | None => index_candidates p
  end.

(** Every package.json can be read and parsed. *)
Definition packages_ok : Prop :=
  forall p, exists_path (p ++ str "package.json") = true ->
    exists v, read_json (p ++ str "package.json") = Ok v.

Lemma find_ext_find p base exts :
  find_ext p base exts = List.find p ((fun ext => base ++ ext) <$> exts).
Proof.
  induction exts as [|ext exts IH]; cbn [find_ext fmap list_fmap List.find]; [done|].
  by destruct (p (base ++ ext)).
Qed.

Lemma find_app {A} (p : A -> bool) l k :
  List.find p (l ++ k) = match List.find p l with Some a => Some a | None => List.find p k end.
Proof. induction l as [|a l IH]; simpl; [done|]. by destruct (p a). Qed.

Lemma closest_scope_exists fuel start p :
  closest_scope_loop fuel start = Some p ->
  exists d, p = d ++ str "package.json" /\ exists_path p = true.
Proof.
  revert start. induction fuel as [|fuel IH]; intros start; cbn [closest_scope_loop]; [done|].
  destruct (exists_path (path_join start _)) eqn:Hex.
  - intros [= <-]. unfold path_join in *. destruct (_ || _); [by eexists|].
    exists (start ++ SEP). by rewrite <- (assoc_L (++)) in *.
  - destruct (parent start); [apply IH|done].
Qed.

Lemma scope_readable start p : packages_ok ->
  find_the_closest_package_scope start = Some p -> exists v, read_json p = Ok v.
Proof. intros Hok Hp. apply closest_scope_exists in Hp as (d & -> & Hex). by apply Hok. Qed.

(** Reading the scope's package.json does not change what is found. *)
Lemma load_as_file_find p : packages_ok -> load_as_file p = Ok (List.find is_file (candidates p)).
Proof.
  intros Hok. unfold load_as_file, candidates. cbn [List.find].
  destruct (is_file p); [done|]. rewrite find_app, <- find_ext_find.
  destruct (find_ext is_file p SUPPORTED_EXTENSIONS) as [f|].
  - destruct (find_the_closest_package_scope p) as [q|] eqn:Hq; [|done].
    destruct (scope_readable _ _ Hok Hq) as [v ->]. cbn [result_bind].
    destruct (get_string_field v (str "type")); [|done]. by destruct (_ || _).
  - cbn [List.find]. by destruct (is_file (p ++ str ".json")).
Qed.

Lemma load_index_find p : packages_ok -> load_index p = Ok (List.find is_file (index_candidates p)).
Proof.
  intros Hok. unfold load_index, index_candidates. rewrite find_app, <- find_ext_find.
  destruct (find_ext is_file (p ++ str "/index") SUPPORTED_EXTENSIONS) as [f|].
  - destruct (find_the_closest_package_scope p) as [q|] eqn:Hq; [|done].
    destruct (scope_readable _ _ Hok Hq) as [v ->]. cbn [result_bind].
    destruct (get_string_field v (str "type")); [|done]. by case_bool_decide.
  - cbn [List.find]. by destruct (is_file ((p ++ str "/index") ++ str ".json")).
Qed.

Lemma load_as_directory_find p : packages_ok ->
  found (load_as_directory p) = List.find is_file (directory_candidates p).
Proof.
  intros Hok. unfold load_as_directory, directory_candidates, main_field.
  destruct (is_file (p ++ str "/package.json")) eqn:Hf.
  - assert (Hex : exists v, read_json (p ++ str "/package.json") = Ok v).
    { change (p ++ str "/package.json") with (p ++ SEP ++ str "package.json") in *.
      rewrite (assoc_L (++)) in *. apply Hok. unfold is_file in Hf. unfold exists_path.
      apply bool_decide_eq_true in Hf. rewrite Hf. by apply bool_decide_eq_true_2. }
    destruct Hex as [v Hv]. rewrite Hv. cbn [result_bind].
    destruct (get_string_field v (str "main")) as [main|].
    + rewrite load_as_file_find, load_index_find, find_app by done. cbn [found].
      destruct (List.find is_file (candidates (p ++ SEP ++ main))); [done|].
      by destruct (List.find is_file (index_candidates (p ++ SEP ++ main))).
    + by rewrite load_index_find.
  - cbn [result_bind]. by rewrite load_index_find.
Qed.

(** The directory of a module with a normal absolute path. *)
Lemma dirname_abs_path segs s :
  Forall valid_seg segs -> valid_seg s -> Path.dirname (abs_path (segs ++ [s])) = abs_path segs.
Proof.
  intros Hv Hs. destruct (decide (segs = [])) as [->|Hne].
  - destruct (valid_plain s Hs) as [Hs0 Hs1]. destruct s as [|b s]; [done|].
    unfold abs_path. cbn [app join_with SEP]. unfold Path.dirname.
    assert (Hf : find_dirname_end is_slash (MAIN_SEPARATOR :: b :: s) 1 = None).
    { unfold find_dirname_end. erewrite (dirname_loop_plain _ _ 1 _ 0); [done|lia| |simpl; lia].
      intros i c Hi Hlt Hc. apply Z.eqb_neq. intros ->. apply Hs1.
      destruct i as [|i]; [lia|]. exact (list_elem_of_lookup_2 (b :: s) i _ Hc). }
    by rewrite Hf.
  - rewrite abs_path_snoc by done. apply dirname_join.
    + done.
    + destruct segs as [|a segs]; [done|].
      pose proof (path_join_abs (a :: segs) (str "x") Hv) as Hj. unfold path_join in Hj.
      destruct (ends_with_sep (abs_path (a :: segs))); [|done].
      rewrite orb_true_r, abs_path_snoc in Hj by done. by apply app_inv_head in Hj.
    + by apply valid_plain.
Qed.

Lemma resolve_abs_path cwds segs :
  cwd E = abs_path cwds -> Forall valid_seg cwds -> Forall valid_seg segs ->
  resolve_path (cwd E) [abs_path segs] = abs_path segs.
Proof.
  intros -> Hc Hv. destruct (resolve_path_render cwds [abs_path segs] (Root, rev segs) Hc) as [Hr _].
  - unfold spec_resolve. cbn [foldl]. by apply aresolve_rooted.
  - unfold abs_path at 1. rewrite Hr. unfold render. cbn [absolute fst segments].
    by rewrite rev_involutive.
Qed.

(** ** Properties *)

(** C33: a relative specifier resolves to the first existing file among the
    candidates of the CommonJS algorithm (the path itself, the path with each
    extension, the main entry of a package.json there, its index files), taken
    from the directory of the requiring module; when there is none, it is the
    error that names the module and the specifier. The conditions: the fast
    path does not apply (a specifier with a supported extension names no file
    of the working directory, where the code looks first:
    [cwd_shadows_module]); the requiring module is given by a normal absolute
    path and is neither a link nor a directory; every package.json that exists
    is read as JSON ([packages_ok]); no hook resolves modules. *)
Theorem require_relative cwds segs s x is_esm cache :
  cwd E = abs_path cwds -> Forall valid_seg cwds -> Forall valid_seg (segs ++ [s]) -> packages_ok ->
  let y := abs_path (segs ++ [s]) in
  read_link E y = None -> is_dir y = false ->
  starts_with (str "./") x || starts_with (str "..") x = true ->
  (is_supported_ext (name_extname x).2 = true -> is_file x = false /\ is_file (normalize x) = false) ->
  let p := abs_path segs ++ SEP ++ (if starts_with (str "./") x then drop 2 x else x) in
  require_resolve x y None is_esm cache =
    (match List.find is_file (candidates p ++ directory_candidates p) with
     | Some f => Ok (to_abs_path f)
     | None => Err (Resolving y x)
     end, cache).
Proof.
  intros Hcwd Hc Hv Hok y Hl Hd Hx Hfast p.
  apply Forall_app in Hv as [Hv Hs]. apply Forall_cons_1 in Hs as [Hs _].
  destruct (dot_specifier x Hx) as [Hfile Habs].
  unfold require_resolve. rewrite (trim_start_none _ _ Hfile), Hl, Habs. cbv match zeta.
  assert (Hf1 : is_supported_ext (name_extname x).2 && is_file x = false).
  { destruct (is_supported_ext _); [|done]. by apply Hfast. }
  assert (Hf2 : negb (starts_with (str "..") x) && is_supported_ext (name_extname x).2
    && is_file (normalize x) = false).
  { destruct (is_supported_ext _); [|by rewrite andb_false_r].
    destruct (Hfast eq_refl) as [_ ->]. by rewrite andb_false_r. }
  rewrite Hf1, Hf2, orb_false_r, Hx, Hd.
  assert (Hdir : resolve_path (cwd E) [Path.dirname y] = abs_path segs)
    by (unfold y; by rewrite dirname_abs_path, (resolve_abs_path cwds segs)).
  rewrite Hdir. replace (if starts_with (str "./") x then _ else _) with p
    by (unfold p; by destruct (starts_with (str "./") x)).
  rewrite find_app, load_as_file_find, load_as_directory_find by done. cbn [found].
  destruct (List.find is_file (candidates p)); [done|].
  by destruct (List.find is_file (directory_candidates p)).
Qed.

(** C35: for an absolute path, and for a relative one whose [..] do not go
    past the outermost directory of the working directory ([spec_resolve]
    gives a path; otherwise see [Path.resolve_path_escape]), [to_abs_path]
    returns a normal absolute path (no empty, [.] or [..] component) and
    leaves such a path as it is; on an absolute path the test that avoids
    normalizing gives the same result as normalizing. *)
Theorem to_abs_path_normal cwds p :
  cwd E = abs_path cwds -> Forall valid_seg cwds ->
  is_absolute p = true \/ is_Some (spec_resolve (rev cwds) [p]) ->
  exists segs, Forall valid_seg segs /\ to_abs_path p = abs_path segs /\
    to_abs_path (to_abs_path p) = to_abs_path p /\
    (is_absolute p = true -> to_abs_path p = normalize p).
Proof.
  intros Hcwd Hc Hp.
  assert (Hnorm : forall q, is_absolute q = true ->
    exists segs, Forall valid_seg segs /\ to_abs_path q = abs_path segs).
  { intros q Hq. rewrite to_abs_path_eq by done. by apply normalize_absolute. }
  assert (Hres : exists segs, Forall valid_seg segs /\ to_abs_path p = abs_path segs).
  { destruct (is_absolute p) eqn:Ha; [by apply Hnorm|]. destruct Hp as [Hp|[x Hx]]; [done|].
    destruct (resolve_path_render cwds [p] x Hc Hx) as (Hr & Habs & _).
    change (SEP ++ join_with SEP cwds) with (abs_path cwds) in Hr. rewrite <- Hcwd in Hr.
    rewrite <- Hr in Habs. rewrite to_abs_path_relative by done. by apply Hnorm. }
  destruct Hres as (segs & Hv & Hs). exists segs. split_and!; [done..| |apply to_abs_path_eq].
  rewrite Hs, to_abs_path_eq by apply abs_path_absolute. by apply normalize_abs_path.
Qed.

(** The package scope of a directory is the package.json of the nearest
    ancestor that has one; no scope is found only when no ancestor has one. *)
Theorem closest_scope_nearest segs :
  Forall valid_seg segs ->
  match find_the_closest_package_scope (abs_path segs) with
  | Some p => exists k, k <= length segs /\ p = scope_at segs k /\ exists_path p = true /\
                forall j, k < j <= length segs -> exists_path (scope_at segs j) = false
  | None => forall j, j <= length segs -> exists_path (scope_at segs j) = false
  end.
Proof. intros Hv. apply closest_scope_loop_spec; [done|lia]. Qed.

(** The nested tests by which [package_exports_resolve] reads a
    package.json are one ordered table of JSON pointers: the result is the
    string at the first pointer that has one, with the star of a wildcard
    entry replaced, and it is CommonJS unless the package is a module or the
    entry is its module field. *)
Theorem exports_first_pointer package_json modules_name is_esm :
  package_exports_resolve package_json modules_name is_esm =
  spec_exports package_json modules_name is_esm.
Proof. apply exports_resolve_spec. Qed.

(** C34: whatever searches went before, the cache of node_modules directories
    never hides one: each entry lists the directories of its path in order, and
    a package that the search without a cache finds is found.  The first search
    of a process is exactly the search without a cache. *)
Theorem node_modules_never_missed x start is_esm cache r cache' :
  reachable_cache cache -> load_node_modules x start is_esm cache = (r, cache') ->
  cache_ok cache' /\ (is_Some (spec_search x start is_esm) -> is_Some r) /\
  (cache = ∅ -> r = spec_search x start is_esm).
Proof.
  intros Hr%reachable_cache_ok Hl. pose proof (load_node_modules_ok _ _ _ _ _ _ Hr Hl) as [Hok Hs].
  split_and!; [done..|]. intros ->. unfold load_node_modules in Hl. rewrite lookup_empty in Hl.
  pose proof (collect_exact (S (length start)) start 0 0 [] []) as HC.
  destruct (collect_dirs _ _ _ _ _ _ _) as [[R L] P]. cbn [fst app] in HC. rewrite HC in Hl by lia.
  unfold spec_search. rewrite search_dirs_app.
  by destruct (search_dirs (node_dirs start) x is_esm); injection Hl as <- <-.
Qed.

(** Asking again from the same directory gives the same answer and leaves
    the cache alone, for every cache. *)
Theorem node_modules_repeat x start is_esm cache r cache' :
  load_node_modules x start is_esm cache = (r, cache') ->
  load_node_modules x start is_esm cache' = (r, cache').
Proof.
  unfold load_node_modules at 1. destruct (cache !! start) as [v|] eqn:Hc.
  - rewrite (collect_hit _ _ _ v) by (done || lia). cbn [app cache_paths].
    intros Hl. assert (cache' = cache) as ->.
    { destruct v as [dirs|]; [destruct (search_dirs dirs x is_esm); [by injection Hl|]|];
        destruct (search_dirs _ x is_esm); by injection Hl. }
    unfold load_node_modules. by rewrite Hc, (collect_hit _ _ _ v) by (done || lia).
  - destruct (collect_dirs _ _ _ _ _ _ _) as [[R L] P] eqn:HC.
    pose proof (cache_paths_start _ _ _ _ _ Hc HC) as Hs. intros Hl.
    assert (cache' = cache_paths 0 L R P cache /\ r = match search_dirs R x is_esm with
      | Some p => Some p | None => search_dirs HOME_NODE_MODULES x is_esm end) as [-> ->]
      by (destruct (search_dirs R x is_esm); by injection Hl as <- <-).
    unfold load_node_modules. rewrite Hs, (collect_hit _ _ _ (Some R)) by (done || lia).
    cbn [app cache_paths default id].
    by destruct (search_dirs R x is_esm).
Qed.
End Resolver.

(** ** Concrete file systems *)

Fixpoint assoc {A} (p : list Z) (l : list (list Z * A)) : option A :=
  match l with
  | [] => None
  | (q, a) :: rest => if bool_decide (q = p) then Some a else assoc p rest
  end.

(** Files and directories, and the contents of the JSON files; the text of a
    JSON file is stood for by its path. *)
Definition mk_env (dir : list Z) (nodes : list (list Z * file_type)) (jsons : list (list Z * json)) : env :=
  {| cwd := dir;
     metadata := fun p => assoc p nodes;
     read := fun p => match assoc p jsons with Some _ => Some p | None => None end;
     read_link := fun _ => None;
     home_dir := None;
     to_borrowed_value := fun text => assoc text jsons;
     env_platform := Some (str "node") |}.

(** A project with a nested package:
    /app/node_modules/dep/index.js and /app/lib/node_modules/dep/index.js. *)
Definition nested : env :=
  mk_env (str "/app")
    [ (str "/app", Dir); (str "/app/node_modules", Dir); (str "/app/node_modules/dep/index.js", File);
      (str "/app/lib", Dir); (str "/app/lib/node_modules", Dir);
      (str "/app/lib/node_modules/dep/index.js", File);
      (str "/app/lib/util.js", File); (str "/app/util.js", File);
      (str "/app/package.json", File) ]
    [ (str "/app/package.json", JObject [(str "type", JString (str "module"))]) ].

(** A specifier with a supported extension is first looked up in the working
    directory, before the directory of the module that requires it. *)
Example cwd_shadows_module :
  (require_resolve nested (str "./util.js") (str "/app/lib/main.js") None false ∅).1 =
    Ok (str "/app/lib/util.js") /\
  let inside := mk_env (str "/app")
    [(str "./util.js", File); (str "/app/util.js", File); (str "/app/lib/util.js", File)] [] in
  (require_resolve inside (str "./util.js") (str "/app/lib/main.js") None false ∅).1 =
    Ok (str "/app/util.js").
Proof. split; vm_compute; reflexivity. Qed.

(** Once a module in /app/lib has been searched for, the cached list is used
    for /app as well: its modules resolve into /app/lib/node_modules. *)
Example child_modules_leak :
  let from_lib := load_node_modules nested (str "dep") (str "/app/lib") false ∅ in
  from_lib.1 = Some (str "/app/lib/node_modules/dep/index.js") /\
  (load_node_modules nested (str "dep") (str "/app") false ∅).1 =
    Some (str "/app/node_modules/dep/index.js") /\
  (load_node_modules nested (str "dep") (str "/app") false from_lib.2).1 =
    Some (str "/app/lib/node_modules/dep/index.js").
Proof. vm_compute. repeat split. Qed.

(** The byte position of a slash is used as the number of slashes to go back:
    the pattern of a two-level subpath is not the one of its directory. *)
Example wildcard_position :
  wildcard (str "./foo/bar") = Some (str "bar", str "./foo/*") /\
  wildcard (str "./foo/bar/baz") = Some (str ".", str "./foo/bar/baz/*") /\
  let package_json := JObject [(str "exports", JObject
    [(str "./foo/bar/*", JObject [(str "default", JString (str "./dist/*.js"))])])] in
  package_exports_resolve nested package_json (str "foo/bar/baz") true =
    (str "./index.js", None, true).
Proof. vm_compute. repeat split. Qed.

Lemma assoc_In {A} p (l : list (list Z * A)) a : assoc p l = Some a -> In (p, a) l.
Proof.
  induction l as [|[q b] l IH]; cbn [assoc]; [done|]. case_bool_decide as Hq.
  - intros [= <-]. left. by rewrite Hq.
  - intros Ha. right. by apply IH.
Qed.

Lemma nested_packages_ok : packages_ok nested.
Proof.
  intros p Hp. unfold exists_path in Hp. apply bool_decide_eq_true in Hp as [t Ht].
  apply assoc_In in Ht. repeat (destruct Ht as [Ht|Ht]; [|]); try done;
    apply (f_equal fst) in Ht; cbn [fst] in Ht; try (by rewrite <- Ht; eexists);
    apply (f_equal (@rev Z)) in Ht; rewrite rev_app_distr in Ht; discriminate Ht.
Qed.

Lemma require_relative_witness :
  (require_resolve nested (str "./util") (str "/app/lib/main.js") None true ∅).1 =
    Ok (str "/app/lib/util.js") /\
  (require_resolve nested (str "../none") (str "/app/lib/main.js") None true ∅).1 =
    Err (Resolving (str "/app/lib/main.js") (str "../none")).
Proof.
  pose proof nested_packages_ok as Hok.
  assert (Hv : Forall valid_seg [str "app"; str "lib"; str "main.js"]).
  { apply valid_segs_check. vm_compute. reflexivity. }
  assert (Hc : Forall valid_seg [str "app"]) by (apply valid_segs_check; vm_compute; reflexivity).
  change (str "/app/lib/main.js") with (abs_path ([str "app"; str "lib"] ++ [str "main.js"])).
  split.
  - pose proof (require_relative nested [str "app"] [str "app"; str "lib"] (str "main.js")
      (str "./util") true ∅ eq_refl Hc Hv Hok eq_refl eq_refl eq_refl) as ->; [|done].
    vm_compute. reflexivity.
  - pose proof (require_relative nested [str "app"] [str "app"; str "lib"] (str "main.js")
      (str "../none") true ∅ eq_refl Hc Hv Hok eq_refl eq_refl eq_refl) as ->; [|done].
    vm_compute. reflexivity.
Defined.

Lemma to_abs_path_normal_witness :
  exists segs, Forall valid_seg segs /\ to_abs_path nested (str "lib//./x/../util.js") = abs_path segs /\
    segs = [str "app"; str "lib"; str "util.js"].
Proof.
  assert (Hc : Forall valid_seg [str "app"]) by (apply valid_segs_check; vm_compute; reflexivity).
  assert (Hs : is_absolute (str "lib//./x/../util.js") = true \/
    is_Some (spec_resolve (rev [str "app"]) [str "lib//./x/../util.js"])) by (right; by eexists).
  destruct (to_abs_path_normal nested [str "app"] (str "lib//./x/../util.js") eq_refl Hc Hs)
    as (segs & Hv & Heq & _).
  exists [str "app"; str "lib"; str "util.js"]. split_and!; [|by vm_compute|done].
  apply valid_segs_check. vm_compute. reflexivity.
Defined.

Lemma closest_scope_nearest_witness :
  Forall valid_seg [str "app"; str "lib"; str "main.js"] /\
  exists k, find_the_closest_package_scope nested (str "/app/lib/main.js") = Some (str "/app/package.json") /\
    str "/app/package.json" = scope_at [str "app"; str "lib"; str "main.js"] k.
Proof.
  assert (Hv : Forall valid_seg [str "app"; str "lib"; str "main.js"]).
  { apply valid_segs_check. vm_compute. reflexivity. }
  split; [done|].
  pose proof (closest_scope_nearest nested _ Hv) as Hn.
  change (abs_path [str "app"; str "lib"; str "main.js"]) with (str "/app/lib/main.js") in Hn.
  assert (Hf : find_the_closest_package_scope nested (str "/app/lib/main.js") =
    Some (str "/app/package.json")) by (vm_compute; reflexivity).
  rewrite Hf in Hn. destruct Hn as (k & _ & Hk & _).
  exists k. split; [exact Hf|exact Hk].
Defined.

Lemma node_modules_never_missed_witness :
  exists cache, reachable_cache nested cache /\ cache <> ∅ /\
    is_Some (load_node_modules nested (str "dep") (str "/app/lib/a") false cache).1.
Proof.
  set (first := load_node_modules nested (str "dep") (str "/app") false ∅).
  assert (Hr : reachable_cache nested first.2).
  { eapply (cache_step nested (str "dep") (str "/app") false ∅ first.1); [constructor|].
    unfold first. by destruct (load_node_modules _ _ _ _ _). }
  exists first.2. split; [exact Hr|]. split; [by vm_compute|].
  destruct (load_node_modules nested (str "dep") (str "/app/lib/a") false first.2) as [r c] eqn:Hl.
  apply (node_modules_never_missed nested _ _ _ _ _ _ Hr Hl). vm_compute. by eexists.
Defined.

Lemma node_modules_repeat_witness :
  let once := load_node_modules nested (str "dep") (str "/app/lib") false ∅ in
  once.1 = Some (str "/app/lib/node_modules/dep/index.js") /\
  load_node_modules nested (str "dep") (str "/app/lib") false once.2 = once.
Proof.
  intros once. split; [by vm_compute|].
  pose proof (node_modules_repeat nested (str "dep") (str "/app/lib") false ∅ once.1 once.2) as Hr.
  rewrite Hr; unfold once; by destruct (load_node_modules _ _ _ _ _).
Defined.
