(* ===== verification/WritableStream.v ===== *)
(** * Writable streams of src/modules/llrt_stream_web/src/writable

    One writable stream with its default controller and the writers that were
    acquired for it: stream/mod.rs, default_controller.rs, default_writer.rs,
    objects.rs, writer.rs and the queue of utils/queue.rs.  [None] is a panic
    (an [expect] that fails).

    Promises are indices of a store; [ResolveablePromise] is an index with a
    flag that says whether it has its resolving functions.  [upon_promise]
    records a reaction, and a job runs a reaction whose promise is settled.
    The functions of the underlying sink return a promise that is settled from
    outside, in a step of its own; they do not call the stream while they run,
    and neither do listeners of the controller's abort signal.
    The result of the size function is an argument of [write].  The log of the
    chunks taken and of the calls of the sink is kept for the specification. *)
From stdpp Require Import base list numbers strings sets.
From Stdlib Require Import ZArith Lia SpecFloat.
From S2P Require Import Prelude F64.

(** ** Values *)

Inductive value : Type :=
| Undefined
| Val (n : Z)
(** [Symbol.for("close sentinel")] *)
| CloseSentinel
| TypeError (msg : list Z)
| RangeError (msg : list Z).

#[export] Instance value_eq_dec : EqDecision value.
Proof. solve_decision. Defined.

(** ** Promises *)

Inductive promise_state : Type := Pending | Fulfilled | Rejected (reason : value).

#[export] Instance promise_state_eq_dec : EqDecision promise_state.
Proof. solve_decision. Defined.

(** What a promise was made for: a request of the user (write, close or
    abort), a call of the sink, or anything else. *)
Inductive promise_kind : Type := ForRequest | ForSink | ForOther.

#[export] Instance promise_kind_eq_dec : EqDecision promise_kind.
Proof. solve_decision. Defined.

Record resolveable := mkRp { promise : nat; settles : bool }.

#[export] Instance resolveable_eq_dec : EqDecision resolveable.
Proof. solve_decision. Defined.

(** ** The stream, its controller and its writers *)

Inductive stream_state : Type :=
| Writable
| Closed
| Erroring (stored_error : value)
| Errored (stored_error : value).

Record pending_abort := mkAbort {
  ab_promise : resolveable;
  ab_reason : value;
  was_already_erroring : bool;
}.

Record stream := mkStream {
  backpressure : bool;
  close_request : option resolveable;
  in_flight_write_request : option resolveable;
  in_flight_close_request : option resolveable;
  pending_abort_request : option pending_abort;
  state : stream_state;
  writer : option nat;
  write_requests : list resolveable;
}.

(** [algorithms] says whether the four algorithms are set; they are set and
    cleared together. *)
Record controller := mkController {
  algorithms : bool;
  queue : list (value * f64);
  queue_total_size : f64;
  started : bool;
  strategy_hwm : f64;
}.

Record default_writer := mkWriter {
  ready_promise : resolveable;
  closed_promise : resolveable;
  (** [writer.stream.is_some()] *)
  attached : bool;
}.

(** The callbacks given to [upon_promise], with the writer they captured. *)
Inductive reaction : Type :=
| OnStart
| OnWrite
| OnClose (w : option nat)
| OnAbort (abort_promise : resolveable).

Inductive event : Type :=
| Enqueued (chunk : value)
| SinkWrite (chunk : value)
| SinkClose
| SinkAbort (reason : value).

Record st := mkSt {
  promises : list (promise_kind * promise_state);
  reactions : list (nat * reaction);
  writers : list default_writer;
  strm : stream;
  ctrl : controller;
  log : list event;
}.

(** *** Assignments *)
Definition set_promises (v : list (promise_kind * promise_state)) (s : st) : st :=
  mkSt v (reactions s) (writers s) (strm s) (ctrl s) (log s).

Definition set_reactions (v : list (nat * reaction)) (s : st) : st :=
  mkSt (promises s) v (writers s) (strm s) (ctrl s) (log s).

Definition set_writers (v : list default_writer) (s : st) : st :=
  mkSt (promises s) (reactions s) v (strm s) (ctrl s) (log s).

Definition set_strm (v : stream) (s : st) : st :=
  mkSt (promises s) (reactions s) (writers s) v (ctrl s) (log s).

Definition set_ctrl (v : controller) (s : st) : st :=
  mkSt (promises s) (reactions s) (writers s) (strm s) v (log s).

Definition push_log (e : event) (s : st) : st :=
  mkSt (promises s) (reactions s) (writers s) (strm s) (ctrl s) (log s ++ [e]).

Definition set_backpressure (v : bool) (s : st) : st :=
  let x := strm s in
  set_strm (mkStream v (close_request x) (in_flight_write_request x) (in_flight_close_request
    x) (pending_abort_request x) (state x) (writer x) (write_requests x)) s.

Definition set_close_request (v : option resolveable) (s : st) : st :=
  let x := strm s in
  set_strm (mkStream (backpressure x) v (in_flight_write_request x) (in_flight_close_request x)
    (pending_abort_request x) (state x) (writer x) (write_requests x)) s.

Definition set_in_flight_write_request (v : option resolveable) (s : st) : st :=
  let x := strm s in
  set_strm (mkStream (backpressure x) (close_request x) v (in_flight_close_request x)
    (pending_abort_request x) (state x) (writer x) (write_requests x)) s.

Definition set_in_flight_close_request (v : option resolveable) (s : st) : st :=
  let x := strm s in
  set_strm (mkStream (backpressure x) (close_request x) (in_flight_write_request x) v
    (pending_abort_request x) (state x) (writer x) (write_requests x)) s.

Definition set_pending_abort_request (v : option pending_abort) (s : st) : st :=
  let x := strm s in
  set_strm (mkStream (backpressure x) (close_request x) (in_flight_write_request x)
    (in_flight_close_request x) v (state x) (writer x) (write_requests x)) s.

Definition set_state (v : stream_state) (s : st) : st :=
  let x := strm s in
  set_strm (mkStream (backpressure x) (close_request x) (in_flight_write_request x)
    (in_flight_close_request x) (pending_abort_request x) v (writer x) (write_requests x)) s.

Definition set_writer (v : option nat) (s : st) : st :=
  let x := strm s in
  set_strm (mkStream (backpressure x) (close_request x) (in_flight_write_request x)
    (in_flight_close_request x) (pending_abort_request x) (state x) v (write_requests x)) s.

Definition set_write_requests (v : list resolveable) (s : st) : st :=
  let x := strm s in
  set_strm (mkStream (backpressure x) (close_request x) (in_flight_write_request x)
    (in_flight_close_request x) (pending_abort_request x) (state x) (writer x) v) s.

Definition set_algorithms (v : bool) (s : st) : st :=
  let x := ctrl s in
  set_ctrl (mkController v (queue x) (queue_total_size x) (started x) (strategy_hwm x)) s.

Definition set_queue (v : list (value * f64)) (s : st) : st :=
  let x := ctrl s in
  set_ctrl (mkController (algorithms x) v (queue_total_size x) (started x) (strategy_hwm x)) s.

Definition set_queue_total_size (v : f64) (s : st) : st :=
  let x := ctrl s in
  set_ctrl (mkController (algorithms x) (queue x) v (started x) (strategy_hwm x)) s.

Definition set_started (v : bool) (s : st) : st :=
  let x := ctrl s in
  set_ctrl (mkController (algorithms x) (queue x) (queue_total_size x) v (strategy_hwm x)) s.

(** ** Promise operations *)

Definition new_promise (k : promise_kind) (s : st) : resolveable * st :=
  (mkRp (length (promises s)) true, set_promises (promises s ++ [(k, Pending)]) s).

(** The first promise of the store is the promise resolved with undefined. *)
Definition resolved_with_undefined : resolveable := mkRp 0 false.

Definition rejected_with (v : value) (s : st) : resolveable * st :=
  (mkRp (length (promises s)) false, set_promises (promises s ++ [(ForOther, Rejected v)]) s).

(** A settled promise stays as it is. *)
Definition settle (p : nat) (r : promise_state) (s : st) : st :=
  match promises s !! p with
  | Some (k, Pending) => set_promises (<[p := (k, r)]> (promises s)) s
  | _ => s
  end.

Definition resolve_undefined (rp : resolveable) (s : st) : st :=
  if settles rp then settle (promise rp) Fulfilled s else s.

Definition reject (rp : resolveable) (v : value) (s : st) : st :=
  if settles rp then settle (promise rp) (Rejected v) s else s.

Definition is_pending (rp : resolveable) (s : st) : bool :=
  match promises s !! promise rp with
  | Some (_, Pending) => true
  | _ => false
  end.

Definition upon_promise (p : nat) (r : reaction) (s : st) : st :=
  set_reactions (reactions s ++ [(p, r)]) s.

(** ** The queue *)

Definition is_non_negative_number (size : option f64) : option f64 :=
  let! number := size in
  if is_nan number then None
  else if SFltb number zero then None
  else Some number.

Definition size_error : value :=
  RangeError (str "Size must be a finite, non-NaN, non-negative number.").

Definition enqueue_value_with_size (v : value) (size : option f64) (s : st) : result value st :=
  match is_non_negative_number size with
  | None => Err size_error
  | Some size =>
      if is_infinite size then Err size_error
      else
        let s := set_queue (queue (ctrl s) ++ [(v, size)]) s in
        Ok (set_queue_total_size (f64_add (queue_total_size (ctrl s)) size) s)
  end.

Definition dequeue_value (s : st) : option (value * st) :=
  match queue (ctrl s) with
  | [] => None
  | (v, size) :: rest =>
      let s := set_queue rest s in
      let total := f64_sub (queue_total_size (ctrl s)) size in
      Some (v, set_queue_total_size (if SFltb total zero then zero else total) s)
  end.

Definition reset_queue (s : st) : st := set_queue_total_size zero (set_queue [] s).

(** ** Small stream operations *)

(** [WritableStreamObjects::with_writer]: the writer the caller holds. *)
Definition with_writer (w : option nat) (f : default_writer -> st -> default_writer * st) (s : st) : st :=
  match w with
  | None => s
  | Some i =>
      match writers s !! i with
      | None => s
      | Some wr => let '(wr, s) := f wr s in set_writers (<[i := wr]> (writers s)) s
      end
  end.

Definition is_writable_stream_locked (s : st) : bool :=
  match writer (strm s) with Some _ => true | None => false end.

Definition is_some {A} (o : option A) : bool := match o with Some _ => true | None => false end.

Definition has_operation_marked_in_flight (s : st) : bool :=
  is_some (in_flight_write_request (strm s)) || is_some (in_flight_close_request (strm s)).

Definition close_queued_or_in_flight (s : st) : bool :=
  is_some (close_request (strm s)) || is_some (in_flight_close_request (strm s)).

Definition stored_error (s : st) : value :=
  match state (strm s) with
  | Erroring e | Errored e => e
  | _ => Undefined
  end.

Definition is_writable (s : st) : bool :=
  match state (strm s) with Writable => true | _ => false end.

Definition mark_first_write_request_in_flight (s : st) : option st :=
  match write_requests (strm s) with
  | [] => None
  | r :: rest => Some (set_in_flight_write_request (Some r) (set_write_requests rest s))
  end.

Definition mark_close_request_in_flight (s : st) : option st :=
  let! r := close_request (strm s) in
  Some (set_in_flight_close_request (Some r) (set_close_request None s)).

Definition add_write_request (s : st) : nat * st :=
  let '(rp, s) := new_promise ForRequest s in
  (promise rp, set_write_requests (write_requests (strm s) ++ [rp]) s).

Definition update_backpressure (w : option nat) (bp : bool) (s : st) : st :=
  if negb (is_writable s) then s
  else
    let s := with_writer w (fun wr s =>
      if negb (eqb bp (backpressure (strm s))) then
        if bp then
          let '(rp, s) := new_promise ForOther s in (mkWriter rp (closed_promise wr) (attached wr), s)
        else (wr, resolve_undefined (ready_promise wr) s)
      else (wr, s)) s in
    set_backpressure bp s.

(** ** The controller: sizes and algorithms *)

Definition get_desired_size (s : st) : f64 :=
  f64_sub (strategy_hwm (ctrl s)) (queue_total_size (ctrl s)).

Definition get_backpressure (s : st) : bool := SFleb (get_desired_size s) zero.

Definition clear_algorithms (s : st) : st := set_algorithms false s.

(** A call of an algorithm of the sink: the promise it returns. *)
Definition sink_call (e : event) (s : st) : option (nat * st) :=
  if algorithms (ctrl s) then
    let '(rp, s) := new_promise ForSink (push_log e s) in Some (promise rp, s)
  else None.

Definition abort_steps (reason : value) (s : st) : option (nat * st) :=
  let! (p, s) := sink_call (SinkAbort reason) s in
  Some (p, clear_algorithms s).

(** ** Errors *)

Definition ensure_ready_promise_rejected (e : value) (wr : default_writer) (s : st)
    : default_writer * st :=
  if is_pending (ready_promise wr) s then (wr, reject (ready_promise wr) e s)
  else
    let '(rp, s) := rejected_with e s in (mkWriter rp (closed_promise wr) (attached wr), s).

Definition ensure_closed_promise_rejected (e : value) (wr : default_writer) (s : st)
    : default_writer * st :=
  if is_pending (closed_promise wr) s then (wr, reject (closed_promise wr) e s)
  else
    let '(rp, s) := rejected_with e s in (mkWriter (ready_promise wr) rp (attached wr), s).

Definition reject_close_and_closed_promise_if_needed (w : option nat) (s : st) : st :=
  let s := match close_request (strm s) with
           | Some r => set_close_request None (reject r (stored_error s) s)
           | None => s
           end in
  with_writer w (fun wr s => (wr, reject (closed_promise wr) (stored_error s) s)) s.

Definition reject_all (e : value) (rs : list resolveable) (s : st) : st :=
  foldl (fun s r => reject r e s) s rs.

Definition finish_erroring (w : option nat) (e : value) (s : st) : option st :=
  let s := set_state (Errored e) s in
  let s := reset_queue s in
  let s := reject_all e (write_requests (strm s)) s in
  let s := set_write_requests [] s in
  match pending_abort_request (strm s) with
  | None => Some (reject_close_and_closed_promise_if_needed w s)
  | Some abort_request =>
      let s := set_pending_abort_request None s in
      if was_already_erroring abort_request then
        Some (reject_close_and_closed_promise_if_needed w (reject (ab_promise abort_request) e s))
      else
        let! (p, s) := abort_steps (ab_reason abort_request) s in
        Some (upon_promise p (OnAbort (ab_promise abort_request)) s)
  end.

Definition start_erroring (w : option nat) (reason : value) (s : st) : option st :=
  let s := set_state (Erroring reason) s in
  let s := with_writer w (ensure_ready_promise_rejected reason) s in
  if negb (has_operation_marked_in_flight s) && started (ctrl s)
  then finish_erroring w reason s
  else Some s.

Definition deal_with_rejection (w : option nat) (e : value) (s : st) : option st :=
  match state (strm s) with
  | Writable => start_erroring w e s
  | Erroring stored => finish_erroring w stored s
  | _ => None
  end.

Definition controller_error (w : option nat) (reason : value) (s : st) : option st :=
  start_erroring w reason (clear_algorithms s).

Definition controller_error_if_needed (w : option nat) (e : value) (s : st) : option st :=
  if is_writable s then controller_error w e s else Some s.

Definition finish_in_flight_write (s : st) : option st :=
  let! r := in_flight_write_request (strm s) in
  Some (resolve_undefined r (set_in_flight_write_request None s)).

Definition finish_in_flight_write_with_error (w : option nat) (e : value) (s : st) : option st :=
  let! r := in_flight_write_request (strm s) in
  deal_with_rejection w e (reject r e (set_in_flight_write_request None s)).

Definition finish_in_flight_close (w : option nat) (s : st) : option st :=
  let! r := in_flight_close_request (strm s) in
  let s := resolve_undefined r (set_in_flight_close_request None s) in
  let s := match state (strm s) with
           | Erroring _ =>
               match pending_abort_request (strm s) with
               | Some a => resolve_undefined (ab_promise a) (set_pending_abort_request None s)
               | None => s
               end
           | _ => s
           end in
  let s := set_state Closed s in
  Some (with_writer w (fun wr s => (wr, resolve_undefined (closed_promise wr) s)) s).

Definition finish_in_flight_close_with_error (w : option nat) (e : value) (s : st) : option st :=
  let! r := in_flight_close_request (strm s) in
  let s := reject r e (set_in_flight_close_request None s) in
  let s := match pending_abort_request (strm s) with
           | Some a => reject (ab_promise a) e (set_pending_abort_request None s)
           | None => s
           end in
  deal_with_rejection w e s.

(** ** Advancing the queue *)

Definition process_close (w : option nat) (s : st) : option st :=
  let! s := mark_close_request_in_flight s in
  let! (_, s) := dequeue_value s in
  let! (p, s) := sink_call SinkClose s in
  Some (upon_promise p (OnClose w) (clear_algorithms s)).

Definition process_write (chunk : value) (s : st) : option st :=
  let! s := mark_first_write_request_in_flight s in
  let! (p, s) := sink_call (SinkWrite chunk) s in
  Some (upon_promise p OnWrite s).

Definition advance_queue_if_needed (w : option nat) (s : st) : option st :=
  if negb (started (ctrl s)) || is_some (in_flight_write_request (strm s)) then Some s
  else
    match state (strm s) with
    | Erroring e => finish_erroring w e s
    | _ =>
        match queue (ctrl s) with
        | [] => Some s
        | (v, _) :: _ =>
            if bool_decide (v = CloseSentinel) then process_close w s else process_write v s
        end
    end.

Definition controller_close (w : option nat) (s : st) : option st :=
  match enqueue_value_with_size CloseSentinel (Some zero) s with
  | Err _ => Some s
  | Ok s => advance_queue_if_needed w s
  end.

(** [size] is the result of the size function on the chunk. *)
Definition get_chunk_size (w : option nat) (size : result value (option f64)) (s : st)
    : option (option f64 * st) :=
  match (if algorithms (ctrl s) then size else Ok (Some one)) with
  | Ok chunk_size => Some (chunk_size, s)
  | Err reason =>
      let! s := controller_error_if_needed w reason s in
      Some (Some one, s)
  end.

Definition controller_write (w : option nat) (chunk : value) (chunk_size : option f64) (s : st)
    : option st :=
  match enqueue_value_with_size chunk chunk_size s with
  | Err reason => controller_error_if_needed w reason s
  | Ok s =>
      let s := push_log (Enqueued chunk) s in
      let s := if negb (close_queued_or_in_flight s) && is_writable s
               then update_backpressure w (get_backpressure s) s else s in
      advance_queue_if_needed w s
  end.

(** ** Abort and close *)

Definition new_request (s : st) : resolveable * st := new_promise ForRequest s.

(** The result is the promise returned. *)
Definition writable_stream_abort (w : option nat) (reason : value) (s : st) : option (nat * st) :=
  match state (strm s) with
  | Closed | Errored _ => Some (promise resolved_with_undefined, s)
  | _ =>
      match pending_abort_request (strm s) with
      | Some a => Some (promise (ab_promise a), s)
      | None =>
          let was_erroring := match state (strm s) with Erroring _ => true | _ => false end in
          let reason := if was_erroring then Undefined else reason in
          let '(rp, s) := new_request s in
          let s := set_pending_abort_request (Some (mkAbort rp reason was_erroring)) s in
          let! s := (if was_erroring then Some s else start_erroring w reason s) in
          Some (promise rp, s)
      end
  end.

Definition rejected_promise (v : value) (s : st) : nat * st :=
  let '(rp, s) := rejected_with v s in (promise rp, s).

(** The steps after the test of the state. *)
Definition request_close (w : option nat) (s : st) : option (nat * st) :=
  let '(rp, s) := new_request s in
  let s := set_close_request (Some rp) s in
  let s := with_writer w (fun wr s =>
    (wr, if backpressure (strm s) && is_writable s
         then resolve_undefined (ready_promise wr) s else s)) s in
  let! s := controller_close w s in
  Some (promise rp, s).

Definition writable_stream_close (w : option nat) (s : st) : option (nat * st) :=
  match state (strm s) with
  | Closed | Errored _ =>
      Some (rejected_promise
        (TypeError (str "The stream is not in the writable state and cannot be closed")) s)
  | _ => request_close w s
  end.

(** ** The methods of WritableStream *)

Definition stream_abort (reason : value) (s : st) : option (nat * st) :=
  if is_writable_stream_locked s then
    Some (rejected_promise (TypeError (str "Cannot abort a stream that already has a writer")) s)
  else writable_stream_abort None reason s.

Definition stream_close (s : st) : option (nat * st) :=
  if is_writable_stream_locked s then
    Some (rejected_promise (TypeError (str "Cannot close a stream that already has a writer")) s)
  else if close_queued_or_in_flight s then
    Some (rejected_promise (TypeError (str "Cannot close an already-closing stream")) s)
  else writable_stream_close None s.

(** [getWriter] and the constructor of the writer: its index or the error. *)
Definition set_up_writer (s : st) : result value (nat * st) :=
  if is_writable_stream_locked s then
    Err (TypeError (str "This stream has already been locked for exclusive writing by another writer"))
  else
    let '(ready, closed, s) :=
      match state (strm s) with
      | Writable =>
          let '(ready, s) :=
            if negb (close_queued_or_in_flight s) && backpressure (strm s)
            then new_promise ForOther s else (resolved_with_undefined, s) in
          let '(closed, s) := new_promise ForOther s in (ready, closed, s)
      | Erroring e =>
          let '(ready, s) := rejected_with e s in
          let '(closed, s) := new_promise ForOther s in (ready, closed, s)
      | Closed => (resolved_with_undefined, resolved_with_undefined, s)
      | Errored e => let '(rp, s) := rejected_with e s in (rp, rp, s)
      end in
    let i := length (writers s) in
    let s := set_writers (writers s ++ [mkWriter ready closed true]) s in
    Ok (i, set_writer (Some i) s).

(** ** The methods of WritableStreamDefaultWriter *)

Definition attached_writer (i : nat) (s : st) : bool :=
  match writers s !! i with Some wr => attached wr | None => false end.

Definition writer_get_desired_size (s : st) : option f64 :=
  match state (strm s) with
  | Errored _ | Erroring _ => None
  | Closed => Some zero
  | Writable => Some (get_desired_size s)
  end.

Definition desired_size (i : nat) (s : st) : result value (option f64) :=
  if negb (attached_writer i s) then
    Err (TypeError (str "Cannot desiredSize a stream using a released writer"))
  else Ok (writer_get_desired_size s).

Definition writer_abort (i : nat) (reason : value) (s : st) : option (nat * st) :=
  if negb (attached_writer i s) then
    Some (rejected_promise (TypeError (str "Cannot abort a stream using a released writer")) s)
  else writable_stream_abort (Some i) reason s.

Definition writer_close (i : nat) (s : st) : option (nat * st) :=
  if negb (attached_writer i s) then
    Some (rejected_promise (TypeError (str "Cannot close a stream using a released writer")) s)
  else if close_queued_or_in_flight s then
    Some (rejected_promise (TypeError (str "Cannot close an already-closing")) s)
  else writable_stream_close (Some i) s.

Definition close_with_error_propagation (i : nat) (s : st) : option (nat * st) :=
  match state (strm s), close_queued_or_in_flight s with
  | _, true | Closed, _ => Some (promise resolved_with_undefined, s)
  | Errored e, _ => Some (rejected_promise e s)
  | _, _ => writable_stream_close (Some i) s
  end.

Definition released_error : value :=
  TypeError (str "Writer was released and can no longer be used to monitor the stream's closedness").

(** The writer is detached from the stream, and the stream from the writer. *)
Definition writer_release (i : nat) (s : st) : st :=
  let s := with_writer (Some i) (ensure_ready_promise_rejected released_error) s in
  let s := with_writer (Some i) (ensure_closed_promise_rejected released_error) s in
  let s := set_writer None s in
  with_writer (Some i) (fun wr s => (mkWriter (ready_promise wr) (closed_promise wr) false, s)) s.

Definition release_lock (i : nat) (s : st) : st :=
  if negb (attached_writer i s) then s else writer_release i s.

Definition default_writer_write (i : nat) (chunk : value) (size : result value (option f64)) (s : st)
    : option (nat * st) :=
  let! (chunk_size, s) := get_chunk_size (Some i) size s in
  if negb (attached_writer i s) then
    Some (rejected_promise (TypeError (str "Cannot write to a stream using a released writer")) s)
  else
    match state (strm s), close_queued_or_in_flight s with
    | Errored e, _ => Some (rejected_promise e s)
    | _, true | Closed, _ =>
        Some (rejected_promise
          (TypeError (str "The stream is closing or closed and cannot be written to")) s)
    | Erroring e, _ => Some (rejected_promise e s)
    | Writable, _ =>
        let '(p, s) := add_write_request s in
        let! s := controller_write (Some i) chunk chunk_size s in
        Some (p, s)
    end.

Definition write (i : nat) (chunk : value) (size : result value (option f64)) (s : st)
    : option (nat * st) :=
  if negb (attached_writer i s) then
    Some (rejected_promise (TypeError (str "Cannot write a stream using a released writer")) s)
  else default_writer_write i chunk size s.

(** ** WritableStreamDefaultController.error *)

Definition error (e : value) (s : st) : option st :=
  if negb (is_writable s) then Some s else controller_error (writer (strm s)) e s.

(** [error_stream], which a transform stream calls. *)
Definition error_stream (reason : value) (s : st) : option st :=
  if negb (is_writable s) then Some s else start_erroring (writer (strm s)) reason s.

(** ** Construction *)

(** A strategy without a highWaterMark is [None]. *)
Definition extract_high_water_mark (high_water_mark : option f64) (default_hwm : f64)
    : result value f64 :=
  match high_water_mark with
  | None => Ok default_hwm
  | Some hwm =>
      if is_nan hwm || SFltb hwm zero then Err (RangeError (str "Invalid highWaterMark")) else Ok hwm
  end.

(** InitializeWritableStream and SetUpWritableStreamDefaultController; the
    start algorithm returned a promise, the second of the store. *)
Definition set_up_controller (high_water_mark : f64) : st :=
  let s := mkSt [(ForOther, Fulfilled)] [] []
    (mkStream false None None None None Writable None [])
    (mkController true [] zero false high_water_mark) [] in
  let s := update_backpressure None (get_backpressure s) s in
  let '(rp, s) := new_promise ForSink s in
  upon_promise (promise rp) OnStart s.

Definition new (has_type : bool) (high_water_mark : option f64) : result value st :=
  if has_type then Err (RangeError (str "Invalid type is specified"))
  else let? hwm := extract_high_water_mark high_water_mark one in Ok (set_up_controller hwm).

(** ** Jobs *)

(** The callbacks; [None] is fulfillment, [Some reason] rejection. *)
Definition on_start (rejection : option value) (s : st) : option st :=
  let s := set_started true s in
  let w := writer (strm s) in
  match rejection with
  | None => advance_queue_if_needed w s
  | Some r => deal_with_rejection w r s
  end.

Definition on_write (rejection : option value) (s : st) : option st :=
  let w := writer (strm s) in
  match rejection with
  | None =>
      let! s := finish_in_flight_write s in
      let! (_, s) := dequeue_value s in
      let s := if negb (close_queued_or_in_flight s) && is_writable s
               then update_backpressure w (get_backpressure s) s else s in
      advance_queue_if_needed w s
  | Some reason =>
      let s := if is_writable s then clear_algorithms s else s in
      finish_in_flight_write_with_error w reason s
  end.

Definition on_close (w : option nat) (rejection : option value) (s : st) : option st :=
  match rejection with
  | None => finish_in_flight_close w s
  | Some reason => finish_in_flight_close_with_error w reason s
  end.

Definition on_abort (rp : resolveable) (rejection : option value) (s : st) : option st :=
  let s := match rejection with
           | None => resolve_undefined rp s
           | Some reason => reject rp reason s
           end in
  Some (reject_close_and_closed_promise_if_needed (writer (strm s)) s).

Definition react (r : reaction) (rejection : option value) (s : st) : option st :=
  match r with
  | OnStart => on_start rejection s
  | OnWrite => on_write rejection s
  | OnClose w => on_close w rejection s
  | OnAbort rp => on_abort rp rejection s
  end.

(** Run the reaction at an index if its promise is settled. *)
Definition run_job (i : nat) (s : st) : option st :=
  match reactions s !! i with
  | None => Some s
  | Some (p, r) =>
      let s' := set_reactions (delete i (reactions s)) s in
      match promises s !! p with
      | Some (_, Fulfilled) => react r None s'
      | Some (_, Rejected reason) => react r (Some reason) s'
      | _ => Some s
      end
  end.

(** The sink settles a promise it returned. *)
Definition settle_sink (p : nat) (rejection : option value) (s : st) : st :=
  match promises s !! p with
  | Some (ForSink, _) => settle p (match rejection with None => Fulfilled | Some r => Rejected r end) s
  | _ => s
  end.
