(* ===== verification/WritableInvariant.v ===== *)
(** * The invariant of writable streams

    What every reachable state of [WritableStream] satisfies, by induction on
    its steps, and what follows from it: no [expect] fails, the sink sees the
    chunks in order, and every request is settled in the end. *)
From stdpp Require Import base list numbers strings sets.
From Stdlib Require Import ZArith Lia SpecFloat.
From S2P Require Import Prelude F64 WritableStream.

(** ** Steps and reachable states *)

(** A call of the stream, a writer or the controller, a job, or the sink
    settling a promise.  A chunk is not the symbol the controller uses as its
    close sentinel. *)
Inductive step : st -> st -> Prop :=
| step_get_writer s i s' : set_up_writer s = Ok (i, s') -> step s s'
| step_stream_abort reason s p s' : stream_abort reason s = Some (p, s') -> step s s'
| step_stream_close s p s' : stream_close s = Some (p, s') -> step s s'
| step_writer_abort i reason s p s' : writer_abort i reason s = Some (p, s') -> step s s'
| step_writer_close i s p s' : writer_close i s = Some (p, s') -> step s s'
| step_release i s : step s (release_lock i s)
| step_write i chunk size s p s' :
    chunk <> CloseSentinel -> write i chunk size s = Some (p, s') -> step s s'
| step_error e s s' : error e s = Some s' -> step s s'
| step_settle p rejection s : step s (settle_sink p rejection s)
| step_job i s s' : run_job i s = Some s' -> step s s'.

Inductive reachable : st -> Prop :=
| reach_new high_water_mark s : new false high_water_mark = Ok s -> reachable s
| reach_step s s' : reachable s -> step s s' -> reachable s'.

(** ** The invariant *)

Inductive reaction_kind : Type := KStart | KWrite | KClose | KAbort.

Definition kind_eqb (a b : reaction_kind) : bool :=
  match a, b with
  | KStart, KStart | KWrite, KWrite | KClose, KClose | KAbort, KAbort => true
  | _, _ => false
  end.

Definition kind_of (r : nat * reaction) : reaction_kind :=
  match r.2 with
  | OnStart => KStart
  | OnWrite => KWrite
  | OnClose _ => KClose
  | OnAbort _ => KAbort
  end.

(** The number of reactions of a kind. *)
Definition cnt (k : reaction_kind) (rs : list (nat * reaction)) : nat :=
  length (filter (fun r => kind_eqb (kind_of r) k = true) rs).

Definition b2n (b : bool) : nat := if b then 1 else 0.

Definition olist {A} (o : option A) : list A := match o with Some a => [a] | None => [] end.

Definition aborts (rs : list (nat * reaction)) : list resolveable :=
  omap (fun r => match r.2 with OnAbort rp => Some rp | _ => None end) rs.

(** The promises of requests that are still to be settled. *)
Definition held (s : st) : list resolveable :=
  write_requests (strm s) ++ olist (in_flight_write_request (strm s)) ++
  olist (close_request (strm s)) ++ olist (in_flight_close_request (strm s)) ++
  olist (ab_promise <$> pending_abort_request (strm s)) ++ aborts (reactions s).

Definition req_pending (P : list (promise_kind * promise_state)) (p : nat) : Prop :=
  P !! p = Some (ForRequest, Pending).

(** Every pending request is among the given promises. *)
Definition tracked (rs : list resolveable) (P : list (promise_kind * promise_state)) : Prop :=
  forall p, req_pending P p -> exists rp, rp ∈ rs /\ promise rp = p.

Definition enqueued (l : list event) : list value :=
  omap (fun e => match e with Enqueued c => Some c | _ => None end) l.
Definition sink_writes (l : list event) : list value :=
  omap (fun e => match e with SinkWrite c => Some c | _ => None end) l.

(** What holds in every state, also in the middle of an operation. *)
Record base (s : st) : Prop := {
  b_start : cnt KStart (reactions s) = b2n (negb (started (ctrl s)));
  b_write : cnt KWrite (reactions s) = b2n (is_some (in_flight_write_request (strm s)));
  b_close : cnt KClose (reactions s) = b2n (is_some (in_flight_close_request (strm s)));
  b_excl : in_flight_write_request (strm s) = None \/ in_flight_close_request (strm s) = None;
  b_idle : started (ctrl s) = false ->
    in_flight_write_request (strm s) = None /\ in_flight_close_request (strm s) = None;
  b_closing : in_flight_close_request (strm s) <> None ->
    queue (ctrl s) = [] /\ write_requests (strm s) = [] /\ close_request (strm s) = None;
  b_queue : in_flight_write_request (strm s) <> None -> queue (ctrl s) <> [];
  b_abort : forall a, pending_abort_request (strm s) = Some a -> was_already_erroring a = false ->
    in_flight_close_request (strm s) = None -> algorithms (ctrl s) = true;
  b_settles : forall rp, rp ∈ held s -> settles rp = true;
  b_tracked : tracked (held s) (promises s);
  b_prefix : sink_writes (log s) `prefix_of` enqueued (log s);
  b_sink_close : SinkClose ∈ log s -> sink_writes (log s) = enqueued (log s);
}.

(** What holds in each state of the stream. *)
Definition shape (s : st) : Prop :=
  match state (strm s) with
  | Writable =>
      cnt KAbort (reactions s) = 0 /\ pending_abort_request (strm s) = None /\
      (in_flight_close_request (strm s) = None -> algorithms (ctrl s) = true) /\
      (SinkClose ∈ log s -> in_flight_close_request (strm s) <> None) /\
      exists chunks,
        queue (ctrl s) = chunks ++ (if is_some (close_request (strm s)) then [(CloseSentinel, zero)] else []) /\
        Forall (fun c => c.1 <> CloseSentinel) chunks /\
        length chunks =
          length (write_requests (strm s)) + b2n (is_some (in_flight_write_request (strm s))) /\
        enqueued (log s) = sink_writes (log s) ++
          (fst <$> drop (b2n (is_some (in_flight_write_request (strm s)))) chunks)
  | Erroring _ => cnt KAbort (reactions s) = 0
  | Errored _ =>
      started (ctrl s) = true /\
      in_flight_write_request (strm s) = None /\ in_flight_close_request (strm s) = None /\
      write_requests (strm s) = [] /\ queue (ctrl s) = [] /\ pending_abort_request (strm s) = None /\
      (close_request (strm s) <> None -> 0 < cnt KAbort (reactions s))
  | Closed =>
      started (ctrl s) = true /\
      in_flight_write_request (strm s) = None /\ in_flight_close_request (strm s) = None /\
      write_requests (strm s) = [] /\ queue (ctrl s) = [] /\ pending_abort_request (strm s) = None /\
      close_request (strm s) = None /\ cnt KAbort (reactions s) = 0
  end.

(** Nothing waits without a reaction that will take it up. *)
Definition progress (s : st) : Prop :=
  match state (strm s) with
  | Writable =>
      started (ctrl s) = true -> in_flight_write_request (strm s) = None -> queue (ctrl s) = []
  | Erroring _ =>
      started (ctrl s) = false \/ in_flight_write_request (strm s) <> None \/
      in_flight_close_request (strm s) <> None
  | _ => True
  end.

Definition inv (s : st) : Prop := base s /\ shape s /\ progress s.

(** How much work is left: each job makes it smaller. *)
Definition work (s : st) : nat :=
  3 * length (queue (ctrl s)) + 3 * b2n (negb (started (ctrl s))) + length (reactions s).

Arguments cnt : simpl never.
Arguments aborts : simpl never.
Arguments enqueued : simpl never.
Arguments sink_writes : simpl never.
Arguments tracked : simpl never.

(** ** Operations on promises and writers leave the rest alone *)

Definition with_pw (P : list (promise_kind * promise_state)) (W : list default_writer) (s : st) : st :=
  mkSt P (reactions s) W (strm s) (ctrl s) (log s).

(** Compute projections and assignments. *)
Ltac proj :=
  unfold upon_promise, new_request, new_promise, reset_queue, clear_algorithms, set_backpressure, set_close_request, set_in_flight_write_request,
    set_in_flight_close_request, set_pending_abort_request, set_state, set_writer,
    set_write_requests, set_algorithms, set_queue, set_queue_total_size, set_started,
    set_promises, set_reactions, set_writers, set_strm, set_ctrl, push_log, with_pw;
  cbv beta zeta;
  cbn [promises reactions writers strm ctrl log backpressure close_request in_flight_write_request
    in_flight_close_request pending_abort_request state writer write_requests algorithms queue
    queue_total_size started strategy_hwm is_some b2n negb andb orb fst snd].

(** Membership in lists built with [app] and [cons]. *)
Ltac mem :=
  cbn [olist fmap option_fmap option_map app];
  repeat (rewrite elem_of_app || rewrite elem_of_cons || rewrite elem_of_nil); intuition auto.

(** The same for the promises held. *)
Ltac proj_held := unfold held; proj; cbn [olist fmap option_fmap option_map app].

(** [s'] differs from [s] in promises and writers only, and no request
    promise has become pending. *)
Definition only_pw (s s' : st) : Prop :=
  s' = with_pw (promises s') (writers s') s /\ forall p, req_pending (promises s') p -> req_pending (promises s) p.

#[export] Instance only_pw_preorder : PreOrder only_pw.
Proof.
  split.
  - intros [P R W x y L]. by split.
  - intros [P1 R1 W1 x1 y1 L1] [P2 R2 W2 x2 y2 L2] [P3 R3 W3 x3 y3 L3] [E1 H1] [E2 H2].
    unfold with_pw in *. cbn in *. simplify_eq. split; [done|]. intros p Hp. by apply H1, H2.
Qed.

Lemma settle_pw p r s :
  r <> Pending -> only_pw s (settle p r s) /\ ~ req_pending (promises (settle p r s)) p.
Proof.
  intros Hr. unfold settle, req_pending. destruct (promises s !! p) as [[k []]|] eqn:Hp;
    try (split; [reflexivity|unfold req_pending; by rewrite Hp]).
  assert (Hlt : p < length (promises s)) by (by eapply lookup_lt_Some).
  split; [split|].
  - by destruct s.
  - unfold req_pending. cbn. intros q. destruct (decide (q = p)) as [->|Hne].
    + rewrite list_lookup_insert_eq by done. by intros [= _ ->].
    + by rewrite list_lookup_insert_ne.
  - cbn. rewrite list_lookup_insert_eq by done. intros [= _ ->]. done.
Qed.

Lemma resolve_pw rp s : only_pw s (resolve_undefined rp s).
Proof. unfold resolve_undefined. destruct (settles rp); [by apply settle_pw|done]. Qed.

Lemma reject_pw rp v s : only_pw s (reject rp v s).
Proof. unfold reject. destruct (settles rp); [by apply settle_pw|done]. Qed.

Lemma reject_all_pw e rs s : only_pw s (reject_all e rs s).
Proof.
  unfold reject_all. revert s. induction rs as [|r rs IH]; intros s; cbn [foldl]; [done|].
  etrans; [apply reject_pw|apply IH].
Qed.

Lemma add_promise_pw k r s : (k, r) <> (ForRequest, Pending) ->
  only_pw s (set_promises (promises s ++ [(k, r)]) s).
Proof.
  intros Hk. split; [by destruct s|]. unfold req_pending. cbn. intros p Hp.
  apply lookup_app_Some in Hp as [Hp|[_ Hp]]; [done|].
  apply list_lookup_singleton_Some in Hp as [_ Hp]. by simplify_eq.
Qed.

Lemma rejected_with_pw v s : only_pw s (rejected_with v s).2.
Proof. by apply add_promise_pw. Qed.

Lemma set_writers_pw W s : only_pw s (set_writers W s).
Proof. by destruct s. Qed.

Lemma with_writer_pw w f s :
  (forall wr s, only_pw s (f wr s).2) -> only_pw s (with_writer w f s).
Proof.
  intros Hf. unfold with_writer. destruct w as [i|]; [|done].
  destruct (writers s !! i) as [wr|]; [|done]. specialize (Hf wr s).
  destruct (f wr s) as [wr' s']. cbn [snd] in Hf. etrans; [exact Hf|]. apply set_writers_pw.
Qed.

Lemma ensure_ready_pw e wr s : only_pw s (ensure_ready_promise_rejected e wr s).2.
Proof.
  unfold ensure_ready_promise_rejected. destruct (is_pending _ _); [apply reject_pw|].
  pose proof (rejected_with_pw e s) as Hr. by destruct (rejected_with e s).
Qed.

Lemma ensure_closed_pw e wr s : only_pw s (ensure_closed_promise_rejected e wr s).2.
Proof.
  unfold ensure_closed_promise_rejected. destruct (is_pending _ _); [apply reject_pw|].
  pose proof (rejected_with_pw e s) as Hr. by destruct (rejected_with e s).
Qed.

#[export] Hint Resolve resolve_pw reject_pw reject_all_pw rejected_with_pw set_writers_pw
  ensure_ready_pw ensure_closed_pw : llrt.

(** *** Settling removes a promise from those to be tracked *)

Lemma tracked_incl rs rs' P : (forall rp, rp ∈ rs -> rp ∈ rs') -> tracked rs P -> tracked rs' P.
Proof. intros Hi Ht p Hp. destruct (Ht p Hp) as (rp & Hin & E). exists rp. auto. Qed.

Lemma tracked_settle rp rs r s :
  r <> Pending -> tracked (rp :: rs) (promises s) -> tracked rs (promises (settle (promise rp) r s)).
Proof.
  intros Hr Ht p Hp. destruct (settle_pw (promise rp) r s Hr) as [[_ Hpw] Hn].
  destruct (Ht p (Hpw p Hp)) as (rp' & Hin & <-). apply elem_of_cons in Hin as [->|Hin]; [done|].
  by exists rp'.
Qed.

Lemma tracked_reject rp rs v s :
  settles rp = true -> tracked (rp :: rs) (promises s) -> tracked rs (promises (reject rp v s)).
Proof. intros Hs. unfold reject. rewrite Hs. by apply tracked_settle. Qed.

Lemma tracked_resolve rp rs s :
  settles rp = true -> tracked (rp :: rs) (promises s) -> tracked rs (promises (resolve_undefined rp s)).
Proof. intros Hs. unfold resolve_undefined. rewrite Hs. by apply tracked_settle. Qed.

Lemma tracked_reject_all e rs rs' s :
  (forall rp, rp ∈ rs -> settles rp = true) -> tracked (rs ++ rs') (promises s) ->
  tracked rs' (promises (reject_all e rs s)).
Proof.
  unfold reject_all. revert s. induction rs as [|r rs IH]; intros s Hs Ht; cbn [foldl]; [done|].
  apply IH; [intros rp Hrp; apply Hs; by right|]. apply tracked_reject; [apply Hs; by left|done].
Qed.

(** A new promise of a request is to be tracked, others are not. *)
Lemma tracked_new rs P :
  tracked rs P -> tracked (mkRp (length P) true :: rs) (P ++ [(ForRequest, Pending)]).
Proof.
  intros Ht p Hp. apply lookup_app_Some in Hp as [Hp|[Hge Hp]].
  - destruct (Ht p Hp) as (rp & Hin & E). exists rp. split; [by right|done].
  - apply list_lookup_singleton_Some in Hp as [Hz _].
    exists (mkRp (length P) true). split; [by left|]. cbn. lia.
Qed.

Lemma tracked_other rs P k r :
  (k, r) <> (ForRequest, Pending) -> tracked rs P -> tracked rs (P ++ [(k, r)]).
Proof.
  intros Hk Ht p Hp. apply lookup_app_Some in Hp as [Hp|[_ Hp]]; [by apply Ht|].
  by apply list_lookup_singleton_Some in Hp as [_ Hp].
Qed.

Lemma pw_elim s s' : only_pw s s' ->
  exists P W, s' = with_pw P W s /\ forall rs, tracked rs (promises s) -> tracked rs P.
Proof.
  intros [E Hp]. exists (promises s'), (writers s'). split; [done|].
  intros rs Ht p Hq. by apply Ht, Hp.
Qed.

(** *** Counting *)

Lemma cnt_app k rs rs' : cnt k (rs ++ rs') = cnt k rs + cnt k rs'.
Proof. unfold cnt. by rewrite filter_app, length_app. Qed.

Lemma aborts_app rs rs' : aborts (rs ++ rs') = aborts rs ++ aborts rs'.
Proof. apply omap_app. Qed.

Lemma sink_writes_app l l' : sink_writes (l ++ l') = sink_writes l ++ sink_writes l'.
Proof. apply omap_app. Qed.

Lemma enqueued_app l l' : enqueued (l ++ l') = enqueued l ++ enqueued l'.
Proof. apply omap_app. Qed.

Lemma aborts_one p r : aborts [(p, r)] = match r with OnAbort rp => [rp] | _ => [] end.
Proof. by destruct r. Qed.

Lemma cnt_one k p r : cnt k [(p, r)] = b2n (kind_eqb (kind_of (p, r)) k).
Proof. by destruct r, k. Qed.

Lemma sink_writes_one e : sink_writes [e] = match e with SinkWrite c => [c] | _ => [] end.
Proof. by destruct e. Qed.

Lemma enqueued_one e : enqueued [e] = match e with Enqueued c => [c] | _ => [] end.
Proof. by destruct e. Qed.

Lemma sink_close_snoc l e : SinkClose ∈ l ++ [e] <-> SinkClose ∈ l \/ e = SinkClose.
Proof. rewrite elem_of_app, list_elem_of_singleton. intuition congruence. Qed.

(** Compute what a new reaction or event adds. *)
Ltac norm :=
  rewrite ?cnt_app, ?aborts_app, ?sink_writes_app, ?enqueued_app, ?aborts_one, ?cnt_one,
    ?sink_writes_one, ?enqueued_one, ?sink_close_snoc; cbn [kind_of kind_eqb b2n snd]; cbv match;
  rewrite ?app_nil_r, ?Nat.add_0_r.

(** ** Errors keep the invariant *)

(** The last step of an error: the close request and the closed promise. *)
Lemma reject_close_inv w s e :
  state (strm s) = Errored e -> started (ctrl s) = true ->
  in_flight_write_request (strm s) = None -> in_flight_close_request (strm s) = None ->
  write_requests (strm s) = [] -> queue (ctrl s) = [] -> pending_abort_request (strm s) = None ->
  base s ->
  let s' := reject_close_and_closed_promise_if_needed w s in
  inv s' /\ ctrl s' = ctrl s /\ reactions s' = reactions s /\ log s' = log s.
Proof.
  destruct s as [P R W [bp cr ifw ifc pa stt wr wrs] [alg q tot star hwm] L]. proj.
  intros -> -> -> -> -> -> ->. intros [B1 B2 B3 B4 B5 B6 B7 B8 B9 B10 B11 B12].
  unfold held in *. cbn in * |-.
  unfold reject_close_and_closed_promise_if_needed. proj.
  set (s0 := mkSt P R W _ _ L). change (stored_error s0) with e.
  set (s1 := match cr with Some r => _ | None => _ end).
  assert (H1 : exists P' W', s1 = mkSt P' R W'
      (mkStream bp None None None None (Errored e) wr []) (mkController alg [] tot true hwm) L /\
      tracked (aborts R) P').
  { unfold s1. destruct cr as [r|]; [|by exists P, W].
    assert (Hr : settles r = true) by (apply B9; mem). pose proof (tracked_reject r _ e s0 Hr B10) as Ht.
    destruct (pw_elim s0 (reject r e s0)) as (P' & W' & E & _); [auto with llrt|].
    rewrite E in Ht |- *. exists P', W'. split; [done|]. exact Ht. }
  destruct H1 as (P' & W' & E & Ht). clearbody s1.
  destruct (pw_elim s1 (with_writer w (fun wr s => (wr, reject (closed_promise wr) (stored_error s) s)) s1))
    as (P2 & W2 & -> & Hpw).
  { apply with_writer_pw. intros. cbn. auto with llrt. }
  subst s1. apply Hpw in Ht. unfold with_pw in *. proj. split; [|done]. split; [|by split].
  constructor; proj_held; try done. intros rp Hin. apply B9. revert Hin. mem.
Qed.

Lemma finish_erroring_inv w e s :
  base s -> started (ctrl s) = true ->
  in_flight_write_request (strm s) = None -> in_flight_close_request (strm s) = None ->
  exists s', finish_erroring w e s = Some s' /\ inv s' /\ queue (ctrl s') = [] /\
    started (ctrl s') = true /\ length (reactions s') <= S (length (reactions s)) /\
    (pending_abort_request (strm s) = None -> reactions s' = reactions s).
Proof.
  destruct s as [P R W [bp cr ifw ifc pa stt wr wrs] [alg q tot star hwm] L]. proj.
  intros [B1 B2 B3 B4 B5 B6 B7 B8 B9 B10 B11 B12] -> -> ->. unfold held in *. cbn in * |-.
  set (s0 := mkSt P R W (mkStream bp cr None None pa (Errored e) wr wrs)
    (mkController alg [] zero true hwm) L).
  unfold finish_erroring. cbv zeta. change (reset_queue (set_state (Errored e) _)) with s0.
  change (write_requests (strm s0)) with wrs.
  pose proof (tracked_reject_all e wrs _ s0 (fun rp H => B9 rp ltac:(mem)) B10) as Ht.
  destruct (pw_elim s0 (reject_all e wrs s0)) as (P1 & W1 & E & _); [auto with llrt|].
  rewrite E in *. unfold with_pw, s0 in *. cbn in Ht. proj. clear E s0.
  destruct pa as [a|]; proj.
  - cbn in B9, Ht. destruct (was_already_erroring a) eqn:Ha; proj.
    + set (s1 := mkSt P1 R W1 _ _ L).
      assert (Hr : settles (ab_promise a) = true) by (apply B9; mem).
      assert (Ht1 : tracked (ab_promise a :: olist cr ++ aborts R) (promises s1)).
      { eapply tracked_incl; [|exact Ht]. intros rp. mem. }
      apply (tracked_reject _ _ e) in Ht1; [|done].
      destruct (pw_elim s1 (reject (ab_promise a) e s1)) as (P2 & W2 & E & _); [auto with llrt|].
      rewrite E in Ht1 |- *. cbn in Ht1.
      destruct (reject_close_inv w (with_pw P2 W2 s1) e) as (Hinv & Hc & Hre & Hl); try reflexivity.
      { constructor; unfold s1; proj_held; try done. intros rp Hin. apply B9. revert Hin. mem. }
      exists (reject_close_and_closed_promise_if_needed w (with_pw P2 W2 s1)).
      split; [reflexivity|]. rewrite Hc, Hre. split_and!; try done. cbn. lia.
    + unfold abort_steps, sink_call. proj. rewrite (B8 a) by done. cbn.
      eexists. split; [done|]. cbn. split_and!; [|done..|rewrite length_app; cbn; lia|done].
      split; [|split; [|done]].
      * constructor; proj_held; norm; try done.
        -- intros rp Hin. apply B9. revert Hin. mem.
        -- apply tracked_other; [done|]. eapply tracked_incl; [|exact Ht]. intros rp. mem.
        -- intros [Hin|Hin]; [by apply B12|done].
      * cbn. split_and!; try done. intros _. rewrite cnt_app, cnt_one. cbn. lia.
  - destruct (reject_close_inv w (mkSt P1 R W1 (mkStream bp cr None None None (Errored e) wr [])
      (mkController alg [] zero true hwm) L) e) as (Hinv & Hc & Hre & Hl); try reflexivity.
    { constructor; proj_held; try done. intros rp Hin. apply B9. revert Hin. mem. }
    eexists. split; [reflexivity|]. rewrite Hc, Hre. split_and!; try done. cbn. lia.
Qed.

Lemma base_pw s s' : only_pw s s' -> base s -> base s'.
Proof.
  intros Hpw [B1 B2 B3 B4 B5 B6 B7 B8 B9 B10 B11 B12].
  destruct (pw_elim s s' Hpw) as (P & W & -> & Ht). constructor; proj; try done. by apply Ht.
Qed.

Lemma inv_pw s s' : only_pw s s' -> inv s -> inv s'.
Proof.
  intros Hpw (Hb & Hs & Hp). split; [by eapply base_pw|].
  destruct (pw_elim s s' Hpw) as (P & W & -> & _). unfold shape, progress in *. proj. done.
Qed.

(** The invariant does not mention the writer or the backpressure. *)
Lemma inv_fields b w s : inv s -> inv (set_writer w (set_backpressure b s)).
Proof.
  intros ([B1 B2 B3 B4 B5 B6 B7 B8 B9 B10 B11 B12] & Hs & Hp). split; [|done].
  constructor; proj; done.
Qed.

(** What an error does to the rest of the work. *)
Definition error_post (s s' : st) : Prop :=
  started (ctrl s') = started (ctrl s) /\ length (queue (ctrl s')) <= length (queue (ctrl s)) /\
  length (reactions s') <= S (length (reactions s)) /\
  (pending_abort_request (strm s) = None -> reactions s' = reactions s) /\
  (started (ctrl s) = true -> in_flight_write_request (strm s) = None ->
   in_flight_close_request (strm s) = None -> queue (ctrl s') = []).

Lemma start_erroring_inv w r s :
  base s -> cnt KAbort (reactions s) = 0 ->
  exists s', start_erroring w r s = Some s' /\ inv s' /\ error_post s s'.
Proof.
  intros Hb Hab. unfold start_erroring.
  assert (Hb1 : base (set_state (Erroring r) s)).
  { destruct Hb as [B1 B2 B3 B4 B5 B6 B7 B8 B9 B10 B11 B12]. constructor; proj; done. }
  set (s1 := set_state (Erroring r) s) in *.
  assert (Hpw : only_pw s1 (with_writer w (ensure_ready_promise_rejected r) s1))
    by (apply with_writer_pw; intros; auto with llrt).
  apply (base_pw _ _ Hpw) in Hb1. destruct (pw_elim _ _ Hpw) as (P' & W' & E & _). rewrite E in *.
  clear E Hpw Hb. unfold s1 in *. clear s1.
  destruct s as [P R W [bp cr ifw ifc pa stt wr wrs] [alg q tot star hwm] L].
  unfold has_operation_marked_in_flight, error_post, inv, shape, progress. proj.
  destruct ifw as [rw|]; [|destruct ifc as [rc|]; [|destruct star]]; proj.
  3:{ destruct (finish_erroring_inv w r _ Hb1) as (s' & Hf & Hi & Hq & Hst & Hr & Hpa); try done.
      exists s'. split; [exact Hf|]. split; [exact Hi|]. rewrite Hq, Hst.
      split_and!; try done; cbn; cbn in Hr; lia. }
  all: eexists; (split; [done|]); proj; split_and!; try done; try lia; try (exact Hb1); try congruence;
    auto.
Qed.

Lemma deal_with_rejection_inv w r s :
  base s ->
  (state (strm s) = Writable /\ cnt KAbort (reactions s) = 0 \/ exists e, state (strm s) = Erroring e /\ started (ctrl s) = true /\
    in_flight_write_request (strm s) = None /\ in_flight_close_request (strm s) = None) ->
  exists s', deal_with_rejection w r s = Some s' /\ inv s' /\ error_post s s'.
Proof.
  intros Hb Hs. unfold deal_with_rejection. destruct Hs as [[-> Hab]|(e & -> & Hs & Hw & Hc)].
  - by apply start_erroring_inv.
  - destruct (finish_erroring_inv w e s Hb Hs Hw Hc) as (s' & -> & Hi & Hq & Hst & Hr & Hpa).
    exists s'. split; [done|]. split; [done|]. unfold error_post. rewrite Hq, Hst, Hs.
    split_and!; try done; cbn; lia.
Qed.

(** ** Advancing the queue *)

Definition advance_post (s s' : st) : Prop :=
  started (ctrl s') = started (ctrl s) /\ length (queue (ctrl s')) <= length (queue (ctrl s)) /\
  length (reactions s') <= S (length (reactions s)).

Lemma error_advance s s' : error_post s s' -> advance_post s s'.
Proof. unfold error_post, advance_post. tauto. Qed.

Lemma process_write_inv chunk size rest s :
  base s -> shape s -> state (strm s) = Writable -> started (ctrl s) = true ->
  in_flight_write_request (strm s) = None -> queue (ctrl s) = (chunk, size) :: rest ->
  chunk <> CloseSentinel ->
  exists s', process_write chunk s = Some s' /\ inv s' /\ advance_post s s'.
Proof.
  destruct s as [P R W [bp cr ifw ifc pa stt wr wrs] [alg q tot star hwm] L]. unfold shape. proj.
  intros [B1 B2 B3 B4 B5 B6 B7 B8 B9 B10 B11 B12] Hsh -> -> -> -> Hch. unfold held in *. cbn in * |-.
  destruct Hsh as (Hab & -> & Halg & Hcl & chunks & Hq & Hsent & Hlen & Henq).
  assert (ifc = None) as ->.
  { destruct ifc; [|done]. destruct (B6 ltac:(done)) as [? _]. done. }
  destruct chunks as [|[c sz] chunks].
  { destruct cr; cbn in Hq; [|done]. injection Hq as -> _ _. done. }
  cbn in Hq. injection Hq as -> -> Hq. cbn in Hlen. rewrite Nat.add_0_r in Hlen.
  destruct wrs as [|r wrs]; [done|]. cbn in Hlen. injection Hlen as Hlen.
  unfold process_write, mark_first_write_request_in_flight, sink_call. proj.
  rewrite (Halg eq_refl). proj. eexists. split; [done|].
  split; [|unfold advance_post; proj; split_and!; [done..|rewrite length_app; cbn; lia]].
  cbn in Henq. split; [|split].
  - constructor; proj_held; norm; rewrite ?B1, ?B2, ?B3; try done.
    + by right.
    + intros rp Hin. apply B9. revert Hin. mem.
    + apply tracked_other; [done|]. eapply tracked_incl; [|exact B10]. intros rp. mem.
    + rewrite Henq. exists (fst <$> chunks). by rewrite <- (assoc_L (++)).
    + intros [Hin|Hin]; [|done]. by destruct (Hcl Hin).
  - unfold shape. proj. norm. split_and!; try done.
    + intros [Hin|Hin]; [by destruct (Hcl Hin)|done].
    + exists ((c, sz) :: chunks). cbn. split_and!; try done.
      * by rewrite Hq.
      * rewrite Hlen. lia.
      * rewrite Henq. by rewrite <- (assoc_L (++)).
  - unfold progress. proj. done.
Qed.

Lemma process_close_inv w size rest s :
  base s -> shape s -> state (strm s) = Writable -> started (ctrl s) = true ->
  in_flight_write_request (strm s) = None -> queue (ctrl s) = (CloseSentinel, size) :: rest ->
  exists s', process_close w s = Some s' /\ inv s' /\ advance_post s s'.
Proof.
  destruct s as [P R W [bp cr ifw ifc pa stt wr wrs] [alg q tot star hwm] L]. unfold shape. proj.
  intros [B1 B2 B3 B4 B5 B6 B7 B8 B9 B10 B11 B12] Hsh -> -> -> ->. unfold held in *. cbn in * |-.
  destruct Hsh as (Hab & -> & Halg & Hcl & chunks & Hq & Hsent & Hlen & Henq).
  assert (ifc = None) as ->.
  { destruct ifc; [|done]. destruct (B6 ltac:(done)) as [? _]. done. }
  destruct chunks as [|[c sz] chunks].
  2:{ cbn in Hq. injection Hq as <- _ _. by apply Forall_cons_1 in Hsent as [? _]. }
  destruct cr as [r|]; cbn in Hq; [|done]. injection Hq as -> ->. cbn in Hlen, Henq.
  rewrite app_nil_r in Henq. destruct wrs; [|done].
  unfold process_close, mark_close_request_in_flight, dequeue_value, sink_call. proj.
  rewrite (Halg eq_refl). proj. eexists. split; [done|].
  split; [|unfold advance_post; proj; split_and!; [done|cbn; lia|rewrite length_app; cbn; lia]].
  split; [|split].
  - constructor; proj_held; norm; rewrite ?B1, ?B2, ?B3; try done.
    + by left.
    + apply tracked_other; [done|]. eapply tracked_incl; [|exact B10]. intros rp. mem.
  - unfold shape. proj. norm. split_and!; try done.
    exists []. cbn. split_and!; try done. by rewrite app_nil_r.
  - unfold progress. proj. done.
Qed.

Lemma advance_inv w s :
  base s -> shape s ->
  (forall e, state (strm s) = Erroring e -> started (ctrl s) = true ->
    in_flight_write_request (strm s) = None -> in_flight_close_request (strm s) = None) ->
  exists s', advance_queue_if_needed w s = Some s' /\ inv s' /\ advance_post s s'.
Proof.
  intros Hb Hs He. unfold advance_queue_if_needed.
  assert (Hsame : progress s -> exists s', Some s = Some s' /\ inv s' /\ advance_post s s').
  { intros Hp. exists s. split; [done|]. split; [done|]. unfold advance_post. split_and!; [done|lia..]. }
  destruct (started (ctrl s)) eqn:Hst; proj.
  2:{ apply Hsame. unfold progress. rewrite Hst. by destruct (state (strm s)); auto. }
  destruct (in_flight_write_request (strm s)) as [r|] eqn:Hw; proj.
  { apply Hsame. unfold progress. rewrite Hw. by destruct (state (strm s)); auto. }
  destruct (state (strm s)) as [| |e|e] eqn:Hstate.
  - destruct (queue (ctrl s)) as [|[v size] rest] eqn:Hq.
    { apply Hsame. unfold progress. by rewrite Hstate, Hq. }
    destruct (bool_decide_reflect (v = CloseSentinel)) as [->|Hv];
      [by eapply process_close_inv|by eapply process_write_inv].
  - unfold shape in Hs. rewrite Hstate in Hs. destruct Hs as (_ & _ & _ & _ & -> & _).
    apply Hsame. unfold progress. by rewrite Hstate.
  - destruct (finish_erroring_inv w e s Hb Hst Hw) as (s' & -> & Hi & Hq & Hs' & Hr & _); [by eapply He|].
    exists s'. split; [done|]. split; [done|]. unfold advance_post. rewrite Hq, Hs', Hst. split_and!; [done|cbn; lia..].
  - unfold shape in Hs. rewrite Hstate in Hs. destruct Hs as (_ & _ & _ & _ & -> & _).
    apply Hsame. unfold progress. by rewrite Hstate.
Qed.

(** [update_backpressure] touches promises, writers and the flag. *)
Lemma update_backpressure_pw w b s :
  exists b', only_pw (set_backpressure b' s) (update_backpressure w b s).
Proof.
  unfold update_backpressure. destruct (is_writable s); cbn [negb].
  - exists b. match goal with |- context [with_writer w ?f s] => set (g := f) end.
    assert (Hpw : only_pw s (with_writer w g s)).
    { apply with_writer_pw. intros wr s0. unfold g. destruct (negb _); [|done].
      destruct b; [by apply add_promise_pw|apply resolve_pw]. }
    destruct Hpw as [E Hp]. set (s1 := with_writer w g s) in *.
    split; [|exact Hp]. rewrite E. done.
  - exists (backpressure (strm s)). by destruct s as [P R W [] C L].
Qed.

Lemma base_bp b s : base s -> base (set_backpressure b s).
Proof. intros [B1 B2 B3 B4 B5 B6 B7 B8 B9 B10 B11 B12]. constructor; proj; done. Qed.

Lemma shape_pw s s' : only_pw s s' -> shape s -> shape s'.
Proof.
  intros Hpw Hs. destruct (pw_elim s s' Hpw) as (P & W & -> & _). unfold shape in *. proj. done.
Qed.

(** Updating the backpressure and advancing the queue. *)
Lemma update_advance_inv w b (upd : bool) s :
  base s -> shape s ->
  (forall e, state (strm s) = Erroring e -> started (ctrl s) = true ->
    in_flight_write_request (strm s) = None -> in_flight_close_request (strm s) = None) ->
  exists s', advance_queue_if_needed w (if upd then update_backpressure w b s else s) = Some s' /\
    inv s' /\ advance_post s s'.
Proof.
  intros Hb Hs He. destruct upd; [|by apply advance_inv].
  destruct (update_backpressure_pw w b s) as [b' Hpw].
  destruct (advance_inv w (update_backpressure w b s)) as (s' & Ha & Hi & Hp).
  - eapply base_pw; [exact Hpw|]. by apply base_bp.
  - eapply shape_pw; [exact Hpw|]. exact Hs.
  - destruct (pw_elim _ _ Hpw) as (P & W & -> & _). exact He.
  - exists s'. split; [done|]. split; [done|]. unfold advance_post in *.
    destruct (pw_elim _ _ Hpw) as (P & W & E & _). rewrite E in Hp. exact Hp.
Qed.

(** ** Jobs keep the invariant and reduce the work *)

Lemma cnt_middle k A r B :
  cnt k (A ++ r :: B) = b2n (kind_eqb (kind_of r) k) + cnt k (A ++ B).
Proof.
  change (A ++ r :: B) with (A ++ [r] ++ B). rewrite !cnt_app. destruct r as [p r].
  rewrite cnt_one. lia.
Qed.

Lemma aborts_middle A r B rp :
  rp ∈ aborts (A ++ r :: B) <-> rp ∈ aborts [r] \/ rp ∈ aborts (A ++ B).
Proof.
  change (A ++ r :: B) with (A ++ [r] ++ B). rewrite !aborts_app, !elem_of_app. tauto.
Qed.

(** Taking a reaction that is not of an abort out of the list. *)
Lemma held_middle A p r B s :
  reactions s = A ++ (p, r) :: B -> kind_of (p, r) <> KAbort ->
  forall rp, rp ∈ held (set_reactions (A ++ B) s) <-> rp ∈ held s.
Proof.
  intros HR Hk rp. unfold held. rewrite HR. proj. rewrite !elem_of_app, aborts_middle.
  destruct r; try done; rewrite aborts_one, elem_of_nil; tauto.
Qed.

Lemma on_start_inv A p B rejection s :
  inv s -> reactions s = A ++ (p, OnStart) :: B ->
  exists s', on_start rejection (set_reactions (A ++ B) s) = Some s' /\ inv s' /\ work s' < work s.
Proof.
  intros ([B1 B2 B3 B4 B5 B6 B7 B8 B9 B10 B11 B12] & Hs & Hp) HR.
  pose proof (held_middle A p OnStart B s HR ltac:(done)) as Hh.
  rewrite HR, !cnt_middle in *. cbn in B1, B2, B3.
  destruct (started (ctrl s)) eqn:Hst; [done|]. destruct (B5 eq_refl) as [Hw Hc].
  set (s0 := set_started true (set_reactions (A ++ B) s)).
  assert (Hb : base s0).
  { constructor; unfold s0; proj; rewrite ?Hw, ?Hc in *; try done.
    - by injection B1.
    - intros rp Hin. apply B9, Hh. exact Hin.
    - eapply tracked_incl; [|exact B10]. intros rp Hin. by apply Hh. }
  assert (Hsh : shape s0).
  { unfold s0, shape in *. rewrite HR in Hs. proj. destruct (state (strm s)) eqn:Hstate;
      rewrite ?cnt_middle in Hs; first [exact Hs|destruct Hs as (Hs & _); congruence]. }
  assert (Hwork : forall s', advance_post s0 s' -> work s' < work s).
  { intros s' (E1 & E2 & E3). unfold work, s0 in *. rewrite E1, HR, Hst. revert E2 E3. proj.
    rewrite !length_app. cbn. lia. }
  unfold on_start. fold s0. destruct rejection as [r|].
  - destruct (deal_with_rejection_inv (writer (strm s0)) r s0 Hb) as (s' & He & Hi & Hpost).
    + unfold shape, s0 in Hsh |- *. proj. revert Hsh. proj.
      destruct (state (strm s)) as [| |e|e] eqn:Hstate; intros Hsh.
      * left. split; [done|apply Hsh].
      * unfold shape in Hs. rewrite Hstate, Hst in Hs. by destruct Hs.
      * right. by exists e.
      * unfold shape in Hs. rewrite Hstate, Hst in Hs. by destruct Hs.
    + exists s'. split; [exact He|]. split; [done|]. by apply Hwork, error_advance.
  - destruct (advance_inv (writer (strm s0)) s0 Hb Hsh) as (s' & He & Hi & Hpost).
    + intros e _ _ _. exact Hc.
    + exists s'. split; [exact He|]. split; [done|]. by apply Hwork.
Qed.

Lemma on_abort_inv A p rp B rejection s :
  inv s -> reactions s = A ++ (p, OnAbort rp) :: B ->
  exists s', on_abort rp rejection (set_reactions (A ++ B) s) = Some s' /\ inv s' /\ work s' < work s.
Proof.
  destruct s as [P R W [bp cr ifw ifc pa stt wr wrs] [alg q tot star hwm] L].
  intros ([B1 B2 B3 B4 B5 B6 B7 B8 B9 B10 B11 B12] & Hs & Hp). proj. intros ->.
  unfold held in *. unfold shape in Hs. cbn in * |-. rewrite !cnt_middle in *.
  destruct stt as [| |e|e]; cbn in Hs;
    [by destruct Hs|by destruct Hs as (_ & _ & _ & _ & _ & _ & _ & ?)|done|].
  destruct Hs as (-> & -> & -> & -> & -> & -> & _). cbn in * |-.
  assert (Hrp : settles rp = true).
  { apply B9. rewrite elem_of_app, aborts_middle, aborts_one, elem_of_cons. tauto. }
  set (s0 := mkSt P (A ++ B) W (mkStream bp cr None None None (Errored e) wr [])
    (mkController alg [] tot true hwm) L).
  assert (Ht : tracked (rp :: olist cr ++ aborts (A ++ B)) (promises s0)).
  { eapply tracked_incl; [|exact B10]. intros rp'.
    rewrite !elem_of_cons, !elem_of_app, aborts_middle, aborts_one, elem_of_cons, elem_of_nil. tauto. }
  set (s1 := match rejection with None => resolve_undefined rp s0 | Some r => reject rp r s0 end).
  assert (Hpw : only_pw s0 s1) by (unfold s1; destruct rejection; auto with llrt).
  assert (Ht1 : tracked (olist cr ++ aborts (A ++ B)) (promises s1)).
  { unfold s1. destruct rejection; [by apply tracked_reject|by apply tracked_resolve]. }
  destruct (pw_elim _ _ Hpw) as (P1 & W1 & E & _).
  assert (Hb : base s1).
  { rewrite E in Ht1 |- *. unfold s0 in *. constructor; proj_held; try done.
    intros rp'. rewrite elem_of_app. intros Hin. apply B9. rewrite elem_of_app, aborts_middle. tauto. }
  destruct (reject_close_inv (writer (strm s1)) s1 e) as (Hi & Hc & Hr & _);
    [rewrite E; reflexivity..|done|].
  eexists. split; [reflexivity|]. split; [exact Hi|]. unfold work. cbv zeta in Hc, Hr.
  change (match rejection with Some reason => _ | None => _ end) with s1.
  rewrite Hc, Hr, E. cbn. rewrite !length_app. cbn. lia.
Qed.

Lemma on_write_ok_inv A p B s :
  inv s -> reactions s = A ++ (p, OnWrite) :: B ->
  exists s', on_write None (set_reactions (A ++ B) s) = Some s' /\ inv s' /\ work s' < work s.
Proof.
  destruct s as [P R W [bp cr ifw ifc pa stt wr wrs] [alg q tot star hwm] L].
  intros ([B1 B2 B3 B4 B5 B6 B7 B8 B9 B10 B11 B12] & Hs & Hp). proj. intros ->.
  unfold held in *. unfold shape in Hs. cbn in * |-. rewrite !cnt_middle in *.
  destruct ifw as [r|]; [|done]. assert (ifc = None) as -> by (by destruct B4).
  destruct star; [|by destruct (B5 eq_refl)]. cbn in * |-.
  destruct q as [|[v size] q]; [by destruct B7|].
  assert (Hr : settles r = true) by (apply B9; mem).
  set (s0 := mkSt P (A ++ B) W (mkStream bp cr None None pa stt wr wrs)
    (mkController alg ((v, size) :: q) tot true hwm) L).
  assert (Ht : tracked (wrs ++ olist cr ++ olist (ab_promise <$> pa) ++ aborts (A ++ B))
    (promises (resolve_undefined r s0))).
  { apply tracked_resolve; [done|]. eapply tracked_incl; [|exact B10]. intros rp.
    repeat (rewrite elem_of_app || rewrite elem_of_cons || rewrite aborts_middle || rewrite aborts_one).
    rewrite elem_of_nil. tauto. }
  destruct (pw_elim s0 (resolve_undefined r s0)) as (P1 & W1 & E & _); [auto with llrt|].
  unfold on_write, finish_in_flight_write. proj. fold s0. rewrite E in Ht |- *.
  unfold with_pw, s0 in *. cbn in Ht. unfold dequeue_value. proj.
  set (total := if SFltb _ _ then zero else _).
  match goal with |- context [advance_queue_if_needed wr ?t] =>
    match t with if ?u then update_backpressure wr ?b ?s1 else _ =>
      destruct (update_advance_inv wr b u s1) as (s' & He & Hi & Hpost) end end.
  - constructor; proj_held; try done; try (by left); try (by cbn in *; lia).
    intros rp Hin. apply B9. revert Hin.
    repeat (rewrite elem_of_app || rewrite elem_of_cons || rewrite aborts_middle). tauto.
  - unfold shape. proj. destruct stt as [| |e|e]; try done.
    + destruct Hs as (Hab & -> & Halg & Hcl & chunks & Hq & Hsent & Hlen & Henq).
      split_and!; try done. destruct chunks as [|[c sz] chunks]; [cbn in Hlen; lia|].
      cbn in Hq. injection Hq as -> -> ->. exists chunks. apply Forall_cons_1 in Hsent as [_ Hsent].
      cbn in Hlen, Henq. split_and!; [done..|lia|done].
    + by destruct Hs as (_ & ? & _).
    + by destruct Hs as (_ & ? & _).
  - done.
  - exists s'. split; [exact He|]. split; [done|]. destruct Hpost as (E1 & E2 & E3).
    unfold work. rewrite E1. revert E2 E3. proj. rewrite !length_app. cbn. lia.
Qed.

Lemma on_write_err_inv A p B reason s :
  inv s -> reactions s = A ++ (p, OnWrite) :: B ->
  exists s', on_write (Some reason) (set_reactions (A ++ B) s) = Some s' /\ inv s' /\ work s' < work s.
Proof.
  destruct s as [P R W [bp cr ifw ifc pa stt wr wrs] [alg q tot star hwm] L].
  intros ([B1 B2 B3 B4 B5 B6 B7 B8 B9 B10 B11 B12] & Hs & Hp). proj. intros ->.
  unfold held in *. unfold shape in Hs. cbn in * |-. rewrite !cnt_middle in *.
  destruct ifw as [r|]; [|done]. assert (ifc = None) as -> by (by destruct B4).
  destruct star; [|by destruct (B5 eq_refl)]. cbn in * |-.
  assert (Hq : q <> []) by (by apply B7).
  assert (Hr : settles r = true) by (apply B9; mem).
  set (alg' := match stt with Writable => false | _ => alg end).
  set (s0 := mkSt P (A ++ B) W (mkStream bp cr None None pa stt wr wrs)
    (mkController alg' q tot true hwm) L).
  assert (Ht : tracked (wrs ++ olist cr ++ olist (ab_promise <$> pa) ++ aborts (A ++ B))
    (promises (reject r reason s0))).
  { apply tracked_reject; [done|]. eapply tracked_incl; [|exact B10]. intros rp.
    repeat (rewrite elem_of_app || rewrite elem_of_cons || rewrite aborts_middle || rewrite aborts_one).
    rewrite elem_of_nil. tauto. }
  destruct (pw_elim s0 (reject r reason s0)) as (P1 & W1 & E & _); [auto with llrt|].
  assert (Hrun : on_write (Some reason) (mkSt P (A ++ B) W
      (mkStream bp cr (Some r) None pa stt wr wrs) (mkController alg q tot true hwm) L) =
    deal_with_rejection wr reason (reject r reason s0)).
  { unfold on_write, is_writable. proj. unfold alg', s0. destruct stt; reflexivity. }
  proj. rewrite Hrun, E. unfold with_pw, s0 in *. rewrite E in Ht. cbn in Ht. proj.
  assert (Hstt : stt = Writable \/ exists e, stt = Erroring e).
  { destruct stt as [| |e|e]; [by left| |right; by exists e|]; by destruct Hs as (_ & ? & _). }
  match goal with |- context [deal_with_rejection wr reason ?t] =>
    destruct (deal_with_rejection_inv wr reason t) as (s' & He & Hi & Hpost) end.
  - constructor; proj_held; try done; try (by left); try (by cbn in *; lia).
    + intros a Ha Hwas _. unfold alg'. destruct Hstt as [->|[e ->]]; [|by apply (B8 a)].
      destruct Hs as (_ & -> & _). done.
    + intros rp Hin. apply B9. revert Hin.
      repeat (rewrite elem_of_app || rewrite elem_of_cons || rewrite aborts_middle). tauto.
  - proj. destruct Hstt as [->|[e ->]]; [left; by destruct Hs|right; by exists e].
  - exists s'. split; [exact He|]. split; [done|]. destruct Hpost as (E1 & E2 & E3 & _ & E4).
    unfold work. rewrite E1, E4 by done. revert E3. proj. rewrite !length_app.
    destruct q; [done|]. cbn. lia.
Qed.

Lemma on_close_inv A p w B rejection s :
  inv s -> reactions s = A ++ (p, OnClose w) :: B ->
  exists s', on_close w rejection (set_reactions (A ++ B) s) = Some s' /\ inv s' /\ work s' < work s.
Proof.
  destruct s as [P R W [bp cr ifw ifc pa stt wr wrs] [alg q tot star hwm] L].
  intros ([B1 B2 B3 B4 B5 B6 B7 B8 B9 B10 B11 B12] & Hs & Hp). proj. intros ->.
  unfold held in *. unfold shape in Hs. cbn in * |-. rewrite !cnt_middle in *.
  destruct ifc as [r|]; [|done]. assert (ifw = None) as -> by (by destruct B4).
  destruct star; [|by destruct (B5 eq_refl)]. cbn in * |-.
  destruct (B6 ltac:(done)) as (-> & -> & ->). clear B6. cbn in * |-.
  assert (Hstt : stt = Writable /\ pa = None \/ exists e, stt = Erroring e).
  { destruct stt as [| |e|e]; [left; by destruct Hs as (_ & ? & _)| |right; by exists e|];
      by destruct Hs as (_ & _ & ? & _). }
  assert (Hab : cnt KAbort (A ++ B) = 0).
  { destruct Hstt as [[-> _]|[e ->]]; [by destruct Hs|done]. }
  assert (Hr : settles r = true) by (apply B9; mem).
  set (s0 := mkSt P (A ++ B) W (mkStream bp None None None pa stt wr [])
    (mkController alg [] tot true hwm) L).
  (* the close request and then the pending abort are settled *)
  assert (Hsettle : forall f g : resolveable -> st -> st,
    (forall rp s, only_pw s (f rp s)) -> (forall rp s, only_pw s (g rp s)) ->
    (forall rp rs s, settles rp = true -> tracked (rp :: rs) (promises s) -> tracked rs (promises (f rp s))) ->
    (forall rp rs s, settles rp = true -> tracked (rp :: rs) (promises s) -> tracked rs (promises (g rp s))) ->
    exists P1 W1, tracked (aborts (A ++ B)) P1 /\
      match pa with
      | Some a => g (ab_promise a) (set_pending_abort_request None (f r s0))
      | None => f r s0
      end = mkSt P1 (A ++ B) W1 (mkStream bp None None None None stt wr [])
              (mkController alg [] tot true hwm) L).
  { intros f g Hf Hg Hft Hgt.
    assert (Ht : tracked (olist (ab_promise <$> pa) ++ aborts (A ++ B)) (promises (f r s0))).
    { apply Hft; [done|]. eapply tracked_incl; [|exact B10]. intros rp.
      repeat (rewrite elem_of_app || rewrite elem_of_cons || rewrite aborts_middle || rewrite aborts_one).
      rewrite elem_of_nil. tauto. }
    destruct (pw_elim s0 (f r s0) (Hf r s0)) as (P1 & W1 & E & _).
    rewrite E in Ht |- *. unfold with_pw, s0 in *. cbn in Ht. destruct pa as [a|]; proj; [|by exists P1, W1].
    set (s1 := mkSt P1 (A ++ B) W1 (mkStream bp None None None None stt wr [])
      (mkController alg [] tot true hwm) L).
    assert (Ha : settles (ab_promise a) = true) by (apply B9; mem).
    pose proof (Hgt (ab_promise a) _ s1 Ha Ht) as Ht2.
    destruct (pw_elim s1 (g (ab_promise a) s1) (Hg _ s1)) as (P2 & W2 & E2 & _).
    rewrite E2 in Ht2 |- *. by exists P2, W2. }
  assert (Hbase : forall P1 W1 pa', tracked (aborts (A ++ B)) P1 -> pa' = None ->
    base (mkSt P1 (A ++ B) W1 (mkStream bp None None None pa' stt wr [])
      (mkController alg [] tot true hwm) L)).
  { intros P1 W1 pa' Ht ->. constructor; proj_held; try done; try (by left); try (by cbn in *; lia).
    intros rp Hin. apply B9. rewrite !elem_of_cons, elem_of_app, aborts_middle. tauto. }
  destruct rejection as [reason|].
  - unfold on_close, finish_in_flight_close_with_error. cbn [in_flight_close_request strm set_reactions].
    match goal with |- context [set_in_flight_close_request None ?t] =>
      change (set_in_flight_close_request None t) with s0 end. cbv zeta.
    destruct (Hsettle (fun rp s => reject rp reason s) (fun rp s => reject rp reason s))
      as (P1 & W1 & Ht & E); [auto with llrt..|intros; by apply tracked_reject|intros; by apply tracked_reject|].
    assert (Hpa : pending_abort_request (strm (reject r reason s0)) = pa).
    { by destruct (pw_elim s0 (reject r reason s0)) as (? & ? & -> & _); [auto with llrt|]. }
    rewrite Hpa, E.
    destruct (deal_with_rejection_inv w reason (mkSt P1 (A ++ B) W1
      (mkStream bp None None None None stt wr []) (mkController alg [] tot true hwm) L))
      as (s' & He & Hi & Hpost).
    + by apply Hbase.
    + proj. destruct Hstt as [[-> _]|[e ->]]; [by left|right; by exists e].
    + exists s'. split; [exact He|]. split; [done|]. destruct Hpost as (E1 & E2 & _ & E3 & _).
      unfold work. rewrite E1, E3 by done. revert E2. proj. rewrite !length_app. cbn. lia.
  - unfold on_close, finish_in_flight_close. cbn [in_flight_close_request strm set_reactions].
    match goal with |- context [set_in_flight_close_request None ?t] =>
      change (set_in_flight_close_request None t) with s0 end. cbv zeta.
    destruct (Hsettle resolve_undefined resolve_undefined) as (P1 & W1 & Ht & E);
      [auto with llrt..|intros; by apply tracked_resolve|intros; by apply tracked_resolve|].
    assert (Hf : state (strm (resolve_undefined r s0)) = stt /\
      pending_abort_request (strm (resolve_undefined r s0)) = pa).
    { by destruct (pw_elim s0 (resolve_undefined r s0)) as (? & ? & -> & _); [auto with llrt|]. }
    destruct Hf as [Hf1 Hf2]. rewrite Hf1, Hf2.
    match goal with |- context [set_state Closed ?t] =>
      assert (Ht' : set_state Closed t = mkSt P1 (A ++ B) W1 (mkStream bp None None None None Closed wr [])
        (mkController alg [] tot true hwm) L) end.
    { clearbody s0. by destruct Hstt as [[-> ->]|[e ->]]; rewrite E. }
    rewrite Ht'. eexists. split; [reflexivity|]. 
    match goal with |- context [with_writer w ?f ?t] => set (s1 := t); set (g := f) end.
    assert (Hpw : only_pw s1 (with_writer w g s1)).
    { apply with_writer_pw. intros. unfold g. cbn. auto with llrt. }
    split.
    + eapply inv_pw; [exact Hpw|]. split; [|split; [|done]].
      * constructor; unfold s1; proj_held; try done; try (by left); try (by cbn in *; lia).
        intros rp Hin. apply B9. rewrite !elem_of_cons, elem_of_app, aborts_middle. tauto.
      * unfold shape, s1. proj. done.
    + destruct (pw_elim _ _ Hpw) as (P2 & W2 & -> & _). unfold work, s1. proj. rewrite !length_app. cbn. lia.
Qed.

(** The promise of the reaction is settled. *)
Definition runnable (i : nat) (s : st) : Prop :=
  exists p r k x, reactions s !! i = Some (p, r) /\ promises s !! p = Some (k, x) /\ x <> Pending.

(** Every job succeeds, keeps the invariant and, if it runs, reduces the work. *)
Lemma run_job_inv i s :
  inv s -> exists s', run_job i s = Some s' /\ inv s' /\ (runnable i s -> work s' < work s).
Proof.
  intros Hi. unfold run_job, runnable. destruct (reactions s !! i) as [[p r]|] eqn:HR.
  2:{ exists s. split; [done|]. split; [done|]. by intros (? & ? & ? & ? & ? & _). }
  assert (HR' : reactions s = take i (reactions s) ++ (p, r) :: drop (S i) (reactions s))
    by (symmetry; by apply take_drop_middle).
  rewrite delete_take_drop.
  assert (Hreact : forall rej, exists s',
    react r rej (set_reactions (take i (reactions s) ++ drop (S i) (reactions s)) s) = Some s' /\
    inv s' /\ work s' < work s).
  { intros rej. destruct r as [| |w|rp]; cbn [react].
    - by eapply on_start_inv.
    - destruct rej; [by eapply on_write_err_inv|by eapply on_write_ok_inv].
    - by eapply on_close_inv.
    - by eapply on_abort_inv. }
  destruct (promises s !! p) as [[k [| |reason]]|] eqn:Hp.
  - exists s. split; [done|]. split; [done|]. intros (p' & r' & k' & x & E1 & E2 & Hx). congruence.
  - destruct (Hreact None) as (s' & He & Hi' & Hw). exists s'. by split_and!.
  - destruct (Hreact (Some reason)) as (s' & He & Hi' & Hw). exists s'. by split_and!.
  - exists s. split; [done|]. split; [done|]. intros (p' & r' & k' & x & E1 & E2 & Hx). congruence.
Qed.

(** ** Calls keep the invariant *)

(** A call that returns a promise: it does not panic and keeps the invariant. *)
Definition keeps (o : option (nat * st)) : Prop := exists p s', o = Some (p, s') /\ inv s'.

Lemma rejected_promise_keeps v s : inv s -> keeps (Some (rejected_promise v s)).
Proof.
  intros Hi. eexists _, _. split; [reflexivity|]. eapply inv_pw; [|exact Hi]. by apply add_promise_pw.
Qed.

Lemma abort_keeps w reason s : inv s -> keeps (writable_stream_abort w reason s).
Proof.
  destruct s as [P R W [bp cr ifw ifc pa stt wr wrs] [alg q tot star hwm] L].
  intros Hi. pose proof Hi as ([B1 B2 B3 B4 B5 B6 B7 B8 B9 B10 B11 B12] & Hs & Hp).
  unfold writable_stream_abort, keeps. unfold shape, progress, held in *. cbn in * |-. proj.
  destruct stt as [| |e|e]; [|by eexists _, _| |by eexists _, _];
    (destruct pa as [a|]; [by eexists _, _|]); proj.
  - set (a := mkAbort _ _ _).
    match goal with |- context [start_erroring w reason ?t] =>
      destruct (start_erroring_inv w reason t) as (s' & He & Hi' & _) end.
    + constructor; proj_held; try done.
      * intros a' [= <-] _ Hc. apply Hs, Hc.
      * intros rp Hin. destruct (decide (rp = mkRp (length P) true)) as [->|Hne]; [done|].
        apply B9. revert Hin. mem.
      * eapply tracked_incl; [|apply (tracked_new _ _ B10)]. intros rp. mem.
    + by destruct Hs.
    + rewrite He. by eexists _, _.
  - eexists _, _. split; [reflexivity|]. split; [|by split].
    constructor; proj_held; try done.
    + by intros a' [= <-].
    + intros rp Hin. destruct (decide (rp = mkRp (length P) true)) as [->|Hne]; [done|].
      apply B9. revert Hin. mem.
    + eapply tracked_incl; [|apply (tracked_new _ _ B10)]. intros rp. mem.
Qed.

Lemma request_close_keeps w s :
  inv s -> close_queued_or_in_flight s = false ->
  (state (strm s) = Writable \/ exists e, state (strm s) = Erroring e) -> keeps (request_close w s).
Proof.
  destruct s as [P R W [bp cr ifw ifc pa stt wr wrs] [alg q tot star hwm] L].
  intros ([B1 B2 B3 B4 B5 B6 B7 B8 B9 B10 B11 B12] & Hs & _).
  unfold close_queued_or_in_flight. proj. intros [Hcr Hifc]%orb_false_iff Hstt.
  destruct cr; [done|]. destruct ifc; [done|]. clear Hcr Hifc B6.
  unfold request_close. unfold shape, held in *. cbn in * |-. proj.
  match goal with |- context [with_writer w ?f ?t] => set (s1 := t); set (g := f) end.
  assert (Hpw : only_pw s1 (with_writer w g s1)).
  { apply with_writer_pw. intros wr0 s0. unfold g. cbn [snd]. destruct (_ && _); [apply resolve_pw|done]. }
  assert (Ht1 : tracked (mkRp (length P) true :: wrs ++ olist ifw ++ olist (ab_promise <$> pa) ++ aborts R)
    (promises s1)) by (eapply tracked_incl; [|apply (tracked_new _ _ B10)]; intros rp; mem).
  destruct (pw_elim _ _ Hpw) as (P1 & W1 & E & Ht). apply Ht in Ht1. rewrite E. clear Ht E Hpw.
  unfold controller_close. cbn [enqueue_value_with_size is_non_negative_number is_nan SFltb SFcompare
    is_infinite zero]. unfold s1. proj.
  match goal with |- context [advance_queue_if_needed w ?t] =>
    destruct (advance_inv w t) as (s' & He & Hi' & _); [| | |rewrite He; by eexists _, _] end.
  - constructor; proj_held; try done.
    + intros Hw. apply B7 in Hw. by destruct q.
    + intros rp Hin. destruct (decide (rp = mkRp (length P) true)) as [->|Hne]; [done|].
      apply B9. revert Hin. mem.
    + eapply tracked_incl; [|exact Ht1]. intros rp. mem.
  - unfold shape. proj. destruct Hstt as [->|[e ->]]; [|done].
    destruct Hs as (Hab & -> & Halg & Hcl & chunks & -> & Hsent & Hlen & Henq).
    split_and!; try done. exists chunks. rewrite app_nil_r. by split_and!.
  - proj. done.
Qed.

Lemma close_keeps w s :
  inv s -> close_queued_or_in_flight s = false -> keeps (writable_stream_close w s).
Proof.
  intros Hi Hc. unfold writable_stream_close.
  destruct (state (strm s)) as [| |e|e] eqn:Hs; try by apply rejected_promise_keeps.
  - apply request_close_keeps; auto.
  - apply request_close_keeps; eauto.
Qed.

Lemma error_if_needed_inv w e s :
  inv s -> exists s', controller_error_if_needed w e s = Some s' /\ inv s'.
Proof.
  intros ([B1 B2 B3 B4 B5 B6 B7 B8 B9 B10 B11 B12] & Hs & Hp).
  unfold controller_error_if_needed, is_writable, controller_error.
  destruct (state (strm s)) eqn:Hst; [|by exists s..].
  unfold shape in Hs. rewrite Hst in Hs. destruct Hs as (Hab & Hpa & _).
  destruct (start_erroring_inv w e (clear_algorithms s)) as (s' & -> & Hi & _); [|done|by exists s'].
  constructor; proj; try done. intros a. by rewrite Hpa.
Qed.

Lemma controller_write_keeps w chunk size s :
  inv s -> chunk <> CloseSentinel -> state (strm s) = Writable -> close_queued_or_in_flight s = false ->
  keeps (let '(p, s) := add_write_request s in
         let! s := controller_write w chunk size s in Some (p, s)).
Proof.
  destruct s as [P R W [bp cr ifw ifc pa stt wr wrs] [alg q tot star hwm] L].
  intros ([B1 B2 B3 B4 B5 B6 B7 B8 B9 B10 B11 B12] & Hs & _) Hch.
  unfold close_queued_or_in_flight. proj. intros -> [Hcr Hifc]%orb_false_iff.
  destruct cr; [done|]. destruct ifc; [done|]. clear Hcr Hifc B6.
  unfold add_write_request, keeps. unfold shape, held in *. cbn in * |-. proj.
  destruct Hs as (Hab & -> & Halg & Hcl & chunks & -> & Hsent & Hlen & Henq). rewrite app_nil_r in *.
  assert (Hset : forall rp, rp ∈ (wrs ++ [mkRp (length P) true]) ++ olist ifw ++ aborts R ->
    settles rp = true).
  { intros rp Hin. destruct (decide (rp = mkRp (length P) true)) as [->|Hne]; [done|].
    apply B9. revert Hin. mem. }
  assert (Htr : tracked ((wrs ++ [mkRp (length P) true]) ++ olist ifw ++ aborts R)
    (P ++ [(ForRequest, Pending)])).
  { eapply tracked_incl; [|apply (tracked_new _ _ B10)]. intros rp. mem. }
  set (s0 := mkSt (P ++ [(ForRequest, Pending)]) R W
    (mkStream bp None ifw None None Writable wr (wrs ++ [mkRp (length P) true]))
    (mkController alg chunks tot star hwm) L).
  assert (Herr : forall e, exists s', controller_error_if_needed w e s0 = Some s' /\ inv s').
  { intros e. destruct (start_erroring_inv w e (clear_algorithms s0)) as (s' & He & Hi & _);
      [|done|by exists s']. constructor; unfold s0; proj_held; done. }
  unfold controller_write, enqueue_value_with_size.
  destruct (is_non_negative_number size) as [size'|]; [destruct (is_infinite size')|].
  2:{ unfold s0. proj. match goal with |- context [advance_queue_if_needed w ?t] =>
        match t with if ?u then update_backpressure w ?b ?s1 else _ =>
        destruct (update_advance_inv w b u s1) as (s' & He & Hi & _); [| | |rewrite He; by eexists _, _]
        end end.
      - constructor; proj_held; norm; try done.
        + intros Hw. by destruct chunks.
        + rewrite Henq, <- (assoc_L (++)). by eexists.
        + intros [Hin|Hin]; [|done]. by destruct (Hcl Hin).
      - unfold shape. proj. norm. split_and!; try done.
        + intros [Hin|Hin]; [by destruct (Hcl Hin)|done].
        + exists (chunks ++ [(chunk, size')]). split_and!.
          * by rewrite app_nil_r.
          * apply Forall_app. by split; [|constructor].
          * rewrite !length_app. cbn. lia.
          * rewrite Henq. rewrite drop_app_le by (rewrite Hlen; lia).
            by rewrite fmap_app, (assoc_L (++)).
      - done. }
  all: destruct (Herr size_error) as (s' & -> & Hi); by eexists _, _.
Qed.

Lemma write_keeps i chunk size s : inv s -> chunk <> CloseSentinel -> keeps (write i chunk size s).
Proof.
  intros Hi Hch. unfold write. destruct (attached_writer i s); cbn [negb];
    [|by apply rejected_promise_keeps].
  unfold default_writer_write.
  assert (Hsize : exists size' s', get_chunk_size (Some i) size s = Some (size', s') /\ inv s').
  { unfold get_chunk_size. destruct (if algorithms (ctrl s) then _ else _) as [sz|reason]; [by eexists _, _|].
    destruct (error_if_needed_inv (Some i) reason s Hi) as (s' & -> & Hi'). by eexists _, _. }
  destruct Hsize as (size' & s' & -> & Hi'). destruct (negb (attached_writer i s'));
    [by apply rejected_promise_keeps|].
  destruct (state (strm s')) as [| |e|e] eqn:Hs, (close_queued_or_in_flight s') eqn:Hc;
    try by apply rejected_promise_keeps.
  by apply controller_write_keeps.
Qed.

Lemma set_up_writer_inv s i s' : inv s -> set_up_writer s = Ok (i, s') -> inv s'.
Proof.
  intros Hi. unfold set_up_writer. destruct (is_writable_stream_locked s); [done|].
  set (t := match state (strm s) with Writable => _ | _ => _ end).
  assert (Hpw : only_pw s t.2).
  { unfold t. destruct (state (strm s)) as [| |e|e].
    - destruct (_ && _); cbn [new_promise snd fst]; [|by apply add_promise_pw].
      etrans; [apply (add_promise_pw ForOther Pending s); done|].
      by apply (add_promise_pw ForOther Pending).
    - done.
    - cbn [rejected_with new_promise snd fst].
      etrans; [apply (add_promise_pw ForOther (Rejected e) s); done|].
      by apply (add_promise_pw ForOther Pending).
    - by apply add_promise_pw. }
  destruct t as [[ready closed] s1]. cbn [snd] in Hpw. intros [= _ <-].
  assert (Hi1 : inv (set_writers (writers s1 ++ [mkWriter ready closed true]) s1)).
  { eapply inv_pw; [|exact Hi]. etrans; [exact Hpw|apply set_writers_pw]. }
  pose proof (inv_fields (backpressure (strm s1)) (Some (length (writers s1))) _ Hi1) as Hf.
  by destruct s1 as [P R W [] C L].
Qed.

Lemma release_inv i s : inv s -> inv (release_lock i s).
Proof.
  intros Hi. unfold release_lock, writer_release. destruct (attached_writer i s); cbn [negb]; [|done].
  set (s1 := with_writer (Some i) (ensure_ready_promise_rejected released_error) s).
  set (s2 := with_writer (Some i) (ensure_closed_promise_rejected released_error) s1).
  assert (Hi2 : inv s2).
  { eapply inv_pw; [|exact Hi]. unfold s2, s1.
    etrans; apply with_writer_pw; intros; auto with llrt. }
  pose proof (inv_fields (backpressure (strm s2)) None _ Hi2) as Hf.
  eapply inv_pw; [apply with_writer_pw; intros; done|]. 
  clearbody s2. by destruct s2 as [P R W [] C L].
Qed.

Lemma settle_sink_inv p rejection s : inv s -> inv (settle_sink p rejection s).
Proof.
  intros Hi. unfold settle_sink. destruct (promises s !! p) as [[[] x]|]; try done.
  eapply inv_pw; [|exact Hi]. by destruct rejection; apply settle_pw.
Qed.

Lemma error_inv e s : inv s -> exists s', error e s = Some s' /\ inv s'.
Proof.
  intros Hi. unfold error. destruct (is_writable s) eqn:Hw; cbn [negb]; [|by exists s].
  destruct (error_if_needed_inv (writer (strm s)) e s Hi) as (s' & He & Hi').
  unfold controller_error_if_needed in He. rewrite Hw in He. by exists s'.
Qed.

Lemma new_inv hwm s : new false hwm = Ok s -> inv s.
Proof.
  unfold new. destruct (extract_high_water_mark hwm one) as [h|]; [|done]. intros [= <-].
  unfold set_up_controller. cbn -[get_backpressure]. split; [|split].
  - constructor; try done; cbn; try (by left).
    + intros rp Hin. by apply elem_of_nil in Hin.
    + intros [|[|p]]; cbn; done.
  - unfold shape. cbn. split_and!; try done; [by rewrite elem_of_nil|]. by exists [].
  - unfold progress. cbn. done.
Qed.

Lemma stream_abort_keeps reason s : inv s -> keeps (stream_abort reason s).
Proof.
  intros Hi. unfold stream_abort. destruct (is_writable_stream_locked s);
    [by apply rejected_promise_keeps|by apply abort_keeps].
Qed.

Lemma writer_abort_keeps i reason s : inv s -> keeps (writer_abort i reason s).
Proof.
  intros Hi. unfold writer_abort. destruct (negb (attached_writer i s));
    [by apply rejected_promise_keeps|by apply abort_keeps].
Qed.

Lemma stream_close_keeps s : inv s -> keeps (stream_close s).
Proof.
  intros Hi. unfold stream_close. destruct (is_writable_stream_locked s);
    [by apply rejected_promise_keeps|].
  destruct (close_queued_or_in_flight s) eqn:Hc; [by apply rejected_promise_keeps|by apply close_keeps].
Qed.

Lemma writer_close_keeps i s : inv s -> keeps (writer_close i s).
Proof.
  intros Hi. unfold writer_close. destruct (negb (attached_writer i s));
    [by apply rejected_promise_keeps|].
  destruct (close_queued_or_in_flight s) eqn:Hc; [by apply rejected_promise_keeps|by apply close_keeps].
Qed.

Lemma step_inv s s' : inv s -> step s s' -> inv s'.
Proof.
  intros Hi Hstep. destruct Hstep as [s i s' H|reason s p s' H|s p s' H|i reason s p s' H|i s p s' H
    |i s|i chunk size s p s' Hc H|e s s' H|p rej s|i s s' H].
  - by eapply set_up_writer_inv.
  - destruct (stream_abort_keeps reason s Hi) as (? & ? & ? & ?). congruence.
  - destruct (stream_close_keeps s Hi) as (? & ? & ? & ?). congruence.
  - destruct (writer_abort_keeps i reason s Hi) as (? & ? & ? & ?). congruence.
  - destruct (writer_close_keeps i s Hi) as (? & ? & ? & ?). congruence.
  - by apply release_inv.
  - destruct (write_keeps i chunk size s Hi Hc) as (? & ? & ? & ?). congruence.
  - destruct (error_inv e s Hi) as (? & ? & ?). congruence.
  - by apply settle_sink_inv.
  - destruct (run_job_inv i s Hi) as (? & ? & ? & _). congruence.
Qed.

Lemma writable_reachable_inv s : reachable s -> inv s.
Proof. induction 1; [by eapply new_inv|by eapply step_inv]. Qed.

(** ** Promises keep what they were made for *)

(** The promises of the writes that are queued or in flight. *)
Definition writes (s : st) : list resolveable :=
  write_requests (strm s) ++ olist (in_flight_write_request (strm s)).

(** Promises are never removed or made for something else, a settled
    promise stays as it is, a new reaction waits for a promise of the sink, a new
    write has a promise of a request, and writers stay attached or detached. *)
Record grows (s s' : st) : Prop := {
  g_promises : forall p k x, promises s !! p = Some (k, x) -> exists x', promises s' !! p = Some (k, x');
  g_settled : forall p k x, promises s !! p = Some (k, x) -> x <> Pending -> promises s' !! p = Some (k, x);
  g_reactions : forall r, r ∈ reactions s' ->
    r ∈ reactions s \/ exists x, promises s' !! r.1 = Some (ForSink, x);
  g_writes : forall rp, rp ∈ writes s' ->
    rp ∈ writes s \/ exists x, promises s' !! promise rp = Some (ForRequest, x);
  g_attached : attached <$> writers s' = attached <$> writers s;
  g_writer : writer (strm s') = writer (strm s);
}.

#[export] Instance grows_preorder : PreOrder grows.
Proof.
  split.
  - intros s. split; eauto.
  - intros s1 s2 s3 [P1 S1 R1 W1 A1 C1] [P2 S2 R2 W2 A2 C2]. split; [|by auto| | |congruence..].
    + intros p k x Hp. destruct (P1 p k x Hp) as [x' Hp']. by apply (P2 p k x').
    + intros r Hr. destruct (R2 r Hr) as [Hr2|?]; [|by right].
      destruct (R1 r Hr2) as [?|[x Hx]]; [by left|]. right. by apply (P2 _ _ x).
    + intros r Hr. destruct (W2 r Hr) as [Hr2|?]; [|by right].
      destruct (W1 r Hr2) as [?|[x Hx]]; [by left|]. right. by apply (P2 _ _ x).
Qed.

Lemma grows_same s s' :
  promises s' = promises s -> reactions s' = reactions s -> attached <$> writers s' = attached <$> writers s ->
  writer (strm s') = writer (strm s) -> (forall rp, rp ∈ writes s' -> rp ∈ writes s) -> grows s s'.
Proof. intros HP HR HA HC HW. split; try done; rewrite ?HP, ?HR; eauto. Qed.

(** Assignments to other fields, or moving a write from the queue. *)
Ltac same := apply grows_same; [reflexivity..|intros rp; unfold writes; proj; try done; mem].

Lemma grows_append l s : grows s (set_promises (promises s ++ l) s).
Proof.
  split; [| |by left|by left|done..]; proj; intros p k x Hp; [exists x|intros _]; apply lookup_app_Some; by left.
Qed.

Lemma grows_settle p r s : grows s (settle p r s).
Proof.
  unfold settle. destruct (promises s !! p) as [[k []]|] eqn:Hp; try reflexivity.
  split; [| |by left|by left|done..]; proj;
    [|intros q k' x Hq Hx; rewrite list_lookup_insert_ne; [done|]; intros ->; congruence].
  intros q k' x Hq. destruct (decide (q = p)) as [->|Hne].
  - rewrite Hp in Hq. injection Hq as <- <-. exists r.
    apply list_lookup_insert_eq. by eapply lookup_lt_Some.
  - exists x. by rewrite list_lookup_insert_ne.
Qed.

Lemma grows_resolve rp s : grows s (resolve_undefined rp s).
Proof. unfold resolve_undefined. destruct (settles rp); [apply grows_settle|done]. Qed.

Lemma grows_reject rp v s : grows s (reject rp v s).
Proof. unfold reject. destruct (settles rp); [apply grows_settle|done]. Qed.

Lemma grows_reject_all e rs s : grows s (reject_all e rs s).
Proof.
  unfold reject_all. revert s. induction rs as [|r rs IH]; intros s; cbn [foldl]; [done|].
  etrans; [apply grows_reject|apply IH].
Qed.

Lemma grows_with_writer w f s :
  (forall wr s, grows s (f wr s).2 /\ attached (f wr s).1 = attached wr) -> grows s (with_writer w f s).
Proof.
  intros Hf. unfold with_writer. destruct w as [i|]; [|done].
  destruct (writers s !! i) as [wr|] eqn:Hi; [|done]. destruct (Hf wr s) as [Hg Ha]. clear Hf.
  destruct (f wr s) as [wr' s']. cbn [fst snd] in *. etrans; [exact Hg|].
  apply grows_same; try done. cbn. rewrite list_fmap_insert. apply list_insert_id.
  by rewrite (g_attached _ _ Hg), list_lookup_fmap, Hi, Ha.
Qed.

Lemma grows_ensure_ready e wr s :
  grows s (ensure_ready_promise_rejected e wr s).2 /\
  attached (ensure_ready_promise_rejected e wr s).1 = attached wr.
Proof.
  unfold ensure_ready_promise_rejected.
  destruct (is_pending _ _); (split; [apply grows_reject || apply grows_append|done]).
Qed.

Lemma grows_ensure_closed e wr s :
  grows s (ensure_closed_promise_rejected e wr s).2 /\
  attached (ensure_closed_promise_rejected e wr s).1 = attached wr.
Proof.
  unfold ensure_closed_promise_rejected.
  destruct (is_pending _ _); (split; [apply grows_reject || apply grows_append|done]).
Qed.

Lemma grows_update_backpressure w b s : grows s (update_backpressure w b s).
Proof.
  unfold update_backpressure. destruct (is_writable s); cbn [negb]; [|done].
  match goal with |- grows s (set_backpressure b ?t) => trans t; [|same] end.
  apply grows_with_writer. intros wr s0. destruct (negb _); [|done].
  destruct b; (split; [apply grows_append || apply grows_resolve|done]).
Qed.

Lemma grows_sink_call e r s p s' :
  sink_call e s = Some (p, s') -> grows s (upon_promise p r s').
Proof.
  unfold sink_call. destruct (algorithms (ctrl s)); [|done]. intros [= <- <-]. split; [| | |by left|done..].
  - intros q k x Hq. exists x. apply lookup_app_Some. by left.
  - intros q k x Hq _. apply lookup_app_Some. by left.
  - intros r0 Hr. apply elem_of_app in Hr as [Hr|Hr%list_elem_of_singleton]; [by left|].
    subst r0. right. exists Pending. cbn. by rewrite lookup_app_r, Nat.sub_diag by lia.
Qed.

#[export] Hint Resolve grows_append grows_resolve grows_reject grows_reject_all grows_ensure_ready
  grows_ensure_closed grows_update_backpressure grows_settle : llrt.

Lemma grows_reject_close w s : grows s (reject_close_and_closed_promise_if_needed w s).
Proof.
  unfold reject_close_and_closed_promise_if_needed.
  etrans; [|apply grows_with_writer; intros; cbn; split; auto with llrt].
  destruct (close_request (strm s)) as [r|]; [|done].
  etrans; [apply (grows_reject r (stored_error s))|same].
Qed.

Lemma grows_finish_erroring w e s s' : finish_erroring w e s = Some s' -> grows s s'.
Proof.
  unfold finish_erroring.
  set (s1 := set_write_requests [] _).
  assert (H1 : grows s s1).
  { unfold s1. trans (reset_queue (set_state (Errored e) s)); [same|].
    etrans; [apply (grows_reject_all e (write_requests (strm (reset_queue (set_state (Errored e) s)))))|].
    same. }
  clearbody s1. destruct (pending_abort_request (strm s1)) as [a|]; intros Hf.
  - etrans; [exact H1|]. trans (set_pending_abort_request None s1); [same|].
    destruct (was_already_erroring a).
    + injection Hf as <-. etrans; [apply (grows_reject (ab_promise a) e)|apply grows_reject_close].
    + unfold abort_steps in Hf.
      destruct (sink_call _ _) as [[p s2]|] eqn:Hc; [|done]. injection Hf as <-.
      etrans; [by eapply grows_sink_call|same].
  - injection Hf as <-. etrans; [exact H1|apply grows_reject_close].
Qed.

Lemma grows_start_erroring w r s s' : start_erroring w r s = Some s' -> grows s s'.
Proof.
  unfold start_erroring. set (s1 := with_writer w _ _).
  assert (H1 : grows s s1).
  { trans (set_state (Erroring r) s); [same|].
    apply grows_with_writer. intros. auto with llrt. }
  destruct (_ && _); [|by intros [= <-]].
  intros Hf%grows_finish_erroring. by etrans.
Qed.

Lemma grows_deal w r s s' : deal_with_rejection w r s = Some s' -> grows s s'.
Proof.
  unfold deal_with_rejection. destruct (state (strm s)); try done;
    eauto using grows_start_erroring, grows_finish_erroring.
Qed.

Lemma grows_error_if_needed w e s s' : controller_error_if_needed w e s = Some s' -> grows s s'.
Proof.
  unfold controller_error_if_needed, controller_error. destruct (is_writable s); [|by intros [= <-]].
  intros Hf%grows_start_erroring. etrans; [|exact Hf]. same.
Qed.

Lemma grows_advance w s s' : advance_queue_if_needed w s = Some s' -> grows s s'.
Proof.
  unfold advance_queue_if_needed. destruct (_ || _); [by intros [= <-]|].
  assert (Hq : forall o : option st, o = match queue (ctrl s) with
    | [] => Some s
    | (v, _) :: _ => if bool_decide (v = CloseSentinel) then process_close w s else process_write v s
    end -> o = Some s' -> grows s s').
  { intros o -> Ho. destruct (queue (ctrl s)) as [|[v size] rest]; [by injection Ho as <-|].
    case_bool_decide; unfold process_close, process_write in Ho.
    - destruct (mark_close_request_in_flight s) as [s1|] eqn:H1; [|done].
      destruct (dequeue_value s1) as [[v' s2]|] eqn:H2; [|done].
      destruct (sink_call SinkClose s2) as [[p s3]|] eqn:H3; [|done]. injection Ho as <-.
      trans s2; [|etrans; [by eapply grows_sink_call|same]].
      unfold mark_close_request_in_flight in H1. destruct (close_request (strm s)); [|done].
      injection H1 as <-. unfold dequeue_value in H2.
      destruct (queue _) as [|[v0 sz] q]; [done|]. injection H2 as _ <-. same.
    - destruct (mark_first_write_request_in_flight s) as [s1|] eqn:H1; [|done].
      destruct (sink_call (SinkWrite v) s1) as [[p s3]|] eqn:H3; [|done]. injection Ho as <-.
      trans s1; [|by eapply grows_sink_call].
      unfold mark_first_write_request_in_flight in H1. destruct (write_requests (strm s)) as [|r0 rs] eqn:Hw; [done|].
      injection H1 as <-. apply grows_same; [reflexivity..|]. intros rp. unfold writes. proj. rewrite Hw. mem. }
  destruct (state (strm s)); try (by apply Hq). apply grows_finish_erroring.
Qed.

Record links (s : st) : Prop := {
  l_resolved : promises s !! 0 = Some (ForOther, Fulfilled);
  l_sinks : forall r, r ∈ reactions s -> exists x, promises s !! r.1 = Some (ForSink, x);
  l_writes : forall rp, rp ∈ writes s -> exists x, promises s !! promise rp = Some (ForRequest, x);
  l_attached : forall i, attached <$> writers s !! i = Some true -> writer (strm s) = Some i;
}.

Lemma grows_links s s' : grows s s' -> links s -> links s'.
Proof.
  intros [HP HS HR HW HA HC] [L0 L1 L2 L3]. split; [by apply HS| | |].
  - intros r Hr. destruct (HR r Hr) as [Hr'|?]; [|done].
    destruct (L1 r Hr') as [x Hx]. by apply (HP _ _ x).
  - intros r Hr. destruct (HW r Hr) as [Hr'|?]; [|done].
    destruct (L2 r Hr') as [x Hx]. by apply (HP _ _ x).
  - intros i. rewrite HC, <- list_lookup_fmap, HA, list_lookup_fmap. apply L3.
Qed.

Lemma grows_react r rejection s s' : react r rejection s = Some s' -> grows s s'.
Proof.
  destruct r as [| |w|rp]; cbn [react].
  - unfold on_start. intros H. trans (set_started true s); [same|].
    destruct rejection; eauto using grows_deal, grows_advance.
  - unfold on_write. destruct rejection as [reason|].
    + unfold finish_in_flight_write_with_error.
      set (s1 := if is_writable s then clear_algorithms s else s).
      assert (H1 : grows s s1) by (unfold s1; destruct (is_writable s); same).
      destruct (in_flight_write_request (strm s1)) as [r|]; [|done].
      intros H%grows_deal. etrans; [exact H1|]. etrans; [|exact H].
      etrans; [|apply grows_reject]. same.
    + unfold finish_in_flight_write. destruct (in_flight_write_request (strm s)) as [r|]; [|done].
      set (s1 := resolve_undefined r _). assert (H1 : grows s s1).
      { unfold s1. etrans; [|apply grows_resolve]. same. }
      destruct (dequeue_value s1) as [[v s2]|] eqn:H2; [|done].
      assert (H3 : grows s1 s2).
      { unfold dequeue_value in H2. destruct (queue _) as [|[v0 sz] q]; [done|].
        injection H2 as _ <-. same. }
      intros H%grows_advance. etrans; [exact H1|]. etrans; [exact H3|]. etrans; [|exact H].
      destruct (_ && _); [apply grows_update_backpressure|done].
  - unfold on_close. destruct rejection as [reason|].
    + unfold finish_in_flight_close_with_error.
      destruct (in_flight_close_request (strm s)) as [r|]; [|done]. intros H%grows_deal.
      etrans; [|exact H]. set (s1 := reject r reason _).
      trans s1; [unfold s1; etrans; [|apply grows_reject]; same|].
      destruct (pending_abort_request (strm s1)); [|done].
      etrans; [|apply grows_reject]. same.
    + unfold finish_in_flight_close. destruct (in_flight_close_request (strm s)) as [r|]; [|done].
      intros [= <-]. etrans; [|apply grows_with_writer; intros; cbn; split; auto with llrt].
      set (s1 := resolve_undefined r _).
      trans s1; [unfold s1; etrans; [|apply grows_resolve]; same|].
      match goal with |- grows s1 (set_state Closed ?t) => trans t; [|same] end.
      destruct (state (strm s1)); try done. destruct (pending_abort_request (strm s1)); [|done].
      etrans; [|apply grows_resolve]. same.
  - unfold on_abort. intros [= <-]. etrans; [|apply grows_reject_close].
    destruct rejection; auto with llrt.
Qed.

Lemma links_delete i s : links s -> links (set_reactions (delete i (reactions s)) s).
Proof.
  intros [L0 L1 L2 L3]. split; [done| |done..].
  intros r Hr. apply L1. eapply elem_of_submseteq; [exact Hr|]. apply sublist_submseteq, sublist_delete.
Qed.

Lemma run_job_links i s s' : run_job i s = Some s' -> links s -> links s'.
Proof.
  unfold run_job. intros H Hs. destruct (reactions s !! i) as [[p r]|]; [|by injection H as <-].
  apply (links_delete i) in Hs as Hs1.
  destruct (promises s !! p) as [[k [| |reason]]|];
    [by injection H as <-|by eapply grows_links, Hs1; eapply grows_react..|by injection H as <-].
Qed.

Lemma grows_abort w reason s p s' : writable_stream_abort w reason s = Some (p, s') -> grows s s'.
Proof.
  unfold writable_stream_abort.
  assert (Hgo : forall was r, (match pending_abort_request (strm s) with
    | Some a => Some (promise (ab_promise a), s)
    | None =>
        let '(rp, s) := new_request s in
        let s := set_pending_abort_request (Some (mkAbort rp r was)) s in
        let! s := (if was then Some s else start_erroring w r s) in
        Some (promise rp, s)
    end) = Some (p, s') -> grows s s').
  { intros was r. destruct (pending_abort_request (strm s)); [by intros [= _ <-]|].
    unfold new_request, new_promise. set (s1 := set_pending_abort_request _ _).
    assert (H1 : grows s s1).
    { unfold s1. etrans; [apply (grows_append [(ForRequest, Pending)])|same]. }
    destruct was; [by intros [= _ <-]|].
    destruct (start_erroring w r s1) as [s2|] eqn:H2; [|done]. intros [= _ <-].
    etrans; [exact H1|by eapply grows_start_erroring]. }
  destruct (state (strm s)) as [| |e|e]; [|by intros [= _ <-]| |by intros [= _ <-]].
  - apply (Hgo false reason).
  - apply (Hgo true Undefined).
Qed.

Lemma grows_close w s p s' : writable_stream_close w s = Some (p, s') -> grows s s'.
Proof.
  unfold writable_stream_close.
  assert (Hgo : request_close w s = Some (p, s') -> grows s s').
  { unfold request_close, new_request, new_promise, controller_close.
    set (s1 := with_writer w _ _). assert (H1 : grows s s1).
    { unfold s1. etrans; [|apply grows_with_writer; intros wr0 s0; cbn; destruct (_ && _); auto with llrt; done].
      etrans; [apply (grows_append [(ForRequest, Pending)])|same]. }
    destruct (enqueue_value_with_size CloseSentinel (Some zero) s1) as [s2|] eqn:H2.
    - destruct (advance_queue_if_needed w s2) as [s3|] eqn:H3; [|done]. intros [= _ <-].
      etrans; [exact H1|]. etrans; [|by eapply grows_advance]. injection H2 as <-. same.
    - by intros [= _ <-]. }
  destruct (state (strm s)); try exact Hgo; intros [= _ <-]; apply grows_append.
Qed.

Lemma grows_add_write_request s : grows s (add_write_request s).2.
Proof.
  unfold add_write_request, new_promise. split; [| |by left| |done..]; proj.
  - intros p k x Hp. exists x. apply lookup_app_Some. by left.
  - intros p k x Hp _. apply lookup_app_Some. by left.
  - intros rp. unfold writes. proj. rewrite !elem_of_app, list_elem_of_singleton.
    intros [[?| ->]|?]; [by auto| |by auto]. right. exists Pending. cbn. by rewrite lookup_app_r, Nat.sub_diag by lia.
Qed.

Lemma grows_write i chunk size s p s' : write i chunk size s = Some (p, s') -> grows s s'.
Proof.
  unfold write, default_writer_write.
  assert (Hrej : forall v t, grows t (rejected_promise v t).2) by (intros; apply grows_append).
  destruct (negb (attached_writer i s)); [intros [= _ <-]; apply Hrej|].
  destruct (get_chunk_size (Some i) size s) as [[size' s1]|] eqn:H1; [|done].
  assert (G1 : grows s s1).
  { unfold get_chunk_size in H1. destruct (if algorithms (ctrl s) then size else _) as [sz|r];
      [by injection H1 as _ <-|].
    destruct (controller_error_if_needed (Some i) r s) as [s2|] eqn:H2; [|done]. injection H1 as _ <-.
    by eapply grows_error_if_needed. }
  intros H. etrans; [exact G1|]. clear H1 G1.
  destruct (negb (attached_writer i s1)); [injection H as _ <-; apply Hrej|].
  destruct (state (strm s1)), (close_queued_or_in_flight s1); try (injection H as _ <-; apply Hrej).
  pose proof (grows_add_write_request s1) as G2. destruct (add_write_request s1) as [p2 s2]. cbn [snd] in G2.
  destruct (controller_write (Some i) chunk size' s2) as [s3|] eqn:H3; [|done]. injection H as _ <-.
  etrans; [exact G2|]. unfold controller_write in H3.
  destruct (enqueue_value_with_size chunk size' s2) as [s4|] eqn:H4; [|by eapply grows_error_if_needed].
  assert (G4 : grows s2 s4).
  { unfold enqueue_value_with_size in H4. destruct (is_non_negative_number size'); [|done].
    destruct (is_infinite _); [done|]. injection H4 as <-. same. }
  etrans; [exact G4|]. apply grows_advance in H3. etrans; [|exact H3].
  trans (push_log (Enqueued chunk) s4); [same|].
  destruct (_ && _); [apply grows_update_backpressure|done].
Qed.

Lemma set_up_writer_links s i s' : set_up_writer s = Ok (i, s') -> links s -> links s'.
Proof.
  unfold set_up_writer, is_writable_stream_locked. destruct (writer (strm s)) eqn:Hw; [done|].
  set (t := match state (strm s) with Writable => _ | _ => _ end).
  assert (Ht : grows s t.2).
  { unfold t. destruct (state (strm s)) as [| |e|e]; [destruct (_ && _)|done|..];
      cbn [new_promise rejected_with fst snd];
      repeat (etrans; [|apply grows_append]); try apply grows_append; done. }
  destruct t as [[ready closed] s1]. cbn [snd] in Ht. intros [= _ <-] Hs.
  destruct (grows_links _ _ Ht Hs) as [L0 L1 L2 L3]. split; [done..|]. proj. intros j Hj.
  rewrite (g_writer _ _ Ht), Hw in L3.
  destruct (writers s1 !! j) as [wr|] eqn:Hwr.
  - exfalso. rewrite lookup_app_l in Hj by (by eapply lookup_lt_Some). by specialize (L3 j Hj).
  - apply lookup_ge_None in Hwr. rewrite lookup_app_r in Hj by done.
    destruct (j - length (writers s1)) as [|n] eqn:Hn; [|by destruct n]. f_equal. lia.
Qed.

Lemma release_links i s : links s -> links (release_lock i s).
Proof.
  intros Hs. unfold release_lock, attached_writer. destruct (writers s !! i) as [wr|] eqn:Hi; [|done].
  destruct (attached wr) eqn:Ha; [|done]. cbn [negb]. unfold writer_release.
  set (s2 := with_writer (Some i) (ensure_closed_promise_rejected released_error) _).
  assert (Hg : grows s s2).
  { unfold s2. etrans; apply grows_with_writer; intros; auto with llrt. }
  assert (Hw : writer (strm s) = Some i) by (apply (l_attached _ Hs); by rewrite Hi, <- Ha).
  destruct (grows_links _ _ Hg Hs) as [L0 L1 L2 L3]. rewrite (g_writer _ _ Hg), Hw in L3.
  clearbody s2. unfold with_writer. proj. destruct (writers s2 !! i) as [wr2|] eqn:Hi2.
  - split; [done..|]. proj. intros j. destruct (decide (j = i)) as [->|Hne].
    + rewrite list_lookup_insert_eq by (by eapply lookup_lt_Some). done.
    + rewrite list_lookup_insert_ne by done. intros Hj. specialize (L3 j Hj). congruence.
  - split; [done..|]. proj. intros j Hj. specialize (L3 j Hj). injection L3 as <-. by rewrite Hi2 in Hj.
Qed.

Lemma step_links s s' : step s s' -> links s -> links s'.
Proof.
  intros Hstep. assert (Hrej : forall v t, grows t (rejected_promise v t).2) by (intros; apply grows_append).
  destruct Hstep as [s i s' H|reason s p s' H|s p s' H|i reason s p s' H|i s p s' H
    |i s|i chunk size s p s' Hc H|e s s' H|p rej s|i s s' H];
    [by eapply set_up_writer_links| | | | |by apply release_links| | | |by eapply run_job_links];
    apply grows_links.
  - unfold stream_abort in H. destruct (is_writable_stream_locked s);
      [injection H as _ <-; apply Hrej|by eapply grows_abort].
  - unfold stream_close in H. destruct (is_writable_stream_locked s); [injection H as _ <-; apply Hrej|].
    destruct (close_queued_or_in_flight s); [injection H as _ <-; apply Hrej|by eapply grows_close].
  - unfold writer_abort in H. destruct (negb _); [injection H as _ <-; apply Hrej|by eapply grows_abort].
  - unfold writer_close in H. destruct (negb _); [injection H as _ <-; apply Hrej|].
    destruct (close_queued_or_in_flight s); [injection H as _ <-; apply Hrej|by eapply grows_close].
  - by eapply grows_write.
  - unfold error in H. destruct (is_writable s) eqn:Hw; cbn [negb] in H; [|by injection H as <-].
    apply (grows_error_if_needed (writer (strm s)) e). unfold controller_error_if_needed. by rewrite Hw.
  - unfold settle_sink. destruct (promises s !! p) as [[[] x]|]; auto with llrt; done.
Qed.

Lemma reachable_links s : reachable s -> links s.
Proof.
  induction 1 as [hwm s H|s s' _ IH H]; [|by eapply step_links].
  unfold new in H. destruct (extract_high_water_mark hwm one) as [h|]; [|done]. injection H as <-.
  split; [done| |intros rp Hr; by apply elem_of_nil in Hr|done].
  intros r Hr. apply list_elem_of_singleton in Hr. subst r. by exists Pending.
Qed.

(** ** Safety, order and liveness *)









(** ** Backpressure *)

(** The ready promise of the current writer is pending while there is
    backpressure and fulfilled while there is none. *)
Definition ready_follows (s : st) : Prop :=
  forall i, writer (strm s) = Some i -> exists wr, writers s !! i = Some wr /\
  promises s !! promise (ready_promise wr) =
    Some (ForOther, if backpressure (strm s) then Pending else Fulfilled) /\
  (backpressure (strm s) = true -> settles (ready_promise wr) = true).

Definition accepting (s : st) : Prop := is_writable s = true /\ close_queued_or_in_flight s = false.

Definition pressure (s : st) : Prop :=
  accepting s -> backpressure (strm s) = get_backpressure s /\ ready_follows s.

(** Every other operation leaves promises of writers alone. *)
Definition keeps_other (P P' : list (promise_kind * promise_state)) : Prop :=
  forall p x, P !! p = Some (ForOther, x) -> P' !! p = Some (ForOther, x).

#[export] Instance keeps_other_preorder : PreOrder keeps_other.
Proof. split; [by intros P p x|]. intros P1 P2 P3 H1 H2 p x Hp. by apply H2, H1. Qed.

Lemma ready_stable s s' :
  writer (strm s') = writer (strm s) -> backpressure (strm s') = backpressure (strm s) ->
  writers s' = writers s -> keeps_other (promises s) (promises s') ->
  ready_follows s -> ready_follows s'.
Proof.
  intros HC HB HW HP Hr i. rewrite HC, HB, HW. intros Hi.
  destruct (Hr i Hi) as (wr & ? & Hp & ?). exists wr. auto.
Qed.

Lemma keeps_other_append P l : keeps_other P (P ++ l).
Proof. intros p x Hp. apply lookup_app_Some. by left. Qed.

Lemma keeps_other_settle p k r x s :
  promises s !! p = Some (k, x) -> k <> ForOther -> keeps_other (promises s) (promises (settle p r s)).
Proof.
  intros Hp Hk q y Hq. unfold settle. rewrite Hp. destruct x; try done. cbn.
  rewrite list_lookup_insert_ne; [done|]. intros ->. congruence.
Qed.

#[export] Hint Resolve keeps_other_append keeps_other_settle : llrt.

Lemma update_backpressure_follows b s :
  ready_follows s -> ready_follows (update_backpressure (writer (strm s)) b s).
Proof.
  intros Hr. unfold update_backpressure. destruct (is_writable s); cbn [negb]; [|done].
  destruct (writer (strm s)) as [i|] eqn:Hw; [|by intros i; cbn; rewrite Hw].
  destruct (Hr i Hw) as (wr & Hi & Hp & Hs). cbn [with_writer]. rewrite Hi.
  assert (Hlt : i < length (writers s)) by (by eapply lookup_lt_Some).
  intros j. destruct b, (backpressure (strm s)) eqn:Hb; cbn [eqb negb new_promise]; proj.
  - rewrite Hw. intros [= <-]. rewrite list_lookup_insert_eq by done. by exists wr.
  - rewrite Hw. intros [= <-]. rewrite list_lookup_insert_eq by done. eexists. split; [done|].
    cbn. rewrite lookup_app_r, Nat.sub_diag by lia. done.
  - unfold resolve_undefined. rewrite Hs by done. unfold settle. rewrite Hp. proj. rewrite Hw.
    intros [= <-]. rewrite list_lookup_insert_eq by done. exists wr. split; [done|].
    rewrite list_lookup_insert_eq; [done|]. by eapply lookup_lt_Some.
  - rewrite Hw. intros [= <-]. rewrite list_lookup_insert_eq by done. by exists wr.
Qed.

(** *** An errored stream is not writable *)

Lemma pw_strm s s' : only_pw s s' -> strm s' = strm s.
Proof. intros [-> _]. done. Qed.

Lemma with_writer_strm w f s :
  (forall wr s, only_pw s (f wr s).2) -> strm (with_writer w f s) = strm s.
Proof. intros Hf. by apply pw_strm, with_writer_pw. Qed.

Lemma reject_close_state w s :
  state (strm (reject_close_and_closed_promise_if_needed w s)) = state (strm s).
Proof.
  unfold reject_close_and_closed_promise_if_needed.
  rewrite with_writer_strm by (intros; cbn; auto with llrt).
  destruct (close_request (strm s)) as [r|]; [|done]. cbn. by rewrite (pw_strm _ _ (reject_pw r (stored_error s) s)).
Qed.

Lemma finish_erroring_state w e s s' : finish_erroring w e s = Some s' -> state (strm s') = Errored e.
Proof.
  unfold finish_erroring. set (s0 := reset_queue (set_state (Errored e) s)).
  set (s1 := set_write_requests [] _). assert (H1 : state (strm s1) = Errored e).
  { change (state (strm (reject_all e (write_requests (strm s0)) s0)) = Errored e).
    by rewrite (pw_strm _ _ (reject_all_pw _ _ _)). }
  clearbody s1. destruct (pending_abort_request (strm s1)) as [a|].
  2:{ intros [= <-]. by rewrite reject_close_state. }
  destruct (was_already_erroring a).
  - intros [= <-]. by rewrite reject_close_state, (pw_strm _ _ (reject_pw _ _ _)).
  - unfold abort_steps, sink_call. destruct (algorithms _); [|done]. by intros [= <-].
Qed.

Lemma start_erroring_state w e s s' : start_erroring w e s = Some s' -> is_writable s' = false.
Proof.
  unfold start_erroring, is_writable. set (s1 := with_writer w _ _).
  destruct (_ && _); [by intros ->%finish_erroring_state|]. intros [= <-].
  unfold s1. by rewrite with_writer_strm by (intros; auto with llrt).
Qed.

Lemma deal_state w e s s' : deal_with_rejection w e s = Some s' -> is_writable s' = false.
Proof.
  unfold deal_with_rejection. destruct (state (strm s)); try done; [apply start_erroring_state|].
  unfold is_writable. by intros ->%finish_erroring_state.
Qed.

Lemma error_if_needed_state w e s s' :
  controller_error_if_needed w e s = Some s' -> is_writable s' = false.
Proof.
  unfold controller_error_if_needed, controller_error. destruct (is_writable s) eqn:Hw;
    [apply start_erroring_state|by intros [= <-]].
Qed.

Lemma pressure_not_writable s : is_writable s = false -> pressure s.
Proof. intros Hw [Hw' _]. congruence. Qed.

(** *** Every step keeps the backpressure right *)

Lemma advance_pressure w s s' : advance_queue_if_needed w s = Some s' -> pressure s -> pressure s'.
Proof.
  unfold advance_queue_if_needed. destruct (_ || _); [by intros [= <-]|].
  assert (Hq : match queue (ctrl s) with
    | [] => Some s
    | (v, _) :: _ => if bool_decide (v = CloseSentinel) then process_close w s else process_write v s
    end = Some s' -> pressure s -> pressure s').
  { destruct (queue (ctrl s)) as [|[v size] rest]; [by intros [= <-]|].
    case_bool_decide; unfold process_close, process_write, sink_call.
    - unfold mark_close_request_in_flight. destruct (close_request (strm s)) as [r|]; [|done].
      unfold dequeue_value. proj. destruct (queue (ctrl s)) as [|[v0 sz] q]; [done|]. proj.
      destruct (algorithms (ctrl s)); [|done]. intros [= <-] _ [_ Hc].
      unfold close_queued_or_in_flight in Hc. by cbn in Hc.
    - unfold mark_first_write_request_in_flight. destruct (write_requests (strm s)) as [|r rs]; [done|].
      proj. destruct (algorithms (ctrl s)); [|done]. intros [= <-] Hp Ha.
      destruct (Hp Ha) as [Hb Hf]. split; [done|]. apply (ready_stable s); [done..|apply keeps_other_append|exact Hf]. }
  destruct (state (strm s)) as [| |e|e]; try exact Hq. intros Hf _.
  apply pressure_not_writable. unfold is_writable. by rewrite (finish_erroring_state _ _ _ _ Hf).
Qed.

Lemma update_backpressure_ctrl w b s : ctrl (update_backpressure w b s) = ctrl s.
Proof. by destruct (update_backpressure_pw w b s) as (b' & -> & _). Qed.

(** Queue, backpressure, advance: the tail of a write and of its completion. *)
Lemma update_pressure s :
  ready_follows s -> pressure
    (if negb (close_queued_or_in_flight s) && is_writable s
     then update_backpressure (writer (strm s)) (get_backpressure s) s else s).
Proof.
  intros Hf. destruct (negb _ && _) eqn:Ha.
  - intros _. split; [|by apply update_backpressure_follows]. apply andb_true_iff in Ha as [_ Hw].
    unfold get_backpressure at 2, get_desired_size. rewrite update_backpressure_ctrl.
    unfold update_backpressure. by rewrite Hw.
  - intros [Hw Hc]. by rewrite Hw, Hc in Ha.
Qed.

Lemma on_write_pressure s s' :
  links s -> on_write None s = Some s' -> pressure s -> pressure s'.
Proof.
  intros [_ _ Hl _]. unfold on_write, finish_in_flight_write.
  destruct (in_flight_write_request (strm s)) as [r|] eqn:Hr; [|done].
  destruct (Hl r) as [x Hx]; [unfold writes; rewrite Hr; mem|]. clear Hl.
  set (s1 := resolve_undefined r (set_in_flight_write_request None s)).
  destruct (dequeue_value s1) as [[v s2]|] eqn:H2; [|done].
  assert (Hpw : only_pw (set_in_flight_write_request None s) s1) by apply resolve_pw.
  assert (Hk : keeps_other (promises s) (promises s1) /\ writers s1 = writers s).
  { unfold s1, resolve_undefined. destruct (settles r); [|by split]. split.
    - by apply (keeps_other_settle (promise r) ForRequest _ x (set_in_flight_write_request None s)).
    - unfold settle. by destruct (promises _ !! _) as [[? []]|]. }
  assert (E2 : strm s2 = strm s1 /\ promises s2 = promises s1 /\ writers s2 = writers s1).
  { unfold dequeue_value in H2. destruct (queue (ctrl s1)) as [|[v0 sz] q]; [done|]. by injection H2 as _ <-. }
  destruct E2 as (E2 & P2 & W2), Hk as [Hk W1]. rewrite (pw_strm _ _ Hpw) in E2. clearbody s1.
  intros Hadv Hp. refine (advance_pressure _ _ _ Hadv _). clear Hadv.
  replace (writer (strm s)) with (writer (strm s2)) by (by rewrite E2).
  intros Hacc. refine (update_pressure s2 _ Hacc). 
  destruct (negb (close_queued_or_in_flight s2) && is_writable s2) eqn:Ha.
  2:{ destruct Hacc as [Hw Hc]. by rewrite Hw, Hc in Ha. }
  apply andb_true_iff in Ha as [Hc%negb_true_iff Hw].
  destruct Hp as [_ Hf].
  { unfold accepting, is_writable, close_queued_or_in_flight in *. by rewrite E2 in Hw, Hc. }
  apply (ready_stable s); [by rewrite E2..|congruence|by rewrite P2|done].
Qed.

Lemma run_job_pressure i s s' :
  inv s -> links s -> run_job i s = Some s' -> pressure s -> pressure s'.
Proof.
  intros Hi Hl. unfold run_job. destruct (reactions s !! i) as [[p r]|] eqn:HR; [|by intros [= <-]].
  set (s1 := set_reactions (delete i (reactions s)) s).
  assert (Hl1 : links s1) by (by apply links_delete).
  assert (Hp1 : pressure s -> pressure s1).
  { intros Hp Ha. destruct (Hp Ha) as [Hb Hf]. split; [done|]. by apply (ready_stable s). }
  assert (Hreact : forall rej, react r rej s1 = Some s' -> pressure s -> pressure s').
  2:{ destruct (promises s !! p) as [[k [| |reason]]|];
      [by intros [= <-]|apply Hreact..|by intros [= <-]]. }
  intros rej Hr Hp. apply Hp1 in Hp. destruct r as [| |w|rp]; cbn [react] in Hr.
  - unfold on_start in Hr. destruct rej as [reason|].
    + apply pressure_not_writable. by eapply deal_state.
    + eapply advance_pressure; [exact Hr|]. intros Ha. destruct (Hp Ha) as [Hb Hf]. split; [done|].
      by apply (ready_stable s1).
  - destruct rej as [reason|]; [|by eapply on_write_pressure].
    apply pressure_not_writable. unfold on_write, finish_in_flight_write_with_error in Hr.
    destruct (in_flight_write_request _); [|done]. by eapply deal_state.
  - apply pressure_not_writable. unfold on_close in Hr. destruct rej as [reason|].
    + unfold finish_in_flight_close_with_error in Hr. destruct (in_flight_close_request _); [|done].
      by eapply deal_state.
    + unfold finish_in_flight_close in Hr. destruct (in_flight_close_request _); [|done].
      injection Hr as <-. unfold is_writable. by rewrite with_writer_strm by (intros; cbn; auto with llrt).
  - unfold on_abort in Hr. injection Hr as <-. apply pressure_not_writable. unfold is_writable.
    rewrite reject_close_state. set (s2 := match rej with None => _ | _ => _ end).
    assert (Hs2 : strm s2 = strm s) by (unfold s2; destruct rej; apply (pw_strm s1); auto with llrt).
    rewrite Hs2. destruct Hi as (_ & Hsh & _). unfold shape in Hsh.
    destruct (state (strm s)); try done. destruct Hsh as [Hab _]. exfalso.
    rewrite <- (take_drop_middle _ _ _ HR), cnt_middle in Hab. done.
Qed.

(** Operations that leave everything but promises of requests alone. *)
Lemma pressure_stable s s' :
  strm s' = strm s -> ctrl s' = ctrl s -> writers s' = writers s -> keeps_other (promises s) (promises s') ->
  pressure s -> pressure s'.
Proof.
  intros HS HC HW HP Hp. unfold pressure, accepting, is_writable, close_queued_or_in_flight.
  unfold get_backpressure, get_desired_size. rewrite HS, HC. intros Ha. destruct (Hp Ha) as [Hb Hf].
  split; [done|]. by apply (ready_stable s); rewrite ?HS.
Qed.

Lemma rejected_pressure v s p s' :
  Some (rejected_promise v s) = Some (p, s') -> pressure s -> pressure s'.
Proof. intros [= _ <-]. apply pressure_stable; try done. apply keeps_other_append. Qed.

Lemma abort_pressure w reason s p s' :
  writable_stream_abort w reason s = Some (p, s') -> pressure s -> pressure s'.
Proof.
  unfold writable_stream_abort. intros H Hp. destruct (state (strm s)) eqn:Hs; [|by injection H as _ <-| |by injection H as _ <-].
  - destruct (pending_abort_request (strm s)); [by injection H as _ <-|]. cbn [new_request new_promise] in H.
    destruct (start_erroring w reason _) as [s1|] eqn:H1; [|done]. injection H as _ <-.
    by apply pressure_not_writable, (start_erroring_state _ _ _ _ H1).
  - apply pressure_not_writable. unfold is_writable.
    destruct (pending_abort_request (strm s)); injection H as _ <-; cbn; by rewrite Hs.
Qed.

Lemma request_close_pressure w s p s' : request_close w s = Some (p, s') -> pressure s'.
Proof.
  unfold request_close, controller_close. cbn [new_request new_promise].
  assert (Hnot : forall t, close_request (strm t) <> None -> pressure t).
  { intros t Ht [_ Hc]. unfold close_queued_or_in_flight in Hc. by destruct (close_request (strm t)). }
  set (s1 := with_writer w _ _). assert (H1 : close_request (strm s1) <> None).
  { unfold s1. rewrite with_writer_strm; [done|]. intros. cbn. destruct (_ && _); [auto with llrt|done]. }
  clearbody s1. destruct (enqueue_value_with_size CloseSentinel (Some zero) s1) as [s2|] eqn:H2.
  - destruct (advance_queue_if_needed w s2) as [s3|] eqn:H3; [|done]. intros [= _ <-].
    eapply advance_pressure; [exact H3|]. apply Hnot. by injection H2 as <-.
  - intros [= _ <-]. by apply Hnot.
Qed.

Lemma close_pressure w s p s' : writable_stream_close w s = Some (p, s') -> pressure s -> pressure s'.
Proof.
  unfold writable_stream_close. intros H.
  destruct (state (strm s)); [|by eapply rejected_pressure| |by eapply rejected_pressure];
    intros _; by eapply request_close_pressure.
Qed.

Lemma write_pressure i chunk size s p s' :
  links s -> write i chunk size s = Some (p, s') -> pressure s -> pressure s'.
Proof.
  intros Hl. unfold write, default_writer_write. destruct (attached_writer i s) eqn:Hi; cbn [negb];
    [|by apply rejected_pressure].
  assert (Hw : writer (strm s) = Some i).
  { apply (l_attached s Hl). unfold attached_writer in Hi. destruct (writers s !! i); [|done]. by cbn; rewrite Hi. }
  unfold get_chunk_size. destruct (if algorithms (ctrl s) then size else Ok (Some one)) as [sz|reason].
  2:{ destruct (controller_error_if_needed (Some i) reason s) as [s1|] eqn:H1; [|done].
      apply error_if_needed_state in H1 as Hw1. apply pressure_not_writable in Hw1 as Hp1. unfold is_writable in Hw1.
      destruct (attached_writer i s1); cbn [negb]; [|by intros H _; apply (rejected_pressure _ _ _ _ H)].
      intros H _. destruct (state (strm s1)), (close_queued_or_in_flight s1); try done;
        by apply (rejected_pressure _ _ _ _ H). }
  rewrite Hi. cbn [negb]. intros H Hp.
  destruct (state (strm s)) eqn:Hst, (close_queued_or_in_flight s) eqn:Hc;
    try (by apply (rejected_pressure _ _ _ _ H)).
  unfold add_write_request in H. cbn [new_promise] in H. set (s1 := set_write_requests _ _) in H.
  destruct (controller_write (Some i) chunk sz s1) as [s2|] eqn:H2; [|done]. injection H as _ <-.
  unfold controller_write, enqueue_value_with_size in H2.
  assert (Herr : forall v, controller_error_if_needed (Some i) v s1 = Some s2 -> pressure s2)
    by (intros v Hv; by eapply pressure_not_writable, error_if_needed_state).
  destruct (is_non_negative_number sz) as [n|]; [|by eapply Herr].
  destruct (is_infinite n); [by eapply Herr|]. eapply advance_pressure; [exact H2|]. clear H2 Herr.
  set (s3 := push_log _ _). replace (Some i) with (writer (strm s3)) by done.
  apply update_pressure. destruct Hp as [_ Hf]; [split; [unfold is_writable; by rewrite Hst|done]|].
  apply (ready_stable s); try done. apply keeps_other_append.
Qed.

Lemma set_up_writer_pressure s i s' :
  links s -> set_up_writer s = Ok (i, s') -> pressure s -> pressure s'.
Proof.
  intros Hl. unfold set_up_writer. destruct (is_writable_stream_locked s); [done|]. intros H Hp.
  destruct (state (strm s)) eqn:Hs; cbn [rejected_with new_promise] in H;
    try (injection H as _ <-; apply pressure_not_writable; unfold is_writable; cbn; by rewrite Hs).
  destruct (close_queued_or_in_flight s) eqn:Hc; cbn [negb andb] in H.
  { injection H as _ <-. intros [_ Hc']. unfold close_queued_or_in_flight in *. cbn in Hc'. congruence. }
  destruct Hp as [Hb _]; [split; [unfold is_writable; by rewrite Hs|done]|].
  pose proof (l_resolved s Hl) as H0.
  destruct (backpressure (strm s)) eqn:Hbp; cbn [new_promise] in H; injection H as _ <-; intros _;
    (split; [cbn; by rewrite Hbp, Hb|]); intros j; cbn; intros [= <-];
    rewrite lookup_app_r, Nat.sub_diag by lia; cbn; eexists; (split; [done|]); rewrite Hbp; cbn.
  - rewrite lookup_app_l by (rewrite length_app; cbn; lia). by rewrite lookup_app_r, Nat.sub_diag by lia.
  - split; [|done]. by apply lookup_app_l_Some.
Qed.

Lemma release_pressure i s : pressure s -> pressure (release_lock i s).
Proof.
  intros Hp. unfold release_lock. destruct (negb (attached_writer i s)); [done|]. unfold writer_release.
  set (s1 := with_writer (Some i) (ensure_ready_promise_rejected released_error) s).
  set (s2 := with_writer (Some i) (ensure_closed_promise_rejected released_error) s1).
  assert (Hpw : only_pw s s2) by (unfold s2, s1; etrans; apply with_writer_pw; intros; auto with llrt).
  destruct (pw_elim _ _ Hpw) as (P & W & E & _). clearbody s2. subst s2.
  set (s3 := with_writer _ _ _). assert (E : strm s3 = strm (set_writer None s) /\ ctrl s3 = ctrl s).
  { unfold s3, with_writer. proj. by destruct (W !! i). }
  destruct E as [E1 E2]. intros Ha. split.
  - unfold get_backpressure, get_desired_size. rewrite E1, E2. cbn. apply Hp.
    unfold accepting, is_writable, close_queued_or_in_flight in *. by rewrite E1 in Ha.
  - intros j. by rewrite E1.
Qed.

Lemma step_pressure s s' : inv s -> links s -> step s s' -> pressure s -> pressure s'.
Proof.
  intros Hi Hl Hstep. destruct Hstep as [s i s' H|reason s p s' H|s p s' H|i reason s p s' H|i s p s' H
    |i s|i chunk size s p s' Hc H|e s s' H|p rej s|i s s' H].
  - by eapply set_up_writer_pressure.
  - unfold stream_abort in H. destruct (is_writable_stream_locked s);
      [by eapply rejected_pressure|by eapply abort_pressure].
  - unfold stream_close in H. destruct (is_writable_stream_locked s); [by eapply rejected_pressure|].
    destruct (close_queued_or_in_flight s); [by eapply rejected_pressure|by eapply close_pressure].
  - unfold writer_abort in H. destruct (negb _); [by eapply rejected_pressure|by eapply abort_pressure].
  - unfold writer_close in H. destruct (negb _); [by eapply rejected_pressure|].
    destruct (close_queued_or_in_flight s); [by eapply rejected_pressure|by eapply close_pressure].
  - apply release_pressure.
  - by eapply write_pressure.
  - unfold error in H. destruct (negb (is_writable s)); [by injection H as <-|]. intros _.
    by eapply pressure_not_writable, start_erroring_state.
  - unfold settle_sink. destruct (promises s !! p) as [[[] x]|] eqn:Hp; try done.
    apply pressure_stable; [..|by eapply keeps_other_settle];
      unfold settle; rewrite Hp; by destruct x.
  - by eapply run_job_pressure.
Qed.

(** Backpressure: while the stream takes chunks (it is writable and no
    close is queued or in flight), its flag says whether the high-water mark
    minus the size of the queue is zero or less, and the ready promise of the
    current writer is pending exactly when the flag is set, fulfilled
    otherwise. *)
Theorem writable_backpressure s : reachable s -> accepting s ->
  backpressure (strm s) = SFleb (f64_sub (strategy_hwm (ctrl s)) (queue_total_size (ctrl s))) zero /\
  forall i, writer (strm s) = Some i -> exists wr, writers s !! i = Some wr /\
    promises s !! promise (ready_promise wr) =
      Some (ForOther, if backpressure (strm s) then Pending else Fulfilled).
Proof.
  intros Hr Ha. assert (Hp : pressure s).
  { clear Ha. induction Hr as [hwm s H|s s' Hr IH Hstep].
    - unfold new in H. destruct (extract_high_water_mark hwm one) as [h|]; [|done]. injection H as <-.
      intros _. split; [done|]. by intros i.
    - apply (step_pressure s); auto using writable_reachable_inv, reachable_links. }
  destruct (Hp Ha) as [Hb Hf]. split; [exact Hb|]. intros i Hi.
  destruct (Hf i Hi) as (wr & Hw & Hpr & _). eauto.
Qed.

(** ** A stream at work *)

Definition or_else {A} (d : st) (o : option (A * st)) : st :=
  match o with Some (_, s) => s | None => d end.

Definition get_writer (s : st) : st :=
  match set_up_writer s with Ok (_, s) => s | Err _ => s end.

Definition job (rejection : option value) (s : st) : st :=
  match reactions s with
  | [] => s
  | (p, _) :: _ => or_else s ((fun s => (tt, s)) <$> run_job 0 (settle_sink p rejection s))
  end.

(** Two chunks are written, the stream is closed and the start algorithm has
    finished: the first chunk is in flight. *)
Definition demo_open : st := get_writer (set_up_controller one).
Definition demo_write (n : Z) (s : st) : st := or_else s (write 0 (Val n) (Ok (Some one)) s).

Lemma demo_write_step n p s :
  write 0 (Val n) (Ok (Some one)) s = Some (p, demo_write n s) -> reachable s -> reachable (demo_write n s).
Proof. intros H Hs. eapply reach_step; [exact Hs|]. apply (step_write 0 (Val n) (Ok (Some one)) s p); [discriminate|exact H]. Defined.

Lemma demo_full_reachable : reachable (demo_write 7 demo_open).
Proof.
  apply (demo_write_step 7 3); [vm_compute; reflexivity|].
  eapply (reach_step (set_up_controller one)); [|apply (step_get_writer _ 0); vm_compute; reflexivity].
  apply (reach_new None). vm_compute. reflexivity.
Defined.





Lemma writable_backpressure_witness :
  exists wr, writers (demo_write 7 demo_open) !! 0 = Some wr /\
    promises (demo_write 7 demo_open) !! promise (ready_promise wr) = Some (ForOther, Pending).
Proof.
  destruct (writable_backpressure (demo_write 7 demo_open) demo_full_reachable) as [_ H];
    [split; vm_compute; reflexivity|].
  exact (H 0 ltac:(vm_compute; reflexivity)).
Defined.

(** ** What the model shows of the source *)

Definition after_close (s : st) : stream_state * list promise_state :=
  (state (strm s), omap (fun wr => snd <$> promises s !! promise (closed_promise wr)) (writers s)).

(** The callback of the sink's close settles the closed promise of the writer
    that was there when the close began.  When that writer has released its
    lock, the closed promise of the next writer stays pending for ever. *)
Example closed_promise_of_next_writer :
  let s := get_writer (job None (set_up_controller one)) in
  let s := or_else s (writer_close 0 s) in
  let s := get_writer (release_lock 0 s) in
  let s := job None s in
  reactions s = [] /\ after_close s = (Closed, [Rejected released_error; Pending]).
Proof. vm_compute. split; reflexivity. Qed.

(** The close sentinel is a registered symbol, which a program can write as a
    chunk: the controller takes it for a close that nobody asked for, and
    panics. *)
Example writing_the_sentinel_panics :
  let s := get_writer (job None (set_up_controller one)) in
  write 0 CloseSentinel (Ok (Some one)) s = None.
Proof. vm_compute. reflexivity. Qed.
