(* ===== verification/TextDecoder.v ===== *)
(** * The TextDecoder of src/modules/llrt_util/src/text_decoder.rs

    A decoder of a byte stream that arrives in chunks.  The reading of the
    options object and of the bytes of a buffer is bindings code: [new] and
    [decode] take what they give.  The error of a failed decoding is a
    TypeError without a message. *)
From Stdlib Require Import ZArith Lia.
From stdpp Require Import base list numbers strings.
From S2P Require Import Prelude Utf8 Utf16 Encoding Rfc4648.
Open Scope Z_scope.

(** ** State *)

Record text_decoder := mkDecoder {
  encoder : Encoder;
  fatal : bool;
  ignore_bom : bool;
  pending : list Z;
  bom_seen : bool;
}.

Definition set_pending (p : list Z) (d : text_decoder) : text_decoder :=
  mkDecoder (encoder d) (fatal d) (ignore_bom d) p (bom_seen d).

Definition set_bom_seen (b : bool) (d : text_decoder) : text_decoder :=
  mkDecoder (encoder d) (fatal d) (ignore_bom d) (pending d) b.

Inductive decoder_error := RangeError | TypeError.

#[export] Instance decoder_error_eq_dec : EqDecision decoder_error.
Proof. solve_decision. Defined.

(** ** Operations *)

(** The bytes after a lead byte: the first has the range the lead allows. *)
Definition continues (b : Z) (tail : list Z) : bool :=
  match tail with
  | [] => true
  | c :: rest =>
      (if b =? 0xE0 then in_range 0xA0 0xBF c
       else if b =? 0xED then in_range 0x80 0x9F c
       else if b =? 0xF0 then in_range 0x90 0xBF c
       else if b =? 0xF4 then in_range 0x80 0x8F c
       else in_range 0x80 0xBF c)
      && forallb (fun c => Z.land c 0xC0 =? 0x80) rest
  end.

(** One turn of the loop of [utf8_incomplete_tail]; [None] goes on. *)
Definition tail_at (bytes : list Z) (i : nat) : option nat :=
  let b := nth (length bytes - i) bytes 0 in
  if b <? 0x80 then Some 0%nat
  else if 0xC0 <=? b then
    let expected :=
      if in_range 0xC2 0xDF b then Some 2%nat
      else if in_range 0xE0 0xEF b then Some 3%nat
      else if in_range 0xF0 0xF4 b then Some 4%nat
      else None in
    match expected with
    | None => Some 0%nat
    | Some expected =>
        if (expected <=? i)%nat then Some 0%nat
        else if continues b (drop (length bytes - i + 1) bytes) then Some i else Some 0%nat
    end
  else None.

Fixpoint first_some {A} (l : list (option A)) : option A :=
  match l with
  | [] => None
  | Some a :: _ => Some a
  | None :: l => first_some l
  end.

Definition utf8_incomplete_tail (bytes : list Z) : nat :=
  default 0%nat (first_some (tail_at bytes <$> seq 1 (4 `min` length bytes))).

Definition new (label : option (list Z)) (fatal ignore_bom : option bool)
    : result decoder_error text_decoder :=
  match from_optional_str label with
  | Err _ => Err RangeError
  | Ok e => Ok (mkDecoder e (default false fatal) (default false ignore_bom) [] false)
  end.

Definition encoding (d : text_decoder) : list Z := as_label (encoder d).

(** The byte order mark of an encoding. *)
Definition BOM (e : Encoder) : list Z :=
  match e with
  | Utf8 => [0xEF; 0xBB; 0xBF]
  | Utf16le => [0xFF; 0xFE]
  | Utf16be => [0xFE; 0xFF]
  | _ => []
  end.

Definition bom_skip (e : Encoder) (data : list Z) : nat :=
  match e with
  | Utf8 => if starts_with [0xEF; 0xBB; 0xBF] data then 3%nat else 0%nat
  | Utf16le => if starts_with [0xFF; 0xFE] data then 2%nat else 0%nat
  | Utf16be => if starts_with [0xFE; 0xFF] data then 2%nat else 0%nat
  | _ => 0%nat
  end.

Definition bom_fragment (e : Encoder) (data : list Z) : bool :=
  match e with
  | Utf8 => bool_decide (data = [0xEF]) || bool_decide (data = [0xEF; 0xBB])
  | Utf16le => bool_decide (data = [0xFF])
  | Utf16be => bool_decide (data = [0xFE])
  | _ => false
  end.

(** What a streaming call keeps for the next one: [decode_end]. *)
Definition decode_end (e : Encoder) (data : list Z) : nat :=
  let utf16 (unit : Z -> Z -> Z) :=
    let decode_end := (length data - length data mod 2)%nat in
    if (2 <=? decode_end)%nat then
      let last_u16 := unit (nth (decode_end - 2) data 0) (nth (decode_end - 1) data 0) in
      if in_range 0xD800 0xDBFF last_u16 then (decode_end - 2)%nat else decode_end
    else decode_end in
  match e with
  | Utf8 => (length data - utf8_incomplete_tail data)%nat
  | Utf16le => utf16 (fun a b => a + 256 * b)
  | Utf16be => utf16 (fun a b => 256 * a + b)
  | _ => length data
  end.

Section Decode.
Context `{Codecs}.

(** The part after the byte order mark. *)
Definition decode_data (data : list Z) (stream : bool) (d : text_decoder)
    : result decoder_error (list Z) * text_decoder :=
  let decode_end := if stream then decode_end (encoder d) data else length data in
  let d := if stream && (decode_end <? length data)%nat
           then set_pending (drop decode_end data) d else d in
  match encode_to_string (encoder d) (take decode_end data) (negb (fatal d)) with
  | Err _ => (Err TypeError, set_bom_seen false (set_pending [] d))
  | Ok result => (Ok result, if stream then d else set_bom_seen false d)
  end.

Definition decode (bytes : option (list Z)) (stream : bool) (d : text_decoder)
    : result decoder_error (list Z) * text_decoder :=
  let input_bytes := default [] bytes in
  let data := pending d ++ input_bytes in
  let d := set_pending [] d in
  if negb (ignore_bom d) && negb (bom_seen d) then
    let skip := bom_skip (encoder d) data in
    if (0 <? skip)%nat then decode_data (drop skip data) stream (set_bom_seen true d)
    else if stream && bom_fragment (encoder d) data then (Ok [], set_pending data d)
    else if bool_decide (data = []) then decode_data data stream d
    else decode_data data stream (set_bom_seen true d)
  else decode_data data stream d.

(** A program that decodes chunks as a stream and ends it; it stops at the
    first error. *)
Fixpoint decode_stream (chunks : list (list Z)) (d : text_decoder)
    : result decoder_error (list Z) * text_decoder :=
  match chunks with
  | [] => decode None false d
  | c :: chunks =>
      match decode (Some c) true d with
      | (Ok s, d) =>
          match decode_stream chunks d with
          | (Ok t, d) => (Ok (s ++ t), d)
          | (Err e, d) => (Err e, d)
          end
      | (Err e, d) => (Err e, d)
      end
  end.

(** *** TextDecoderStream: what is given to the controller's enqueue *)

Definition enqueue_text (text : list Z) : list (list Z) := match text with [] => [] | _ => [text] end.

Definition enqueue_result (r : result decoder_error (list Z) * text_decoder)
    : result decoder_error (list (list Z)) * text_decoder :=
  match r with
  | (Ok text, d) => (Ok (enqueue_text text), d)
  | (Err e, d) => (Err e, d)
  end.

Definition transform (chunk : list Z) (d : text_decoder)
    : result decoder_error (list (list Z)) * text_decoder := enqueue_result (decode (Some chunk) true d).

Definition flush (d : text_decoder) : result decoder_error (list (list Z)) * text_decoder :=
  enqueue_result (decode None false d).

(** All chunks, then the flush. *)
Fixpoint transform_all (chunks : list (list Z)) (d : text_decoder)
    : result decoder_error (list (list Z)) * text_decoder :=
  match chunks with
  | [] => flush d
  | c :: chunks =>
      match transform c d with
      | (Ok out, d) =>
          match transform_all chunks d with
          | (Ok outs, d) => (Ok (out ++ outs), d)
          | (Err e, d) => (Err e, d)
          end
      | (Err e, d) => (Err e, d)
      end
  end.
End Decode.

(** ** Cutting a text where a character ends *)

(** A character is not read past a byte that cannot continue it. *)
Definition not_cont (s : list Z) : Prop :=
  match s with [] => True | b :: _ => is_cont b = false end.

Lemma second_ok_cont b0 b1 : second_ok b0 b1 = true -> is_cont b1 = true.
Proof. unfold second_ok, in_range, is_cont. intros H. repeat case_match; bool_to_prop; apply andb_true_iff; split; apply Z.leb_le; lia. Qed.

Lemma utf8_step_app b r x : not_cont x -> utf8_step ((b :: r) ++ x) = utf8_step (b :: r).
Proof.
  intros Hx. unfold utf8_step. cbn [app].
  assert (Hs : forall c y, x = c :: y -> second_ok b c = false).
  { intros c y ->. cbn in Hx. destruct (second_ok b c) eqn:E; [|done]. by apply second_ok_cont in E; congruence. }
  destruct x as [|c y]; [by rewrite app_nil_r|]. cbn in Hx. specialize (Hs c y eq_refl).
  destruct (lead_width b) as [|[|[|[|[|n]]]]]; try done;
    (destruct r as [|b1 [|b2 [|b3 r]]]; cbn [app]; rewrite ?Hs, ?Hx; try done; by case_tests).
Qed.

Lemma utf8_step_le b r : ((utf8_step (b :: r)).1 <= length (b :: r))%nat.
Proof.
  unfold utf8_step. destruct (lead_width b) as [|[|[|[|[|n]]]]]; cbn; try lia;
    repeat (case_match; cbn; try lia).
Qed.

(** Decoding in two parts, when no step at the end of the first depends on
    the second. *)
Lemma utf8_decode_app a x :
  (forall b r p, a = p ++ b :: r -> utf8_step ((b :: r) ++ x) = utf8_step (b :: r)) ->
  utf8_decode (a ++ x) = utf8_decode a ++ utf8_decode x.
Proof.
  remember (length a) as n eqn:Hn. revert a Hn.
  induction (lt_wf n) as [n _ IH]. intros a -> Hstep. destruct a as [|b r]; [done|].
  cbn [app]. rewrite !utf8_decode_cons. rewrite (Hstep b r [] eq_refl : utf8_step (b :: r ++ x) = _).
  cbn [app]. f_equal. set (k := (utf8_step (b :: r)).1).
  assert (Hk : (1 <= k <= length (b :: r))%nat) by (split; [apply utf8_step_pos|apply utf8_step_le]).
  change (b :: r ++ x) with ((b :: r) ++ x). rewrite drop_app_le by lia.
  eapply IH; [|reflexivity|].
  - rewrite length_drop. cbn in *. lia.
  - intros b' r' p E. apply (Hstep b' r' (take k (b :: r) ++ p)).
    by rewrite <- app_assoc, <- E, take_drop.
Qed.

Lemma utf8_decode_lead a x : not_cont x -> utf8_decode (a ++ x) = utf8_decode a ++ utf8_decode x.
Proof. intros Hx. apply utf8_decode_app. intros b r p _. by apply utf8_step_app. Qed.

(** *** The incomplete tail *)

Lemma land_cont c : byte_ok c -> (Z.land c 0xC0 =? 0x80) = is_cont c.
Proof.
  intros Hc. apply (check_range (fun c => eqb (Z.land c 0xC0 =? 0x80) (is_cont c)) 256) in Hc; [|by vm_compute].
  by apply eqb_prop.
Qed.

Lemma first_some_seq {A} (f : nat -> option A) k m v :
  (1 <= k <= m)%nat -> (forall i, (1 <= i < k)%nat -> f i = None) -> f k = Some v ->
  first_some (f <$> seq 1 m) = Some v.
Proof.
  intros Hk Hn Hv. replace m with ((k - 1) + S (m - k))%nat by lia. rewrite seq_app, fmap_app.
  assert (Hl : forall l, first_some ((f <$> seq 1 (k - 1)) ++ l) = first_some l).
  { intros l. assert (Hall : Forall (fun i => f i = None) (seq 1 (k - 1))).
    { apply Forall_seq. intros i Hi. apply Hn. lia. }
    induction Hall as [|i js Hi _ IH]; [done|]. cbn. by rewrite Hi. }
  rewrite Hl. replace (1 + (k - 1))%nat with k by lia. cbn. by rewrite Hv.
Qed.

Lemma first_some_elem {A} (l : list (option A)) v : first_some l = Some v -> Some v ∈ l.
Proof. induction l as [|[a|] l IH]; cbn; [done|intros ->; by left|intros H; right; auto]. Qed.

(** The loop looks at the end of the bytes only. *)
Lemma tail_at_suffix p s i : (1 <= i <= length s)%nat -> tail_at (p ++ s) i = tail_at s i.
Proof.
  intros Hi. unfold tail_at. rewrite length_app.
  replace (length p + length s - i)%nat with (length p + (length s - i))%nat by lia.
  rewrite app_nth2 by lia. replace (length p + (length s - i) - length p)%nat with (length s - i)%nat by lia.
  replace (length p + (length s - i) + 1)%nat with (length p + (length s - i + 1))%nat by lia.
  by rewrite drop_app_add.
Qed.

Lemma utf8_tail_suffix p s k : (1 <= k <= 4)%nat -> length s = k ->
  (forall i, (1 <= i < k)%nat -> tail_at s i = None) -> tail_at s k = Some k ->
  utf8_incomplete_tail (p ++ s) = k.
Proof.
  intros Hk Hl Hn Hs. unfold utf8_incomplete_tail. rewrite length_app.
  rewrite (first_some_seq _ k _ k); [done|lia| |rewrite tail_at_suffix; [done|lia]].
  intros i Hi. rewrite tail_at_suffix by lia. by apply Hn.
Qed.

(** A lead byte with fewer bytes after it than it announces. *)
Definition incomplete (b : Z) (r : list Z) : bool :=
  (length r + 1 <? lead_width b)%nat &&
  match r with [] => true | c :: rest => second_ok b c && forallb is_cont rest end.

Lemma incomplete_or_closed b r x :
  incomplete b r = false -> utf8_step ((b :: r) ++ x) = utf8_step (b :: r).
Proof.
  unfold incomplete, utf8_step. cbn [app].
  destruct (lead_width b) as [|[|[|[|[|n]]]]]; try done;
    destruct r as [|b1 [|b2 [|b3 r]]]; cbn -[Nat.ltb]; intros Hi; try done; repeat case_match; cbn in Hi; congruence.
Qed.

(** The turn of the loop at a lead byte, and at a continuation byte. *)
Lemma tail_at_lead b r :
  Forall byte_ok r -> incomplete b r = true -> tail_at (b :: r) (S (length r)) = Some (S (length r)).
Proof.
  intros Hb [Hw Hr]%andb_true_iff. apply Nat.ltb_lt in Hw. unfold tail_at. cbn [length].
  rewrite Nat.sub_diag. change (drop (0 + 1) (b :: r)) with r. cbn [nth].
  assert (Hc : continues b r = true).
  { destruct r as [|c rest]; [done|]. apply andb_true_iff in Hr as [Hs Hrest]. cbn. apply andb_true_iff. split; [exact Hs|].
    apply forallb_forall. intros d Hd. apply forallb_forall with (x := d) in Hrest; [|done].
    rewrite land_cont; [done|]. rewrite List.Forall_forall in Hb. apply Hb. by right. }
  rewrite Hc. unfold lead_width in Hw.
  destruct (b <? 0x80) eqn:E1; [lia|]. unfold in_range in *.
  destruct ((0xC2 <=? b) && (b <=? 0xDF)) eqn:E2; bool_to_prop.
  { rewrite (proj2 (Z.leb_le _ _)) by lia. by rewrite (proj2 (Nat.leb_gt _ _)) by lia. }
  destruct ((0xE0 <=? b) && (b <=? 0xEF)) eqn:E3; bool_to_prop.
  { rewrite (proj2 (Z.leb_le _ _)) by lia. by rewrite (proj2 (Nat.leb_gt _ _)) by lia. }
  destruct ((0xF0 <=? b) && (b <=? 0xF4)) eqn:E4; bool_to_prop; [|lia].
  rewrite (proj2 (Z.leb_le _ _)) by lia. by rewrite (proj2 (Nat.leb_gt _ _)) by lia.
Qed.

Lemma tail_at_cont s i c : nth (length s - i) s 0 = c -> is_cont c = true -> tail_at s i = None.
Proof.
  intros <- Hc. unfold tail_at. apply andb_true_iff in Hc as [H1 H2]. bool_to_prop.
  rewrite (proj2 (Z.ltb_ge _ _)) by lia. by rewrite (proj2 (Z.leb_gt _ _)) by lia.
Qed.

Lemma incomplete_tail p b r :
  Forall byte_ok r -> incomplete b r = true -> utf8_incomplete_tail (p ++ b :: r) = S (length r).
Proof.
  intros Hb Hi. pose proof (tail_at_lead b r Hb Hi) as Hl. unfold incomplete in Hi.
  apply andb_true_iff in Hi as [Hw Hr]. apply Nat.ltb_lt in Hw.
  assert (Hw4 : (lead_width b <= 4)%nat) by (unfold lead_width; repeat case_match; lia).
  apply utf8_tail_suffix; [lia|done| |done]. intros i Hi.
  assert (Hc : Forall (fun c => is_cont c = true) r).
  { destruct r as [|c rest]; [done|]. apply andb_true_iff in Hr as [Hs Hrest].
    constructor; [by eapply second_ok_cont|]. apply List.Forall_forall, forallb_forall. done. }
  eapply tail_at_cont; [done|]. cbn [length].
  destruct (S (length r) - i)%nat as [|j] eqn:E; [lia|]. cbn [nth].
  rewrite List.Forall_forall in Hc. apply Hc, nth_In. lia.
Qed.

(** What is held back starts with a lead byte. *)
Lemma tail_lead data : let k := utf8_incomplete_tail data in
  (k <= length data)%nat /\ ((0 < k)%nat -> not_cont (drop (length data - k) data)).
Proof.
  intros k. destruct (first_some (tail_at data <$> seq 1 (4 `min` length data))) as [v|] eqn:E.
  2:{ assert (k = 0)%nat as -> by (unfold k, utf8_incomplete_tail; by rewrite E). split; lia. }
  assert (k = v) as -> by (unfold k, utf8_incomplete_tail; by rewrite E).
  apply first_some_elem, list_elem_of_fmap in E as (i & Hv & Hi%elem_of_seq).
  symmetry in Hv. unfold tail_at in Hv. destruct (_ <? 0x80); [injection Hv as <-; split; lia|].
  destruct (0xC0 <=? _) eqn:Hlead; [|done].
  assert (v = 0 \/ v = i)%nat as [->| ->]; [repeat case_match; simplify_eq; auto|split; lia|].
  split; [lia|]. intros _. destruct (drop (length data - i) data) as [|b r] eqn:Ed; [done|].
  assert (Hb : nth (length data - i) data 0 = b).
  { rewrite <- (take_drop (length data - i) data) at 2. rewrite app_nth2; rewrite length_take; [|lia].
    rewrite Ed. by replace (_ - _)%nat with 0%nat by lia. }
  rewrite Hb in Hlead. bool_to_prop. cbn. apply andb_false_iff. right. apply Z.leb_gt. lia.
Qed.

(** Decoding up to the incomplete tail, and from there on, is decoding. *)
Lemma utf8_decode_split data rest : Forall byte_ok data ->
  let n := (length data - utf8_incomplete_tail data)%nat in
  utf8_decode (data ++ rest) = utf8_decode (take n data) ++ utf8_decode (drop n data ++ rest).
Proof.
  intros Hb n. destruct (tail_lead data) as [Hk Hlead].
  destruct (utf8_incomplete_tail data) as [|k] eqn:E.
  - unfold n. rewrite Nat.sub_0_r, firstn_all, drop_all. cbn [app]. apply utf8_decode_app.
    intros b r p ->. apply incomplete_or_closed. destruct (incomplete b r) eqn:Hi; [|done].
    rewrite incomplete_tail in E; [done| |done]. apply Forall_app in Hb as [_ Hb]. by inversion Hb.
  - rewrite <- utf8_decode_lead, app_assoc, take_drop; [done|].
    specialize (Hlead ltac:(lia)). fold n in Hlead. assert (Hl : (n < length data)%nat) by lia.
    destruct (drop n data) as [|c y] eqn:Ed; [|done].
    apply (f_equal length) in Ed. rewrite length_drop in Ed. cbn in Ed. lia.
Qed.

(** *** UTF-16 *)

(** No surrogate pair is cut between two lists of units. *)
Definition uncut (a b : list Z) : Prop :=
  forall u v, last a = Some u -> head b = Some v -> is_high u = true -> is_low v = true -> False.

Lemma decode_utf16_app a b : uncut a b -> decode_utf16 (a ++ b) = decode_utf16 a ++ decode_utf16 b.
Proof.
  remember (length a) as n eqn:Hn. revert a Hn. induction (lt_wf n) as [n _ IH]. intros a -> Hu.
  destruct a as [|u r]; [done|].
  assert (Hr : uncut r b).
  { intros x y Hx Hy. apply (Hu x y); [|done]. destruct r; [done|exact Hx]. }
  assert (IHr : decode_utf16 (r ++ b) = decode_utf16 r ++ decode_utf16 b).
  { apply (IH (length r)); [cbn; lia|done|done]. }
  cbn [app decode_utf16]. destruct (is_low u) eqn:Hl; [by rewrite IHr|].
  destruct (is_high u) eqn:Hh; [|by rewrite IHr].
  destruct r as [|v r]; cbn [app] in *.
  - destruct b as [|v b]; [done|]. destruct (is_low v) eqn:Hv; [|done].
    exfalso. by apply (Hu u v).
  - destruct (is_low v); [|by rewrite IHr]. cbn [app]. f_equal.
    apply (IH (length r)); [cbn; lia|done|]. intros x y Hx Hy. apply (Hr x y); [|done].
    destruct r; [done|exact Hx].
Qed.

Definition units (endian : Endian) (s : list Z) : list Z :=
  match endian with Little => units_le s | Big => units_be s end.

Definition unit_of (endian : Endian) (a b : Z) : Z :=
  match endian with Little => a + 256 * b | Big => 256 * a + b end.

Lemma units_app endian x y : (length x mod 2 = 0)%nat -> units endian (x ++ y) = units endian x ++ units endian y.
Proof.
  remember (length x) as n eqn:Hn. revert x Hn. induction (lt_wf n) as [n _ IH]. intros x -> Hx.
  destruct x as [|a [|b x]]; [by destruct endian|done|].
  assert (E : units endian (x ++ y) = units endian x ++ units endian y).
  { apply (IH (length x)); [cbn; lia|done|]. cbn [length] in Hx.
    by rewrite <- (Nat.Div0.mod_add (length x) 1 2), Nat.add_comm. }
  by destruct endian; cbn in *; rewrite E.
Qed.

Lemma units_pair endian a b y : units endian (a :: b :: y) = unit_of endian a b :: units endian y.
Proof. by destruct endian. Qed.

(** The result of two parts. *)
Definition both {E} (r1 r2 : result E (list Z)) : option (list Z) :=
  match r1, r2 with
  | Ok a, Ok b => Some (a ++ b)
  | _, _ => None
  end.

Definition to_option {E A} (r : result E A) : option A :=
  match r with Ok a => Some a | Err _ => None end.

Lemma from_utf16_app a b : uncut a b ->
  from_utf16_lossy (a ++ b) = from_utf16_lossy a ++ from_utf16_lossy b /\
  from_utf16 (a ++ b) = match from_utf16 a, from_utf16 b with Some s, Some t => Some (s ++ t) | _, _ => None end.
Proof.
  intros Hu. unfold from_utf16_lossy, from_utf16. rewrite decode_utf16_app by done. split.
  - by rewrite fmap_app, encode_all_app.
  - rewrite omap_app, encode_all_app. repeat case_bool_decide; rewrite ?Forall_app in *; tauto.
Qed.

Lemma utf16_split endian lossy x y :
  (length x mod 2 = 0)%nat -> uncut (units endian x) (units endian y) ->
  (forall u, units endian y = [] -> last (units endian x) = Some u -> is_high u = false) ->
  to_option (bytes_to_utf16_string (x ++ y) endian lossy) =
  both (bytes_to_utf16_string x endian lossy) (bytes_to_utf16_string y endian lossy).
Proof.
  intros Hx Hu Hlast. unfold bytes_to_utf16_string. fold (units endian (x ++ y)) (units endian x) (units endian y).
  assert (Hodd : (length (x ++ y) mod 2 = length y mod 2)%nat).
  { rewrite length_app, <- Nat.Div0.add_mod_idemp_l, Hx. done. }
  rewrite Hodd, Hx. cbn [Nat.eqb negb]. rewrite andb_false_r. cbn match.
  rewrite units_app by done. destruct (from_utf16_app _ _ Hu) as [E1 E2].
  destruct lossy; cbn [negb andb].
  - rewrite E1. cbn [result_bind both to_option]. f_equal.
    destruct (length y mod 2 =? 0)%nat; cbn [negb andb]; [done|].
    replace (last (units endian x ++ units endian y)) with
      (match units endian y with [] => last (units endian x) | _ => last (units endian y) end).
    2:{ destruct (units endian y); [by rewrite app_nil_r|by rewrite last_app_cons]. }
    destruct (units endian y) as [|v us] eqn:Ey; [|by repeat case_match; rewrite ?app_assoc].
    cbn [last]. destruct (last (units endian x)) as [u|] eqn:El; [|cbn [negb]; by rewrite app_assoc].
    rewrite (Hlast u) by done. cbn [negb]. by rewrite app_assoc.
  - destruct (negb (length y mod 2 =? 0)%nat) eqn:Ho; cbn [andb].
    { cbn. by destruct (lib_result (from_utf16 (units endian x))). }
    rewrite E2. by destruct (from_utf16 (units endian x)), (from_utf16 (units endian y)).
Qed.

Lemma utf8_split lossy data rest : Forall byte_ok data ->
  let n := (length data - utf8_incomplete_tail data)%nat in
  to_option (bytes_to_utf8_string (data ++ rest) lossy) =
  both (bytes_to_utf8_string (take n data) lossy) (bytes_to_utf8_string (drop n data ++ rest) lossy).
Proof.
  intros Hb n. unfold bytes_to_utf8_string. pose proof (utf8_decode_split data rest Hb) as E. fold n in E.
  destruct lossy.
  - unfold from_utf8_lossy. rewrite E. cbn. by rewrite fmap_app, encode_all_app.
  - unfold utf8_valid. rewrite E. repeat case_bool_decide; rewrite ?Forall_app in *; try tauto.
    cbn. by rewrite app_assoc, take_drop.
Qed.

(** The last unit of a list of even length. *)
Lemma split_last_two (x : list Z) n : length x = S (S n) -> exists y a b, x = y ++ [a; b] /\ length y = n.
Proof.
  intros Hl. destruct (drop n x) as [|a [|b [|c y]]] eqn:Ed; apply (f_equal length) in Ed as El;
    rewrite length_drop in El; cbn in El; try lia.
  exists (take n x), a, b. rewrite <- Ed, take_drop, length_take. split; [done|lia].
Qed.

Lemma units_last endian x n : length x = S (S n) -> (n mod 2 = 0)%nat ->
  last (units endian x) = Some (unit_of endian (nth n x 0) (nth (S n) x 0)).
Proof.
  intros (y & a & b & -> & <-)%split_last_two Hn. rewrite units_app by done.
  rewrite !app_nth2 by lia. rewrite Nat.sub_diag, Nat.sub_succ_l, Nat.sub_diag by lia.
  rewrite units_pair. replace (units endian []) with (@nil Z) by (by destruct endian). by rewrite last_snoc.
Qed.

(** [decode_end] of the two byte orders. *)
Definition utf16_end (endian : Endian) (data : list Z) : nat :=
  decode_end (match endian with Little => Utf16le | Big => Utf16be end) data.

Lemma utf16_end_split endian lossy data rest :
  let n := utf16_end endian data in
  (n <= length data)%nat /\
  to_option (bytes_to_utf16_string (data ++ rest) endian lossy) =
  both (bytes_to_utf16_string (take n data) endian lossy) (bytes_to_utf16_string (drop n data ++ rest) endian lossy).
Proof.
  intros n. set (m := (length data - length data mod 2)%nat).
  assert (Hm : (m mod 2 = 0)%nat).
  { unfold m. pose proof (Nat.div_mod_eq (length data) 2).
    replace (_ - _)%nat with (length data / 2 * 2)%nat by lia. apply Nat.Div0.mod_mul. }
  assert (Hn : n = if (2 <=? m)%nat then
      if is_high (unit_of endian (nth (m - 2) data 0) (nth (m - 1) data 0)) then (m - 2)%nat else m
    else m) by (by destruct endian).
  assert (Hlen : forall k, (k <= m)%nat -> length (take k data) = k) by (intros k Hk; rewrite length_take; lia).
  assert (Hle : (n <= m)%nat) by (rewrite Hn; repeat case_match; lia). split; [lia|].
  rewrite <- (take_drop n data) at 1. rewrite <- app_assoc.
  destruct (2 <=? m)%nat eqn:H2; bool_to_prop.
  2:{ assert (Hm0 : (m = 0)%nat) by (destruct m as [|[|m']]; [done|done|lia]).
      rewrite Hn, Hm0. apply utf16_split; [done|by intros ? ? ?; destruct endian|by destruct endian]. }
  assert (Hm2 : ((m - 2) mod 2 = 0)%nat).
  { rewrite <- (Nat.Div0.mod_add (m - 2) 1 2). by replace (m - 2 + 1 * 2)%nat with m by lia. }
  destruct (split_last_two (take m data) (m - 2)) as (y & a & b & Ey & Hy); [rewrite Hlen; lia|].
  assert (Hd : data = y ++ a :: b :: drop m data).
  { rewrite <- (take_drop m data) at 1. rewrite Ey, <- app_assoc. done. }
  remember (drop m data) as z eqn:Hz0.
  assert (Hab : nth (m - 2) data 0 = a /\ nth (m - 1) data 0 = b).
  { rewrite Hd, !app_nth2 by lia. rewrite Hy.
    replace (m - 2 - (m - 2))%nat with 0%nat by lia. by replace (m - 1 - (m - 2))%nat with 1%nat by lia. }
  destruct Hab as [Ha Hb]. rewrite Ha, Hb in Hn. destruct (is_high (unit_of endian a b)) eqn:Hh; rewrite Hn.
  - assert (Hy' : take (m - 2) data = y) by (rewrite Hd, <- Hy; apply take_app_length).
    assert (Hz : drop (m - 2) data = a :: b :: z) by (rewrite Hd, <- Hy; apply drop_app_length).
    rewrite Hy', Hz. cbn [app]. apply utf16_split; [by rewrite Hy| |by rewrite units_pair].
    intros u v _. rewrite units_pair. intros [= <-] _ Hl. unfold is_high, is_low, in_range in *. bool_to_prop. lia.
  - assert (El : last (units endian (take m data)) = Some (unit_of endian a b)).
    { rewrite (units_last _ _ (m - 2)); [|rewrite Hlen; lia|done].
      rewrite Ey, !app_nth2 by lia. rewrite Hy. replace (m - 2 - (m - 2))%nat with 0%nat by lia.
      by replace (S (m - 2) - (m - 2))%nat with 1%nat by lia. }
    apply utf16_split; [rewrite Hlen by lia; done| |].
    + intros u v. rewrite El. intros [= <-]. congruence.
    + intros u _. rewrite El. by intros [= <-].
Qed.

(** ** Decoding a stream *)

Definition text_encoder (e : Encoder) : Prop := e = Utf8 \/ e = Utf16le \/ e = Utf16be \/ e = Windows1252.

Section Stream.
Context `{Codecs}.

Lemma decode_end_split e lossy data rest : text_encoder e -> Forall byte_ok data ->
  let n := decode_end e data in
  (n <= length data)%nat /\
  to_option (encode_to_string e (data ++ rest) lossy) =
  both (encode_to_string e (take n data) lossy) (encode_to_string e (drop n data ++ rest) lossy).
Proof.
  intros He Hb n. destruct He as [-> |[-> |[-> | ->]]]; cbn [encode_to_string].
  - split; [unfold n, decode_end; lia|by apply utf8_split].
  - apply (utf16_end_split Little).
  - apply (utf16_end_split Big).
  - split; [done|]. unfold n, decode_end. rewrite firstn_all, drop_all. cbn.
    unfold bytes_to_windows1252_string. by rewrite fmap_app, encode_all_app.
Qed.

(** The text of bytes that are still to be decoded. *)
Definition text_of (d : text_decoder) (data : list Z) : option (list Z) :=
  let data := if ignore_bom d || bom_seen d then data else drop (bom_skip (encoder d) data) data in
  to_option (encode_to_string (encoder d) data (negb (fatal d))).

Definition fresh (d : text_decoder) : text_decoder := set_bom_seen false (set_pending [] d).

Lemma decode_final c d :
  decode c false d =
  (match text_of d (pending d ++ default [] c) with Some t => Ok t | None => Err TypeError end, fresh d).
Proof.
  unfold decode, text_of. cbn [ignore_bom bom_seen encoder set_pending].
  set (data := pending d ++ default [] c).
  assert (Hd : forall data' d', encoder d' = encoder d -> fatal d' = fatal d -> fresh d' = fresh d ->
    pending d' = [] -> decode_data data' false d' =
    (match to_option (encode_to_string (encoder d) data' (negb (fatal d))) with
     | Some t => Ok t | None => Err TypeError end, fresh d)).
  { intros data' d' He Hf Hfr Hp. unfold decode_data. cbn [andb]. rewrite firstn_all, He, Hf.
    assert (E : set_bom_seen false d' = fresh d) by (rewrite <- Hfr; destruct d'; cbn in *; by subst).
    destruct (encode_to_string _ _ _); cbn; [by rewrite E|by rewrite <- Hfr]. }
  destruct (ignore_bom d || bom_seen d) eqn:E.
  - replace (negb (ignore_bom d) && negb (bom_seen d)) with false by (by destruct (ignore_bom d), (bom_seen d)).
    by apply Hd.
  - replace (negb (ignore_bom d) && negb (bom_seen d)) with true by (by destruct (ignore_bom d), (bom_seen d)).
    destruct (bom_skip (encoder d) data) as [|k]; cbn [Nat.ltb Nat.leb andb]; [|by apply Hd].
    rewrite drop_0. case_bool_decide; by apply Hd.
Qed.

(** What a streaming call has done, for all bytes that may follow. *)
Definition stream_post (d : text_decoder) (before : list Z -> option (list Z))
    (out : result decoder_error (list Z) * text_decoder) : Prop :=
  match out with
  | (Ok s, d') =>
      encoder d' = encoder d /\ fresh d' = fresh d /\ Forall byte_ok (pending d') /\
      forall rest, before rest = app s <$> text_of d' (pending d' ++ rest)
  | (Err e, d') => e = TypeError /\ d' = fresh d /\ forall rest, before rest = None
  end.

Lemma decode_data_stream data d :
  text_encoder (encoder d) -> Forall byte_ok data -> pending d = [] -> ignore_bom d || bom_seen d = true ->
  stream_post d (fun rest => to_option (encode_to_string (encoder d) (data ++ rest) (negb (fatal d))))
    (decode_data data true d).
Proof.
  intros He Hb Hp Hs. unfold decode_data. cbn [andb]. set (n := decode_end (encoder d) data).
  assert (E : (if (n <? length data)%nat then set_pending (drop n data) d else d) = set_pending (drop n data) d).
  { case_match; [done|]. bool_to_prop. rewrite drop_ge by done. destruct d. cbn in *. by subst. }
  rewrite E. cbn [encoder fatal set_pending].
  assert (Hsplit : forall rest, _) by exact (fun rest => proj2 (decode_end_split (encoder d) (negb (fatal d)) data rest He Hb)).
  fold n in Hsplit. destruct (encode_to_string (encoder d) (take n data) (negb (fatal d))) as [s|e]; cbn.
  - split_and!; try done; [by apply Forall_drop|]. intros rest. rewrite Hsplit. unfold text_of. cbn.
    rewrite Hs. by destruct (encode_to_string _ _ _).
  - split_and!; try done; intros rest; by rewrite Hsplit.
Qed.

(** A mark at the start of the data stays where it is when more follows. *)
Lemma starts_with_cons x p y s : starts_with (x :: p) (y :: s) = (x =? y) && starts_with p s.
Proof.
  unfold starts_with. destruct (Z.eqb_spec x y) as [->|Hne]; cbn [andb].
  - apply bool_decide_ext. split; [apply prefix_cons_inv_2|apply prefix_cons].
  - apply bool_decide_eq_false. intros Hp%prefix_cons_inv_1. done.
Qed.

Lemma starts_with_nil s : starts_with [] s = true.
Proof. apply bool_decide_eq_true, prefix_nil. Qed.

Lemma starts_with_short x p : starts_with (x :: p) [] = false.
Proof. apply bool_decide_eq_false. by intros ?%prefix_nil_not. Qed.

Lemma bom_skip_app e data rest :
  bom_fragment e data = false -> data <> [] -> bom_skip e (data ++ rest) = bom_skip e data.
Proof.
  intros Hf Hne. destruct e; try done; unfold bom_skip, bom_fragment in *;
    destruct data as [|a [|b [|c data]]]; try done; cbn [app] in *;
    rewrite ?starts_with_cons, ?starts_with_nil, ?starts_with_short; try done;
    repeat (match goal with |- context [?x =? ?y] => destruct (Z.eqb_spec x y) end; cbn [andb]);
    subst; try done; by vm_compute in Hf.
Qed.

Lemma bom_skip_nil e : bom_skip e [] = 0%nat.
Proof. destruct e; unfold bom_skip; by rewrite ?starts_with_short. Qed.

Lemma bom_skip_le e data : (bom_skip e data <= length data)%nat.
Proof.
  destruct e; unfold bom_skip; try lia; destruct (starts_with _ _) eqn:E; try lia;
    apply bool_decide_eq_true, prefix_length in E; cbn in E; lia.
Qed.

Lemma decode_stream_step c d :
  text_encoder (encoder d) -> Forall byte_ok (pending d ++ c) ->
  stream_post d (fun rest => text_of d (pending d ++ c ++ rest)) (decode (Some c) true d).
Proof.
  intros He Hb. unfold decode. change (default [] (Some c)) with c. cbn [ignore_bom bom_seen encoder set_pending].
  set (data := pending d ++ c) in *.
  assert (Hbefore : forall rest, pending d ++ c ++ rest = data ++ rest) by (intros; unfold data; by rewrite app_assoc).
  assert (Hpost : forall data' d', encoder d' = encoder d -> fatal d' = fatal d -> fresh d' = fresh d ->
    pending d' = [] -> ignore_bom d' || bom_seen d' = true -> Forall byte_ok data' ->
    (forall rest, text_of d (data ++ rest) = to_option (encode_to_string (encoder d) (data' ++ rest) (negb (fatal d)))) ->
    stream_post d (fun rest => text_of d (pending d ++ c ++ rest)) (decode_data data' true d')).
  { intros data' d' E1 E2 E3 E4 E5 Hb' Ht. pose proof (decode_data_stream data' d') as P.
    rewrite E1, E2 in P. specialize (P He Hb' E4 E5). unfold stream_post in *.
    destruct (decode_data data' true d') as [[s|e] d''].
    - destruct P as (P1 & P2 & P3 & P4). split_and!; [congruence|congruence|done|].
      intros rest. by rewrite Hbefore, Ht, P4.
    - destruct P as (P1 & P2 & P3). split_and!; [done|congruence|]. intros rest. by rewrite Hbefore, Ht. }
  destruct (ignore_bom d || bom_seen d) eqn:Hs.
  { replace (negb (ignore_bom d) && negb (bom_seen d)) with false by (by destruct (ignore_bom d), (bom_seen d)).
    apply Hpost; try done. intros rest. unfold text_of. by rewrite Hs. }
  replace (negb (ignore_bom d) && negb (bom_seen d)) with true by (by destruct (ignore_bom d), (bom_seen d)).
  destruct (0 <? bom_skip (encoder d) data)%nat eqn:Hk; bool_to_prop.
  { assert (Hne : data <> []) by (intros E; rewrite E, bom_skip_nil in Hk; lia).
    assert (Hf : bom_fragment (encoder d) data = false).
    { destruct (bom_fragment _ _) eqn:E; [|done]. exfalso. revert E Hk.
      destruct He as [-> |[-> |[-> | ->]]]; cbn [bom_fragment]; intros E; [apply orb_true_iff in E as [E|E]|..];
        try done; apply bool_decide_eq_true in E; rewrite E; cbn; unfold starts_with; case_bool_decide as Hp; try lia;
        apply prefix_length in Hp; cbn in Hp; lia. }
    apply Hpost; try done; [by rewrite orb_true_r|by apply Forall_drop|].
    intros rest. unfold text_of. rewrite Hs, bom_skip_app by done. by rewrite drop_app_le by apply bom_skip_le. }
  assert (Hskip : bom_skip (encoder d) data = 0%nat) by lia.
  destruct (bom_fragment (encoder d) data) eqn:Hf; cbn [andb].
  { split_and!; try done. intros rest. rewrite Hbefore. unfold text_of. cbn. rewrite Hs. by destruct (to_option _). }
  case_bool_decide as Hd.
  - assert (E0 : decode_data data true (set_pending [] d) = (Ok [], set_pending [] d)).
    { rewrite Hd. destruct d as [e f i p b]. cbn in He. destruct He as [-> |[-> |[-> | ->]]]; by destruct f. }
    rewrite E0. split_and!; try done. intros rest. rewrite Hbefore, Hd. cbn [app pending set_pending].
    change (text_of (set_pending [] d) rest) with (text_of d rest). by destruct (text_of d rest).
  - apply Hpost; try done; [by rewrite orb_true_r|]. intros rest. unfold text_of.
    by rewrite Hs, bom_skip_app, Hskip, drop_0 by done.
Qed.

(** The stream class enqueues the texts of the calls. *)
Lemma transform_all_spec chunks : forall d,
  let '(r, d') := transform_all chunks d in
  (match r with Ok outs => Ok (concat outs) | Err e => Err e end, d') = decode_stream chunks d.
Proof.
  assert (Hq : forall text, concat (enqueue_text text) = text).
  { intros [|b text]; [done|]. cbn. by rewrite app_nil_r. }
  induction chunks as [|c chunks IH]; intros d; cbn [transform_all decode_stream]; unfold flush, transform.
  - destruct (decode None false d) as [[s|e] d']; cbn; by rewrite ?Hq.
  - destruct (decode (Some c) true d) as [[s|e] d']; cbn [enqueue_result]; [|done]. specialize (IH d').
    destruct (transform_all chunks d') as [[outs|e] d'']; rewrite <- IH; [|done].
    by rewrite concat_app, Hq.
Qed.

(** C36: for the encodings of text (UTF-8, UTF-16 in both orders and
    windows-1252, not the hex and base64 labels), however a byte stream is cut
    into chunks, decoding the chunks as a stream and ending it is decoding all
    the bytes at once: the same text, the same failure, and a decoder that is
    ready for the next text. Characters, surrogate pairs and the byte order
    mark may be cut anywhere; fatal decoders fail for a stream exactly when
    they fail for its bytes. The texts a TextDecoderStream enqueues for the
    chunks are that text. *)
Theorem text_decoder_chunks chunks d :
  text_encoder (encoder d) -> Forall byte_ok (pending d) -> Forall (Forall byte_ok) chunks ->
  decode_stream chunks d = decode (Some (concat chunks)) false d /\
  (decode_stream chunks d).2 = fresh d /\
  let '(r, d') := transform_all chunks d in
  (match r with Ok outs => Ok (concat outs) | Err e => Err e end, d') = decode (Some (concat chunks)) false d.
Proof.
  intros He Hp Hc. assert (E : decode_stream chunks d = decode (Some (concat chunks)) false d).
  2:{ split; [done|]. split; [by rewrite E, decode_final|]. pose proof (transform_all_spec chunks d) as T. by rewrite E in T. }
  rewrite decode_final. change (default [] (Some (concat chunks))) with (concat chunks). revert d He Hp. induction Hc as [|c chunks Hc _ IH]; intros d He Hp.
  { cbn [decode_stream]. by rewrite decode_final. }
  cbn [decode_stream]. pose proof (decode_stream_step c d He) as P.
  specialize (P ltac:(by apply Forall_app)). cbn [concat]. unfold stream_post in P.
  destruct (decode (Some c) true d) as [[s|e] d'].
  - destruct P as (P1 & P2 & P3 & P4). rewrite IH; [|congruence|done]. rewrite P2, P4.
    by destruct (text_of d' (pending d' ++ concat chunks)).
  - destruct P as (-> & -> & P3). by rewrite P3.
Qed.

(** Without [fatal] a text decoder never fails. *)
Lemma text_decoder_lossy_total c d :
  text_encoder (encoder d) -> fatal d = false -> exists t, (decode c false d).1 = Ok t.
Proof.
  intros He Hf. rewrite decode_final. unfold text_of. rewrite Hf.
  destruct He as [-> |[-> |[-> | ->]]]; eexists; reflexivity.
Qed.
End Stream.

(** *** Witnesses *)

(** A byte order mark and U+1F600, cut inside both. *)
Lemma text_decoder_chunks_witness :
  (decode_stream (H := rfc4648) [[0xEF]; [0xBB; 0xBF; 0xF0]; [0x9F; 0x98]; [0x80; 0x41]]
     (mkDecoder Utf8 true false [] false)).1 = Ok [0xF0; 0x9F; 0x98; 0x80; 0x41].
Proof.
  pose proof (text_decoder_chunks (H := rfc4648) [[0xEF]; [0xBB; 0xBF; 0xF0]; [0x9F; 0x98]; [0x80; 0x41]]
    (mkDecoder Utf8 true false [] false)) as [-> _].
  - left. reflexivity.
  - constructor.
  - repeat constructor; vm_compute; congruence.
  - vm_compute. reflexivity.
Defined.

(** A cut stream that is not UTF-8 fails for a fatal decoder. *)
Example text_decoder_cut_fails :
  (decode_stream (H := rfc4648) [[0xF0; 0x9F]; [0x41]] (mkDecoder Utf8 true false [] false)).1 = Err TypeError /\
  (decode_stream (H := rfc4648) [[0xF0; 0x9F]; [0x41]] (mkDecoder Utf8 false false [] false)).1 =
    Ok (utf8_encode REPLACEMENT ++ [0x41]).
Proof. vm_compute. split; reflexivity. Qed.
