(* ===== verification/TextEncoder.v ===== *)
(** * TextEncoder and TextEncoderStream

    src/modules/llrt_util/src/text_encoder.rs and text_encoder_stream.rs, with
    the WTF-8 encoder of src/libs/llrt_utils/src/bytes.rs.  A string of the
    engine is a list of UTF-16 units; the engine hands it out as WTF-8
    ([string_bytes]).  [None] is a panic (an index out of bounds).  The bytes
    of the destination of [encode_into] are an argument and a result; the
    conversion of a chunk that is not a string is bindings code. *)
From Stdlib Require Import ZArith Lia.
From stdpp Require Import base list numbers strings.
From S2P Require Import Prelude Utf8 Utf16 Js LossyString.
Open Scope Z_scope.

(** ** Strings of the engine *)

(** The code points of a string: a pair of surrogates is one, a lone surrogate
    stands for itself. *)
Fixpoint points (us : list Z) : list Z :=
  match us with
  | [] => []
  | u :: rest =>
      if is_high u then
        match rest with
        | v :: rest' =>
            if is_low v then (0x10000 + (u - 0xD800) * 0x400 + (v - 0xDC00)) :: points rest'
            else u :: points rest
        | [] => [u]
        end
      else u :: points rest
  end.

Definition string_bytes (us : list Z) : list Z := encode_all (points us).

(** ** The WTF-8 encoder *)

(** The code point at the front of the bytes, and its width. *)
Definition decode_wtf8 (bytes : list Z) : option (Z * nat) :=
  let! first := head bytes in
  if first <? 0x80 then Some (first, 1%nat)
  else if first <? 0xe0 then
    let! b1 := bytes !! 1%nat in
    Some (Z.lor (Z.shiftl (Z.land first 0x1f) 6) (Z.land b1 0x3f), 2%nat)
  else if first <? 0xf0 then
    let! b1 := bytes !! 1%nat in
    let! b2 := bytes !! 2%nat in
    Some (Z.lor (Z.lor (Z.shiftl (Z.land first 0x0f) 12) (Z.shiftl (Z.land b1 0x3f) 6))
                (Z.land b2 0x3f), 3%nat)
  else
    let! b1 := bytes !! 1%nat in
    let! b2 := bytes !! 2%nat in
    let! b3 := bytes !! 3%nat in
    Some (Z.lor (Z.lor (Z.lor (Z.shiftl (Z.land first 0x07) 18) (Z.shiftl (Z.land b1 0x3f) 12))
                       (Z.shiftl (Z.land b2 0x3f) 6))
                (Z.land b3 0x3f), 4%nat).

(** The bytes it adds to the output. *)
Definition append_code_point (code_point : Z) : list Z :=
  if is_scalar code_point then utf8_encode code_point else [].

(** The body of the loop of [encode_wtf8] for one code point: the new pending
    unit and the bytes added. *)
Definition encode_point (pending : option Z) (code_point : Z) : option Z * list Z :=
  let unit := wrap 16 code_point in
  let alone out :=
    if in_range 0xd800 0xdbff unit then (Some unit, out)
    else if in_range 0xdc00 0xdfff unit then (None, out ++ append_code_point 0xfffd)
    else (None, out ++ append_code_point code_point) in
  match pending with
  | Some high =>
      if in_range 0xdc00 0xdfff unit then
        (None, append_code_point (0x10000 + Z.shiftl (high - 0xd800) 10 + (unit - 0xdc00)))
      else alone (append_code_point 0xfffd)
  | None => alone []
  end.

(** [fuel] bounds the number of code points by the number of bytes. *)
Fixpoint encode_wtf8_loop (fuel : nat) (bytes : list Z) (pending : option Z) (output : list Z)
    : option (option Z * list Z) :=
  match fuel, bytes with
  | _, [] => Some (pending, output)
  | O, _ => None
  | S fuel, _ =>
      let! (code_point, width) := decode_wtf8 bytes in
      let '(pending, out) := encode_point pending code_point in
      encode_wtf8_loop fuel (drop width bytes) pending (output ++ out)
  end.

Definition encode_wtf8 (bytes : list Z) (pending : option Z) (output : list Z)
    : option (option Z * list Z) := encode_wtf8_loop (length bytes) bytes pending output.

Definition flush_wtf8 (pending : option Z) (output : list Z) : option Z * list Z :=
  match pending with
  | Some _ => (None, output ++ append_code_point 0xfffd)
  | None => (None, output)
  end.

(** ** TextEncoder *)

(** [encode] of a string. *)
Definition encode (us : list Z) : option (list Z) :=
  let! (pending, output) := encode_wtf8 (string_bytes us) None [] in
  Some (flush_wtf8 pending output).2.

(** The argument of [encode], and an error with its message. *)
Inductive js_arg := Missing | Undefined | Str (us : list Z) | Other.

Definition encode_value (string : js_arg) : option (result (list Z) (list Z)) :=
  match string with
  | Str us => let! output := encode us in Some (Ok output)
  | Other => Some (Err (str "The 'string' argument must be a string."))
  | Missing | Undefined => Some (Ok [])
  end.

(** The bytes of the characters that fit into [dst_len]. *)
Fixpoint fitting (dst_len : nat) (written : nat) (cs : list Z) : nat :=
  match cs with
  | [] => written
  | ch :: cs =>
      let len := length (utf8_encode ch) in
      if (dst_len <? written + len)%nat then written else fitting dst_len (written + len) cs
  end.

(** The destination, [read] and [written]. *)
Definition encode_into (us : list Z) (dst : list Z) : list Z * nat * nat :=
  let src := get_lossy_string (string_bytes us) in
  let written := fitting (length dst) 0 (chars src) in
  let dst := take written src ++ drop written dst in
  let read := list_sum (fmap (fun c => length (utf16_units c)) (chars (take written src))) in
  (dst, read, written).

(** ** TextEncoderStream *)

(** The state is the AtomicU16, with 0 for none; the result is what is given
    to the controller's enqueue, if anything. *)
Definition load_pending (pending : Z) : option Z := if pending =? 0 then None else Some pending.
Definition enqueued (output : list Z) : list (list Z) := match output with [] => [] | _ => [output] end.

Definition transform_chunk (us : list Z) (pending : Z) : option (Z * list (list Z)) :=
  let! (pending_value, output) := encode_wtf8 (string_bytes us) (load_pending pending) [] in
  Some (default 0 pending_value, enqueued output).

Definition flush_stream (pending : Z) : Z * list (list Z) :=
  let '(pending_value, output) := flush_wtf8 (load_pending pending) [] in
  (default 0 pending_value, enqueued output).

(** All chunks, then the flush. *)
Fixpoint encode_stream (chunks : list (list Z)) (pending : Z) : option (list (list Z)) :=
  match chunks with
  | [] => Some (flush_stream pending).2
  | us :: chunks =>
      let! (pending, out) := transform_chunk us pending in
      let! outs := encode_stream chunks pending in
      Some (out ++ outs)
  end.

(** ** Decoding what the engine gives *)

Lemma lor_add a b n : 0 <= n -> 0 <= b < 2 ^ n -> Z.lor (Z.shiftl a n) b = a * 2 ^ n + b.
Proof.
  intros Hn Hb. rewrite Z.shiftl_mul_pow2 by done.
  pose proof (Z.add_lor_land (a * 2 ^ n) b) as E.
  assert (Z.land (a * 2 ^ n) b = 0); [|lia].
  apply Z.bits_inj'. intros i Hi. rewrite Z.land_spec, Z.bits_0.
  destruct (Z.ltb_spec i n).
  - by rewrite Z.mul_pow2_bits_low.
  - replace b with (b mod 2 ^ n) by (by apply Z.mod_small). by rewrite Z.mod_pow2_bits_high, andb_false_r by lia.
Qed.

Lemma land_low m k x : 0 <= k -> 0 <= x < 2 ^ k -> Z.land (m * 2 ^ k + x) (Z.ones k) = x.
Proof.
  intros Hk Hx. rewrite Z.land_ones by done. rewrite Z.add_comm, Z.mod_add by lia. by apply Z.mod_small.
Qed.

Lemma land_cont_low x : Z.land (128 + x mod 64) 0x3f = x mod 64.
Proof. apply (land_low 2 6); [lia|]. apply Z.mod_pos_bound. lia. Qed.

Lemma decode_wtf8_encode c rest :
  code_point c -> decode_wtf8 (utf8_encode c ++ rest) = Some (c, length (utf8_encode c)).
Proof.
  intros Hc. unfold code_point in Hc. unfold utf8_encode, decode_wtf8.
  pose proof (Z.mod_pos_bound c 64 ltac:(lia)). pose proof (Z.mod_pos_bound (c / 64) 64 ltac:(lia)).
  pose proof (Z.mod_pos_bound (c / 4096) 64 ltac:(lia)).
  pose proof (Z.div_mod c 64 ltac:(lia)) as E1. pose proof (Z.div_mod (c / 64) 64 ltac:(lia)) as E2.
  pose proof (Z.div_mod (c / 4096) 64 ltac:(lia)) as E3.
  rewrite Z.div_div in E2, E3 by lia. change (64 * 64) with 4096 in E2. change (4096 * 64) with 262144 in E3.
  destruct (Z.ltb_spec c 0x80) as [L1|L1].
  { cbn. by rewrite (proj2 (Z.ltb_lt c 128)) by lia. }
  destruct (Z.ltb_spec c 0x800) as [L2|L2].
  { cbn [app head lookup list_lookup]. assert (0 <= c / 64 < 32) by (split; [apply Z.div_pos|apply Z.div_lt_upper_bound]; lia).
    rewrite (proj2 (Z.ltb_ge _ _)), (proj2 (Z.ltb_lt (192 + c / 64) 0xe0)) by lia.
    rewrite land_cont_low. rewrite (land_low 6 5) by lia. rewrite lor_add by lia. cbn [length]. do 2 f_equal. lia. }
  destruct (Z.ltb_spec c 0x10000) as [L3|L3].
  { cbn [app head lookup list_lookup]. assert (0 <= c / 4096 < 16) by (split; [apply Z.div_pos|apply Z.div_lt_upper_bound]; lia).
    rewrite (proj2 (Z.ltb_ge _ 0x80)), (proj2 (Z.ltb_ge _ 0xe0)), (proj2 (Z.ltb_lt (224 + c / 4096) 0xf0)) by lia.
    rewrite !land_cont_low. rewrite (land_low 14 4) by lia. rewrite <- Z.lor_assoc.
    rewrite (lor_add _ _ 6), (lor_add _ _ 12) by lia. cbn [length]. do 2 f_equal. lia. }
  cbn [app head lookup list_lookup].
  assert (0 <= c / 262144 < 8) by (split; [apply Z.div_pos|apply Z.div_lt_upper_bound]; lia).
  rewrite (proj2 (Z.ltb_ge _ 0x80)), (proj2 (Z.ltb_ge _ 0xe0)), (proj2 (Z.ltb_ge _ 0xf0)) by lia.
  rewrite !land_cont_low. rewrite (land_low 30 3) by lia. rewrite <- !Z.lor_assoc.
  rewrite (lor_add _ _ 6), (lor_add _ _ 12), (lor_add _ _ 18) by lia. cbn [length]. do 2 f_equal. lia.
Qed.

(** ** Encoding *)

Definition unit16 (u : Z) : Prop := 0 <= u < 0x10000.

(** A code point that [code_point as u16] does not turn into a surrogate. *)
Definition keeps_unit (c : Z) : Prop := 0x10000 <= c -> surrogate (wrap 16 c) = false.

Lemma pair_units u v : is_high u = true -> is_low v = true ->
  let c := 0x10000 + (u - 0xD800) * 0x400 + (v - 0xDC00) in
  0x10000 <= c < 0x110000 /\ utf16_units c = [u; v].
Proof.
  intros Hu Hv c. unfold is_high, is_low, in_range in *. bool_to_prop.
  assert (Hc : c - 0x10000 = (u - 0xD800) * 0x400 + (v - 0xDC00)) by (unfold c; lia).
  split; [unfold c; lia|]. unfold utf16_units. rewrite (proj2 (Z.ltb_ge _ _)) by lia. rewrite Hc.
  rewrite Z.div_add_l by lia. rewrite (Z.add_comm (_ * _)), Z.mod_add by lia. rewrite Z.div_small, Z.mod_small by lia.
  f_equal; [lia|f_equal; lia].
Qed.

Lemma unit_units u : unit16 u -> utf16_units u = [u].
Proof. unfold unit16, utf16_units. intros Hu. by rewrite (proj2 (Z.ltb_lt _ _)) by lia. Qed.

Lemma points_spec us : Forall unit16 us ->
  concat (utf16_units <$> points us) = us /\ Forall code_point (points us).
Proof.
  remember (length us) as n eqn:Hn. revert us Hn. induction (lt_wf n) as [n _ IH]. intros us -> Hus.
  destruct Hus as [|u us Hu Hus]; [done|]. cbn [points].
  assert (Hone : forall us', length us' = length us -> Forall unit16 us' ->
    concat (utf16_units <$> u :: points us') = u :: us' /\ Forall code_point (u :: points us')).
  { intros us' Hl Hus'. destruct (IH (length us')) with (us := us') as [E F]; [cbn; lia|done|done|].
    rewrite fmap_cons. cbn [concat]. rewrite E, unit_units by done. split; [done|].
    constructor; [unfold unit16, code_point in *; lia|done]. }
  destruct (is_high u) eqn:Hh; [|by apply Hone].
  destruct us as [|v us]; [by apply (Hone [])|]. destruct (is_low v) eqn:Hl; [|by apply Hone].
  apply Forall_cons in Hus as [Hv Hus].
  destruct (IH (length us)) with (us := us) as [E F]; [cbn; lia|done|done|].
  destruct (pair_units u v Hh Hl) as [Hc Ec]. rewrite fmap_cons. cbn [concat]. rewrite E, Ec.
  split; [done|]. constructor; [unfold code_point; lia|done].
Qed.

(** *** Lossy decoding of UTF-16, unit by unit *)

Lemma lossy_plain u us : surrogate u = false -> from_utf16_lossy (u :: us) = utf8_encode u ++ from_utf16_lossy us.
Proof.
  unfold surrogate, from_utf16_lossy. cbn [decode_utf16]. intros Hs.
  replace (is_low u) with false; [replace (is_high u) with false; [done|]|];
    symmetry; unfold is_high, is_low, in_range in *; apply andb_false_iff in Hs; apply andb_false_iff;
    rewrite ?Z.leb_gt in *; lia.
Qed.

Lemma lossy_low u us : is_low u = true -> from_utf16_lossy (u :: us) = FFFD ++ from_utf16_lossy us.
Proof. unfold from_utf16_lossy. cbn [decode_utf16]. by intros ->. Qed.

Lemma high_not_low u : is_high u = true -> is_low u = false.
Proof.
  unfold is_high, is_low, in_range. intros H. bool_to_prop. apply andb_false_iff. left. apply Z.leb_gt. lia.
Qed.

Lemma lossy_pair u v us : is_high u = true -> is_low v = true ->
  from_utf16_lossy (u :: v :: us) = utf8_encode (0x10000 + (u - 0xD800) * 0x400 + (v - 0xDC00)) ++ from_utf16_lossy us.
Proof. intros Hu Hv. unfold from_utf16_lossy. cbn [decode_utf16]. by rewrite high_not_low, Hu, Hv. Qed.

Lemma lossy_high u us : is_high u = true -> (forall v us', us = v :: us' -> is_low v = false) ->
  from_utf16_lossy (u :: us) = FFFD ++ from_utf16_lossy us.
Proof.
  intros Hu Hv. unfold from_utf16_lossy. cbn [decode_utf16]. rewrite high_not_low, Hu by done.
  destruct us as [|v us]; [done|]. by rewrite (Hv v us).
Qed.

Definition held (pending : option Z) : list Z := match pending with Some u => [u] | None => [] end.
Definition pending_ok (pending : option Z) : Prop := forall u, pending = Some u -> is_high u = true.

(** One code point: what it adds is what its units, after the pending one,
    decode to before whatever follows. *)
Lemma encode_point_spec pending c :
  code_point c -> keeps_unit c -> pending_ok pending ->
  let '(pending', out) := encode_point pending c in
  pending_ok pending' /\
  forall rest, from_utf16_lossy (held pending ++ utf16_units c ++ rest) =
    out ++ from_utf16_lossy (held pending' ++ rest).
Proof.
  intros Hc Hk Hp. unfold encode_point. set (unit := wrap 16 c).
  assert (Hsc : append_code_point 0xfffd = FFFD) by done. rewrite Hsc.
  destruct (Z.ltb_spec c 0x10000) as [Hlt|Hge].
  - assert (Hu : unit = c) by (unfold unit, wrap; apply Z.mod_small; unfold code_point in *; lia).
    rewrite Hu. rewrite unit_units by (unfold unit16, code_point in *; lia). cbn [app].
    fold (is_high c) (is_low c).
    assert (Halone : forall out, let '(pending', out') :=
        (if is_high c then (Some c, out) else if is_low c then (None, out ++ FFFD) else (None, out ++ append_code_point c)) in
      pending_ok pending' /\
      forall rest, out ++ from_utf16_lossy (c :: rest) = out' ++ from_utf16_lossy (held pending' ++ rest)).
    { intros out. destruct (is_high c) eqn:Hh; [|destruct (is_low c) eqn:Hl].
      - split; [by intros ? [= <-]|done].
      - split; [done|]. intros rest. cbn [held app]. by rewrite lossy_low, app_assoc.
      - split; [done|]. intros rest. cbn [held app]. assert (Hs : surrogate c = false).
        { unfold surrogate, is_high, is_low, in_range in *. apply andb_false_iff in Hh, Hl. apply andb_false_iff.
          rewrite ?Z.leb_gt in *. lia. }
        rewrite lossy_plain, app_assoc by done. f_equal. f_equal. unfold append_code_point.
        replace (is_scalar c) with true; [done|]. symmetry. unfold is_scalar, surrogate, in_range, code_point in *.
        apply andb_false_iff in Hs. rewrite ?Z.leb_gt in Hs. apply orb_true_iff. rewrite !andb_true_iff, !Z.leb_le. lia. }
    destruct pending as [high|]; [|apply (Halone [])]. specialize (Hp high eq_refl).
    destruct (is_low c) eqn:Hl.
    + split; [done|]. intros rest. cbn [held app]. rewrite lossy_pair by done. f_equal. rewrite Z.shiftl_mul_pow2 by lia.
      destruct (pair_units high c Hp Hl) as [Hr _]. unfold append_code_point.
      change (2 ^ 10) with 0x400. replace (is_scalar _) with true; [done|]. symmetry.
      unfold is_scalar, in_range. apply orb_true_iff. rewrite !andb_true_iff, !Z.leb_le. lia.
    + specialize (Halone FFFD). destruct (is_high c) eqn:Hh; cbn [app held] in *;
        (destruct Halone as [Ha Hb]; split; [exact Ha|]); intros rest; (etrans; [|apply Hb]);
        (apply lossy_high; [done|]); by intros v us' [= <- _].
  - specialize (Hk Hge). unfold unit in *. set (u := wrap 16 c) in *.
    assert (Hnh : is_high u = false /\ is_low u = false).
    { unfold surrogate, is_high, is_low, in_range in *. apply andb_false_iff in Hk. rewrite ?Z.leb_gt in Hk.
      split; apply andb_false_iff; rewrite ?Z.leb_gt; lia. }
    destruct Hnh as [Hnh Hnl]. fold (is_high u) (is_low u). rewrite Hnh, Hnl.
    assert (Hcs : append_code_point c = utf8_encode c).
    { unfold append_code_point. replace (is_scalar c) with true; [done|]. symmetry. unfold is_scalar, in_range, code_point in *.
      apply orb_true_iff. rewrite !andb_true_iff, !Z.leb_le. lia. }
    rewrite Hcs. set (h := 0xD800 + (c - 0x10000) / 0x400). set (l := 0xDC00 + (c - 0x10000) mod 0x400).
    assert (Hx : is_high h = true /\ is_low l = true).
    { unfold is_high, is_low, in_range, h, l, code_point in *. pose proof (Z.mod_pos_bound (c - 0x10000) 0x400 ltac:(lia)).
      assert (0 <= (c - 0x10000) / 0x400 < 0x400) by (split; [apply Z.div_pos|apply Z.div_lt_upper_bound]; lia).
      rewrite !andb_true_iff, !Z.leb_le. lia. }
    destruct Hx as [Hh Hl].
    assert (Hunits : utf16_units c = [h; l]) by (unfold utf16_units; by rewrite (proj2 (Z.ltb_ge _ _)) by lia).
    assert (Hpair : forall rest, from_utf16_lossy (h :: l :: rest) = utf8_encode c ++ from_utf16_lossy rest).
    { intros rest. rewrite lossy_pair by done. do 2 f_equal. unfold h, l.
      pose proof (Z.div_mod (c - 0x10000) 0x400 ltac:(lia)). lia. }
    rewrite Hunits. destruct pending as [high|]; (split; [done|]); intros rest; cbn [held app].
    + rewrite lossy_high; [|by apply Hp|by intros v us' [= <- _]; apply high_not_low]. by rewrite Hpair, app_assoc.
    + apply Hpair.
Qed.

Lemma encode_loop_spec cs : forall fuel pending output,
  Forall code_point cs -> Forall keeps_unit cs -> pending_ok pending ->
  (length (encode_all cs) <= fuel)%nat ->
  exists pending' out, encode_wtf8_loop fuel (encode_all cs) pending output = Some (pending', output ++ out) /\
    pending_ok pending' /\
    forall rest, from_utf16_lossy (held pending ++ concat (utf16_units <$> cs) ++ rest) =
      out ++ from_utf16_lossy (held pending' ++ rest).
Proof.
  induction cs as [|c cs IH]; intros fuel pending output Hc Hk Hp Hf.
  { exists pending, []. split_and!; [|done|done]. rewrite app_nil_r. by destruct fuel. }
  apply Forall_cons in Hc as [Hc Hcs], Hk as [Hkc Hks].
  rewrite encode_all_cons in *. destruct (utf8_encode_cons c) as (b & r & Eb).
  pose proof (decode_wtf8_encode c (encode_all cs) Hc) as Ed.
  destruct fuel as [|fuel]; [rewrite Eb in Hf; cbn in Hf; lia|].
  assert (Eloop : encode_wtf8_loop (S fuel) (utf8_encode c ++ encode_all cs) pending output =
    let '(pending, out) := encode_point pending c in
    encode_wtf8_loop fuel (encode_all cs) pending (output ++ out)).
  { destruct (utf8_encode c ++ encode_all cs) as [|x y] eqn:E; [by rewrite Eb in E|].
    cbn [encode_wtf8_loop]. rewrite Ed, <- E. by rewrite drop_app_length. }
  rewrite Eloop. pose proof (encode_point_spec pending c Hc Hkc Hp) as P.
  destruct (encode_point pending c) as [pending1 out1]. destruct P as [Hp1 Hrest].
  destruct (IH fuel pending1 (output ++ out1) Hcs Hks Hp1) as (pending2 & out2 & E2 & Hp2 & Hrest2).
  { rewrite length_app, Eb in Hf. cbn in Hf. lia. }
  exists pending2, (out1 ++ out2). split_and!; [by rewrite E2, app_assoc|done|].
  intros rest. rewrite fmap_cons. cbn [concat]. rewrite <- app_assoc, Hrest, Hrest2. by rewrite app_assoc.
Qed.

(** A string every supplementary character of which keeps its unit. *)
Definition encodable (us : list Z) : Prop := Forall unit16 us /\ Forall keeps_unit (points us).

Lemma encode_wtf8_spec us pending : encodable us -> pending_ok pending ->
  exists pending' out, encode_wtf8 (string_bytes us) pending [] = Some (pending', out) /\ pending_ok pending' /\
    forall rest, from_utf16_lossy (held pending ++ us ++ rest) = out ++ from_utf16_lossy (held pending' ++ rest).
Proof.
  intros [Hu Hk] Hp. destruct (points_spec us Hu) as [Eu Hc].
  destruct (encode_loop_spec (points us) (length (string_bytes us)) pending [] Hc Hk Hp) as (p' & out & E & Hp' & Hr);
    [done|]. exists p', out. rewrite Eu in Hr. done.
Qed.

Lemma flush_spec pending : pending_ok pending -> (flush_wtf8 pending []).2 = from_utf16_lossy (held pending).
Proof.
  intros Hp. destruct pending as [u|]; [|done]. cbn [held flush_wtf8 snd app]. rewrite lossy_high; [|by apply Hp|done]. by rewrite app_nil_r.
Qed.

(** ** Properties *)

Lemma load_default pending : pending_ok pending -> load_pending (default 0 pending) = pending.
Proof.
  intros Hp. destruct pending as [u|]; [|done]. specialize (Hp u eq_refl). unfold load_pending. cbn.
  unfold is_high, in_range in Hp. bool_to_prop. by rewrite (proj2 (Z.eqb_neq _ _)) by lia.
Qed.

Lemma concat_enqueued out : concat (enqueued out) = out.
Proof. destruct out; [done|]. cbn. by rewrite app_nil_r. Qed.

Lemma encode_stream_spec chunks : forall pending, Forall encodable chunks -> pending_ok pending ->
  exists outs, encode_stream chunks (default 0 pending) = Some outs /\
    concat outs = from_utf16_lossy (held pending ++ concat chunks).
Proof.
  induction chunks as [|us chunks IH]; intros pending Hc Hp.
  - eexists. split; [done|]. unfold flush_stream. rewrite load_default by done.
    pose proof (flush_spec pending Hp) as E. destruct (flush_wtf8 pending []) as [p out]. cbn in *.
    by rewrite concat_enqueued, E, app_nil_r.
  - apply Forall_cons in Hc as [Hus Hc]. cbn [encode_stream]. unfold transform_chunk. rewrite load_default by done.
    destruct (encode_wtf8_spec us pending Hus Hp) as (p' & out & -> & Hp' & Hr).
    destruct (IH p' Hc Hp') as (outs & -> & Eo). eexists. split; [done|].
    rewrite concat_app, concat_enqueued, Eo. cbn [concat]. by rewrite Hr.
Qed.

(** The encoder gives the UTF-8 of the string with every lone surrogate
    replaced by U+FFFD, and the encoder stream gives the same bytes however
    the string is cut into chunks, also between the two halves of a surrogate
    pair, without an access out of bounds; for strings whose supplementary
    characters do not look like surrogates in their low 16 bits. *)
Theorem text_encoder_chunks us chunks :
  encodable us -> Forall encodable chunks ->
  encode us = Some (from_utf16_lossy us) /\
  exists outs, encode_stream chunks 0 = Some outs /\ concat outs = from_utf16_lossy (concat chunks).
Proof.
  intros Hus Hc. split; [|by apply (encode_stream_spec chunks None)].
  unfold encode. destruct (encode_wtf8_spec us None Hus) as (p & out & -> & Hp & Hr); [done|].
  specialize (Hr []). rewrite !app_nil_r in Hr. cbn [held app] in Hr. rewrite Hr. f_equal.
  rewrite <- (flush_spec p Hp). by destruct p; cbn; rewrite ?app_nil_r.
Qed.

(** U+1F600 cut between its surrogates, and a lone one. *)
Lemma text_encoder_chunks_witness :
  exists outs, encode_stream [[0x61; 0xD83D]; [0xDE00; 0xD800]; [0x62]] 0 = Some outs /\
    concat outs = [0x61; 0xF0; 0x9F; 0x98; 0x80; 0xEF; 0xBF; 0xBD; 0x62].
Proof.
  destruct (text_encoder_chunks [0x61] [[0x61; 0xD83D]; [0xDE00; 0xD800]; [0x62]]) as [_ H].
  - split; repeat constructor; vm_compute; congruence.
  - repeat constructor; vm_compute; congruence.
  - exact H.
Defined.

(** The low 16 bits of U+1D800 are a high surrogate: the character is lost. *)
Example text_encoder_truncates :
  utf16_units 0x1D800 = [0xD836; 0xDC00] /\
  encode [0xD836; 0xDC00; 0x61] = Some (FFFD ++ [0x61]) /\
  from_utf16_lossy [0xD836; 0xDC00; 0x61] = [0xF0; 0x9D; 0xA0; 0x80; 0x61].
Proof. vm_compute. split_and!; reflexivity. Qed.

(** *** encodeInto *)

Lemma lossy_points us : default REPLACEMENT <$> decode_utf16 us = without_surrogates (points us).
Proof.
  remember (length us) as n eqn:Hn. revert us Hn. induction (lt_wf n) as [n _ IH]. intros us ->.
  destruct us as [|u us]; [done|].
  assert (E : default REPLACEMENT <$> decode_utf16 us = without_surrogates (points us))
    by (apply (IH (length us)); [cbn; lia|done]).
  assert (Hsur : surrogate u = is_high u || is_low u).
  { unfold surrogate, is_high, is_low, in_range. apply eq_true_iff_eq.
    rewrite orb_true_iff, !andb_true_iff, !Z.leb_le. lia. }
  cbn [decode_utf16 points]. unfold without_surrogates in *.
  destruct (is_low u) eqn:Hl.
  { replace (is_high u) with false.
    2:{ destruct (is_high u) eqn:Hh; [|done]. apply high_not_low in Hh. congruence. }
    rewrite !fmap_cons, E, Hsur. by rewrite orb_true_r. }
  destruct (is_high u) eqn:Hh; [|by rewrite !fmap_cons, E, Hsur].
  destruct us as [|v us]; [by cbn; rewrite Hsur|].
  destruct (is_low v) eqn:Hv; [|by rewrite !fmap_cons, E, Hsur].
  rewrite !fmap_cons. rewrite (IH (length us)) by (cbn; lia || done). f_equal.
  destruct (pair_units u v Hh Hv) as [Hc _]. cbn [default].
  replace (surrogate _) with false; [done|]. symmetry. unfold surrogate, in_range.
  apply andb_false_iff. right. apply Z.leb_gt. lia.
Qed.

Lemma fitting_spec n cs : forall w, (w <= n)%nat -> exists a b, cs = a ++ b /\
  fitting n w cs = (w + length (encode_all a))%nat /\ (w + length (encode_all a) <= n)%nat /\
  forall c b', b = c :: b' -> (n < w + length (encode_all a) + length (utf8_encode c))%nat.
Proof.
  induction cs as [|c cs IH]; intros w Hw; cbn [fitting].
  { exists [], []. cbn. split_and!; [done|lia|lia|done]. }
  destruct (n <? w + length (utf8_encode c))%nat eqn:E; bool_to_prop.
  { exists [], (c :: cs). cbn. split_and!; [done|lia|lia|]. intros c' b' [= <- _]. lia. }
  destruct (IH (w + length (utf8_encode c))%nat E) as (a & b & -> & Ef & Hle & Hmax).
  exists (c :: a), b. rewrite encode_all_cons, length_app. split_and!; [done|lia|lia|].
  intros c' b' Hb. specialize (Hmax c' b' Hb). lia.
Qed.

(** EncodeInto writes the longest prefix of whole characters of the
    string (lone surrogates replaced) that fits into the destination, leaves
    the bytes after it as they were, and reports the bytes written and the
    UTF-16 units read. *)
Theorem encode_into_longest us dst : Forall unit16 us ->
  exists a b, from_utf16_lossy us = encode_all (a ++ b) /\ Forall scalar (a ++ b) /\
    encode_into us dst =
      (encode_all a ++ drop (length (encode_all a)) dst, length (encode_utf16 a), length (encode_all a)) /\
    (length (encode_all a) <= length dst)%nat /\
    forall c b', b = c :: b' -> (length dst < length (encode_all (a ++ [c])))%nat.
Proof.
  intros Hu. destruct (points_spec us Hu) as [_ Hc].
  set (cs := without_surrogates (points us)).
  assert (Hs : Forall scalar cs).
  { unfold cs, without_surrogates. apply Forall_fmap. eapply Forall_impl; [exact Hc|]. intros c Hcp. cbn.
    unfold code_point, surrogate, in_range, scalar, REPLACEMENT in *.
    destruct (_ && _) eqn:E; [lia|]. apply andb_false_iff in E. rewrite !Z.leb_gt in E. lia. }
  destruct (fitting_spec (length dst) cs 0 ltac:(lia)) as (a & b & Ecs & Ef & Hle & Hmax). cbn in Ef, Hle, Hmax.
  exists a, b. unfold encode_into, string_bytes. rewrite get_lossy_wtf8 by done. fold cs.
  rewrite chars_encode_all, Ef by done. rewrite <- Ecs. split_and!; [|done| |done|].
  - unfold from_utf16_lossy. by rewrite lossy_points.
  - rewrite Ecs in Hs |- *. apply Forall_app in Hs as [Hsa _]. rewrite encode_all_app, take_app_length.
    rewrite chars_encode_all by done. do 2 f_equal. unfold encode_utf16. clear.
    induction a as [|c a IH]; [done|]. rewrite !fmap_cons. cbn [concat]. by rewrite length_app, <- IH.
  - intros c b' Hb. specialize (Hmax c b' Hb). rewrite encode_all_app, encode_all_cons, !length_app. cbn. lia.
Qed.

Lemma encode_into_longest_witness :
  exists a b, from_utf16_lossy [0x61; 0xD83D; 0xDE00; 0x62] = encode_all (a ++ b) /\
    encode_into [0x61; 0xD83D; 0xDE00; 0x62] [0; 0; 0; 0] =
      (encode_all a ++ drop (length (encode_all a)) [0; 0; 0; 0], length (encode_utf16 a), length (encode_all a)).
Proof.
  destruct (encode_into_longest [0x61; 0xD83D; 0xDE00; 0x62] [0; 0; 0; 0]) as (a & b & H1 & _ & H2 & _).
  - repeat constructor; vm_compute; congruence.
  - exists a, b. split; [exact H1|exact H2].
Defined.
