(* ===== verification/Numbers.v ===== *)
(** * Numbers as text in a base (src/libs/llrt_numbers/src/lib.rs)

    [Number.prototype.toString].  [None] is a panic (an index out of bounds).
    [i64] arithmetic wraps around, as in the release build.  The crates itoa
    and ryu, which print decimal numbers, are section variables. *)
From Stdlib Require Import ZArith Lia SpecFloat.
From stdpp Require Import base list numbers strings.
From S2P Require Import Prelude F64.
Open Scope Z_scope.

Definition DIGITS : list Z := str "0123456789abcdefghijklmnopqrstuvwxyz".
Definition BUF_SIZE : nat := 80.
Definition BIN_MAX_DIGITS : nat := 64.
Definition OCT_MAX_DIGITS : nat := 21.

(** The value of a 64-bit result. *)
Definition i64 (z : Z) : Z := (z + 2 ^ 63) mod 2 ^ 64 - 2 ^ 63.
Definition is_i64 (z : Z) : Prop := - 2 ^ 63 <= z < 2 ^ 63.

(** [buf[index] = b]. *)
Definition set_byte (buf : list Z) (index : nat) (b : Z) : option (list Z) :=
  if (index <? length buf)%nat then Some (<[index := b]> buf) else None.

(** ** Integers *)

(** The loops write digits from the end of the buffer; [fuel] is the number of
    bits of the number. *)
Fixpoint small_base_loop (fuel : nat) (base : Z) (buf : list Z) (index : nat) (n : Z)
    : option (list Z * nat) :=
  if 0 <? n then
    match fuel with
    | O => None
    | S fuel =>
        let! index := usize_sub index 1 in
        let! buf := set_byte buf index (wrap 8 (n mod base) + 48) in
        small_base_loop fuel base buf index (n / base)
    end
  else Some (buf, index).

Definition to_base_less_than_10 (max : nat) (num base : Z) : option (list Z) :=
  if num =? 0 then Some (str "0")
  else
    let n := if num <? 0 then i64 (i64 (- num - 1) + 1) else num in
    let sign := if num <? 0 then str "-" else [] in
    let! (buf, index) := small_base_loop 64 base (replicate max 0) max n in
    Some (sign ++ drop index buf).

Fixpoint base_n_loop (fuel : nat) (radix : Z) (buf : list Z) (index : nat) (n : Z)
    : option (list Z * nat) :=
  if 0 <? n then
    match fuel with
    | O => None
    | S fuel =>
        let! index := usize_sub index 1 in
        let! digit := DIGITS !! Z.to_nat (n mod radix) in
        let! buf := set_byte buf index digit in
        base_n_loop fuel radix buf index (n / radix)
    end
  else Some (buf, index).

Definition internal_i64_to_base_n (buf : list Z) (number radix : Z) : option (list Z * nat) :=
  if number =? 0 then
    let! buf := set_byte buf (BUF_SIZE - 1) 48 in
    Some (buf, (BUF_SIZE - 1)%nat)
  else base_n_loop 64 radix buf BUF_SIZE number.

(** [buf[a..b]]. *)
Definition slice (buf : list Z) (a b : nat) : list Z := take (b - a) (drop a buf).

Section Decimal.
(** [itoa::Buffer::format] and [ryu::Buffer::format_finite]. *)
Variable itoa : Z -> list Z.
Variable ryu : f64 -> list Z.

Definition to_dec (number : Z) : list Z := itoa number.

Definition i64_to_base_n (number radix : Z) : option (list Z) :=
  if radix =? 10 then Some (to_dec number)
  else if radix =? 2 then to_base_less_than_10 BIN_MAX_DIGITS number 2
  else if radix =? 8 then to_base_less_than_10 OCT_MAX_DIGITS number 8
  else
    let abs_number := if number <? 0 then i64 (- number) else number in
    let sign := if number <? 0 then str "-" else [] in
    let! (buf, index) := internal_i64_to_base_n (replicate BUF_SIZE 0) abs_number radix in
    Some (sign ++ slice buf index BUF_SIZE).

(** ** Fractions *)

Definition next_up (num : f64) : f64 :=
  let bits := to_bits num in
  if is_nan num || (bits =? 0x7ff0000000000000) then num
  else
    let abs := Z.land bits 0x7fffffffffffffff in
    from_bits (if abs =? 0 then 1 else if bits =? abs then bits + 1 else bits - 1).

Definition odd (z : Z) : bool := negb (Z.land z 1 =? 0).

(** The loop of [fractional_to_base]; [room] is what is left of the buffer
    from [index] on.  The result is the digits written. *)
Fixpoint fraction_loop (room : nat) (radix : Z) (is_odd : bool) (number delta_next_double : f64)
    : option (list Z) :=
  let ntmp := f64_mul number (of_Z radix) in
  let rtmp := f64_mul delta_next_double (of_Z radix) in
  let digit := as_usize ntmp in
  let ritmp := as_usize rtmp in
  let is_odd := if odd digit then negb is_odd else is_odd in
  let number := f64_sub ntmp (of_Z digit) in
  let delta_next_double := f64_sub rtmp (of_Z ritmp) in
  let upper := SFltb half number || SFeqb number half && (if odd radix then is_odd else odd digit) in
  let break :=
    if upper then SFltb one (f64_add number delta_next_double)
    else SFltb number (f64_mul delta_next_double (of_Z 2)) in
  if break then Some []
  else
    match room with
    | O => None
    | S room =>
        let! c := DIGITS !! Z.to_nat digit in
        let! rest := fraction_loop room radix is_odd number delta_next_double in
        Some (c :: rest)
    end.

Definition fractional_to_base (index : nat) (number : f64) (radix : Z) : option (list Z) :=
  let is_odd := SFleb number (of_Z 0x1fffffffffffff) && odd (as_i64 number) in
  fraction_loop (BUF_SIZE - index) radix is_odd number (f64_sub (next_up number) number).

Definition get_nonfinite (bits : Z) : list Z :=
  if negb (Z.land bits 0x000fffffffffffff =? 0) then str "NaN"
  else if negb (Z.land bits 0x8000000000000000 =? 0) then str "-Infinity"
  else str "Infinity".

Definition ends_with_dot_zero (s : list Z) : bool :=
  bool_decide (drop (length s - 2) s = str ".0") && (2 <=? length s)%nat.

Definition f64_to_base_n (number : f64) (radix : Z) : option (list Z) :=
  let bits := to_bits number in
  if Z.land bits 0x7ff0000000000000 =? 0x7ff0000000000000 then Some (get_nonfinite bits)
  else if radix =? 10 then
    let result := ryu number in
    Some (if ends_with_dot_zero result then take (length result - 2) result else result)
  else
    let negative := SFltb number zero in
    let abs_num := if negative then f64_neg number else number in
    let sign := if negative then str "-" else [] in
    let fractional_part := f64_sub abs_num (trunc abs_num) in
    let! (buf, index) := internal_i64_to_base_n (replicate BUF_SIZE 0) (as_i64 abs_num) radix in
    let string := sign ++ slice buf index BUF_SIZE in
    if SFltb zero fractional_part then
      let! digits := fractional_to_base 0 fractional_part radix in
      Some (if (0 <? length digits)%nat then string ++ str "." ++ digits else string)
    else Some string.

Definition float_to_string (float : f64) : option (list Z) := f64_to_base_n float 10.

(** ** Number.prototype.toString *)

Definition check_radix (radix : Z) : result (list Z) unit :=
  if (2 <=? radix) && (radix <=? 36) then Ok tt else Err (str "radix must be between 2 and 36").

(** What [this] is: a float, an integer, an object whose valueOf, if it has
    one, returned a primitive or threw, or anything else. *)
Inductive primitive := Float (f : f64) | Int (n : Z) | NoNumber.
Inductive this_value := Primitive (p : primitive) | Boxed (value_of : option (result (list Z) primitive)).

Definition primitive_to_string (p : primitive) (radix : Z) : option (option (list Z)) :=
  match p with
  | Float f => let! s := f64_to_base_n f radix in Some (Some s)
  | Int n => let! s := i64_to_base_n n radix in Some (Some s)
  | NoNumber => Some None
  end.

(** [radix]: the argument as an integer, if it is one. *)
Definition number_to_string (this : this_value) (radix : option Z) : option (result (list Z) (list Z)) :=
  let radix :=
    match radix with
    | Some r => if (0 <=? r) && (r <=? 255) then r else 10
    | None => 10
    end in
  match check_radix radix with
  | Err e => Some (Err e)
  | Ok _ =>
      match this with
      | Primitive p => let! s := primitive_to_string p radix in Some (Ok (default [] s))
      | Boxed None => Some (Ok [])
      | Boxed (Some (Err e)) => Some (Err e)
      | Boxed (Some (Ok p)) => let! s := primitive_to_string p radix in Some (Ok (default [] s))
      end
  end.
End Decimal.

(** ** Numerals *)

(** The digits of a number, the most significant first; none for zero. *)
Fixpoint digits (fuel : nat) (radix n : Z) : list Z :=
  match fuel with
  | O => []
  | S fuel => if 0 <? n then digits fuel radix (n / radix) ++ [n mod radix] else []
  end.

Definition value (radix : Z) (ds : list Z) : Z := foldl (fun a d => a * radix + d) 0 ds.

Definition digit_char (d : Z) : Z := if d <? 10 then 48 + d else 87 + d.

Definition radix_ok (radix : Z) : Prop := 2 <= radix <= 36.

Lemma DIGITS_char d : 0 <= d < 36 -> DIGITS !! Z.to_nat d = Some (digit_char d).
Proof.
  intros Hd. apply (check_range (fun d => bool_decide (DIGITS !! Z.to_nat d = Some (digit_char d))) 36) in Hd;
    [by apply bool_decide_eq_true in Hd|by vm_compute].
Qed.

Lemma digits_spec fuel radix : radix_ok radix -> forall n, 0 <= n < 2 ^ Z.of_nat fuel ->
  value radix (digits fuel radix n) = n /\ Forall (fun d => 0 <= d < radix) (digits fuel radix n) /\
  (forall d, head (digits fuel radix n) = Some d -> d <> 0) /\ (0 < n -> digits fuel radix n <> []).
Proof.
  intros Hr. unfold radix_ok in Hr. induction fuel as [|fuel IH]; intros n Hn; cbn [digits].
  { change (2 ^ Z.of_nat 0) with 1 in Hn. split_and!; [cbn; lia|done|done|lia]. }
  destruct (Z.ltb_spec 0 n) as [Hp|Hz]; [|split_and!; [cbn; lia|done|done|lia]].
  assert (Hq : 0 <= n / radix < 2 ^ Z.of_nat fuel).
  { split; [apply Z.div_pos; lia|]. apply Z.div_lt_upper_bound; [lia|].
    rewrite Nat2Z.inj_succ, Z.pow_succ_r in Hn by lia. nia. }
  destruct (IH (n / radix) Hq) as (Hv & Hd & Hh & Hne).
  pose proof (Z.mod_pos_bound n radix ltac:(lia)). pose proof (Z.div_mod n radix ltac:(lia)).
  split_and!.
  - unfold value in *. rewrite foldl_app, Hv. cbn. lia.
  - apply Forall_app. split; [done|]. by apply Forall_singleton.
  - intros d. destruct (digits fuel radix (n / radix)) as [|d0 ds] eqn:E; [|apply Hh].
    cbn. intros [= <-] Hz. assert (n / radix <= 0); [|nia].
    destruct (Z.le_gt_cases (n / radix) 0); [done|]. by destruct (Hne ltac:(lia)).
  - intros _ E. by apply (app_cons_not_nil (digits fuel radix (n / radix)) [] (n mod radix)).
Qed.

(** The loop writes the digits in front of [index]. *)
Lemma base_n_loop_spec fuel radix : radix_ok radix -> forall n buf index,
  0 <= n < 2 ^ Z.of_nat fuel -> n < radix ^ Z.of_nat index -> (index <= length buf)%nat ->
  exists buf' index', base_n_loop fuel radix buf index n = Some (buf', index') /\
    length buf' = length buf /\ (index' <= index)%nat /\
    drop index' buf' = (digit_char <$> digits fuel radix n) ++ drop index buf.
Proof.
  intros Hr. unfold radix_ok in Hr.
  assert (Hbase : forall f n buf index, n <= 0 -> base_n_loop f radix buf index n = Some (buf, index)).
  { intros f n buf index Hz. destruct f; cbn [base_n_loop]; by rewrite (proj2 (Z.ltb_ge _ _)). }
  induction fuel as [|fuel IH]; intros n buf index Hn Hx Hl; cbn [digits].
  { change (2 ^ Z.of_nat 0) with 1 in Hn. exists buf, index. rewrite Hbase by lia. done. }
  destruct (Z.ltb_spec 0 n) as [Hp|Hz].
  2:{ exists buf, index. by rewrite Hbase. }
  cbn [base_n_loop]. rewrite (proj2 (Z.ltb_lt _ _)) by done.
  destruct index as [|index]; [change (radix ^ Z.of_nat 0) with 1 in Hx; lia|].
  rewrite usize_sub_Some by lia. replace (S index - 1)%nat with index by lia.
  pose proof (Z.mod_pos_bound n radix ltac:(lia)). rewrite DIGITS_char by lia.
  unfold set_byte. rewrite (proj2 (Nat.ltb_lt _ _)) by lia.
  destruct (IH (n / radix) (<[index := digit_char (n mod radix)]> buf) index) as (buf' & index' & E & Hlen & Hle & Hd).
  - split; [apply Z.div_pos; lia|]. apply Z.div_lt_upper_bound; [lia|].
    rewrite Nat2Z.inj_succ, Z.pow_succ_r in Hn by lia. nia.
  - apply Z.div_lt_upper_bound; [lia|]. rewrite Nat2Z.inj_succ, Z.pow_succ_r in Hx by lia. lia.
  - rewrite length_insert. lia.
  - exists buf', index'. rewrite length_insert in Hlen. split_and!; [done|done|lia|].
    rewrite Hd, fmap_app, <- app_assoc. f_equal. cbn.
    rewrite (drop_S _ (digit_char (n mod radix)) index); [|by apply list_lookup_insert_eq; lia].
    f_equal. apply drop_insert_lt. lia.
Qed.

(** The loop for small bases is the same. *)
Lemma small_base_loop_eq fuel base : 2 <= base <= 10 -> forall buf index n,
  small_base_loop fuel base buf index n = base_n_loop fuel base buf index n.
Proof.
  intros Hb. induction fuel as [|fuel IH]; intros buf index n; [done|].
  cbn [small_base_loop base_n_loop]. destruct (0 <? n); [|done].
  destruct (usize_sub index 1) as [index'|]; [|done].
  pose proof (Z.mod_pos_bound n base ltac:(lia)). rewrite DIGITS_char by lia.
  replace (wrap 8 (n mod base) + 48) with (digit_char (n mod base)).
  2:{ unfold digit_char, wrap. rewrite (proj2 (Z.ltb_lt _ _)), (Z.mod_small (n mod base)) by lia. lia. }
  destruct (set_byte buf index' _); [apply IH|done].
Qed.

(** The canonical numeral. *)
Definition numeral (radix n : Z) : list Z :=
  (if n <? 0 then str "-" else []) ++
  (if n =? 0 then str "0" else digit_char <$> digits 64 radix (Z.abs n)).

Lemma i64_small z : is_i64 z -> i64 z = z.
Proof. unfold is_i64, i64. intros Hz. rewrite Z.mod_small by lia. lia. Qed.

Lemma internal_spec buf n radix : radix_ok radix -> length buf = BUF_SIZE -> 0 <= n < 2 ^ 63 ->
  exists buf' index, internal_i64_to_base_n buf n radix = Some (buf', index) /\
    slice buf' index BUF_SIZE = if n =? 0 then str "0" else digit_char <$> digits 64 radix n.
Proof.
  intros Hr Hl Hn. unfold internal_i64_to_base_n. destruct (Z.eqb_spec n 0) as [->|Hnz].
  { unfold set_byte. rewrite Hl. cbn [Nat.ltb Nat.leb BUF_SIZE]. eexists _, _. split; [done|].
    unfold slice. rewrite (drop_S _ 48); [|apply list_lookup_insert_eq; rewrite Hl; unfold BUF_SIZE; lia].
    rewrite drop_ge by (rewrite length_insert, Hl; unfold BUF_SIZE; lia). done. }
  destruct (base_n_loop_spec 64 radix Hr n buf BUF_SIZE) as (buf' & index & E & Hlen & Hle & Hd).
  - change (Z.of_nat 64) with 64. lia.
  - unfold radix_ok in Hr. assert (2 ^ 80 <= radix ^ 80) by (apply Z.pow_le_mono_l; lia).
    change (Z.of_nat BUF_SIZE) with 80. lia.
  - lia.
  - exists buf', index. split; [done|]. unfold slice. rewrite take_ge by (rewrite length_drop; lia).
    by rewrite Hd, drop_ge, app_nil_r by lia.
Qed.

Lemma to_base_less_spec max n base : 2 <= base <= 10 -> n < 2 ^ 63 -> - 2 ^ 63 < n -> 2 ^ 63 <= base ^ Z.of_nat max ->
  to_base_less_than_10 max n base = Some (numeral base n).
Proof.
  intros Hb Hlt Hgt Hmax. unfold to_base_less_than_10, numeral.
  destruct (Z.eqb_spec n 0) as [->|Hnz]; [done|].
  assert (Habs : (if n <? 0 then i64 (i64 (- n - 1) + 1) else n) = Z.abs n).
  { destruct (Z.ltb_spec n 0); [|lia]. rewrite (i64_small (- n - 1)) by (unfold is_i64; lia).
    rewrite i64_small by (unfold is_i64; lia). lia. }
  rewrite Habs, small_base_loop_eq by done.
  destruct (base_n_loop_spec 64 base ltac:(unfold radix_ok; lia) (Z.abs n) (replicate max 0) max)
    as (buf' & index & -> & Hlen & Hle & Hd).
  - change (Z.of_nat 64) with 64. lia.
  - lia.
  - by rewrite length_replicate.
  - by rewrite Hd, drop_ge, app_nil_r by (by rewrite length_replicate).
Qed.

Lemma i64_to_base_n_numeral itoa n radix : radix_ok radix -> radix <> 10 -> n < 2 ^ 63 -> - 2 ^ 63 < n ->
  i64_to_base_n itoa n radix = Some (numeral radix n).
Proof.
  intros Hr H10 Hlt Hgt. unfold i64_to_base_n. rewrite (proj2 (Z.eqb_neq _ _)) by done.
  destruct (Z.eqb_spec radix 2) as [->|H2]; [by apply to_base_less_spec|].
  destruct (Z.eqb_spec radix 8) as [->|H8]; [by apply to_base_less_spec|].
  assert (Habs : (if n <? 0 then i64 (- n) else n) = Z.abs n).
  { destruct (Z.ltb_spec n 0); [|lia]. rewrite i64_small by (unfold is_i64; lia). lia. }
  rewrite Habs. destruct (internal_spec (replicate BUF_SIZE 0) (Z.abs n) radix) as (buf & index & -> & Es);
    [done|by rewrite length_replicate|lia|].
  rewrite Es. unfold numeral. f_equal. f_equal. destruct (Z.eqb_spec n 0) as [->|Hz]; [done|].
  by rewrite (proj2 (Z.eqb_neq _ _)) by lia.
Qed.

(** ** Properties *)

(** Reading a numeral, as [parseInt] does. *)
Definition digit_value (c : Z) : Z := if c <? 58 then c - 48 else c - 87.
Definition read_numeral (radix : Z) (s : list Z) : Z :=
  match s with
  | 45 :: s => - value radix (digit_value <$> s)
  | _ => value radix (digit_value <$> s)
  end.

(** A numeral without sign: digits below the radix, no leading zero but in 0. *)
Definition canonical (radix : Z) (s : list Z) : Prop :=
  s <> [] /\ Forall (fun c => 0 <= digit_value c < radix /\ digit_char (digit_value c) = c) s /\
  (head s = Some 48 -> s = str "0").

Lemma digit_char_inv d : 0 <= d < 36 -> digit_value (digit_char d) = d /\ digit_char d <> 45 /\ (digit_char d = 48 -> d = 0).
Proof.
  unfold digit_char, digit_value. intros Hd. destruct (Z.ltb_spec d 10).
  - rewrite (proj2 (Z.ltb_lt _ _)) by lia. lia.
  - rewrite (proj2 (Z.ltb_ge _ _)) by lia. lia.
Qed.

(** C37: an integer in a base of 2 to 36 other than 10 is printed as its
    canonical numeral, a sign and digits without leading zeros, which reads
    back as the integer; the digits of every 64-bit integer but the least fit
    into the buffers. Base 10 is left to the crate itoa, on which nothing is
    assumed. *)
Theorem number_text_roundtrip itoa n radix :
  radix_ok radix -> radix <> 10 -> - 2 ^ 63 < n < 2 ^ 63 ->
  exists s, i64_to_base_n itoa n radix = Some ((if n <? 0 then str "-" else []) ++ s) /\
    canonical radix s /\ read_numeral radix ((if n <? 0 then str "-" else []) ++ s) = n.
Proof.
  intros Hr H10 Hn. rewrite i64_to_base_n_numeral by (done || lia). unfold numeral.
  eexists. split; [done|]. destruct (Z.eqb_spec n 0) as [->|Hz].
  { split; [|done]. unfold radix_ok in Hr. split; [done|]. split; [|done]. apply (Forall_singleton _ 48).
    change (digit_value 48) with 0. split; [lia|done]. }
  destruct (digits_spec 64 radix Hr (Z.abs n)) as (Hv & Hd & Hh & Hne); [change (Z.of_nat 64) with 64; lia|].
  specialize (Hne ltac:(lia)). set (ds := digits 64 radix (Z.abs n)) in *.
  assert (Hds : Forall (fun d => 0 <= d < 36) ds).
  { eapply Forall_impl; [exact Hd|]. unfold radix_ok in Hr. cbn. lia. }
  assert (Hback : digit_value <$> (digit_char <$> ds) = ds).
  { rewrite <- list_fmap_compose. rewrite <- (list_fmap_id ds) at 2. apply list_fmap_ext.
    intros i d Hi. rewrite Forall_lookup in Hds. apply (digit_char_inv d). by eapply Hds. }
  split.
  - split; [by destruct ds|]. split.
    + apply Forall_fmap. eapply Forall_impl; [exact Hd|]. intros d Hdd. unfold radix_ok in Hr. cbn in Hdd |- *.
      destruct (digit_char_inv d) as [-> _]; [lia|]. split; [lia|done].
    + destruct ds as [|d ds']; [done|]. cbn. intros [= H48]. exfalso. apply (Hh d); [done|].
      apply (digit_char_inv d); [by inversion Hds|done].
  - destruct (Z.ltb_spec n 0) as [Hneg|Hpos].
    + assert (E : read_numeral radix (str "-" ++ (digit_char <$> ds)) = - value radix (digit_value <$> (digit_char <$> ds)))
        by reflexivity.
      rewrite E, Hback, Hv. lia.
    + cbn [app]. assert (E : read_numeral radix (digit_char <$> ds) = value radix (digit_value <$> (digit_char <$> ds))).
      { destruct ds as [|d ds']; [done|]. cbn. assert (Hd0 : digit_char d <> 45) by (apply digit_char_inv; by inversion Hds).
        repeat case_match; congruence || done. }
      rewrite E, Hback, Hv. lia.
Qed.

Lemma number_text_roundtrip_witness :
  exists s, i64_to_base_n (fun _ => []) (-123456789) 36 = Some ((if -123456789 <? 0 then str "-" else []) ++ s) /\
    canonical 36 s /\ read_numeral 36 ((if -123456789 <? 0 then str "-" else []) ++ s) = -123456789.
Proof.
  apply (number_text_roundtrip (fun _ => []) (-123456789) 36); [split; vm_compute; congruence|discriminate|split; vm_compute; reflexivity].
Defined.

(** *** Floats *)

(** A finite float of the format, and one without a fraction. *)
Definition is_f64 (x : f64) : bool :=
  match x with
  | S754_finite _ m e =>
      (Zpos m <? 2 ^ 53) && (-1074 <=? e) && (e <=? 971) && ((2 ^ 52 <=? Zpos m) || (e =? -1074))
  | _ => true
  end.

Definition integral (x : f64) : bool :=
  match x with
  | S754_zero _ => true
  | S754_finite _ m e => (0 <=? e) || (Zpos m mod 2 ^ (- e) =? 0)
  | _ => false
  end.

(** The exponent bits. *)
Lemma land_exponent x : Z.land x 0x7ff0000000000000 = 0x7ff0000000000000 -> (x / 2 ^ 52) mod 2 ^ 11 = 2047.
Proof.
  intros E. apply (f_equal (fun y => Z.shiftr y 52)) in E. rewrite Z.shiftr_land in E.
  rewrite Z.shiftr_div_pow2 in E by lia. change (Z.shiftr 0x7ff0000000000000 52) with (Z.ones 11) in E.
  by rewrite Z.land_ones in E by lia.
Qed.

Lemma finite_exponent s m e : is_f64 (S754_finite s m e) = true ->
  (Z.land (to_bits (S754_finite s m e)) 0x7ff0000000000000 =? 0x7ff0000000000000) = false.
Proof.
  intros Hv. cbn [is_f64] in Hv. apply andb_prop in Hv as [Hv Hn]. bool_to_prop.
  apply Z.eqb_neq. intros E%land_exponent. revert E. unfold to_bits.
  set (r := if Zpos m <? 2 ^ 52 then _ else _).
  assert (Hr : 0 <= r < 2047 * 2 ^ 52).
  { unfold r. destruct (Z.ltb_spec (Zpos m) (2 ^ 52)) as [Hm|Hm]; [lia|].
    change (2 ^ 53) with (2 * 2 ^ 52) in *. nia. }
  assert (Hs : exists b, sign_bit s = b * 2 ^ 11 * 2 ^ 52) by (destruct s; [by exists 1|by exists 0]).
  destruct Hs as [b ->]. rewrite Z.div_add_l, Z.add_comm, Z.mod_add by lia.
  assert (0 <= r / 2 ^ 52 < 2047) by (split; [apply Z.div_pos|apply Z.div_lt_upper_bound]; lia).
  rewrite Z.mod_small by lia. lia.
Qed.

(** A float without a fraction is printed like the integer it is, in every
    base from 2 to 36, for all such floats whose integer fits into 64 bits. *)
Theorem float_integer_text itoa ryu x radix :
  is_f64 x = true -> integral x = true -> Z.abs (integer_part x) < 2 ^ 63 ->
  radix_ok radix -> radix <> 10 ->
  f64_to_base_n ryu x radix = i64_to_base_n itoa (integer_part x) radix.
Proof.
  intros Hx Hi Hlt Hr H10. rewrite i64_to_base_n_numeral by (done || lia).
  unfold f64_to_base_n. destruct x as [s|s| |s m e]; try done.
  { cbn [integer_part] in *. destruct (internal_spec (replicate BUF_SIZE 0) 0 radix) as (buf & index & E & Es);
      [done|by rewrite length_replicate|lia|].
    assert (Hexp : (Z.land (to_bits (S754_zero s)) 0x7ff0000000000000 =? 0x7ff0000000000000) = false) by (by destruct s).
    rewrite Hexp, (proj2 (Z.eqb_neq _ 10)) by done.
    assert (Hz : SFltb (S754_zero s) zero = false /\ SFltb zero (f64_sub (S754_zero s) (trunc (S754_zero s))) = false
      /\ as_i64 (S754_zero s) = 0) by (by destruct s).
    destruct Hz as (-> & -> & ->). by rewrite E, Es. }
  rewrite finite_exponent by done. rewrite (proj2 (Z.eqb_neq _ 10)) by done.
  set (n := if 0 <=? e then Zpos m * 2 ^ e else Zpos m / 2 ^ (- e)).
  assert (Hip : forall s, integer_part (S754_finite s m e) = if s then - n else n) by done.
  assert (Hn : 0 < n < 2 ^ 63).
  { assert (0 < n); [|rewrite Hip in Hlt; destruct s; lia]. unfold n. cbn [integral] in Hi.
    destruct (Z.leb_spec 0 e) as [He|He]; [lia|]. apply orb_true_iff in Hi as [Hi|Hi]; bool_to_prop; [lia|].
    pose proof (Z.div_mod (Zpos m) (2 ^ (- e)) ltac:(lia)). nia. }
  assert (Hneg : SFltb (S754_finite s m e) zero = s) by (by destruct s). rewrite Hneg.
  assert (Habs : (if s then f64_neg (S754_finite s m e) else S754_finite s m e) = S754_finite false m e) by (by destruct s).
  rewrite Habs. assert (Ht : trunc (S754_finite false m e) = S754_finite false m e).
  { unfold trunc. cbn [integral] in Hi. by rewrite Hi. }
  rewrite Ht, sub_self. cbn [SFltb SFcompare zero].
  assert (Ha : as_i64 (S754_finite false m e) = n).
  { unfold as_i64, saturate. rewrite Hip. unfold clamp. lia. }
  rewrite Ha. destruct (internal_spec (replicate BUF_SIZE 0) n radix) as (buf & index & E & Es);
    [done|by rewrite length_replicate|lia|].
  rewrite E, Es, Hip. unfold numeral. rewrite (proj2 (Z.eqb_neq n 0)) by lia.
  destruct s.
  - rewrite (proj2 (Z.ltb_lt (- n) 0)), (proj2 (Z.eqb_neq (- n) 0)) by lia. by rewrite Z.abs_opp, Z.abs_eq by lia.
  - rewrite (proj2 (Z.ltb_ge n 0)), (proj2 (Z.eqb_neq n 0)) by lia. by rewrite Z.abs_eq by lia.
Qed.

(** -6.0 *)
Lemma float_integer_text_witness :
  f64_to_base_n (fun _ => []) (S754_finite true 6755399441055744 (-50)) 2 = i64_to_base_n (fun _ => []) (-6) 2.
Proof.
  apply (float_integer_text (fun _ => []) (fun _ => []) (S754_finite true 6755399441055744 (-50)) 2);
    [vm_compute; reflexivity..|split; vm_compute; congruence|discriminate].
Defined.

(** The loop for the digits of a fraction tests whether the rest is zero
    before it writes the digit it has found: 0.5 in base 2 has no digits. *)
Example half_in_base_two : f64_to_base_n (fun _ => []) half 2 = Some (str "0").
Proof. vm_compute. reflexivity. Qed.

(** The distance to the next float loses its integer part and becomes zero, so
    that the loop for 0.1 in base 16 does not end before the buffer does. *)
Example tenth_in_base_sixteen : f64_to_base_n (fun _ => []) (S754_finite false 7205759403792794 (-56)) 16 = None.
Proof. vm_compute. reflexivity. Qed.

(** The integer part of a float is cast to i64, which saturates: 2^64. *)
Example large_in_base_sixteen :
  f64_to_base_n (fun _ => []) (S754_finite false 4503599627370496 12) 16 = Some (str "7fffffffffffffff").
Proof. vm_compute. reflexivity. Qed.

(** A radix above 255 is taken for 10, one between 37 and 255 is refused. *)
Example radix_out_of_range :
  number_to_string (fun _ => str "7") (fun _ => []) (Primitive (Int 7)) (Some 256) = Some (Ok (str "7")) /\
  number_to_string (fun _ => str "7") (fun _ => []) (Primitive (Int 7)) (Some 37) =
    Some (Err (str "radix must be between 2 and 36")).
Proof. vm_compute. split; reflexivity. Qed.
