(* ===== verification/StructuredClone.v ===== *)
(** * Structured clone (src/llrt_core/src/clone.rs)

    The clone walks the object graph with an explicit stack, records what it
    builds on a tape, and assembles the new objects from the end of the tape.
    The heap of the engine is a list of objects by address; a new object gets
    the next address, and addresses are not reused.  Properties are data (no
    getters or setters run).  [Err] is an exception or a panic of the Rust code;
    [None] is a walk that is out of turns.

    Objects of the engine's classes are taken to be as the engine made them:
    dates, regular expressions and views have the methods and the constructor
    of their class, which do what ECMAScript says.  A view holds its bytes; the
    buffer below it, and the copy that [slice] makes before the constructor
    copies it once more, are not objects of the model.  Section variables are
    the hash of a value, the cloning of platform objects (CryptoKey) and the
    assignments that are more than a new or changed property ([engine_set]). *)
From Stdlib Require Import ZArith Lia.
From stdpp Require Import base list numbers strings.
From S2P Require Import Prelude.

(** ** Values and objects *)

(** A primitive, a function or a symbol, or a reference. *)
Inductive jsval := Prim (p : Z) | Ref (a : nat).

#[export] Instance jsval_eq_dec : EqDecision jsval.
Proof. solve_decision. Defined.

Definition undefined : jsval := Prim 0.
Definition null : jsval := Prim 1.

(** The class of a view: a DataView, or a typed array of some element type. *)
Inductive view_class := DataViewClass | TypedArrayClass (element : Z).

(** Objects by what the walk tells apart; [instance_of_error] is for objects
    with Error.prototype that are not errors of the engine ([ErrorObj]).  An
    [Altered] object is one that got another prototype than that of its making;
    a view without bytes is detached. *)
Inductive object :=
| Plain (instance_of_error : bool) (props : list (list Z * jsval))
| Altered (instance_of_error : bool) (props : list (list Z * jsval))
| Arr (elems : list jsval)
| ErrorObj (message : list Z)
| Date (time : Z)
| RegExp (source flags : list Z)
| View (class : view_class) (bytes : option (list Z))
| SetObj (elems : list jsval)
| MapObj (entries : list (jsval * jsval))
| ArrayBuffer (bytes : option (list Z))
| Proxy
| Platform (data : Z).

Abbreviation heap := (list object) (only parsing).

Inductive error :=
| DataCloneError (msg : string)
| TypeError (msg : string)
| Thrown
| Panic.

(** ** The stack and the tape *)

Inductive stack_item :=
| Value (parent : nat) (value : jsval) (object_key : option (list Z)) (array_index : option nat)
| ObjectEnd.

Inductive object_type := TSet | TMap.

Inductive tape_value :=
| TArray (a : nat)
| TObject (a : nat)
| TValue (v : jsval)
| TCollection (v : option jsval) (t : object_type).

Record tape_item := mkItem {
  parent : nat;
  object_key : option (list Z);
  array_index : option nat;
  item_value : tape_value;
}.

(** The state of the walk; the top of the stack is the head of the list, the
    last visited object is the last of [visited]. *)
Record walk := mkWalk {
  w_heap : list object;
  tape : list tape_item;
  stack : list stack_item;
  visited : list (nat * nat);
  index : nat;
}.

Definition alloc (o : object) (h : list object) : nat * list object := (length h, h ++ [o]).

Definition or_panic {A} (o : option A) : result error A :=
  match o with Some x => Ok x | None => Err Panic end.

(** ** Setting properties *)

Fixpoint set_prop (k : list Z) (v : jsval) (props : list (list Z * jsval)) : list (list Z * jsval) :=
  match props with
  | [] => [(k, v)]
  | (k', v') :: props => if bool_decide (k = k') then (k, v) :: props else (k', v') :: set_prop k v props
  end.

(** [array[i] = v] fills the elements before [i] with holes. *)
Definition set_elem (i : nat) (v : jsval) (elems : list jsval) : list jsval :=
  if (i <? length elems)%nat then <[i := v]> elems
  else elems ++ replicate (i - length elems) undefined ++ [v].

Definition array_set (a : nat) (i : nat) (v : jsval) (h : list object) : list object :=
  match h !! a with
  | Some (Arr elems) => <[a := Arr (set_elem i v elems)]> h
  | _ => h
  end.

(** ** Collections *)

(** [Array.from(object)]: the entries of a map are arrays of two. *)
Fixpoint alloc_pairs (entries : list (jsval * jsval)) (h : list object) : list jsval * list object :=
  match entries with
  | [] => ([], h)
  | (k, v) :: entries =>
      let '(a, h) := alloc (Arr [k; v]) h in
      let '(rs, h) := alloc_pairs entries h in
      (Ref a :: rs, h)
  end.

Definition array_from (o : object) (h : list object) : nat * list object :=
  match o with
  | SetObj elems => alloc (Arr elems) h
  | MapObj entries => let '(rs, h) := alloc_pairs entries h in alloc (Arr rs) h
  | _ => alloc (Arr []) h
  end.

Definition add_elem (elems : list jsval) (v : jsval) : list jsval :=
  if bool_decide (v ∈ elems) then elems else elems ++ [v].

Fixpoint add_entry (k v : jsval) (entries : list (jsval * jsval)) : list (jsval * jsval) :=
  match entries with
  | [] => [(k, v)]
  | (k', v') :: entries => if bool_decide (k = k') then (k, v) :: entries else (k', v') :: add_entry k v entries
  end.

Definition pair_of (h : list object) (v : jsval) : jsval * jsval :=
  match v with
  | Ref a => match h !! a with Some (Arr (k :: v :: _)) => (k, v) | _ => (undefined, undefined) end
  | Prim _ => (undefined, undefined)
  end.

(** [new Set(value)] and [new Map(value)] for an array. *)
Definition construct_collection (t : object_type) (v : jsval) (h : list object)
    : result error (jsval * list object) :=
  match v with
  | Ref a =>
      match h !! a with
      | Some (Arr elems) =>
          let o := match t with
                   | TSet => SetObj (foldl add_elem [] elems)
                   | TMap => MapObj (foldl (fun es e => let '(k, v) := pair_of h e in add_entry k v es) [] elems)
                   end in
          let '(a, h) := alloc o h in Ok (Ref a, h)
      | _ => Err (TypeError "value is not iterable")
      end
  | Prim _ => Err (TypeError "value is not iterable")
  end.

(** ** The walk *)

Section Walk.
Variable hash : jsval -> nat.
(** [clone_platform_object] of a CryptoKey. *)
Variable clone_platform : Z -> result error object.
(** What the engine does for an assignment to __proto__, which runs a setter,
    or to an object that is not a plain one. *)
Variable engine_set : nat -> list Z -> jsval -> list object -> result error (list object).

Definition push_item (parent : nat) (key : option (list Z)) (idx : option nat) (v : tape_value) (w : walk) : walk :=
  mkWalk (w_heap w) (tape w ++ [mkItem parent key idx v]) (stack w) (visited w) (index w).

Definition push_stack (items : list stack_item) (w : walk) : walk :=
  mkWalk (w_heap w) (tape w) (items ++ stack w) (visited w) (index w).

Definition set_heap (h : list object) (w : walk) : walk := mkWalk h (tape w) (stack w) (visited w) (index w).

Definition next_index (w : walk) : walk :=
  mkWalk (w_heap w) (tape w) (stack w) (visited w) (S (index w)).

Definition tape_clone (v : tape_value) : option jsval :=
  match v with
  | TArray a | TObject a => Some (Ref a)
  | TValue v => Some v
  | TCollection v _ => v
  end.

(** Appends the clone of the object visited before; it panics for a collection
    that is not built yet. *)
Definition append_circular (vis : nat * nat) (parent : nat) (key : option (list Z)) (idx : option nat) (w : walk)
    : result error walk :=
  let? item := or_panic (tape w !! vis.2) in
  let? v := or_panic (tape_clone (item_value item)) in
  Ok (push_item parent key idx (TValue v) w).

(** [true] when the value was visited. *)
Definition check_circular (value : jsval) (parent : nat) (key : option (list Z)) (idx : option nat) (w : walk)
    : result error (bool * walk) :=
  let h := hash value in
  match List.find (fun v => Nat.eqb v.1 h) (visited w) with
  | Some vis => let? w := append_circular vis parent key idx w in Ok (true, w)
  | None => Ok (false, mkWalk (w_heap w) (tape w) (stack w) (visited w ++ [(h, index w)]) (index w))
  end.

(** [ArrayBuffer.prototype.transfer]. *)
Definition append_transfer_value (value : jsval) (parent : nat) (key : option (list Z)) (idx : option nat) (w : walk)
    : result error walk :=
  match value with
  | Ref a =>
      match w_heap w !! a with
      | Some (ArrayBuffer (Some bytes)) =>
          let '(a', h) := alloc (ArrayBuffer (Some bytes)) (<[a := ArrayBuffer None]> (w_heap w)) in
          Ok (push_item parent key idx (TValue (Ref a')) (set_heap h w))
      | Some (ArrayBuffer None) => Err Thrown
      | _ => Ok (push_item parent key idx (TValue value) w)
      end
  | Prim _ => Ok (push_item parent key idx (TValue value) w)
  end.

(** The value of a new object. *)
Definition append_new (o : object) (parent : nat) (key : option (list Z)) (idx : option nat) (w : walk) : walk :=
  let '(a, h) := alloc o (w_heap w) in push_item parent key idx (TValue (Ref a)) (set_heap h w).

(** [new Date(object)] has the time of the date, [new RegExp(object)] the source
    and the flags of the expression. *)
Definition append_ctor_value (o : object) (parent : nat) (key : option (list Z)) (idx : option nat) (w : walk)
    : result error walk :=
  match o with
  | Date time => Ok (append_new (Date time) parent key idx w)
  | RegExp source flags => Ok (append_new (RegExp source flags) parent key idx w)
  | _ => Err Thrown
  end.

(** [object.slice()], which a DataView does not have and a detached array
    refuses. *)
Definition slice (c : view_class) (bytes : option (list Z)) : result error (list Z) :=
  match c, bytes with
  | TypedArrayClass _, Some bytes => Ok bytes
  | _, _ => Err Thrown
  end.

(** [new object.constructor(object.slice())]. *)
Definition append_buffer (c : view_class) (bytes : option (list Z)) (parent : nat) (key : option (list Z))
    (idx : option nat) (w : walk) : result error walk :=
  let? clone := slice c bytes in
  Ok (append_new (View c (Some clone)) parent key idx w).

Definition append_collection (t : object_type) (o : object) (parent : nat) (key : option (list Z))
    (idx : option nat) (w : walk) : walk :=
  let '(a, h) := array_from o (w_heap w) in
  let w := push_item parent key idx (TCollection None t) (set_heap h w) in
  push_stack [Value (index w) (Ref a) None None; ObjectEnd] w.

(** The items of the properties: the last key is on top. *)
Definition prop_items (index : nat) (props : list (list Z * jsval)) : list stack_item :=
  rev ((fun p => Value index p.2 (Some p.1) None) <$> props).

(** The items of the elements: the first element is on top. *)
Definition elem_items (index : nat) (elems : list jsval) : list stack_item :=
  imap (fun i v => Value index v None (Some i)) elems.

Definition append_plain (e : bool) (props : list (list Z * jsval)) (parent : nat) (key : option (list Z))
    (idx : option nat) (w : walk) : walk :=
  let '(a, h) := alloc (if e then ErrorObj [] else Plain false []) (w_heap w) in
  let w := push_item parent key idx (TObject a) (set_heap h w) in
  push_stack (prop_items (index w) props ++ [ObjectEnd]) w.

Definition append_array (elems : list jsval) (parent : nat) (key : option (list Z)) (idx : option nat) (w : walk) : walk :=
  let '(a, h) := alloc (Arr []) (w_heap w) in
  let w := push_item parent key idx (TArray a) (set_heap h w) in
  push_stack (elem_items (index w) elems ++ [ObjectEnd]) w.

(** An object that was not visited before. *)
Definition walk_object (o : object) (parent : nat) (key : option (list Z)) (idx : option nat) (w : walk)
    : result error walk :=
  match o with
  | Platform d => let? o := clone_platform d in Ok (append_new o parent key idx w)
  | Date _ | RegExp _ _ => append_ctor_value o parent key idx w
  | SetObj _ => Ok (append_collection TSet o parent key idx w)
  | MapObj _ => Ok (append_collection TMap o parent key idx w)
  | View c bytes => append_buffer c bytes parent key idx w
  | Plain e props | Altered e props => Ok (append_plain e props parent key idx w)
  | _ => Ok (append_plain false [] parent key idx w)
  end.

(** The match on the type of a value. *)
Definition walk_value (parent : nat) (value : jsval) (key : option (list Z)) (idx : option nat) (w : walk)
    : result error walk :=
  let keep := Ok (push_item parent key idx (TValue value) w) in
  match value with
  | Prim _ => keep
  | Ref a =>
      match w_heap w !! a with
      | None => Err Panic
      | Some Proxy => Err (TypeError "A Proxy value could not be cloned")
      | Some (ErrorObj _) => keep
      | Some o =>
          match check_circular value parent key idx w with
          | Err e => Err e
          | Ok (true, w) => Ok w
          | Ok (false, w) =>
              match o with
              | Arr elems => Ok (append_array elems parent key idx w)
              | _ => walk_object o parent key idx w
              end
          end
      end
  end.

(** One turn of the loop; the stack is not empty. *)
Definition walk_step (transfer_set : option (list jsval)) (item : stack_item) (w : walk) : result error walk :=
  match item with
  | ObjectEnd => Ok (mkWalk (w_heap w) (tape w) (stack w) (removelast (visited w)) (index w))
  | Value parent value key idx =>
      let? w :=
        if match transfer_set with Some set => bool_decide (value ∈ set) | None => false end
        then append_transfer_value value parent key idx w
        else walk_value parent value key idx w in
      Ok (next_index w)
  end.

Fixpoint walk_loop (fuel : nat) (transfer_set : option (list jsval)) (w : walk) : option (result error walk) :=
  match stack w with
  | [] => Some (Ok w)
  | item :: rest =>
      match fuel with
      | O => None
      | S fuel =>
          match walk_step transfer_set item (mkWalk (w_heap w) (tape w) rest (visited w) (index w)) with
          | Err e => Some (Err e)
          | Ok w => walk_loop fuel transfer_set w
          end
      end
  end.

(** ** Assembly *)

Definition proto_key : list Z := str "__proto__".

(** [object.set(string, value)], an assignment. *)
Definition object_set (a : nat) (k : list Z) (v : jsval) (h : list object) : result error (list object) :=
  match h !! a with
  | Some (Plain e props) =>
      if bool_decide (k = proto_key) then engine_set a k v h else Ok (<[a := Plain e (set_prop k v props)]> h)
  | _ => engine_set a k v h
  end.

(** Puts the value of an item into its parent. *)
Definition attach (item : tape_item) (value : jsval) (tape : list tape_item) (h : list object)
    : result error (list tape_item * list object) :=
  let? p := or_panic (tape !! parent item) in
  match item_value p with
  | TArray a => let? i := or_panic (array_index item) in Ok (tape, array_set a i value h)
  | TObject a => let? k := or_panic (object_key item) in let? h := object_set a k value h in Ok (tape, h)
  | TCollection _ t =>
      match construct_collection t value h with
      | Err e => Err e
      | Ok (v, h) =>
          Ok (<[parent item := mkItem (parent p) (object_key p) (array_index p) (TCollection (Some v) t)]> tape, h)
      end
  | TValue _ => Ok (tape, h)
  end.

(** [fuel] is the length of the tape. *)
Fixpoint assemble (fuel : nat) (tape : list tape_item) (h : list object) : result error (jsval * list object) :=
  match fuel, last tape with
  | S fuel, Some item =>
      let tape := removelast tape in
      let? value := or_panic (tape_clone (item_value item)) in
      match tape with
      | [] => Ok (value, h)
      | _ =>
          match attach item value tape h with
          | Err e => Err e
          | Ok (tape, h) => assemble fuel tape h
          end
      end
  | _, _ => Ok (null, h)
  end.

(** The transfer list of the options. *)
Fixpoint check_transfer (h : list object) (seen items : list jsval) : result error (list jsval) :=
  match items with
  | [] => Ok seen
  | item :: items =>
      if bool_decide (item ∈ seen) then Err (DataCloneError "Transfer list contains duplicate values")
      else
        match item with
        | Ref a =>
            match h !! a with
            | Some (ArrayBuffer _) => check_transfer h (item :: seen) items
            | _ => Err (DataCloneError "Value is not transferable")
            end
        | Prim _ => Err (DataCloneError "Value is not transferable")
        end
  end.

Definition structured_clone (fuel : nat) (value : jsval) (transfer : option (list jsval)) (h : list object)
    : option (result error (jsval * list object)) :=
  let transfer_set :=
    match transfer with
    | None => Ok None
    | Some items => let? set := check_transfer h [] items in Ok (Some set)
    end in
  match transfer_set with
  | Err e => Some (Err e)
  | Ok transfer_set =>
      match walk_loop fuel transfer_set (mkWalk h [] [Value 0 value None None] [] 0) with
      | None => None
      | Some (Err e) => Some (Err e)
      | Some (Ok w) => Some (assemble (length (tape w)) (tape w) (w_heap w))
      end
  end.
End Walk.
