(* ===== verification/CloneCorrect.v ===== *)
(** * The structured clone is a copy

    The specification of the clone of a graph of plain objects, arrays and
    objects that a constructor copies (cycles and sharing included), and the
    proof that the walk and the assembly implement it.  A new object is the
    copy of one source: the ghost list [own] names the source of every new
    address. *)
From Stdlib Require Import ZArith Lia.
From stdpp Require Import base list numbers strings sets.
From S2P Require Import Prelude StructuredClone.

(** ** The specification *)

(** The value [v'] of the new heap copies [v]: [n] is the size of the heap
    before the clone, [own] the source of every new address. *)
Definition copy_val (n : nat) (own : list nat) (v v' : jsval) : Prop :=
  match v, v' with
  | Prim p, Prim q => p = q
  | Ref a, Ref b => n ≤ b ∧ own !! (b - n) = Some a
  | _, _ => False
  end.

Definition copy_object (n : nat) (own : list nat) (o o' : object) : Prop :=
  match o, o' with
  | Plain e props, Plain e' props' =>
      e = e' ∧ Forall2 (fun p p' => p.1 = p'.1 ∧ copy_val n own p.2 p'.2) props props'
  | Arr elems, Arr elems' => Forall2 (copy_val n own) elems elems'
  | Plain _ _, _ | Arr _, _ => False
  | _, _ => o = o'
  end.

(** [h'] is [h] with new objects, each the copy of its source. *)
Definition copy_heap (own : list nat) (h h' : list object) : Prop :=
  length h' = length h + length own ∧
  (forall a, a < length h -> h' !! a = h !! a) ∧
  (forall k a, own !! k = Some a ->
    exists o o', h !! a = Some o ∧ h' !! (length h + k) = Some o' ∧ copy_object (length h) own o o').

(** The values an object refers to. *)
Definition object_values (o : object) : list jsval :=
  match o with
  | Plain _ props => props.*2
  | Arr elems => elems
  | _ => []
  end.

Definition in_graph (live : nat -> Prop) (v : jsval) : Prop :=
  match v with Ref a => live a | Prim _ => True end.

(** The objects of the theorem. *)
Definition cloneable (o : object) : Prop :=
  match o with
  | Plain e props => e = false ∧ NoDup props.*1 ∧ proto_key ∉ props.*1
  | Arr _ | Date _ | RegExp _ _ => True
  | View (TypedArrayClass _) (Some _) => True
  | _ => False
  end.

(** [live] is closed under references and holds cloneable objects. *)
Definition graph (h : list object) (live : nat -> Prop) : Prop :=
  forall a, live a -> exists o, h !! a = Some o ∧ cloneable o ∧ Forall (in_graph live) (object_values o).

(** ** Children *)

Record entry := Entry {
  e_parent : nat;
  e_key : option (list Z);
  e_idx : option nat;
  e_val : jsval;
}.

Abbreviation child := (option (list Z) * option nat * jsval)%type (only parsing).

(** The children of an object in the order in which the walk visits them. *)
Definition children (o : object) : list (option (list Z) * option nat * jsval) :=
  match o with
  | Plain _ props => rev ((fun p => (Some p.1, None, p.2)) <$> props)
  | Arr elems => imap (fun i v => (None, Some i, v)) elems
  | _ => []
  end.

Definition child_entry (p : nat) (c : option (list Z) * option nat * jsval) : entry :=
  Entry p c.1.1 c.1.2 c.2.

Definition entry_child (e : entry) : option (list Z) * option nat * jsval := (e_key e, e_idx e, e_val e).

Definition item_of (e : entry) : stack_item := Value (e_parent e) (e_val e) (e_key e) (e_idx e).

Definition pending (stack : list stack_item) : list entry :=
  omap (fun i => match i with Value p v k i => Some (Entry p k i v) | ObjectEnd => None end) stack.

(** Ghost tape: the items with the values they copy. *)
Definition entry_of (g : tape_item * jsval) : entry :=
  Entry (parent g.1) (object_key g.1) (array_index g.1) g.2.

Definition skeleton (o : object) : object :=
  match o with
  | Plain e _ => Plain e []
  | Arr _ => Arr []
  | o => o
  end.

Definition is_node (o : object) : bool :=
  match o with Plain _ _ | Arr _ => true | _ => false end.

Definition node_value (o : object) (a : nat) : tape_value :=
  match o with
  | Plain _ _ => TObject a
  | Arr _ => TArray a
  | _ => TValue (Ref a)
  end.

Definition node_addr (v : tape_value) : option nat :=
  match v with TArray a | TObject a => Some a | _ => None end.

Definition addr_of (G : list (tape_item * jsval)) (p : nat) : option nat :=
  g ← G !! p; node_addr (item_value g.1).

Definition kids (G : list (tape_item * jsval)) (a : nat) (es : list entry) : list (option (list Z) * option nat * jsval) :=
  entry_child <$> filter (fun e => addr_of G (e_parent e) = Some a) es.

Lemma pending_app s1 s2 : pending (s1 ++ s2) = pending s1 ++ pending s2.
Proof. apply omap_app. Qed.

Lemma pending_items p (cs : list child) :
  pending ((fun c => item_of (child_entry p c)) <$> cs) = child_entry p <$> cs.
Proof. induction cs as [|c cs IH]; [done|]. cbn. f_equal. exact IH. Qed.

Lemma kids_app G a es1 es2 : kids G a (es1 ++ es2) = kids G a es1 ++ kids G a es2.
Proof. unfold kids. rewrite filter_app, fmap_app. done. Qed.

Lemma filter_none {A} (P : A -> Prop) `{!forall x, Decision (P x)} l : Forall (fun x => ~ P x) l -> filter P l = [].
Proof. induction 1 as [|x l Hx _ IH]; [done|]. rewrite filter_cons_False by done. exact IH. Qed.

Lemma kids_none G a es : Forall (fun e => addr_of G (e_parent e) <> Some a) es -> kids G a es = [].
Proof. intros Hes. unfold kids. rewrite filter_none by done. done. Qed.

Lemma kids_new G a p (cs : list child) : addr_of G p = Some a -> kids G a (child_entry p <$> cs) = cs.
Proof.
  intros Ha. induction cs as [|[[k i] v] cs IH]; [done|]. unfold kids in *. rewrite fmap_cons.
  rewrite filter_cons_True by done. rewrite fmap_cons. f_equal. exact IH.
Qed.

Lemma kids_grow G g a es :
  Forall (fun e => e_parent e < length G) es -> kids (G ++ [g]) a es = kids G a es.
Proof.
  intros Hes. unfold kids. f_equal. induction Hes as [|e es He _ IH]; [done|].
  assert (Ha : addr_of (G ++ [g]) (e_parent e) = addr_of G (e_parent e)).
  { unfold addr_of. rewrite lookup_app_l by done. done. }
  destruct (decide (addr_of G (e_parent e) = Some a)) as [Hd|Hd].
  - rewrite !filter_cons_True by congruence. congruence.
  - rewrite !filter_cons_False by congruence. exact IH.
Qed.

Lemma copy_val_mono n own own' v v' : copy_val n own v v' -> copy_val n (own ++ own') v v'.
Proof.
  destruct v, v'; cbn; try done. intros [? H]. split; [done|]. apply lookup_app_l_Some. exact H.
Qed.

Lemma tail_app_cons {A} (l1 : list A) x l2 : tail (l1 ++ x :: l2) = tail (l1 ++ [x]) ++ l2.
Proof. destruct l1; [done|]. cbn. rewrite <- app_assoc. done. Qed.

(** ** The walk *)

Section Correct.
Context (hash : jsval -> nat) (clone_platform : Z -> result error object)
  (engine_set : nat -> list Z -> jsval -> list object -> result error (list object)) (h : list object) (live : nat -> Prop) (root : jsval).
Hypothesis hash_inj : forall a b, live a -> live b -> hash (Ref a) = hash (Ref b) -> a = b.
Hypothesis HS : graph h live.

Local Abbreviation n := (length h).

Definition skel (a : nat) : object :=
  match h !! a with Some o => skeleton o | None => Proxy end.

(** The entry's parent is on the tape and is a new object or array. *)
Definition attached (own : list nat) (G : list (tape_item * jsval)) (e : entry) : Prop :=
  exists g k a o, G !! e_parent e = Some g ∧ own !! k = Some a ∧ h !! a = Some o ∧ is_node o ∧
    item_value g.1 = node_value o (n + k).

(** What the walk has built: [es] is what waits on the stack. *)
Record built (own : list nat) (G : list (tape_item * jsval)) (H : list object) (es : list entry) : Prop := Built {
  b_root : e_val <$> head ((entry_of <$> G) ++ es) = Some root;
  b_heap : H = h ++ (skel <$> own);
  b_own : Forall live own;
  b_rel : Forall (fun g => exists v', tape_clone (item_value g.1) = Some v' ∧ copy_val n own g.2 v') G;
  b_src : Forall (fun e => in_graph live (e_val e)) es;
  b_par : forall i g, G !! i = Some g -> i <> 0 -> parent g.1 < i;
  b_att : Forall (attached own G) (tail ((entry_of <$> G) ++ es));
  b_acc : forall k a o, own !! k = Some a -> h !! a = Some o ->
    kids G (n + k) (tail ((entry_of <$> G) ++ es)) = children o;
}.

Lemma built_length own G H es : built own G H es -> length H = n + length own.
Proof. intros []. subst. rewrite length_app, length_fmap. done. Qed.

Lemma attached_lt own G e : attached own G e -> e_parent e < length G.
Proof. intros (g & k & a & o & Hg & _). apply lookup_lt_is_Some. eauto. Qed.

Lemma attached_addr own G e :
  attached own G e -> exists k a, own !! k = Some a ∧ addr_of G (e_parent e) = Some (n + k).
Proof.
  intros (g & k & a & o & Hg & Hk & Ho & Hn & Hv). exists k, a. split; [done|].
  unfold addr_of. rewrite Hg. cbn. rewrite Hv. destruct o; done.
Qed.

Lemma attached_mono own own' G g e : attached own G e -> attached (own ++ own') (G ++ [g]) e.
Proof.
  intros (g' & k & a & o & Hg & Hk & Ho & Hn & Hv). exists g', k, a, o.
  repeat split; try done; apply lookup_app_l_Some; done.
Qed.

Lemma attached_parents own G es : Forall (attached own G) es -> Forall (fun e => e_parent e < length G) es.
Proof. intros. eapply Forall_impl; [done|]. apply attached_lt. Qed.

Lemma parents_push own G e es (it : tape_item) v :
  (forall i g, G !! i = Some g -> i <> 0 -> parent g.1 < i) ->
  Forall (attached own G) (tail ((entry_of <$> G) ++ e :: es)) -> parent it = e_parent e ->
  forall i g, (G ++ [(it, v)]) !! i = Some g -> i <> 0 -> parent g.1 < i.
Proof.
  intros Hpar Hatt Hp i g Hi H0. destruct (decide (i < length G)) as [Hl|Hl].
  - rewrite lookup_app_l in Hi by done. eauto.
  - assert (i = length G) as ->.
    { apply lookup_lt_Some in Hi. rewrite length_app in Hi. cbn in Hi. lia. }
    rewrite list_lookup_middle in Hi by done. simplify_eq. cbn. rewrite Hp.
    destruct G as [|g0 G]; [done|]. cbn in Hatt. apply Forall_app in Hatt as [_ Hatt].
    inversion_clear Hatt as [|? ? Hat _]. apply attached_lt in Hat. exact Hat.
Qed.

Lemma attached_old own G e : attached own G e -> addr_of G (e_parent e) <> Some (n + length own).
Proof.
  intros He. destruct (attached_addr _ _ _ He) as (k & a & Hk & ->). apply lookup_lt_Some in Hk.
  intros [=]. lia.
Qed.

Lemma children_values o p :
  Forall (in_graph live) (object_values o) -> Forall (fun c => in_graph live (e_val (child_entry p c))) (children o).
Proof.
  intros Hv. rewrite Forall_forall in Hv. apply Forall_forall. intros c Hc. apply Hv.
  destruct o; cbn in Hc |- *; try (by inversion Hc).
  - apply list_elem_of_In, in_rev, list_elem_of_In, list_elem_of_fmap in Hc as ([k v] & -> & Hc).
    apply list_elem_of_fmap. exists (k, v). done.
  - apply elem_of_lookup_imap in Hc as (i & v & -> & Hi). eapply list_elem_of_lookup_2. done.
Qed.

(** A value or a back reference goes on the tape. *)
Lemma built_value own G H e es v' :
  built own G H (e :: es) -> copy_val n own (e_val e) v' ->
  built own (G ++ [(mkItem (e_parent e) (e_key e) (e_idx e) (TValue v'), e_val e)]) H es.
Proof.
  intros [Hroot Hh Ho Hr Hs Hp Ha Hc] Hv.
  assert (HE : (entry_of <$> G ++ [(mkItem (e_parent e) (e_key e) (e_idx e) (TValue v'), e_val e)]) ++ es
               = (entry_of <$> G) ++ e :: es).
  { rewrite fmap_app, <- app_assoc. destruct e. done. }
  split; try done.
  - rewrite HE. done.
  - apply Forall_app. split; [done|]. apply Forall_singleton. exists v'. done.
  - inversion Hs. done.
  - eapply parents_push; done.
  - rewrite HE. eapply Forall_impl; [exact Ha|]. intros e' He'.
    pose proof (attached_mono own [] G (mkItem (e_parent e) (e_key e) (e_idx e) (TValue v'), e_val e) e' He') as Hm.
    rewrite app_nil_r in Hm. exact Hm.
  - intros k a o Hk Hoa. rewrite HE, kids_grow by (eapply attached_parents; done). eauto.
Qed.

(** A new object goes on the tape and its children on the stack. *)
Lemma built_new own G H e es a o :
  built own G H (e :: es) -> e_val e = Ref a -> live a -> h !! a = Some o -> cloneable o ->
  Forall (in_graph live) (object_values o) ->
  built (own ++ [a]) (G ++ [(mkItem (e_parent e) (e_key e) (e_idx e) (node_value o (length H)), Ref a)])
    (H ++ [skeleton o]) ((child_entry (length G) <$> children o) ++ es).
Proof.
  intros HB Hv HSa Ho Hcl Hvals. pose proof (built_length _ _ _ _ HB) as HlenH.
  destruct HB as [Hroot Hh Hown Hr Hs Hp Ha Hc].
  set (g := (mkItem _ _ _ _, _)).
  assert (HE : (entry_of <$> G ++ [g]) = (entry_of <$> G) ++ [e]).
  { rewrite fmap_app. subst g. cbn. unfold entry_of at 2. cbn. rewrite <- Hv. destruct e. done. }
  assert (Hk : addr_of (G ++ [g]) (length G) = node_addr (node_value o (length H))).
  { unfold addr_of. rewrite list_lookup_middle by done. done. }
  rewrite tail_app_cons in Ha. rewrite tail_app_cons in Hc.
  pose proof Ha as Ha2. apply Forall_app in Ha as [Ha1 Ha2'].
  assert (Htail : tail ((entry_of <$> G ++ [g]) ++ (child_entry (length G) <$> children o) ++ es)
                  = tail ((entry_of <$> G) ++ [e]) ++ (child_entry (length G) <$> children o) ++ es).
  { rewrite HE, <- app_assoc. cbn. rewrite tail_app_cons. done. }
  split.
  - rewrite HE, <- app_assoc. destruct G; done.
  - rewrite Hh, fmap_app, <- app_assoc. cbn. unfold skel at 3. rewrite Ho. done.
  - apply Forall_app. split; [done|]. apply Forall_singleton. done.
  - apply Forall_app. split.
    + eapply Forall_impl; [exact Hr|]. intros g' (v' & ? & ?). exists v'. split; [done|].
      apply copy_val_mono. done.
    + apply Forall_singleton. exists (Ref (length H)). split; [destruct o; done|].
      cbn. split; [lia|]. rewrite HlenH. replace (n + length own - n) with (length own) by lia.
      apply list_lookup_middle. done.
  - apply Forall_app. split; [|inversion Hs; done]. apply Forall_fmap. apply children_values. done.
  - eapply parents_push; [done| |]; [|done]. rewrite tail_app_cons. exact Ha2.
  - rewrite Htail, !Forall_app. repeat split.
    + eapply Forall_impl; [exact Ha1|]. intros e'. apply attached_mono.
    + apply Forall_fmap, Forall_forall. intros c Hin. exists g, (length own), a, o.
      rewrite !list_lookup_middle by done. repeat split; try done.
      * destruct o; first [done | by inversion Hin].
      * subst g. cbn. rewrite HlenH. done.
    + eapply Forall_impl; [exact Ha2'|]. intros e'. apply attached_mono.
  - intros k b ob Hb Hob. rewrite Htail, !kids_app.
    pose proof (attached_parents _ _ _ Ha1) as Hp1. pose proof (attached_parents _ _ _ Ha2') as Hp2.
    rewrite !(kids_grow _ _ _ _ Hp1), !(kids_grow _ _ _ _ Hp2).
    destruct (decide (k < length own)) as [Hl|Hl].
    + rewrite lookup_app_l in Hb by done. rewrite (kids_none _ _ (_ <$> _)).
      * rewrite <- (Hc _ _ _ Hb Hob), kids_app. done.
      * apply Forall_fmap, Forall_true. intros c. cbn. rewrite Hk. destruct o; cbn; first [done | intros [=]; lia].
    + assert (k = length own) as ->.
      { apply lookup_lt_Some in Hb. rewrite length_app in Hb. cbn in Hb. lia. }
      rewrite list_lookup_middle in Hb by done. simplify_eq.
      rewrite (kids_none G _ (tail _)), (kids_none G _ es) by
        (eapply Forall_impl; [first [exact Ha1 | exact Ha2']|]; apply attached_old).
      rewrite app_nil_r. cbn. destruct o; try done; apply kids_new; rewrite Hk; cbn; f_equal; lia.
Qed.

(** *** The visited objects and the cost of the stack *)

Definition mark (p : nat * nat) : nat * nat := (hash (Ref p.1), p.2).

Fixpoint ends (s : list stack_item) : nat :=
  match s with
  | [] => 0
  | ObjectEnd :: s => 1 + ends s
  | Value _ _ _ _ :: s => ends s
  end.

(** The turns that a value takes when [k] more objects can be open. *)
Fixpoint weight (b k : nat) : nat :=
  match k with
  | O => 1
  | Datatypes.S k => 2 + b * weight b k
  end.

Definition fanout : nat := sum_list_with (fun o => length (children o)) h.

Fixpoint cost (s : list stack_item) : nat :=
  match s with
  | [] => 0
  | ObjectEnd :: s => 1 + cost s
  | Value _ _ _ _ :: s => weight fanout (n - ends s) + cost s
  end.

Record visited_ok (G : list (tape_item * jsval)) (va : list (nat * nat)) (s : list stack_item) : Prop := VisitedOk {
  v_nodup : NoDup va.*1;
  v_live : Forall (fun p => live p.1 ∧ exists it, G !! p.2 = Some (it, Ref p.1)) va;
  v_ends : ends s <= length va;
}.

Definition walk_ok (w : walk) : Prop :=
  exists own G va, built own G (w_heap w) (pending (stack w)) ∧ visited_ok G va (stack w) ∧
    tape w = G.*1 ∧ index w = length G ∧ visited w = mark <$> va.

Lemma weight_pos b k : 1 <= weight b k.
Proof. destruct k; cbn; lia. Qed.

Lemma live_lt a : live a -> a < n.
Proof. intros Ha. destruct (HS a Ha) as (o & Ho & _). apply lookup_lt_Some in Ho. done. Qed.

Lemma visited_length G va s : visited_ok G va s -> length va <= n.
Proof.
  intros [Hnd Hl _]. rewrite <- (length_fmap fst), <- (length_seq n 0). apply submseteq_length, NoDup_submseteq; [done|].
  intros a Ha. apply list_elem_of_fmap in Ha as (p & -> & Hp). rewrite Forall_forall in Hl.
  apply elem_of_seq. pose proof (live_lt p.1 (proj1 (Hl p Hp))). lia.
Qed.

Lemma visited_grow G g va s : visited_ok G va s -> visited_ok (G ++ [g]) va s.
Proof.
  intros [Hnd Hl He]. split; try done. eapply Forall_impl; [exact Hl|]. intros p [? [it Hit]].
  split; [done|]. exists it. apply lookup_app_l_Some. done.
Qed.

Lemma visited_push G it a va s :
  visited_ok G va s -> live a -> a ∉ va.*1 -> visited_ok (G ++ [(it, Ref a)]) (va ++ [(a, length G)]) s.
Proof.
  intros Hv Ha Hn. apply (visited_grow _ (it, Ref a)) in Hv as [Hnd Hl He]. split.
  - rewrite fmap_app. apply NoDup_app. split; [done|]. split; [|apply NoDup_singleton].
    intros x Hx Hx'. apply list_elem_of_singleton in Hx'. subst. done.
  - apply Forall_app. split; [done|]. apply Forall_singleton. split; [done|]. exists it.
    apply list_lookup_middle. done.
  - rewrite length_app. lia.
Qed.

Lemma find_visited a va :
  live a -> Forall (fun p => live p.1) va ->
  match List.find (fun v => Nat.eqb v.1 (hash (Ref a))) (mark <$> va) with
  | Some x => exists i, x.2 = i ∧ (a, i) ∈ va
  | None => a ∉ va.*1
  end.
Proof.
  intros Ha Hva. induction Hva as [|p va Hp _ IH]; cbn; [set_solver|].
  destruct (Nat.eqb_spec (hash (Ref p.1)) (hash (Ref a))) as [He|He].
  - apply hash_inj in He; [|done..]. exists p.2. split; [done|]. destruct p. cbn in *. subst. set_solver.
  - destruct (List.find _ _); [destruct IH as (i & ? & ?); exists i; set_solver|]. set_solver.
Qed.

Lemma ends_items p (cs : list child) s : ends (((fun c => item_of (child_entry p c)) <$> cs) ++ s) = ends s.
Proof. induction cs; done. Qed.

Lemma cost_items p (cs : list child) s :
  cost (((fun c => item_of (child_entry p c)) <$> cs) ++ s) = length cs * weight fanout (n - ends s) + cost s.
Proof.
  induction cs as [|c cs IH]; [done|]. rewrite fmap_cons. cbn [app cost item_of].
  rewrite ends_items, IH. cbn. lia.
Qed.

Lemma children_fanout a o : h !! a = Some o -> length (children o) <= fanout.
Proof.
  intros Ha. unfold fanout. apply (sum_list_with_in o (fun o => length (children o))).
  apply list_elem_of_lookup_2 in Ha. done.
Qed.

(** The children of a node cost less than the node. *)
Lemma cost_node a o p rest :
  h !! a = Some o -> ends rest < n ->
  cost (((fun c => item_of (child_entry p c)) <$> children o) ++ ObjectEnd :: rest)
    < weight fanout (n - ends rest) + cost rest.
Proof.
  intros Ha He. rewrite cost_items. cbn [ends cost].
  destruct (n - ends rest) as [|k] eqn:Hk; [lia|]. replace (n - (1 + ends rest)) with k by lia.
  pose proof (children_fanout _ _ Ha). cbn [weight]. nia.
Qed.

(** *** One turn *)

Local Abbreviation step := (walk_step hash clone_platform None).
Local Abbreviation rest_of w rest := (mkWalk (w_heap w) (tape w) rest (visited w) (index w)).

(** The turn [e] on [w] succeeds, keeps the invariant and costs something. *)
Definition turn (item : stack_item) (rest : list stack_item) (w : walk) : Prop :=
  exists w', step item (rest_of w rest) = Ok w' ∧ walk_ok w' ∧ cost (stack w') < cost (item :: rest).

Lemma turn_end rest w : walk_ok w -> stack w = ObjectEnd :: rest -> turn ObjectEnd rest w.
Proof.
  intros (own & G & va & HB & HV & Ht & Hi & Hv) Hs. rewrite Hs in HB, HV.
  eexists. split; [done|]. split; [|cbn; lia].
  destruct HV as [Hnd Hl He]. cbn in He. destruct va as [|p va _] using rev_ind; [cbn in He; lia|].
  exists own, G, va. split; [exact HB|]. split; [split|repeat split; try done]; cbn.
  - rewrite fmap_app in Hnd. apply NoDup_app in Hnd as [Hnd _]. exact Hnd.
  - apply Forall_app in Hl as [Hl _]. exact Hl.
  - rewrite length_app in He. cbn in He. lia.
  - rewrite Hv, fmap_app. apply removelast_last.
Qed.

(** A value that goes on the tape as it is, or for an object visited before. *)
Lemma turn_keep own G va e rest w v' :
  built own G (w_heap w) (e :: pending rest) -> visited_ok G va rest ->
  tape w = G.*1 -> index w = length G -> visited w = mark <$> va -> copy_val n own (e_val e) v' ->
  walk_value hash clone_platform (e_parent e) (e_val e) (e_key e) (e_idx e) (rest_of w rest) =
    Ok (push_item (e_parent e) (e_key e) (e_idx e) (TValue v') (rest_of w rest)) ->
  turn (item_of e) rest w.
Proof.
  intros HB HV Ht Hi Hv Hc Hw. eexists. split; [unfold item_of; cbn; rewrite Hw; done|].
  split; [|cbn; pose proof (weight_pos fanout (n - ends rest)); lia].
  exists own, (G ++ [(mkItem (e_parent e) (e_key e) (e_idx e) (TValue v'), e_val e)]), va. cbn.
  split; [apply built_value; done|]. split; [apply visited_grow; done|].
  rewrite fmap_app, length_app, Ht, Hi. cbn. repeat split; [lia|done].
Qed.

Lemma prop_items_children i e props :
  prop_items i props = (fun c => item_of (child_entry i c)) <$> children (Plain e props).
Proof. unfold prop_items, children. etransitivity; [|symmetry; apply map_rev]. f_equal. symmetry. apply map_map. Qed.

Lemma elem_items_children i elems :
  elem_items i elems = (fun c => item_of (child_entry i c)) <$> children (Arr elems).
Proof. unfold elem_items, children. rewrite fmap_imap. done. Qed.

(** A new object: what the walk does with it, by its kind. *)
Lemma turn_new own G va e a o rest w :
  built own G (w_heap w) (e :: pending rest) -> visited_ok G va rest ->
  tape w = G.*1 -> index w = length G -> visited w = mark <$> va ->
  e_val e = Ref a -> live a -> h !! a = Some o -> cloneable o ->
  Forall (in_graph live) (object_values o) -> a ∉ va.*1 ->
  walk_value hash clone_platform (e_parent e) (e_val e) (e_key e) (e_idx e) (rest_of w rest) =
    Ok (mkWalk (w_heap w ++ [skeleton o])
      (tape w ++ [mkItem (e_parent e) (e_key e) (e_idx e) (node_value o (length (w_heap w)))])
      (((fun c => item_of (child_entry (index w) c)) <$> children o) ++ (if is_node o then [ObjectEnd] else []) ++ rest)
      (visited w ++ [mark (a, index w)]) (index w)) ->
  turn (item_of e) rest w.
Proof.
  intros HB HV Ht Hi Hv He Ha Ho Hc Hvals Hna Hw. eexists. split; [unfold item_of; cbn; rewrite Hw; done|].
  assert (HV' := visited_push G (mkItem (e_parent e) (e_key e) (e_idx e) (node_value o (length (w_heap w)))) a va rest HV Ha Hna).
  pose proof (visited_length _ _ _ HV') as Hlen. rewrite length_app in Hlen. cbn in Hlen.
  pose proof (v_ends _ _ _ HV) as Hends. cbn [stack next_index]. split.
  - eexists _, _, _. split; [|split].
    + cbn [w_heap stack next_index]. rewrite !pending_app, pending_items, Hi.
      assert (Hp : pending (if is_node o then [ObjectEnd] else []) = []) by (destruct (is_node o); done).
      rewrite Hp. apply built_new; done.
    + destruct HV' as [Hnd Hl _]. split; [exact Hnd|exact Hl|]. cbn. rewrite ends_items, length_app.
      destruct (is_node o); cbn; lia.
    + cbn. rewrite !fmap_app, length_app, Ht, Hi, Hv. cbn. repeat split; lia.
  - destruct (is_node o) eqn:Hn.
    + apply (cost_node a); [done|lia].
    + replace (children o) with (@nil child) by (destruct o; done). cbn.
      pose proof (weight_pos fanout (n - ends rest)). lia.
Qed.

Lemma heap_live own G H es a o : built own G H es -> h !! a = Some o -> H !! a = Some o.
Proof. intros [_ -> _ _ _ _ _ _] Ha. apply lookup_app_l_Some. exact Ha. Qed.

Lemma turn_value e rest w : walk_ok w -> stack w = item_of e :: rest -> turn (item_of e) rest w.
Proof.
  intros (own & G & va & HB & HV & Ht & Hi & Hv) Hs. rewrite Hs in HB, HV.
  assert (HV' : visited_ok G va rest) by (destruct HV; split; done).
  assert (HB' : built own G (w_heap w) (e :: pending rest)) by (destruct e; exact HB). clear HB HV.
  pose proof (b_src _ _ _ _ HB') as Hsrc. inversion_clear Hsrc as [|? ? He _].
  destruct (e_val e) as [x|a] eqn:Hev.
  - apply (turn_keep own G va e rest w (Prim x)); try done; rewrite Hev; done.
  - cbn in He. destruct (HS a He) as (o & Ho & Hc & Hvals).
    pose proof (heap_live _ _ _ _ _ _ HB' Ho) as Hwo.
    assert (Hlive : Forall (fun p => live p.1) va).
    { eapply Forall_impl; [exact (v_live _ _ _ HV')|]. intros p [? _]. done. }
    pose proof (find_visited a va He Hlive) as Hf.
    destruct (List.find _ _) as [[hx j]|] eqn:Hfind.
    + destruct Hf as (j' & <- & Hin). cbn in Hin.
      destruct (proj1 (Forall_forall _ _) (v_live _ _ _ HV') _ Hin) as [_ [it Hit]]. cbn in Hit.
      pose proof (b_rel _ _ _ _ HB') as Hrel.
      destruct (Forall_lookup_1 _ _ _ _ Hrel Hit) as (v' & Hcl & Hcv). cbn in Hcl, Hcv.
      apply (turn_keep own G va e rest w v'); try done; [rewrite Hev; done|].
      rewrite Hev. cbn. rewrite Hwo. unfold check_circular, append_circular. cbn. rewrite Hv, Hfind. cbn.
      rewrite Ht, list_lookup_fmap, Hit. cbn. rewrite Hcl. cbn. destruct o; done.
    + apply (turn_new own G va e a o rest w); try done.
      rewrite Hev. cbn [walk_value w_heap]. rewrite Hwo. unfold check_circular. cbn [visited]. rewrite Hv, Hfind.
      destruct o; try done; cbn in Hc.
      * destruct Hc as (-> & _). rewrite <- prop_items_children. unfold walk_object, append_plain, push_stack. cbn [alloc push_item set_heap stack].
        rewrite <- app_assoc. done.
      * rewrite <- elem_items_children. unfold append_array, push_stack. cbn [alloc push_item set_heap stack].
        rewrite <- app_assoc. done.
      * destruct class, bytes; done.
Qed.

(** ** The loop ends with everything on the tape *)

Lemma walk_loop_ok fuel w :
  walk_ok w -> cost (stack w) <= fuel ->
  exists w', walk_loop hash clone_platform fuel None w = Some (Ok w') ∧ walk_ok w' ∧ stack w' = [].
Proof.
  revert w. induction fuel as [|fuel IH]; intros w Hw Hc.
  - destruct (stack w) as [|[]] eqn:Hs; cbn in Hc.
    + exists w. cbn. rewrite Hs. done.
    + pose proof (weight_pos fanout (n - ends l)). lia.
    + lia.
  - destruct (stack w) as [|item rest] eqn:Hs; [exists w; cbn; rewrite Hs; done|].
    assert (Ht : turn item rest w).
    { destruct item as [p v k i|]; [apply (turn_value (Entry p k i v))|apply turn_end]; done. }
    destruct Ht as (w' & Hstep & Hok & Hcost). destruct (IH w' Hok ltac:(lia)) as (w2 & Hl & Hw2).
    exists w2. split; [|done]. cbn [walk_loop]. rewrite Hs, Hstep. exact Hl.
Qed.

Lemma walk_init : in_graph live root -> walk_ok (mkWalk h [] [Value 0 root None None] [] 0).
Proof.
  intros Hv. exists [], [], []. split; [|split; [|done]].
  - split; cbn; try done.
    + rewrite app_nil_r. done.
    + apply Forall_singleton. done.
  - split; [apply NoDup_nil_2|done|cbn; lia].
Qed.

(** ** Assembly *)

Definition put (o : object) (c : option (list Z) * option nat * jsval) : object :=
  match o, c with
  | Plain e props, (Some k, _, v) => Plain e (set_prop k v props)
  | Arr elems, (_, Some i, v) => Arr (set_elem i v elems)
  | o, _ => o
  end.

(** The child that an item is, with the new value. *)
Definition new_child (g : tape_item * jsval) : option (list Z) * option nat * jsval :=
  (object_key g.1, array_index g.1, default undefined (tape_clone (item_value g.1))).

Definition fill (G : list (tape_item * jsval)) (H : list object) (g : tape_item * jsval) : list object :=
  match addr_of G (parent g.1) with
  | Some a => alter (fun o => put o (new_child g)) a H
  | None => H
  end.

Definition kind_ok (own : list nat) (H : list object) : Prop :=
  forall k a o, own !! k = Some a -> h !! a = Some o ->
    exists c, H !! (n + k) = Some c ∧ forall x, node_value c x = node_value o x.

Lemma put_kind o c x : node_value (put o c) x = node_value o x.
Proof. destruct o, c as [[[] []] ]; done. Qed.

Lemma fill_kind own G H g : kind_ok own H -> kind_ok own (fill G H g).
Proof.
  intros HK k a o Hk Ho. destruct (HK k a o Hk Ho) as (c & Hc & Hn). unfold fill.
  destruct (addr_of _ _) as [b|]; [|eauto]. destruct (decide (b = n + k)) as [->|Hne].
  - rewrite list_lookup_alter_eq, Hc. eexists. split; [done|]. intros x. rewrite put_kind. done.
  - rewrite list_lookup_alter_ne by done. eauto.
Qed.

Lemma built_kind own G H es : built own G H es -> kind_ok own H.
Proof.
  intros [_ -> _ _ _ _ _ _] k a o Hk Ho. exists (skeleton o). split; [|destruct o; done].
  rewrite lookup_app_r by lia. replace (n + k - n) with k by lia.
  rewrite list_lookup_fmap, Hk. cbn. unfold skel. rewrite Ho. done.
Qed.

(** The key of a child fits its parent. *)
Lemma child_shape own G H e :
  built own G H [] -> e ∈ tail (entry_of <$> G) ->
  exists g k a o, G !! e_parent e = Some g ∧ own !! k = Some a ∧ h !! a = Some o ∧
    item_value g.1 = node_value o (n + k) ∧
    match o with
    | Plain _ _ => exists key, e_key e = Some key ∧ key <> proto_key
    | Arr _ => is_Some (e_idx e)
    | _ => False
    end.
Proof.
  intros [_ _ Hown _ _ _ Ha Hc] He. rewrite app_nil_r in Ha, Hc.
  rewrite Forall_forall in Ha. destruct (Ha e He) as (g & k & a & o & Hg & Hk & Ho & Hn & Hv).
  exists g, k, a, o. repeat split; try done.
  assert (Hin : entry_child e ∈ children o).
  { rewrite <- (Hc k a o Hk Ho). apply list_elem_of_fmap. exists e. split; [done|].
    apply list_elem_of_filter. split; [|done]. unfold addr_of. rewrite Hg. cbn. rewrite Hv. destruct o; done. }
  destruct (HS a (Forall_lookup_1 _ _ _ _ Hown Hk)) as (o' & Ho' & Hcl & _). rewrite Ho in Ho'. injection Ho' as <-.
  destruct o; try done; cbn in Hin.
  - apply list_elem_of_In, in_rev, list_elem_of_In, list_elem_of_fmap in Hin as (p & [= -> ? ?] & Hp). exists p.1. split; [done|].
    intros Hpk. apply (proj2 (proj2 Hcl)). rewrite <- Hpk. apply list_elem_of_fmap. eauto.
  - apply elem_of_lookup_imap in Hin as (i & v & [= ? -> ?] & _). done.
Qed.

Lemma attach_fill own G G1 G2 H g v :
  G = G1 ++ g :: G2 -> G1 <> [] -> built own G (h ++ (skel <$> own)) [] -> kind_ok own H ->
  tape_clone (item_value g.1) = Some v -> attach engine_set g.1 v G1.*1 H = Ok (G1.*1, fill G H g).
Proof.
  intros HG Hne HB HK Hv.
  assert (Hin : entry_of g ∈ tail (entry_of <$> G)).
  { subst G. destruct G1 as [|g0 G1]; [done|]. cbn. rewrite fmap_app. set_solver. }
  destruct (child_shape _ _ _ _ HB Hin) as (gp & k & a & o & Hg & Hk & Ho & Hn & Hsh). cbn in Hg, Hsh.
  assert (Hpar : parent g.1 < length G1).
  { apply (b_par _ _ _ _ HB (length G1) g); [subst G; apply list_lookup_middle; done|].
    destruct G1; [done|]. cbn. lia. }
  assert (Hp : G1.*1 !! parent g.1 = Some gp.1).
  { rewrite list_lookup_fmap. subst G. rewrite lookup_app_l in Hg by done. rewrite Hg. done. }
  destruct (HK k a o Hk Ho) as (c & Hc & Hkind).
  unfold attach, fill, addr_of, new_child. rewrite Hp, Hg. cbn. rewrite Hn, Hv. cbn.
  destruct o; try done; [destruct Hsh as (x & -> & Hx)|destruct Hsh as [x ->]]; cbn.
  - unfold object_set. rewrite Hc. specialize (Hkind 0). destruct c; try done. rewrite bool_decide_eq_false_2 by done.
    cbn. f_equal. f_equal. apply list_eq. intros j. destruct (decide (j = n + k)) as [->|Hj].
    + rewrite list_lookup_alter_eq, Hc. cbn. apply list_lookup_insert_eq. apply lookup_lt_Some in Hc. done.
    + rewrite list_lookup_alter_ne, list_lookup_insert_ne by done. done.
  - f_equal. f_equal. unfold array_set. rewrite Hc. specialize (Hkind 0). destruct c; try done.
    apply list_eq. intros j. destruct (decide (j = n + k)) as [->|Hj].
    + rewrite list_lookup_alter_eq, Hc. cbn. destruct (object_key g.1); apply list_lookup_insert_eq; apply lookup_lt_Some in Hc; done.
    + rewrite list_lookup_alter_ne, list_lookup_insert_ne by done. done.
Qed.

Lemma assemble_fill own G G1 : forall G2 H g0 v,
  G = g0 :: G1 ++ G2 -> built own G (h ++ (skel <$> own)) [] -> kind_ok own H ->
  tape_clone (item_value g0.1) = Some v ->
  assemble engine_set (Datatypes.S (length G1)) (g0 :: G1).*1 H = Ok (v, foldl (fill G) H (rev G1)).
Proof.
  induction G1 as [|g G1 IH] using rev_ind; intros G2 H g0 v HG HB HK Hv.
  - cbn. rewrite Hv. done.
  - destruct (Forall_lookup_1 _ _ (length (g0 :: G1)) g (b_rel _ _ _ _ HB)) as (vg & Hvg & _).
    { subst G. rewrite <- app_assoc. apply (list_lookup_middle (g0 :: G1)). done. }
    change (g0 :: G1 ++ [g]) with ((g0 :: G1) ++ [g]). rewrite fmap_app. cbn [assemble].
    change ([g].*1) with [g.1]. rewrite last_snoc, removelast_last, Hvg.
    assert (Hat : attach engine_set g.1 vg (g0 :: G1).*1 H = Ok ((g0 :: G1).*1, fill G H g)).
    { apply (attach_fill own G (g0 :: G1) G2); [subst G; cbn; rewrite <- app_assoc; done|done..]. }
    rewrite fmap_cons in Hat |- *. cbn [or_panic result_bind]. rewrite Hat. rewrite length_app, Nat.add_comm. cbn [Nat.add].
    rewrite rev_app_distr. cbn. eapply IH; [|done|apply fill_kind; done|done].
    subst G. rewrite <- app_assoc. done.
Qed.

(** *** What an object holds at the end *)

Lemma fill_lookup G l a : forall H,
  foldl (fill G) H l !! a =
    (fun o => foldl put o (new_child <$> filter (fun g => addr_of G (parent g.1) = Some a) l)) <$> H !! a.
Proof.
  induction l as [|g l IH]; intros H; [cbn; destruct (H !! a); done|]. cbn [foldl]. rewrite IH. unfold fill.
  destruct (decide (addr_of G (parent g.1) = Some a)) as [Ha|Ha].
  - rewrite filter_cons_True by done. rewrite Ha, list_lookup_alter_eq. destruct (H !! a); done.
  - rewrite filter_cons_False by done. destruct (addr_of _ _) as [b|]; [|done].
    rewrite list_lookup_alter_ne by congruence. done.
Qed.

Lemma fill_length G l : forall H, length (foldl (fill G) H l) = length H.
Proof.
  induction l as [|g l IH]; intros H; [done|]. cbn. rewrite IH. unfold fill.
  destruct (addr_of _ _); [apply length_alter|done].
Qed.

Definition child_copy (own : list nat) (c c' : option (list Z) * option nat * jsval) : Prop :=
  c.1 = c'.1 ∧ copy_val n own c.2 c'.2.

Lemma kids_copy own G a l :
  Forall (fun g => exists v', tape_clone (item_value g.1) = Some v' ∧ copy_val n own g.2 v') l ->
  Forall2 (child_copy own) (kids G a (entry_of <$> l))
    (new_child <$> filter (fun g => addr_of G (parent g.1) = Some a) l).
Proof.
  induction 1 as [|g l (v' & Hv & Hc) _ IH]; [constructor|]. unfold kids in *. rewrite fmap_cons.
  destruct (decide (addr_of G (parent g.1) = Some a)) as [Ha|Ha].
  - rewrite !filter_cons_True by done. cbn. constructor; [|done]. split; [done|]. cbn. rewrite Hv. exact Hc.
  - rewrite !filter_cons_False by done. done.
Qed.

Lemma filter_rev {A} (P : A -> Prop) `{!forall x, Decision (P x)} l : filter P (rev l) = rev (filter P l).
Proof.
  induction l as [|x l IH]; [done|]. cbn [rev]. rewrite filter_app, IH, !filter_cons, filter_nil.
  destruct (decide (P x)); [done|apply app_nil_r].
Qed.

Lemma set_prop_fresh k v props : k ∉ props.*1 -> set_prop k v props = props ++ [(k, v)].
Proof.
  induction props as [|[k' v'] props IH]; [done|]. cbn. intros Hk. apply not_elem_of_cons in Hk as [Hn Hk].
  rewrite bool_decide_eq_false_2 by done. rewrite IH by done. done.
Qed.

Lemma put_props own e (props : list (list Z * jsval)) cs :
  Forall2 (child_copy own) ((fun p => (Some p.1, None, p.2)) <$> props) cs ->
  forall done, NoDup (done.*1 ++ props.*1) ->
  exists props', foldl put (Plain e done) cs = Plain e (done ++ props') ∧
    Forall2 (fun p p' => p.1 = p'.1 ∧ copy_val n own p.2 p'.2) props props'.
Proof.
  revert cs. induction props as [|[k v] props IH]; intros cs Hcs dn Hnd; inversion Hcs as [|? c ? cs' [Hc Hv] Hcs' He]; subst.
  - exists []. rewrite app_nil_r. split; [done|constructor].
  - destruct c as [ki v']. cbn in Hc, Hv. subst ki. cbn.
    assert (Hk : k ∉ dn.*1).
    { apply NoDup_app in Hnd as (_ & Hd & _). intros Hin. apply (Hd k Hin). set_solver. }
    rewrite set_prop_fresh by done.
    destruct (IH cs' Hcs' (dn ++ [(k, v')])) as (props' & -> & HF).
    { rewrite fmap_app. cbn. rewrite <- app_assoc. exact Hnd. }
    exists ((k, v') :: props'). rewrite <- app_assoc. split; [done|]. constructor; done.
Qed.

Lemma set_elem_fill (vs1 vs2 : list jsval) :
  vs2 <> [] -> foldl put (Arr (replicate (length vs1) undefined ++ vs2))
    (rev (imap (fun i v => (None, Some i, v)) vs1)) = Arr (vs1 ++ vs2).
Proof.
  revert vs2. induction vs1 as [|x vs1 IH] using rev_ind; intros vs2 Hne; [done|].
  rewrite imap_app, rev_app_distr. cbn. rewrite length_app. cbn [length]. rewrite Nat.add_0_r.
  unfold set_elem. rewrite (proj2 (Nat.ltb_lt _ _)).
  - rewrite Nat.add_comm, replicate_S_end, <- !app_assoc. cbn [app].
    rewrite insert_app_r_alt by (rewrite length_replicate; lia). rewrite length_replicate, Nat.sub_diag. cbn.
    apply IH. done.
  - rewrite length_app, length_replicate. destruct vs2; [done|]. cbn. lia.
Qed.

Lemma put_elems (vs : list jsval) :
  foldl put (Arr []) (rev (imap (fun i v => (None, Some i, v)) vs)) = Arr vs.
Proof.
  destruct vs as [|x vs _] using rev_ind; [done|].
  rewrite imap_app, rev_app_distr. cbn. rewrite Nat.add_0_r. unfold set_elem. cbn.
  rewrite Nat.sub_0_r. apply set_elem_fill; done.
Qed.

Lemma imap_copy own (vs : list jsval) cs :
  Forall2 (child_copy own) (imap (fun i v => (None, Some i, v)) vs) cs ->
  exists vs', cs = imap (fun i v => (None, Some i, v)) vs' ∧ Forall2 (copy_val n own) vs vs'.
Proof.
  revert cs. induction vs as [|v vs IH] using rev_ind; intros cs Hcs.
  - inversion Hcs. exists []. split; [done|constructor].
  - rewrite imap_app in Hcs. apply Forall2_app_inv_l in Hcs as (cs1 & cs2 & H1 & H2 & ->).
    destruct (IH _ H1) as (vs' & -> & HF). inversion H2 as [|? c ? ? [Hc Hv] H2' He]; subst. inversion H2'; subst.
    destruct c as [ki v']. cbn in Hc, Hv. subst ki. exists (vs' ++ [v']).
    rewrite imap_app, (Forall2_length _ _ _ HF). split; [done|]. apply Forall2_app; [done|]. constructor; [done|constructor].
Qed.

Lemma filled_object own o cs :
  cloneable o -> Forall2 (child_copy own) (children o) cs ->
  copy_object n own o (foldl put (skeleton o) (rev cs)).
Proof.
  intros Hc Hcs. destruct o; cbn in Hc, Hcs; try done; try (inversion Hcs; done).
  - assert (Hcs' : Forall2 (child_copy own) ((fun p => (Some p.1, None, p.2)) <$> props) (rev cs)).
    { rewrite <- (rev_involutive (_ <$> _)). rewrite !(rev_alt _). apply Forall2_reverse. rewrite <- rev_alt. exact Hcs. }
    destruct (put_props _ instance_of_error _ _ Hcs' [] (proj1 (proj2 Hc))) as (props' & Hp & HF). cbn [skeleton]. rewrite Hp. split; done.
  - apply imap_copy in Hcs as (vs' & -> & HF). cbn [skeleton]. rewrite put_elems. exact HF.
Qed.

(** ** Walk and assembly together *)

Lemma built_copy own G : built own G (h ++ (skel <$> own)) [] ->
  exists v' h', assemble engine_set (length G.*1) G.*1 (h ++ (skel <$> own)) = Ok (v', h') ∧
    copy_val n own root v' ∧ copy_heap own h h'.
Proof.
  intros HB. pose proof (b_root _ _ _ _ HB) as Hroot. destruct G as [|g0 G]; [done|]. cbn in Hroot.
  apply (inj Some) in Hroot. rewrite <- Hroot. pose proof (b_rel _ _ _ _ HB) as Hrel.
  inversion_clear Hrel as [|? ? (v' & Hv & Hcv) HrelG].
  exists v', (foldl (fill (g0 :: G)) (h ++ (skel <$> own)) (rev G)).
  split; [|split; [done|]].
  - rewrite length_fmap. eapply (assemble_fill own _ G []); try done; [rewrite app_nil_r; done|eapply built_kind; done].
  - split; [|split].
    + rewrite fill_length, length_app, length_fmap. done.
    + intros a Ha. rewrite fill_lookup, lookup_app_l by done.
      rewrite filter_none; [destruct (h !! a); done|].
      pose proof (b_att _ _ _ _ HB) as Hatt. rewrite app_nil_r in Hatt. cbn in Hatt. rewrite Forall_fmap in Hatt.
      apply Forall_rev. eapply Forall_impl; [exact Hatt|]. intros g Hg Hga.
      destruct (attached_addr _ _ _ Hg) as (k & b & _ & Hk). cbn in Hk. rewrite Hk in Hga. injection Hga. lia.
    + intros k a Hk. destruct HB as [_ _ Hown _ _ _ Hatt Hacc].
      assert (Hla : live a) by (eapply Forall_lookup_1 in Hown; done).
      destruct (HS a Hla) as (o & Ho & Hc & _). eexists o, _. split; [done|]. split.
      { rewrite fill_lookup, lookup_app_r by lia. replace (n + k - n) with k by lia.
        rewrite list_lookup_fmap, Hk. cbn. unfold skel. rewrite Ho. done. }
      rewrite filter_rev. erewrite (map_rev new_child). apply filled_object; [done|].
      specialize (Hacc k a o Hk Ho). rewrite app_nil_r in Hacc. cbn in Hacc. rewrite <- Hacc.
      apply kids_copy. done.
Qed.

Lemma clone_ok fuel :
  in_graph live root -> cost [Value 0 root None None] <= fuel ->
  exists own v' h', structured_clone hash clone_platform engine_set fuel root None h = Some (Ok (v', h')) ∧
    copy_val n own root v' ∧ copy_heap own h h'.
Proof.
  intros Hv Hf. destruct (walk_loop_ok fuel _ (walk_init Hv) Hf) as (w & Hw & (own & G & va & HB & _ & Ht & _) & Hs).
  rewrite Hs in HB. pose proof (b_heap _ _ _ _ HB) as Hh. rewrite Hh in HB.
  destruct (built_copy own G HB) as (v' & h' & Ha & Hc).
  exists own, v', h'. split; [|done]. unfold structured_clone. rewrite Hw. cbn. rewrite Ht, Hh, Ha. done.
Qed.
End Correct.

(** ** Theorems *)

(** C7: For a value whose objects are [cloneable], with cycles and sharing, and
    without collisions of the hash, the clone ends and gives a copy: no object
    of the heap changes, the value and everything reachable from it is new, and
    every new object has the keys and elements of its source in the same order,
    each the same primitive or a new object that copies the source's.  Cloneable
    are objects that are no errors and have no own key __proto__, arrays, dates,
    regular expressions and typed arrays that are not detached; not DataViews,
    sets, maps, buffers, errors and platform objects.  The classes of the engine
    are as the engine made them, and properties are data. *)
Theorem structured_clone_copies hash clone_platform engine_set h (live : nat -> Prop) v :
  (forall a b, live a -> live b -> hash (Ref a) = hash (Ref b) -> a = b) ->
  graph h live -> in_graph live v ->
  exists turns, forall fuel, turns <= fuel ->
    exists own v' h', structured_clone hash clone_platform engine_set fuel v None h = Some (Ok (v', h')) ∧
      copy_val (length h) own v v' ∧ copy_heap own h h'.
Proof. intros Hh Hg Hv. eexists. intros fuel Hf. exact (clone_ok _ _ _ _ live v Hh Hg fuel Hv Hf). Qed.

Definition address (v : jsval) : nat := match v with Ref a => a | Prim _ => 0 end.

(** An engine in which __proto__ sets the prototype, to an object or to null,
    and other keys are properties. *)
Definition sets_prototype (a : nat) (k : list Z) (v : jsval) (h : list object) : result error (list object) :=
  match h !! a with
  | Some (Plain e props) => if bool_decide (v = null \/ v = Ref (address v)) then Ok (<[a := Altered e props]> h) else Ok h
  | Some (Altered e props) => Ok (<[a := Altered e (set_prop k v props)]> h)
  | _ => Ok h
  end.

(** An object with an array that refers back to it, and a date used twice. *)
Definition cyclic : list object :=
  [Plain false [([97%Z], Ref 1); ([98%Z], Ref 2)]; Arr [Prim 5; Ref 0; Ref 2]; Date 7].

Lemma structured_clone_copies_witness :
  exists turns, forall fuel, turns <= fuel ->
    exists own v' h', structured_clone address (fun _ => Err Thrown) sets_prototype fuel (Ref 0) None cyclic = Some (Ok (v', h')) ∧
      copy_val 3 own (Ref 0) v' ∧ copy_heap own cyclic h'.
Proof.
  apply (structured_clone_copies address (fun _ => Err Thrown) sets_prototype cyclic (fun a => a < 3) (Ref 0)).
  - intros a b _ _ Hab. exact Hab.
  - intros [|[|[|a]]] Ha; [..|lia]; eexists; (split; [reflexivity|]); cbn; split;
      try done; repeat constructor; try (cbn; lia); set_solver.
  - cbn. lia.
Defined.

Definition clone_all := structured_clone address (fun _ => Err Thrown) sets_prototype 100.

Example cyclic_clone :
  clone_all (Ref 0) None cyclic =
    Some (Ok (Ref 3, cyclic ++
      [Plain false [([97%Z], Ref 5); ([98%Z], Ref 4)]; Date 7; Arr [Prim 5; Ref 3; Ref 4]])).
Proof. vm_compute. reflexivity. Qed.

(** A map with an object as value: the arrays of the entries are left on the heap. *)
Example map_clone :
  clone_all (Ref 0) None [MapObj [(Prim 5, Ref 1)]; Arr [Prim 6]] =
    Some (Ok (Ref 7, [MapObj [(Prim 5, Ref 1)]; Arr [Prim 6]; Arr [Prim 5; Ref 1]; Arr [Ref 2];
                      Arr [Ref 5]; Arr [Prim 5; Ref 6]; Arr [Prim 6]; MapObj [(Prim 5, Ref 6)]])).
Proof. vm_compute. reflexivity. Qed.

(** An object that is used twice has two clones: it is no longer visited when
    its last child is done. *)
Theorem shared_object_cloned_twice :
  clone_all (Ref 0) None [Arr [Ref 1; Ref 1]; Plain false []] =
    Some (Ok (Ref 2, [Arr [Ref 1; Ref 1]; Plain false []; Arr [Ref 3; Ref 4]; Plain false []; Plain false []])).
Proof. vm_compute. reflexivity. Qed.

(** A map that holds itself: the back reference unwraps the map that is built
    only at the end. *)
Theorem cyclic_map_panics : clone_all (Ref 0) None [MapObj [(Prim 5, Ref 0)]] = Some (Err Panic).
Proof. vm_compute. reflexivity. Qed.

(** A map with a date, used twice: the date is never removed from the visited
    objects, so the end of the map removes something else and the second use
    takes the map, not built yet, for a back reference. *)
Theorem shared_map_panics :
  clone_all (Ref 0) None [Arr [Ref 1; Ref 1]; MapObj [(Prim 5, Ref 2)]; Date 7] = Some (Err Panic).
Proof. vm_compute. reflexivity. Qed.

(** A buffer that is not transferred is cloned to an empty object. *)
Theorem buffer_clone_empty bytes :
  clone_all (Ref 0) None [ArrayBuffer (Some bytes)] =
    Some (Ok (Ref 1, [ArrayBuffer (Some bytes); Plain false []])).
Proof. reflexivity. Qed.

(** An error is not cloned: the clone is the error itself. *)
Theorem error_not_cloned msg : clone_all (Ref 0) None [ErrorObj msg] = Some (Ok (Ref 0, [ErrorObj msg])).
Proof. reflexivity. Qed.

Example transfer_detaches :
  clone_all (Ref 0) (Some [Ref 1]) [Arr [Ref 1]; ArrayBuffer (Some [1%Z])] =
    Some (Ok (Ref 2, [Arr [Ref 1]; ArrayBuffer None; Arr [Ref 3]; ArrayBuffer (Some [1%Z])])).
Proof. vm_compute. reflexivity. Qed.

Example transfer_twice :
  clone_all (Ref 0) (Some [Ref 0; Ref 0]) [ArrayBuffer (Some [])] =
    Some (Err (DataCloneError "Transfer list contains duplicate values")).
Proof. vm_compute. reflexivity. Qed.

(** A DataView has no [slice]: it cannot be cloned. *)
Theorem data_view_not_cloned bytes : clone_all (Ref 0) None [View DataViewClass bytes] = Some (Err Thrown).
Proof. reflexivity. Qed.

(** An own property __proto__ of an object is not in the clone, which has
    another prototype. *)
Theorem own_proto_key_lost :
  let source := [Plain false [(str "__proto__", Ref 1); (str "x", Prim 5)]; Plain false []] in
  clone_all (Ref 0) None source = Some (Ok (Ref 2, source ++ [Altered false [(str "x", Prim 5)]; Plain false []])).
Proof. vm_compute. reflexivity. Qed.
