(* ===== verification/ReadableStream.v ===== *)
(** * Readable streams of src/modules/llrt_stream_web/src/readable

    One readable stream with its default controller and the default readers
    that were acquired for it: stream/mod.rs, default_controller.rs,
    default_reader.rs, reader.rs, objects.rs and the queue of utils/queue.rs.
    [None] is a panic (an [expect] that fails).

    Promises are indices of a store; [ResolveablePromise] is an index with a
    flag that says whether it has its resolving functions.  [upon_promise]
    records a reaction, and a job runs a reaction whose promise is settled.
    The source's [pull] runs calls of the stream before it returns: they are a
    function of the log ([source]), and run while the operation that pulls is
    not finished, as in the code, which gives up its borrows for the call.  The
    promise that [pull] or [cancel] returns is settled from outside.  The
    result of the size function is an argument of [enqueue].  Byte streams,
    transfer lists of owning streams and the native pull of a fetch response
    are not modelled.  The log of accepted chunks, reads and calls of the
    source is kept for the specification. *)
From Stdlib Require Import ZArith Lia SpecFloat.
From stdpp Require Import base list numbers strings.
From S2P Require Import Prelude F64.

(** ** Values and promises *)

Inductive value : Type :=
| Undefined
| Val (n : Z)
| TypeError (msg : list Z)
| RangeError (msg : list Z).

#[export] Instance value_eq_dec : EqDecision value.
Proof. solve_decision. Defined.

(** [ReadableStreamReadResult], or undefined. *)
Inductive read_result : Type := RUndefined | RChunk (chunk : value) | RDone.

#[export] Instance read_result_eq_dec : EqDecision read_result.
Proof. solve_decision. Defined.

Inductive promise_state : Type := Pending | Fulfilled (r : read_result) | Rejected (reason : value).

#[export] Instance promise_state_eq_dec : EqDecision promise_state.
Proof. solve_decision. Defined.

(** What a promise was made for: a read, a call of the source, or anything else. *)
Inductive promise_kind : Type := ForRead | ForSource | ForOther.

#[export] Instance promise_kind_eq_dec : EqDecision promise_kind.
Proof. solve_decision. Defined.

Record resolveable := mkRp { promise : nat; settles : bool }.

(** ** The stream, its controller and its readers *)

Inductive stream_state : Type := Readable | Closed | Errored (stored_error : value).

Record stream := mkStream {
  disturbed : bool;
  state : stream_state;
  reader : option nat;
}.

(** [algorithms] says whether the three algorithms are set; they are set and
    cleared together. *)
Record controller := mkController {
  close_requested : bool;
  pull_again : bool;
  algorithms : bool;
  pulling : bool;
  queue : list (value * f64);
  queue_total_size : f64;
  started : bool;
  strategy_hwm : f64;
}.

Record default_reader := mkReader {
  closed_promise : resolveable;
  (** [reader.generic.stream.is_some()] *)
  attached : bool;
  (** the promises of the read requests *)
  read_requests : list nat;
}.

(** The callbacks given to [upon_promise]; [OnCancel] settles the promise
    that [cancel] returned. *)
Inductive reaction : Type := OnStart | OnPull | OnCancel (p : nat).

#[export] Instance reaction_eq_dec : EqDecision reaction.
Proof. solve_decision. Defined.

Inductive event : Type :=
| Accepted (chunk : value)
| ReadCall (p : nat)
| SourcePull
| SourceCancel (reason : value)
| Drained (chunks : list value).

#[export] Instance event_eq_dec : EqDecision event.
Proof. solve_decision. Defined.

Record st := mkSt {
  promises : list (promise_kind * promise_state);
  reactions : list (nat * reaction);
  readers : list default_reader;
  strm : stream;
  ctrl : controller;
  log : list event;
}.

(** *** Assignments *)
Definition set_promises (v : list (promise_kind * promise_state)) (s : st) : st :=
  mkSt v (reactions s) (readers s) (strm s) (ctrl s) (log s).

Definition set_reactions (v : list (nat * reaction)) (s : st) : st :=
  mkSt (promises s) v (readers s) (strm s) (ctrl s) (log s).

Definition set_readers (v : list default_reader) (s : st) : st :=
  mkSt (promises s) (reactions s) v (strm s) (ctrl s) (log s).

Definition set_strm (v : stream) (s : st) : st :=
  mkSt (promises s) (reactions s) (readers s) v (ctrl s) (log s).

Definition set_ctrl (v : controller) (s : st) : st :=
  mkSt (promises s) (reactions s) (readers s) (strm s) v (log s).

Definition push_log (e : event) (s : st) : st :=
  mkSt (promises s) (reactions s) (readers s) (strm s) (ctrl s) (log s ++ [e]).

Definition set_disturbed (v : bool) (s : st) : st :=
  set_strm (mkStream v (state (strm s)) (reader (strm s))) s.

Definition set_state (v : stream_state) (s : st) : st :=
  set_strm (mkStream (disturbed (strm s)) v (reader (strm s))) s.

Definition set_reader (v : option nat) (s : st) : st :=
  set_strm (mkStream (disturbed (strm s)) (state (strm s)) v) s.

Definition set_close_requested (v : bool) (s : st) : st :=
  let c := ctrl s in
  set_ctrl (mkController v (pull_again c) (algorithms c) (pulling c) (queue c) (queue_total_size c) (started c) (strategy_hwm c)) s.

Definition set_pull_again (v : bool) (s : st) : st :=
  let c := ctrl s in
  set_ctrl (mkController (close_requested c) v (algorithms c) (pulling c) (queue c) (queue_total_size c) (started c) (strategy_hwm c)) s.

Definition set_algorithms (v : bool) (s : st) : st :=
  let c := ctrl s in
  set_ctrl (mkController (close_requested c) (pull_again c) v (pulling c) (queue c) (queue_total_size c) (started c) (strategy_hwm c)) s.

Definition set_pulling (v : bool) (s : st) : st :=
  let c := ctrl s in
  set_ctrl (mkController (close_requested c) (pull_again c) (algorithms c) v (queue c) (queue_total_size c) (started c) (strategy_hwm c)) s.

Definition set_queue (v : list (value * f64)) (total : f64) (s : st) : st :=
  let c := ctrl s in
  set_ctrl (mkController (close_requested c) (pull_again c) (algorithms c) (pulling c) v total (started c) (strategy_hwm c)) s.

Definition set_started (v : bool) (s : st) : st :=
  let c := ctrl s in
  set_ctrl (mkController (close_requested c) (pull_again c) (algorithms c) (pulling c) (queue c) (queue_total_size c) v (strategy_hwm c)) s.

(** ** Promise operations *)

Definition new_promise (k : promise_kind) (r : promise_state) (s : st) : nat * st :=
  (length (promises s), set_promises (promises s ++ [(k, r)]) s).

(** The first promise of the store is the promise resolved with undefined. *)
Definition resolved_with_undefined : resolveable := mkRp 0 false.

(** A settled promise stays as it is. *)
Definition settle (p : nat) (r : promise_state) (s : st) : st :=
  match promises s !! p with
  | Some (k, Pending) => set_promises (<[p := (k, r)]> (promises s)) s
  | _ => s
  end.

Definition resolve_undefined (rp : resolveable) (s : st) : st :=
  if settles rp then settle (promise rp) (Fulfilled RUndefined) s else s.

Definition reject (rp : resolveable) (v : value) (s : st) : st :=
  if settles rp then settle (promise rp) (Rejected v) s else s.

Definition upon_promise (p : nat) (r : reaction) (s : st) : st :=
  set_reactions (reactions s ++ [(p, r)]) s.

(** ** The queue *)

Definition is_non_negative_number (size : option f64) : option f64 :=
  let! number := size in
  if is_nan number then None
  else if SFltb number zero then None
  else Some number.

Definition size_error : value :=
  RangeError (str "Size must be a finite, non-NaN, non-negative number.").

Definition enqueue_value_with_size (v : value) (size : option f64) (s : st) : result value st :=
  match is_non_negative_number size with
  | None => Err size_error
  | Some size =>
      if is_infinite size then Err size_error
      else Ok (set_queue (queue (ctrl s) ++ [(v, size)]) (f64_add (queue_total_size (ctrl s)) size) s)
  end.

Definition dequeue_value (s : st) : option (value * st) :=
  match queue (ctrl s) with
  | [] => None
  | (v, size) :: rest =>
      let total := f64_sub (queue_total_size (ctrl s)) size in
      Some (v, set_queue rest (if SFltb total zero then zero else total) s)
  end.

Definition reset_queue (s : st) : st := set_queue [] zero s.

(** ** Read requests *)

Definition chunk_steps (p : nat) (chunk : value) (s : st) : st := settle p (Fulfilled (RChunk chunk)) s.
Definition close_steps (p : nat) (s : st) : st := settle p (Fulfilled RDone) s.
Definition error_steps (p : nat) (e : value) (s : st) : st := settle p (Rejected e) s.

(** The reader that the caller holds. *)
Definition reader_at (r : option nat) (s : st) : option (nat * default_reader) :=
  let! i := r in
  let! rd := readers s !! i in
  Some (i, rd).

Definition set_read_requests (i : nat) (rd : default_reader) (ps : list nat) (s : st) : st :=
  set_readers (<[i := mkReader (closed_promise rd) (attached rd) ps]> (readers s)) s.

Definition num_read_requests (r : option nat) (s : st) : nat :=
  match reader_at r s with
  | Some (_, rd) => length (read_requests rd)
  | None => 0
  end.

Definition add_read_request (i p : nat) (s : st) : st :=
  match readers s !! i with
  | Some rd => set_read_requests i rd (read_requests rd ++ [p]) s
  | None => s
  end.

(** [None] when there is no request. *)
Definition fulfill_read_request (r : option nat) (chunk : value) (done : bool) (s : st) : option st :=
  let! (i, rd) := reader_at r s in
  match read_requests rd with
  | [] => None
  | p :: ps =>
      let s := set_read_requests i rd ps s in
      Some (if done then close_steps p s else chunk_steps p chunk s)
  end.

Definition error_read_requests (i : nat) (rd : default_reader) (e : value) (s : st) : st :=
  foldl (fun s p => error_steps p e s) (set_read_requests i rd [] s) (read_requests rd).

(** ** The stream *)

Definition is_readable_stream_locked (s : st) : bool :=
  match reader (strm s) with Some _ => true | None => false end.

Definition readable_stream_error (r : option nat) (e : value) (s : st) : st :=
  let s := set_state (Errored e) s in
  match reader_at r s with
  | None => s
  | Some (i, rd) => error_read_requests i rd e (reject (closed_promise rd) e s)
  end.

Definition readable_stream_close (r : option nat) (s : st) : st :=
  let s := set_state Closed s in
  match reader_at r s with
  | None => s
  | Some (i, rd) =>
      let s := resolve_undefined (closed_promise rd) s in
      foldl (fun s p => close_steps p s) (set_read_requests i rd [] s) (read_requests rd)
  end.

(** ** The controller *)

Definition clear_algorithms (s : st) : st := set_algorithms false s.

Definition can_close_or_enqueue (s : st) : bool :=
  match state (strm s) with
  | Readable => negb (close_requested (ctrl s))
  | _ => false
  end.

Definition get_desired_size (s : st) : option f64 :=
  match state (strm s) with
  | Errored _ => None
  | Closed => Some zero
  | Readable => Some (f64_sub (strategy_hwm (ctrl s)) (queue_total_size (ctrl s)))
  end.

Definition controller_error (r : option nat) (e : value) (s : st) : st :=
  match state (strm s) with
  | Readable => readable_stream_error r e (clear_algorithms (reset_queue s))
  | _ => s
  end.

Definition controller_close (r : option nat) (s : st) : st :=
  if negb (can_close_or_enqueue s) then s
  else
    let s := set_close_requested true s in
    match queue (ctrl s) with
    | [] => readable_stream_close r (clear_algorithms s)
    | _ => s
    end.

(** [None] is the panic of a desired size that is null. *)
Definition should_call_pull (r : option nat) (s : st) : option bool :=
  if negb (can_close_or_enqueue s) then Some false
  else if negb (started (ctrl s)) then Some false
  else if (0 <? num_read_requests r s)%nat then Some true
  else let! desired_size := get_desired_size s in Some (SFltb zero desired_size).

(** ** The calls of the user and of the source *)

Inductive call : Type :=
| CEnqueue (chunk : value) (size : result value (option f64))
| CClose
| CError (e : value)
| CGetReader
| CRead (i : nat)
| CReleaseLock (i : nat)
| CCancel (reason : value)
| CReaderCancel (i : nat) (reason : value)
| CDrain.

Section Source.
(** What the source's [pull] calls, by the log so far. *)
Variable source : list event -> list call.

Section Run.
(** How a call made by [pull] runs. *)
Variable run : call -> st -> option st.

Fixpoint run_all (cs : list call) (s : st) : option st :=
  match cs with
  | [] => Some s
  | c :: cs => let! s := run c s in run_all cs s
  end.

Definition pull_algorithm (s : st) : option (nat * st) :=
  if algorithms (ctrl s) then
    let s := push_log SourcePull s in
    let! s := run_all (source (log s)) s in
    Some (new_promise ForSource Pending s)
  else None.

Definition call_pull_if_needed (r : option nat) (s : st) : option st :=
  let! should_pull := should_call_pull r s in
  if negb should_pull then Some s
  else if pulling (ctrl s) then Some (set_pull_again true s)
  else
    let! (p, s) := pull_algorithm (set_pulling true s) in
    Some (upon_promise p OnPull s).

Definition controller_enqueue (r : option nat) (chunk : value) (size : result value (option f64)) (s : st)
    : option (result value unit * st) :=
  if negb (can_close_or_enqueue s) then Some (Ok tt, s)
  else if (0 <? num_read_requests r s)%nat then
    let! s := fulfill_read_request r chunk false (push_log (Accepted chunk) s) in
    let! s := call_pull_if_needed r s in
    Some (Ok tt, s)
  else if negb (algorithms (ctrl s)) then None
  else
    match size with
    | Err e => Some (Err e, controller_error r e s)
    | Ok chunk_size =>
        match enqueue_value_with_size chunk chunk_size s with
        | Err e => Some (Err e, controller_error r e s)
        | Ok s =>
            let! s := call_pull_if_needed r (push_log (Accepted chunk) s) in
            Some (Ok tt, s)
        end
    end.

(** The read request is given by its promise. *)
Definition pull_steps (i p : nat) (s : st) : option st :=
  match queue (ctrl s) with
  | [] => call_pull_if_needed (Some i) (add_read_request i p s)
  | _ =>
      let! (chunk, s) := dequeue_value s in
      let! s :=
        if close_requested (ctrl s) && match queue (ctrl s) with [] => true | _ => false end
        then Some (readable_stream_close (Some i) (clear_algorithms s))
        else call_pull_if_needed (Some i) s in
      Some (chunk_steps p chunk s)
  end.

Definition cancel_steps (reason : value) (s : st) : option (nat * st) :=
  let s := reset_queue s in
  if algorithms (ctrl s) then
    let '(p, s) := new_promise ForSource Pending (push_log (SourceCancel reason) s) in
    Some (p, clear_algorithms s)
  else None.

Definition readable_stream_cancel (r : option nat) (reason : value) (s : st) : option (nat * st) :=
  let s := set_disturbed true s in
  match state (strm s) with
  | Closed => Some (new_promise ForOther (Fulfilled RUndefined) s)
  | Errored e => Some (new_promise ForOther (Rejected e) s)
  | Readable =>
      let s := readable_stream_close r s in
      let! (source_cancel_promise, s) := cancel_steps reason s in
      let '(p, s) := new_promise ForOther Pending s in
      Some (p, upon_promise source_cancel_promise (OnCancel p) s)
  end.

(** *** ReadableStreamDefaultController *)

Definition close (s : st) : result value unit * st :=
  if negb (can_close_or_enqueue s) then
    (Err (TypeError (str "The stream is not in a state that permits close")), s)
  else (Ok tt, controller_close (reader (strm s)) s).

Definition enqueue (chunk : value) (size : result value (option f64)) (s : st)
    : option (result value unit * st) :=
  if negb (can_close_or_enqueue s) then
    Some (Err (TypeError (str "The stream is not in a state that permits enqueue")), s)
  else controller_enqueue (reader (strm s)) chunk size s.

Definition error (e : value) (s : st) : st := controller_error (reader (strm s)) e s.

(** *** ReadableStream *)

Definition locked (s : st) : bool := is_readable_stream_locked s.

Definition cancel (reason : value) (s : st) : option (nat * st) :=
  if is_readable_stream_locked s then
    Some (new_promise ForOther (Rejected (TypeError (str "Cannot cancel a stream that already has a reader"))) s)
  else readable_stream_cancel (reader (strm s)) reason s.

Definition generic_initialize (s : st) : resolveable * st :=
  match state (strm s) with
  | Readable => let '(p, s) := new_promise ForOther Pending s in (mkRp p true, s)
  | Closed => (resolved_with_undefined, s)
  | Errored e => let '(p, s) := new_promise ForOther (Rejected e) s in (mkRp p false, s)
  end.

Definition set_up_reader (s : st) : result value (nat * st) :=
  if is_readable_stream_locked s then
    Err (TypeError (str "This stream has already been locked for exclusive reading by another reader"))
  else
    let '(rp, s) := generic_initialize s in
    let i := length (readers s) in
    Ok (i, set_reader (Some i) (set_readers (readers s ++ [mkReader rp true []]) s)).

Definition get_reader (s : st) : result value (nat * st) := set_up_reader s.

(** [dequeue_value] until the queue is empty. *)
Fixpoint drain_queue (q : list (value * f64)) (s : st) : st :=
  match q with
  | [] => s
  | _ :: q => match dequeue_value s with Some (_, s) => drain_queue q s | None => s end
  end.

(** The chunks of a stream that was closed before anything was read. *)
Definition try_sync_drain_closed_stream (s : st) : option (list value) * st :=
  if disturbed (strm s) || is_readable_stream_locked s then (None, s)
  else
    match state (strm s) with
    | Readable =>
        if negb (close_requested (ctrl s)) then (None, s)
        else
          let chunks := (queue (ctrl s)).*1 in
          let s := push_log (Drained chunks) (drain_queue (queue (ctrl s)) s) in
          (Some chunks, set_state Closed (set_disturbed true s))
    | _ => (None, s)
    end.

(** *** ReadableStreamDefaultReader *)

Definition attached_reader (i : nat) (s : st) : bool :=
  match readers s !! i with Some rd => attached rd | None => false end.

Definition default_reader_read (i p : nat) (s : st) : option st :=
  let s := set_disturbed true s in
  match state (strm s) with
  | Closed => Some (close_steps p s)
  | Errored e => Some (error_steps p e s)
  | Readable => pull_steps i p s
  end.

Definition read (i : nat) (s : st) : option (nat * st) :=
  if negb (attached_reader i s) then
    Some (new_promise ForOther (Rejected (TypeError (str "Cannot read from a stream using a released reader"))) s)
  else
    let '(p, s) := new_promise ForRead Pending s in
    let! s := default_reader_read i p (push_log (ReadCall p) s) in
    Some (p, s).

Definition released_error : value :=
  TypeError (str "Reader was released and can no longer be used to monitor the stream's closedness").

Definition generic_release (i : nat) (rd : default_reader) (s : st) : st :=
  let '(closed, s) :=
    match state (strm s) with
    | Readable => (closed_promise rd, reject (closed_promise rd) released_error s)
    | _ => let '(p, s) := new_promise ForOther (Rejected released_error) s in (mkRp p false, s)
    end in
  let s := set_reader None s in
  set_readers (<[i := mkReader closed false (read_requests rd)]> (readers s)) s.

Definition reader_release (i : nat) (rd : default_reader) (s : st) : st :=
  let s := generic_release i rd s in
  match readers s !! i with
  | Some rd => error_read_requests i rd (TypeError (str "Reader was released")) s
  | None => s
  end.

Definition release_lock (i : nat) (s : st) : st :=
  match readers s !! i with
  | Some rd => if attached rd then reader_release i rd s else s
  | None => s
  end.

Definition reader_cancel (i : nat) (reason : value) (s : st) : option (nat * st) :=
  if negb (attached_reader i s) then
    Some (new_promise ForOther (Rejected (TypeError (str "Cannot cancel a stream using a released reader"))) s)
  else readable_stream_cancel (Some i) reason s.

(** The state after a call; what it returns or throws goes to the caller. *)
Definition run_call (c : call) (s : st) : option st :=
  match c with
  | CEnqueue chunk size => let! (_, s) := enqueue chunk size s in Some s
  | CClose => Some (close s).2
  | CError e => Some (error e s)
  | CGetReader => match get_reader s with Ok (_, s) => Some s | Err _ => Some s end
  | CRead i => let! (_, s) := read i s in Some s
  | CReleaseLock i => Some (release_lock i s)
  | CCancel reason => let! (_, s) := cancel reason s in Some s
  | CReaderCancel i reason => let! (_, s) := reader_cancel i reason s in Some s
  | CDrain => Some (try_sync_drain_closed_stream s).2
  end.
End Run.

(** A call made by [pull]; it does not pull, since the stream is pulling. *)
Definition inner_call : call -> st -> option st := run_call (fun _ _ => None).

Definition outer_call : call -> st -> option st := run_call inner_call.

(** ** Jobs *)

(** The callbacks; [None] is fulfillment, [Some reason] rejection. *)
Definition on_start (rejection : option value) (s : st) : option st :=
  let r := reader (strm s) in
  match rejection with
  | None => call_pull_if_needed inner_call r (set_started true s)
  | Some e => Some (controller_error r e s)
  end.

Definition on_pull (rejection : option value) (s : st) : option st :=
  let r := reader (strm s) in
  match rejection with
  | None =>
      let s := set_pulling false s in
      if pull_again (ctrl s) then call_pull_if_needed inner_call r (set_pull_again false s) else Some s
  | Some e => Some (controller_error r e s)
  end.

(** The promise of [cancel] follows that of the source. *)
Definition on_cancel (p : nat) (rejection : option value) (s : st) : option st :=
  Some (settle p (match rejection with None => Fulfilled RUndefined | Some e => Rejected e end) s).

Definition react (r : reaction) (rejection : option value) (s : st) : option st :=
  match r with
  | OnStart => on_start rejection s
  | OnPull => on_pull rejection s
  | OnCancel p => on_cancel p rejection s
  end.

(** Run the reaction at an index if its promise is settled. *)
Definition run_job (i : nat) (s : st) : option st :=
  match reactions s !! i with
  | None => Some s
  | Some (p, r) =>
      let s' := set_reactions (delete i (reactions s)) s in
      match promises s !! p with
      | Some (_, Fulfilled _) => react r None s'
      | Some (_, Rejected reason) => react r (Some reason) s'
      | _ => Some s
      end
  end.

(** The source settles a promise it returned. *)
Definition settle_source (p : nat) (rejection : option value) (s : st) : st :=
  match promises s !! p with
  | Some (ForSource, _) => settle p (match rejection with None => Fulfilled RUndefined | Some r => Rejected r end) s
  | _ => s
  end.

(** ** Construction *)

(** SetUpReadableStreamDefaultController; the calls that [start] makes are the
    first steps, and the promise it returns is the second of the store. *)
Definition set_up_controller (high_water_mark : f64) : st :=
  let s := mkSt [(ForOther, Fulfilled RUndefined)] [] [] (mkStream false Readable None)
    (mkController false false true false [] zero false high_water_mark) [] in
  let '(p, s) := new_promise ForSource Pending s in
  upon_promise p OnStart s.

(** What happens to a stream. *)
Inductive action : Type :=
| ACall (c : call)
| ASettle (p : nat) (rejection : option value)
| AJob (i : nat).

Definition act (a : action) (s : st) : option st :=
  match a with
  | ACall c => outer_call c s
  | ASettle p rejection => Some (settle_source p rejection s)
  | AJob i => run_job i s
  end.
End Source.
