(* ===== verification/ReadableInvariant.v ===== *)
(** * What holds of every readable stream

    The invariant of a readable stream that is reached by any sequence of
    calls, settlements and jobs, where the source's [pull] makes calls of its
    own: reads are answered in order, with the chunks in the order in which
    they were accepted, and nothing panics. *)
From Stdlib Require Import ZArith Lia SpecFloat.
From stdpp Require Import base list numbers strings sets.
From S2P Require Import Prelude F64 ReadableStream.

(** ** The specification's view of the log *)

Definition reads (l : list event) : list nat :=
  omap (fun e => match e with ReadCall p => Some p | _ => None end) l.

Definition accepted (l : list event) : list value :=
  omap (fun e => match e with Accepted c => Some c | _ => None end) l.

Definition drained (l : list event) : list value :=
  l ≫= (fun e => match e with Drained cs => cs | _ => [] end).

Definition cancelled (l : list event) : Prop := exists r, SourceCancel r ∈ l.

(** The chunk a promise is fulfilled with. *)
Definition chunk_of (P : list (promise_kind * promise_state)) (p : nat) : option value :=
  match P !! p with
  | Some (_, Fulfilled (RChunk c)) => Some c
  | _ => None
  end.

(** The chunks that reads gave, in the order of the reads. *)
Definition delivered (s : st) : list value := omap (chunk_of (promises s)) (reads (log s)).

(** The requests that wait in the stream's reader. *)
Definition requests (s : st) : list nat :=
  match reader_at (reader (strm s)) s with
  | Some (_, rd) => read_requests rd
  | None => []
  end.

#[local] Arguments reads : simpl never.
#[local] Arguments accepted : simpl never.
#[local] Arguments drained : simpl never.
#[local] Arguments requests : simpl never.

(** ** The invariant

    [F] are requests that were taken from the reader and are not answered yet;
    [h] gives the chunk that a read has taken from the queue and is not
    fulfilled with yet, since the source is pulled first; [lost] are the chunks
    that an error or a cancellation discarded. *)

Definition kind_at (s : st) (p : nat) : option promise_kind := fst <$> promises s !! p.

Definition answer (h : nat -> option value) (s : st) (p : nat) : option value :=
  match h p with Some c => Some c | None => chunk_of (promises s) p end.

Definition waits (h : nat -> option value) (s : st) (p : nat) : Prop :=
  promises s !! p = Some (ForRead, Pending) ∧ h p = None.

(** A reader is attached when it is the stream's. *)
Record readers_ok (s : st) : Prop := ReadersOk {
  r_att : forall i rd, readers s !! i = Some rd -> attached rd = true -> reader (strm s) = Some i;
  r_cur : forall i, reader (strm s) = Some i -> exists rd, readers s !! i = Some rd ∧ attached rd = true;
  r_old : forall i rd, readers s !! i = Some rd -> attached rd = false -> read_requests rd = [];
  r_closedp : forall i rd, readers s !! i = Some rd -> kind_at s (promise (closed_promise rd)) = Some ForOther;
}.

Record inv (F : list nat) (h : nat -> option value) (lost : list value) (s : st) : Prop := Inv {
  i_readers : readers_ok s;
  i_cancelp : forall x p, (x, OnCancel p) ∈ reactions s -> kind_at s p = Some ForOther;
  i_first : kind_at s 0 = Some ForOther;
  i_nodup : NoDup (reads (log s));
  i_kind : forall p, p ∈ reads (log s) -> kind_at s p = Some ForRead;
  i_hole : forall p c, h p = Some c -> promises s !! p = Some (ForRead, Pending);
  i_wait : forall p, p ∈ reads (log s) -> waits h s p <-> p ∈ F ++ requests s;
  i_order : exists A, reads (log s) = A ++ F ++ requests s;
  i_fifo : omap (answer h s) (reads (log s)) ++ drained (log s) ++ (queue (ctrl s)).*1 ++ lost = accepted (log s);
}.

Record ok (lost : list value) (s : st) : Prop := Ok_ {
  o_requests : state (strm s) <> Readable -> requests s = [];
  o_queue : requests s <> [] -> queue (ctrl s) = [];
  o_algorithms : state (strm s) = Readable -> algorithms (ctrl s) = true;
  o_closing : state (strm s) = Readable -> close_requested (ctrl s) = true -> queue (ctrl s) <> [];
  o_log : state (strm s) = Readable -> drained (log s) = [] ∧ ~ cancelled (log s);
  o_lost : lost <> [] -> cancelled (log s) ∨ exists e, state (strm s) = Errored e;
}.

(** The calls of [pull] whose promise was not handled. *)
Definition pulls (s : st) : nat :=
  length (filter (fun r => r.2 = OnPull) (reactions s)).

#[local] Arguments pulls : simpl never.

Definition one_pull (s : st) : Prop := pulls s <= if pulling (ctrl s) then 1 else 0.

Definition full (h : nat -> option value) (s : st) : Prop :=
  (exists lost, inv [] h lost s ∧ ok lost s) ∧ one_pull s.

(** ** Promises *)

Lemma omap_ext_in {A B} (f g : A -> option B) (l : list A) : (forall x, x ∈ l -> f x = g x) -> omap f l = omap g l.
Proof.
  induction l as [|x l IH]; intros Hf; [done|]. cbn.
  rewrite (Hf x) by apply list_elem_of_here. rewrite IH; [done|]. intros y Hy. apply Hf, list_elem_of_further, Hy.
Qed.

Lemma kind_settle p r q s : kind_at (settle p r s) q = kind_at s q.
Proof.
  unfold settle. destruct (promises s !! p) as [[k []]|] eqn:Hp; try done.
  unfold kind_at. cbn. destruct (decide (p = q)) as [->|Hn].
  - rewrite list_lookup_insert_eq, Hp by (apply lookup_lt_Some in Hp; done). done.
  - rewrite list_lookup_insert_ne by done. done.
Qed.

(** A change that keeps every part of the state that the invariant reads. *)
Definition same_view (s s' : st) : Prop :=
  readers s' = readers s ∧ reader (strm s') = reader (strm s) ∧ log s' = log s ∧
  queue (ctrl s') = queue (ctrl s) ∧ promises s' = promises s ∧
  (forall x p, (x, OnCancel p) ∈ reactions s' -> (x, OnCancel p) ∈ reactions s).

Lemma requests_ext s s' : readers s' = readers s -> reader (strm s') = reader (strm s) -> requests s' = requests s.
Proof. intros Hr Hs. unfold requests, reader_at. rewrite Hr, Hs. done. Qed.

Lemma readers_ok_ext s s' :
  readers s' = readers s -> reader (strm s') = reader (strm s) ->
  (forall p, kind_at s p = Some ForOther -> kind_at s' p = Some ForOther) -> readers_ok s -> readers_ok s'.
Proof. intros Hr Hs Hk []. split; rewrite ?Hr, ?Hs; eauto. Qed.

Lemma inv_view F h lost s s' : same_view s s' -> inv F h lost s -> inv F h lost s'.
Proof.
  intros (Hr & Hs & Hl & Hq & Hp & Hx) [].
  assert (Hk : forall p, kind_at s' p = kind_at s p) by (intros; unfold kind_at; rewrite Hp; done).
  assert (Hw : forall p, waits h s' p <-> waits h s p) by (intros; unfold waits; rewrite Hp; done).
  assert (Ha : answer h s' = answer h s) by (unfold answer; rewrite Hp; done).
  pose proof (requests_ext s s' Hr Hs) as Hreq.
  split; rewrite ?Hr, ?Hs, ?Hl, ?Hq, ?Hp, ?Hreq, ?Ha, ?Hk; try done.
  - eapply readers_ok_ext; try done. intros. rewrite Hk. done.
  - intros. rewrite Hk. eauto.
  - intros. rewrite Hk. eauto.
  - intros p Hin. rewrite Hw. eauto.
Qed.

Lemma settle_eq p r s :
  settle p r s = match promises s !! p with
                 | Some (k, Pending) => set_promises (<[p := (k, r)]> (promises s)) s
                 | _ => s
                 end.
Proof. done. Qed.

Lemma settle_ne p r q s : p <> q -> promises (settle p r s) !! q = promises s !! q.
Proof.
  intros Hn. unfold settle. destruct (promises s !! p) as [[k []]|]; try done. cbn.
  apply list_lookup_insert_ne. done.
Qed.

Lemma settle_rest p r s :
  readers (settle p r s) = readers s ∧ strm (settle p r s) = strm s ∧ ctrl (settle p r s) = ctrl s ∧
  log (settle p r s) = log s ∧ reactions (settle p r s) = reactions s.
Proof. unfold settle. destruct (promises s !! p) as [[k []]|]; done. Qed.

(** A change of promises that are not reads. *)
Lemma inv_promises F h lost P s :
  inv F h lost s ->
  (forall p, p ∈ reads (log s) -> P !! p = promises s !! p) ->
  (forall p c, h p = Some c -> P !! p = promises s !! p) ->
  (forall p k, kind_at s p = Some k -> k <> ForRead -> kind_at (set_promises P s) p = Some k) ->
  inv F h lost (set_promises P s).
Proof.
  intros [] Hr Hh Hk.
  split; cbn; try done.
  - eapply readers_ok_ext; [..|done]; try done. intros. apply Hk; done.
  - intros. apply Hk; [eauto|done].
  - apply Hk; done.
  - intros p Hp. specialize (i_kind0 p Hp). unfold kind_at in *. cbn. rewrite Hr by done. done.
  - intros p c Hp. rewrite (Hh _ _ Hp). eauto.
  - intros p Hp. unfold waits. cbn. rewrite Hr by done. exact (i_wait0 p Hp).
  - rewrite <- i_fifo0. f_equal. apply omap_ext_in. intros p Hp. unfold answer, chunk_of. cbn. rewrite Hr by done. done.
Qed.

(** *** Settling *)

Lemma inv_settle_other F h lost p r s k :
  inv F h lost s -> kind_at s p = Some k -> k <> ForRead -> inv F h lost (settle p r s).
Proof.
  intros HI Hp Hk. rewrite settle_eq. destruct (promises s !! p) as [[k' []]|] eqn:Hl; try done.
  assert (Hkk : k' = k) by (unfold kind_at in Hp; rewrite Hl in Hp; cbn in Hp; congruence). subst k'.
  assert (Hne : forall q, kind_at s q = Some ForRead -> p <> q) by (intros q Hq ->; congruence).
  apply inv_promises; [done|..].
  - intros q Hq. apply list_lookup_insert_ne, Hne. eapply i_kind; done.
  - intros q c Hq. apply list_lookup_insert_ne, Hne. unfold kind_at. rewrite (i_hole _ _ _ _ HI q c Hq). done.
  - intros q k' Hq Hk'. pose proof (kind_settle p r q s) as Hks. rewrite settle_eq, Hl in Hks. congruence.
Qed.

Lemma inv_new F h lost k r s :
  inv F h lost s -> inv F h lost (set_promises (promises s ++ [(k, r)]) s).
Proof.
  intros HI. assert (Hl : forall q k', kind_at s q = Some k' -> (promises s ++ [(k, r)]) !! q = promises s !! q).
  { intros q k' Hq. apply lookup_app_l. unfold kind_at in Hq. destruct (promises s !! q) eqn:Hs; [|done].
    apply lookup_lt_Some in Hs. done. }
  apply inv_promises; [done|..].
  - intros q Hq. eapply Hl, i_kind; done.
  - intros q c Hq. eapply Hl. unfold kind_at. rewrite (i_hole _ _ _ _ HI q c Hq). done.
  - intros q k' Hq _. unfold kind_at. cbn. rewrite (Hl _ _ Hq). exact Hq.
Qed.

Lemma omap_snoc_at {A B} (f g : A -> option B) (l1 : list A) x l2 c :
  x ∉ l1 ++ l2 -> (forall y, y ∈ l1 ++ l2 -> g y = f y) -> (forall y, y ∈ l2 -> f y = None) ->
  f x = None -> g x = Some c -> omap g (l1 ++ x :: l2) = omap f (l1 ++ x :: l2) ++ [c].
Proof.
  intros Hx Hg Hf Hfx Hgx. rewrite !omap_app. cbn. rewrite Hfx, Hgx.
  assert (Hnil : omap f l2 = []).
  { clear - Hf. induction l2 as [|y l2 IH]; [done|]. cbn. rewrite Hf by apply list_elem_of_here.
    apply IH. intros z Hz. apply Hf, list_elem_of_further, Hz. }
  rewrite (omap_ext_in g f l1), (omap_ext_in g f l2), Hnil, app_nil_r; [done|..];
    intros y Hy; apply Hg, elem_of_app; tauto.
Qed.

(** A request that floats is answered without a chunk. *)
Lemma inv_settle_float F h lost p r s :
  inv (p :: F) h lost s -> r <> Pending -> (forall c, r <> Fulfilled (RChunk c)) -> inv F h lost (settle p r s).
Proof.
  intros HI Hr Hc. destruct (i_order _ _ _ _ HI) as [A HA].
  assert (Hin : p ∈ reads (log s)) by (rewrite HA; set_solver).
  destruct (proj2 (i_wait _ _ _ _ HI p Hin)) as [Hp Hh]; [set_solver|].
  assert (Hnd : p ∉ F ++ requests s).
  { pose proof (i_nodup _ _ _ _ HI) as Hnd. rewrite HA in Hnd. apply NoDup_app in Hnd as (_ & _ & Hnd).
    inversion Hnd. done. }
  destruct (settle_rest p r s) as (Hrd & Hst & Hct & Hlg & Hre).
  assert (Hreq : requests (settle p r s) = requests s) by (apply requests_ext; congruence).
  pose proof (i_hole _ _ _ _ HI) as Hhole.
  destruct HI. split; rewrite ?Hrd, ?Hst, ?Hct, ?Hlg, ?Hre, ?Hreq, ?kind_settle; try done.
  - eapply readers_ok_ext; [..|done]; try congruence. intros. rewrite kind_settle. done.
  - intros. rewrite kind_settle. eauto.
  - intros. rewrite kind_settle. eauto.
  - intros q c Hq. rewrite settle_ne by congruence. eauto.
  - intros q Hq. destruct (decide (p = q)) as [<-|Hne].
    + split; [|done]. intros [Hs _]. exfalso. revert Hs. rewrite settle_eq, Hp. cbn.
      rewrite list_lookup_insert_eq by (apply lookup_lt_Some in Hp; done). congruence.
    + unfold waits. rewrite settle_ne by done. rewrite (i_wait0 q Hq). set_solver.
  - exists (A ++ [p]). rewrite HA, <- app_assoc. done.
  - rewrite <- i_fifo0. f_equal. apply omap_ext_in. intros q Hq. unfold answer. destruct (h q); [done|].
    unfold chunk_of. destruct (decide (p = q)) as [<-|Hne]; [|rewrite settle_ne by done; done].
    rewrite settle_eq, Hp. cbn. rewrite list_lookup_insert_eq by (apply lookup_lt_Some in Hp; done).
    destruct r as [|[]|]; naive_solver.
Qed.

Lemma inv_settle_all r ps h lost s :
  r <> Pending -> (forall c, r <> Fulfilled (RChunk c)) ->
  inv ps h lost s -> inv [] h lost (foldl (fun s p => settle p r s) s ps).
Proof.
  intros Hr Hc. revert s. induction ps as [|p ps IH]; intros s HI; [done|]. cbn.
  apply IH, inv_settle_float; done.
Qed.

Lemma settle_all_rest r ps s :
  let s' := foldl (fun s p => settle p r s) s ps in
  readers s' = readers s ∧ strm s' = strm s ∧ ctrl s' = ctrl s ∧ log s' = log s ∧ reactions s' = reactions s.
Proof.
  revert s. induction ps as [|p ps IH]; intros s; [done|]. cbn.
  destruct (settle_rest p r s) as (H1 & H2 & H3 & H4 & H5). specialize (IH (settle p r s)). cbn in IH.
  rewrite H1, H2, H3, H4, H5 in IH. exact IH.
Qed.

(** A read that took a chunk is fulfilled with it. *)
Lemma inv_chunk_steps F h h' lost p c s :
  inv F h' lost s -> h' p = Some c -> h p = None -> (forall q, q <> p -> h' q = h q) -> inv F h lost (chunk_steps p c s).
Proof.
  intros HI Hp Hh Hq. pose proof (i_hole _ _ _ _ HI p c Hp) as Hpp. unfold chunk_steps.
  destruct (settle_rest p (Fulfilled (RChunk c)) s) as (Hrd & Hst & Hct & Hlg & Hre).
  assert (Hreq : requests (settle p (Fulfilled (RChunk c)) s) = requests s) by (apply requests_ext; congruence).
  assert (Hset : promises (settle p (Fulfilled (RChunk c)) s) !! p = Some (ForRead, Fulfilled (RChunk c))).
  { rewrite settle_eq, Hpp. cbn. apply list_lookup_insert_eq. apply lookup_lt_Some in Hpp. done. }
  destruct HI. split; rewrite ?Hrd, ?Hst, ?Hct, ?Hlg, ?Hre, ?Hreq, ?kind_settle; try done.
  - eapply readers_ok_ext; [..|done]; try congruence. intros. rewrite kind_settle. done.
  - intros. rewrite kind_settle. eauto.
  - intros. rewrite kind_settle. eauto.
  - intros q c' Hqc. assert (q <> p) by congruence. rewrite settle_ne by done. apply (i_hole0 q c'). rewrite Hq by done. done.
  - intros q Hin. rewrite <- (i_wait0 q Hin). unfold waits. destruct (decide (q = p)) as [->|Hne].
    + rewrite Hset, Hp. split; intros []; done.
    + rewrite settle_ne, (Hq q Hne) by done. done.
  - rewrite <- i_fifo0. f_equal. apply omap_ext_in. intros q Hin. unfold answer, chunk_of.
    destruct (decide (q = p)) as [->|Hne].
    + rewrite Hset, Hh, Hp. done.
    + rewrite (Hq q Hne), settle_ne by done. done.
Qed.

(** *** The requests of the reader *)

Lemma set_requests_readers i rd ps s :
  readers_ok s -> readers s !! i = Some rd -> attached rd = true -> readers_ok (set_read_requests i rd ps s).
Proof.
  intros [] Hi Ha. pose proof (lookup_lt_Some _ _ _ Hi) as Hlt.
  split; cbn; intros j.
  - intros rd' Hj. destruct (decide (i = j)) as [->|Hn]; [eauto|]. rewrite list_lookup_insert_ne in Hj by done. eauto.
  - intros Hj. destruct (decide (i = j)) as [->|Hn].
    + rewrite list_lookup_insert_eq by done. eauto.
    + rewrite list_lookup_insert_ne by done. eauto.
  - intros rd' Hj Ha'. destruct (decide (i = j)) as [->|Hn].
    + rewrite list_lookup_insert_eq in Hj by done. simplify_eq. cbn in Ha'. congruence.
    + rewrite list_lookup_insert_ne in Hj by done. eauto.
  - intros rd' Hj. destruct (decide (i = j)) as [->|Hn].
    + rewrite list_lookup_insert_eq in Hj by done. simplify_eq. exact (r_closedp0 j rd Hi).
    + rewrite list_lookup_insert_ne in Hj by done. exact (r_closedp0 j rd' Hj).
Qed.

Lemma requests_at i rd s : reader (strm s) = Some i -> readers s !! i = Some rd -> requests s = read_requests rd.
Proof. intros Hr Hi. unfold requests, reader_at. rewrite Hr. cbn. rewrite Hi. done. Qed.

Lemma requests_set i rd ps s :
  reader (strm s) = Some i -> readers s !! i = Some rd -> requests (set_read_requests i rd ps s) = ps.
Proof.
  intros Hr Hi. erewrite requests_at; [..|done|]; cbn; [|apply list_lookup_insert_eq; apply lookup_lt_Some in Hi; done]. done.
Qed.

(** Requests leave the reader. *)
Lemma inv_take i rd F ps h lost s :
  inv [] h lost s -> reader (strm s) = Some i -> readers s !! i = Some rd -> attached rd = true ->
  read_requests rd = F ++ ps -> inv F h lost (set_read_requests i rd ps s).
Proof.
  intros HI Hr Hi Ha Hps. pose proof (requests_at _ _ _ Hr Hi) as Hreq.
  pose proof (requests_set i rd ps s Hr Hi) as Hreq'.
  destruct HI. split; cbn; try done.
  - apply set_requests_readers; done.
  - intros p Hp. rewrite Hreq', <- Hps, <- Hreq. apply i_wait0. done.
  - destruct i_order0 as [A HA]. exists A. rewrite Hreq', <- Hps, <- Hreq. exact HA.
Qed.

(** *** Chunks *)

Definition hole (p : nat) (c : value) (h : nat -> option value) (q : nat) : option value :=
  if decide (q = p) then Some c else h q.

Lemma hole_eq p c h : hole p c h p = Some c.
Proof. unfold hole. rewrite decide_True by done. done. Qed.

Lemma hole_ne p c h q : q <> p -> hole p c h q = h q.
Proof. intros. unfold hole. rewrite decide_False by done. done. Qed.

(** A floating request takes a chunk: the answers grow by it. *)
Lemma answer_hole p c h lost s :
  inv [p] h lost s ->
  omap (answer (hole p c h) s) (reads (log s)) = omap (answer h s) (reads (log s)) ++ [c].
Proof.
  intros HI. destruct (i_order _ _ _ _ HI) as [A HA]. rewrite HA.
  pose proof (i_nodup _ _ _ _ HI) as Hnd. rewrite HA in Hnd. cbn in Hnd.
  assert (Hw : forall q, q ∈ p :: requests s -> answer h s q = None).
  { intros q Hq. assert (Hin : q ∈ reads (log s)) by (rewrite HA; set_solver).
    destruct (proj2 (i_wait _ _ _ _ HI q Hin) Hq) as [Hp Hh]. unfold answer, chunk_of. rewrite Hh, Hp. done. }
  cbn [app]. apply omap_snoc_at.
  - apply NoDup_app in Hnd as (_ & Hd & Hnd). apply NoDup_cons in Hnd as [Hn _].
    intros Hin. apply elem_of_app in Hin as [Hin|Hin]; [|done]. apply (Hd p Hin). set_solver.
  - intros q Hq. unfold answer. rewrite hole_ne; [done|]. intros ->.
    apply NoDup_app in Hnd as (_ & Hd & Hnd). apply NoDup_cons in Hnd as [Hn _].
    apply elem_of_app in Hq as [Hin|Hin]; [|done]. apply (Hd p Hin). set_solver.
  - intros q Hq. apply Hw. set_solver.
  - apply Hw. set_solver.
  - unfold answer. rewrite hole_eq. done.
Qed.

(** The request becomes a hole; queue and log change with it. *)
Lemma inv_hole p c h lost s l q :
  inv [p] h lost s -> reads l = reads (log s) ->
  omap (answer h s) (reads (log s)) ++ [c] ++ drained l ++ q.*1 ++ lost = accepted l ->
  inv [] (hole p c h) lost (mkSt (promises s) (reactions s) (readers s) (strm s)
    (ctrl (set_queue q (queue_total_size (ctrl s)) s)) l).
Proof.
  intros HI Hl Hacc. pose proof (answer_hole p c h lost s HI) as Hans.
  destruct (i_order _ _ _ _ HI) as [A HA].
  assert (Hin : p ∈ reads (log s)) by (rewrite HA; set_solver).
  destruct (proj2 (i_wait _ _ _ _ HI p Hin)) as [Hp Hh]; [set_solver|].
  pose proof (i_nodup _ _ _ _ HI) as Hnd. rewrite HA in Hnd. apply NoDup_app in Hnd as (_ & _ & Hnd).
  cbn in Hnd. apply NoDup_cons in Hnd as [Hnp _].
  destruct HI. split; cbn; rewrite ?Hl; try done.
  - eapply readers_ok_ext; [..|exact i_readers0]; done.
  - intros q' c' Hq. destruct (decide (q' = p)) as [->|Hne]; [done|]. rewrite hole_ne in Hq by done. eauto.
  - intros q' Hq. unfold requests. cbn. fold (requests s). unfold waits. cbn.
    destruct (decide (q' = p)) as [->|Hne].
    + rewrite hole_eq. split; [intros [_ ?]; done|done].
    + rewrite hole_ne by done. rewrite (i_wait0 q' Hq). set_solver.
  - exists (A ++ [p]). rewrite HA, <- app_assoc. done.
  - rewrite <- Hacc. unfold answer in *. cbn. rewrite Hans, <- app_assoc. done.
Qed.

(** A chunk goes to the end of the queue, or the queue is discarded. *)
Lemma inv_queue F h lost lost' l q s :
  inv F h lost s -> reads l = reads (log s) ->
  omap (answer h s) (reads (log s)) ++ drained l ++ q.*1 ++ lost' = accepted l ->
  inv F h lost' (mkSt (promises s) (reactions s) (readers s) (strm s)
    (ctrl (set_queue q (queue_total_size (ctrl s)) s)) l).
Proof.
  intros [] Hl Hacc. split; cbn; rewrite ?Hl; try done. eapply readers_ok_ext; [..|exact i_readers0]; done.
Qed.

Lemma reads_snoc l e : reads (l ++ [e]) = reads l ++ match e with ReadCall p => [p] | _ => [] end.
Proof. unfold reads. rewrite omap_app. destruct e; done. Qed.

Lemma accepted_snoc l e : accepted (l ++ [e]) = accepted l ++ match e with Accepted c => [c] | _ => [] end.
Proof. unfold accepted. rewrite omap_app. destruct e; done. Qed.

Lemma drained_snoc l e : drained (l ++ [e]) = drained l ++ match e with Drained cs => cs | _ => [] end.
Proof. unfold drained. rewrite bind_app. cbn. rewrite app_nil_r. done. Qed.

Lemma cancelled_snoc l e : cancelled (l ++ [e]) <-> cancelled l ∨ exists r, e = SourceCancel r.
Proof.
  unfold cancelled. split.
  - intros [r Hr]. apply elem_of_app in Hr as [Hr|Hr]; [eauto|]. apply list_elem_of_singleton in Hr. eauto.
  - intros [[r Hr]|[r ->]]; exists r; apply elem_of_app; [tauto|]. right. apply list_elem_of_singleton. done.
Qed.

Ltac log_simpl := cbn [log push_log app]; rewrite ?reads_snoc, ?accepted_snoc, ?drained_snoc, ?app_nil_r.

(** A new read: its promise is a request of the reader or floats. *)
Lemma inv_read F h lost R s :
  inv [] h lost s ->
  let p := length (promises s) in
  let s' := push_log (ReadCall p) (set_promises (promises s ++ [(ForRead, Pending)]) (set_readers R s)) in
  readers_ok (set_readers R s) -> F ++ requests s' = requests s ++ [p] ->
  inv F h lost s'.
Proof.
  intros HI p s' HR HF.
  assert (Hold : forall q k, kind_at s q = Some k -> promises s' !! q = promises s !! q ∧ q <> p).
  { intros q k Hq. unfold kind_at in Hq. destruct (promises s !! q) eqn:Hs; [|done]. apply lookup_lt_Some in Hs as Hlt.
    split; [cbn; rewrite lookup_app_l by done; done|subst p; lia]. }
  assert (Hkind : forall q k, kind_at s q = Some k -> kind_at s' q = Some k).
  { intros q k Hq. destruct (Hold q k Hq) as [Hl _]. unfold kind_at in *. rewrite Hl. done. }
  assert (Hread : forall q, q ∈ reads (log s) -> promises s' !! q = promises s !! q ∧ q <> p).
  { intros q Hq. eapply Hold, i_kind; done. }
  assert (Hnew : promises s' !! p = Some (ForRead, Pending)) by (cbn; apply list_lookup_middle; done).
  assert (Hnp : p ∉ reads (log s)) by (intros Hp; destruct (Hread p Hp); done).
  assert (Hhp : h p = None).
  { destruct (h p) eqn:Hp; [|done]. apply (i_hole _ _ _ _ HI) in Hp. apply lookup_lt_Some in Hp. subst p. lia. }
  assert (Hlog : reads (log s') = reads (log s) ++ [p]) by (cbn; rewrite reads_snoc; done).
  destruct (i_order _ _ _ _ HI) as [A HA]. cbn in HA.
  destruct HI. split; rewrite ?Hlog; try done.
  - eapply readers_ok_ext; [..|exact HR]; try done. intros q Hq. apply Hkind. exact Hq.
  - intros x q Hq. apply Hkind. eauto.
  - apply Hkind. done.
  - apply NoDup_app. split; [done|]. split; [set_solver|apply NoDup_singleton].
  - intros q Hq. apply elem_of_app in Hq as [Hq|Hq]; [apply Hkind; eauto|].
    apply list_elem_of_singleton in Hq. subst q. unfold kind_at. rewrite Hnew. done.
  - intros q c Hq. pose proof (i_hole0 q c Hq) as Hp. destruct (Hold q ForRead) as [-> _]; [unfold kind_at; rewrite Hp|]; done.
  - intros q Hq. rewrite HF. apply elem_of_app in Hq as [Hq|Hq].
    + destruct (Hread q Hq) as [Hl Hne]. unfold waits. rewrite Hl. fold (waits h s q). rewrite (i_wait0 q Hq). set_solver.
    + apply list_elem_of_singleton in Hq. subst q. unfold waits. rewrite Hnew, Hhp. set_solver.
  - exists A. rewrite HF, HA, app_assoc. done.
  - cbn. rewrite drained_snoc, accepted_snoc, !app_nil_r, <- i_fifo0, omap_app. cbn.
    assert (Hpn : answer h s' p = None) by (unfold answer, chunk_of; rewrite Hhp, Hnew; done).
    cbn in Hpn. rewrite Hpn, app_nil_r. f_equal. apply omap_ext_in. intros q Hq. unfold answer, chunk_of.
    destruct (Hread q Hq) as [Hl _]. cbn in Hl. rewrite <- Hl. done.
Qed.

(** ** The operations *)

(** What an operation that does not pull keeps. *)
Definition quiet (s s' : st) : Prop :=
  pulling (ctrl s') = pulling (ctrl s) ∧ pulls s' = pulls s.

Lemma reader_at_current i s :
  readers_ok s -> reader (strm s) = Some i ->
  exists rd, readers s !! i = Some rd ∧ attached rd = true ∧ reader_at (reader (strm s)) s = Some (i, rd).
Proof.
  intros HR Hi. destruct (r_cur _ HR i Hi) as (rd & Hrd & Ha). exists rd. repeat split; try done.
  unfold reader_at. rewrite Hi. cbn. rewrite Hrd. done.
Qed.

Lemma requests_none s : reader (strm s) = None -> requests s = [].
Proof. intros Hr. unfold requests, reader_at. rewrite Hr. done. Qed.

(** Closing and erroring: the state changes, the closed promise is settled and
    every request is answered. *)
Lemma finish_inv X rc rr h lost s :
  rr <> Pending -> (forall c, rr <> Fulfilled (RChunk c)) -> inv [] h lost s ->
  let s0 := set_state X s in
  let s' := match reader_at (reader (strm s)) s0 with
            | None => s0
            | Some (i, rd) =>
                foldl (fun s p => settle p rr s)
                  (set_read_requests i rd []
                    (if settles (closed_promise rd) then settle (promise (closed_promise rd)) rc s0 else s0))
                  (read_requests rd)
            end in
  inv [] h lost s' ∧ requests s' = [] ∧ strm s' = strm s0 ∧ ctrl s' = ctrl s ∧ log s' = log s ∧
    reactions s' = reactions s.
Proof.
  intros Hr Hc HI s0. assert (HI0 : inv [] h lost s0) by (eapply inv_view; [|exact HI]; done).
  pose proof (i_readers _ _ _ _ HI0) as HR. change (reader (strm s)) with (reader (strm s0)).
  destruct (reader (strm s0)) as [i|] eqn:Hi; cbn zeta.
  - destruct (reader_at_current i s0 HR Hi) as (rd & Hrd & Ha & Hat). rewrite Hi in Hat. rewrite Hat.
    set (s1 := if settles _ then _ else _).
    assert (H1 : inv [] h lost s1 ∧ readers s1 = readers s0 ∧ strm s1 = strm s0 ∧ ctrl s1 = ctrl s ∧ log s1 = log s ∧ reactions s1 = reactions s).
    { subst s1. destruct (settles _); [|done]. split; [eapply inv_settle_other; [done|eapply r_closedp; done|done]|].
      destruct (settle_rest (promise (closed_promise rd)) rc s0) as (E1 & E2 & E3 & E4 & E5). rewrite E1, E2, E3, E4, E5. done. }
    destruct H1 as (HI1 & E1 & E2 & E3 & E4 & E5).
    assert (Hi1 : reader (strm s1) = Some i) by (rewrite E2; done).
    assert (Hrd1 : readers s1 !! i = Some rd) by (rewrite E1; done).
    pose proof (inv_take i rd (read_requests rd) [] h lost s1 HI1 Hi1 Hrd1 Ha (eq_sym (app_nil_r _))) as HT.
    pose proof (settle_all_rest rr (read_requests rd) (set_read_requests i rd [] s1)) as HS. cbn zeta in HS.
    destruct HS as (S1 & S2 & S3 & S4 & S5). split; [apply inv_settle_all; done|]. split.
    + rewrite (requests_ext (set_read_requests i rd [] s1)) by (rewrite ?S1, ?S2; done). apply requests_set; done.
    + rewrite S2, S3, S4, S5. cbn. rewrite E2, E3, E4, E5. done.
  - cbn. split; [done|]. split; [apply requests_none; done|done].
Qed.

Lemma close_inv h lost s :
  inv [] h lost s ->
  let s' := readable_stream_close (reader (strm s)) s in
  inv [] h lost s' ∧ requests s' = [] ∧ strm s' = strm (set_state Closed s) ∧ ctrl s' = ctrl s ∧ log s' = log s ∧
    reactions s' = reactions s.
Proof. intros HI. exact (finish_inv Closed (Fulfilled RUndefined) (Fulfilled RDone) h lost s ltac:(done) ltac:(done) HI). Qed.

Lemma stream_error_inv e h lost s :
  inv [] h lost s ->
  let s' := readable_stream_error (reader (strm s)) e s in
  inv [] h lost s' ∧ requests s' = [] ∧ strm s' = strm (set_state (Errored e) s) ∧ ctrl s' = ctrl s ∧ log s' = log s ∧
    reactions s' = reactions s.
Proof. intros HI. exact (finish_inv (Errored e) (Rejected e) (Rejected e) h lost s ltac:(done) ltac:(done) HI). Qed.

Lemma reset_inv F h lost s : inv F h lost s -> inv F h ((queue (ctrl s)).*1 ++ lost) (reset_queue s).
Proof.
  intros HI. eapply (inv_view _ _ _ (set_queue [] (queue_total_size (ctrl s)) s)); [done|].
  apply (inv_queue F h lost _ (log s) [] s HI); [done|]. rewrite <- (i_fifo _ _ _ _ HI). done.
Qed.

Lemma pulls_eq s s' : reactions s' = reactions s -> pulls s' = pulls s.
Proof. intros Hr. unfold pulls. rewrite Hr. done. Qed.

Lemma controller_error_full e h s :
  full h s -> let s' := controller_error (reader (strm s)) e s in full h s' ∧ quiet s s'.
Proof.
  intros [(lost & HI & HO) HP]. unfold controller_error. destruct (state (strm s)) eqn:Hst; cbn zeta;
    try (split; [split; [exists lost|]; done|done]).
  set (s1 := clear_algorithms (reset_queue s)).
  assert (HI1 : inv [] h ((queue (ctrl s)).*1 ++ lost) s1) by (eapply inv_view; [|apply reset_inv; exact HI]; done).
  destruct (stream_error_inv e h _ s1 HI1) as (HI2 & Hreq & Hs & Hc & Hl & Hx). cbn zeta in *.
  change (reader (strm s1)) with (reader (strm s)) in *.
  set (s2 := readable_stream_error _ _ _) in *.
  assert (Hq : quiet s s2) by (split; [rewrite Hc; done|apply pulls_eq; rewrite Hx; done]).
  split; [|done]. split.
  - eexists. split; [exact HI2|]. split; rewrite ?Hs, ?Hc; cbn; try done. intros _. right. eauto.
  - unfold one_pull. destruct Hq as [-> ->]. exact HP.
Qed.

Lemma ok_view lost s s' :
  state (strm s') = state (strm s) -> requests s' = requests s -> queue (ctrl s') = queue (ctrl s) ->
  algorithms (ctrl s') = algorithms (ctrl s) -> close_requested (ctrl s') = close_requested (ctrl s) ->
  drained (log s') = drained (log s) -> (cancelled (log s') <-> cancelled (log s)) -> ok lost s -> ok lost s'.
Proof. intros H1 H2 H3 H4 H5 H6 H7 []. split; rewrite ?H1, ?H2, ?H3, ?H4, ?H5, ?H6, ?H7; done. Qed.

(** Assignments of fields that the invariant does not read. *)
Lemma full_view h s s' :
  same_view s s' -> state (strm s') = state (strm s) -> algorithms (ctrl s') = algorithms (ctrl s) ->
  close_requested (ctrl s') = close_requested (ctrl s) -> one_pull s' -> full h s -> full h s'.
Proof.
  intros HV H1 H2 H3 HP [(lost & HI & HO) _]. split; [|done]. exists lost. split; [eapply inv_view; done|].
  destruct HV as (V1 & V2 & V3 & V4 & _). eapply ok_view; [..|done]; try done.
  - apply requests_ext; done.
  - rewrite V3. done.
  - rewrite V3. done.
Qed.

Lemma full_pull_event h s : full h s -> full h (push_log SourcePull s).
Proof.
  intros [(lost & HI & HO) HP]. split; [|exact HP]. exists lost. split.
  - apply (inv_view _ _ _ (mkSt (promises s) (reactions s) (readers s) (strm s)
      (ctrl (set_queue (queue (ctrl s)) (queue_total_size (ctrl s)) s)) (log s ++ [SourcePull]))); [done|].
    apply (inv_queue _ _ lost); [done|log_simpl; done|]. log_simpl. apply (i_fifo _ _ _ _ HI).
  - eapply ok_view; [..|done]; try done; log_simpl; [done|]. rewrite cancelled_snoc. naive_solver.
Qed.

Lemma full_new h k r s : full h s -> full h (set_promises (promises s ++ [(k, r)]) s).
Proof.
  intros [(lost & HI & HO) HP]. split; [|exact HP]. exists lost. split; [apply inv_new; done|].
  eapply ok_view; [..|exact HO]; done.
Qed.

Lemma pulls_snoc s p r : pulls (upon_promise p r s) = pulls s + if decide (r = OnPull) then 1 else 0.
Proof.
  unfold pulls, upon_promise. cbn. rewrite filter_app, length_app. f_equal. rewrite filter_cons, filter_nil. cbn.
  destruct (decide (r = OnPull)); done.
Qed.

Definition good (h : nat -> option value) (run : call -> st -> option st) : Prop :=
  forall c s, full h s -> pulling (ctrl s) = true -> exists s', run c s = Some s' ∧ full h s' ∧ quiet s s'.

Lemma run_all_good h run cs s :
  good h run -> full h s -> pulling (ctrl s) = true -> exists s', run_all run cs s = Some s' ∧ full h s' ∧ quiet s s'.
Proof.
  intros Hg. revert s. induction cs as [|c cs IH]; intros s HF Hp; [exists s; done|].
  destruct (Hg c s HF Hp) as (s1 & H1 & HF1 & [Q1 Q2]). destruct (IH s1 HF1 ltac:(congruence)) as (s2 & H2 & HF2 & [Q3 Q4]).
  exists s2. cbn. rewrite H1. cbn. split; [done|]. split; [done|]. split; congruence.
Qed.

Lemma should_call_pull_some r s : exists b, should_call_pull r s = Some b ∧ (b = true -> state (strm s) = Readable).
Proof.
  unfold should_call_pull, can_close_or_enqueue. destruct (state (strm s)) eqn:Hs; cbn [negb]; [|by exists false..].
  destruct (close_requested _), (started _), (0 <? num_read_requests r s); cbn;
    unfold get_desired_size; rewrite ?Hs; cbn; eexists; (split; [reflexivity|done]).
Qed.

Lemma call_pull_full source run h r s :
  pulling (ctrl s) = true ∨ good h run -> full h s -> exists s',
    call_pull_if_needed source run r s = Some s' ∧ full h s' ∧ (pulling (ctrl s) = true -> quiet s s').
Proof.
  intros Hrun HF. unfold call_pull_if_needed. destruct (should_call_pull_some r s) as (b & -> & Hb). cbn.
  destruct b; cbn; [|exists s; done]. specialize (Hb eq_refl).
  destruct (pulling (ctrl s)) eqn:Hp.
  - eexists. split; [done|]. split; [|done]. eapply full_view; [..|exact HF]; try done. apply HF.
  - destruct Hrun as [?|Hg]; [done|].
    assert (H0 : pulls s = 0) by (destruct HF as [_ HP]; unfold one_pull in HP; rewrite Hp in HP; lia).
    assert (HF1 : full h (push_log SourcePull (set_pulling true s))).
    { apply full_pull_event. eapply full_view; [..|exact HF]; try done. unfold one_pull. cbn.
      rewrite (pulls_eq s) by done. lia. }
    assert (Ha : algorithms (ctrl s) = true) by (destruct HF as [(l & _ & HO) _]; apply (o_algorithms _ _ HO Hb)).
    unfold pull_algorithm. cbn. rewrite Ha.
    destruct (run_all_good h run (source (log (push_log SourcePull (set_pulling true s)))) _ Hg HF1 eq_refl)
      as (s2 & H2 & HF2 & [Q1 Q2]). cbn in H2. rewrite H2. cbn. eexists. split; [done|]. split; [|done].
    assert (HF3 := full_new h ForSource Pending s2 HF2).
    eapply full_view; [..|exact HF3]; try done.
    + repeat split; try done. intros x p Hin. cbn in Hin. apply elem_of_app in Hin as [Hin|Hin]; [done|].
      apply list_elem_of_singleton in Hin. done.
    + assert (Hz : pulls s2 = 0) by (rewrite Q2; exact H0). unfold one_pull. cbn [ctrl upon_promise set_reactions].
      rewrite pulls_snoc, (pulls_eq s2), Hz by done. cbn. rewrite Q1. destruct (decide _); cbn; lia.
Qed.

(** *** Closing *)

Lemma controller_close_full h s :
  full h s -> let s' := controller_close (reader (strm s)) s in full h s' ∧ quiet s s'.
Proof.
  intros HF. pose proof HF as [(lost & HI & HO) HP]. unfold controller_close, can_close_or_enqueue.
  destruct (state (strm s)) eqn:Hst; cbn [negb]; try done.
  destruct (close_requested (ctrl s)) eqn:Hcr; cbn [negb]; [done|]. cbn zeta. cbn [set_close_requested ctrl queue set_ctrl].
  destruct (queue (ctrl s)) as [|x q] eqn:Hq.
  - set (s1 := clear_algorithms _).
    assert (HI1 : inv [] h lost s1) by (eapply inv_view; [|exact HI]; done).
    destruct (close_inv h lost s1 HI1) as (HI2 & Hreq & Hs & Hc & Hl & Hx). cbn zeta in *.
    change (reader (strm s1)) with (reader (strm s)) in *. set (s2 := readable_stream_close _ _) in *.
    assert (Hqt : quiet s s2) by (split; [rewrite Hc; done|apply pulls_eq; rewrite Hx; done]).
    split; [|done]. split.
    + exists lost. split; [done|]. destruct HO.
      split; rewrite ?Hs, ?Hc, ?Hl; cbn; try done. intros Hlost. destruct (o_lost0 Hlost) as [|[e He]]; [tauto|congruence].
    + unfold one_pull. destruct Hqt as [-> ->]. exact HP.
  - split; [|done]. split; [|exact HP]. exists lost. split; [eapply inv_view; [|exact HI]; done|].
    destruct HO. split; cbn; try done. rewrite Hq. done.
Qed.

(** *** Enqueueing *)

Lemma num_requests s : num_read_requests (reader (strm s)) s = length (requests s).
Proof. unfold num_read_requests, requests. destruct (reader_at _ _) as [[i rd]|]; done. Qed.

(** Nothing was discarded while the stream is readable. *)
Lemma readable_facts lost s :
  ok lost s -> state (strm s) = Readable -> lost = [] ∧ drained (log s) = [].
Proof.
  intros [] Hs. destruct (o_log0 Hs) as [Hd Hc]. split; [|done]. destruct lost; [done|].
  destruct o_lost0 as [|[e He]]; [done..|congruence].
Qed.

Lemma can_close_readable s : can_close_or_enqueue s = true -> state (strm s) = Readable ∧ close_requested (ctrl s) = false.
Proof. unfold can_close_or_enqueue. destruct (state (strm s)), (close_requested (ctrl s)); done. Qed.

Lemma full_accept_request h s p ps c :
  full h s -> state (strm s) = Readable -> requests s = p :: ps ->
  exists s', fulfill_read_request (reader (strm s)) c false (push_log (Accepted c) s) = Some s' ∧ full h s' ∧ quiet s s'.
Proof.
  intros [(lost & HI & HO) HP] Hst Hreq. pose proof (i_readers _ _ _ _ HI) as HR.
  destruct (readable_facts lost s HO Hst) as [-> Hd].
  assert (Hq : queue (ctrl s) = []) by (apply (o_queue _ _ HO); rewrite Hreq; done).
  destruct (reader (strm s)) as [i|] eqn:Hi; [|rewrite requests_none in Hreq; done].
  destruct (reader_at_current i s HR Hi) as (rd & Hrd & Ha & Hat). rewrite Hi in Hat.
  assert (Hrr : read_requests rd = [p] ++ ps) by (rewrite <- (requests_at i rd s Hi Hrd); done).
  pose proof (inv_take i rd [p] ps h [] s HI Hi Hrd Ha Hrr) as HT.
  assert (Hh : h p = None).
  { destruct (i_order _ _ _ _ HI) as [A HA]. apply (i_wait _ _ _ _ HI p); [rewrite HA, Hreq|rewrite Hreq]; set_solver. }
  set (s1 := set_read_requests i rd ps (push_log (Accepted c) s)).
  assert (HI1 : inv [] (hole p c h) [] s1).
  { eapply inv_view; [|apply (inv_hole p c h [] (set_read_requests i rd ps s) (log s ++ [Accepted c]) [] HT)].
    - repeat split; done.
    - log_simpl. done.
    - pose proof (i_fifo _ _ _ _ HT) as Hf. cbn in Hf |- *. rewrite Hq, Hd in Hf. log_simpl. rewrite Hd.
      cbn in Hf. rewrite app_nil_r in Hf. cbn. rewrite <- Hf. done. }
  exists (chunk_steps p c s1). split; [|split].
  - unfold fulfill_read_request. unfold reader_at. cbn. rewrite Hrd. cbn. rewrite Hrr. done.
  - destruct (settle_rest p (Fulfilled (RChunk c)) s1) as (E1 & E2 & E3 & E4 & E5).
    split; [|unfold one_pull, chunk_steps; rewrite E3, (pulls_eq s1) by done; exact HP].
    exists []. split; [eapply inv_chunk_steps; [exact HI1|apply hole_eq|done|intros; apply hole_ne; done]|].
    assert (Hreq1 : requests (chunk_steps p c s1) = ps).
    { unfold chunk_steps. rewrite (requests_ext s1) by congruence. apply requests_set; done. }
    pose proof (o_algorithms _ _ HO Hst). pose proof (o_closing _ _ HO Hst). destruct (o_log _ _ HO Hst) as [? Hnc].
    split; unfold chunk_steps in *; rewrite ?E2, ?E3, ?E4; cbn; rewrite ?Hst, ?Hreq1, ?Hq; try done.
    + intros _ Hcr. rewrite Hcr in *. specialize (H0 eq_refl). congruence.
    + intros _. log_simpl. rewrite cancelled_snoc. split; [done|]. intros [|[r Hr]]; done.
  - destruct (settle_rest p (Fulfilled (RChunk c)) s1) as (E1 & E2 & E3 & E4 & E5). split; unfold chunk_steps.
    + rewrite E3. done.
    + apply pulls_eq. rewrite E5. done.
Qed.

Lemma full_accept_queue h s c size total :
  full h s -> state (strm s) = Readable -> requests s = [] ->
  full h (push_log (Accepted c) (set_queue (queue (ctrl s) ++ [(c, size)]) total s)).
Proof.
  intros [(lost & HI & HO) HP] Hst Hreq. destruct (readable_facts lost s HO Hst) as [-> Hd].
  split; [|exact HP]. exists []. split.
  - eapply inv_view; [|apply (inv_queue [] h [] [] (log s ++ [Accepted c]) (queue (ctrl s) ++ [(c, size)]) s HI)].
    + done.
    + log_simpl. done.
    + log_simpl. rewrite <- (i_fifo _ _ _ _ HI), Hd, fmap_app, app_nil_r. cbn. rewrite app_assoc. done.
  - pose proof (o_algorithms _ _ HO Hst). destruct (o_log _ _ HO Hst) as [? Hnc].
    split; cbn; rewrite ?Hst; try done.
    + intros ? ?. destruct (queue (ctrl s)); done.
    + intros _. log_simpl. rewrite cancelled_snoc. split; [done|]. intros [|[r Hr]]; done.
Qed.

(** The result of an operation that may pull. *)
Definition keeps (h : nat -> option value) (s : st) (o : option st) : Prop :=
  exists s', o = Some s' ∧ full h s' ∧ (pulling (ctrl s) = true -> quiet s s').

Lemma enqueue_full source run h chunk size s :
  pulling (ctrl s) = true ∨ good h run -> full h s ->
  exists res s', controller_enqueue source run (reader (strm s)) chunk size s = Some (res, s') ∧ full h s' ∧
    (pulling (ctrl s) = true -> quiet s s').
Proof.
  intros Hrun HF. unfold controller_enqueue.
  destruct (can_close_or_enqueue s) eqn:Hcan; cbn [negb]; [|eexists _, _; done].
  destruct (can_close_readable s Hcan) as [Hst Hcr]. rewrite num_requests.
  destruct (requests s) as [|p ps] eqn:Hreq.
  - cbn [length]. change (0 <? 0) with false. cbn iota.
    pose proof HF as [(lost & HI & HO) HP]. rewrite (o_algorithms _ _ HO Hst). cbn [negb].
    assert (Herr : forall e, exists res s', Some (Err e, controller_error (reader (strm s)) e s) = Some (res : result value unit, s') ∧
      full h s' ∧ (pulling (ctrl s) = true -> quiet s s')).
    { intros e. eexists _, _. split; [done|]. destruct (controller_error_full e h s HF) as [? ?]. done. }
    destruct size as [sz|e]; [|apply Herr]. unfold enqueue_value_with_size.
    destruct (is_non_negative_number sz) as [sz'|]; [|apply Herr]. destruct (is_infinite sz'); [apply Herr|].
    pose proof (full_accept_queue h s chunk sz' (f64_add (queue_total_size (ctrl s)) sz') HF Hst Hreq) as HF1.
    match type of HF1 with full _ ?s1 => destruct (call_pull_full source run h (reader (strm s)) s1 Hrun HF1) as (s' & Hs' & HF' & Hq) end.
    eexists _, s'. rewrite Hs'. done.
  - change (0 <? length (p :: ps)) with true. cbn iota.
    destruct (full_accept_request h s p ps chunk HF Hst Hreq) as (s1 & H1 & HF1 & [Q1 Q2]). rewrite H1. cbn.
    destruct (call_pull_full source run h (reader (strm s)) s1 ltac:(rewrite Q1; exact Hrun) HF1) as (s' & Hs' & HF' & Hq).
    rewrite Hs'. eexists _, s'. split; [done|]. split; [done|]. intros Hp. destruct Hq as [Q3 Q4]; [congruence|].
    split; congruence.
Qed.

(** *** Reading *)

Lemma settle_quiet p r s : quiet s (settle p r s).
Proof.
  destruct (settle_rest p r s) as (_ & _ & E3 & _ & E5). split; [rewrite E3; done|]. apply pulls_eq. done.
Qed.

Lemma quiet_trans s1 s2 s3 : quiet s1 s2 -> quiet s2 s3 -> quiet s1 s3.
Proof. intros [] []. split; congruence. Qed.

Lemma one_pull_quiet s s' : quiet s s' -> one_pull s -> one_pull s'.
Proof. intros [Q1 Q2]. unfold one_pull. rewrite Q1, Q2. done. Qed.

Lemma ok_settle lost p r s : ok lost s -> ok lost (settle p r s).
Proof.
  destruct (settle_rest p r s) as (E1 & E2 & E3 & E4 & E5).
  apply ok_view; rewrite ?E2, ?E3, ?E4; try done. apply requests_ext; congruence.
Qed.

Lemma full_chunk_steps p c h s : full (hole p c h) s -> h p = None -> full h (chunk_steps p c s).
Proof.
  intros [(lost & HI & HO) HP] Hh. split; [|eapply one_pull_quiet; [apply settle_quiet|done]].
  exists lost. split; [|apply ok_settle; done].
  eapply inv_chunk_steps; [exact HI|apply hole_eq|done|intros; apply hole_ne; done].
Qed.

Abbreviation read_state s := (push_log (ReadCall (length (promises s))) (set_promises (promises s ++ [(ForRead, Pending)]) s)).

Lemma hole_fresh F h lost s : inv F h lost s -> h (length (promises s)) = None.
Proof.
  intros HI. destruct (h _) eqn:Hh; [|done]. apply (i_hole _ _ _ _ HI) in Hh. apply lookup_lt_Some in Hh. lia.
Qed.

Lemma ok_read lost s : ok lost s -> ok lost (set_disturbed true (read_state s)).
Proof.
  apply ok_view; try done; cbn; [log_simpl; done|]. rewrite cancelled_snoc. naive_solver.
Qed.

(** A read of a closed or errored stream. *)
Lemma read_settled h r s :
  full h s -> state (strm s) <> Readable -> r <> Pending -> (forall c, r <> Fulfilled (RChunk c)) ->
  full h (settle (length (promises s)) r (set_disturbed true (read_state s))).
Proof.
  intros [(lost & HI & HO) HP] Hst Hr Hc. pose proof (o_requests _ _ HO Hst) as Hreq.
  split; [|eapply one_pull_quiet; [apply settle_quiet|exact HP]].
  exists lost. split; [|apply ok_settle, ok_read; done].
  apply inv_settle_float; [|done..]. eapply inv_view; [|apply (inv_read [length (promises s)] h lost (readers s) s HI)]; try done.
  - eapply readers_ok_ext; [..|apply (i_readers _ _ _ _ HI)]; done.
  - rewrite (requests_ext s), Hreq by done. done.
Qed.

(** A read that waits. *)
Lemma read_waits h i s :
  full h s -> state (strm s) = Readable -> reader (strm s) = Some i -> queue (ctrl s) = [] ->
  full h (add_read_request i (length (promises s)) (set_disturbed true (read_state s))).
Proof.
  intros [(lost & HI & HO) HP] Hst Hi Hq. pose proof (i_readers _ _ _ _ HI) as HR.
  destruct (reader_at_current i s HR Hi) as (rd & Hrd & Ha & _).
  unfold add_read_request. cbn [readers set_disturbed set_strm push_log set_promises]. rewrite Hrd.
  split; [|exact HP]. exists lost. split.
  - eapply inv_view; [|apply (inv_read [] h lost (<[i := mkReader (closed_promise rd) (attached rd)
      (read_requests rd ++ [length (promises s)])]> (readers s)) s HI)].
    + done.
    + apply (set_requests_readers i rd _ s HR Hrd Ha).
    + cbn [app]. rewrite (requests_at i rd s Hi Hrd). apply (requests_set i rd _ s Hi Hrd).
  - destruct HO. split; cbn [strm ctrl log set_read_requests set_readers set_disturbed set_strm push_log set_promises state]; try done.
    + log_simpl. intros _. rewrite cancelled_snoc. destruct (o_log0 Hst). split; [done|]. intros [|[r Hr]]; done.
    + rewrite cancelled_snoc. naive_solver.
Qed.

(** A read that takes a chunk from the queue. *)
Lemma read_takes h c size rest total s :
  full h s -> state (strm s) = Readable -> queue (ctrl s) = (c, size) :: rest ->
  let s' := set_queue rest total (set_disturbed true (read_state s)) in
  exists lost, inv [] (hole (length (promises s)) c h) lost s' ∧ ok lost s ∧ requests s = [] ∧ requests s' = [].
Proof.
  intros [(lost & HI & HO) HP] Hst Hq.
  assert (Hreq : requests s = []).
  { destruct (requests s) eqn:Hr; [done|]. rewrite (o_queue _ _ HO) in Hq; [done|]. rewrite Hr. done. }
  destruct (readable_facts lost s HO Hst) as [-> Hd].
  exists []. split; [|split; [done|]; split; [done|rewrite (requests_ext s), Hreq by done; done]].
  assert (HI1 : inv [length (promises s)] h [] (read_state s)).
  { eapply inv_view; [|apply (inv_read [length (promises s)] h [] (readers s) s HI)]; try done.
    - eapply readers_ok_ext; [..|apply (i_readers _ _ _ _ HI)]; done.
    - rewrite (requests_ext s), Hreq by done. done. }
  eapply inv_view; [|apply (inv_hole _ c h [] _ (log (read_state s)) rest HI1)].
  - done.
  - done.
  - pose proof (i_fifo _ _ _ _ HI1) as Hf. cbn in Hf |- *. rewrite Hq in Hf. rewrite <- Hf.
    log_simpl. rewrite Hd. done.
Qed.

Lemma attached_current i h s : full h s -> attached_reader i s = true -> reader (strm s) = Some i.
Proof.
  intros [(lost & HI & _) _]. unfold attached_reader. destruct (readers s !! i) as [rd|] eqn:Hi; [|done].
  apply (r_att _ (i_readers _ _ _ _ HI)). done.
Qed.

Lemma pull_steps_full source run h i s :
  pulling (ctrl s) = true ∨ (forall h, good h run) -> full h s -> reader (strm s) = Some i -> state (strm s) = Readable ->
  keeps h s (pull_steps source run i (length (promises s)) (set_disturbed true (read_state s))).
Proof.
  intros Hrun HF Hi Hst. unfold pull_steps, dequeue_value. cbn [ctrl set_disturbed set_strm push_log set_promises].
  destruct (queue (ctrl s)) as [|[c size] rest] eqn:Hq.
  - pose proof (read_waits h i s HF Hst Hi Hq) as HF1.
    assert (Hc : ctrl (add_read_request i (length (promises s)) (set_disturbed true (read_state s))) = ctrl s).
    { unfold add_read_request. destruct (_ !! _); done. }
    assert (Hp : pulls (add_read_request i (length (promises s)) (set_disturbed true (read_state s))) = pulls s).
    { unfold add_read_request. destruct (_ !! _); done. }
    destruct (call_pull_full source run h (Some i) _ ltac:(rewrite Hc; naive_solver) HF1) as (s' & Hs' & HF' & Hqt).
    rewrite Hc in Hqt. exists s'. split; [exact Hs'|]. split; [done|]. intros Hpl. destruct (Hqt Hpl). split; congruence.
  - cbn zeta.
    set (total := if SFltb _ _ then _ else _).
    destruct (read_takes h c size rest total s HF Hst Hq) as (lost & HI1 & HO & Hreq & Hreq1). cbn zeta in *.
    set (s1 := set_queue rest total (set_disturbed true (read_state s))) in *.
    destruct HF as [(lost0 & HI0 & _) HP].
    assert (Hh : h (length (promises s)) = None) by (eapply hole_fresh; done).
    destruct (readable_facts lost s HO Hst) as [-> Hd].
    destruct (o_log _ _ HO Hst) as [_ Hnc]. pose proof (o_algorithms _ _ HO Hst) as Halg.
    change (close_requested (ctrl s1)) with (close_requested (ctrl s)). change (queue (ctrl s1)) with rest.
    destruct (close_requested (ctrl s) && match rest with [] => true | _ => false end) eqn:Hcl.
    + assert (HI2 : inv [] (hole (length (promises s)) c h) [] (clear_algorithms s1)) by (eapply inv_view; [|exact HI1]; done).
      destruct (close_inv _ _ _ HI2) as (HI3 & Hreq3 & E1 & E2 & E3 & E4). cbn zeta in *.
      change (reader (strm (clear_algorithms s1))) with (reader (strm s)) in *. rewrite Hi in *.
      set (s3 := readable_stream_close _ _) in *. eexists. split; [done|].
      assert (Hqt : quiet s s3) by (split; [rewrite E2; done|apply pulls_eq; rewrite E4; done]).
      split; [|intros _; eapply quiet_trans; [exact Hqt|apply settle_quiet]].
      apply full_chunk_steps; [|done]. split; [|eapply one_pull_quiet; done].
      exists []. split; [done|]. split; rewrite ?E1, ?E2; done.
    + assert (HF1 : full (hole (length (promises s)) c h) s1).
      { split; [|exact HP]. exists []. split; [done|].
        split; cbn [strm ctrl log s1 set_queue set_ctrl set_disturbed set_strm push_log set_promises state queue algorithms close_requested]; try done.
        - intros _ Hcr ->. rewrite Hcr in Hcl. done.
        - intros _. log_simpl. rewrite cancelled_snoc. split; [done|]. intros [|[r Hr]]; done. }
      destruct (call_pull_full source run _ (Some i) s1 ltac:(cbn; naive_solver) HF1) as (s' & Hs' & HF' & Hqt).
      fold s1. rewrite Hs'. cbn. eexists. split; [done|]. split; [apply full_chunk_steps; done|].
      intros Hpl. eapply quiet_trans; [|apply settle_quiet]. apply (quiet_trans s s1); [done|]. apply Hqt. done.
Qed.

Lemma read_full source run h i s :
  pulling (ctrl s) = true ∨ (forall h, good h run) -> full h s ->
  exists p s', read source run i s = Some (p, s') ∧ full h s' ∧ (pulling (ctrl s) = true -> quiet s s').
Proof.
  intros Hrun HF. unfold read. destruct (attached_reader i s) eqn:Ha; cbn [negb].
  - pose proof (attached_current i h s HF Ha) as Hi. unfold new_promise, default_reader_read.
    cbn [strm state set_disturbed set_strm push_log set_promises]. destruct (state (strm s)) eqn:Hst.
    + destruct (pull_steps_full source run h i s Hrun HF Hi Hst) as (s' & Hs' & HF' & Hq).
      rewrite Hs'. eexists _, s'. done.
    + eexists _, _. split; [done|]. split; [apply read_settled; congruence|]. intros _. eapply quiet_trans; [|apply settle_quiet]. done.
    + eexists _, _. split; [done|]. split; [apply read_settled; congruence|]. intros _. eapply quiet_trans; [|apply settle_quiet]. done.
  - eexists _, _. split; [done|]. split; [apply full_new; done|done].
Qed.

(** *** Cancelling *)

Lemma cancel_event h lost s r :
  inv [] h lost s -> inv [] h ((queue (ctrl s)).*1 ++ lost) (push_log (SourceCancel r) (reset_queue s)).
Proof.
  intros HI. eapply inv_view; [|apply (inv_queue [] h lost ((queue (ctrl s)).*1 ++ lost) (log s ++ [SourceCancel r]) [] s HI)].
  - done.
  - log_simpl. done.
  - log_simpl. apply (i_fifo _ _ _ _ HI).
Qed.

Lemma cancel_full h reason s :
  full h s -> exists p s', readable_stream_cancel (reader (strm s)) reason s = Some (p, s') ∧ full h s' ∧ quiet s s'.
Proof.
  intros HF. unfold readable_stream_cancel. cbn zeta. cbn [strm state set_disturbed set_strm].
  assert (HF0 : full h (set_disturbed true s)) by (eapply full_view; [..|exact HF]; try done; apply HF).
  destruct (state (strm s)) eqn:Hst; try (eexists _, _; split; [done|]; split; [apply full_new; done|done]).
  pose proof HF0 as [(lost & HI & HO) HP].
  destruct (close_inv h lost _ HI) as (HI1 & Hreq & E1 & E2 & E3 & E4). cbn zeta in *.
  change (reader (strm (set_disturbed true s))) with (reader (strm s)) in *.
  set (s1 := readable_stream_close _ _) in *. unfold cancel_steps.
  assert (Halg : algorithms (ctrl s1) = true) by (rewrite E2; apply (o_algorithms _ _ HO Hst)).
  cbn [ctrl algorithms reset_queue set_queue set_ctrl]. rewrite Halg. unfold new_promise.
  eexists _, _. split; [reflexivity|].
  set (s2 := push_log (SourceCancel reason) (reset_queue s1)).
  pose proof (cancel_event h lost s1 reason HI1) as HI2. fold s2 in HI2.
  pose proof (inv_new _ _ _ ForSource Pending s2 HI2) as HI3. pose proof (inv_new _ _ _ ForOther Pending _ HI3) as HI4.
  set (s4 := set_promises (promises (set_promises _ s2) ++ _) _) in HI4.
  assert (Hk : kind_at s4 (length (promises s2 ++ [(ForSource, Pending)])) = Some ForOther).
  { unfold kind_at, s4. cbn [promises set_promises]. rewrite list_lookup_middle by done. done. }
  split.
  - split.
    + eexists. split.
      * eapply inv_view with (s := set_reactions (reactions s4 ++ [(length (promises s2), OnCancel (length (promises s2 ++ [(ForSource, Pending)])))]) s4); [done|].
        destruct HI4. split; try done; [eapply readers_ok_ext; [..|exact i_readers0]; done|].
        intros x p Hin. cbn in Hin. apply elem_of_app in Hin as [Hin|Hin]; [eauto|].
        apply list_elem_of_singleton in Hin as [= -> ->]. exact Hk.
      * split; cbn [strm ctrl log upon_promise set_reactions set_promises clear_algorithms set_algorithms set_ctrl s2 push_log reset_queue set_queue];
          rewrite ?E1; cbn [state set_state set_strm strm]; try done.
        intros _. left. apply cancelled_snoc. eauto.
    + unfold one_pull. cbn [ctrl upon_promise set_reactions set_promises clear_algorithms set_algorithms set_ctrl pulling].
      rewrite pulls_snoc. rewrite (pulls_eq s) by (cbn; rewrite E4; done). cbn. rewrite E2. cbn.
      destruct (decide _); [done|]. destruct HF as [_ HP']; unfold one_pull in HP'; lia.
  - split; [cbn; rewrite E2; done|]. rewrite pulls_snoc. rewrite (pulls_eq s) by (cbn; rewrite E4; done).
    destruct (decide _); [done|]. lia.
Qed.

(** *** Readers *)

Lemma get_reader_full h s i s' : full h s -> get_reader s = Ok (i, s') -> full h s' ∧ quiet s s'.
Proof.
  intros HF. unfold get_reader, set_up_reader, is_readable_stream_locked.
  destruct (reader (strm s)) as [j|] eqn:Hr; [done|].
  assert (Hinit : exists rp s1, generic_initialize s = (rp, s1) ∧ full h s1 ∧ quiet s s1 ∧ readers s1 = readers s ∧
    reader (strm s1) = None ∧ kind_at s1 (promise rp) = Some ForOther).
  { unfold generic_initialize, new_promise. destruct (state (strm s)) eqn:Hst; eexists _, _; (split; [done|]); cbn [promise resolved_with_undefined].
    - split; [apply full_new; done|]. repeat (split; [done|]). unfold kind_at. cbn [promises set_promises promise]. rewrite list_lookup_middle; done.
    - split; [done|]. repeat (split; [done|]). destruct HF as [(lost & HI & HO) HP]. apply (i_first _ _ _ _ HI).
    - split; [apply full_new; done|]. repeat (split; [done|]). unfold kind_at. cbn [promises set_promises promise]. rewrite list_lookup_middle; done. }
  destruct Hinit as (rp & s1 & -> & HF1 & Hq & Hrd & Hr1 & Hk). intros [= <- <-].
  pose proof HF1 as [(lost & HI & HO) HP].
  assert (Hreq : requests s1 = []) by (apply requests_none; done).
  set (s2 := set_reader _ _). split; [|destruct Hq; split; done].
  assert (Hlast : readers s2 !! length (readers s1) = Some (mkReader rp true [])) by (cbn; apply list_lookup_middle; done).
  assert (Hreq2 : requests s2 = []).
  { rewrite (requests_at (length (readers s1)) (mkReader rp true []) s2); done. }
  split; [|exact HP]. exists lost. split.
  - destruct HI. split; cbn; try done.
    + split; intros j.
      * intros rd Hj Ha. cbn in Hj. destruct (decide (j < length (readers s1))) as [Hl|Hl].
        -- rewrite lookup_app_l in Hj by done. destruct i_readers0 as [Ra _ _ _]. specialize (Ra j rd Hj Ha). congruence.
        -- apply lookup_lt_Some in Hj. rewrite length_app in Hj. cbn in Hj. cbn. f_equal. lia.
      * cbn. intros [= <-]. eexists. split; [exact Hlast|done].
      * intros rd Hj Ha. cbn in Hj. apply lookup_app_Some in Hj as [Hj|[_ Hj]]; [eapply r_old; done|].
        apply list_lookup_singleton_Some in Hj as [_ <-]. done.
      * intros rd Hj. cbn in Hj. apply lookup_app_Some in Hj as [Hj|[_ Hj]]; [exact (r_closedp _ i_readers0 j rd Hj)|].
        apply list_lookup_singleton_Some in Hj as [_ <-]. exact Hk.
    + intros p Hp. rewrite Hreq2. rewrite Hreq in i_wait0. apply i_wait0. done.
    + rewrite Hreq2. rewrite Hreq in i_order0. done.
  - eapply ok_view; [..|exact HO]; try done. congruence.
Qed.

(** The state without the reader, whose requests float. *)
Lemma inv_detach i rd closed h lost s :
  inv [] h lost s -> readers s !! i = Some rd -> attached rd = true -> kind_at s (promise closed) = Some ForOther ->
  inv (read_requests rd) h lost (set_readers (<[i := mkReader closed false []]> (readers s)) (set_reader None s)).
Proof.
  intros HI Hi Ha Hk. pose proof (i_readers _ _ _ _ HI) as HR. pose proof (r_att _ HR i rd Hi Ha) as Hr.
  pose proof (requests_at i rd s Hr Hi) as Hreq. pose proof (lookup_lt_Some _ _ _ Hi) as Hlt.
  set (s' := set_readers _ _). assert (Hreq' : requests s' = []) by (apply requests_none; done).
  destruct HI. split; try done.
  - split; intros j.
    + intros rd' Hj Ha'. cbn in Hj. destruct (decide (i = j)) as [->|Hn].
      * rewrite list_lookup_insert_eq in Hj by done. simplify_eq.
      * rewrite list_lookup_insert_ne in Hj by done. pose proof (r_att _ HR j rd' Hj Ha'). congruence.
    + done.
    + intros rd' Hj Ha'. cbn in Hj. destruct (decide (i = j)) as [->|Hn].
      * rewrite list_lookup_insert_eq in Hj by done. simplify_eq. done.
      * rewrite list_lookup_insert_ne in Hj by done. exact (r_old _ HR j rd' Hj Ha').
    + intros rd' Hj. cbn in Hj. destruct (decide (i = j)) as [->|Hn].
      * rewrite list_lookup_insert_eq in Hj by done. simplify_eq. exact Hk.
      * rewrite list_lookup_insert_ne in Hj by done. exact (r_closedp _ HR j rd' Hj).
  - intros p Hp. rewrite Hreq', app_nil_r, <- Hreq. apply i_wait0. done.
  - rewrite Hreq', app_nil_r, <- Hreq. exact i_order0.
Qed.

Lemma release_full h i s : full h s -> full h (release_lock i s) ∧ quiet s (release_lock i s).
Proof.
  intros HF. unfold release_lock. destruct (readers s !! i) as [rd|] eqn:Hi; [|done].
  destruct (attached rd) eqn:Ha; [|done]. pose proof HF as [(lost & HI & HO) HP].
  unfold reader_release, generic_release.
  set (pr := match state (strm s) with Readable => _ | _ => _ end).
  assert (Hpr : full h pr.2 ∧ quiet s pr.2 ∧ readers pr.2 = readers s ∧ kind_at pr.2 (promise pr.1) = Some ForOther).
  { subst pr. pose proof (r_closedp _ (i_readers _ _ _ _ HI) i rd Hi) as Hk.
    destruct (state (strm s)) eqn:Hst; cbn [fst snd new_promise].
    - unfold reject. destruct (settles _); [|done].
      destruct (settle_rest (promise (closed_promise rd)) (Rejected released_error) s) as (E1 & E2 & E3 & E4 & E5).
      split; [|split; [apply settle_quiet|split; [done|rewrite kind_settle; done]]].
      split; [|eapply one_pull_quiet; [apply settle_quiet|done]]. exists lost. split; [|apply ok_settle; done].
      eapply inv_settle_other; done.
    - split; [apply full_new; done|]. repeat (split; [done|]). unfold kind_at. cbn [promises set_promises promise].
      rewrite list_lookup_middle; done.
    - split; [apply full_new; done|]. repeat (split; [done|]). unfold kind_at. cbn [promises set_promises promise].
      rewrite list_lookup_middle; done. }
  destruct pr as [closed s1]. cbn [fst snd] in Hpr. destruct Hpr as (HF1 & Hq & Hrd & Hk).
  rewrite <- Hrd in Hi. clear HF HP HI HO lost. destruct HF1 as [(lost & HI & HO) HP].
  pose proof (inv_detach i rd closed h lost s1 HI Hi Ha Hk) as HD. set (s2 := set_readers _ _) in HD.
  cbn [readers set_readers set_reader set_strm]. rewrite list_lookup_insert_eq by (apply lookup_lt_Some in Hi; done).
  unfold error_read_requests. cbn [read_requests].
  set (s3 := set_read_requests _ _ _ _).
  assert (H3 : s3 = s2).
  { subst s3 s2. unfold set_read_requests, set_readers. cbn. rewrite list_insert_insert_eq. done. }
  rewrite H3. pose proof (settle_all_rest (Rejected (TypeError (str "Reader was released"))) (read_requests rd) s2) as HS.
  cbn zeta in HS. destruct HS as (S1 & S2 & S3 & S4 & S5).
  assert (Hq2 : quiet s (foldl (fun s p => error_steps p (TypeError (str "Reader was released")) s) s2 (read_requests rd))).
  { eapply quiet_trans; [exact Hq|]. split; [setoid_rewrite S3; done|apply pulls_eq; setoid_rewrite S5; done]. }
  split; [|exact Hq2]. split; [|eapply one_pull_quiet; [|exact HP]; destruct Hq, Hq2; split; congruence].
  exists lost. split; [apply inv_settle_all; done|].
  assert (Hreq : requests (foldl (fun s p => error_steps p (TypeError (str "Reader was released")) s) s2 (read_requests rd)) = []).
  { apply requests_none. setoid_rewrite S2. done. }
  destruct HO. split; unfold error_steps in *; rewrite ?S2, ?S3, ?S4, ?Hreq; done.
Qed.

(** *** Draining *)

Lemma drain_queue_eq q s : queue (ctrl s) = q -> exists total, drain_queue q s = set_queue [] total s.
Proof.
  revert s. induction q as [|[c size] q IH]; intros s Hq.
  - exists (queue_total_size (ctrl s)). cbn. destruct s as [? ? ? ? [] ?]. cbn in *. rewrite Hq. done.
  - cbn. unfold dequeue_value. rewrite Hq.
    destruct (IH (set_queue q (if SFltb (f64_sub (queue_total_size (ctrl s)) size) zero then zero
      else f64_sub (queue_total_size (ctrl s)) size) s) eq_refl) as [total Ht].
    exists total. exact Ht.
Qed.

Lemma drain_full h s :
  full h s -> full h (try_sync_drain_closed_stream s).2 ∧ quiet s (try_sync_drain_closed_stream s).2.
Proof.
  intros HF. unfold try_sync_drain_closed_stream, is_readable_stream_locked.
  destruct (disturbed (strm s)), (reader (strm s)) eqn:Hr; try done. cbn [orb].
  destruct (state (strm s)) eqn:Hst; try done. destruct (close_requested (ctrl s)); cbn [negb snd]; [|done].
  destruct HF as [(lost & HI & HO) HP]. destruct (readable_facts lost s HO Hst) as [-> Hd].
  destruct (drain_queue_eq (queue (ctrl s)) s eq_refl) as [total ->]. split; [|done]. split; [|exact HP].
  exists []. split.
  - eapply inv_view; [|apply (inv_queue [] h [] [] (log s ++ [Drained (queue (ctrl s)).*1]) [] s HI)].
    + done.
    + log_simpl. done.
    + log_simpl. rewrite <- (i_fifo _ _ _ _ HI), Hd. cbn. rewrite !app_nil_r. done.
  - split; cbn; try done. intros _. apply requests_none. done.
Qed.

(** ** Calls, settlements and jobs *)

Lemma call_full source run h c s :
  pulling (ctrl s) = true ∨ (forall h, good h run) -> full h s -> keeps h s (run_call source run c s).
Proof.
  intros Hrun HF. destruct c; cbn [run_call].
  - unfold enqueue. destruct (can_close_or_enqueue s); cbn [negb]; [|exists s; done].
    destruct (enqueue_full source run h chunk size s ltac:(naive_solver) HF) as (r & s' & -> & H). exists s'. done.
  - unfold close. destruct (can_close_or_enqueue s); cbn [negb snd]; [|exists s; done].
    destruct (controller_close_full h s HF). eexists. done.
  - destruct (controller_error_full e h s HF). eexists. done.
  - destruct (get_reader s) as [[i s']|] eqn:Hg; [|exists s; done].
    destruct (get_reader_full h s i s' HF Hg). exists s'. done.
  - destruct (read_full source run h i s Hrun HF) as (p & s' & -> & H). exists s'. done.
  - destruct (release_full h i s HF). eexists. done.
  - unfold cancel. destruct (is_readable_stream_locked s); [|destruct (cancel_full h reason s HF) as (p & s' & -> & ? & ?); exists s'; done].
    eexists. split; [done|]. split; [apply full_new; done|done].
  - unfold reader_cancel. destruct (attached_reader i s) eqn:Ha; cbn [negb].
    + rewrite <- (attached_current i h s HF Ha). destruct (cancel_full h reason s HF) as (p & s' & -> & ? & ?). exists s'. done.
    + eexists. split; [done|]. split; [apply full_new; done|done].
  - destruct (drain_full h s HF). eexists. done.
Qed.

Lemma inner_good source h : good h (inner_call source).
Proof.
  intros c s HF Hp. destruct (call_full source (fun _ _ => None) h c s (or_introl Hp) HF) as (s' & Hs & HF' & Hq).
  exists s'. split; [done|]. split; [done|]. apply Hq. done.
Qed.

Lemma pulls_delete i p r s :
  reactions s !! i = Some (p, r) ->
  pulls s = pulls (set_reactions (delete i (reactions s)) s) + if decide (r = OnPull) then 1 else 0.
Proof.
  intros Hi. unfold pulls. cbn. rewrite <- (take_drop_middle _ _ _ Hi) at 1. rewrite delete_take_drop.
  rewrite !filter_app, !length_app, filter_cons. cbn. destruct (decide (r = OnPull)); cbn; lia.
Qed.

Lemma full_delete h i p r s :
  full h s -> reactions s !! i = Some (p, r) -> full h (set_reactions (delete i (reactions s)) s).
Proof.
  intros HF Hi. eapply full_view; [..|exact HF]; try done.
  - repeat split; try done. intros x q Hq. cbn in Hq. rewrite delete_take_drop in Hq.
    apply elem_of_app in Hq as [Hq|Hq]; [eapply elem_of_take in Hq as (j & Hj & _); eapply list_elem_of_lookup_2; done|].
    apply list_elem_of_lookup in Hq as [j Hj]. rewrite lookup_drop in Hj. eapply list_elem_of_lookup_2; done.
  - destruct HF as [_ HP]. unfold one_pull in *. pose proof (pulls_delete i p r s Hi). cbn. lia.
Qed.

Lemma run_job_full source h i s : full h s -> exists s', run_job source i s = Some s' ∧ full h s'.
Proof.
  intros HF. unfold run_job. destruct (reactions s !! i) as [[p r]|] eqn:Hi; [|exists s; done].
  pose proof (full_delete h i p r s HF Hi) as HF1. pose proof (pulls_delete i p r s Hi) as Hpd.
  set (s1 := set_reactions _ s) in *.
  assert (Hr : forall rej, exists s', react source r rej s1 = Some s' ∧ full h s').
  { intros rej. destruct r; cbn [react].
    - unfold on_start. destruct rej as [e|]; [eexists; split; [done|]; apply controller_error_full; done|].
      destruct (call_pull_full source (inner_call source) h (reader (strm s1)) (set_started true s1)) as (s' & Hs & HF' & _);
        [right; apply inner_good|eapply full_view; [..|exact HF1]; try done; apply HF1|].
      exists s'. done.
    - unfold on_pull. destruct rej as [e|]; [eexists; split; [done|]; apply controller_error_full; done|].
      assert (HF2 : full h (set_pulling false s1)).
      { eapply full_view; [..|exact HF1]; try done. unfold one_pull. cbn. destruct HF as [_ HP]. unfold one_pull in HP.
        rewrite (pulls_eq s1) by done. rewrite decide_True in Hpd by done. destruct (pulling (ctrl s)); lia. }
      cbn [pull_again ctrl set_pulling set_ctrl]. destruct (pull_again _); [|eexists; done].
      destruct (call_pull_full source (inner_call source) h (reader (strm s1)) (set_pull_again false (set_pulling false s1))) as (s' & Hs & HF' & _);
        [right; apply inner_good|eapply full_view; [..|exact HF2]; try done; apply HF2|].
      exists s'. done.
    - eexists. split; [done|]. destruct HF1 as [(lost & HI & HO) HP].
      split; [|eapply one_pull_quiet; [apply settle_quiet|done]]. exists lost. split; [|apply ok_settle; done].
      apply (inv_settle_other _ _ _ _ _ _ ForOther); [done| |done]. destruct HF as [(lost' & HI' & _) _].
      apply (i_cancelp _ _ _ _ HI' p). eapply list_elem_of_lookup_2. exact Hi. }
  destruct (promises s !! p) as [[k []]|]; try apply Hr; exists s; done.
Qed.

Lemma settle_source_full h p rejection s : full h s -> full h (settle_source p rejection s).
Proof.
  intros HF. unfold settle_source. destruct (promises s !! p) as [[[] r]|] eqn:Hp; try done.
  destruct HF as [(lost & HI & HO) HP].
  split; [|eapply one_pull_quiet; [apply settle_quiet|done]]. exists lost. split; [|apply ok_settle; done].
  eapply inv_settle_other; [done|unfold kind_at; rewrite Hp; reflexivity|done].
Qed.

Lemma act_full source h a s : full h s -> exists s', act source a s = Some s' ∧ full h s'.
Proof.
  intros HF. destruct a; cbn [act].
  - destruct (call_full source (inner_call source) h c s (or_intror (inner_good source)) HF) as (s' & ? & ? & _). exists s'. done.
  - eexists. split; [done|]. apply settle_source_full. done.
  - apply run_job_full. done.
Qed.

(** ** Reachable streams *)

Inductive reachable (source : list event -> list call) : st -> Prop :=
| reachable_new hwm : reachable source (set_up_controller hwm)
| reachable_act a s s' : reachable source s -> act source a s = Some s' -> reachable source s'.

Definition no_hole (p : nat) : option value := None.

Lemma set_up_full hwm : full no_hole (set_up_controller hwm).
Proof.
  split; [|unfold one_pull; cbn; apply le_n]. exists []. split.
  - split; try done; try (by intros ? Hp; inversion Hp).
    + intros x p Hp. cbn in Hp. apply list_elem_of_singleton in Hp. congruence.
    + constructor.
    + exists []. done.
  - split; try done. intros _. split; [done|]. intros [r Hr]. inversion Hr.
Qed.

Lemma reachable_full source s : reachable source s -> full no_hole s.
Proof.
  induction 1 as [hwm|a s s' _ IH Ha]; [apply set_up_full|].
  destruct (act_full source no_hole a s IH) as (s2 & H2 & HF). congruence.
Qed.

(** ** Theorems *)

(** C8: The reads of a stream, in the order in which they were made, are first
    the answered ones and then those that wait.  The chunks they gave, then
    those taken at once when the stream was drained, then those in the queue,
    are the chunks accepted by [enqueue] in their order, except for those
    discarded when the stream failed or was cancelled. *)
Theorem readable_fifo source s :
  reachable source s ->
  (exists answered, reads (log s) = answered ++ requests s ∧
    (forall p, p ∈ answered -> promises s !! p <> Some (ForRead, Pending)) ∧
    (forall p, p ∈ requests s -> promises s !! p = Some (ForRead, Pending))) ∧
  (exists lost, delivered s ++ drained (log s) ++ (queue (ctrl s)).*1 ++ lost = accepted (log s) ∧
    (lost <> [] -> cancelled (log s) ∨ exists e, state (strm s) = Errored e)).
Proof.
  intros HR. destruct (reachable_full source s HR) as [(lost & HI & HO) _]. split.
  - destruct (i_order _ _ _ _ HI) as [A HA]. cbn in HA. exists A. split; [done|].
    pose proof (i_nodup _ _ _ _ HI) as Hnd. rewrite HA in Hnd. apply NoDup_app in Hnd as (_ & Hd & _).
    split; intros p Hp.
    + intros Hw. apply (Hd p Hp). apply (i_wait _ _ _ _ HI p); [rewrite HA; set_solver|done].
    + apply (i_wait _ _ _ _ HI p); [rewrite HA|]; set_solver.
  - exists lost. split; [|apply (o_lost _ _ HO)]. exact (i_fifo _ _ _ _ HI).
Qed.

(** C9: A read waits only while the stream is readable, its queue is empty,
    nobody asked to close it and the reader is still attached: closing,
    erroring, cancelling and releasing the lock answer every read, and a read
    never waits for a chunk that is there. *)
Theorem readable_reads_settle source s p :
  reachable source s -> p ∈ reads (log s) -> promises s !! p = Some (ForRead, Pending) ->
  state (strm s) = Readable ∧ queue (ctrl s) = [] ∧ close_requested (ctrl s) = false ∧
    exists i rd, reader (strm s) = Some i ∧ readers s !! i = Some rd ∧ p ∈ read_requests rd.
Proof.
  intros HR Hp Hw. destruct (reachable_full source s HR) as [(lost & HI & HO) _].
  assert (Hin : p ∈ requests s) by (apply (i_wait _ _ _ _ HI p Hp); done).
  assert (Hne : requests s <> []) by (intros He; rewrite He in Hin; inversion Hin).
  assert (Hst : state (strm s) = Readable).
  { destruct (state (strm s)) eqn:Hs; [done|..]; rewrite (o_requests _ _ HO) in Hne; congruence. }
  pose proof (o_queue _ _ HO Hne) as Hq. repeat split; try done.
  - destruct (close_requested _) eqn:Hc; [|done]. destruct (o_closing _ _ HO Hst Hc Hq).
  - unfold requests, reader_at in Hin. destruct (reader (strm s)) as [i|]; [|inversion Hin]. cbn in Hin.
    destruct (readers s !! i) as [rd|] eqn:Hi; [|inversion Hin]. exists i, rd. done.
Qed.

(** C10: Nothing that happens to a stream panics, also when the source calls
    the stream from its [pull], and at most one call of [pull] is open. *)
Theorem readable_never_panics source s a :
  reachable source s -> exists s', act source a s = Some s' ∧ pulls s' <= 1.
Proof.
  intros HR. destruct (act_full source no_hole a s (reachable_full source s HR)) as (s' & Hs & [_ HP]).
  exists s'. split; [done|]. unfold one_pull in HP. destruct (pulling _); lia.
Qed.

(** ** A stream at work *)

Fixpoint acts (source : list event -> list call) (l : list action) (s : st) : option st :=
  match l with
  | [] => Some s
  | a :: l => let! s := act source a s in acts source l s
  end.

Lemma reachable_acts source l s s' : reachable source s -> acts source l s = Some s' -> reachable source s'.
Proof.
  revert s. induction l as [|a l IH]; intros s HR; cbn; [intros [= <-]; done|].
  destruct (act source a s) as [s1|] eqn:Ha; [|done]. cbn. apply IH. eapply reachable_act; done.
Qed.

(** A source that enqueues a chunk in each of its first two pulls and closes
    the stream in the third. *)
Definition counter (l : list event) : list call :=
  let n := length (filter (fun e => e = SourcePull) l) in
  if (n <=? 2)%nat then [CEnqueue (Val (Z.of_nat n)) (Ok (Some one))] else [CClose].

(** A read that the first pull answers, and two more; the last one waits. *)
Definition session : list action :=
  [ACall CGetReader; ACall (CRead 0); ASettle 1 None; AJob 0; ASettle 4 None; AJob 0; ACall (CRead 0); ACall (CRead 0)].

Definition after_session : st :=
  match acts counter session (set_up_controller one) with Some s => s | None => set_up_controller one end.

Example session_reads :
  reads (log after_session) = [3; 6; 7] ∧ requests after_session = [7] ∧ delivered after_session = [Val 1; Val 2].
Proof. vm_compute. done. Qed.

Lemma session_reachable : reachable counter after_session.
Proof. apply (reachable_acts counter session (set_up_controller one)); [apply reachable_new|]. vm_compute. reflexivity. Qed.

(** The third pull closes the stream, and the read that waited is done. *)
Example session_end :
  match acts counter [ASettle 5 None; AJob 0] after_session with
  | Some s => state (strm s) = Closed ∧ requests s = [] ∧ promises s !! 7 = Some (ForRead, Fulfilled RDone)
  | None => False
  end.
Proof. vm_compute. done. Qed.

Lemma readable_fifo_witness :
  exists lost, delivered after_session ++ drained (log after_session) ++ (queue (ctrl after_session)).*1 ++ lost =
    accepted (log after_session) ∧ lost = [].
Proof.
  destruct (readable_fifo counter after_session session_reachable) as [_ (lost & Hl & Hn)]. exists lost.
  split; [exact Hl|]. destruct lost; [reflexivity|]. vm_compute in Hl. discriminate Hl.
Defined.

Lemma readable_reads_settle_witness :
  state (strm after_session) = Readable ∧ queue (ctrl after_session) = [] ∧ close_requested (ctrl after_session) = false ∧
    exists i rd, reader (strm after_session) = Some i ∧ readers after_session !! i = Some rd ∧ 7 ∈ read_requests rd.
Proof.
  apply (readable_reads_settle counter after_session 7 session_reachable).
  - vm_compute. apply list_elem_of_further, list_elem_of_further, list_elem_of_here.
  - vm_compute. reflexivity.
Defined.

Lemma readable_never_panics_witness :
  exists s', act counter (ACall (CRead 0)) after_session = Some s' ∧ pulls s' <= 1.
Proof. apply (readable_never_panics counter after_session (ACall (CRead 0)) session_reachable). Defined.
