(* ===== verification/Blob.v ===== *)
(** * Blobs and files (src/modules/llrt_buffer/src/blob.rs and file.rs)

    The bytes of a blob from its parts, with the conversion of line endings,
    slices and types.  The parts of a blob are given by what the code tells
    apart; the text of a string is its lossy text, that of another value the
    text that the engine coerces it to.  The formatters of the crates itoa and
    ryu are section variables. *)
From Stdlib Require Import ZArith Lia SpecFloat.
From stdpp Require Import base list numbers strings.
From S2P Require Import Prelude F64 Utf8 RustStr Numbers.
Local Open Scope Z_scope.

Inductive ending_type := Native | Transparent.

Record blob := mkBlob { data : list Z; mime_type : list Z }.

Record file := mkFile { file_blob : blob; filename : list Z }.

(** The elements of an array that is a part. *)
Inductive element := EString (s : list Z) | EInt (n : Z) | EFloat (x : f64) | EOther.

(** A part: an array, a blob, a file, a view or buffer ([None] is detached), a
    string, or a value that is coerced to a string. *)
Inductive part :=
| PArray (elems : list element)
| PBlob (b : blob)
| PFile (f : file)
| PBuffer (bytes : option (list Z))
| PString (s : list Z)
| PValue (s : result (list Z) (list Z)).

Definition slice (bytes : list Z) (a b : nat) : list Z := take (b - a) (drop a bytes).

(** ** Types *)

Definition normalize_type (t : list Z) : list Z :=
  if forallb (in_range 0x20 0x7E) t then ascii_lowercase t else [].

(** ** Slices *)

(** A start or end relative to the length. *)
Definition relative (len : nat) (x : Z) : nat :=
  if x <? 0 then Z.to_nat (Z.max (Z.of_nat len + x) 0) else Nat.min len (Z.to_nat x).

Definition slice_blob (b : blob) (start end_ : option Z) (content_type : option (list Z)) : blob :=
  let len := length (data b) in
  let start := relative len (default 0 start) in
  let end_ := relative len (default (Z.of_nat len) end_) in
  mkBlob (take (end_ - start) (drop start (data b))) (default [] (normalize_type <$> content_type)).

(** [f64::round_ties_even] and the clamp to [isize]. *)
Definition round_ties_even (a : f64) : Z :=
  match a with
  | S754_finite s m e =>
      let n :=
        if 0 <=? e then Zpos m * 2 ^ e
        else
          let q := Zpos m / 2 ^ (- e) in
          let r := Zpos m mod 2 ^ (- e) in
          let h := 2 ^ (- e - 1) in
          if (r <? h) || ((r =? h) && Z.even q) then q else q + 1 in
      if s then - n else n
  | _ => 0
  end.

Definition clamp_long_long (value : f64) : Z :=
  match value with
  | S754_nan => 0
  | S754_infinity s => if s then - 2 ^ 63 else 2 ^ 63 - 1
  | _ => Z.max (- 2 ^ 63) (Z.min (2 ^ 63 - 1) (round_ties_even value))
  end.

(** ** Line endings *)

(** The loop over [iter], which is the rest of the bytes from [i]; the bytes
    from [start] to [i] are not copied yet.  It gives the data and the start. *)
Fixpoint endings_loop (line_ending bytes iter : list Z) (start i : nat) (data : list Z) : list Z * nat :=
  match iter with
  | [] => (data, start)
  | byte :: iter =>
      if byte =? 13 then
        match iter with
        | [] => (data, start)
        | next_byte :: iter =>
            let data := data ++ slice bytes start i in
            let data := data ++ if negb (next_byte =? 10) then [13; next_byte] else line_ending in
            endings_loop line_ending bytes iter (i + 2) (i + 2) data
        end
      else if (byte =? 10) && negb (bool_decide (head line_ending = Some 10)) then
        endings_loop line_ending bytes iter (i + 1) (i + 1) (data ++ slice bytes start i ++ line_ending)
      else endings_loop line_ending bytes iter start (i + 1) data
  end.

Definition convert_endings (line_ending bytes data : list Z) : list Z :=
  let '(data, start) := endings_loop line_ending bytes bytes 0 0 data in
  if (start <? length bytes)%nat then data ++ slice bytes start (length bytes) else data.

(** ** Parts *)

Section Parts.
Context (itoa : Z -> list Z) (ryu : f64 -> list Z) (line_ending : list Z).

Definition array_to_string (elems : list element) : list Z :=
  join_with [44] ((fun e => match e with
                            | EString s => s
                            | EInt n => itoa n
                            | EFloat x => ryu x
                            | EOther => []
                            end) <$> elems).

Definition detached_error : list Z := str "Cannot create a blob with detached buffer".

Definition process_part (endings : ending_type) (data : list Z) (p : part) : result (list Z) (list Z) :=
  match p with
  | PArray elems => Ok (data ++ array_to_string elems)
  | PBlob b => Ok (data ++ Blob.data b)
  | PFile f =>
      let b := file_blob f in
      Ok (data ++ Blob.data (slice_blob b (Some 0) (Some (Z.of_nat (length (Blob.data b)))) (Some (mime_type b))))
  | PBuffer None => Err detached_error
  | PBuffer (Some bytes) => Ok (data ++ bytes)
  | PString s =>
      Ok (match endings with Transparent => data ++ s | Native => convert_endings line_ending s data end)
  | PValue s =>
      let? s := s in
      Ok (match endings with Transparent => data ++ s | Native => convert_endings line_ending s data end)
  end.

Fixpoint process_parts (endings : ending_type) (data : list Z) (parts : list part) : result (list Z) (list Z) :=
  match parts with
  | [] => Ok data
  | p :: parts => let? data := process_part endings data p in process_parts endings data parts
  end.

Definition parse_endings (value : option (list Z)) : result (list Z) (option ending_type) :=
  match value with
  | None => Ok None
  | Some v =>
      if bool_decide (v = str "transparent") then Ok (Some Transparent)
      else if bool_decide (v = str "native") then Ok (Some Native)
      else Err (str "expected 'endings' to be either 'transparent' or 'native'")
  end.

(** [None] for the parts is no argument. *)
Definition from_parts (parts : option (list part)) (endings type : option (list Z)) : result (list Z) blob :=
  let? parsed := parse_endings endings in
  let? bytes := process_parts (default Transparent parsed) [] (default [] parts) in
  Ok (mkBlob bytes (default [] (normalize_type <$> type))).

(** [File::from_bytes] gives the bytes to the engine as an array, whose
    numbers are the parts. *)
Definition file_from_bytes (bytes : list Z) (filename : list Z) (type : option (list Z)) : result (list Z) file :=
  let? b := from_parts (Some ((fun b => PValue (Ok (numeral 10 b))) <$> bytes)) None (Some (default [] type)) in
  Ok (mkFile b filename).

Definition blob_from_bytes (bytes : list Z) (content_type : option (list Z)) : blob :=
  mkBlob bytes (default [] (normalize_type <$> content_type)).
End Parts.

(** ** Lemmas *)

(** What the conversion does, character by character. *)
Fixpoint native (line_ending s : list Z) : list Z :=
  match s with
  | [] => []
  | c :: s =>
      if c =? 13 then
        match s with
        | [] => [13]
        | d :: s => (if d =? 10 then line_ending else [13; d]) ++ native line_ending s
        end
      else (if (c =? 10) && negb (bool_decide (head line_ending = Some 10)) then line_ending else [c]) ++ native line_ending s
  end.

Lemma slice_all bytes a : slice bytes a (length bytes) = drop a bytes.
Proof. unfold slice. apply take_ge. rewrite length_drop. lia. Qed.

Lemma slice_empty bytes a : slice bytes a a = [].
Proof. unfold slice. rewrite Nat.sub_diag. apply take_0. Qed.

Lemma slice_snoc bytes a i c : (a <= i)%nat -> bytes !! i = Some c -> slice bytes a (i + 1) = slice bytes a i ++ [c].
Proof.
  intros Ha Hi. unfold slice. replace (i + 1 - a)%nat with (S (i - a)) by lia. apply take_S_r.
  rewrite lookup_drop. replace (a + (i - a))%nat with i by lia. done.
Qed.

Lemma drop_cons_lookup (bytes : list Z) i c s : drop i bytes = c :: s -> bytes !! i = Some c /\ drop (i + 1) bytes = s.
Proof.
  intros Hd. split.
  - rewrite <- (Nat.add_0_r i), <- lookup_drop, Hd. done.
  - rewrite <- drop_drop, Hd. done.
Qed.

(** The end of the loop: what was not copied is. *)
Definition finished (bytes data : list Z) (start : nat) : list Z :=
  if (start <? length bytes)%nat then data ++ slice bytes start (length bytes) else data.

Lemma finished_eq bytes data start : finished bytes data start = data ++ drop start bytes.
Proof.
  unfold finished. rewrite slice_all. destruct (Nat.ltb_spec start (length bytes)); [done|].
  rewrite drop_ge by done. rewrite app_nil_r. done.
Qed.

Lemma slice_drop bytes start i s : (start <= i)%nat -> drop i bytes = s -> drop start bytes = slice bytes start i ++ s.
Proof.
  intros Hi <-. unfold slice. rewrite <- (take_drop (i - start) (drop start bytes)) at 1. rewrite drop_drop.
  replace (start + (i - start))%nat with i by lia. done.
Qed.

(** The bytes not copied yet go before those that the loop still reads. *)
Lemma endings_loop_native le bytes m : forall iter start i data,
  (length iter <= m)%nat -> drop i bytes = iter -> (start <= i)%nat ->
  let '(data', start') := endings_loop le bytes iter start i data in
  finished bytes data' start' = data ++ slice bytes start i ++ native le iter.
Proof.
  induction m as [|m IH]; intros iter start i data Hlen Hd Hi.
  - destruct iter; [|cbn in Hlen; lia]. cbn. rewrite finished_eq, (slice_drop _ _ _ _ Hi Hd). done.
  - destruct iter as [|c iter]; [cbn; rewrite finished_eq, (slice_drop _ _ _ _ Hi Hd); done|].
    destruct (drop_cons_lookup _ _ _ _ Hd) as [Hc Hd1]. cbn [length] in Hlen. cbn [endings_loop native].
    destruct (Z.eqb_spec c 13) as [->|Hn].
    + destruct iter as [|d iter]; [rewrite finished_eq, (slice_drop _ _ _ _ Hi Hd); done|].
      destruct (drop_cons_lookup _ _ _ _ Hd1) as [_ Hd2]. cbn [length] in Hlen.
      replace (i + 1 + 1)%nat with (i + 2)%nat in Hd2 by lia.
      match goal with |- context [endings_loop le bytes iter ?a ?b ?d'] => specialize (IH iter a b d' ltac:(lia) Hd2 ltac:(lia)) end.
      destruct (endings_loop _ _ _ _ _ _) as [data' start']. rewrite IH, slice_empty.
      destruct (Z.eqb_spec d 10) as [->|Hd10]; cbn [negb]; rewrite <- !app_assoc; done.
    + destruct ((c =? 10) && _).
      * match goal with |- context [endings_loop le bytes iter ?a ?b ?d'] => specialize (IH iter a b d' ltac:(lia) Hd1 ltac:(lia)) end.
        destruct (endings_loop _ _ _ _ _ _) as [data' start']. rewrite IH, slice_empty, <- !app_assoc. done.
      * match goal with |- context [endings_loop le bytes iter ?a ?b ?d'] => specialize (IH iter a b d' ltac:(lia) Hd1 ltac:(lia)) end.
        destruct (endings_loop _ _ _ _ _ _) as [data' start']. rewrite IH, (slice_snoc bytes start i c) by done.
        rewrite <- !app_assoc. done.
Qed.

Lemma convert_endings_native le s data : convert_endings le s data = data ++ native le s.
Proof.
  unfold convert_endings. pose proof (endings_loop_native le s (length s) s 0 0 data (le_n _) eq_refl (le_n _)) as H.
  destruct (endings_loop _ _ _ _ _ _) as [data' start']. unfold finished in H. rewrite H, slice_empty. done.
Qed.

(** The text of a part. *)
Definition part_bytes (itoa : Z -> list Z) (ryu : f64 -> list Z) (line_ending : list Z) (endings : ending_type) (p : part)
    : result (list Z) (list Z) :=
  let text s := match endings with Transparent => s | Native => native line_ending s end in
  match p with
  | PArray elems => Ok (array_to_string itoa ryu elems)
  | PBlob b => Ok (data b)
  | PFile f => Ok (data (file_blob f))
  | PBuffer (Some bytes) => Ok bytes
  | PBuffer None => Err detached_error
  | PString s => Ok (text s)
  | PValue (Ok s) => Ok (text s)
  | PValue (Err e) => Err e
  end.

Lemma slice_blob_whole b t :
  data (slice_blob b (Some 0) (Some (Z.of_nat (length (data b)))) t) = data b.
Proof.
  unfold slice_blob. cbn [data]. set (n := length (data b)).
  change (take (relative n (Z.of_nat n) - relative n 0) (drop (relative n 0) (data b)) = data b).
  assert (Hn : relative n (Z.of_nat n) = n).
  { unfold relative. destruct (Z.ltb_spec (Z.of_nat n) 0); [lia|]. rewrite Nat2Z.id. apply Nat.min_id. }
  assert (H0 : relative n 0 = 0%nat) by (unfold relative; apply Nat.min_0_r).
  rewrite Hn, H0, drop_0. apply take_ge. lia.
Qed.

Lemma process_part_eq itoa ryu le endings data p :
  process_part itoa ryu le endings data p = let? s := part_bytes itoa ryu le endings p in Ok (data ++ s).
Proof.
  destruct p as [| |f|[]| |[]], endings; cbn [process_part part_bytes result_bind];
    rewrite ?slice_blob_whole, ?convert_endings_native; done.
Qed.

Fixpoint concat_results (rs : list (result (list Z) (list Z))) : result (list Z) (list Z) :=
  match rs with
  | [] => Ok []
  | r :: rs => let? s := r in let? t := concat_results rs in Ok (s ++ t)
  end.

Lemma process_parts_eq itoa ryu le endings parts : forall data,
  process_parts itoa ryu le endings data parts =
    let? s := concat_results (part_bytes itoa ryu le endings <$> parts) in Ok (data ++ s).
Proof.
  induction parts as [|p parts IH]; intros data; cbn; [rewrite app_nil_r; done|].
  rewrite process_part_eq. destruct (part_bytes _ _ _ _ p); cbn; [|done]. rewrite IH.
  destruct (concat_results _); cbn; [|done]. rewrite app_assoc. done.
Qed.

(** ** Theorems *)

(** A blob holds the bytes of its parts one after the other, with the
    type in lower case if it is printable; the strings of a blob with native
    endings are copied with every carriage return that a line feed follows,
    after the characters taken in pairs, turned into the line ending, and on
    Windows every other line feed as well.  A detached buffer, a value without
    text and an unknown option throw. *)
Theorem blob_from_parts itoa ryu le parts endings type :
  from_parts itoa ryu le parts endings type =
    (let? e := parse_endings endings in
     let? bytes := concat_results (part_bytes itoa ryu le (default Transparent e) <$> default [] parts) in
     Ok (mkBlob bytes (default [] (normalize_type <$> type)))).
Proof.
  unfold from_parts. destruct (parse_endings endings) as [e|]; cbn [result_bind]; [|done].
  rewrite process_parts_eq. destruct (concat_results _); done.
Qed.

(** A slice stays inside the blob and holds the bytes between two positions. *)
Lemma slice_blob_bounds b start end_ t :
  let n := length (data b) in
  let s := relative n (default 0 start) in
  let e := relative n (default (Z.of_nat n) end_) in
  (s <= n)%nat /\ (e <= n)%nat /\
  forall i, data (slice_blob b start end_ t) !! i = if decide (s + i < e)%nat then data b !! (s + i)%nat else None.
Proof.
  intros n s e.
  assert (Hrel : forall x, (relative n x <= n)%nat).
  { intros x. unfold relative. destruct (Z.ltb_spec x 0); lia. }
  split; [apply Hrel|]. split; [apply Hrel|]. intros i. unfold slice_blob. cbn [data]. fold n.
  change (take (e - s) (drop s (data b)) !! i = if decide (s + i < e)%nat then data b !! (s + i)%nat else None).
  rewrite lookup_take, lookup_drop. repeat case_decide; try done; lia.
Qed.

(** [File::from_bytes] stores the decimal digits of the bytes. *)
Theorem file_bytes_become_digits itoa ryu le bytes filename type :
  exists b, file_from_bytes itoa ryu le bytes filename type = Ok (mkFile b filename) /\
    data b = concat (numeral 10 <$> bytes) /\ mime_type b = normalize_type (default [] type).
Proof.
  assert (Hc : concat_results (part_bytes itoa ryu le Transparent <$> ((fun b => PValue (Ok (numeral 10 b))) <$> bytes)) =
    Ok (concat (numeral 10 <$> bytes))).
  { induction bytes as [|x bytes IH]; [done|]. cbn. rewrite IH. done. }
  exists (mkBlob (concat (numeral 10 <$> bytes)) (normalize_type (default [] type))). split; [|done].
  unfold file_from_bytes, from_parts. cbn [parse_endings result_bind]. rewrite process_parts_eq.
  change (default Transparent None) with Transparent.
  match goal with |- context [part_bytes itoa ryu le Transparent <$> ?l] =>
    change l with ((fun b => PValue (Ok (numeral 10 b))) <$> bytes) end.
  rewrite Hc. done.
Qed.

(** "hi" becomes "104105". *)
Example file_of_hi :
  file_from_bytes (fun _ => []) (fun _ => []) [10] (str "hi") (str "a.txt") (Some (str "Text/Plain")) =
    Ok (mkFile (mkBlob (str "104105") (str "text/plain")) (str "a.txt")).
Proof. vm_compute. reflexivity. Qed.

(** Native endings: a carriage return that another one follows hides the line
    feed behind it. *)
Example native_endings :
  convert_endings [10] (str "a" ++ [13; 10] ++ str "b") [] = str "a" ++ [10] ++ str "b" /\
  convert_endings [10] (str "a" ++ [13; 13; 10] ++ str "b") [] = str "a" ++ [13; 13; 10] ++ str "b".
Proof. vm_compute. done. Qed.
