(* ===== verification/FormData.v ===== *)
(** * Form data (src/modules/llrt_fetch/src/form_data.rs)

    The entries of a form, their live iteration, and the two directions of the
    multipart encoding: what is written for a form and what is read from the
    body of a request or a response.  The random boundary is an argument; the
    text of a value that is neither a file, a blob nor a string is what the
    engine coerces it to. *)
From Stdlib Require Import ZArith Lia SpecFloat.
From stdpp Require Import base list numbers strings sets.
From S2P Require Import Prelude F64 Utf8 RustStr Numbers Blob.
Local Open Scope Z_scope.

Inductive form_value := Text (s : list Z) | File (f : file).

Abbreviation entries := (list (list Z * form_value)) (only parsing).

(** A value given to [append] or [set]. *)
Inductive input :=
| InFile (f : file)
| InBlob (b : blob)
| InString (s : list Z)
| InOther (text : option (list Z)).

Section Form.
Context (itoa : Z -> list Z) (ryu : f64 -> list Z) (line_ending : list Z).

Abbreviation from_bytes := (file_from_bytes itoa ryu line_ending).

(** ** The entries *)

Definition value_to_form_entry (name : list Z) (value : input) (filename : option (list Z))
    : result (list Z) (list Z * form_value) :=
  match value with
  | InFile f =>
      match filename with
      | Some n => Ok (name, File (mkFile (file_blob f) n))
      | None => Ok (name, File f)
      end
  | InBlob b =>
      let? f := from_bytes (data b) (default (str "blob") filename) (Some (mime_type b)) in
      Ok (name, File f)
  | InString s => Ok (name, Text s)
  | InOther (Some s) => Ok (name, Text s)
  | InOther None => Err (str "Invalid FormData value type")
  end.

Definition append (name : list Z) (value : input) (filename : option (list Z)) (es : list (list Z * form_value))
    : result (list Z) (list (list Z * form_value)) :=
  let? e := value_to_form_entry name value filename in Ok (es ++ [e]).

Definition get (name : list Z) (es : list (list Z * form_value)) : option form_value :=
  snd <$> head (filter (fun e => e.1 = name) es).

Definition get_all (name : list Z) (es : list (list Z * form_value)) : list form_value :=
  snd <$> filter (fun e => e.1 = name) es.

Definition has (name : list Z) (es : list (list Z * form_value)) : bool :=
  existsb (fun e => bool_decide (e.1 = name)) es.

Definition set (name : list Z) (value : input) (filename : option (list Z)) (es : list (list Z * form_value))
    : result (list Z) (list (list Z * form_value)) :=
  let? e := value_to_form_entry name value filename in
  Ok (filter (fun x => x.1 <> e.1) es ++ [e]).

Definition delete (name : list Z) (es : list (list Z * form_value)) : list (list Z * form_value) :=
  filter (fun x => x.1 <> name) es.

(** [FormDataIter::next]: the entry at the index, and the next index. *)
Definition next (index : nat) (es : list (list Z * form_value)) : option (list Z * form_value) * nat :=
  match es !! index with
  | Some e => (Some e, S index)
  | None => (None, index)
  end.

(** ** Writing *)

Definition crlf : list Z := [13; 10].

Definition write_entry (boundary : list Z) (e : list Z * form_value) : list Z :=
  match e.2 with
  | Text text =>
      str "--" ++ boundary ++ crlf ++ str "Content-Disposition: form-data; name=" ++ [34] ++ e.1 ++ [34] ++ crlf ++
      crlf ++ text ++ crlf
  | File f =>
      str "--" ++ boundary ++ crlf ++ str "Content-Disposition: form-data; name=" ++ [34] ++ e.1 ++ [34] ++
      str "; filename=" ++ [34] ++ filename f ++ [34] ++ crlf ++
      str "Content-Type: " ++ mime_type (file_blob f) ++ crlf ++
      crlf ++ data (file_blob f) ++ crlf
  end.

Definition to_multipart_bytes (boundary : list Z) (es : list (list Z * form_value)) : list Z :=
  match es with
  | [] => []
  | _ => concat (write_entry boundary <$> es) ++ str "--" ++ boundary ++ str "--" ++ crlf
  end.

(** ** Reading *)

Definition starts_with_ignore_case (haystack needle : list Z) : bool :=
  (length needle <=? length haystack)%nat && eq_ignore_ascii_case (take (length needle) haystack) needle.

Definition is_quote (c : Z) : bool := c =? 34.

Definition strip_prefix (p s : list Z) : option (list Z) :=
  if starts_with p s then Some (drop (length p) s) else None.

(** [str::find] of a string. *)
Fixpoint find_str (p s : list Z) : option nat :=
  if starts_with p s then Some 0%nat
  else match s with
       | [] => None
       | _ :: s => S <$> find_str p s
       end.

Fixpoint find_map {A B} (f : A -> option B) (l : list A) : option B :=
  match l with
  | [] => None
  | x :: l => match f x with Some y => Some y | None => find_map f l end
  end.

Definition extract_boundary (content_type : list Z) : option (list Z) :=
  find_map (fun part =>
    let part := trim part in
    (fun idx => trim_matches is_quote (trim (drop (idx + length (str "boundary=")) part))) <$> find_str (str "boundary=") part)
    (split_on 59 content_type).

Record parser := mkParser {
  p_entries : list (list Z * form_value);
  current_data : list Z;
  in_headers : bool;
  p_name : option (list Z);
  p_filename : option (list Z);
  p_mime_type : option (list Z);
}.

(** The entry that a boundary ends. *)
Definition flush (p : parser) : result (list Z) (list (list Z * form_value)) :=
  match current_data p, p_name p with
  | _ :: _, Some name =>
      match p_filename p with
      | Some filename =>
          let? f := from_bytes (current_data p) filename (p_mime_type p) in
          Ok (p_entries p ++ [(name, File f)])
      | None => Ok (p_entries p ++ [(name, Text (from_utf8_lossy (current_data p)))])
      end
  | _, _ => Ok (p_entries p)
  end.

(** The name and the file name in the segments of a Content-Disposition. *)
Definition disposition_segment (acc : option (list Z) * option (list Z)) (seg : list Z)
    : option (list Z) * option (list Z) :=
  let seg := trim seg in
  match strip_prefix (str "name=") seg with
  | Some n => (Some (trim_matches is_quote n), acc.2)
  | None =>
      match strip_prefix (str "filename=") seg with
      | Some f => (acc.1, Some (trim_matches is_quote f))
      | None => acc
      end
  end.

Definition header_line (line : list Z) (p : parser) : parser :=
  let line_str := from_utf8_lossy line in
  match trim line_str with
  | [] => mkParser (p_entries p) (current_data p) false (p_name p) (p_filename p) (p_mime_type p)
  | _ =>
      if starts_with_ignore_case line_str (str "content-disposition") then
        let '(name, filename) := foldl disposition_segment (p_name p, p_filename p) (split_on 59 line_str) in
        mkParser (p_entries p) (current_data p) true name filename (p_mime_type p)
      else if starts_with_ignore_case line_str (str "content-type") then
        match split_on 58 line_str !! 1%nat with
        | Some ct => mkParser (p_entries p) (current_data p) true (p_name p) (p_filename p) (Some (trim ct))
        | None => p
        end
      else p
  end.

Definition parse_line (boundary_marker line : list Z) (p : parser) : result (list Z) parser :=
  if starts_with boundary_marker line then
    let? es := flush p in Ok (mkParser es [] true None None None)
  else if in_headers p then Ok (header_line line p)
  else Ok (mkParser (p_entries p) (current_data p ++ line ++ [10]) false (p_name p) (p_filename p) (p_mime_type p)).

Fixpoint parse_lines (boundary_marker : list Z) (lines : list (list Z)) (p : parser) : result (list Z) parser :=
  match lines with
  | [] => Ok p
  | line :: lines => let? p := parse_line boundary_marker line p in parse_lines boundary_marker lines p
  end.

Definition from_multipart_bytes (content_type bytes : list Z) : result (list Z) (list (list Z * form_value)) :=
  match bytes, extract_boundary content_type with
  | [], _ | _, None => Ok []
  | _, Some boundary =>
      let? p := parse_lines (str "--" ++ boundary) (split_on 10 bytes) (mkParser [] [] false None None None) in
      Ok (p_entries p)
  end.

(** [forEach]: the entry at each index is read again, so that the callback's
    changes are seen; [fuel] bounds the number of calls. *)
Fixpoint for_each (fuel index : nat) (callback : list Z * form_value -> list (list Z * form_value) -> list (list Z * form_value))
    (es : list (list Z * form_value)) : option (list (list Z * form_value)) :=
  match es !! index with
  | None => Some es
  | Some e =>
      match fuel with
      | O => None
      | S fuel => for_each fuel (S index) callback (callback e es)
      end
  end.
End Form.

(** ** Text *)

Definition text (s : list Z) : Prop := exists cs, Forall scalar cs /\ s = encode_all cs.

Lemma text_join a b : text a -> text b -> text (a ++ b).
Proof.
  intros (c & Hc & ->) (d & Hd & ->). exists (c ++ d). split; [apply Forall_app; done|]. rewrite encode_all_app. done.
Qed.

Lemma ascii_encode s : forallb (in_range 0 127) s = true -> encode_all s = s /\ Forall scalar s.
Proof.
  induction s as [|c s IH]; intros H; [done|]. cbn [forallb] in H. apply andb_prop in H as [Hc Hs].
  destruct (IH Hs) as [He Hsc]. unfold in_range in Hc. apply andb_prop in Hc as [H1%Z.leb_le H2%Z.leb_le].
  rewrite encode_all_cons, He, utf8_encode_low by lia. split; [done|]. constructor; [left; lia|done].
Qed.

Lemma text_ascii s : forallb (in_range 0 127) s = true -> text s.
Proof. intros H. destruct (ascii_encode s H) as [He Hs]. exists s. done. Qed.

Lemma chars_encode cs : Forall scalar cs -> chars (encode_all cs) = cs.
Proof.
  intros Hs. unfold chars. rewrite <- (app_nil_r (encode_all cs)), utf8_decode_encode_all by done. cbn. rewrite app_nil_r.
  clear Hs. induction cs as [|c cs IH]; [done|]. cbn. f_equal. exact IH.
Qed.

Lemma lossy_text s : text s -> from_utf8_lossy s = s.
Proof. intros (cs & Hs & ->). apply from_utf8_lossy_encode_all. done. Qed.

Lemma drop_while_id p s : match s with c :: _ => p c = false | [] => True end -> drop_while p s = s.
Proof. destruct s as [|c s]; [done|]. cbn. intros ->. done. Qed.

(** A text between two characters that stay is not trimmed. *)
Lemma trim_matches_id p a s b : p a = false -> p b = false -> trim_matches p (a :: s ++ [b]) = a :: s ++ [b].
Proof.
  intros Ha Hb. unfold trim_matches. rewrite (drop_while_id p (a :: s ++ [b])) by done.
  change (a :: s ++ [b]) with ((a :: s) ++ [b]). rewrite rev_app_distr. cbn [rev app].
  rewrite drop_while_id by done. cbn [rev]. rewrite rev_app_distr, rev_involutive. done.
Qed.

Lemma trim_pad a s b :
  forallb is_whitespace a = true -> forallb is_whitespace b = true -> forallb (in_range 0 127) a = true ->
  forallb (in_range 0 127) b = true -> text s -> trim (a ++ s ++ b) = trim s.
Proof.
  intros Ha Hb Ha' Hb' (cs & Hs & ->). destruct (ascii_encode a Ha') as [Ea Sa], (ascii_encode b Hb') as [Eb Sb].
  unfold trim. rewrite <- Ea, <- Eb at 1. rewrite <- !encode_all_app, !chars_encode.
  - rewrite trim_matches_pad by done. done.
  - done.
  - apply Forall_app. split; [done|]. apply Forall_app. done.
Qed.

Lemma trim_id a s b :
  in_range 33 126 a = true -> in_range 33 126 b = true -> text s -> trim (a :: s ++ [b]) = a :: s ++ [b].
Proof.
  intros Ha Hb (cs & Hs & ->).
  assert (Hw : forall c, in_range 33 126 c = true -> is_whitespace c = false /\ scalar c /\ utf8_encode c = [c]).
  { intros c Hc. unfold in_range in Hc. apply andb_prop in Hc as [H1%Z.leb_le H2%Z.leb_le]. split; [|split; [left; lia|apply utf8_encode_low; lia]].
    unfold is_whitespace, in_range. repeat match goal with |- context [?x =? ?y] => destruct (Z.eqb_spec x y); [lia|] end.
    repeat match goal with |- context [?x <=? ?y] => destruct (Z.leb_spec x y) end; try lia; done. }
  destruct (Hw a Ha) as (Wa & Sa & Ea), (Hw b Hb) as (Wb & Sb & Eb).
  assert (Henc : a :: encode_all cs ++ [b] = encode_all (a :: cs ++ [b])).
  { rewrite encode_all_cons, encode_all_app, Ea, encode_all_cons, Eb. done. }
  rewrite Henc. unfold trim. rewrite chars_encode by (constructor; [done|]; apply Forall_app; split; [done|]; constructor; done).
  rewrite trim_matches_id by done. done.
Qed.

Lemma trim_quotes s : 34 ∉ s -> trim_matches is_quote (34 :: s ++ [34]) = s.
Proof.
  intros Hs. change (34 :: s ++ [34]) with ([34] ++ s ++ [34]). rewrite trim_matches_pad by done.
  unfold trim_matches.
  assert (Hn : forall t, 34 ∉ t -> drop_while is_quote t = t).
  { intros t Ht. apply drop_while_id. destruct t as [|c t]; [done|]. unfold is_quote. apply Z.eqb_neq. set_solver. }
  rewrite (Hn s Hs), Hn, rev_involutive; [done|]. rewrite list_elem_of_In, <- in_rev, <- list_elem_of_In. done.
Qed.

(** ** Headers of a part *)

(** A name or file name that the header can hold. *)
Definition plain (s : list Z) : Prop := text s /\ (34 ∉ s) /\ (59 ∉ s) /\ (10 ∉ s).

Lemma starts_with_app p s : starts_with p (p ++ s) = true.
Proof. apply bool_decide_eq_true. exists s. done. Qed.

Lemma strip_prefix_app p s : strip_prefix p (p ++ s) = Some s.
Proof. unfold strip_prefix. rewrite starts_with_app, drop_app_length. done. Qed.

Lemma quoted_segment pre c n suf :
  in_range 33 126 c = true -> text pre -> plain n -> suf = [] \/ suf = [13] ->
  trim ([32] ++ (c :: pre ++ [34] ++ n ++ [34]) ++ suf) = c :: pre ++ [34] ++ n ++ [34].
Proof.
  intros Hc Hp (Hn & _) Hs.
  assert (Ht : text (pre ++ [34] ++ n)) by (apply text_join; [done|]; apply text_join; [apply text_ascii|]; done).
  assert (Hs2 : c :: pre ++ [34] ++ n ++ [34] = c :: (pre ++ [34] ++ n) ++ [34]) by (rewrite <- !app_assoc; done).
  assert (Hcs : text [c]).
  { apply text_ascii. cbn. unfold in_range in *. apply andb_prop in Hc as [H1%Z.leb_le H2%Z.leb_le].
    rewrite !(proj2 (Z.leb_le _ _)) by lia. done. }
  rewrite trim_pad; try done; try (destruct Hs as [->| ->]; done).
  - rewrite Hs2. apply trim_id; done.
  - rewrite Hs2. change (c :: (pre ++ [34] ++ n) ++ [34]) with ([c] ++ (pre ++ [34] ++ n) ++ [34]).
    apply text_join; [done|]. apply text_join; [done|]. apply text_ascii. done.
Qed.

Lemma name_segment acc n suf :
  plain n -> suf = [] \/ suf = [13] ->
  disposition_segment acc ([32] ++ (str "name=" ++ [34] ++ n ++ [34]) ++ suf) = (Some n, acc.2).
Proof.
  intros Hn Hs. unfold disposition_segment.
  change (str "name=" ++ [34] ++ n ++ [34]) with (110 :: str "ame=" ++ [34] ++ n ++ [34]).
  rewrite (quoted_segment (str "ame=") 110 n suf eq_refl (text_ascii (str "ame=") eq_refl) Hn Hs).
  change (110 :: str "ame=" ++ [34] ++ n ++ [34]) with (str "name=" ++ 34 :: n ++ [34]).
  rewrite strip_prefix_app, trim_quotes by apply Hn. done.
Qed.

Lemma filename_segment acc n suf :
  plain n -> suf = [] \/ suf = [13] ->
  disposition_segment acc ([32] ++ (str "filename=" ++ [34] ++ n ++ [34]) ++ suf) = (acc.1, Some n).
Proof.
  intros Hn Hs. unfold disposition_segment.
  change (str "filename=" ++ [34] ++ n ++ [34]) with (102 :: str "ilename=" ++ [34] ++ n ++ [34]).
  rewrite (quoted_segment (str "ilename=") 102 n suf eq_refl (text_ascii (str "ilename=") eq_refl) Hn Hs).
  change (102 :: str "ilename=" ++ [34] ++ n ++ [34]) with (str "filename=" ++ 34 :: n ++ [34]).
  assert (Hno : strip_prefix (str "name=") (str "filename=" ++ 34 :: n ++ [34]) = None).
  { unfold strip_prefix, starts_with. rewrite bool_decide_eq_false_2; [done|]. intros [k Hk]. discriminate Hk. }
  rewrite Hno, strip_prefix_app, trim_quotes by apply Hn. done.
Qed.

Lemma form_data_segment acc : disposition_segment acc (str "Content-Disposition: form-data") = acc.
Proof. destruct acc. vm_compute. reflexivity. Qed.

Lemma ignore_case_app pre r needle :
  length pre = length needle -> starts_with_ignore_case (pre ++ r) needle = eq_ignore_ascii_case pre needle.
Proof.
  intros Hl. unfold starts_with_ignore_case. rewrite <- Hl, take_app_length, length_app.
  rewrite (proj2 (Nat.leb_le _ _)) by lia. done.
Qed.

Lemma ignore_case_differs pre r needle :
  (length pre <= length needle)%nat -> eq_ignore_ascii_case pre (take (length pre) needle) = false ->
  starts_with_ignore_case (pre ++ r) needle = false.
Proof.
  intros Hl Hd. unfold starts_with_ignore_case, eq_ignore_ascii_case in *. apply bool_decide_eq_false in Hd.
  rewrite (bool_decide_eq_false_2 (ascii_lowercase (take _ _) = _)); [apply andb_false_r|]. intros He. apply Hd.
  apply (f_equal (take (length pre))) in He. unfold ascii_lowercase in *. rewrite <- !fmap_take in He.
  rewrite take_take, Nat.min_l, take_app_length in He by done. exact He.
Qed.

(** The lines of a part: its disposition, its type and the end of the headers. *)
Definition text_line (n : list Z) : list Z :=
  str "Content-Disposition: form-data; name=" ++ [34] ++ n ++ [34] ++ [13].

Definition file_line (n f : list Z) : list Z :=
  str "Content-Disposition: form-data; name=" ++ [34] ++ n ++ [34] ++ str "; filename=" ++ [34] ++ f ++ [34] ++ [13].

Definition type_line (t : list Z) : list Z := str "Content-Type: " ++ t ++ [13].

Lemma text_parts (l : list (list Z)) : Forall text l -> text (concat l).
Proof. induction 1; [apply text_ascii; done|]. cbn. apply text_join; done. Qed.

Lemma trim_header c s : in_range 33 126 c = true -> text s -> exists t, trim (c :: s ++ [34; 13]) = c :: t.
Proof.
  intros Hc Hs. exists (s ++ [34]).
  assert (Hcs : text [c]).
  { apply text_ascii. cbn. unfold in_range in *. apply andb_prop in Hc as [H1%Z.leb_le H2%Z.leb_le].
    rewrite !(proj2 (Z.leb_le _ _)) by lia. done. }
  replace (c :: s ++ [34; 13]) with ([] ++ (c :: s ++ [34]) ++ [13]) by (cbn; rewrite <- app_assoc; done).
  rewrite trim_pad; try done; [apply trim_id; done|].
  change (c :: s ++ [34]) with ([c] ++ s ++ [34]). apply text_join; [done|]. apply text_join; [done|]. apply text_ascii. done.
Qed.

Lemma text_header p n :
  plain n -> in_headers p = true -> p_name p = None -> p_filename p = None ->
  header_line (text_line n) p = mkParser (p_entries p) (current_data p) true (Some n) None (p_mime_type p).
Proof.
  intros Hn Hh Hp Hf.
  assert (Ht : text (text_line n)).
  { unfold text_line. repeat apply text_join; try (apply text_ascii; done). apply Hn. }
  unfold header_line. rewrite lossy_text by done.
  destruct (trim_header 67 (str "ontent-Disposition: form-data; name=" ++ [34] ++ n)) as [t Htr].
  { done. }
  { repeat apply text_join; try (apply text_ascii; done). apply Hn. }
  assert (Heq : text_line n = 67 :: (str "ontent-Disposition: form-data; name=" ++ [34] ++ n) ++ [34; 13]).
  { unfold text_line. cbn. rewrite <- ?app_assoc. done. }
  rewrite Heq at 1. rewrite Htr.
  assert (Hd : text_line n = str "Content-Disposition: form-data" ++ 59 :: ([32] ++ (str "name=" ++ [34] ++ n ++ [34]) ++ [13])).
  { unfold text_line. cbn. rewrite <- ?app_assoc. done. }
  rewrite Hd at 1. change (str "Content-Disposition: form-data") with (str "Content-Disposition" ++ str ": form-data") at 1.
  rewrite <- app_assoc, ignore_case_app by done.
  change (eq_ignore_ascii_case (str "Content-Disposition") (str "content-disposition")) with true. cbn iota.
  rewrite Hd, split_on_app by (vm_compute; set_solver).
  rewrite split_on_none.
  - cbn [foldl]. rewrite form_data_segment, name_segment by auto. cbn. rewrite Hf. done.
  - destruct Hn as (_ & _ & Hn & _). cbn. set_solver.
Qed.

Lemma file_header p n f :
  plain n -> plain f -> in_headers p = true -> p_name p = None -> p_filename p = None ->
  header_line (file_line n f) p = mkParser (p_entries p) (current_data p) true (Some n) (Some f) (p_mime_type p).
Proof.
  intros Hn Hf Hh Hp Hpf.
  set (mid := str "ontent-Disposition: form-data; name=" ++ [34] ++ n ++ [34] ++ str "; filename=" ++ [34] ++ f).
  assert (Hm : text mid).
  { subst mid. repeat apply text_join; try (apply text_ascii; done); [apply Hn|apply Hf]. }
  assert (Heq : file_line n f = 67 :: mid ++ [34; 13]).
  { subst mid. unfold file_line. cbn. rewrite <- !app_assoc. cbn. done. }
  assert (Ht : text (file_line n f)).
  { rewrite Heq. apply (text_join [67]); [apply text_ascii; done|]. apply text_join; [done|]. apply text_ascii. done. }
  unfold header_line. rewrite lossy_text by done.
  destruct (trim_header 67 mid eq_refl Hm) as [t Htr]. rewrite Heq at 1. rewrite Htr.
  assert (Hd : file_line n f = str "Content-Disposition: form-data" ++ 59 :: (([32] ++ (str "name=" ++ [34] ++ n ++ [34]) ++ []) ++
    59 :: ([32] ++ (str "filename=" ++ [34] ++ f ++ [34]) ++ [13]))).
  { unfold file_line. cbn. rewrite <- !app_assoc. cbn. done. }
  rewrite Hd at 1. change (str "Content-Disposition: form-data") with (str "Content-Disposition" ++ str ": form-data") at 1.
  rewrite <- app_assoc, ignore_case_app by done.
  change (eq_ignore_ascii_case (str "Content-Disposition") (str "content-disposition")) with true. cbn iota.
  rewrite Hd, split_on_app by (vm_compute; set_solver).
  rewrite split_on_app by (destruct Hn as (_ & _ & Hn & _); cbn; set_solver).
  rewrite split_on_none by (destruct Hf as (_ & _ & Hf & _); cbn; set_solver).
  cbn [foldl]. rewrite form_data_segment, name_segment, filename_segment by auto. done.
Qed.

Lemma type_header p t :
  text t -> 58 ∉ t -> in_headers p = true ->
  header_line (type_line t) p = mkParser (p_entries p) (current_data p) true (p_name p) (p_filename p) (Some (trim t)).
Proof.
  intros Ht Hc Hh.
  assert (Htl : text (type_line t)) by (unfold type_line; repeat apply text_join; try (apply text_ascii; done); done).
  unfold header_line. rewrite lossy_text by done.
  assert (Hne : exists c s, trim (type_line t) = c :: s).
  { destruct Ht as (cs & Hs & ->). unfold type_line, trim.
    destruct (ascii_encode (str "Content-Type: ") eq_refl) as [E1 S1], (ascii_encode [13] eq_refl) as [E2 S2].
    rewrite <- E1, <- E2, <- !encode_all_app, chars_encode by (apply Forall_app; split; [done|]; apply Forall_app; done).
    assert (Hd : exists r, trim_matches is_whitespace (str "Content-Type: " ++ cs ++ [13]) = 67 :: r).
    { unfold trim_matches. change (str "Content-Type: ") with (67 :: str "ontent-Type: "). cbn [drop_while app].
      change (is_whitespace 67) with false. cbn iota. cbn [rev].
      rewrite (drop_while_app is_whitespace (rev _) [67]).
      destruct (forallb is_whitespace (rev _)); [eexists; reflexivity|]. rewrite rev_app_distr. eexists. reflexivity. }
    destruct Hd as [r ->]. rewrite encode_all_cons. eexists _, _. reflexivity. }
  destruct Hne as (c & s & Htr). rewrite Htr.
  assert (H1 : starts_with_ignore_case (type_line t) (str "content-disposition") = false).
  { apply (ignore_case_differs (str "Content-T") (str "ype: " ++ t ++ [13])); [cbn; lia|reflexivity]. }
  assert (H2 : starts_with_ignore_case (type_line t) (str "content-type") = true).
  { apply (ignore_case_app (str "Content-Type") (str ": " ++ t ++ [13])). reflexivity. }
  rewrite H1, H2.
  assert (Hs : type_line t = str "Content-Type" ++ 58 :: ([32] ++ t ++ [13])) by done.
  rewrite Hs, split_on_app by (vm_compute; set_solver). rewrite split_on_none by set_solver. cbn [lookup list_lookup].
  rewrite trim_pad by done. done.
Qed.

Lemma blank_header p :
  header_line [13] p = mkParser (p_entries p) (current_data p) false (p_name p) (p_filename p) (p_mime_type p).
Proof. reflexivity. Qed.

(** ** The lines of a body *)

(** No line of a value begins like a boundary. *)
Definition free_of (boundary s : list Z) : Prop :=
  Forall (fun l => starts_with (str "--" ++ boundary) l = false) (split_on 10 s).

Lemma split_on_snoc c x s : x <> c ->
  exists ls l, split_on c s = ls ++ [l] /\ split_on c (s ++ [x]) = ls ++ [l ++ [x]].
Proof.
  intros Hx. induction s as [|y s (ls & l & H1 & H2)].
  - exists [], []. cbn. destruct (Z.eqb_spec x c); done.
  - cbn. rewrite H1, H2. destruct (Z.eqb_spec y c) as [->|Hy].
    + exists ([] :: ls), l. done.
    + destruct ls as [|l0 ls]; [exists [], (y :: l); done|]. exists ((y :: l0) :: ls), l. done.
Qed.

Lemma starts_with_snoc p l x : x ∉ p -> starts_with p l = false -> starts_with p (l ++ [x]) = false.
Proof.
  intros Hx Hl. apply bool_decide_eq_false in Hl. apply bool_decide_eq_false. intros [k Hk]. apply Hl.
  destruct k as [|y k _] using rev_ind.
  - rewrite app_nil_r in Hk. subst p. exfalso. apply Hx. set_solver.
  - rewrite app_assoc in Hk. apply app_inj_tail in Hk as [-> _]. exists k. done.
Qed.

Lemma free_of_cr b s : 13 ∉ b -> free_of b s -> free_of b (s ++ [13]).
Proof.
  intros Hb Hs. unfold free_of in *. destruct (split_on_snoc 10 13 s ltac:(done)) as (ls & l & H1 & H2).
  rewrite H1 in Hs. rewrite H2. apply Forall_app in Hs as [Hs1 Hs2]. apply Forall_app. split; [done|].
  inversion Hs2. constructor; [|done]. apply starts_with_snoc; [|done]. cbn. set_solver.
Qed.

Lemma lines_join ls : ls <> [] -> concat ((fun l => l ++ [10]) <$> ls) = join_with [10] ls ++ [10].
Proof.
  induction ls as [|l ls IH]; intros Hne; [done|]. destruct ls as [|l' ls]; [cbn; rewrite app_nil_r; done|].
  rewrite fmap_cons. cbn [concat]. rewrite IH by done. rewrite (join_with_cons [10] l (l' :: ls)) by done. rewrite <- !app_assoc. done.
Qed.

Section Read.
Context (itoa : Z -> list Z) (ryu : f64 -> list Z) (line_ending boundary : list Z).
Hypothesis Hb10 : 10 ∉ boundary.
Hypothesis Hb13 : 13 ∉ boundary.

Local Abbreviation marker := (str "--" ++ boundary).
Local Abbreviation parse := (parse_lines itoa ryu line_ending marker).

Lemma parse_app ls1 ls2 p : parse (ls1 ++ ls2) p = let? p := parse ls1 p in parse ls2 p.
Proof.
  revert p. induction ls1 as [|l ls1 IH]; intros p; [done|]. cbn. destruct (parse_line _ _ _ _ _ _); [apply IH|done].
Qed.

Lemma parse_data ls p :
  Forall (fun l => starts_with marker l = false) ls -> in_headers p = false ->
  parse ls p = Ok (mkParser (p_entries p) (current_data p ++ concat ((fun l => l ++ [10]) <$> ls)) false
    (p_name p) (p_filename p) (p_mime_type p)).
Proof.
  intros Hls. revert p. induction Hls as [|l ls Hl _ IH]; intros p Hp.
  - destruct p. cbn in *. subst. rewrite app_nil_r. done.
  - cbn [parse_lines]. unfold parse_line. rewrite Hl, Hp. cbn [result_bind]. rewrite IH by done. cbn.
    rewrite <- !app_assoc. done.
Qed.

Lemma parse_value s p :
  free_of boundary s -> in_headers p = false ->
  parse (split_on 10 (s ++ [13])) p = Ok (mkParser (p_entries p) (current_data p ++ s ++ crlf) false
    (p_name p) (p_filename p) (p_mime_type p)).
Proof.
  intros Hs Hp. rewrite parse_data by (try apply free_of_cr; done).
  rewrite lines_join, join_split_on, <- app_assoc by apply split_on_nonempty. done.
Qed.

Lemma not_marker c l : c <> 45 -> starts_with marker (c :: l) = false.
Proof. intros Hc. apply bool_decide_eq_false. intros [k Hk]. change (str "--" ++ boundary) with (45 :: 45 :: boundary) in Hk. cbn in Hk. congruence. Qed.

Lemma parse_header l c l' p :
  l = c :: l' -> c <> 45 -> in_headers p = true -> parse_line itoa ryu line_ending marker l p = Ok (header_line l p).
Proof. intros -> Hc Hp. unfold parse_line. rewrite not_marker, Hp by done. done. Qed.

Lemma parse_marker suf p :
  parse_line itoa ryu line_ending marker (marker ++ suf) p =
    let? es := flush itoa ryu line_ending p in Ok (mkParser es [] true None None None).
Proof. unfold parse_line. rewrite starts_with_app. done. Qed.

(** ** Entries *)

Definition entry_ok (e : list Z * form_value) : Prop :=
  plain e.1 /\
  match e.2 with
  | Text s => text s /\ free_of boundary s
  | File f =>
      plain (filename f) /\ text (mime_type (file_blob f)) /\ (58 ∉ mime_type (file_blob f)) /\
      (10 ∉ mime_type (file_blob f)) /\ free_of boundary (data (file_blob f))
  end.

(** What is read for an entry that was written. *)
Definition read_back (e : list Z * form_value) : list Z * form_value :=
  (e.1,
   match e.2 with
   | Text s => Text (s ++ crlf)
   | File f =>
       File (mkFile (mkBlob (concat (numeral 10 <$> (data (file_blob f) ++ crlf)))
         (normalize_type (trim (mime_type (file_blob f))))) (filename f))
   end).

(** The parser after the lines of an entry. *)
Definition holding (es : list (list Z * form_value)) (e : list Z * form_value) : parser :=
  match e.2 with
  | Text s => mkParser es (s ++ crlf) false (Some e.1) None None
  | File f => mkParser es (data (file_blob f) ++ crlf) false (Some e.1) (Some (filename f)) (Some (trim (mime_type (file_blob f))))
  end.

Lemma flush_holding es e : entry_ok e -> flush itoa ryu line_ending (holding es e) = Ok (es ++ [read_back e]).
Proof.
  destruct e as [n [s|f]]; intros [Hn He]; cbn [fst snd] in *; unfold holding, flush, read_back; cbn [fst snd current_data p_name p_filename p_entries p_mime_type].
  - destruct (s ++ crlf) as [|x r] eqn:Hs; [destruct s; done|]. rewrite <- Hs. rewrite lossy_text; [done|].
    apply text_join; [apply He|]. apply text_ascii. done.
  - destruct (data (file_blob f) ++ crlf) as [|x r] eqn:Hs; [destruct (data (file_blob f)); done|]. rewrite <- Hs.
    destruct (file_bytes_become_digits itoa ryu line_ending (data (file_blob f) ++ crlf) (filename f) (Some (trim (mime_type (file_blob f)))))
      as ([d m] & Hf & Hd & Hm). cbn in Hd, Hm. rewrite Hf. cbn [result_bind]. subst. done.
Qed.

(** The lines of an entry that was written, before what follows. *)
Definition head_lines (e : list Z * form_value) : list (list Z) :=
  match e.2 with
  | Text s => [marker ++ [13]; text_line e.1; [13]]
  | File f => [marker ++ [13]; file_line e.1 (filename f); type_line (mime_type (file_blob f)); [13]]
  end.

Definition content (e : list Z * form_value) : list Z :=
  match e.2 with Text s => s | File f => data (file_blob f) end.

Lemma written_lines e rest :
  entry_ok e ->
  split_on 10 (write_entry boundary e ++ rest) = head_lines e ++ split_on 10 (content e ++ [13]) ++ split_on 10 rest.
Proof.
  assert (Hm : 10 ∉ marker ++ [13]) by (cbn; set_solver). assert (Hcr : 10 ∉ [13]) by set_solver.
  destruct e as [n [s|f]]; intros [Hn He]; cbn [fst snd] in *; unfold write_entry, head_lines, content; cbn [fst snd].
  - assert (Hl : 10 ∉ text_line n) by (destruct Hn as (_ & _ & _ & Hn); unfold text_line; cbn; set_solver).
    transitivity (split_on 10 ((marker ++ [13]) ++ 10 :: (text_line n ++ 10 :: ([13] ++ 10 :: ((s ++ [13]) ++ 10 :: rest))))).
    { f_equal. unfold text_line, crlf. rewrite <- !app_assoc. done. }
    rewrite (split_on_app 10 (marker ++ [13])), (split_on_app 10 (text_line n)), (split_on_app 10 [13]), split_on_concat by done. done.
  - destruct He as (Hf & Ht & H58 & H10 & Hd).
    assert (Hl : 10 ∉ file_line n (filename f)).
    { destruct Hn as (_ & _ & _ & Hn), Hf as (_ & _ & _ & Hf). unfold file_line. cbn. set_solver. }
    assert (Htl : 10 ∉ type_line (mime_type (file_blob f))) by (unfold type_line; cbn; set_solver).
    transitivity (split_on 10 ((marker ++ [13]) ++ 10 :: (file_line n (filename f) ++ 10 :: (type_line (mime_type (file_blob f)) ++ 10 ::
      ([13] ++ 10 :: ((data (file_blob f) ++ [13]) ++ 10 :: rest)))))).
    { f_equal. unfold file_line, type_line, crlf. rewrite <- !app_assoc. done. }
    rewrite (split_on_app 10 (marker ++ [13])), (split_on_app 10 (file_line _ _)), (split_on_app 10 (type_line _)), (split_on_app 10 [13]),
      split_on_concat by done. done.
Qed.

Lemma parse_entry e p es :
  entry_ok e -> flush itoa ryu line_ending p = Ok es ->
  parse (head_lines e ++ split_on 10 (content e ++ [13])) p = Ok (holding es e).
Proof.
  intros He Hp. rewrite parse_app. set (p0 := mkParser es [] true None None None).
  assert (Hhead : parse (head_lines e) p = Ok (match e.2 with
    | Text _ => mkParser es [] false (Some e.1) None None
    | File f => mkParser es [] false (Some e.1) (Some (filename f)) (Some (trim (mime_type (file_blob f)))) end)).
  { destruct e as [n [s|f]]; destruct He as [Hn He]; cbn [fst snd] in *; unfold head_lines; cbn [fst snd parse_lines];
      rewrite parse_marker, Hp; cbn [result_bind]; fold p0.
    - rewrite (parse_header (text_line n) 67 _ p0 eq_refl) by done. cbn [result_bind].
      rewrite text_header by done. erewrite (parse_header [13] 13 []) by done. rewrite blank_header. done.
    - destruct He as (Hf & Ht & H58 & _).
      rewrite (parse_header (file_line n (filename f)) 67 _ p0 eq_refl) by done. cbn [result_bind].
      rewrite file_header by done. rewrite (parse_header (type_line _) 67 _ _ eq_refl) by done. cbn [result_bind].
      rewrite type_header by done. erewrite (parse_header [13] 13 []) by done. rewrite blank_header. done. }
  rewrite Hhead. cbn [result_bind].
  destruct e as [n [s|f]]; destruct He as [Hn He]; cbn [fst snd content] in *; rewrite parse_value; try done; apply He.
Qed.

Lemma parse_entries es : forall p done,
  Forall entry_ok es -> flush itoa ryu line_ending p = Ok done ->
  parse (split_on 10 (concat (write_entry boundary <$> es) ++ marker ++ str "--" ++ crlf)) p =
    Ok (mkParser (done ++ (read_back <$> es)) [] false None None None).
Proof.
  induction es as [|e es IH]; intros p dn Hes Hp.
  - assert (Hm : 10 ∉ marker ++ str "--" ++ [13]) by (cbn; set_solver).
    transitivity (parse (split_on 10 ((marker ++ str "--" ++ [13]) ++ 10 :: [])) p).
    { f_equal. f_equal. cbn [fmap list_fmap concat app]. unfold crlf. rewrite <- !app_assoc. done. }
    rewrite split_on_app by done. cbn [split_on parse_lines].
    rewrite parse_marker, Hp. cbn [result_bind fmap list_fmap]. rewrite app_nil_r. reflexivity.
  - inversion Hes as [|? ? He Hes' Heq]; subst. rewrite fmap_cons. cbn [concat].
    rewrite <- app_assoc, written_lines, app_assoc, parse_app by done.
    rewrite (parse_entry e p dn) by done. cbn [result_bind].
    rewrite (IH (holding dn e) (dn ++ [read_back e])) by (done || apply flush_holding; done).
    rewrite fmap_cons, <- app_assoc. done.
Qed.
End Read.

(** The content type of a form, and the boundary [generate_boundary] makes
    from random letters and digits. *)
Definition MIME_TYPE_FORM_DATA : list Z := str "multipart/form-data; boundary=".

Definition alphanumeric (c : Z) : bool := in_range 48 57 c || in_range 65 90 c || in_range 97 122 c.

Definition generate_boundary (random : list Z) : list Z := str "----WebKitFormBoundary" ++ random.

Lemma alphanumeric_range c : alphanumeric c = true -> in_range 48 122 c = true /\ c <> 59.
Proof.
  unfold alphanumeric, in_range. intros H. repeat (apply orb_prop in H as [H|H]);
    apply andb_prop in H as [H1%Z.leb_le H2%Z.leb_le]; rewrite !(proj2 (Z.leb_le _ _)) by lia; split; lia || done.
Qed.

(** The boundary of a form is found in its content type. *)
Lemma extract_generated random :
  forallb alphanumeric random = true -> random <> [] ->
  extract_boundary (MIME_TYPE_FORM_DATA ++ generate_boundary random) = Some (generate_boundary random) /\
  (10 ∉ generate_boundary random) /\ (13 ∉ generate_boundary random).
Proof.
  intros Hr Hne. destruct random as [|d r _] using rev_ind; [done|].
  rewrite forallb_app in Hr. apply andb_prop in Hr as [Hr Hd]. cbn in Hd. rewrite andb_true_r in Hd.
  assert (Hin : forall c, c ∈ r ++ [d] -> in_range 48 122 c = true /\ c <> 59).
  { intros c Hc. apply alphanumeric_range. apply elem_of_app in Hc as [Hc|Hc].
    - rewrite forallb_forall in Hr. apply Hr, list_elem_of_In, Hc.
    - apply list_elem_of_singleton in Hc. congruence. }
  assert (Hlow : forall c, c < 48 \/ c = 59 -> c ∉ r ++ [d]).
  { intros c Hc Hm. destruct (Hin c Hm) as [H1 H2]. unfold in_range in H1. apply andb_prop in H1 as [H1%Z.leb_le _]. lia. }
  assert (Ht : text r).
  { apply text_ascii, forallb_forall. intros c Hc. destruct (Hin c) as [H1 _]; [apply elem_of_app; left; apply list_elem_of_In, Hc|].
    unfold in_range in *. apply andb_prop in H1 as [H1%Z.leb_le H2%Z.leb_le]. rewrite !(proj2 (Z.leb_le _ _)) by lia. done. }
  assert (Hdr : in_range 33 126 d = true).
  { destruct (Hin d) as [H1 _]; [set_solver|]. unfold in_range in *. apply andb_prop in H1 as [H1%Z.leb_le H2%Z.leb_le].
    rewrite !(proj2 (Z.leb_le _ _)) by lia. done. }
  unfold generate_boundary. split; [|split; (rewrite not_elem_of_app; split; [vm_compute; set_solver|apply Hlow; lia])].
  unfold extract_boundary.
  change (MIME_TYPE_FORM_DATA ++ str "----WebKitFormBoundary" ++ r ++ [d])
    with (str "multipart/form-data" ++ 59 :: ([32] ++ str "boundary=----WebKitFormBoundary" ++ r ++ [d])).
  rewrite split_on_app by (vm_compute; set_solver).
  rewrite split_on_none by (apply not_elem_of_app; split; [set_solver|]; apply not_elem_of_app; split; [vm_compute; set_solver|apply Hlow; lia]).
  cbn [find_map]. change (find_str (str "boundary=") (trim (str "multipart/form-data"))) with (@None nat). cbn [fmap option_fmap option_map].
  assert (Htrim : trim ([32] ++ str "boundary=----WebKitFormBoundary" ++ r ++ [d]) = str "boundary=----WebKitFormBoundary" ++ r ++ [d]).
  { pose proof (trim_pad [32] (98 :: (str "oundary=----WebKitFormBoundary" ++ r) ++ [d]) []) as Hp.
    rewrite app_nil_r, <- app_assoc in Hp. cbn [app] in Hp.
    change ([32] ++ str "boundary=----WebKitFormBoundary" ++ r ++ [d]) with (32 :: 98 :: str "oundary=----WebKitFormBoundary" ++ r ++ [d]).
    rewrite Hp; try done.
    - rewrite app_assoc. rewrite trim_id; [rewrite <- app_assoc; done|done|done|]. apply text_join; [apply text_ascii; done|done].
    - apply (text_join [98]); [apply text_ascii; done|]. apply text_join; [apply text_ascii; done|]. apply text_join; [done|].
      apply text_ascii. cbn. unfold in_range in *. apply andb_prop in Hdr as [H1%Z.leb_le H2%Z.leb_le].
      rewrite !(proj2 (Z.leb_le _ _)) by lia. done. }
  rewrite Htrim.
  change (str "boundary=----WebKitFormBoundary" ++ r ++ [d]) with (str "boundary=" ++ (str "----WebKitFormBoundary" ++ r ++ [d])).
  assert (Hf : find_str (str "boundary=") (str "boundary=" ++ (str "----WebKitFormBoundary" ++ r ++ [d])) = Some 0%nat).
  { generalize (str "----WebKitFormBoundary" ++ r ++ [d]). intros s. change (str "boundary=" ++ s) with (98 :: str "oundary=" ++ s).
    cbn [find_str]. change (98 :: str "oundary=" ++ s) with (str "boundary=" ++ s). rewrite starts_with_app. done. }
  rewrite Hf. cbn [fmap option_fmap option_map]. f_equal.
  change (0 + length (str "boundary="))%nat with (length (str "boundary=")). rewrite drop_app_length.
  change (str "----WebKitFormBoundary" ++ r ++ [d]) with (45 :: str "---WebKitFormBoundary" ++ r ++ [d]).
  rewrite app_assoc, trim_id; [|done|done|apply text_join; [apply text_ascii; done|done]].
  apply trim_matches_id; [done|]. unfold is_quote. apply Z.eqb_neq. intros ->. apply (Hlow 34); [lia|]. set_solver.
Qed.

(** ** Theorems *)

(** C38: the body written for a form is read back with the same names and file
    names in the same order; but every text has a line end appended, and the
    content of every file is the decimal digits of its bytes and of the line
    end. The entries are [entry_ok]: names and file names are text without
    quotation mark, semicolon and line feed, types are text without colon and
    line feed, texts are text, and no line of a value begins with the
    boundary. *)
Theorem multipart_read_back itoa ryu line_ending random es :
  forallb alphanumeric random = true -> random <> [] -> Forall (entry_ok (generate_boundary random)) es ->
  from_multipart_bytes itoa ryu line_ending (MIME_TYPE_FORM_DATA ++ generate_boundary random)
    (to_multipart_bytes (generate_boundary random) es) = Ok (read_back <$> es).
Proof.
  intros Hr Hne Hes. destruct (extract_generated random Hr Hne) as (Hb & H10 & H13).
  set (boundary := generate_boundary random) in *. unfold to_multipart_bytes. destruct es as [|e es]; [done|].
  unfold from_multipart_bytes. rewrite Hb.
  pose proof (parse_entries itoa ryu line_ending boundary H10 H13 (e :: es) (mkParser [] [] false None None None) [] Hes eq_refl) as Hp.
  rewrite <- !app_assoc in Hp.
  destruct (concat (write_entry boundary <$> e :: es) ++ str "--" ++ boundary ++ str "--" ++ crlf) as [|x body] eqn:Hbody.
  - exfalso. destruct (concat _); discriminate Hbody.
  - rewrite Hp. done.
Qed.

Definition sample_random : list Z := str "AbCdEf0123456789AbCdEf01".

Definition sample_form : list (list Z * form_value) :=
  [(str "a", Text (str "1")); (str "f", File (mkFile (mkBlob (str "hi") (str "text/plain")) (str "x.txt")))].

Lemma multipart_read_back_witness :
  from_multipart_bytes (fun _ => []) (fun _ => []) [10] (MIME_TYPE_FORM_DATA ++ generate_boundary sample_random)
    (to_multipart_bytes (generate_boundary sample_random) sample_form) = Ok (read_back <$> sample_form).
Proof.
  apply (multipart_read_back (fun _ => []) (fun _ => []) [10] sample_random sample_form).
  - vm_compute. reflexivity.
  - discriminate.
  - constructor; [|constructor; [|constructor]]; repeat split; try (apply text_ascii; reflexivity);
      try (match goal with |- ?P => apply (bool_decide_eq_true P); vm_compute; reflexivity end); vm_compute; repeat constructor.
Defined.

(** A form is read back with "1" followed by a line end and "hi" as the digits
    of its bytes and of the line end. *)
Theorem form_read_back_differs :
  from_multipart_bytes (fun _ => []) (fun _ => []) [10] (MIME_TYPE_FORM_DATA ++ generate_boundary sample_random)
    (to_multipart_bytes (generate_boundary sample_random) sample_form) =
    Ok [(str "a", Text (str "1" ++ crlf)); (str "f", File (mkFile (mkBlob (str "1041051310") (str "text/plain")) (str "x.txt")))].
Proof. vm_compute. reflexivity. Qed.

(** A blob that is appended is stored as the digits of its bytes. *)
Theorem appended_blob_differs :
  append (fun _ => []) (fun _ => []) [10] (str "b") (InBlob (mkBlob (str "hi") [])) None [] =
    Ok [(str "b", File (mkFile (mkBlob (str "104105") []) (str "blob")))].
Proof. vm_compute. reflexivity. Qed.

(** [set] puts the entry last instead of at the place of the first one. *)
Theorem set_moves_entry :
  set (fun _ => []) (fun _ => []) [10] (str "a") (InString (str "3")) None
    [(str "a", Text (str "1")); (str "b", Text (str "2"))] =
  Ok [(str "b", Text (str "2")); (str "a", Text (str "3"))].
Proof. vm_compute. reflexivity. Qed.

(** What [set] and [delete] leave. *)
Lemma set_get itoa ryu le name value filename es es' :
  set itoa ryu le name value filename es = Ok es' ->
  exists v, value_to_form_entry itoa ryu le name value filename = Ok (name, v) /\ get_all name es' = [v] /\
    forall other, other <> name -> get_all other es' = get_all other es.
Proof.
  assert (Hname : forall e, value_to_form_entry itoa ryu le name value filename = Ok e -> e.1 = name).
  { intros e He. destruct value as [f|b|s|[s|]]; cbn in He; try congruence.
    - destruct filename; injection He as <-; done.
    - destruct (file_from_bytes _ _ _ _ _ _); cbn in He; [injection He as <-; done|done].
    - injection He as <-. done.
    - injection He as <-. done. }
  unfold set. destruct (value_to_form_entry _ _ _ _ _ _) as [[n v]|] eqn:He; [|done]. cbn. intros [= <-].
  specialize (Hname (n, v) eq_refl). cbn in Hname. subst n. exists v. split; [done|]. unfold get_all. split.
  - rewrite filter_app, fmap_app, filter_cons_True by done. rewrite filter_nil. cbn.
    assert (Hnil : filter (fun e => e.1 = name) (filter (fun x => x.1 <> name) es) = []).
    { clear. induction es as [|x es IH]; [done|]. rewrite filter_cons. destruct (decide (x.1 <> name)); [|done].
      rewrite filter_cons_False by done. done. }
    rewrite Hnil. done.
  - intros other Ho. rewrite filter_app, fmap_app, filter_cons_False by done. rewrite filter_nil, app_nil_r, list_filter_filter.
    f_equal. apply list_filter_iff. intros x. naive_solver.
Qed.

(** The loop of [forEach] with a callback that changes nothing ends. *)
Lemma for_each_reads es index : (index <= length es)%nat ->
  for_each (length es - index) index (fun _ es => es) es = Some es.
Proof.
  intros Hi. remember (length es - index)%nat as k eqn:Hk. revert index Hi Hk.
  induction k as [|k IH]; intros index Hi Hk.
  - cbn. rewrite lookup_ge_None_2 by lia. done.
  - cbn. destruct (lookup_lt_is_Some_2 es index) as [e ->]; [lia|]. apply IH; lia.
Qed.
