(* ===== verification/ByteStream.v ===== *)
(** * Readable byte streams of src/modules/llrt_stream_web/src/readable

    One readable byte stream with its controller (byte_controller.rs), its BYOB
    requests and the readers of both kinds that were acquired for it
    (byob_reader.rs, default_reader.rs, reader.rs, stream/mod.rs).

    Array buffers are indices of a store, in which [None] is a detached buffer;
    a transfer detaches the buffer and gives its bytes to a new one.  The
    operations are in a monad [M] with a state, exceptions and panics: [None]
    is a panic of the Rust code or a loop that never ends.  Promises,
    reactions and the source's calls are as in [ReadableStream]: the source's
    [pull] runs calls of the stream before it returns, which are a function of
    the log.  The program (the source and the readers) can also allocate
    buffers, write to those it can reach ([shared]) and transfer them.  Buffers
    have a fixed length, and lengths and offsets are below 2^53, so that sums of
    two do not overflow; the count that a program gives to [respond] can be any
    [usize], and the sums with it wrap around ([usize_add]), as they do in a
    release build.  Rust code can also enqueue a buffer without a transfer
    ([CEnqueueBorrowed], for Blob.stream): its handle is a new one that the
    program does not have, and its storage is taken not to be written through
    another handle while it is queued, which the documentation of that function
    demands.  The log is kept for the specification: the bytes that the stream
    accepts, which read takes which bytes, what is delivered, and whether the
    program changed bytes it had handed over before, or made the count of the
    bytes of a view wrap around ([Tampered]). *)
From Stdlib Require Import ZArith Lia SpecFloat.
From stdpp Require Import base list numbers strings.
From S2P Require Import Prelude F64.

(** ** Values, buffers and views *)

Inductive value : Type :=
| Undefined
| Val (n : Z)
| Thrown
| TypeError (msg : list Z)
| RangeError (msg : list Z).

(** The kinds of views that [ObjectBytes] tells apart. *)
Inductive view_kind : Type :=
| U8Array | I8Array | U16Array | I16Array | U32Array | I32Array | U64Array | I64Array
| F16Array | F32Array | F64Array | U8ClampedArray | DataView.

#[export] Instance view_kind_eq_dec : EqDecision view_kind.
Proof. solve_decision. Defined.

(** A view of a buffer; the offset and the length are in bytes. *)
Record view := mkView { v_kind : view_kind; v_buffer : nat; v_offset : nat; v_length : nat }.

#[export] Instance view_eq_dec : EqDecision view.
Proof. solve_decision. Defined.

Definition element_size (k : view_kind) : nat :=
  match k with
  | U8Array | I8Array | U8ClampedArray | DataView => 1
  | U16Array | I16Array | F16Array => 2
  | U32Array | I32Array | F32Array => 4
  | U64Array | I64Array | F64Array => 8
  end.

(** The number of elements, for the kinds that the check of [min] lists. *)
Definition typed_array_len (v : view) : option nat :=
  match v_kind v with
  | F16Array | U8ClampedArray | DataView => None
  | k => Some (v_length v / element_size k)
  end.

(** ** Promises *)

(** [ReadableStreamReadResult], or undefined. *)
Inductive read_result : Type := RUndefined | RChunk (chunk : view) | RDone (chunk : option view).

Inductive promise_state : Type := Pending | Fulfilled (r : read_result) | Rejected (reason : value).

Inductive promise_kind : Type := ForRead | ForSource | ForOther.

Record resolveable := mkRp { promise : nat; settles : bool }.

(** ** The stream, its controller and its readers *)

Inductive stream_state : Type := Readable | Closed | Errored (stored_error : value).

Record stream := mkStream { disturbed : bool; state : stream_state; reader : option nat }.

(** [PullIntoDescriptorReaderType] *)
Inductive reader_type : Type := TDefault | TByob | TNone.

#[export] Instance reader_type_eq_dec : EqDecision reader_type.
Proof. solve_decision. Defined.

Record descriptor := mkDescriptor {
  d_buffer : nat;
  buffer_byte_length : nat;
  d_offset : nat;
  d_length : nat;
  bytes_filled : nat;
  minimum_fill : nat;
  view_constructor : view_kind;
  d_type : reader_type;
}.

Definition d_element_size (d : descriptor) : nat := element_size (view_constructor d).

Record queue_entry := mkEntry { e_buffer : nat; e_offset : nat; e_length : nat }.

(** [algorithms] says whether the algorithms are set. *)
Record controller := mkController {
  auto_allocate_chunk_size : option nat;
  byob_request : option nat;
  algorithms : bool;
  close_requested : bool;
  pull_again : bool;
  pulling : bool;
  pending_pull_intos : list descriptor;
  queue : list queue_entry;
  queue_total_size : nat;
  started : bool;
  strategy_hwm : f64;
}.

Inductive reader_kind : Type := DefaultReader | ByobReader.

#[export] Instance reader_kind_eq_dec : EqDecision reader_kind.
Proof. solve_decision. Defined.

Record any_reader := mkReader {
  r_kind : reader_kind;
  closed_promise : resolveable;
  attached : bool;
  (** the promises of the read or read-into requests *)
  requests : list nat;
}.

Inductive reaction : Type := OnStart | OnPull | OnCancel (p : nat).

Inductive event : Type :=
| Accepted (bytes : list Z)
| ReadCall (p : nat)
| Taken (p : nat) (bytes : list Z)
| Delivered (p : nat) (bytes : list Z)
| SourcePull
| SourceCancel (reason : value)
| Tampered.

Record st := mkSt {
  buffers : list (option (list Z));
  shared : list nat;
  (** the BYOB requests: [None] when invalidated, or the view *)
  byob_requests : list (option view);
  promises : list (promise_kind * promise_state);
  reactions : list (nat * reaction);
  readers : list any_reader;
  strm : stream;
  ctrl : controller;
  log : list event;
}.

(** *** Assignments *)
Definition set_buffers (v : list (option (list Z))) (s : st) : st :=
  mkSt v (shared s) (byob_requests s) (promises s) (reactions s) (readers s) (strm s) (ctrl s) (log s).

Definition share (b : nat) (s : st) : st :=
  mkSt (buffers s) (b :: shared s) (byob_requests s) (promises s) (reactions s) (readers s) (strm s) (ctrl s) (log s).

Definition set_byob_requests (v : list (option view)) (s : st) : st :=
  mkSt (buffers s) (shared s) v (promises s) (reactions s) (readers s) (strm s) (ctrl s) (log s).

Definition set_promises (v : list (promise_kind * promise_state)) (s : st) : st :=
  mkSt (buffers s) (shared s) (byob_requests s) v (reactions s) (readers s) (strm s) (ctrl s) (log s).

Definition set_reactions (v : list (nat * reaction)) (s : st) : st :=
  mkSt (buffers s) (shared s) (byob_requests s) (promises s) v (readers s) (strm s) (ctrl s) (log s).

Definition set_readers (v : list any_reader) (s : st) : st :=
  mkSt (buffers s) (shared s) (byob_requests s) (promises s) (reactions s) v (strm s) (ctrl s) (log s).

Definition set_strm (v : stream) (s : st) : st :=
  mkSt (buffers s) (shared s) (byob_requests s) (promises s) (reactions s) (readers s) v (ctrl s) (log s).

Definition set_ctrl (v : controller) (s : st) : st :=
  mkSt (buffers s) (shared s) (byob_requests s) (promises s) (reactions s) (readers s) (strm s) v (log s).

Definition push_log (e : event) (s : st) : st :=
  mkSt (buffers s) (shared s) (byob_requests s) (promises s) (reactions s) (readers s) (strm s) (ctrl s) (log s ++ [e]).

Definition set_disturbed (v : bool) (s : st) : st :=
  set_strm (mkStream v (state (strm s)) (reader (strm s))) s.

Definition set_state (v : stream_state) (s : st) : st :=
  set_strm (mkStream (disturbed (strm s)) v (reader (strm s))) s.

Definition set_reader (v : option nat) (s : st) : st :=
  set_strm (mkStream (disturbed (strm s)) (state (strm s)) v) s.

Definition set_byob_request (v : option nat) (s : st) : st :=
  let c := ctrl s in
  set_ctrl (mkController (auto_allocate_chunk_size c) v (algorithms c) (close_requested c) (pull_again c) (pulling c)
    (pending_pull_intos c) (queue c) (queue_total_size c) (started c) (strategy_hwm c)) s.

Definition set_algorithms (v : bool) (s : st) : st :=
  let c := ctrl s in
  set_ctrl (mkController (auto_allocate_chunk_size c) (byob_request c) v (close_requested c) (pull_again c) (pulling c)
    (pending_pull_intos c) (queue c) (queue_total_size c) (started c) (strategy_hwm c)) s.

Definition set_close_requested (v : bool) (s : st) : st :=
  let c := ctrl s in
  set_ctrl (mkController (auto_allocate_chunk_size c) (byob_request c) (algorithms c) v (pull_again c) (pulling c)
    (pending_pull_intos c) (queue c) (queue_total_size c) (started c) (strategy_hwm c)) s.

Definition set_pull_again (v : bool) (s : st) : st :=
  let c := ctrl s in
  set_ctrl (mkController (auto_allocate_chunk_size c) (byob_request c) (algorithms c) (close_requested c) v (pulling c)
    (pending_pull_intos c) (queue c) (queue_total_size c) (started c) (strategy_hwm c)) s.

Definition set_pulling (v : bool) (s : st) : st :=
  let c := ctrl s in
  set_ctrl (mkController (auto_allocate_chunk_size c) (byob_request c) (algorithms c) (close_requested c) (pull_again c) v
    (pending_pull_intos c) (queue c) (queue_total_size c) (started c) (strategy_hwm c)) s.

Definition set_pending (v : list descriptor) (s : st) : st :=
  let c := ctrl s in
  set_ctrl (mkController (auto_allocate_chunk_size c) (byob_request c) (algorithms c) (close_requested c) (pull_again c)
    (pulling c) v (queue c) (queue_total_size c) (started c) (strategy_hwm c)) s.

Definition set_queue (v : list queue_entry) (total : nat) (s : st) : st :=
  let c := ctrl s in
  set_ctrl (mkController (auto_allocate_chunk_size c) (byob_request c) (algorithms c) (close_requested c) (pull_again c)
    (pulling c) (pending_pull_intos c) v total (started c) (strategy_hwm c)) s.

Definition set_started (v : bool) (s : st) : st :=
  let c := ctrl s in
  set_ctrl (mkController (auto_allocate_chunk_size c) (byob_request c) (algorithms c) (close_requested c) (pull_again c)
    (pulling c) (pending_pull_intos c) (queue c) (queue_total_size c) v (strategy_hwm c)) s.

Definition set_d_buffer (b : nat) (d : descriptor) : descriptor :=
  mkDescriptor b (buffer_byte_length d) (d_offset d) (d_length d) (bytes_filled d) (minimum_fill d) (view_constructor d) (d_type d).

Definition set_filled (n : nat) (d : descriptor) : descriptor :=
  mkDescriptor (d_buffer d) (buffer_byte_length d) (d_offset d) (d_length d) n (minimum_fill d) (view_constructor d) (d_type d).

Definition set_d_type (t : reader_type) (d : descriptor) : descriptor :=
  mkDescriptor (d_buffer d) (buffer_byte_length d) (d_offset d) (d_length d) (bytes_filled d) (minimum_fill d) (view_constructor d) t.

(** ** The monad *)

Abbreviation M A := (st -> option (result value A * st)).

Definition ret {A} (a : A) : M A := fun s => Some (Ok a, s).

Definition throw {A} (e : value) : M A := fun s => Some (Err e, s).

Definition panic {A} : M A := fun _ => None.

Definition bind {A B} (m : M A) (k : A -> M B) : M B := fun s =>
  match m s with
  | None => None
  | Some (Err e, s) => Some (Err e, s)
  | Some (Ok a, s) => k a s
  end.

Definition modify (f : st -> st) : M unit := fun s => Some (Ok tt, f s).

Definition gets {A} (f : st -> A) : M A := fun s => Some (Ok (f s), s).

(** [expect] and [unwrap] *)
Definition expect {A} (o : option A) : M A := fun s => match o with Some a => Some (Ok a, s) | None => None end.

Notation "'let*' x ':=' m 'in' k" := (bind m (fun x => k))
  (at level 10, x pattern, m at level 100, k at level 200,
   format "'[v' 'let*'  x  ':='  m  'in' '/' k ']'") : llrt_scope.

(** ** Promise operations *)

Definition new_promise (k : promise_kind) (r : promise_state) : M nat := fun s =>
  Some (Ok (length (promises s)), set_promises (promises s ++ [(k, r)]) s).

Definition resolved_with_undefined : resolveable := mkRp 0 false.

(** A settled promise stays as it is. *)
Definition settle (p : nat) (r : promise_state) (s : st) : st :=
  match promises s !! p with
  | Some (k, Pending) => set_promises (<[p := (k, r)]> (promises s)) s
  | _ => s
  end.

Definition resolve_undefined (rp : resolveable) (s : st) : st :=
  if settles rp then settle (promise rp) (Fulfilled RUndefined) s else s.

Definition reject (rp : resolveable) (v : value) (s : st) : st :=
  if settles rp then settle (promise rp) (Rejected v) s else s.

Definition upon_promise (p : nat) (r : reaction) (s : st) : st :=
  set_reactions (reactions s ++ [(p, r)]) s.

(** ** Buffers *)

Definition slice (data : list Z) (offset count : nat) : list Z := take count (drop offset data).

(** The bytes of a part of a buffer; a detached buffer has none. *)
Definition bytes_at (b offset count : nat) (s : st) : list Z :=
  match buffers s !! b with
  | Some (Some data) => slice data offset count
  | _ => []
  end.

(** [ArrayBuffer::len], 0 when detached. *)
Definition buffer_len (b : nat) (s : st) : nat :=
  match buffers s !! b with Some (Some data) => length data | _ => 0 end.

Definition is_detached (b : nat) (s : st) : bool :=
  match buffers s !! b with Some (Some _) => false | _ => true end.

Definition new_buffer (data : list Z) : M nat := fun s =>
  Some (Ok (length (buffers s)), set_buffers (buffers s ++ [Some data]) s).

Definition transfer_array_buffer (b : nat) : M nat := fun s =>
  match buffers s !! b with
  | Some (Some data) => Some (Ok (length (buffers s)), set_buffers (<[b := None]> (buffers s) ++ [Some data]) s)
  | _ => Some (Err Thrown, s)
  end.

(** [data] with [bytes] written at an offset. *)
Definition overwrite (data : list Z) (offset : nat) (bytes : list Z) : list Z :=
  take offset data ++ bytes ++ drop (offset + length bytes) data.

Definition copy_data_block_bytes (to_block to_index from_block from_index count : nat) : M unit := fun s =>
  match buffers s !! to_block, buffers s !! from_block with
  | Some (Some t), Some (Some f) =>
      if (to_index + count <=? length t) && (from_index + count <=? length f)
      then Some (Ok tt, set_buffers (<[to_block := Some (overwrite t to_index (slice f from_index count))]> (buffers s)) s)
      else None
  | _, _ => Some (Err Thrown, s)
  end.

(** [ViewBytes::get_array_buffer]: the buffer, byte length and byte offset;
    a view of a detached buffer has length and offset 0. *)
Definition get_array_buffer (v : view) : M (nat * nat * nat) := fun s =>
  Some (Ok (if is_detached (v_buffer v) s then (v_buffer v, 0, 0) else (v_buffer v, v_length v, v_offset v)), s).

(** The bytes that a descriptor holds. *)
Definition filled_bytes (d : descriptor) (s : st) : list Z := bytes_at (d_buffer d) (d_offset d) (bytes_filled d) s.

Definition entry_bytes (e : queue_entry) (s : st) : list Z := bytes_at (e_buffer e) (e_offset e) (e_length e) s.

(** ** Requests *)

Definition reader_at (r : option nat) (s : st) : option (nat * any_reader) :=
  let! i := r in
  let! rd := readers s !! i in
  Some (i, rd).

Definition set_requests (i : nat) (rd : any_reader) (ps : list nat) (s : st) : st :=
  set_readers (<[i := mkReader (r_kind rd) (closed_promise rd) (attached rd) ps]> (readers s)) s.

(** The number of read requests of a default reader, or of read-into requests
    of a BYOB reader. *)
Definition num_requests (r : option nat) (s : st) : nat :=
  match reader_at r s with Some (_, rd) => length (requests rd) | None => 0 end.

Definition add_request (i p : nat) (s : st) : st :=
  match readers s !! i with
  | Some rd => set_requests i rd (requests rd ++ [p]) s
  | None => s
  end.

(** The chunk steps of a request, or its close steps with a view. *)
Definition deliver (p : nat) (v : view) (done : bool) (s : st) : st :=
  share (v_buffer v) (settle p (Fulfilled (if done then RDone (Some v) else RChunk v))
    (push_log (Delivered p (bytes_at (v_buffer v) (v_offset v) (v_length v) s)) s)).

Definition close_steps (p : nat) (s : st) : st := settle p (Fulfilled (RDone None)) s.

Definition error_steps (p : nat) (e : value) (s : st) : st := settle p (Rejected e) s.

(** [ReadableStreamFulfillReadRequest] and [ReadableStreamFulfillReadIntoRequest]
    for the reader that the caller holds, which must be of the kind; the bytes
    of the view are taken by the request. *)
Definition fulfill_request (k : reader_kind) (r : option nat) (chunk : view) (done : bool) : M unit := fun s =>
  let! (i, rd) := reader_at r s in
  match k, r_kind rd with
  | DefaultReader, DefaultReader | ByobReader, ByobReader =>
      match requests rd with
      | [] => None
      | p :: ps =>
          let s := set_requests i rd ps s in
          let s := push_log (Taken p (bytes_at (v_buffer chunk) (v_offset chunk) (v_length chunk) s)) s in
          Some (Ok tt, match k with
                       | DefaultReader => if done then close_steps p s else deliver p chunk false s
                       | ByobReader => deliver p chunk done s
                       end)
      end
  | _, _ => None
  end.

Definition error_requests (i : nat) (rd : any_reader) (e : value) (s : st) : st :=
  foldl (fun s p => error_steps p e s) (set_requests i rd [] s) (requests rd).

(** ** The stream *)

Definition is_readable (s : st) : bool := match state (strm s) with Readable => true | _ => false end.

Definition is_closed (s : st) : bool := match state (strm s) with Closed => true | _ => false end.

Definition is_readable_stream_locked (s : st) : bool :=
  match reader (strm s) with Some _ => true | None => false end.

Definition readable_stream_error (r : option nat) (e : value) (s : st) : st :=
  let s := set_state (Errored e) s in
  match reader_at r s with
  | None => s
  | Some (i, rd) => error_requests i rd e (reject (closed_promise rd) e s)
  end.

(** Only the requests of a default reader are closed. *)
Definition readable_stream_close (r : option nat) (s : st) : st :=
  let s := set_state Closed s in
  match reader_at r s with
  | None => s
  | Some (i, rd) =>
      let s := resolve_undefined (closed_promise rd) s in
      match r_kind rd with
      | DefaultReader => foldl (fun s p => close_steps p s) (set_requests i rd [] s) (requests rd)
      | ByobReader => s
      end
  end.

(** ** The controller *)

Definition clear_algorithms (s : st) : st := set_algorithms false s.

Definition reset_queue (s : st) : st := set_queue [] 0 s.

Definition invalidate_byob_request (s : st) : st :=
  match byob_request (ctrl s) with
  | None => s
  | Some k => set_byob_request None (set_byob_requests (<[k := None]> (byob_requests s)) s)
  end.

Definition clear_pending_pull_intos (s : st) : st := set_pending [] (invalidate_byob_request s).

Definition get_desired_size (s : st) : option f64 :=
  match state (strm s) with
  | Errored _ => None
  | Closed => Some zero
  | Readable => Some (f64_sub (strategy_hwm (ctrl s)) (of_Z (Z.of_nat (queue_total_size (ctrl s)))))
  end.

Definition controller_error (r : option nat) (e : value) (s : st) : st :=
  if negb (is_readable s) then s
  else readable_stream_error r e (clear_algorithms (reset_queue (clear_pending_pull_intos s))).

Definition insufficient_bytes : value :=
  TypeError (str "Insufficient bytes to fill elements in the given buffer").

Definition controller_close (r : option nat) : M unit := fun s =>
  if close_requested (ctrl s) || negb (is_readable s) then Some (Ok tt, s)
  else if 0 <? queue_total_size (ctrl s) then Some (Ok tt, set_close_requested true s)
  else
    match pending_pull_intos (ctrl s) with
    | d :: _ =>
        if negb (bytes_filled d mod d_element_size d =? 0)
        then Some (Err insufficient_bytes, controller_error r insufficient_bytes s)
        else Some (Ok tt, readable_stream_close r (clear_algorithms s))
    | [] => Some (Ok tt, readable_stream_close r (clear_algorithms s))
    end.

Definition should_call_pull (r : option nat) (s : st) : option bool :=
  if negb (is_readable s) then Some false
  else if close_requested (ctrl s) then Some false
  else if negb (started (ctrl s)) then Some false
  else if 0 <? num_requests r s then Some true
  else let! desired_size := get_desired_size s in Some (SFltb zero desired_size).

Definition shift_pending_pull_into : M descriptor := fun s =>
  let s := invalidate_byob_request s in
  match pending_pull_intos (ctrl s) with
  | [] => None
  | d :: ds => Some (Ok d, set_pending ds s)
  end.

Definition enqueue_chunk_to_queue (b offset len : nat) (s : st) : st :=
  set_queue (queue (ctrl s) ++ [mkEntry b offset len]) (queue_total_size (ctrl s) + len) s.

(** The copy is of a live buffer; the slice must be in range. *)
Definition enqueue_cloned_chunk_to_queue (b offset len : nat) : M unit := fun s =>
  match buffers s !! b with
  | Some (Some data) =>
      if offset + len <=? length data then
        (let* clone := new_buffer (slice data offset len) in
         modify (enqueue_chunk_to_queue clone 0 len)) s
      else None
  | _ => None
  end.

Definition enqueue_detached_pull_into_to_queue (d : descriptor) : M unit :=
  let* _ := if 0 <? bytes_filled d then enqueue_cloned_chunk_to_queue (d_buffer d) (d_offset d) (bytes_filled d) else ret tt in
  let* _ := shift_pending_pull_into in
  ret tt.

Definition fill_head_pull_into_descriptor (size : nat) (d : descriptor) : descriptor :=
  set_filled (bytes_filled d + size) d.

(** [a + b] of two [usize], of which [b] is given by the program. *)
Definition usize_add (a : nat) (b : Z) : nat := Z.to_nat (wrap 64 (Z.of_nat a + b)).

Definition usize_wraps (a : nat) (b : Z) : bool := (2 ^ 64 <=? Z.of_nat a + b)%Z.

(** The loop of [fill_pull_into_descriptor_from_queue]; every turn copies at
    least a byte, so that the bytes that remain are enough fuel. *)
Fixpoint fill_loop (fuel remaining : nat) (d : descriptor) : M descriptor :=
  match remaining, fuel with
  | 0, _ => ret d
  | _, 0 => panic
  | _, S fuel =>
      let* q := gets (fun s => queue (ctrl s)) in
      match q with
      | [] => panic
      | e :: q =>
          let bytes_to_copy := Nat.min remaining (e_length e) in
          let* _ := copy_data_block_bytes (d_buffer d) (d_offset d + bytes_filled d) (e_buffer e) (e_offset e) bytes_to_copy in
          let q :=
            if e_length e =? bytes_to_copy then q
            else mkEntry (e_buffer e) (e_offset e + bytes_to_copy) (e_length e - bytes_to_copy) :: q in
          let* total := gets (fun s => queue_total_size (ctrl s)) in
          let* total := expect (usize_sub total bytes_to_copy) in
          let* _ := modify (set_queue q total) in
          fill_loop fuel (remaining - bytes_to_copy) (fill_head_pull_into_descriptor bytes_to_copy d)
      end
  end.

(** How many bytes to copy, and whether the descriptor is then ready. *)
Definition bytes_to_fill (total : nat) (d : descriptor) : option (nat * bool) :=
  let! room := usize_sub (d_length d) (bytes_filled d) in
  let max_bytes_to_copy := Nat.min total room in
  let max_bytes_filled := bytes_filled d + max_bytes_to_copy in
  let remainder_bytes := max_bytes_filled mod d_element_size d in
  let max_aligned_bytes := max_bytes_filled - remainder_bytes in
  if minimum_fill d <=? max_aligned_bytes then
    let! n := usize_sub max_aligned_bytes (bytes_filled d) in Some (n, true)
  else Some (max_bytes_to_copy, false).

(** Whether the descriptor is ready, and the descriptor. *)
Definition fill_pull_into_descriptor_from_queue (d : descriptor) : M (bool * descriptor) :=
  let* total := gets (fun s => queue_total_size (ctrl s)) in
  let* (n, ready) := expect (bytes_to_fill total d) in
  let* d := fill_loop n n d in
  ret (ready, d).

(** The view constructor applied to the transferred buffer. *)
Definition convert_pull_into_descriptor (d : descriptor) : M view :=
  let* b := transfer_array_buffer (d_buffer d) in
  ret (mkView (view_constructor d) b (d_offset d) (bytes_filled d / d_element_size d * d_element_size d)).

Definition commit_pull_into_descriptor (r : option nat) (d : descriptor) : M unit :=
  let* done := gets is_closed in
  let* filled_view := convert_pull_into_descriptor d in
  match d_type d with
  | TDefault => fulfill_request DefaultReader r filled_view done
  | _ => fulfill_request ByobReader r filled_view done
  end.

(** The descriptor at the index 0 is filled in place. *)
Fixpoint process_pull_into_loop (fuel : nat) (r : option nat) : M unit :=
  match fuel with
  | 0 => panic
  | S fuel =>
      let* pending := gets (fun s => pending_pull_intos (ctrl s)) in
      let* total := gets (fun s => queue_total_size (ctrl s)) in
      match pending with
      | [] => ret tt
      | d :: ds =>
          if total =? 0 then ret tt
          else
            let* (ready, d) := fill_pull_into_descriptor_from_queue d in
            let* _ := modify (set_pending (d :: ds)) in
            let* _ :=
              if ready then
                let* d := shift_pending_pull_into in
                commit_pull_into_descriptor r d
              else ret tt in
            process_pull_into_loop fuel r
      end
  end.

(** A turn of the loop takes the first descriptor or empties the queue. *)
Definition process_pull_into_descriptors_using_queue (r : option nat) : M unit :=
  let* pending := gets (fun s => pending_pull_intos (ctrl s)) in
  process_pull_into_loop (2 + length pending) r.

(** ** The calls of the program *)

Inductive call : Type :=
| CNewBuffer (data : list Z)
| CWrite (b offset : nat) (data : list Z)
| CTransfer (b : nat)
| CEnqueue (v : view)
| CEnqueueBytes (b : nat)
| CEnqueueBorrowed (data : list Z)
| CClose
| CCloseStream
| CError (e : value)
| CByobRequest
| CRespond (k : nat) (bytes_written : Z)
| CRespondWithNewView (k : nat) (v : view)
| CGetReader (k : reader_kind)
| CRead (i : nat)
| CByobRead (i : nat) (v : view) (min : option f64)
| CReleaseLock (i : nat)
| CCancel (reason : value)
| CReaderCancel (i : nat) (reason : value).

(** A view that the program can make: of a buffer it can reach, with whole
    elements and inside the buffer. *)
Definition view_ok (v : view) (s : st) : bool :=
  bool_decide (v_buffer v ∈ shared s) &&
  (v_length v mod element_size (v_kind v) =? 0) &&
  (is_detached (v_buffer v) s || (v_offset v + v_length v <=? buffer_len (v_buffer v) s)).

(** Whether a write or a transfer by the program touches bytes that the first
    descriptor holds already. *)
Definition touches_filled (b offset count : nat) (s : st) : bool :=
  match pending_pull_intos (ctrl s) with
  | d :: _ =>
      (d_buffer d =? b) && (0 <? bytes_filled d) &&
      (offset <? d_offset d + bytes_filled d) && (d_offset d <? offset + count)
  | [] => false
  end.

Definition note_tampering (t : bool) (s : st) : st := if t then push_log Tampered s else s.

(** The program gives a buffer away, or transfers it. *)
Definition note_reuse (b : nat) (s : st) : st := note_tampering (touches_filled b 0 (buffer_len b s) s) s.

Section Source.
(** What the source's [pull] calls, by the log so far. *)
Variable source : list event -> list call.

Section Run.
(** How a call made by [pull] runs. *)
Variable run : call -> st -> option st.

Fixpoint run_all (cs : list call) (s : st) : option st :=
  match cs with
  | [] => Some s
  | c :: cs => let! s := run c s in run_all cs s
  end.

Definition pull_algorithm (s : st) : option (nat * st) :=
  if algorithms (ctrl s) then
    let s := push_log SourcePull s in
    let! s := run_all (source (log s)) s in
    Some (length (promises s), set_promises (promises s ++ [(ForSource, Pending)]) s)
  else None.

Definition call_pull_if_needed (r : option nat) : M unit := fun s =>
  let! should_pull := should_call_pull r s in
  if negb should_pull then Some (Ok tt, s)
  else if pulling (ctrl s) then Some (Ok tt, set_pull_again true s)
  else
    let! (p, s) := pull_algorithm (set_pulling true s) in
    Some (Ok tt, upon_promise p OnPull s).

Definition handle_queue_drain (r : option nat) : M unit := fun s =>
  if (queue_total_size (ctrl s) =? 0) && close_requested (ctrl s)
  then Some (Ok tt, readable_stream_close r (clear_algorithms s))
  else call_pull_if_needed r s.

(** The read request is given by its promise. *)
Definition fill_read_request_from_queue (r : option nat) (p : nat) : M unit :=
  let* q := gets (fun s => queue (ctrl s)) in
  match q with
  | [] => panic
  | e :: q =>
      let* total := gets (fun s => queue_total_size (ctrl s)) in
      let* total := expect (usize_sub total (e_length e)) in
      let* _ := modify (set_queue q total) in
      let* _ := modify (fun s => push_log (Taken p (entry_bytes e s)) s) in
      let* _ := handle_queue_drain r in
      let* detached := gets (is_detached (e_buffer e)) in
      if detached then throw Thrown
      else modify (deliver p (mkView U8Array (e_buffer e) (e_offset e) (e_length e)) false)
  end.

(** The reader that the caller holds is a default reader. *)
Fixpoint process_read_requests_loop (fuel : nat) (r : option nat) : M unit :=
  match fuel with
  | 0 => panic
  | S fuel =>
      let* held := gets (reader_at r) in
      let* total := gets (fun s => queue_total_size (ctrl s)) in
      match held with
      | Some (i, rd) =>
          match requests rd with
          | [] => ret tt
          | p :: ps =>
              if total =? 0 then ret tt
              else
                let* _ := modify (set_requests i rd ps) in
                let* _ := fill_read_request_from_queue r p in
                process_read_requests_loop fuel r
          end
      | None => ret tt
      end
  end.

Definition process_read_requests_using_queue (r : option nat) : M unit :=
  let* q := gets (fun s => queue (ctrl s)) in
  process_read_requests_loop (2 + length q) r.

(** The chunk goes to the end of the queue. *)
Definition accept_to_queue (b offset len : nat) (s : st) : st :=
  enqueue_chunk_to_queue b offset len (push_log (Accepted (bytes_at b offset len s)) s).

(** The first pending descriptor gets its buffer back by a transfer, and a
    detached one moves to the queue. *)
Definition prepare_first_pending : M unit :=
  let* pending := gets (fun s => pending_pull_intos (ctrl s)) in
  match pending with
  | [] => ret tt
  | d :: ds =>
      let* detached := gets (is_detached (d_buffer d)) in
      if detached
      then throw (TypeError (str "The BYOB request's buffer has been detached and so cannot be filled with an enqueued chunk"))
      else
        let* _ := modify invalidate_byob_request in
        let* b := transfer_array_buffer (d_buffer d) in
        let d := set_d_buffer b d in
        let* _ := modify (set_pending (d :: ds)) in
        match d_type d with
        | TNone => enqueue_detached_pull_into_to_queue d
        | _ => ret tt
        end
  end.

Definition enqueue_with_default_reader (r : option nat) (b offset len : nat) : M unit :=
  let* _ := process_read_requests_using_queue r in
  let* n := gets (num_requests r) in
  if n =? 0 then modify (accept_to_queue b offset len)
  else
    let* pending := gets (fun s => pending_pull_intos (ctrl s)) in
    let* _ := match pending with [] => ret tt | _ => let* _ := shift_pending_pull_into in ret tt end in
    let* _ := modify (fun s => push_log (Accepted (bytes_at b offset len s)) s) in
    fulfill_request DefaultReader r (mkView U8Array b offset len) false.

Definition controller_enqueue_impl (r : option nat) (chunk : view) (skip_transfer : bool) : M unit := fun s =>
  if close_requested (ctrl s) || negb (is_readable s) then Some (Ok tt, s)
  else
    (let* (buffer, byte_length, byte_offset) := get_array_buffer chunk in
     let* detached := gets (is_detached buffer) in
     if detached then throw (TypeError (str "chunk's buffer is detached and so cannot be enqueued"))
     else
       let* b := if skip_transfer then ret buffer else transfer_array_buffer buffer in
       let* _ := prepare_first_pending in
       let* held := gets (reader_at r) in
       let* _ :=
         match held with
         | Some (_, rd) =>
             match r_kind rd with
             | DefaultReader => enqueue_with_default_reader r b byte_offset byte_length
             | ByobReader =>
                 let* _ := modify (accept_to_queue b byte_offset byte_length) in
                 process_pull_into_descriptors_using_queue r
             end
         | None => modify (accept_to_queue b byte_offset byte_length)
         end in
       call_pull_if_needed r) s.

(** The read-into request is given by its promise. *)
Definition controller_pull_into (i : nat) (v : view) (min : nat) (p : nat) : M unit :=
  let minimum_fill := min * element_size (v_kind v) in
  let* (buffer, byte_length, byte_offset) := get_array_buffer v in
  let* detached := gets (is_detached buffer) in
  if detached then modify (error_steps p Thrown)
  else
    let* b := transfer_array_buffer buffer in
    let* n := gets (buffer_len b) in
    let d := mkDescriptor b n byte_offset byte_length 0 minimum_fill (v_kind v) TByob in
    let* pending := gets (fun s => pending_pull_intos (ctrl s)) in
    match pending with
    | _ :: _ => modify (fun s => add_request i p (set_pending (pending ++ [d]) s))
    | [] =>
        let* closed := gets is_closed in
        if closed then modify (fun s => deliver p (mkView (v_kind v) b byte_offset 0) true (push_log (Taken p []) s))
        else
          let* total := gets (fun s => queue_total_size (ctrl s)) in
          let* (ready, d) := if 0 <? total then fill_pull_into_descriptor_from_queue d else ret (false, d) in
          let* closing := gets (fun s => close_requested (ctrl s)) in
          if ready then
            let* filled_view := convert_pull_into_descriptor d in
            let* _ := modify (fun s => push_log
              (Taken p (bytes_at (v_buffer filled_view) (v_offset filled_view) (v_length filled_view) s)) s) in
            let* _ := handle_queue_drain (Some i) in
            modify (deliver p filled_view false)
          else if (0 <? total) && closing then
            modify (fun s => error_steps p insufficient_bytes (controller_error (Some i) insufficient_bytes s))
          else
            let* _ := modify (fun s => add_request i p (set_pending (pending_pull_intos (ctrl s) ++ [d]) s)) in
            call_pull_if_needed (Some i)
    end.

Fixpoint respond_closed_loop (fuel : nat) (r : option nat) : M unit :=
  match fuel with
  | 0 => panic
  | S fuel =>
      let* n := gets (num_requests r) in
      if n =? 0 then ret tt
      else
        let* d := shift_pending_pull_into in
        let* _ := commit_pull_into_descriptor r d in
        respond_closed_loop fuel r
  end.

Definition respond_in_closed_state (r : option nat) (d : descriptor) : M unit :=
  let* _ := match d_type d with TNone => let* _ := shift_pending_pull_into in ret tt | _ => ret tt end in
  let* held := gets (reader_at r) in
  match held with
  | Some (_, rd) =>
      match r_kind rd with
      | ByobReader => respond_closed_loop (S (length (requests rd))) r
      | DefaultReader => ret tt
      end
  | None => ret tt
  end.

(** [fill_head_pull_into_descriptor] for the count of a response. *)
Definition fill_head_with (bytes_written : Z) (d : descriptor) : descriptor :=
  set_filled (usize_add (bytes_filled d) bytes_written) d.

Definition note_response (bytes_written : Z) (d : descriptor) (s : st) : st :=
  if usize_wraps (bytes_filled d) bytes_written then push_log Tampered s
  else push_log (Accepted (bytes_at (d_buffer d) (d_offset d + bytes_filled d) (Z.to_nat bytes_written) s)) s.

(** [d] is the first descriptor and [ds] are the others. *)
Definition respond_in_readable_state (r : option nat) (bytes_written : Z) (d : descriptor) (ds : list descriptor) : M unit :=
  let* _ := modify (note_response bytes_written d) in
  let d := fill_head_with bytes_written d in
  let* _ := modify (set_pending (d :: ds)) in
  match d_type d with
  | TNone =>
      let* _ := enqueue_detached_pull_into_to_queue d in
      process_pull_into_descriptors_using_queue r
  | _ =>
      if bytes_filled d <? minimum_fill d then ret tt
      else
        let* d := shift_pending_pull_into in
        let remainder_size := bytes_filled d mod d_element_size d in
        let* _ :=
          if 0 <? remainder_size then
            let* start := expect (usize_sub (d_offset d + bytes_filled d) remainder_size) in
            enqueue_cloned_chunk_to_queue (d_buffer d) start remainder_size
          else ret tt in
        let d := set_filled (bytes_filled d - remainder_size) d in
        let* _ := commit_pull_into_descriptor r d in
        process_pull_into_descriptors_using_queue r
  end.

Definition respond_internal (r : option nat) (bytes_written : Z) : M unit :=
  let* _ := modify invalidate_byob_request in
  let* closed := gets is_closed in
  let* pending := gets (fun s => pending_pull_intos (ctrl s)) in
  let* _ :=
    match pending with
    | [] => panic
    | d :: ds => if closed then respond_in_closed_state r d else respond_in_readable_state r bytes_written d ds
    end in
  call_pull_if_needed r.

(** An index of an empty [VecDeque] panics. *)
Definition controller_respond (r : option nat) (bytes_written : Z) : M unit :=
  let* pending := gets (fun s => pending_pull_intos (ctrl s)) in
  let* closed := gets is_closed in
  match pending with
  | [] => panic
  | d :: ds =>
      if closed && negb (bytes_written =? 0)%Z then
        throw (TypeError (str "bytesWritten must be 0 when calling respond() on a closed stream"))
      else if negb closed && (bytes_written =? 0)%Z then
        throw (TypeError (str "bytesWritten must be greater than 0 when calling respond() on a readable stream"))
      else if negb closed && (d_length d <? usize_add (bytes_filled d) bytes_written) then
        throw (RangeError (str "bytesWritten out of range'"))
      else
        let* b := transfer_array_buffer (d_buffer d) in
        let* _ := modify (set_pending (set_d_buffer b d :: ds)) in
        respond_internal r bytes_written
  end.

Definition controller_respond_with_new_view (r : option nat) (v : view) : M unit :=
  let* (buffer, byte_length, byte_offset) := get_array_buffer v in
  let* pending := gets (fun s => pending_pull_intos (ctrl s)) in
  let* closed := gets is_closed in
  let* len := gets (buffer_len buffer) in
  if closed && negb (byte_length =? 0) then
    throw (TypeError (str "The view's length must be 0 when calling respondWithNewView() on a closed stream"))
  else if negb closed && (byte_length =? 0) then
    throw (TypeError (str "The view's length must be greater than 0 when calling respondWithNewView() on a readable stream"))
  else
    match pending with
    | [] => panic
    | d :: ds =>
        if negb (d_offset d + bytes_filled d =? byte_offset) then
          throw (RangeError (str "The region specified by view does not match byobRequest"))
        else if negb (buffer_byte_length d =? len) then
          throw (RangeError (str "The buffer of view has different capacity than byobRequest"))
        else if d_length d <? usize_add (bytes_filled d) (Z.of_nat byte_length) then
          throw (RangeError (str "The region specified by view is larger than byobRequest"))
        else
          let* before := gets (filled_bytes d) in
          let* b := transfer_array_buffer buffer in
          let* _ := modify (set_pending (set_d_buffer b d :: ds)) in
          let* after := gets (filled_bytes (set_d_buffer b d)) in
          let* _ := modify (note_tampering (negb (bool_decide (before = after)))) in
          respond_internal r (Z.of_nat byte_length)
    end.

(** *** ReadableByteStreamController *)

Definition pull_steps (i p : nat) : M unit :=
  let* total := gets (fun s => queue_total_size (ctrl s)) in
  if 0 <? total then fill_read_request_from_queue (Some i) p
  else
    let* auto := gets (fun s => auto_allocate_chunk_size (ctrl s)) in
    let* _ :=
      match auto with
      | Some n =>
          let* b := new_buffer (replicate n 0%Z) in
          modify (fun s => set_pending (pending_pull_intos (ctrl s) ++ [mkDescriptor b n 0 n 0 1 U8Array TDefault]) s)
      | None => ret tt
      end in
    let* _ := modify (add_request i p) in
    call_pull_if_needed (Some i).

Definition cancel_steps (reason : value) : M nat :=
  let* _ := modify clear_pending_pull_intos in
  let* _ := modify reset_queue in
  let* set := gets (fun s => algorithms (ctrl s)) in
  if set then
    let* _ := modify (push_log (SourceCancel reason)) in
    let* p := new_promise ForSource Pending in
    let* _ := modify clear_algorithms in
    ret p
  else panic.

Definition release_steps (s : st) : st :=
  match pending_pull_intos (ctrl s) with
  | [] => s
  | d :: _ => set_pending [set_d_type TNone d] s
  end.

Definition byob_request_getter : M (option nat) := fun s =>
  match byob_request (ctrl s), pending_pull_intos (ctrl s) with
  | None, d :: _ =>
      if is_detached (d_buffer d) s then Some (Err Thrown, s)
      else
        let! len := usize_sub (d_length d) (bytes_filled d) in
        let k := length (byob_requests s) in
        let v := mkView U8Array (d_buffer d) (d_offset d + bytes_filled d) len in
        Some (Ok (Some k), share (d_buffer d) (set_byob_request (Some k) (set_byob_requests (byob_requests s ++ [Some v]) s)))
  | k, _ => Some (Ok k, s)
  end.

Definition close : M unit := fun s =>
  if close_requested (ctrl s) then Some (Err (TypeError (str "close() called more than once")), s)
  else if negb (is_readable s) then Some (Err (TypeError (str "close() called when stream is not readable")), s)
  else controller_close (reader (strm s)) s.

Definition enqueue (chunk : view) : M unit :=
  let* (buffer, byte_length, _) := get_array_buffer chunk in
  let* n := gets (buffer_len buffer) in
  if byte_length =? 0 then throw (TypeError (str "chunk must have non-zero byteLength"))
  else if n =? 0 then throw (TypeError (str "chunk must have non-zero buffer byteLength"))
  else fun s =>
    if close_requested (ctrl s) then Some (Err (TypeError (str "stream is closed or draining")), s)
    else if negb (is_readable s) then
      Some (Err (TypeError (str "The stream is not in the readable state and cannot be enqueued to")), s)
    else controller_enqueue_impl (reader (strm s)) chunk false s.

Definition error (e : value) (s : st) : st := controller_error (reader (strm s)) e s.

(** The functions for Rust code. *)
Definition enqueue_bytes_inner (b : nat) (skip_transfer : bool) : M unit := fun s =>
  let n := buffer_len b s in
  if n =? 0 then Some (Ok tt, s)
  else controller_enqueue_impl (reader (strm s)) (mkView U8Array b 0 n) skip_transfer s.

Definition close_stream : M unit := fun s => controller_close (reader (strm s)) s.

(** *** ReadableStreamBYOBRequest *)

Definition invalidated : value := TypeError (str "This BYOB request has been invalidated").

Definition respond (k : nat) (bytes_written : Z) : M unit := fun s =>
  match byob_requests s !! k with
  | Some (Some v) =>
      if is_detached (v_buffer v) s then
        Some (Err (TypeError (str "The BYOB request's buffer has been detached and so cannot be used as a response")), s)
      else controller_respond (reader (strm s)) bytes_written s
  | _ => Some (Err invalidated, s)
  end.

Definition respond_with_new_view (k : nat) (v : view) : M unit := fun s =>
  match byob_requests s !! k with
  | Some (Some _) =>
      if is_detached (v_buffer v) s then
        Some (Err (TypeError (str "The given view's buffer has been detached and so cannot be used as a response")), s)
      else controller_respond_with_new_view (reader (strm s)) v s
  | _ => Some (Err invalidated, s)
  end.

(** *** ReadableStream *)

Fixpoint close_read_intos (ps : list nat) (s : st) : st :=
  match ps with
  | [] => s
  | p :: ps => close_read_intos ps (close_steps p s)
  end.

Definition readable_stream_cancel (r : option nat) (reason : value) : M nat := fun s =>
  let s := set_disturbed true s in
  match state (strm s) with
  | Closed => new_promise ForOther (Fulfilled RUndefined) s
  | Errored e => new_promise ForOther (Rejected e) s
  | Readable =>
      let s := readable_stream_close r s in
      let s := match reader_at r s with
               | Some (i, rd) =>
                   match r_kind rd with
                   | ByobReader => close_read_intos (requests rd) (set_requests i rd [] s)
                   | DefaultReader => s
                   end
               | None => s
               end in
      (let* source_cancel_promise := cancel_steps reason in
       let* p := new_promise ForOther Pending in
       let* _ := modify (upon_promise source_cancel_promise (OnCancel p)) in
       ret p) s
  end.

Definition cancel (reason : value) : M nat := fun s =>
  if is_readable_stream_locked s then
    new_promise ForOther (Rejected (TypeError (str "Cannot cancel a stream that already has a reader"))) s
  else readable_stream_cancel (reader (strm s)) reason s.

Definition generic_initialize : M resolveable := fun s =>
  match state (strm s) with
  | Readable => (let* p := new_promise ForOther Pending in ret (mkRp p true)) s
  | Closed => Some (Ok resolved_with_undefined, s)
  | Errored e => (let* p := new_promise ForOther (Rejected e) in ret (mkRp p false)) s
  end.

Definition set_up_reader (k : reader_kind) : M nat :=
  let* locked := gets is_readable_stream_locked in
  if locked then
    throw (TypeError (str "This stream has already been locked for exclusive reading by another reader"))
  else
    let* rp := generic_initialize in
    let* i := gets (fun s => length (readers s)) in
    let* _ := modify (fun s => set_reader (Some i) (set_readers (readers s ++ [mkReader k rp true []]) s)) in
    ret i.

(** *** Readers *)

Definition attached_reader (k : reader_kind) (i : nat) (s : st) : bool :=
  match readers s !! i with
  | Some rd => match k, r_kind rd with
               | DefaultReader, DefaultReader | ByobReader, ByobReader => attached rd
               | _, _ => false
               end
  | None => false
  end.

Definition default_reader_read (i p : nat) : M unit := fun s =>
  let s := set_disturbed true s in
  match state (strm s) with
  | Closed => Some (Ok tt, close_steps p s)
  | Errored e => Some (Ok tt, error_steps p e s)
  | Readable => pull_steps i p s
  end.

Definition new_read : M nat :=
  let* p := new_promise ForRead Pending in
  let* _ := modify (push_log (ReadCall p)) in
  ret p.

Definition read (i : nat) : M nat :=
  let* ok := gets (attached_reader DefaultReader i) in
  if negb ok then
    new_promise ForOther (Rejected (TypeError (str "Cannot read from a stream using a released reader")))
  else
    let* p := new_read in
    let* _ := default_reader_read i p in
    ret p.

Definition byob_reader_read (i : nat) (v : view) (min p : nat) : M unit := fun s =>
  let s := set_disturbed true s in
  match state (strm s) with
  | Errored e => Some (Ok tt, error_steps p e s)
  | _ => controller_pull_into i v min p s
  end.

(** [ReadableStreamBYOBReaderReadOptions::from_js] *)
Definition read_options (min : option f64) : result value nat :=
  let min := default one min in
  if SFltb min zero || SFltb (of_Z (2 ^ 64 - 1)) min then
    Err (TypeError (str "min on ReadableStreamBYOBReaderReadOptions must fit into unsigned long long"))
  else Ok (Z.to_nat (as_usize min)).

(** An exception becomes a rejected promise ([with_promise_result]). *)
Definition byob_read_checks (v : view) (byte_length len : nat) (detached : bool) (min : nat) : option value :=
  if byte_length =? 0 then Some (TypeError (str "view must have non-zero byteLength"))
  else if len =? 0 then Some (TypeError (str "view's buffer must have non-zero byteLength"))
  else if detached then Some (TypeError (str "view's buffer has been detached"))
  else if min =? 0 then Some (TypeError (str "options.min must be greater than 0"))
  else
    match typed_array_len v with
    | Some n =>
        if n <? min then Some (RangeError (str "options.min must be less than or equal to views length")) else None
    | None =>
        if byte_length <? min then Some (RangeError (str "options.min must be less than or equal to views byteLength"))
        else None
    end.

Definition byob_read (i : nat) (v : view) (min : option f64) : M nat :=
  match read_options min with
  | Err e => new_promise ForOther (Rejected e)
  | Ok min =>
      let* (buffer, byte_length, _) := get_array_buffer v in
      let* len := gets (buffer_len buffer) in
      let* detached := gets (is_detached buffer) in
      match byob_read_checks v byte_length len detached min with
      | Some e => new_promise ForOther (Rejected e)
      | None =>
          let* ok := gets (attached_reader ByobReader i) in
          if negb ok then
            new_promise ForOther (Rejected (TypeError (str "Cannot read a stream using a released reader")))
          else
            let* p := new_read in
            let* _ := byob_reader_read i v min p in
            ret p
      end
  end.

Definition released_error : value :=
  TypeError (str "Reader was released and can no longer be used to monitor the stream's closedness").

Definition generic_release (i : nat) (rd : any_reader) (s : st) : st :=
  let '(closed, s) :=
    match state (strm s) with
    | Readable => (closed_promise rd, reject (closed_promise rd) released_error s)
    | _ => (mkRp (length (promises s)) false, set_promises (promises s ++ [(ForOther, Rejected released_error)]) s)
    end in
  let s := set_reader None (release_steps s) in
  set_readers (<[i := mkReader (r_kind rd) closed false (requests rd)]> (readers s)) s.

Definition reader_release (i : nat) (rd : any_reader) (s : st) : st :=
  let s := generic_release i rd s in
  match readers s !! i with
  | Some rd => error_requests i rd (TypeError (str "Reader was released")) s
  | None => s
  end.

Definition release_lock (i : nat) (s : st) : st :=
  match readers s !! i with
  | Some rd => if attached rd then reader_release i rd s else s
  | None => s
  end.

Definition reader_cancel (i : nat) (reason : value) : M nat := fun s =>
  match readers s !! i with
  | Some rd =>
      if attached rd then readable_stream_cancel (Some i) reason s
      else new_promise ForOther (Rejected (TypeError (str "Cannot cancel a stream using a released reader"))) s
  | None => Some (Ok 0, s)
  end.

(** The state after a call; what it returns or throws goes to the caller. *)
Definition exec {A} (m : M A) (s : st) : option st := let! (_, s) := m s in Some s.

Definition run_call (c : call) (s : st) : option st :=
  match c with
  | CNewBuffer data => exec (let* b := new_buffer data in modify (share b)) s
  | CWrite b offset data =>
      match buffers s !! b with
      | Some (Some old) =>
          if bool_decide (b ∈ shared s) && (offset + length data <=? length old) then
            Some (set_buffers (<[b := Some (overwrite old offset data)]> (buffers s))
              (note_tampering (touches_filled b offset (length data) s) s))
          else Some s
      | _ => Some s
      end
  | CTransfer b =>
      if bool_decide (b ∈ shared s) then
        exec (let* b := transfer_array_buffer b in modify (share b)) (note_reuse b s)
      else Some s
  | CEnqueue v => if view_ok v s then exec (enqueue v) (note_reuse (v_buffer v) s) else Some s
  | CEnqueueBytes b =>
      if bool_decide (b ∈ shared s) then exec (enqueue_bytes_inner b false) (note_reuse b s) else Some s
  | CEnqueueBorrowed data => exec (let* b := new_buffer data in enqueue_bytes_inner b true) s
  | CClose => exec close s
  | CCloseStream => exec close_stream s
  | CError e => Some (error e s)
  | CByobRequest => exec byob_request_getter s
  | CRespond k n => if (0 <=? n)%Z && (n <? 2 ^ 64)%Z then exec (respond k n) s else Some s
  | CRespondWithNewView k v => if view_ok v s then exec (respond_with_new_view k v) s else Some s
  | CGetReader k => exec (set_up_reader k) s
  | CRead i => exec (read i) s
  | CByobRead i v min => if view_ok v s then exec (byob_read i v min) (note_reuse (v_buffer v) s) else Some s
  | CReleaseLock i => Some (release_lock i s)
  | CCancel reason => exec (cancel reason) s
  | CReaderCancel i reason => exec (reader_cancel i reason) s
  end.
End Run.

(** A call made by [pull]; it does not pull, since the stream is pulling. *)
Definition inner_call : call -> st -> option st := run_call (fun _ _ => None).

Definition outer_call : call -> st -> option st := run_call inner_call.

(** ** Jobs *)

(** The callbacks; [None] is fulfillment, [Some reason] rejection. *)
Definition on_start (rejection : option value) (s : st) : option st :=
  let r := reader (strm s) in
  match rejection with
  | None => exec (call_pull_if_needed inner_call r) (set_started true s)
  | Some e => Some (controller_error r e s)
  end.

Definition on_pull (rejection : option value) (s : st) : option st :=
  let r := reader (strm s) in
  match rejection with
  | None =>
      let s := set_pulling false s in
      if pull_again (ctrl s) then exec (call_pull_if_needed inner_call r) (set_pull_again false s) else Some s
  | Some e => Some (controller_error r e s)
  end.

Definition on_cancel (p : nat) (rejection : option value) (s : st) : option st :=
  Some (settle p (match rejection with None => Fulfilled RUndefined | Some e => Rejected e end) s).

Definition react (r : reaction) (rejection : option value) (s : st) : option st :=
  match r with
  | OnStart => on_start rejection s
  | OnPull => on_pull rejection s
  | OnCancel p => on_cancel p rejection s
  end.

(** Run the reaction at an index if its promise is settled. *)
Definition run_job (i : nat) (s : st) : option st :=
  match reactions s !! i with
  | None => Some s
  | Some (p, r) =>
      let s' := set_reactions (delete i (reactions s)) s in
      match promises s !! p with
      | Some (_, Fulfilled _) => react r None s'
      | Some (_, Rejected reason) => react r (Some reason) s'
      | _ => Some s
      end
  end.

(** The source settles a promise it returned. *)
Definition settle_source (p : nat) (rejection : option value) (s : st) : st :=
  match promises s !! p with
  | Some (ForSource, _) => settle p (match rejection with None => Fulfilled RUndefined | Some r => Rejected r end) s
  | _ => s
  end.

(** ** Construction *)

(** SetUpReadableByteStreamController; the promise of [start] is the second of
    the store. *)
Definition set_up_controller (high_water_mark : f64) (auto : option nat) : st :=
  let s := mkSt [] [] [] [(ForOther, Fulfilled RUndefined); (ForSource, Pending)] [] [] (mkStream false Readable None)
    (mkController auto None true false false false [] [] 0 false high_water_mark) [] in
  upon_promise 1 OnStart s.

Definition set_up_from_underlying_source (high_water_mark : f64) (auto : option nat) : result value st :=
  match auto with
  | Some 0 => Err (TypeError (str "autoAllocateChunkSize must be greater than 0"))
  | _ => Ok (set_up_controller high_water_mark auto)
  end.

Inductive action : Type :=
| ACall (c : call)
| ASettle (p : nat) (rejection : option value)
| AJob (i : nat).

Definition act (a : action) (s : st) : option st :=
  match a with
  | ACall c => outer_call c s
  | ASettle p rejection => Some (settle_source p rejection s)
  | AJob i => run_job i s
  end.

Fixpoint acts (l : list action) (s : st) : option st :=
  match l with
  | [] => Some s
  | a :: l => let! s := act a s in acts l s
  end.
End Source.
