(* ===== verification/ByteCore.v ===== *)
(** * The memory of a readable byte stream

    What holds of the buffers, the queue and the descriptors of a byte stream
    between the steps of its operations, and what the steps that move bytes do
    to it: no byte is lost, repeated or reordered between the chunks that the
    stream accepts and the reads that take them. *)
From Stdlib Require Import ZArith Lia SpecFloat.
From stdpp Require Import base list numbers strings sets.
From S2P Require Import Prelude F64 ByteStream.

(** ** The specification's view of the log *)

Definition accepted (l : list event) : list Z :=
  l ≫= (fun e => match e with Accepted bs => bs | _ => [] end).

Definition taken (l : list event) : list Z :=
  l ≫= (fun e => match e with Taken _ bs => bs | _ => [] end).

Definition filled (V : list descriptor) (s : st) : list Z := V ≫= (fun d => filled_bytes d s).

Definition queued (s : st) : list Z := queue (ctrl s) ≫= (fun e => entry_bytes e s).

#[global] Arguments accepted : simpl never.
#[global] Arguments taken : simpl never.
#[global] Arguments filled : simpl never.
#[global] Arguments queued : simpl never.

(** ** The invariant *)

Definition live (b : nat) (data : list Z) (s : st) : Prop := buffers s !! b = Some (Some data).

(** A buffer that neither the program nor the stream's own lists can reach. *)
Definition isolated (V : list descriptor) (b : nat) (data : list Z) (s : st) : Prop :=
  live b data s ∧ (b ∉ shared s) ∧ (b ∉ e_buffer <$> queue (ctrl s)) ∧ (b ∉ d_buffer <$> V).

Definition entry_ok (s : st) (e : queue_entry) : Prop :=
  0 < e_length e ∧ (e_buffer e ∉ shared s) ∧
  exists data, live (e_buffer e) data s ∧ e_offset e + e_length e <= length data.

(** The numbers of a descriptor. *)
Definition desc_ok (d : descriptor) : Prop :=
  bytes_filled d <= d_length d ∧ d_offset d + d_length d <= buffer_byte_length d ∧
  0 < minimum_fill d <= d_length d ∧
  (d_element_size d | d_length d)%nat ∧ (d_element_size d | minimum_fill d)%nat.

Definition backed (s : st) (d : descriptor) : Prop :=
  exists data, live (d_buffer d) data s ∧ length data = buffer_byte_length d.

Definition types (V : list descriptor) : Prop :=
  match V with
  | [] => True
  | d :: V => d_type d <> TDefault ∧ Forall (fun d => d_type d = TByob ∧ bytes_filled d = 0) V
  end.

Definition byob_count (V : list descriptor) : nat := length (filter (fun d => d_type d = TByob) V).

(** The reader of the stream, if it is of a kind. *)
Definition current (k : reader_kind) (s : st) : option any_reader :=
  let! (_, rd) := reader_at (reader (strm s)) s in
  match k, r_kind rd with
  | DefaultReader, DefaultReader | ByobReader, ByobReader => Some rd
  | _, _ => None
  end.

Definition waiting (k : reader_kind) (s : st) : list nat := default [] (requests <$> current k s).

#[global] Arguments byob_count : simpl never.
#[global] Arguments waiting : simpl never.
#[global] Arguments current : simpl never.

Definition fifo (V : list descriptor) (s : st) : Prop :=
  if is_readable s then taken (log s) ++ filled V s ++ queued s = accepted (log s)
  else (taken (log s) ++ filled V s) `prefix_of` accepted (log s).

(** [V] are the descriptors that are pending, with those that an operation
    has in its hands; [x] is the number of read-into requests in its hands. *)
Record core (V : list descriptor) (x : nat) (s : st) : Prop := Core {
  k_shared : forall b, b ∈ shared s -> b < length (buffers s);
  k_nodup : NoDup ((e_buffer <$> queue (ctrl s)) ++ (d_buffer <$> V));
  k_queue : forall e, e ∈ queue (ctrl s) -> entry_ok s e;
  k_desc : forall d, d ∈ V -> desc_ok d;
  k_head : forall d V', V = d :: V' -> backed s d ∨ (d_buffer d ∈ shared s ∧ buffers s !! d_buffer d = Some None);
  k_tail : forall d0 V' d, V = d0 :: V' -> d ∈ V' -> backed s d ∧ d_buffer d ∉ shared s;
  k_types : types V;
  k_total : queue_total_size (ctrl s) = sum_list (e_length <$> queue (ctrl s));
  k_auto : auto_allocate_chunk_size (ctrl s) = None;
  k_valid : forall k v, byob_requests s !! k = Some (Some v) -> byob_request (ctrl s) = Some k;
  k_request : forall k, byob_request (ctrl s) = Some k ->
    exists v d V', byob_requests s !! k = Some (Some v) ∧ V = d :: V' ∧ v_buffer v = d_buffer d;
  k_alg : state (strm s) = Readable -> algorithms (ctrl s) = true;
  k_closed : state (strm s) = Closed -> forall d V', V = d :: V' -> (d_element_size d | bytes_filled d)%nat;
  k_err : forall e, state (strm s) = Errored e -> V = [];
  k_att : forall i rd, readers s !! i = Some rd -> attached rd = true -> reader (strm s) = Some i;
  k_cur : forall i, reader (strm s) = Some i -> exists rd, readers s !! i = Some rd ∧ attached rd = true;
  k_old : forall i rd, readers s !! i = Some rd -> attached rd = false -> requests rd = [];
  k_count : byob_count V = x + length (waiting ByobReader s);
  k_done : state (strm s) <> Readable -> waiting DefaultReader s = [];
  k_fifo : Tampered ∉ log s -> fifo V s;
  k_delivered : forall p bs, Delivered p bs ∈ log s -> Taken p bs ∈ log s;
}.

(** ** Lemmas on bytes *)

Lemma slice_length data o n : o + n <= length data -> length (slice data o n) = n.
Proof. intros H. unfold slice. rewrite length_take, length_drop. lia. Qed.

Lemma slice_app data o n m : slice data o (n + m) = slice data o n ++ slice data (o + n) m.
Proof. unfold slice. rewrite <- drop_drop, take_take_drop. done. Qed.

Lemma slice_0 data o : slice data o 0 = [].
Proof. apply take_0. Qed.

Lemma overwrite_length data o bs : o + length bs <= length data -> length (overwrite data o bs) = length data.
Proof. intros H. unfold overwrite. rewrite !length_app, length_take, length_drop. lia. Qed.

(** A write leaves what lies before it, and is read back. *)
Lemma overwrite_before data o bs i n :
  o + length bs <= length data -> i + n <= o -> slice (overwrite data o bs) i n = slice data i n.
Proof.
  intros H Hi. unfold slice, overwrite. rewrite drop_app_le by (rewrite length_take; lia).
  rewrite take_app_le by (rewrite length_drop, length_take; lia).
  rewrite !take_drop_commute, take_take. f_equal. f_equal. lia.
Qed.

Lemma overwrite_at data o bs :
  o + length bs <= length data -> slice (overwrite data o bs) o (length bs) = bs.
Proof.
  intros H. unfold slice, overwrite. rewrite drop_app_length' by (rewrite length_take; lia).
  apply take_app_length.
Qed.

Lemma overwrite_apart data o bs i n :
  o + length bs <= length data -> (i + n <= o ∨ o + length bs <= i ∨ n = 0) -> slice (overwrite data o bs) i n = slice data i n.
Proof.
  intros H [Hi|[Hi|Hi]]; [apply overwrite_before; done| |subst n; rewrite !slice_0; done].
  unfold slice, overwrite. f_equal. rewrite (app_assoc (take o data)), drop_app_ge by (rewrite length_app, length_take; lia).
  rewrite drop_drop, length_app, length_take. f_equal. lia.
Qed.

(** ** Changes that the invariant does not see *)

(** Everything but promises, reactions and the flags for pulling and closing,
    and the list of pending descriptors, which [V] stands for. *)
Definition same (s s' : st) : Prop :=
  buffers s' = buffers s ∧ shared s' = shared s ∧ byob_requests s' = byob_requests s ∧ readers s' = readers s ∧
  state (strm s') = state (strm s) ∧ reader (strm s') = reader (strm s) ∧ log s' = log s ∧
  queue (ctrl s') = queue (ctrl s) ∧ queue_total_size (ctrl s') = queue_total_size (ctrl s) ∧
  auto_allocate_chunk_size (ctrl s') = auto_allocate_chunk_size (ctrl s) ∧
  byob_request (ctrl s') = byob_request (ctrl s) ∧ algorithms (ctrl s') = algorithms (ctrl s).

Lemma bytes_at_ext b o n s s' : buffers s' !! b = buffers s !! b -> bytes_at b o n s' = bytes_at b o n s.
Proof. intros H. unfold bytes_at. rewrite H. done. Qed.

Lemma bytes_at_live b data o n s : live b data s -> bytes_at b o n s = slice data o n.
Proof. intros H. unfold bytes_at. rewrite H. done. Qed.

Lemma bind_ext_in {A B} (f g : A -> list B) (l : list A) : (forall x, x ∈ l -> f x = g x) -> l ≫= f = l ≫= g.
Proof.
  induction l as [|x l IH]; intros Hf; [done|]. cbn. rewrite (Hf x) by apply list_elem_of_here.
  f_equal. apply IH. intros y Hy. apply Hf, list_elem_of_further, Hy.
Qed.

Lemma filled_ext V s s' : (forall d, d ∈ V -> buffers s' !! d_buffer d = buffers s !! d_buffer d) -> filled V s' = filled V s.
Proof. intros H. apply bind_ext_in. intros d Hd. apply bytes_at_ext, H, Hd. Qed.

Lemma queued_ext s s' :
  queue (ctrl s') = queue (ctrl s) -> (forall e, e ∈ queue (ctrl s) -> buffers s' !! e_buffer e = buffers s !! e_buffer e) ->
  queued s' = queued s.
Proof. intros Hq H. unfold queued. rewrite Hq. apply bind_ext_in. intros d Hd. apply bytes_at_ext, H, Hd. Qed.

Lemma current_ext k s s' : readers s' = readers s -> reader (strm s') = reader (strm s) -> current k s' = current k s.
Proof. intros Hr Hs. unfold current, reader_at. rewrite Hr, Hs. done. Qed.

Lemma waiting_ext k s s' : readers s' = readers s -> reader (strm s') = reader (strm s) -> waiting k s' = waiting k s.
Proof. intros Hr Hs. unfold waiting. rewrite (current_ext k s s') by done. done. Qed.

Lemma is_readable_ext s s' : state (strm s') = state (strm s) -> is_readable s' = is_readable s.
Proof. intros H. unfold is_readable. rewrite H. done. Qed.

Lemma core_same V x s s' : same s s' -> core V x s -> core V x s'.
Proof.
  intros (Hb & Hsh & Hrq & Hrd & Hst & Hre & Hlg & Hq & Ht & Ha & Hbr & Hal) [].
  assert (Hw : forall k, waiting k s' = waiting k s) by (intros; apply waiting_ext; done).
  assert (Hf : filled V s' = filled V s) by (apply filled_ext; intros; rewrite Hb; done).
  assert (Hqd : queued s' = queued s) by (apply queued_ext; [done|]; intros; rewrite Hb; done).
  assert (He : forall e, entry_ok s e -> entry_ok s' e) by (unfold entry_ok, live; rewrite Hb, Hsh; done).
  assert (Hk : forall d, backed s d -> backed s' d) by (unfold backed, live; rewrite Hb; done).
  split; rewrite ?Hb, ?Hsh, ?Hrq, ?Hrd, ?Hst, ?Hre, ?Hlg, ?Hq, ?Ht, ?Ha, ?Hbr, ?Hal, ?Hw; try done.
  - intros e Hin. apply He, k_queue0, Hin.
  - intros d V' HV. destruct (k_head0 d V' HV) as [H|H]; [left; apply Hk, H|right; exact H].
  - intros d0 V' d HV Hd. destruct (k_tail0 d0 V' d HV Hd) as [H1 H2]. split; [apply Hk, H1|exact H2].
  - unfold fifo. rewrite (is_readable_ext s s'), Hf, Hqd, Hlg by done. exact k_fifo0.
Qed.

Lemma same_refl s : same s s.
Proof. repeat split. Qed.

Lemma same_trans s1 s2 s3 : same s1 s2 -> same s2 s3 -> same s1 s3.
Proof. unfold same. intuition congruence. Qed.

Lemma settle_only p r s : exists P, settle p r s = set_promises P s.
Proof.
  unfold settle. destruct (promises s !! p) as [[k []]|]; eexists; try done; instantiate (1 := promises s); destruct s; done.
Qed.

Lemma settle_same p r s : same s (settle p r s).
Proof. destruct (settle_only p r s) as [P ->]. repeat split. Qed.

Lemma settle_all_only r ps s : exists P, foldl (fun s p => settle p r s) s ps = set_promises P s.
Proof.
  revert s. induction ps as [|p ps IH]; intros s; [exists (promises s); destruct s; done|]. cbn.
  destruct (settle_only p r s) as [P ->]. destruct (IH (set_promises P s)) as [P' ->]. exists P'. done.
Qed.

Lemma close_read_intos_rest ps s : exists P, close_read_intos ps s = set_promises P s.
Proof.
  revert s. induction ps as [|p ps IH]; intros s; [exists (promises s); destruct s; done|]. cbn.
  unfold close_steps. destruct (settle_only p (Fulfilled (RDone None)) s) as [P ->].
  destruct (IH (set_promises P s)) as [P' ->]. exists P'. done.
Qed.

(** ** Buffers *)

Lemma NoDup_app_fst {A} (l k : list A) : NoDup (l ++ k) -> NoDup l.
Proof. rewrite NoDup_app. tauto. Qed.

(** The buffers of the queue and of the descriptors after the first keep their
    bytes; that of the first may change when the program can reach it. *)
Lemma core_set_buffers V x s B :
  core V x s -> length (buffers s) <= length B ->
  (forall e, e ∈ queue (ctrl s) -> B !! e_buffer e = buffers s !! e_buffer e) ->
  (forall d V' d', V = d :: V' -> d' ∈ V' -> B !! d_buffer d' = buffers s !! d_buffer d') ->
  (forall d V', V = d :: V' -> B !! d_buffer d = buffers s !! d_buffer d ∨
    (d_buffer d ∈ shared s ∧ (B !! d_buffer d = Some None ∨ backed (set_buffers B s) d) ∧
     (filled_bytes d (set_buffers B s) = filled_bytes d s ∨ Tampered ∈ log s))) ->
  core V x (set_buffers B s).
Proof.
  intros [] Hlen Hq Ht Hh.
  split; cbn; try done.
  - intros b Hb. specialize (k_shared0 b Hb). lia.
  - intros e He. destruct (k_queue0 e He) as (H1 & H2 & data & Hl & H3). split; [done|]. split; [done|].
    exists data. split; [|done]. unfold live in *. cbn. rewrite Hq; done.
  - intros d V' HV. destruct (Hh d V' HV) as [Heq|(Hs & [Hn|Hb] & _)]; [|right; done|left; done].
    destruct (k_head0 d V' HV) as [(data & Hl & Hd)|[Hs Hn]]; [left; exists data; unfold live in *; cbn; rewrite Heq; done|].
    right. rewrite Heq. done.
  - intros d0 V' d HV Hd. destruct (k_tail0 d0 V' d HV Hd) as [(data & Hl & Hdl) Hn]. split; [|done].
    exists data. unfold live in *. cbn. rewrite (Ht d0 V' d); done.
  - intros Hnt. specialize (k_fifo0 Hnt).
    assert (Hf : filled V (set_buffers B s) = filled V s).
    { destruct V as [|d V']; [done|]. unfold filled. cbn. f_equal.
      - destruct (Hh d V' eq_refl) as [Heq|(_ & _ & [Heq|Hc])]; [apply bytes_at_ext; done|exact Heq|done].
      - apply bind_ext_in. intros d' Hd'. apply bytes_at_ext. apply (Ht d V'); done. }
    assert (Hqd : queued (set_buffers B s) = queued s) by (apply queued_ext; done).
    unfold fifo in *. cbn. change (is_readable (set_buffers B s)) with (is_readable s). rewrite Hf, Hqd. exact k_fifo0.
Qed.

Lemma live_bound b data s : live b data s -> b < length (buffers s).
Proof. apply lookup_lt_Some. Qed.

Lemma core_share V x s b :
  core V x s -> b < length (buffers s) -> b ∉ e_buffer <$> queue (ctrl s) ->
  (forall d V', V = d :: V' -> b ∉ d_buffer <$> V') -> core V x (share b s).
Proof.
  intros [] Hb Hq Ht.
  split; cbn; try done.
  - intros b' Hb'. apply elem_of_cons in Hb' as [->|Hb']; [done|eauto].
  - intros e He. destruct (k_queue0 e He) as (H1 & H2 & H3). split; [done|]. split; [|exact H3].
    cbn. rewrite not_elem_of_cons. split; [|done]. intros <-. apply Hq, list_elem_of_fmap. eauto.
  - intros d V' HV. destruct (k_head0 d V' HV) as [H|[H1 H2]]; [left; exact H|right].
    split; [apply elem_of_cons; tauto|done].
  - intros d0 V' d HV Hd. destruct (k_tail0 d0 V' d HV Hd) as [H1 H2]. split; [exact H1|].
    rewrite not_elem_of_cons. split; [|done]. intros <-. apply (Ht d0 V' HV), list_elem_of_fmap. eauto.
Qed.

Lemma isolated_share V b data s d V' :
  isolated V b data s -> V = d :: V' -> b ∉ d_buffer <$> V'.
Proof. intros (_ & _ & _ & H) ->. cbn in H. rewrite not_elem_of_cons in H. tauto. Qed.

Lemma core_share_isolated V x s b data : core V x s -> isolated V b data s -> core V x (share b s).
Proof.
  intros HC HI. apply core_share; [done|eapply live_bound, HI|apply HI|]. intros. eapply isolated_share; done.
Qed.

(** *** Events *)

Lemma accepted_last l e : accepted (l ++ [e]) = accepted l ++ match e with Accepted bs => bs | _ => [] end.
Proof. unfold accepted. rewrite bind_app. cbn. rewrite app_nil_r. done. Qed.

Lemma taken_snoc l e : taken (l ++ [e]) = taken l ++ match e with Taken _ bs => bs | _ => [] end.
Proof. unfold taken. rewrite bind_app. cbn. rewrite app_nil_r. done. Qed.

Definition neutral (e : event) : Prop :=
  match e with Accepted _ | Taken _ _ | Delivered _ _ => False | _ => True end.

Lemma core_log V x e s : core V x s -> neutral e -> core V x (push_log e s).
Proof.
  intros [] He. split; cbn; try done.
  - intros Hn. assert (Hn' : Tampered ∉ log s) by (rewrite elem_of_app in Hn; tauto).
    specialize (k_fifo0 Hn'). unfold fifo in *. cbn. rewrite accepted_last, taken_snoc.
    change (is_readable (push_log e s)) with (is_readable s).
    change (filled V (push_log e s)) with (filled V s). change (queued (push_log e s)) with (queued s).
    destruct e; try done; rewrite !app_nil_r; done.
  - intros p bs Hd. apply elem_of_app in Hd as [Hd|Hd]; [apply elem_of_app; left; auto|].
    apply list_elem_of_singleton in Hd. subst e. done.
Qed.

(** *** BYOB requests *)

Lemma invalidate_core V x s : core V x s -> core V x (invalidate_byob_request s) ∧ byob_request (ctrl (invalidate_byob_request s)) = None.
Proof.
  intros HC. unfold invalidate_byob_request. destruct (byob_request (ctrl s)) as [k|] eqn:Hk; [|done].
  split; [|done]. destruct HC. split; cbn; try done.
  intros k' v Hv. exfalso. destruct (decide (k = k')) as [->|Hn].
  - destruct (k_request0 k' Hk) as (v' & d & V' & Hl & _). rewrite list_lookup_insert_eq in Hv by (apply lookup_lt_Some in Hl; done). done.
  - rewrite list_lookup_insert_ne in Hv by done. specialize (k_valid0 k' v Hv). congruence.
Qed.

(** A change of [V] when there is no request. *)
Lemma no_request V x s k v : core V x s -> byob_request (ctrl s) = None -> byob_requests s !! k <> Some (Some v).
Proof. intros HC Hn Hv. pose proof (k_valid _ _ _ HC k v Hv). congruence. Qed.

(** *** The first descriptor *)

Lemma nodup_head (d : descriptor) V s :
  NoDup ((e_buffer <$> queue (ctrl s)) ++ (d_buffer <$> d :: V)) ->
  (d_buffer d ∉ e_buffer <$> queue (ctrl s)) ∧ (d_buffer d ∉ d_buffer <$> V) ∧
  NoDup ((e_buffer <$> queue (ctrl s)) ++ (d_buffer <$> V)).
Proof.
  cbn. intros H. rewrite NoDup_app in H. destruct H as (H1 & H2 & H3). apply NoDup_cons in H3 as [H3 H4].
  split; [|split; [done|]].
  - intros Hin. apply (H2 _ Hin). set_solver.
  - apply NoDup_app. split; [done|]. split; [|done]. intros y Hy Hv. apply (H2 y Hy). set_solver.
Qed.

(** Every buffer of the stream's lists is in the store. *)
Lemma core_buffer_lt V x s b :
  core V x s -> b ∈ e_buffer <$> queue (ctrl s) ∨ b ∈ d_buffer <$> V ∨ b ∈ shared s -> b < length (buffers s).
Proof.
  intros [] [H|[H|H]]; [| |eauto].
  - apply list_elem_of_fmap in H as (e & -> & He). destruct (k_queue0 e He) as (_ & _ & data & Hl & _). eapply live_bound, Hl.
  - apply list_elem_of_fmap in H as (d & -> & Hd). destruct V as [|d0 V]; [set_solver|].
    apply elem_of_cons in Hd as [->|Hd].
    + destruct (k_head0 d0 V eq_refl) as [(data & Hl & _)|[Hs _]]; [eapply live_bound, Hl|eauto].
    + destruct (k_tail0 d0 V d eq_refl Hd) as [(data & Hl & _) _]. eapply live_bound, Hl.
Qed.

Lemma fresh_buffer V x s :
  core V x s -> (length (buffers s) ∉ e_buffer <$> queue (ctrl s)) ∧ (length (buffers s) ∉ d_buffer <$> V) ∧
    (length (buffers s) ∉ shared s).
Proof. intros HC. repeat split; intros H; assert (length (buffers s) < length (buffers s)) by (eapply core_buffer_lt; [done|tauto]); lia. Qed.

(** *** A transfer *)

Definition transferred (b : nat) (data : list Z) (s : st) : st :=
  set_buffers (<[b := None]> (buffers s) ++ [Some data]) s.

Lemma transfer_eq b data s : live b data s -> transfer_array_buffer b s = Some (Ok (length (buffers s)), transferred b data s).
Proof. intros H. unfold transfer_array_buffer. rewrite H. done. Qed.

Lemma transferred_other b data s b' : b' < length (buffers s) -> b' <> b -> buffers (transferred b data s) !! b' = buffers s !! b'.
Proof. intros Hl Hn. cbn. rewrite lookup_app_l by (rewrite length_insert; done). rewrite list_lookup_insert_ne by done. done. Qed.

Lemma transferred_old b data s : b < length (buffers s) -> buffers (transferred b data s) !! b = Some None.
Proof. intros Hl. cbn. rewrite lookup_app_l by (rewrite length_insert; done). apply list_lookup_insert_eq. done. Qed.

Lemma transferred_new b data s : live (length (buffers s)) data (transferred b data s).
Proof. unfold live. cbn. rewrite lookup_app_r by (rewrite length_insert; done). rewrite length_insert, Nat.sub_diag. done. Qed.

(** The program's buffer is transferred. *)
Lemma transfer_shared V x s b data :
  core V x s -> live b data s -> b ∈ shared s ->
  (forall d V', V = d :: V' -> d_buffer d = b -> bytes_filled d = 0 ∨ Tampered ∈ log s) ->
  core V x (transferred b data s) ∧ isolated V (length (buffers s)) data (transferred b data s).
Proof.
  intros HC Hl Hs Htam. destruct (fresh_buffer V x s HC) as (F1 & F2 & F3).
  assert (Hlt : b < length (buffers s)) by (eapply live_bound, Hl).
  split.
  - apply core_set_buffers; [done|rewrite length_app, length_insert; cbn; lia|..].
    + intros e He. apply (transferred_other b data s); [eapply core_buffer_lt; [done|left; apply list_elem_of_fmap; eauto]|].
      intros Heq. destruct (k_queue _ _ _ HC e He) as (_ & Hn & _). congruence.
    + intros d V' d' HV Hd'. apply (transferred_other b data s).
      * eapply core_buffer_lt; [done|]. right; left. apply list_elem_of_fmap. exists d'. subst V. set_solver.
      * intros Heq. destruct (k_tail _ _ _ HC d V' d' HV Hd') as [_ Hn]. congruence.
    + intros d V' HV. destruct (decide (d_buffer d = b)) as [Heq|Hne].
      * right. rewrite Heq. split; [done|]. split; [left; apply (transferred_old b data s); done|].
        destruct (Htam d V' HV Heq) as [H0|Ht]; [|right; done]. left. unfold filled_bytes. rewrite H0.
        unfold bytes_at. repeat case_match; rewrite ?slice_0; done.
      * left. apply (transferred_other b data s); [|done]. eapply core_buffer_lt; [done|].
        right; left. apply list_elem_of_fmap. exists d. subst V. set_solver.
  - split; [apply transferred_new|]. split; [exact F3|]. split; [exact F1|exact F2].
Qed.

Lemma entry_ok_ext s s' e :
  shared s' = shared s -> buffers s' !! e_buffer e = buffers s !! e_buffer e -> entry_ok s e -> entry_ok s' e.
Proof. intros Hs Hb. unfold entry_ok, live. rewrite Hs, Hb. done. Qed.

Lemma backed_ext s s' d : buffers s' !! d_buffer d = buffers s !! d_buffer d -> backed s d -> backed s' d.
Proof. intros Hb. unfold backed, live. rewrite Hb. done. Qed.

Lemma byob_count_cons d V : byob_count (d :: V) = (if decide (d_type d = TByob) then 1 else 0) + byob_count V.
Proof. unfold byob_count. rewrite filter_cons. destruct (decide _); done. Qed.

Lemma filled_cons d V s : filled (d :: V) s = filled_bytes d s ++ filled V s.
Proof. done. Qed.

(** The descriptors after the first hold nothing yet. *)
Lemma filled_tail d V s : types (d :: V) -> filled V s = [].
Proof.
  intros [_ Hf]. unfold filled. clear d. induction Hf as [|d V [_ H0] _ IH]; [done|]. cbn. rewrite IH, app_nil_r.
  unfold filled_bytes, bytes_at. rewrite H0. repeat case_match; rewrite ?slice_0; done.
Qed.

Lemma types_head d d' V : d_type d' = d_type d -> types (d :: V) -> types (d' :: V).
Proof. intros Ht [H1 H2]. split; [congruence|done]. Qed.

(** The first descriptor gets the bytes of another buffer. *)
Lemma replace_head d V x s b data :
  core (d :: V) x s -> byob_request (ctrl s) = None -> live b data s -> length data = buffer_byte_length d ->
  (b ∉ e_buffer <$> queue (ctrl s)) -> (b ∉ d_buffer <$> V) ->
  (Tampered ∉ log s -> slice data (d_offset d) (bytes_filled d) = filled_bytes d s) ->
  core (set_d_buffer (length (buffers s)) d :: V) x (transferred b data s) ∧
  (length (buffers s) ∉ shared s) ∧ backed (transferred b data s) (set_d_buffer (length (buffers s)) d).
Proof.
  intros HC Hn Hl Hlen B1 B2 Hby. destruct (fresh_buffer _ _ _ HC) as (F1 & F2 & F3).
  destruct (nodup_head d V s (k_nodup _ _ _ HC)) as (N1 & N2 & N3).
  assert (Hother : forall b', b' <> b -> b' ∈ e_buffer <$> queue (ctrl s) ∨ b' ∈ d_buffer <$> V ∨ b' ∈ shared s ->
    buffers (transferred b data s) !! b' = buffers s !! b').
  { intros b' Hb Hin. apply transferred_other; [|done]. eapply core_buffer_lt; [done|]. set_solver. }
  assert (Hbk : backed (transferred b data s) (set_d_buffer (length (buffers s)) d)).
  { exists data. split; [apply transferred_new|done]. }
  split; [|done].
  assert (Hq : forall e, e ∈ queue (ctrl s) -> buffers (transferred b data s) !! e_buffer e = buffers s !! e_buffer e).
  { intros e He. apply Hother; [|left; apply list_elem_of_fmap; eauto]. intros Heq. apply B1. rewrite <- Heq. apply list_elem_of_fmap. eauto. }
  assert (Hv : forall d', d' ∈ V -> buffers (transferred b data s) !! d_buffer d' = buffers s !! d_buffer d').
  { intros d' Hd'. apply Hother; [|right; left; apply list_elem_of_fmap; eauto]. intros Heq. apply B2. rewrite <- Heq. apply list_elem_of_fmap. eauto. }
  destruct HC. split; cbn -[transferred]; try done.
  - intros b' Hb. specialize (k_shared0 b' Hb). cbn. rewrite length_app, length_insert. cbn. lia.
  - cbn in F2. rewrite not_elem_of_cons in F2. destruct F2 as [_ F2]. apply NoDup_app in N3 as (A1 & A2 & A3).
    apply NoDup_app. split; [done|]. split; [|apply NoDup_cons; done].
    intros y Hy. rewrite not_elem_of_cons. split; [|auto]. intros ->. done.
  - intros e He. eapply entry_ok_ext; [..|eauto]; [done|auto].
  - intros d' Hd'. apply elem_of_cons in Hd' as [->|Hd']; [|apply k_desc0; set_solver].
    apply (k_desc0 d). set_solver.
  - intros d' V' [= <- <-]. left. exact Hbk.
  - intros d0 V' d' [= <- <-] Hd'. destruct (k_tail0 d V d' eq_refl Hd') as [H1 H2]. split; [|done].
    eapply backed_ext; [|exact H1]. auto.
  - intros k Hk. cbn in Hk; congruence.
  - intros Hc d' V' [= <- <-]. apply (k_closed0 Hc d V eq_refl).
  - intros e He. specialize (k_err0 e He). done.
  - rewrite byob_count_cons in *. exact k_count0.
  - intros Ht. specialize (k_fifo0 Ht). specialize (Hby Ht). unfold fifo in *. change (is_readable (transferred _ _ s)) with (is_readable s).
    change (log (transferred _ _ s)) with (log s). rewrite (queued_ext s) by done. rewrite filled_cons in *.
    rewrite (filled_ext V s (transferred b data s)) by done.
    replace (filled_bytes (set_d_buffer (length (buffers s)) d) (transferred b data s)) with (filled_bytes d s); [done|].
    rewrite <- Hby. unfold filled_bytes. cbn -[transferred]. rewrite (bytes_at_live _ data) by apply transferred_new. done.
Qed.

(** The buffer of the first descriptor is transferred. *)
Lemma transfer_head d V x s data :
  core (d :: V) x s -> byob_request (ctrl s) = None -> live (d_buffer d) data s ->
  core (set_d_buffer (length (buffers s)) d :: V) x (transferred (d_buffer d) data s) ∧
  (length (buffers s) ∉ shared s) ∧ backed (transferred (d_buffer d) data s) (set_d_buffer (length (buffers s)) d).
Proof.
  intros HC Hn Hl. destruct (nodup_head d V s (k_nodup _ _ _ HC)) as (N1 & N2 & N3). apply replace_head; try done.
  - destruct (k_head _ _ _ HC d V eq_refl) as [(data' & Hl' & Hd)|[_ Hnone]]; unfold live in *; congruence.
  - intros _. unfold filled_bytes. rewrite (bytes_at_live _ data) by done. done.
Qed.

(** *** The queue *)

Definition appended (b offset len : nat) (s : st) : st := enqueue_chunk_to_queue b offset len s.

Lemma queued_app s b o n :
  queued (appended b o n s) = queued s ++ bytes_at b o n s.
Proof. unfold queued, appended. cbn. rewrite bind_app. cbn. rewrite app_nil_r. done. Qed.

(** An isolated buffer goes to the end of the queue: all of the invariant but
    the order of the bytes. *)
Lemma core_append V x s b o n data (L : list event) :
  core V x s -> isolated V b data s -> 0 < n -> o + n <= length data ->
  (Tampered ∉ L -> fifo V (mkSt (buffers s) (shared s) (byob_requests s) (promises s) (reactions s) (readers s) (strm s)
    (ctrl (appended b o n s)) L)) ->
  (forall p bs, Delivered p bs ∈ L -> Taken p bs ∈ L) ->
  core V x (mkSt (buffers s) (shared s) (byob_requests s) (promises s) (reactions s) (readers s) (strm s)
    (ctrl (appended b o n s)) L).
Proof.
  intros [] (I1 & I2 & I3 & I4) Hn Ho Hf Hd. split; cbn; try done.
  - rewrite fmap_app. cbn. rewrite <- app_assoc. cbn. apply NoDup_app in k_nodup0 as (N1 & N2 & N3).
    apply NoDup_app. split; [done|]. split; [|apply NoDup_cons; done].
    intros y Hy. rewrite not_elem_of_cons. split; [|auto]. intros ->. done.
  - intros e He. apply elem_of_app in He as [He|He]; [exact (k_queue0 e He)|].
    apply list_elem_of_singleton in He. subst e. split; [done|]. split; [done|]. exists data. done.
  - rewrite k_total0, fmap_app, sum_list_with_app. cbn. lia.
Qed.

Lemma accept_core V x s b o n data :
  core V x s -> isolated V b data s -> 0 < n -> o + n <= length data -> core V x (accept_to_queue b o n s).
Proof.
  intros HC HI Hn Ho. apply (core_append V x s b o n data (log s ++ [Accepted (bytes_at b o n s)])); try done.
  - intros Ht. rewrite not_elem_of_app in Ht. destruct Ht as [Ht _]. pose proof (k_fifo _ _ _ HC Ht) as Hf.
    unfold fifo in *. cbn [log strm]. rewrite accepted_last, taken_snoc, app_nil_r.
    change (is_readable _) with (is_readable s). destruct (is_readable s).
    + rewrite <- Hf.
      match goal with |- _ ++ filled V ?s' ++ _ = _ => change (filled V s') with (filled V s); change (queued s') with (queued (appended b o n s)) end.
      rewrite queued_app, !app_assoc. done.
    + match goal with |- context [filled V ?s'] => change (filled V s') with (filled V s) end. destruct Hf as [r Hr]. exists (r ++ bytes_at b o n s). rewrite Hr, app_assoc. done.
  - intros p bs Hd. apply elem_of_app in Hd as [Hd|Hd]; [|set_solver]. apply elem_of_app. left. apply (k_delivered _ _ _ HC), Hd.
Qed.

(** ** Moving bytes

    The steps below change the queue and the first descriptor together; the
    order of the bytes is restored at their end.  In between the log is marked
    as tampered with, which suspends that part of the invariant. *)

Lemma core_suspend V x s : core V x s -> core V x (push_log Tampered s).
Proof. intros HC. apply core_log; done. Qed.

Lemma core_resume V x s : core V x (push_log Tampered s) -> (Tampered ∉ log s -> fifo V s) -> core V x s.
Proof.
  intros [] Hf. split; cbn in *; try done. intros p bs Hd. specialize (k_delivered0 p bs).
  rewrite !elem_of_app in k_delivered0. destruct k_delivered0 as [H|H]; [left; done|done|set_solver].
Qed.

Lemma set_filled_size n d : d_element_size (set_filled n d) = d_element_size d.
Proof. done. Qed.

(** The first descriptor holds another number of bytes. *)
Lemma core_refill d V x s n :
  core (d :: V) x s -> Tampered ∈ log s -> state (strm s) = Readable -> n <= d_length d -> core (set_filled n d :: V) x s.
Proof.
  intros [] Ht Hst Hn. split; try done.
  - intros d' Hd'. apply elem_of_cons in Hd' as [->|Hd']; [|apply k_desc0; set_solver].
    destruct (k_desc0 d) as (D1 & D2 & D3 & D4); [set_solver|]. split; [exact Hn|]. done.
  - intros d' V' [= <- <-]. exact (k_head0 d V eq_refl).
  - intros d0 V' d' [= <- <-]. exact (k_tail0 d V d' eq_refl).
  - intros k Hk. destruct (k_request0 k Hk) as (v & d' & V' & H1 & [= <- <-] & H3). exists v, (set_filled n d), V. done.
  - congruence.
  - congruence.
  - rewrite byob_count_cons in *. exact k_count0.
Qed.

Definition cloned (data : list Z) (n : nat) (s : st) : st :=
  appended (length (buffers s)) 0 n (set_buffers (buffers s ++ [Some data]) s).

(** A copy of the last bytes of the first descriptor goes to the empty queue. *)
Lemma clone_core d V x s n :
  core (d :: V) x s -> queue (ctrl s) = [] -> backed s d -> state (strm s) = Readable -> 0 < n <= bytes_filled d ->
  exists data, enqueue_cloned_chunk_to_queue (d_buffer d) (d_offset d + bytes_filled d - n) n s = Some (Ok tt, cloned data n s) ∧
    core (set_filled (bytes_filled d - n) d :: V) x (cloned data n s) ∧ length data = n.
Proof.
  intros HC Hq (data & Hl & Hlen) Hst Hn.
  destruct (k_desc _ _ _ HC d) as (D1 & D2 & _); [set_solver|].
  set (o := d_offset d + bytes_filled d - n). set (c := slice data o n).
  assert (Hc : length c = n) by (apply slice_length; subst o; lia).
  exists c. split; [|split; [|done]].
  { unfold enqueue_cloned_chunk_to_queue. rewrite Hl. fold o. rewrite (proj2 (Nat.leb_le _ _)) by (subst o; lia). done. }
  destruct (fresh_buffer _ _ _ HC) as (F1 & F2 & F3).
  set (s1 := set_buffers (buffers s ++ [Some c]) s).
  assert (Hold : forall b, b < length (buffers s) -> buffers s1 !! b = buffers s !! b) by (intros; cbn; rewrite lookup_app_l; done).
  assert (HC1 : core (d :: V) x s1).
  { apply core_set_buffers; [done|rewrite length_app; lia|..].
    - intros e He. apply Hold. eapply core_buffer_lt; [done|]. left. apply list_elem_of_fmap. eauto.
    - intros d0 V' d' [= <- <-] Hd'. apply Hold. eapply core_buffer_lt; [done|]. right; left. apply list_elem_of_fmap. exists d'. set_solver.
    - intros d0 V' [= <- <-]. left. apply Hold. eapply core_buffer_lt; [done|]. right; left. apply list_elem_of_fmap. exists d. set_solver. }
  assert (Hfresh : live (length (buffers s)) c s1) by (unfold live; cbn; rewrite lookup_app_r, Nat.sub_diag by done; done).
  assert (HC2 : core (set_filled (bytes_filled d - n) d :: V) x (push_log Tampered (cloned c n s))).
  { apply (core_append _ x (push_log Tampered s1) _ _ _ c).
    - apply core_refill; [apply core_suspend; done|set_solver|done|lia].
    - split; [exact Hfresh|]. split; [done|]. split; [done|]. exact F2.
    - lia.
    - lia.
    - cbn. set_solver.
    - apply (k_delivered _ _ _ (core_suspend _ _ _ HC1)). }
  apply core_resume; [done|]. intros Ht. pose proof (k_fifo _ _ _ HC1 Ht) as Hf. unfold fifo in *.
  change (is_readable (cloned c n s)) with (is_readable s). change (is_readable s1) with (is_readable s) in Hf.
  assert (Hr : is_readable s = true) by (unfold is_readable; rewrite Hst; done). rewrite Hr in *.
  change (log (cloned c n s)) with (log s1). rewrite <- Hf. f_equal.
  unfold cloned. fold s1. rewrite queued_app, (bytes_at_live _ c) by done.
  assert (Hq1 : queued s1 = []) by (unfold queued; cbn; rewrite Hq; done). rewrite Hq1, app_nil_r.
  change (filled ?V' (appended _ _ _ s1)) with (filled V' s1).
  pose proof (k_types _ _ _ HC) as Hty. rewrite !filled_cons, (filled_tail d V s1), !app_nil_r by done. cbn [app].
  unfold filled_bytes. cbn [d_buffer d_offset bytes_filled set_filled].
  assert (Hl1 : live (d_buffer d) data s1) by (unfold live; rewrite Hold; [done|eapply live_bound, Hl]).
  rewrite !(bytes_at_live _ data) by done.
  replace (bytes_filled d) with ((bytes_filled d - n) + n) at 2 by lia. rewrite slice_app. f_equal.
  unfold slice at 1. rewrite drop_0, take_ge by lia. subst c o. f_equal. lia.
Qed.

(** A descriptor without a reader is dropped, when it holds nothing or the
    stream is not readable. *)
Lemma drop_head d V x s :
  core (d :: V) x s -> byob_request (ctrl s) = None -> d_type d = TNone ->
  (bytes_filled d = 0 ∨ state (strm s) <> Readable) -> core V x s.
Proof.
  intros HC Hn Hty Hz. destruct (nodup_head d V s (k_nodup _ _ _ HC)) as (N1 & N2 & N3). destruct HC. split; try done.
  - intros d' Hd'. apply k_desc0. set_solver.
  - intros d' V' ->. left. apply (k_tail0 d (d' :: V') d' eq_refl). set_solver.
  - intros d0 V' d' -> Hd'. apply (k_tail0 d (d0 :: V') d' eq_refl). set_solver.
  - destruct k_types0 as [_ Hf]. destruct V as [|d' V]; [done|]. inversion Hf as [|? ? [H1 H2] H3]. split; [congruence|done].
  - intros k Hk. congruence.
  - intros Hc d' V' ->. destruct k_types0 as [_ Hf]. inversion Hf as [|? ? [H1 H2] H3]. rewrite H2. apply Nat.divide_0_r.
  - intros e He. specialize (k_err0 e He). done.
  - rewrite byob_count_cons, Hty in k_count0. rewrite decide_False in k_count0 by done. exact k_count0.
  - intros Ht. specialize (k_fifo0 Ht). unfold fifo in *. rewrite filled_cons in k_fifo0.
    rewrite (filled_tail d V s k_types0) in *. rewrite app_nil_r in k_fifo0. destruct (is_readable s) eqn:Hr.
    + destruct Hz as [Hz|Hz]; [|unfold is_readable in Hr; destruct (state (strm s)); done].
      assert (H0 : filled_bytes d s = []) by (unfold filled_bytes, bytes_at; rewrite Hz; repeat case_match; rewrite ?slice_0; done).
      rewrite H0 in k_fifo0. exact k_fifo0.
    + rewrite app_nil_r. eapply prefix_app_l. exact k_fifo0.
Qed.

(** *** Filling a descriptor from the queue *)

(** The queue after its first bytes were taken. *)
Definition rest (e : queue_entry) (q : list queue_entry) (m : nat) : list queue_entry :=
  if e_length e =? m then q else mkEntry (e_buffer e) (e_offset e + m) (e_length e - m) :: q.

Definition copied (d : descriptor) (t f : list Z) (e : queue_entry) (q : list queue_entry) (m : nat) (s : st) : st :=
  set_queue (rest e q m) (queue_total_size (ctrl s) - m)
    (set_buffers (<[d_buffer d := Some (overwrite t (d_offset d + bytes_filled d) (slice f (e_offset e) m))]> (buffers s)) s).

Lemma rest_buffers e q m : e_buffer <$> rest e q m ⊆ e_buffer <$> e :: q.
Proof. unfold rest. destruct (e_length e =? m); cbn; set_solver. Qed.

Lemma rest_entries e q m e' : e' ∈ rest e q m -> e' ∈ q ∨ (e' = mkEntry (e_buffer e) (e_offset e + m) (e_length e - m) ∧ e_length e <> m).
Proof. unfold rest. destruct (Nat.eqb_spec (e_length e) m); set_solver. Qed.

Lemma rest_nodup e q m (l : list nat) : NoDup ((e_buffer <$> e :: q) ++ l) -> NoDup ((e_buffer <$> rest e q m) ++ l).
Proof. unfold rest. destruct (e_length e =? m); cbn; [|done]. intros H. inversion H. done. Qed.

(** One turn copies the first [m] bytes of the queue. *)
Lemma copied_core d V x s e q t f m :
  core (d :: V) x s -> state (strm s) = Readable -> queue (ctrl s) = e :: q -> live (d_buffer d) t s ->
  length t = buffer_byte_length d -> live (e_buffer e) f s -> 0 < m <= e_length e -> bytes_filled d + m <= d_length d ->
  core (set_filled (bytes_filled d + m) d :: V) x (copied d t f e q m s) ∧ backed (copied d t f e q m s) d.
Proof.
  intros HC Hst Hq Ht Hlt Hf Hm Hd.
  destruct (nodup_head d V s (k_nodup _ _ _ HC)) as (N1 & N2 & N3).
  destruct (k_queue _ _ _ HC e) as (E1 & E2 & f' & Hf' & E3); [rewrite Hq; set_solver|].
  assert (f' = f) by (unfold live in *; congruence). subst f'.
  destruct (k_desc _ _ _ HC d) as (D1 & D2 & D3 & D4 & D5); [set_solver|].
  set (c := slice f (e_offset e) m). assert (Hc : length c = m) by (apply slice_length; lia).
  set (t' := overwrite t (d_offset d + bytes_filled d) c).
  assert (Hlt' : length t' = length t) by (apply overwrite_length; lia).
  assert (Hdlt : d_buffer d < length (buffers s)) by (eapply live_bound, Ht).
  set (s' := copied d t f e q m s).
  assert (Hlive : live (d_buffer d) t' s') by (unfold live; cbn; apply list_lookup_insert_eq; done).
  assert (Hother : forall b, b <> d_buffer d -> buffers s' !! b = buffers s !! b) by (intros; cbn; apply list_lookup_insert_ne; done).
  assert (Hbk : backed s' d) by (exists t'; split; [done|congruence]).
  assert (Heq : forall e', e' ∈ e :: q -> buffers s' !! e_buffer e' = buffers s !! e_buffer e').
  { intros e' He'. apply Hother. intros Heq. apply N1. rewrite <- Heq, Hq. apply list_elem_of_fmap. eauto. }
  assert (Hev : forall d', d' ∈ V -> buffers s' !! d_buffer d' = buffers s !! d_buffer d').
  { intros d' Hd'. apply Hother. intros Heq'. apply N2. rewrite <- Heq'. apply list_elem_of_fmap. eauto. }
  split; [|done]. destruct HC. split; try done.
  - intros b Hb. cbn. rewrite length_insert. auto.
  - cbn [ctrl s' copied set_queue set_ctrl queue]. rewrite Hq in k_nodup0. apply rest_nodup. exact k_nodup0.
  - intros e' He'. apply rest_entries in He' as [He'|[-> Hne]].
    + eapply entry_ok_ext; [..|apply k_queue0; rewrite Hq; set_solver]; [done|]. apply Heq. set_solver.
    + split; [cbn; lia|]. split; [exact E2|]. exists f. split; [|cbn; lia]. unfold live. cbn [e_buffer]. rewrite Heq by set_solver. exact Hf.
  - intros d' Hd'. apply elem_of_cons in Hd' as [->|Hd']; [|apply k_desc0; set_solver]. split; [exact Hd|]. done.
  - intros d' V' [= <- <-]. left. exact Hbk.
  - intros d0 V' d' [= <- <-] Hd'. destruct (k_tail0 d V d' eq_refl Hd') as [H1 H2]. split; [|done].
    eapply backed_ext; [|exact H1]. auto.
  - cbn. rewrite k_total0, Hq. unfold rest. destruct (Nat.eqb_spec (e_length e) m); cbn; lia.
  - intros k Hk. destruct (k_request0 k Hk) as (v & d' & V' & H1 & [= <- <-] & H3). eexists v, _, V. done.
  - cbn. congruence.
  - cbn. congruence.
  - rewrite byob_count_cons in *. exact k_count0.
  - intros Htam. specialize (k_fifo0 Htam). unfold fifo in *. change (is_readable s') with (is_readable s).
    assert (Hr : is_readable s = true) by (unfold is_readable; rewrite Hst; done). rewrite Hr in *.
    change (log s') with (log s). rewrite <- k_fifo0. f_equal. rewrite !filled_cons.
    rewrite (filled_tail d V s) by done. rewrite (filled_tail d V s') by done. rewrite !app_nil_r.
    unfold filled_bytes. cbn [d_buffer d_offset bytes_filled set_filled].
    rewrite (bytes_at_live _ t' _ _ s'), (bytes_at_live _ t _ _ s), slice_app by done.
    assert (H1 : slice t' (d_offset d) (bytes_filled d) = slice t (d_offset d) (bytes_filled d)) by (apply overwrite_before; lia).
    assert (H2 : slice t' (d_offset d + bytes_filled d) m = c).
    { pose proof (overwrite_at t (d_offset d + bytes_filled d) c) as Ho. rewrite Hc in Ho. apply Ho. lia. }
    rewrite H1, H2, <- app_assoc. f_equal.
    assert (Hqd : queued s = slice f (e_offset e) (e_length e) ++ q ≫= (fun e => entry_bytes e s)).
    { unfold queued. rewrite Hq. cbn. unfold entry_bytes at 1. rewrite (bytes_at_live _ f) by done. done. }
    assert (Hq' : q ≫= (fun e => entry_bytes e s') = q ≫= (fun e => entry_bytes e s)).
    { apply bind_ext_in. intros e' He'. apply bytes_at_ext, Heq. set_solver. }
    rewrite Hqd. unfold queued. cbn [ctrl s' copied set_queue set_ctrl queue]. unfold rest.
    destruct (Nat.eqb_spec (e_length e) m) as [He|He].
    + fold s'. rewrite Hq', He. done.
    + cbn [mbind list_bind]. fold s'. rewrite Hq'. unfold entry_bytes at 1. cbn [e_buffer e_offset e_length].
      rewrite (bytes_at_live _ f) by (unfold live; rewrite Heq by set_solver; exact Hf).
      rewrite app_assoc. f_equal. subst c. rewrite <- slice_app. f_equal. lia.
Qed.

Lemma bind_ok {A B} (m : M A) (k : A -> M B) s a s1 : m s = Some (Ok a, s1) -> bind m k s = k a s1.
Proof. intros H. unfold bind. rewrite H. done. Qed.

Lemma bind_gets {A B} (f : st -> A) (k : A -> M B) s : bind (gets f) k s = k (f s) s.
Proof. done. Qed.

Lemma bind_modify {B} (f : st -> st) (k : unit -> M B) s : bind (modify f) k s = k tt (f s).
Proof. done. Qed.

Lemma set_filled_twice n m d : set_filled n (set_filled m d) = set_filled n d.
Proof. done. Qed.

(** What filling [d] by [n] bytes leaves: only the bytes of its buffer and the
    queue change. *)
Definition drained (d : descriptor) (n : nat) (s s' : st) : Prop :=
  exists B q, s' = set_queue q (queue_total_size (ctrl s) - n) (set_buffers B s) ∧ length B = length (buffers s) ∧
    e_buffer <$> q ⊆ e_buffer <$> queue (ctrl s) ∧ (forall b, b <> d_buffer d -> B !! b = buffers s !! b).

Lemma drained_refl d s : drained d 0 s s.
Proof. exists (buffers s), (queue (ctrl s)). rewrite Nat.sub_0_r. destruct s as [? ? ? ? ? ? ? [] ?]. done. Qed.

Lemma drained_trans d n m s1 s2 s3 : drained d n s1 s2 -> drained d m s2 s3 -> drained d (n + m) s1 s3.
Proof.
  intros (B & q & -> & H1 & H2 & H3) (B' & q' & -> & H4 & H5 & H6). exists B', q'. cbn in *.
  split; [unfold set_queue, set_buffers, set_ctrl; cbn; do 2 f_equal; lia|].
  split; [congruence|]. split; [set_solver|]. intros b Hb. rewrite H6, H3 by done. done.
Qed.

Lemma drained_isolated d n s s' V b data :
  drained d n s s' -> isolated (d :: V) b data s -> isolated (d :: V) b data s'.
Proof.
  intros (B & q & -> & H1 & H2 & H3) (I1 & I2 & I3 & I4). cbn in I4. rewrite not_elem_of_cons in I4. destruct I4 as [I4 I5].
  split; [unfold live in *; cbn; rewrite H3; done|]. split; [done|]. split; [cbn; set_solver|]. cbn. rewrite not_elem_of_cons. done.
Qed.

Lemma fill_loop_core V x : forall fuel n d s,
  core (d :: V) x s -> state (strm s) = Readable -> backed s d -> n <= fuel ->
  n <= queue_total_size (ctrl s) -> bytes_filled d + n <= d_length d ->
  exists s', fill_loop fuel n d s = Some (Ok (set_filled (bytes_filled d + n) d), s') ∧
    core (set_filled (bytes_filled d + n) d :: V) x s' ∧ drained d n s s' ∧ backed s' d.
Proof.
  induction fuel as [|fuel IH]; intros n d s HC Hst Hbk Hfu Htot Hd; (destruct n as [|n];
    [exists s; rewrite Nat.add_0_r; assert (set_filled (bytes_filled d) d = d) as -> by (destruct d; done);
     split; [done|]; split; [done|]; split; [apply drained_refl|done]|]); [lia|].
  destruct Hbk as (t & Ht & Hlt).
  destruct (queue (ctrl s)) as [|e q] eqn:Hq; [rewrite (k_total _ _ _ HC), Hq in Htot; cbn in Htot; lia|].
  destruct (k_queue _ _ _ HC e) as (E1 & E2 & f & Hf & E3); [rewrite Hq; set_solver|].
  set (m := Nat.min (S n) (e_length e)).
  destruct (copied_core d V x s e q t f m HC Hst Hq Ht Hlt Hf) as [HC1 Hbk1]; [lia..|].
  destruct (k_desc _ _ _ HC d) as (D1 & D2 & _); [set_solver|].
  set (s1 := copied d t f e q m s) in *. set (d1 := set_filled (bytes_filled d + m) d) in *.
  destruct (IH (S n - m) d1 s1 HC1 Hst Hbk1) as (s' & Hs' & HC' & Hdr & Hbk');
    [lia|change (S n - m <= queue_total_size (ctrl s) - m); lia|change (bytes_filled d + m + (S n - m) <= d_length d); lia|].
  assert (Hone : drained d m s s1).
  { exists (buffers s1), (rest e q m). split; [done|]. split; [cbn; apply length_insert|]. split; [rewrite Hq; apply rest_buffers|].
    intros b Hb. cbn. apply list_lookup_insert_ne. done. }
  assert (Hsum : bytes_filled d1 + (S n - m) = bytes_filled d + S n) by (change (bytes_filled d + m + (S n - m) = bytes_filled d + S n); lia).
  rewrite Hsum in *. unfold d1 in HC', Hs'. rewrite set_filled_twice in HC', Hs'.
  exists s'. split; [|split; [done|]; split; [|done]].
  - cbn [fill_loop]. rewrite bind_gets, Hq. fold m.
    assert (Hcopy : copy_data_block_bytes (d_buffer d) (d_offset d + bytes_filled d) (e_buffer e) (e_offset e) m s =
      Some (Ok tt, set_buffers (buffers s1) s)).
    { unfold copy_data_block_bytes. rewrite Ht, Hf, (proj2 (Nat.leb_le (d_offset d + _ + _) _)) by lia.
      rewrite (proj2 (Nat.leb_le (e_offset e + m) _)) by lia. done. }
    rewrite (bind_ok _ _ _ _ _ Hcopy).
    rewrite bind_gets. cbn [ctrl set_buffers]. erewrite bind_ok; [|unfold expect, usize_sub; rewrite (proj2 (Nat.leb_le _ _)) by lia; done].
    rewrite bind_modify. exact Hs'.
  - replace (S n) with (m + (S n - m)) by lia. eapply drained_trans; done.
Qed.

(** How much is copied: everything up to the room that is left, in whole
    elements once the minimum is reached. *)
Lemma bytes_to_fill_spec total d :
  desc_ok d -> bytes_filled d < minimum_fill d ->
  exists n ready, bytes_to_fill total d = Some (n, ready) ∧ n <= total ∧ bytes_filled d + n <= d_length d ∧
    (if ready then minimum_fill d <= bytes_filled d + n ∧ (d_element_size d | bytes_filled d + n)%nat
     else n = total ∧ bytes_filled d + n < minimum_fill d).
Proof.
  intros (D1 & D2 & D3 & D4 & D5) Hlt. unfold bytes_to_fill. rewrite usize_sub_Some by lia.
  set (room := d_length d - bytes_filled d). set (mx := bytes_filled d + Nat.min total room).
  assert (Hes : d_element_size d <> 0) by (unfold d_element_size; destruct (view_constructor d); done).
  pose proof (Nat.div_mod_eq mx (d_element_size d)) as Hdm.
  pose proof (Nat.mod_upper_bound mx (d_element_size d) Hes) as Hub.
  assert (Hal : (d_element_size d | mx - mx mod d_element_size d)%nat).
  { exists (mx / d_element_size d). lia. }
  destruct (Nat.leb_spec (minimum_fill d) (mx - mx mod d_element_size d)) as [Hle|Hgt].
  - rewrite usize_sub_Some by lia. eexists _, true. split; [done|]. subst mx room.
    split; [lia|]. split; [lia|]. split; [lia|].
    match goal with |- (_ | ?a)%nat => replace a with (bytes_filled d + Nat.min total (d_length d - bytes_filled d) -
      (bytes_filled d + Nat.min total (d_length d - bytes_filled d)) mod d_element_size d) by lia end. exact Hal.
  - eexists _, false. split; [done|].
    assert (Hsmall : mx < minimum_fill d).
    { destruct (Nat.lt_ge_cases mx (minimum_fill d)) as [|Hge]; [done|]. exfalso.
      destruct D5 as [k Hk]. assert (k <= mx / d_element_size d) by (apply Nat.div_le_lower_bound; lia). nia. }
    subst mx room. split; [lia|]. split; [lia|]. split; lia.
Qed.

Lemma fill_core d V x s :
  core (d :: V) x s -> state (strm s) = Readable -> backed s d -> bytes_filled d < minimum_fill d ->
  exists n ready s', fill_pull_into_descriptor_from_queue d s = Some (Ok (ready, set_filled (bytes_filled d + n) d), s') ∧
    core (set_filled (bytes_filled d + n) d :: V) x s' ∧ drained d n s s' ∧ backed s' d ∧
    (if ready : bool then minimum_fill d <= bytes_filled d + n ∧ (d_element_size d | bytes_filled d + n)%nat
     else n = queue_total_size (ctrl s) ∧ bytes_filled d + n < minimum_fill d).
Proof.
  intros HC Hst Hbk Hlt.
  destruct (bytes_to_fill_spec (queue_total_size (ctrl s)) d) as (n & ready & Hn & H1 & H2 & H3);
    [apply (k_desc _ _ _ HC); set_solver|done|].
  destruct (fill_loop_core V x n n d s HC Hst Hbk (le_n _) H1 H2) as (s' & Hs' & HC' & Hdr & Hbk').
  exists n, ready, s'. split; [|done].
  unfold fill_pull_into_descriptor_from_queue. rewrite bind_gets.
  erewrite bind_ok; [|unfold expect; rewrite Hn; done]. cbn beta iota.
  rewrite (bind_ok _ _ _ _ _ Hs'). done.
Qed.

(** *** The requests of a reader *)

Lemma reader_at_some i rd s : readers s !! i = Some rd -> reader_at (Some i) s = Some (i, rd).
Proof. intros H. unfold reader_at. rewrite H. done. Qed.

Lemma current_at i rd s : reader (strm s) = Some i -> readers s !! i = Some rd -> current (r_kind rd) s = Some rd.
Proof. intros Hr Hi. unfold current. rewrite Hr, (reader_at_some i rd) by done. destruct (r_kind rd); done. Qed.

Lemma waiting_at i rd s : reader (strm s) = Some i -> readers s !! i = Some rd -> waiting (r_kind rd) s = requests rd.
Proof. intros Hr Hi. unfold waiting. rewrite (current_at i rd) by done. done. Qed.

Lemma waiting_other i rd k s : reader (strm s) = Some i -> readers s !! i = Some rd -> k <> r_kind rd -> waiting k s = [].
Proof.
  intros Hr Hi Hk. unfold waiting, current. rewrite Hr, (reader_at_some i rd) by done. destruct k, (r_kind rd); done.
Qed.

Lemma set_requests_lookup i rd ps s :
  readers s !! i = Some rd -> readers (set_requests i rd ps s) !! i = Some (mkReader (r_kind rd) (closed_promise rd) (attached rd) ps).
Proof. intros H. cbn. apply list_lookup_insert_eq. apply lookup_lt_Some in H. done. Qed.

Lemma waiting_set i rd ps s :
  reader (strm s) = Some i -> readers s !! i = Some rd -> waiting (r_kind rd) (set_requests i rd ps s) = ps.
Proof. intros Hr Hi. exact (waiting_at i _ (set_requests i rd ps s) Hr (set_requests_lookup i rd ps s Hi)). Qed.

Lemma waiting_set_other i rd ps k s :
  reader (strm s) = Some i -> readers s !! i = Some rd -> k <> r_kind rd -> waiting k (set_requests i rd ps s) = [].
Proof. intros Hr Hi Hk. exact (waiting_other i _ k (set_requests i rd ps s) Hr (set_requests_lookup i rd ps s Hi) Hk). Qed.

Lemma set_requests_other i rd ps s j : j <> i -> readers (set_requests i rd ps s) !! j = readers s !! j.
Proof. intros H. cbn. apply list_lookup_insert_ne. done. Qed.

(** The requests of the stream's reader change. *)
Lemma core_requests V x x' i rd ps s :
  core V x s -> reader (strm s) = Some i -> readers s !! i = Some rd ->
  byob_count V = x' + match r_kind rd with ByobReader => length ps | DefaultReader => 0 end ->
  (state (strm s) <> Readable -> r_kind rd = DefaultReader -> ps = []) ->
  core V x' (set_requests i rd ps s).
Proof.
  intros [] Hr Hi Hc Hd. split; try done.
  - intros j rd' Hj Ha. destruct (decide (j = i)) as [->|Hn]; [done|]. rewrite set_requests_other in Hj by done. eauto.
  - intros j Hj. destruct (decide (j = i)) as [->|Hn].
    + eexists. split; [apply set_requests_lookup; done|]. destruct (k_cur0 i Hr) as (rd' & H1 & H2). cbn. congruence.
    + rewrite set_requests_other by done. eauto.
  - intros j rd' Hj Ha. destruct (decide (j = i)) as [->|Hn].
    + rewrite (set_requests_lookup i rd ps s Hi) in Hj. simplify_eq. cbn in Ha. destruct (k_cur0 i Hr) as (rd' & H1 & H2). congruence.
    + rewrite set_requests_other in Hj by done. eauto.
  - rewrite Hc. destruct (r_kind rd) eqn:Hk.
    + rewrite (waiting_set_other i rd ps ByobReader s Hr Hi) by congruence. done.
    + rewrite <- Hk. rewrite (waiting_set i rd ps s Hr Hi). done.
  - intros Hst. destruct (r_kind rd) eqn:Hk.
    + rewrite <- Hk. rewrite (waiting_set i rd ps s Hr Hi). apply Hd; done.
    + apply (waiting_set_other i rd ps DefaultReader s Hr Hi). congruence.
Qed.

(** *** Taking and delivering *)

(** The bytes of the first descriptor are taken by a request. *)
Lemma take_head d V x s p :
  core (d :: V) (S x) s -> byob_request (ctrl s) = None -> d_type d = TByob ->
  core V x (push_log (Taken p (filled_bytes d s)) s).
Proof.
  intros HC Hn Hty. destruct (nodup_head d V s (k_nodup _ _ _ HC)) as (N1 & N2 & N3). destruct HC. split; try done.
  - intros d' Hd'. apply k_desc0. set_solver.
  - intros d' V' ->. left. apply (k_tail0 d (d' :: V') d' eq_refl). set_solver.
  - intros d0 V' d' -> Hd'. apply (k_tail0 d (d0 :: V') d' eq_refl). set_solver.
  - destruct k_types0 as [_ Hf]. destruct V as [|d' V]; [done|]. inversion Hf as [|? ? [H1 H2] H3]. split; [congruence|done].
  - intros k Hk. cbn in Hk. congruence.
  - intros Hc d' V' ->. destruct k_types0 as [_ Hf]. inversion Hf as [|? ? [H1 H2] H3]. rewrite H2. apply Nat.divide_0_r.
  - intros e He. specialize (k_err0 e He). done.
  - rewrite byob_count_cons, Hty in k_count0. rewrite decide_True in k_count0 by done. cbn in k_count0.
    injection k_count0 as k_count0. exact k_count0.
  - cbn. rewrite not_elem_of_app. intros [Ht _]. specialize (k_fifo0 Ht). unfold fifo in *.
    change (is_readable (push_log _ s)) with (is_readable s). cbn [log push_log]. rewrite accepted_last, taken_snoc, app_nil_r.
    change (queued (push_log _ s)) with (queued s). change (filled V (push_log _ s)) with (filled V s).
    rewrite filled_cons in k_fifo0. rewrite <- !app_assoc in *. exact k_fifo0.
  - cbn. intros q bs Hd. apply elem_of_app in Hd as [Hd|Hd]; [apply elem_of_app; left; auto|set_solver].
Qed.

Lemma core_deliver V x s p v done_ data :
  core V x s -> isolated V (v_buffer v) data s -> Taken p (bytes_at (v_buffer v) (v_offset v) (v_length v) s) ∈ log s ->
  core V x (deliver p v done_ s).
Proof.
  intros HC HI Ht. unfold deliver.
  set (s1 := push_log _ s).
  assert (HC1 : core V x s1).
  { destruct HC. split; try done; cbn.
    - rewrite not_elem_of_app. intros [Hn _]. specialize (k_fifo0 Hn). unfold fifo in *.
      change (is_readable s1) with (is_readable s). cbn [log s1 push_log]. rewrite accepted_last, taken_snoc, !app_nil_r. exact k_fifo0.
    - intros q bs Hd. apply elem_of_app. left. apply elem_of_app in Hd as [Hd|Hd]; [auto|].
      apply list_elem_of_singleton in Hd. injection Hd as -> ->. exact Ht. }
  eapply core_share_isolated; [eapply core_same; [apply settle_same|exact HC1]|].
  destruct (settle_only p (Fulfilled (if done_ then RDone (Some v) else RChunk v)) s1) as [P ->]. exact HI.
Qed.

Lemma deliver_rest p v done_ s : exists P,
  deliver p v done_ s = share (v_buffer v) (set_promises P
    (push_log (Delivered p (bytes_at (v_buffer v) (v_offset v) (v_length v) s)) s)).
Proof. unfold deliver. match goal with |- context [settle ?p ?r ?s'] => destruct (settle_only p r s') as [P ->] end. exists P. done. Qed.

(** What an operation leaves of the buffers it does not own, and of the log. *)
Definition frame (V V' : list descriptor) (s s' : st) : Prop :=
  (forall b data, isolated V b data s -> isolated V' b data s') ∧ log s `prefix_of` log s'.

Lemma frame_trans V1 V2 V3 s1 s2 s3 : frame V1 V2 s1 s2 -> frame V2 V3 s2 s3 -> frame V1 V3 s1 s3.
Proof. intros [H1 H2] [H3 H4]. split; [auto|]. etrans; done. Qed.

Lemma frame_refl V s : frame V V s s.
Proof. split; [auto|done]. Qed.

Lemma frame_same V s s' : same s s' -> frame V V s s'.
Proof.
  intros (Hb & Hsh & _ & _ & _ & _ & Hlg & Hq & _). split; [|rewrite Hlg; done].
  intros b data. unfold isolated, live. rewrite Hb, Hsh, Hq. done.
Qed.

Lemma isolated_lt V b data s : isolated V b data s -> b < length (buffers s).
Proof. intros H. eapply live_bound, H. Qed.

(** A filled descriptor is committed to the first request of the reader. *)
Lemma commit_core d V x s i rd p ps :
  core (d :: V) x s -> reader (strm s) = Some i -> readers s !! i = Some rd -> r_kind rd = ByobReader ->
  requests rd = p :: ps -> d_type d = TByob -> byob_request (ctrl s) = None -> backed s d ->
  (d_element_size d | bytes_filled d)%nat ->
  exists s', commit_pull_into_descriptor (Some i) d s = Some (Ok tt, s') ∧ core V x s' ∧
    ctrl s' = ctrl s ∧ strm s' = strm s ∧ readers s' = readers (set_requests i rd ps s) ∧ frame (d :: V) V s s' ∧
    (forall d', d' ∈ V -> backed s d' -> backed s' d').
Proof.
  intros HC Hr Hi Hk Hps Hty Hn Hbk Hal. destruct Hbk as (data & Hl & Hlen).
  destruct (transfer_head d V x s data HC Hn Hl) as (HC1 & Hns & Hbk1).
  set (nb := length (buffers s)) in *. set (s1 := transferred (d_buffer d) data s) in *. set (d1 := set_d_buffer nb d) in *.
  assert (HC2 : core (d1 :: V) (S x) (set_requests i rd ps s1)).
  { apply (core_requests _ x); [done..| |congruence]. pose proof (k_count _ _ _ HC1) as Hct.
    assert (Hw : waiting ByobReader s1 = p :: ps) by (rewrite <- Hk, <- Hps; apply (waiting_at i); done).
    rewrite Hw in Hct. cbn [length] in Hct. rewrite Hk. lia. }
  set (s2 := set_requests i rd ps s1) in *.
  assert (HC3 : core V x (push_log (Taken p (filled_bytes d1 s2)) s2)) by (apply take_head; done).
  set (s3 := push_log _ s2) in *.
  set (v := mkView (view_constructor d) nb (d_offset d) (bytes_filled d)).
  assert (Hiso : isolated V nb data s3).
  { destruct (nodup_head d1 V s1 (k_nodup _ _ _ HC1)) as (N1 & N2 & N3).
    split; [apply transferred_new|]. split; [exact Hns|]. split; [exact N1|exact N2]. }
  exists (deliver p v (is_closed s) s3). split; [|split; [|split; [|split; [|split; [|split]]]]].
  - unfold commit_pull_into_descriptor. rewrite bind_gets. unfold convert_pull_into_descriptor.
    assert (Hconv : (let* b := transfer_array_buffer (d_buffer d) in
      ret (mkView (view_constructor d) b (d_offset d) (bytes_filled d / d_element_size d * d_element_size d))) s = Some (Ok v, s1)).
    { rewrite (bind_ok _ _ _ _ _ (transfer_eq _ _ _ Hl)). unfold ret, v. do 3 f_equal. f_equal.
      destruct Hal as [k ->]. rewrite Nat.div_mul; [done|]. unfold d_element_size. destruct (view_constructor d); done. }
    rewrite (bind_ok _ _ _ _ _ Hconv), Hty. unfold fulfill_request. rewrite (reader_at_some i rd) by done.
    rewrite Hk, Hps. done.
  - apply (core_deliver _ _ _ _ _ _ data); [done|exact Hiso|]. cbn [log s3 push_log]. apply elem_of_app. right.
    apply list_elem_of_singleton. done.
  - destruct (deliver_rest p v (is_closed s) s3) as [P ->]. done.
  - destruct (deliver_rest p v (is_closed s) s3) as [P ->]. done.
  - destruct (deliver_rest p v (is_closed s) s3) as [P ->]. done.
  - destruct (deliver_rest p v (is_closed s) s3) as [P ->]. split.
    + intros b bd HI. pose proof (isolated_lt _ _ _ _ HI) as Hlt. destruct HI as (I1 & I2 & I3 & I4).
      cbn in I4. rewrite not_elem_of_cons in I4. destruct I4 as [I4 I5].
      split; [|split; [|split; [exact I3|exact I5]]].
      * unfold live in *. rewrite <- I1. apply (transferred_other (d_buffer d) data s); done.
      * cbn. rewrite not_elem_of_cons. split; [subst nb; lia|exact I2].
    + cbn. rewrite <- app_assoc. apply prefix_app_r. done.
  - destruct (deliver_rest p v (is_closed s) s3) as [P ->]. intros d' Hd' Hb. eapply backed_ext; [|exact Hb].
    apply (transferred_other (d_buffer d) data s); [destruct Hb as (bd & Hb & _); eapply live_bound, Hb|].
    intros Heq. destruct (nodup_head d V s (k_nodup _ _ _ HC)) as (_ & N2 & _). apply N2. rewrite <- Heq. apply list_elem_of_fmap. eauto.
Qed.
