(* ===== verification/ByteInvariant.v ===== *)
(** * What holds of every readable byte stream

    The invariant of a byte stream that is reached by any sequence of calls,
    settlements and jobs, where the source's [pull] makes calls of its own and
    the program writes to the buffers it can reach: the bytes that reads take
    are those that were accepted, in order, and nothing panics or loops. *)
From Stdlib Require Import ZArith Lia SpecFloat.
From stdpp Require Import base list numbers strings sets.
From S2P Require Import Prelude F64 ByteStream ByteCore.

Abbreviation pending s := (pending_pull_intos (ctrl s)).

Record inv (s : st) : Prop := Inv {
  i_core : core (pending s) 0 s;
  i_excl : pending s <> [] -> queue (ctrl s) = [];
  i_wait : forall d, d ∈ pending s -> bytes_filled d < minimum_fill d;
  i_single : waiting DefaultReader s <> [] -> length (queue (ctrl s)) <= 1;
}.

(** What an operation that does not pull keeps. *)
Definition steady (s s' : st) : Prop :=
  strm s' = strm s ∧ pulling (ctrl s') = pulling (ctrl s) ∧ close_requested (ctrl s') = close_requested (ctrl s).

(** The readers keep their kinds. *)
Definition kinds (s s' : st) : Prop :=
  forall i rd, readers s !! i = Some rd -> exists rd', readers s' !! i = Some rd' ∧ r_kind rd' = r_kind rd.

Lemma kinds_trans s1 s2 s3 : kinds s1 s2 -> kinds s2 s3 -> kinds s1 s3.
Proof.
  intros H12 H23 i rd Hi. destruct (H12 i rd Hi) as (rd' & H1 & H2). destruct (H23 i rd' H1) as (rd2 & H3 & H4).
  exists rd2. split; [done|congruence].
Qed.

Lemma kinds_same s s' : readers s' = readers s -> kinds s s'.
Proof. intros H i rd Hi. rewrite H. eauto. Qed.

Lemma kinds_requests i rd ps s s' : readers s !! i = Some rd -> readers s' = readers (set_requests i rd ps s) -> kinds s s'.
Proof.
  intros Hi Hs j rd' Hj. rewrite Hs. destruct (decide (j = i)) as [->|Hn].
  - rewrite (set_requests_lookup i rd ps s Hi). eexists. split; [done|]. cbn. congruence.
  - rewrite set_requests_other by done. eauto.
Qed.

Lemma steady_trans s1 s2 s3 : steady s1 s2 -> steady s2 s3 -> steady s1 s3.
Proof. unfold steady. intuition congruence. Qed.

Lemma drained_steady d n s s' : drained d n s s' -> steady s s'.
Proof. intros (B & q & -> & _). done. Qed.

Lemma drained_total d n s s' : drained d n s s' -> queue_total_size (ctrl s') = queue_total_size (ctrl s) - n.
Proof. intros (B & q & -> & _). done. Qed.

Lemma queue_nil V x s : core V x s -> queue_total_size (ctrl s) = 0 -> queue (ctrl s) = [].
Proof.
  intros HC H0. destruct (queue (ctrl s)) as [|e q] eqn:Hq; [done|]. exfalso.
  destruct (k_queue _ _ _ HC e) as (E1 & _); [rewrite Hq; set_solver|]. rewrite (k_total _ _ _ HC), Hq in H0. cbn in H0. lia.
Qed.

Lemma total_nil V x s : core V x s -> queue (ctrl s) = [] -> queue_total_size (ctrl s) = 0.
Proof. intros HC H0. rewrite (k_total _ _ _ HC), H0. done. Qed.

Lemma drained_frame d d' n s s' V : d_buffer d' = d_buffer d -> drained d n s s' -> frame (d :: V) (d' :: V) s s'.
Proof.
  intros Hb Hdr. split.
  - intros b data HI. pose proof (drained_isolated _ _ _ _ _ _ _ Hdr HI) as (I1 & I2 & I3 & I4).
    split; [done|]. split; [done|]. split; [done|]. cbn in *. rewrite Hb. done.
  - destruct Hdr as (B & q & -> & _). done.
Qed.

Lemma set_pending_same ds s : same s (set_pending ds s).
Proof. repeat split. Qed.

Lemma set_pending_twice ds es s : set_pending ds (set_pending es s) = set_pending ds s.
Proof. done. Qed.

(** ** The pending descriptors *)

Lemma shift_eq d ds s : pending s = d :: ds -> shift_pending_pull_into s = Some (Ok d, set_pending ds (invalidate_byob_request s)).
Proof.
  intros H. unfold shift_pending_pull_into, invalidate_byob_request. destruct (byob_request (ctrl s)); cbn; rewrite H; done.
Qed.

Lemma invalidate_id s : byob_request (ctrl s) = None -> invalidate_byob_request s = s.
Proof. intros H. unfold invalidate_byob_request. rewrite H. done. Qed.

(** The state in which the queue is given to the descriptors of the reader. *)
Record serving (i : nat) (s : st) : Prop := Serving {
  w_core : core (pending s) 0 s;
  w_readable : state (strm s) = Readable;
  w_byob : Forall (fun d => d_type d = TByob) (pending s);
  w_backed : forall d, d ∈ pending s -> backed s d;
  w_wait : forall d, d ∈ pending s -> bytes_filled d < minimum_fill d;
  w_request : byob_request (ctrl s) = None;
  w_reader : reader (strm s) = Some i;
  w_kind : exists rd, readers s !! i = Some rd ∧ r_kind rd = ByobReader;
}.

Lemma byob_count_all V : Forall (fun d => d_type d = TByob) V -> byob_count V = length V.
Proof. intros H. unfold byob_count. rewrite filter_all by done. done. Qed.

(** With a descriptor, the reader has a request. *)
Lemma serving_requests i s d ds :
  serving i s -> pending s = d :: ds -> exists rd p ps, readers s !! i = Some rd ∧ r_kind rd = ByobReader ∧ requests rd = p :: ps.
Proof.
  intros [] Hp. destruct w_kind0 as (rd & Hrd & Hk). pose proof (k_count _ _ _ w_core0) as Hc.
  rewrite byob_count_all in Hc by done. rewrite Hp in Hc. cbn in Hc.
  assert (Hw : waiting ByobReader s = requests rd) by (rewrite <- Hk; apply (waiting_at i); done). rewrite Hw in Hc.
  destruct (requests rd) as [|p ps] eqn:Hr; [done|]. exists rd, p, ps. done.
Qed.

Lemma types_pending_byob d ds : types (d :: ds) -> d_type d = TByob -> Forall (fun d => d_type d = TByob) (d :: ds).
Proof. intros [_ H] Hd. constructor; [done|]. eapply Forall_impl; [exact H|]. naive_solver. Qed.

(** The queue is given to the descriptors until one of the two is empty. *)
Lemma process_loop_serving i : forall fuel s,
  serving i s -> 0 < fuel -> (pending s = [] ∨ queue_total_size (ctrl s) = 0 ∨ 2 + length (pending s) <= fuel) ->
  exists s', process_pull_into_loop fuel (Some i) s = Some (Ok tt, s') ∧ serving i s' ∧
    (pending s' = [] ∨ queue (ctrl s') = []) ∧ frame (pending s) (pending s') s s' ∧ steady s s' ∧ kinds s s'.
Proof.
  induction fuel as [|fuel IH]; intros s HS Hfu Hen; [lia|]. cbn [process_pull_into_loop]. rewrite !bind_gets.
  destruct (pending s) as [|d ds] eqn:Hp.
  { exists s. rewrite Hp. split; [done|]. split; [done|]. split; [left; done|]. split; [apply frame_refl|]. split; [done|apply kinds_same; done]. }
  destruct (Nat.eqb_spec (queue_total_size (ctrl s)) 0) as [H0|H0].
  { exists s. rewrite Hp. split; [done|]. split; [done|]. split; [right; eapply queue_nil; [apply HS|done]|].
    split; [apply frame_refl|]. split; [done|apply kinds_same; done]. }
  destruct (serving_requests i s d ds HS Hp) as (rd & p & ps & Hrd & Hk & Hrq).
  destruct HS as [HC Hst Hty Hbk Hwt Hrn Hri Hkd]. rewrite Hp in *.
  destruct (fill_core d ds 0 s HC Hst) as (n & ready & s1 & H1 & HC1 & Hdr & Hbk1 & Hrdy); [apply Hbk; set_solver|apply Hwt; set_solver|].
  set (d' := set_filled (bytes_filled d + n) d) in *.
  pose proof (drained_total _ _ _ _ Hdr) as Ht1.
  assert (Hp1 : pending s1 = d :: ds) by (destruct Hdr as (B & q & -> & _); exact Hp).
  assert (Hother : forall b, b ∈ ds -> backed s b -> backed s1 b).
  { intros b Hb Hbb. destruct Hdr as (B & q & -> & _ & _ & Hsm). eapply backed_ext; [|exact Hbb]. apply Hsm.
    destruct (nodup_head d ds s (k_nodup _ _ _ HC)) as (_ & N2 & _). intros Heq. apply N2. rewrite <- Heq. apply list_elem_of_fmap. eauto. }
  assert (Hs1 : strm s1 = strm s ∧ readers s1 = readers s ∧ byob_request (ctrl s1) = None).
  { destruct Hdr as (B & q & -> & _). done. }
  destruct Hs1 as (E1 & E2 & E3).
  rewrite (bind_ok _ _ _ _ _ H1). cbn beta iota. rewrite bind_modify.
  set (s2 := set_pending (d' :: ds) s1).
  assert (HC2 : core (d' :: ds) 0 s2) by (eapply core_same; [apply set_pending_same|exact HC1]).
  assert (HF2 : frame (d :: ds) (d' :: ds) s s2).
  { eapply frame_trans; [apply (drained_frame d d' n s s1 ds); done|apply frame_same, set_pending_same]. }
  inversion Hty as [|? ? Hd Hds]; subst.
  destruct ready.
  - destruct Hrdy as [Hmin Hdiv]. set (s3 := set_pending ds s2).
    assert (Hsh : shift_pending_pull_into s2 = Some (Ok d', s3)).
    { rewrite (shift_eq d' ds s2) by done. rewrite (invalidate_id s2) by done. done. }
    assert (HC3 : core (d' :: ds) 0 s3) by (eapply core_same; [apply set_pending_same|exact HC2]).
    destruct (commit_core d' ds 0 s3 i rd p ps HC3) as (s4 & H4 & HC4 & F1 & F2 & F3 & HF4 & Hb4); try done;
      [cbn; congruence|cbn; congruence|].
    assert (HS4 : serving i s4).
    { assert (Hp4 : pending s4 = ds) by (rewrite F1; done). split; rewrite ?Hp4, ?F1, ?F2.
      - exact HC4.
      - cbn. congruence.
      - done.
      - intros b Hb. apply Hb4; [done|]. apply (Hother b Hb). apply Hbk. set_solver.
      - intros b Hb. apply Hwt. set_solver.
      - cbn. exact E3.
      - cbn. congruence.
      - exists (mkReader (r_kind rd) (closed_promise rd) (attached rd) ps). rewrite F3.
        split; [apply set_requests_lookup; cbn; congruence|done]. }
    destruct (IH s4 HS4) as (s' & Hs' & HS' & Hend & HF' & Hst' & Hkd').
    { cbn [length] in Hen. destruct Hen as [Hen|[Hen|Hen]]; [done|done|lia]. }
    { rewrite F1. cbn [length] in Hen |- *. change (pending s3) with ds. destruct Hen as [Hen|[Hen|Hen]]; [done|done|right; right; lia]. }
    exists s'. split; [|split; [done|]; split; [done|]; split; [|split]].
    + rewrite (bind_ok _ _ _ _ _ (eq_trans (bind_ok _ _ _ _ _ Hsh) H4)). exact Hs'.
    + rewrite F1 in HF'. change (pending s3) with ds in HF'.
      eapply frame_trans; [exact HF2|]. eapply frame_trans; [|exact HF'].
      eapply frame_trans; [|exact HF4]. apply frame_same, set_pending_same.
    + eapply steady_trans; [|exact Hst']. split; [rewrite F2; exact E1|]. rewrite F1.
      destruct (drained_steady _ _ _ _ Hdr) as (_ & A2 & A3). split; [exact A2|exact A3].
    + eapply kinds_trans; [|exact Hkd']. apply (kinds_requests i rd ps); [exact Hrd|]. rewrite F3. cbn. rewrite E2. done.
  - destruct Hrdy as [-> Hsm].
    assert (HS2 : serving i s2).
    { split; try done; cbn [pending_pull_intos ctrl s2 set_pending set_ctrl].
      - cbn. congruence.
      - constructor; done.
      - intros b Hb. apply elem_of_cons in Hb as [->|Hb]; [exact Hbk1|]. apply (Hother b Hb), Hbk. set_solver.
      - intros b Hb. apply elem_of_cons in Hb as [->|Hb]; [exact Hsm|]. apply Hwt. set_solver.
      - cbn. congruence.
      - exists rd. cbn. split; [congruence|done]. }
    destruct (IH s2 HS2) as (s' & Hs' & HS' & Hend & HF' & Hst' & Hkd').
    { cbn [length] in Hen. destruct Hen as [Hen|[Hen|Hen]]; [done|done|lia]. }
    { right; left. cbn. lia. }
    exists s'. split; [exact Hs'|]. split; [done|]. split; [done|]. split; [|split].
    + eapply frame_trans; [exact HF2|exact HF'].
    + eapply steady_trans; [|exact Hst']. split; [exact E1|]. destruct (drained_steady _ _ _ _ Hdr) as (_ & A2 & A3). done.
    + eapply kinds_trans; [|exact Hkd']. apply kinds_same. exact E2.
Qed.

(** ** What every operation keeps *)

Definition byob_locked (s : st) : Prop :=
  exists i rd, reader (strm s) = Some i ∧ readers s !! i = Some rd ∧ r_kind rd = ByobReader.

Record moves (s s' : st) : Prop := Moves {
  mv_frame : frame (pending s) (pending s') s s';
  mv_pulling : pulling (ctrl s) = true -> pulling (ctrl s') = true;
  mv_kinds : kinds s s';
}.

(** The reader stays, and without a BYOB reader no descriptors are added. *)
Definition keeps (s s' : st) : Prop :=
  reader (strm s') = reader (strm s) ∧ (~ byob_locked s -> length (pending s') <= length (pending s)).

Lemma moves_refl s : moves s s.
Proof. split; [apply frame_refl|done|apply kinds_same; done]. Qed.

Lemma moves_trans s1 s2 s3 : moves s1 s2 -> moves s2 s3 -> moves s1 s3.
Proof.
  intros [] []. split; [eapply frame_trans; done|auto|eapply kinds_trans; done].
Qed.

Lemma keeps_trans s1 s2 s3 : moves s1 s2 -> inv s1 -> keeps s1 s2 -> keeps s2 s3 -> keeps s1 s3.
Proof.
  intros HM HI [H1 H2] [H3 H4]. split; [congruence|]. intros Hn. specialize (H2 Hn). assert (Hn2 : ~ byob_locked s2).
  { intros (i & rd & Hr & Hrd & Hk). apply Hn. rewrite H1 in Hr. destruct (k_cur _ _ _ (i_core _ HI) i Hr) as (rd1 & Hrd1 & _).
    destruct (mv_kinds _ _ HM i rd1 Hrd1) as (rd' & Hrd' & Hk'). exists i, rd1. split; [done|]. split; [done|]. congruence. }
  specialize (H4 Hn2). lia.
Qed.

Definition good (s s' : st) : Prop := inv s' ∧ moves s s' ∧ keeps s s'.

Lemma good_refl s : inv s -> good s s.
Proof. intros. split; [done|]. split; [apply moves_refl|done]. Qed.

Lemma good_trans s1 s2 s3 : inv s1 -> good s1 s2 -> good s2 s3 -> good s1 s3.
Proof.
  intros HI (I1 & M1 & K1) (I2 & M2 & K2). split; [done|]. split; [eapply moves_trans; done|eapply keeps_trans; done].
Qed.

(** A change that the invariant does not see. *)
Lemma good_same s s' :
  inv s -> same s s' -> pending s' = pending s -> (pulling (ctrl s) = true -> pulling (ctrl s') = true) -> good s s'.
Proof.
  intros HI HS Hp Hpl. pose proof HS as (Hb & Hsh & Hrq & Hrd & Hst & Hre & Hlg & Hq & Ht & Ha & Hbr & Hal). split; [|split].
  - destruct HI. split; rewrite ?Hp, ?Hq; [eapply core_same; done|done|done|].
    rewrite (waiting_ext DefaultReader s s') by done. done.
  - split; [rewrite Hp; apply frame_same; done|done|]. intros i rd Hi. rewrite Hrd. eauto.
  - split; [done|]. rewrite Hp. done.
Qed.

Lemma good_promises P s : inv s -> good s (set_promises P s).
Proof. intros HI. apply good_same; [done|repeat split|done|done]. Qed.

Lemma good_settle p r s : inv s -> good s (settle p r s).
Proof. intros HI. destruct (settle_only p r s) as [P ->]. apply good_promises. done. Qed.

Lemma good_log e s : inv s -> neutral e -> good s (push_log e s).
Proof.
  intros HI He. split; [|split].
  - destruct HI. split; try done. apply core_log; done.
  - split; [|done|apply kinds_same; done]. split; [done|]. cbn. apply prefix_app_r. done.
  - done.
Qed.

(** ** Closing and erroring *)

Lemma core_state V x s X :
  X <> Readable -> core V x s -> (X = Closed -> forall d V', V = d :: V' -> (d_element_size d | bytes_filled d)%nat) ->
  (forall e, X = Errored e -> V = []) -> waiting DefaultReader s = [] -> core V x (set_state X s).
Proof.
  intros HX [] Hc He Hw. split; try done; cbn; try done.
  intros Ht. specialize (k_fifo Ht). unfold fifo in *. change (log (set_state X s)) with (log s).
  assert (Hr : is_readable (set_state X s) = false) by (unfold is_readable; cbn; destruct X; done). rewrite Hr.
  change (filled V (set_state X s)) with (filled V s). destruct (is_readable s); [|done].
  exists (queued s). rewrite <- k_fifo, app_assoc. done.
Qed.

(** The requests of the stream's reader are answered by settling promises. *)
Lemma finish_rest X s i rd r :
  exists P, foldl (fun s p => settle p r s) (set_requests i rd [] (set_state X s)) (requests rd) =
    set_promises P (set_state X (set_requests i rd [] s)).
Proof. destruct (settle_all_only r (requests rd) (set_requests i rd [] (set_state X s))) as [P ->]. exists P. done. Qed.

Lemma resolve_rest rp r s : exists P, (if settles rp then settle (promise rp) r s else s) = set_promises P s.
Proof. destruct (settles rp); [apply settle_only|exists (promises s); destruct s; done]. Qed.

Definition default_emptied (s : st) : st :=
  match reader_at (reader (strm s)) s with
  | Some (i, rd) => match r_kind rd with DefaultReader => set_requests i rd [] s | ByobReader => s end
  | None => s
  end.

Lemma close_rest s : exists P, readable_stream_close (reader (strm s)) s = set_promises P (set_state Closed (default_emptied s)).
Proof.
  unfold readable_stream_close, default_emptied. change (reader_at (reader (strm s)) (set_state Closed s)) with (reader_at (reader (strm s)) s).
  destruct (reader_at (reader (strm s)) s) as [[i rd]|]; [|exists (promises s); destruct s as [? ? ? ? ? ? [] ? ?]; done].
  unfold resolve_undefined. destruct (resolve_rest (closed_promise rd) (Fulfilled RUndefined) (set_state Closed s)) as [P ->].
  destruct (r_kind rd); [|exists P; done].
  destruct (settle_all_only (Fulfilled (RDone None)) (requests rd) (set_requests i rd [] (set_promises P (set_state Closed s)))) as [P' HP'].
  unfold close_steps. rewrite HP'. exists P'. done.
Qed.

Lemma reader_at_lookup i rd s : reader_at (reader (strm s)) s = Some (i, rd) -> reader (strm s) = Some i ∧ readers s !! i = Some rd.
Proof.
  unfold reader_at. destruct (reader (strm s)) as [j|]; [|done]. destruct (readers s !! j) eqn:Hj; [|done]. intros [= <- <-]. done.
Qed.

Lemma emptied_core V x s : core V x s -> core V x (default_emptied s) ∧ waiting DefaultReader (default_emptied s) = [].
Proof.
  intros HC. unfold default_emptied. destruct (reader_at (reader (strm s)) s) as [[i rd]|] eqn:Hr.
  - apply reader_at_lookup in Hr as [Hr Hi]. destruct (r_kind rd) eqn:Hk.
    + split.
      * apply (core_requests V x x); try done. rewrite Hk. rewrite (k_count _ _ _ HC).
        rewrite (waiting_other i rd ByobReader s Hr Hi) by congruence. done.
      * rewrite <- Hk. apply waiting_set; done.
    + split; [done|]. apply (waiting_other i rd DefaultReader s Hr Hi). congruence.
  - split; [done|]. unfold waiting, current. rewrite Hr. done.
Qed.

Lemma core_algorithms V x s b : core V x s -> state (strm s) <> Readable -> core V x (set_algorithms b s).
Proof. intros [] Hs. split; try done. Qed.

Lemma emptied_view s :
  strm (default_emptied s) = strm s ∧ ctrl (default_emptied s) = ctrl s ∧ log (default_emptied s) = log s ∧
  buffers (default_emptied s) = buffers s ∧ shared (default_emptied s) = shared s.
Proof. unfold default_emptied. destruct (reader_at _ s) as [[i rd]|]; [destruct (r_kind rd)|]; done. Qed.

Lemma emptied_algorithms b s : default_emptied (set_algorithms b s) = set_algorithms b (default_emptied s).
Proof.
  unfold default_emptied. change (reader_at (reader (strm (set_algorithms b s))) (set_algorithms b s)) with (reader_at (reader (strm s)) s).
  destruct (reader_at _ s) as [[i rd]|]; [destruct (r_kind rd)|]; done.
Qed.

(** The stream closes, without or with its algorithms cleared. *)
Lemma close_good s :
  inv s -> state (strm s) = Readable -> (forall d V', pending s = d :: V' -> (d_element_size d | bytes_filled d)%nat) ->
  good s (readable_stream_close (reader (strm s)) (clear_algorithms s)).
Proof.
  intros HI Hst Hd. change (reader (strm s)) with (reader (strm (clear_algorithms s))).
  destruct (close_rest (clear_algorithms s)) as [P ->]. unfold clear_algorithms. rewrite emptied_algorithms.
  destruct (emptied_core _ _ _ (i_core _ HI)) as [HC Hw]. destruct (emptied_view s) as (E1 & E2 & E3 & E4 & E5).
  set (s1 := default_emptied s) in *.
  assert (HC1 : core (pending s) 0 (set_state Closed s1)).
  { apply core_state; [done|exact HC|intros _; exact Hd|done|exact Hw]. }
  split; [|split].
  - split; cbn [pending_pull_intos ctrl set_promises set_state set_strm set_algorithms set_ctrl queue]; rewrite ?E2; try apply HI.
    + eapply core_same; [|apply (core_algorithms _ _ _ false HC1)]; [|done]. repeat split.
    + intros Hne. exfalso. apply Hne. exact Hw.
  - split; cbn [pending_pull_intos pulling ctrl set_promises set_state set_strm set_algorithms set_ctrl readers]; rewrite ?E2; try done.
    + split; [|cbn; rewrite E3; done]. intros b data (I1 & I2 & I3 & I4). unfold isolated, live. cbn. rewrite E2, E4, E5. done.
    + subst s1. unfold default_emptied. destruct (reader_at (reader (strm s)) s) as [[i rd]|] eqn:Hr; [|apply kinds_same; done].
      apply reader_at_lookup in Hr as [_ Hi]. destruct (r_kind rd); [|apply kinds_same; done]. apply (kinds_requests i rd []); done.
  - split; cbn; [rewrite E1; done|]. rewrite E2. done.
Qed.

Definition all_emptied (s : st) : st :=
  match reader_at (reader (strm s)) s with
  | Some (i, rd) => set_requests i rd [] s
  | None => s
  end.

Lemma all_emptied_view s :
  strm (all_emptied s) = strm s ∧ ctrl (all_emptied s) = ctrl s ∧ log (all_emptied s) = log s ∧
  buffers (all_emptied s) = buffers s ∧ shared (all_emptied s) = shared s ∧ byob_requests (all_emptied s) = byob_requests s.
Proof. unfold all_emptied. destruct (reader_at _ s) as [[i rd]|]; done. Qed.

Lemma all_emptied_waiting k s : waiting k (all_emptied s) = [].
Proof.
  unfold all_emptied. destruct (reader_at (reader (strm s)) s) as [[i rd]|] eqn:Hr.
  - apply reader_at_lookup in Hr as [Hr Hi]. destruct (r_kind rd) eqn:Hk, k.
    + rewrite <- Hk. apply (waiting_set i rd [] s Hr Hi).
    + apply (waiting_set_other i rd [] ByobReader s Hr Hi). congruence.
    + apply (waiting_set_other i rd [] DefaultReader s Hr Hi). congruence.
    + rewrite <- Hk. apply (waiting_set i rd [] s Hr Hi).
  - unfold waiting, current. rewrite Hr. done.
Qed.

(** Everything that waits or is queued is discarded. *)
Definition wiped (X : stream_state) (s : st) : st :=
  set_state X (set_algorithms false (set_queue [] 0 (set_pending [] (all_emptied (invalidate_byob_request s))))).

(** What is discarded may be in the hands of an operation. *)
Lemma wiped_inv V x X s :
  core V x s -> X <> Readable -> inv (wiped X s) ∧ frame V [] s (wiped X s) ∧ kinds s (wiped X s) ∧
    pulling (ctrl (wiped X s)) = pulling (ctrl s) ∧ reader (strm (wiped X s)) = reader (strm s).
Proof.
  intros HC0 HX. destruct (invalidate_core _ _ _ HC0) as [HC Hn].
  set (s0 := invalidate_byob_request s) in *.
  assert (Hv : strm s0 = strm s ∧ log s0 = log s ∧ buffers s0 = buffers s ∧ shared s0 = shared s ∧ readers s0 = readers s ∧
    queue (ctrl s0) = queue (ctrl s) ∧ pending s0 = pending s ∧ pulling (ctrl s0) = pulling (ctrl s)).
  { subst s0. unfold invalidate_byob_request. destruct (byob_request (ctrl s)); done. }
  destruct Hv as (A1 & A2 & A3 & A4 & A5 & A6 & A7 & A8).
  destruct (all_emptied_view s0) as (E1 & E2 & E3 & E4 & E5 & E6).
  assert (Hw : forall k, waiting k (wiped X s) = []) by (intros k; exact (all_emptied_waiting k s0)).
  assert (Hkinds : forall i rd, readers s0 !! i = Some rd -> exists rd', readers (all_emptied s0) !! i = Some rd' ∧
    r_kind rd' = r_kind rd ∧ attached rd' = attached rd ∧ (requests rd' = [] ∨ requests rd' = requests rd)).
  { intros j rd Hj. unfold all_emptied. destruct (reader_at (reader (strm s0)) s0) as [[i rd0]|] eqn:Hr; [|exists rd; tauto].
    apply reader_at_lookup in Hr as [_ Hi]. destruct (decide (j = i)) as [->|Hne].
    - rewrite (set_requests_lookup i rd0 [] s0 Hi). eexists. split; [done|]. cbn. assert (rd0 = rd) as -> by congruence. tauto.
    - rewrite set_requests_other by done. exists rd. tauto. }
  assert (Hback : forall i rd', readers (all_emptied s0) !! i = Some rd' -> exists rd, readers s0 !! i = Some rd ∧
    attached rd' = attached rd ∧ (requests rd' = [] ∨ requests rd' = requests rd)).
  { intros i rd' Hi. assert (Hlt : i < length (readers s0)).
    { apply lookup_lt_Some in Hi. unfold all_emptied in Hi. destruct (reader_at _ s0) as [[? ?]|]; cbn in Hi; rewrite ?length_insert in Hi; done. }
    destruct (lookup_lt_is_Some_2 _ _ Hlt) as [rd Hrd]. destruct (Hkinds i rd Hrd) as (rd2 & H1 & H2 & H3 & H4).
    exists rd. assert (rd2 = rd') as -> by congruence. done. }
  destruct HC. split; [|split; [|split; [|split]]].
  - assert (Hp : pending (wiped X s) = []) by done. split; rewrite ?Hp; try done.
    + split; try done; cbn; fold s0; rewrite ?E1, ?E3, ?E4, ?E5, ?E6, ?E2; try done.
      * constructor.
      * set_solver.
      * set_solver.
      * congruence.
      * intros i rd' Hi Ha. destruct (Hback i rd' Hi) as (rd & H1 & H2 & _). apply (k_att i rd H1). congruence.
      * intros i Hi. destruct (k_cur i Hi) as (rd & H1 & H2). destruct (Hkinds i rd H1) as (rd' & H3 & _ & H4 & _). exists rd'. split; [done|congruence].
      * intros i rd' Hi Ha. destruct (Hback i rd' Hi) as (rd & H1 & H2 & [H3|H3]); [done|]. rewrite H3. apply (k_old i rd H1). congruence.
      * rewrite Hw. done.
      * intros Ht. specialize (k_fifo Ht). unfold fifo in *.
        assert (Hr : is_readable (wiped X s) = false) by (unfold is_readable; cbn; destruct X; done). rewrite Hr.
        change (filled [] (wiped X s)) with (@nil Z). rewrite app_nil_r. cbn. fold s0. rewrite E3. destruct (is_readable s0).
        -- eexists. symmetry. exact k_fifo.
        -- eapply prefix_app_l. exact k_fifo.
    + set_solver.
    + rewrite Hw. done.
  - split; [|cbn; fold s0; rewrite E3, A2; done]. intros b data (I1 & I2 & I3 & I4). unfold isolated, live. cbn. fold s0. rewrite E4, E5, A3, A4. set_solver.
  - intros i rd Hi. rewrite <- A5 in Hi. destruct (Hkinds i rd Hi) as (rd' & H1 & H2 & _). eauto.
  - cbn. fold s0. rewrite E2, A8. done.
  - cbn. fold s0. rewrite E1, A1. done.
Qed.

Lemma wiped_good X s : inv s -> X <> Readable -> good s (wiped X s).
Proof.
  intros HI HX. destruct (wiped_inv _ _ X s (i_core _ HI) HX) as (W1 & W2 & W3 & W4 & W5). split; [done|]. split.
  - split; [exact W2|rewrite W4; done|done].
  - split; [done|cbn; lia].
Qed.

Lemma error_rest e s : exists P,
  readable_stream_error (reader (strm s)) e (clear_algorithms (reset_queue (clear_pending_pull_intos s))) =
    set_promises P (wiped (Errored e) s).
Proof.
  unfold wiped, clear_pending_pull_intos, all_emptied. set (s0 := invalidate_byob_request s).
  assert (E : strm s0 = strm s) by (subst s0; unfold invalidate_byob_request; destruct (byob_request (ctrl s)); done).
  rewrite <- E. clearbody s0. unfold readable_stream_error.
  change (reader_at (reader (strm s0)) (set_state (Errored e) (clear_algorithms (reset_queue (set_pending [] s0)))))
    with (reader_at (reader (strm s0)) s0).
  destruct (reader_at (reader (strm s0)) s0) as [[i rd]|]; [|exists (promises s0); done].
  unfold reject, error_requests, error_steps.
  match goal with |- context [if settles ?rp then settle ?p ?r ?s' else _] => destruct (resolve_rest rp r s') as [P ->] end.
  match goal with |- context [foldl _ ?s' ?ps] => destruct (settle_all_only (Rejected e) ps s') as [P' ->] end. exists P'. done.
Qed.

Lemma controller_error_good e s : inv s -> good s (controller_error (reader (strm s)) e s).
Proof.
  intros HI. unfold controller_error. destruct (negb (is_readable s)); [apply good_refl; done|].
  destruct (error_rest e s) as [P ->]. pose proof (wiped_good (Errored e) s HI ltac:(done)) as HW.
  eapply good_trans; [done|exact HW|]. apply good_promises, HW.
Qed.

Lemma readable_state s : is_readable s = true -> state (strm s) = Readable.
Proof. unfold is_readable. destruct (state (strm s)); done. Qed.

(** What a call of the stream gives. *)
Definition fine {A} (s : st) (o : option (result value A * st)) : Prop := exists r s', o = Some (r, s') ∧ good s s'.

Lemma mod_divide a b : b <> 0 -> (a mod b =? 0) = true -> (b | a)%nat.
Proof. intros Hb H. apply Nat.eqb_eq in H. apply Nat.Lcm0.mod_divide in H. exact H. Qed.

Lemma size_nonzero d : d_element_size d <> 0.
Proof. unfold d_element_size. destruct (view_constructor d); done. Qed.

Lemma controller_close_fine s : inv s -> fine s (controller_close (reader (strm s)) s).
Proof.
  intros HI. unfold controller_close. destruct (close_requested (ctrl s)); cbn [orb]; [eexists _, s; split; [done|apply good_refl; done]|].
  destruct (is_readable s) eqn:Hr; cbn [negb]; [|eexists _, s; split; [done|apply good_refl; done]].
  destruct (0 <? queue_total_size (ctrl s)).
  { eexists _, _. split; [done|]. apply good_same; [done|repeat split|done|done]. }
  destruct (pending s) as [|d ds] eqn:Hp.
  - eexists _, _. split; [done|]. apply close_good; [done|apply readable_state, Hr|]. rewrite Hp. done.
  - destruct (bytes_filled d mod d_element_size d =? 0) eqn:Hm; cbn [negb]; eexists _, _; (split; [done|]).
    + apply close_good; [done|apply readable_state, Hr|]. intros d' V' Hd. rewrite Hp in Hd. injection Hd as <- <-.
      apply mod_divide; [apply size_nonzero|exact Hm].
    + apply controller_error_good. done.
Qed.

(** ** Pulling *)

Lemma should_pull_total r s : exists b, should_call_pull r s = Some b ∧ (b = true -> state (strm s) = Readable).
Proof.
  unfold should_call_pull, get_desired_size. destruct (is_readable s) eqn:Hr; [|exists false; done].
  pose proof (readable_state s Hr) as Hst. rewrite Hst. cbn [negb].
  destruct (close_requested (ctrl s)), (started (ctrl s)), (0 <? num_requests r s); cbn; eauto.
Qed.

(** The calls of [pull] run well while the stream is pulling. *)
Definition runs (ok : call -> Prop) (run : call -> st -> option st) : Prop :=
  forall c s, ok c -> inv s -> pulling (ctrl s) = true -> exists s', run c s = Some s' ∧ good s s'.

Lemma pull_calls_good ok run cs s :
  runs ok run -> Forall ok cs -> inv s -> pulling (ctrl s) = true -> exists s', run_all run cs s = Some s' ∧ good s s'.
Proof.
  intros Hrun Hcs. revert s. induction Hcs as [|c cs Hc Hcs IH]; intros s HI Hp; [exists s; split; [done|apply good_refl; done]|].
  destruct (Hrun c s Hc HI Hp) as (s1 & H1 & HG1). destruct HG1 as (HI1 & HM1 & HK1).
  destruct (IH s1 HI1 (mv_pulling _ _ HM1 Hp)) as (s2 & H2 & HG2). exists s2. cbn. rewrite H1. split; [done|].
  eapply good_trans; [done| |exact HG2]. done.
Qed.

Section Pull.
Context (source : list event -> list call) (ok : call -> Prop) (run : call -> st -> option st).
Hypothesis Hsource : forall l, Forall ok (source l).

(** The stream is pulling already, or the calls run well. *)
Definition ready_to_pull (s : st) : Prop := pulling (ctrl s) = true ∨ runs ok run.

(** The queue stays, unless the source was called. *)
Definition pulled (q : list queue_entry) (s s' : st) : Prop :=
  queue (ctrl s') = q ∨ (pulling (ctrl s) = false ∧ pulling (ctrl s') = true).

Lemma call_pull_fine r s :
  ready_to_pull s -> inv s ->
  exists s', call_pull_if_needed source run r s = Some (Ok tt, s') ∧ good s s' ∧ pulled (queue (ctrl s)) s s'.
Proof.
  intros Hrun HI. unfold call_pull_if_needed. destruct (should_pull_total r s) as (b & -> & Hb).
  destruct b; cbn [negb]; [|exists s; split; [done|split; [apply good_refl; done|left; done]]].
  destruct (pulling (ctrl s)) eqn:Hp.
  { eexists. split; [done|]. split; [|left; done]. apply good_same; [done|repeat split|done|done]. }
  destruct Hrun as [Hrun|Hrun]; [congruence|].
  assert (HG0 : good s (set_pulling true s)) by (apply good_same; [done|repeat split|done|done]).
  unfold pull_algorithm. change (algorithms (ctrl (set_pulling true s))) with (algorithms (ctrl s)).
  rewrite (k_alg _ _ _ (i_core _ HI)) by auto.
  set (s1 := push_log SourcePull (set_pulling true s)).
  assert (HG1 : good s s1) by (eapply good_trans; [done|exact HG0|apply good_log; [apply HG0|done]]).
  destruct (pull_calls_good ok run (source (log s1)) s1 Hrun (Hsource _) (proj1 HG1) eq_refl) as (s2 & H2 & HG2).
  rewrite H2. eexists. split; [done|]. split; [|right; split; [done|apply (mv_pulling _ _ (proj1 (proj2 HG2))); done]].
  eapply good_trans; [done|exact HG1|]. eapply good_trans; [apply HG1|exact HG2|].
  apply good_same; [apply HG2|repeat split|done|done].
Qed.

(** The queue may have become empty. *)
Lemma handle_queue_drain_fine s : ready_to_pull s -> inv s -> pending s = [] -> state (strm s) = Readable ->
  exists s', handle_queue_drain source run (reader (strm s)) s = Some (Ok tt, s') ∧ good s s' ∧ pulled (queue (ctrl s)) s s'.
Proof.
  intros Hrun HI Hp Hst. unfold handle_queue_drain.
  destruct ((queue_total_size (ctrl s) =? 0) && close_requested (ctrl s)); [|apply call_pull_fine; done].
  eexists. split; [done|]. split; [apply close_good; [done|done|]; rewrite Hp; done|]. left.
  change (reader (strm s)) with (reader (strm (clear_algorithms s))). destruct (close_rest (clear_algorithms s)) as [P ->]. cbn.
  destruct (emptied_view (clear_algorithms s)) as (_ & -> & _). done.
Qed.

(** *** Delivering *)

Lemma deliver_inv p v dn s data :
  inv s -> isolated (pending s) (v_buffer v) data s -> Taken p (bytes_at (v_buffer v) (v_offset v) (v_length v) s) ∈ log s ->
  inv (deliver p v dn s) ∧ pending (deliver p v dn s) = pending s ∧ strm (deliver p v dn s) = strm s ∧
  pulling (ctrl (deliver p v dn s)) = pulling (ctrl s) ∧ readers (deliver p v dn s) = readers s ∧
  log s `prefix_of` log (deliver p v dn s) ∧
  (forall b data', b <> v_buffer v -> isolated (pending s) b data' s -> isolated (pending s) b data' (deliver p v dn s)).
Proof.
  intros HI Hiso Ht. pose proof (core_deliver _ _ s p v dn data (i_core _ HI) Hiso Ht) as HC.
  destruct (deliver_rest p v dn s) as [P HP]. rewrite HP in *. split; [|repeat split; try done].
  - destruct HI. split; try done.
  - cbn. apply prefix_app_r. done.
  - apply H0.
  - cbn. rewrite not_elem_of_cons. split; [done|apply H0].
  - apply H0.
  - apply H0.
Qed.

(** A chunk of the queue is taken by a read. *)
Lemma pop_core s e q p :
  core [] 0 s -> state (strm s) = Readable -> queue (ctrl s) = e :: q ->
  let s' := push_log (Taken p (entry_bytes e s)) (set_queue q (queue_total_size (ctrl s) - e_length e) s) in
  e_length e <= queue_total_size (ctrl s) ∧ core [] 0 s' ∧ exists data, isolated [] (e_buffer e) data s'.
Proof.
  intros HC Hst Hq s'. destruct (k_queue _ _ _ HC e) as (E1 & E2 & data & E3 & E4); [rewrite Hq; set_solver|].
  pose proof (k_nodup _ _ _ HC) as Hnd. rewrite Hq in Hnd. cbn in Hnd. rewrite app_nil_r in Hnd. apply NoDup_cons in Hnd as [N1 N2].
  pose proof (k_total _ _ _ HC) as Ht. rewrite Hq in Ht. cbn in Ht.
  split; [lia|]. split.
  - destruct HC. split; try done; cbn.
    + rewrite app_nil_r. done.
    + intros e' He'. apply k_queue. rewrite Hq. set_solver.
    + lia.
    + rewrite not_elem_of_app. intros [Hn _]. specialize (k_fifo Hn). unfold fifo in *. change (is_readable s') with (is_readable s).
      cbn [log s' push_log]. change (filled [] s') with (@nil Z). change (filled [] s) with (@nil Z) in k_fifo.
      change (log (set_queue _ _ s)) with (log s). rewrite accepted_last, taken_snoc, app_nil_r.
      assert (Hr : is_readable s = true) by (unfold is_readable; rewrite Hst; done). rewrite Hr in *.
      rewrite <- k_fifo. assert (Hqd : queued s = entry_bytes e s ++ queued s') by (unfold queued; rewrite Hq; done).
      rewrite Hqd, <- app_assoc. done.
    + intros p' bs Hd. apply elem_of_app in Hd as [Hd|Hd]; [apply elem_of_app; left; auto|set_solver].
  - exists data. split; [done|]. split; [done|]. split; [done|set_solver].
Qed.

Lemma not_detached V b data s : isolated V b data s -> is_detached b s = false.
Proof. intros (H & _). unfold is_detached. rewrite H. done. Qed.

Lemma bytes_isolated V V' b data o n s s' : isolated V b data s -> isolated V' b data s' -> bytes_at b o n s' = bytes_at b o n s.
Proof. intros (H1 & _) (H2 & _). rewrite !(bytes_at_live b data) by done. done. Qed.

Lemma fill_read_request_fine p s :
  ready_to_pull s -> core [] 0 s -> pending s = [] -> state (strm s) = Readable -> queue (ctrl s) <> [] ->
  (waiting DefaultReader s <> [] -> length (queue (ctrl s)) <= 2) ->
  exists s', fill_read_request_from_queue source run (reader (strm s)) p s = Some (Ok tt, s') ∧ good s s' ∧
    pulled (tail (queue (ctrl s))) s s'.
Proof.
  intros Hrun HC Hp Hst Hq Hsm. destruct (queue (ctrl s)) as [|e q] eqn:Hqe; [done|]. clear Hq.
  destruct (pop_core s e q p HC Hst Hqe) as (Hle & HC1 & data & Hiso). cbn zeta in *.
  set (s1 := push_log _ _) in *.
  assert (HI1 : inv s1).
  { split; change (pending s1) with (pending s); rewrite ?Hp; try done; [set_solver|]. intros Hw. cbn. specialize (Hsm Hw). cbn in Hsm. lia. }
  destruct (handle_queue_drain_fine s1 Hrun HI1 Hp Hst) as (s2 & H2 & (HI2 & HM2 & HK2) & Hpq).
  assert (Hiso2 : isolated (pending s2) (e_buffer e) data s2).
  { apply (proj1 (mv_frame _ _ HM2)). change (pending s1) with (pending s). rewrite Hp. exact Hiso. }
  set (v := mkView U8Array (e_buffer e) (e_offset e) (e_length e)).
  assert (Htk : Taken p (bytes_at (v_buffer v) (v_offset v) (v_length v) s2) ∈ log s2).
  { cbn [v v_buffer v_offset v_length]. rewrite (bytes_isolated _ _ _ _ _ _ _ _ Hiso Hiso2).
    destruct (proj2 (mv_frame _ _ HM2)) as [l ->]. apply elem_of_app. left. cbn. apply elem_of_app. right.
    apply list_elem_of_singleton. done. }
  destruct (deliver_inv p v false s2 data HI2 Hiso2 Htk) as (HI3 & P1 & P2 & P3 & P4 & P5 & P6).
  set (s3 := deliver p v false s2) in *. exists s3. split; [|split; [split; [done|split]|]].
  - unfold fill_read_request_from_queue. rewrite bind_gets, Hqe, bind_gets.
    erewrite bind_ok; [|unfold expect; rewrite usize_sub_Some by done; done]. rewrite !bind_modify.
    change (push_log _ (set_queue q _ s)) with s1. rewrite (bind_ok _ _ _ _ _ H2), bind_gets, (not_detached _ _ _ _ Hiso2). done.
  - split; rewrite ?P1, ?P3, ?P4.
    + split.
      * intros b bd HIb. assert (Hne : b <> e_buffer e).
        { intros ->. destruct HIb as (_ & _ & Hn & _). rewrite Hqe in Hn. set_solver. }
        apply P6; [done|]. apply (proj1 (mv_frame _ _ HM2)). destruct HIb as (I1 & I2 & I3 & I4). rewrite Hqe in I3. cbn in I3.
        rewrite not_elem_of_cons in I3. split; [done|]. split; [done|]. split; [apply I3|exact I4].
      * etrans; [|exact P5]. etrans; [|apply (proj2 (mv_frame _ _ HM2))]. cbn. apply prefix_app_r. done.
    + apply (mv_pulling _ _ HM2).
    + eapply kinds_trans; [apply (mv_kinds _ _ HM2)|apply kinds_same; exact P4].
  - destruct HK2 as [K1 K2]. split; [rewrite P2; exact K1|]. rewrite P1. exact K2.
  - destruct (deliver_rest p v false s2) as [P HP]. unfold pulled. cbn [tail].
    assert (E1 : queue (ctrl s3) = queue (ctrl s2)) by (subst s3; rewrite HP; done). rewrite E1, P3. exact Hpq.
Qed.
(** *** Serving default readers *)

Lemma ready_moves s s' : (pulling (ctrl s) = true -> pulling (ctrl s') = true) -> ready_to_pull s -> ready_to_pull s'.
Proof. intros H [Hp|Hr]; [left; auto|right; done]. Qed.

(** The stream's reader is the default reader [i], and no descriptor waits. *)
Definition default_at (i : nat) (s : st) : Prop :=
  reader (strm s) = Some i ∧ pending s = [] ∧ exists rd, readers s !! i = Some rd ∧ r_kind rd = DefaultReader.

Lemma default_at_good i s s' : inv s -> default_at i s -> good s s' -> default_at i s'.
Proof.
  intros HI (Hr & Hp & rd & Hi & Hk) (HI' & HM & HK1 & HK2). destruct (mv_kinds _ _ HM i rd Hi) as (rd' & Hi' & Hk').
  split; [congruence|]. split; [|exists rd'; split; [done|congruence]].
  assert (Hn : ~ byob_locked s) by (intros (j & rdj & H1 & H2 & H3); congruence).
  specialize (HK2 Hn). rewrite Hp in HK2. destruct (pending s'); [done|cbn in HK2; lia].
Qed.

Definition served (s : st) : Prop := waiting DefaultReader s = [] ∨ queue (ctrl s) = [].

(** A turn of the loop that takes the chunk of the queue. *)
Lemma read_turn i s rd p ps :
  ready_to_pull s -> inv s -> default_at i s -> readers s !! i = Some rd -> requests rd = p :: ps -> queue (ctrl s) <> [] ->
  exists s', fill_read_request_from_queue source run (Some i) p (set_requests i rd ps s) = Some (Ok tt, s') ∧ good s s' ∧ pulled [] s s'.
Proof.
  intros Hrun HI (Hr & Hp & rd' & Hi' & Hk) Hi Hrq Hq. assert (rd' = rd) as -> by congruence. clear Hi'.
  pose proof (i_core _ HI) as HC. rewrite Hp in HC.
  assert (Hw : waiting DefaultReader s = p :: ps) by (rewrite <- Hk, <- Hrq; apply (waiting_at i); done).
  assert (Hst : state (strm s) = Readable).
  { destruct (state (strm s)) eqn:Hs; [done|..]; (rewrite (k_done _ _ _ HC) in Hw by congruence; done). }
  assert (Hlen : length (queue (ctrl s)) <= 1) by (apply (i_single _ HI); rewrite Hw; done).
  assert (HC1 : core [] 0 (set_requests i rd ps s)).
  { apply (core_requests [] 0 0); try done. rewrite Hk. done. }
  destruct (fill_read_request_fine p (set_requests i rd ps s)) as (s' & Hs' & (HI' & HM & HK) & Hpl); try done; [cbn; lia|].
  change (reader (strm (set_requests i rd ps s))) with (reader (strm s)) in Hs'. rewrite Hr in Hs'.
  exists s'. split; [done|]. split.
  - split; [done|]. split.
    + destruct HM as [M1 M2 M3]. split; [exact M1|exact M2|]. eapply kinds_trans; [|exact M3]. apply (kinds_requests i rd ps); done.
    + destruct HK as [K1 K2]. split; [exact K1|]. intros Hn. apply K2. intros (j & rdj & H1 & H2 & H3). apply Hn.
      cbn in H1. assert (j = i) as -> by congruence. rewrite (set_requests_lookup i rd ps s Hi) in H2. exists i, rd.
      split; [done|]. split; [done|]. injection H2 as <-. exact H3.
  - change (queue (ctrl (set_requests i rd ps s))) with (queue (ctrl s)) in Hpl.
    destruct (queue (ctrl s)) as [|e [|]]; [done|exact Hpl|cbn in Hlen; lia].
Qed.

Lemma read_loop_fine i : forall fuel s,
  ready_to_pull s -> inv s -> default_at i s ->
  (served s ∧ 1 <= fuel) ∨ (pulling (ctrl s) = true ∧ 2 <= fuel) ∨ 3 <= fuel ->
  exists s', process_read_requests_loop source run fuel (Some i) s = Some (Ok tt, s') ∧ good s s' ∧ served s'.
Proof.
  induction fuel as [|fuel IH]; intros s Hrun HI HD Hfu; [lia|]. pose proof HD as (Hr & Hp & rd & Hi & Hk).
  cbn [process_read_requests_loop]. rewrite !bind_gets, (reader_at_some i rd) by done.
  assert (Hw : waiting DefaultReader s = requests rd) by (rewrite <- Hk; apply (waiting_at i); done).
  destruct (requests rd) as [|p ps] eqn:Hrq.
  { exists s. split; [done|]. split; [apply good_refl; done|left; done]. }
  destruct (Nat.eqb_spec (queue_total_size (ctrl s)) 0) as [H0|H0].
  { exists s. split; [done|]. split; [apply good_refl; done|right]. eapply queue_nil; [apply HI|done]. }
  assert (Hq : queue (ctrl s) <> []) by (intros Hq; apply H0; eapply total_nil; [apply HI|done]).
  destruct (read_turn i s rd p ps Hrun HI HD Hi Hrq Hq) as (s1 & H1 & HG & Hpl).
  rewrite bind_modify, (bind_ok _ _ _ _ _ H1).
  destruct (IH s1) as (s' & Hs' & HG' & Hsv).
  - eapply ready_moves; [|exact Hrun]. apply (mv_pulling _ _ (proj1 (proj2 HG))).
  - apply HG.
  - eapply default_at_good; done.
  - destruct Hfu as [[[Hs|Hs] _]|[[Hpu Hf]|Hf]].
    + congruence.
    + congruence.
    + destruct Hpl as [Hpl|[Hpl _]]; [left; split; [right; done|lia]|congruence].
    + destruct Hpl as [Hpl|[_ Hpl]]; [left; split; [right; done|lia]|right; left; split; [done|lia]].
  - exists s'. split; [done|]. split; [eapply good_trans; done|done].
Qed.
End Pull.

(** ** Enqueuing *)

Lemma frame_transferred d V s data :
  frame (d :: V) (set_d_buffer (length (buffers s)) d :: V) s (transferred (d_buffer d) data s).
Proof.
  split; [|done]. intros b bd HI. pose proof (isolated_lt _ _ _ _ HI) as Hlt. destruct HI as (I1 & I2 & I3 & I4).
  cbn in I4. rewrite not_elem_of_cons in I4. destruct I4 as [I4 I5].
  split; [unfold live in *; rewrite <- I1; apply (transferred_other (d_buffer d) data s); done|]. split; [done|]. split; [done|].
  cbn. rewrite not_elem_of_cons. split; [lia|done].
Qed.

Lemma frame_cloned V s c n : frame V V s (cloned c n s).
Proof.
  split; [|done]. intros b bd HI. pose proof (isolated_lt _ _ _ _ HI) as Hlt. destruct HI as (I1 & I2 & I3 & I4).
  split; [unfold live in *; cbn; rewrite lookup_app_l by done; done|]. split; [done|]. split; [|done].
  cbn. rewrite fmap_app, not_elem_of_app. split; [done|]. cbn. rewrite list_elem_of_singleton. lia.
Qed.

Lemma frame_drop d V s : frame (d :: V) V s s.
Proof. split; [|done]. intros b data (I1 & I2 & I3 & I4). repeat split; try done. cbn in I4. set_solver. Qed.

(** The state in which an accepted chunk is placed. *)
Record prepared (s0 s : st) : Prop := Prepared {
  p_core : core (pending s) 0 s;
  p_byob : Forall (fun d => d_type d = TByob) (pending s);
  p_backed : forall d, d ∈ pending s -> backed s d;
  p_wait : forall d, d ∈ pending s -> bytes_filled d < minimum_fill d;
  p_request : byob_request (ctrl s) = None;
  p_single : waiting DefaultReader s <> [] -> length (queue (ctrl s)) <= 1;
  p_frame : frame (pending s0) (pending s) s0 s;
  p_steady : steady s0 s;
  p_readers : readers s = readers s0;
  p_less : length (pending s) <= length (pending s0);
}.

Lemma invalidate_view s :
  let s' := invalidate_byob_request s in
  buffers s' = buffers s ∧ shared s' = shared s ∧ readers s' = readers s ∧ strm s' = strm s ∧ log s' = log s ∧
  queue (ctrl s') = queue (ctrl s) ∧ queue_total_size (ctrl s') = queue_total_size (ctrl s) ∧ pending s' = pending s ∧
  pulling (ctrl s') = pulling (ctrl s) ∧ close_requested (ctrl s') = close_requested (ctrl s).
Proof. unfold invalidate_byob_request. destruct (byob_request (ctrl s)); done. Qed.

Lemma frame_view V s s' :
  buffers s' = buffers s -> shared s' = shared s -> log s' = log s -> queue (ctrl s') = queue (ctrl s) -> frame V V s s'.
Proof. intros Hb Hs Hl Hq. split; [|rewrite Hl; done]. intros b data. unfold isolated, live. rewrite Hb, Hs, Hq. done. Qed.

(** A detached descriptor without a reader moves to the queue. *)
Lemma enqueue_detached_core d ds s :
  core (d :: ds) 0 s -> pending s = d :: ds -> queue (ctrl s) = [] -> backed s d -> state (strm s) = Readable ->
  byob_request (ctrl s) = None -> d_type d = TNone ->
  exists s', enqueue_detached_pull_into_to_queue d s = Some (Ok tt, s') ∧ core ds 0 s' ∧ pending s' = ds ∧
    length (queue (ctrl s')) <= 1 ∧ frame (d :: ds) ds s s' ∧ steady s s' ∧ readers s' = readers s ∧ byob_request (ctrl s') = None ∧
    (forall d', backed s d' -> backed s' d').
Proof.
  intros HC Hp Hq Hbk Hst Hn Hty. unfold enqueue_detached_pull_into_to_queue.
  destruct (Nat.ltb_spec 0 (bytes_filled d)) as [Hlt|Hge].
  - destruct (clone_core d ds 0 s (bytes_filled d) HC Hq Hbk Hst ltac:(lia)) as (c & H1 & HC1 & Hc).
    rewrite Nat.add_sub in H1. rewrite (bind_ok _ _ _ _ _ H1). set (s1 := cloned c (bytes_filled d) s) in *.
    assert (Hsh : shift_pending_pull_into s1 = Some (Ok d, set_pending ds s1)).
    { rewrite (shift_eq d ds s1) by done. rewrite (invalidate_id s1) by done. done. }
    rewrite (bind_ok _ _ _ _ _ Hsh). exists (set_pending ds s1). split; [done|]. split.
    + apply (drop_head (set_filled (bytes_filled d - bytes_filled d) d)); try done; [|left; cbn; lia].
      eapply core_same; [apply set_pending_same|exact HC1].
    + split; [done|]. split; [cbn; rewrite Hq; done|]. split.
      * eapply frame_trans; [apply (frame_cloned _ s c (bytes_filled d))|].
        eapply frame_trans; [apply frame_same, (set_pending_same ds)|apply frame_drop].
      * repeat split; try done. intros d' (data & Hl & Hd). exists data. split; [|done]. unfold live in *. cbn.
        rewrite lookup_app_l by (apply lookup_lt_Some in Hl; done). done.
  - assert (Hsh : shift_pending_pull_into s = Some (Ok d, set_pending ds s)).
    { rewrite (shift_eq d ds s) by done. rewrite (invalidate_id s) by done. done. }
    erewrite bind_ok by done. rewrite (bind_ok _ _ _ _ _ Hsh). exists (set_pending ds s). split; [done|]. split.
    + apply (drop_head d); try done; [|left; lia]. eapply core_same; [apply set_pending_same|exact HC].
    + split; [done|]. split; [cbn; rewrite Hq; cbn; lia|].
      split; [eapply frame_trans; [apply frame_same, (set_pending_same ds)|apply frame_drop]|]. repeat split; done.
Qed.

Lemma prepare_fine s :
  inv s -> state (strm s) = Readable ->
  exists r s', prepare_first_pending s = Some (r, s') ∧
    match r with Err _ => s' = s | Ok _ => prepared s s' end.
Proof.
  intros HI Hst. unfold prepare_first_pending. rewrite bind_gets. pose proof (i_core _ HI) as HC.
  destruct (pending s) as [|d ds] eqn:Hp.
  - eexists _, s. split; [done|]. split; rewrite ?Hp; try done; try set_solver; try apply HI.
    destruct (byob_request (ctrl s)) as [k|] eqn:Hk; [|done].
    destruct (k_request _ _ _ HC k Hk) as (v & d & V' & _ & Hv & _). done.
  - rewrite bind_gets. destruct (is_detached (d_buffer d) s) eqn:Hdt; [eexists _, s; done|].
    assert (Hlive : exists data, live (d_buffer d) data s).
    { unfold is_detached in Hdt. unfold live. destruct (buffers s !! d_buffer d) as [[data|]|]; [eauto|done..]. }
    destruct Hlive as [data Hl]. rewrite bind_modify. destruct (invalidate_core _ _ _ HC) as [HC0 Hn0].
    destruct (invalidate_view s) as (A1 & A2 & A3 & A4 & A5 & A6 & A7 & A8 & A9 & A10). cbn zeta in *.
    set (s0 := invalidate_byob_request s) in *.
    assert (Hl0 : live (d_buffer d) data s0) by (unfold live; rewrite A1; exact Hl).
    destruct (transfer_head d ds 0 s0 data HC0 Hn0 Hl0) as (HC1 & Hns & Hbk).
    rewrite (bind_ok _ _ _ _ _ (transfer_eq _ _ _ Hl0)), bind_modify.
    set (d1 := set_d_buffer (length (buffers s0)) d) in *. set (s1 := transferred (d_buffer d) data s0) in *.
    set (s2 := set_pending (d1 :: ds) s1).
    assert (HC2 : core (d1 :: ds) 0 s2) by (eapply core_same; [apply set_pending_same|exact HC1]).
    assert (HF2 : frame (d :: ds) (d1 :: ds) s s2).
    { eapply frame_trans; [apply (frame_view _ s s0); done|]. eapply frame_trans; [apply frame_transferred|].
      apply frame_same, set_pending_same. }
    assert (Hq : queue (ctrl s) = []) by (apply (i_excl _ HI); rewrite Hp; done).
    assert (Htail : forall b, b ∈ ds -> backed s2 b) by (intros b Hb; apply (k_tail _ _ _ HC2 d1 ds b eq_refl Hb)).
    assert (Hwt : forall b, b ∈ ds -> bytes_filled b < minimum_fill b) by (intros b Hb; apply (i_wait _ HI); rewrite Hp; set_solver).
    destruct (k_types _ _ _ HC2) as [Hnd Hrest].
    assert (Hall : Forall (fun d => d_type d = TByob) ds) by (eapply Forall_impl; [exact Hrest|naive_solver]).
    assert (Hsame : d_type d1 = d_type d) by done.
    destruct (d_type d1) eqn:Hty; [done| |].
    + eexists _, s2. split; [done|]. split; try done; cbn [pending_pull_intos ctrl s2 set_pending set_ctrl].
      * constructor; done.
      * intros b Hb. apply elem_of_cons in Hb as [->|Hb]; [exact Hbk|auto].
      * intros b Hb. apply elem_of_cons in Hb as [->|Hb]; [|auto]. apply (i_wait _ HI d). rewrite Hp. set_solver.
      * intros _. cbn. rewrite A6, Hq. cbn. lia.
      * rewrite Hp. exact HF2.
      * rewrite Hp. done.
    + destruct (enqueue_detached_core d1 ds s2) as (s3 & H3 & HC3 & P1 & P2 & P3 & P4 & P5 & P6 & P7); try done.
      { cbn. rewrite A6. done. }
      { cbn. rewrite A4. done. }
      eexists _, s3. split; [exact H3|]. split; rewrite ?P1; try done.
      * intros b Hb. apply P7. auto.
      * rewrite Hp. eapply frame_trans; done.
      * eapply steady_trans; [|exact P4]. split; [exact A4|]. split; [exact A9|exact A10].
      * rewrite P5. exact A3.
      * rewrite Hp. cbn. lia.
Qed.

(** The program gives the stream a buffer. *)
Definition untouched (b : nat) (s : st) : Prop :=
  forall d V' data, pending s = d :: V' -> d_buffer d = b -> live b data s -> bytes_filled d = 0 ∨ Tampered ∈ log s.

Lemma transfer_good b data s :
  inv s -> live b data s -> b ∈ shared s -> untouched b s ->
  good s (transferred b data s) ∧ isolated (pending s) (length (buffers s)) data (transferred b data s).
Proof.
  intros HI Hl Hs Hu. destruct (transfer_shared _ _ s b data (i_core _ HI) Hl Hs) as [HC Hiso]; [eauto|]. split; [|done].
  split; [|split].
  - destruct HI. split; done.
  - split; [|done|apply kinds_same; done]. split; [|done]. intros b' bd HIb. pose proof (isolated_lt _ _ _ _ HIb) as Hlt.
    destruct HIb as (I1 & I2 & I3 & I4). split; [|done]. unfold live in *. rewrite <- I1.
    apply (transferred_other b data s); [done|]. intros ->. done.
  - done.
Qed.

Lemma prepared_empty s0 s : prepared s0 s -> waiting ByobReader s = [] -> pending s = [].
Proof.
  intros [] Hw. pose proof (k_count _ _ _ p_core0) as Hc. rewrite byob_count_all, Hw in Hc by done. destruct (pending s); done.
Qed.

Lemma prepared_inv s0 s : prepared s0 s -> pending s = [] -> inv s.
Proof. intros [] Hp. split; try done. Qed.

(** What was accepted is at the end of the queue. *)
Lemma accept_frame V b o n data s : isolated V b data s ->
  forall b' data', b' <> b -> isolated V b' data' s -> isolated V b' data' (accept_to_queue b o n s).
Proof.
  intros _ b' data' Hne (I1 & I2 & I3 & I4). split; [done|]. split; [done|]. split; [|done].
  cbn. rewrite fmap_app, not_elem_of_app. split; [done|]. cbn. rewrite list_elem_of_singleton. done.
Qed.

(** From [s0], where the chunk's buffer was not known yet, to [s]. *)
Lemma accept_queue_good s0 s b o n data :
  inv s -> pending s = [] -> waiting DefaultReader s = [] -> isolated [] b data s -> 0 < n -> o + n <= length data ->
  length (buffers s0) <= b -> moves s0 s -> keeps s0 s -> good s0 (accept_to_queue b o n s).
Proof.
  intros HI Hp Hw Hiso Hn Ho Hb HM HK. pose proof (i_core _ HI) as HC. rewrite Hp in HC. split; [|split].
  - split; change (pending (accept_to_queue b o n s)) with (pending s); rewrite ?Hp; try done.
    + apply (accept_core [] 0 s b o n data); done.
    + set_solver.
  - destruct HM as [M1 M2 M3]. split; [|exact M2|exact M3]. change (pending (accept_to_queue b o n s)) with (pending s).
    split; [|etrans; [apply (proj2 M1)|]; cbn; apply prefix_app_r; done].
    intros b' bd HIb. pose proof (isolated_lt _ _ _ _ HIb) as Hlt. rewrite Hp. apply (accept_frame [] b o n data); [done|lia|].
    rewrite <- Hp. apply (proj1 M1). done.
  - exact HK.
Qed.

Lemma direct_core s p bs : core [] 0 s -> queue (ctrl s) = [] -> state (strm s) = Readable ->
  core [] 0 (push_log (Taken p bs) (push_log (Accepted bs) s)).
Proof.
  intros [] Hq Hst. split; try done; cbn.
  - rewrite !not_elem_of_app. intros [[Hn _] _]. specialize (k_fifo Hn). unfold fifo in *.
    change (is_readable (push_log _ (push_log _ s))) with (is_readable s).
    assert (Hr : is_readable s = true) by (unfold is_readable; rewrite Hst; done). rewrite Hr in *.
    cbn [log push_log]. rewrite !accepted_last, !taken_snoc, !app_nil_r.
    assert (H0 : queued s = []) by (unfold queued; rewrite Hq; done). rewrite H0 in k_fifo.
    change (queued (push_log _ (push_log _ s))) with (queued s). rewrite H0.
    change (filled [] s) with (@nil Z) in k_fifo. change (filled [] (push_log _ _)) with (@nil Z).
    rewrite !app_nil_r in *. congruence.
  - intros q bs' Hd. apply elem_of_app. left. apply elem_of_app. left. apply k_delivered.
    apply elem_of_app in Hd as [Hd|Hd]; [|set_solver]. apply elem_of_app in Hd as [Hd|Hd]; [done|set_solver].
Qed.

(** The chunk goes to a read that waits. *)
Lemma fulfill_default_good s0 s i rd p ps b o n data :
  inv s -> default_at i s -> readers s !! i = Some rd -> requests rd = p :: ps -> queue (ctrl s) = [] ->
  isolated [] b data s -> length (buffers s0) <= b -> moves s0 s -> keeps s0 s ->
  exists s', fulfill_request DefaultReader (Some i) (mkView U8Array b o n) false (push_log (Accepted (bytes_at b o n s)) s) = Some (Ok tt, s') ∧
    good s0 s' ∧ pulling (ctrl s') = pulling (ctrl s) ∧ reader (strm s') = reader (strm s).
Proof.
  intros HI (Hr & Hp & rd' & Hi' & Hk) Hi Hrq Hq Hiso Hb HM HK. assert (rd' = rd) as -> by congruence. clear Hi'.
  pose proof (i_core _ HI) as HC. rewrite Hp in HC.
  assert (Hw : waiting DefaultReader s = p :: ps) by (rewrite <- Hk, <- Hrq; apply (waiting_at i); done).
  assert (Hst : state (strm s) = Readable).
  { destruct (state (strm s)) eqn:Hs; [done|..]; (rewrite (k_done _ _ _ HC) in Hw by congruence; done). }
  assert (HC1 : core [] 0 (set_requests i rd ps s)) by (apply (core_requests [] 0 0); try done; rewrite Hk; done).
  set (bs := bytes_at b o n s). set (v := mkView U8Array b o n).
  pose proof (direct_core (set_requests i rd ps s) p bs HC1 Hq Hst) as HC2.
  set (s2 := push_log (Taken p bs) (push_log (Accepted bs) (set_requests i rd ps s))) in *.
  assert (HI2 : inv s2).
  { split; change (pending s2) with (pending s); rewrite ?Hp; try done; [set_solver|]. intros _. cbn. rewrite Hq. cbn. lia. }
  destruct (deliver_inv p v false s2 data HI2) as (HI3 & P1 & P2 & P3 & P4 & P5 & P6).
  { change (pending s2) with (pending s). rewrite Hp. exact Hiso. }
  { cbn. apply elem_of_app. right. apply list_elem_of_singleton. done. }
  exists (deliver p v false s2). split; [|split; [split; [done|split]|]].
  - unfold fulfill_request. rewrite (reader_at_some i rd) by done. rewrite Hk, Hrq. done.
  - destruct HM as [[M1 M1'] M2 M3]. split; rewrite ?P1, ?P3, ?P4.
    + change (pending s2) with (pending s). split.
      * intros b' bd HIb. pose proof (isolated_lt _ _ _ _ HIb) as Hlt. apply P6; [cbn; lia|]. apply M1. done.
      * etrans; [exact M1'|]. etrans; [|exact P5]. cbn. rewrite <- app_assoc. apply prefix_app_r. done.
    + exact M2.
    + unfold kinds. rewrite P4. eapply kinds_trans; [exact M3|]. apply (kinds_requests i rd ps); done.
  - destruct HK as [K1 K2]. split; [rewrite P2; exact K1|]. rewrite P1. exact K2.
  - rewrite P2, P3. done.
Qed.

Lemma serving_inv i s : serving i s -> (pending s = [] ∨ queue (ctrl s) = []) -> inv s.
Proof.
  intros [] He. split; [done| |done|].
  - intros Hp. destruct He; done.
  - intros Hw. exfalso. apply Hw. destruct w_kind0 as (rd & Hi & Hk). apply (waiting_other i rd); [done..|congruence].
Qed.

Lemma process_fine i s :
  serving i s -> exists s', process_pull_into_descriptors_using_queue (Some i) s = Some (Ok tt, s') ∧ inv s' ∧
    frame (pending s) (pending s') s s' ∧ steady s s' ∧ kinds s s' ∧ serving i s'.
Proof.
  intros HS. unfold process_pull_into_descriptors_using_queue. rewrite bind_gets.
  destruct (process_loop_serving i (2 + length (pending s)) s HS) as (s' & Hs' & HS' & He & HF & Hst & Hkd); [lia|right; right; done|].
  exists s'. split; [done|]. split; [eapply serving_inv; done|]. done.
Qed.

Section Enqueue.
Context (source : list event -> list call) (ok : call -> Prop) (run : call -> st -> option st).
Hypothesis Hsource : forall l, Forall ok (source l).
Abbreviation ready s := (ready_to_pull ok run s).

Lemma good_steady_pull s s' : good s s' -> ready s -> ready s'.
Proof. intros HG. apply ready_moves. apply (mv_pulling _ _ (proj1 (proj2 HG))). Qed.

Lemma isolated_moves V b data s s' : isolated V b data s -> V = pending s -> moves s s' -> isolated (pending s') b data s'.
Proof. intros HI -> HM. apply (proj1 (mv_frame _ _ HM)), HI. Qed.

Lemma prepared_moves s0 s : prepared s0 s -> moves s0 s.
Proof.
  intros []. split; [done| |apply kinds_same; done]. destruct p_steady0 as (_ & -> & _). done.
Qed.

Lemma prepared_keeps s0 s : prepared s0 s -> keeps s0 s.
Proof. intros []. destruct p_steady0 as (E & _). split; [rewrite E; done|]. done. Qed.

(** A default reader gets the chunk, or the queue. *)
Lemma enqueue_default_fine s0 s i b o n data :
  ready s -> inv s -> default_at i s -> isolated [] b data s -> 0 < n -> o + n <= length data ->
  length (buffers s0) <= b -> inv s0 -> moves s0 s -> keeps s0 s ->
  exists s', enqueue_with_default_reader source run (Some i) b o n s = Some (Ok tt, s') ∧ good s0 s' ∧ ready s'.
Proof.
  intros Hrun HI HD Hiso Hn Ho Hb HI0 HM HK. unfold enqueue_with_default_reader.
  destruct (read_loop_fine source ok run Hsource i (2 + length (queue (ctrl s))) s Hrun HI HD) as (s1 & H1 & HG1 & Hsv).
  { destruct (queue (ctrl s)) eqn:Hq; [left; split; [right; done|cbn; lia]|right; right; cbn; lia]. }
  assert (HM1 : moves s0 s1) by (eapply moves_trans; [exact HM|apply HG1]).
  assert (HK1 : keeps s0 s1) by (eapply keeps_trans; [exact HM|done|exact HK|apply HG1]).
  pose proof (default_at_good i s s1 HI HD HG1) as HD1. destruct HD as (_ & Hp & _). pose proof HD1 as (Hr1 & Hp1 & rd & Hi & Hk).
  assert (Hiso1 : isolated [] b data s1).
  { rewrite <- Hp1. eapply isolated_moves; [exact Hiso|done|apply HG1]. }
  assert (Hrun1 : ready s1) by (eapply good_steady_pull; done).
  assert (Hw : waiting DefaultReader s1 = requests rd) by (rewrite <- Hk; apply (waiting_at i); done).
  assert (H1' : process_read_requests_using_queue source run (Some i) s = Some (Ok tt, s1)) by exact H1.
  rewrite (bind_ok _ _ _ _ _ H1'), bind_gets. unfold num_requests. rewrite (reader_at_some i rd) by done.
  destruct (requests rd) as [|p ps] eqn:Hrq; cbn [length Nat.eqb].
  - eexists. split; [done|]. split; [|exact Hrun1].
    eapply accept_queue_good; [apply HG1|done..].
  - rewrite bind_gets, Hp1. erewrite bind_ok by done. rewrite bind_modify.
    assert (Hq : queue (ctrl s1) = []) by (destruct Hsv as [Hsv|Hsv]; [congruence|done]).
    destruct (fulfill_default_good s0 s1 i rd p ps b o n data) as (s2 & H2 & HG2 & P1 & P2); try done; [apply HG1|].
    exists s2. split; [exact H2|]. split; [done|]. destruct Hrun1 as [Hp'|Hr']; [left; congruence|right; done].
Qed.

(** The descriptors of a BYOB reader are filled with the chunk. *)
Lemma enqueue_byob_fine s0 s1 s i rd b o n data :
  prepared s1 s -> state (strm s) = Readable -> reader (strm s) = Some i -> readers s !! i = Some rd -> r_kind rd = ByobReader ->
  isolated (pending s) b data s -> 0 < n -> o + n <= length data -> length (buffers s0) <= b -> inv s0 -> moves s0 s -> keeps s0 s ->
  exists s', (let* _ := modify (accept_to_queue b o n) in process_pull_into_descriptors_using_queue (Some i)) s = Some (Ok tt, s') ∧
    inv s' ∧ moves s0 s' ∧ keeps s0 s' ∧ pulling (ctrl s') = pulling (ctrl s).
Proof.
  intros [] Hst Hr Hi Hk Hiso Hn Ho Hb HI0 HM [HK1 HK2]. rewrite bind_modify. set (s2 := accept_to_queue b o n s).
  assert (HS : serving i s2).
  { split; try done; change (pending s2) with (pending s); try done; [|exists rd; done].
    apply (accept_core _ 0 s b o n data); done. }
  destruct (process_fine i s2 HS) as (s' & Hs' & HI' & HF & (E1 & E2 & E3) & Hkd & HS').
  exists s'. split; [done|]. split; [done|]. split; [|split; [split|]].
  - destruct HM as [[M1 M1'] M2 M3]. split.
    + split.
      * intros b' bd HIb. pose proof (isolated_lt _ _ _ _ HIb) as Hlt. apply (proj1 HF).
        apply (accept_frame _ b o n data); [done|lia|]. apply M1. done.
      * etrans; [exact M1'|]. etrans; [|apply (proj2 HF)]. cbn. apply prefix_app_r. done.
    + rewrite E2. exact M2.
    + eapply kinds_trans; [exact M3|]. exact Hkd.
  - rewrite E1. exact HK1.
  - intros Hnb. exfalso. apply Hnb. assert (Hr0 : reader (strm s0) = Some i) by congruence.
    destruct (k_cur _ _ _ (i_core _ HI0) i Hr0) as (rd0 & Hi0 & _). exists i, rd0. split; [done|]. split; [done|].
    destruct (mv_kinds _ _ HM i rd0 Hi0) as (rd' & Hi' & Hk'). congruence.
  - exact E2.
Qed.
(** A view that the program can enqueue or read into. *)
Definition given (v : view) (s : st) : Prop :=
  v_buffer v ∈ shared s ∧ untouched (v_buffer v) s ∧
  (forall data, live (v_buffer v) data s -> v_offset v + v_length v <= length data).

(** The chunk is placed, and then the stream may pull. *)
Definition place (r : option nat) (b o n : nat) : M unit :=
  let* held := gets (reader_at r) in
  match held with
  | Some (_, rd) =>
      match r_kind rd with
      | DefaultReader => enqueue_with_default_reader source run r b o n
      | ByobReader => let* _ := modify (accept_to_queue b o n) in process_pull_into_descriptors_using_queue r
      end
  | None => modify (accept_to_queue b o n)
  end.

Lemma place_fine s0 s1 s b o n data :
  prepared s1 s -> state (strm s) = Readable -> isolated (pending s) b data s -> 0 < n -> o + n <= length data ->
  length (buffers s0) <= b -> inv s0 -> moves s0 s -> keeps s0 s -> ready s ->
  exists s', place (reader (strm s)) b o n s = Some (Ok tt, s') ∧ good s0 s' ∧ ready s'.
Proof.
  intros HP Hst Hiso Hn Ho Hb HI0 HM HK Hrun. unfold place. rewrite bind_gets.
  destruct (reader_at (reader (strm s)) s) as [[i rd]|] eqn:Hr.
  - apply reader_at_lookup in Hr as [Hr Hi]. rewrite Hr. destruct (r_kind rd) eqn:Hk.
    + assert (Hp : pending s = []) by (eapply prepared_empty; [done|]; apply (waiting_other i rd); [done..|congruence]).
      rewrite Hp in Hiso. eapply enqueue_default_fine; try done.
      * eapply prepared_inv; done.
      * split; [done|]. split; [done|]. exists rd. done.
    + destruct (enqueue_byob_fine s0 s1 s i rd b o n data) as (s' & Hs' & HI' & HM' & HK' & Hpl); try done.
      exists s'. split; [done|]. split; [done|]. destruct Hrun as [Hp|?]; [left; congruence|right; done].
  - assert (Hw : forall k, waiting k s = []) by (intros k; unfold waiting, current; rewrite Hr; done).
    assert (Hp : pending s = []) by (eapply prepared_empty; done).
    eexists. split; [done|]. split; [|exact Hrun].
    rewrite Hp in Hiso. eapply accept_queue_good; try done. eapply prepared_inv; done.
Qed.

(** A chunk of a new buffer that nothing else can reach. *)
Definition enqueue_own (r : option nat) (b o n : nat) : M unit :=
  let* _ := prepare_first_pending in
  let* held := gets (reader_at r) in
  let* _ :=
    match held with
    | Some (_, rd) =>
        match r_kind rd with
        | DefaultReader => enqueue_with_default_reader source run r b o n
        | ByobReader => let* _ := modify (accept_to_queue b o n) in process_pull_into_descriptors_using_queue r
        end
    | None => modify (accept_to_queue b o n)
    end in
  call_pull_if_needed source run r.

Lemma enqueue_own_fine s s1 b o n data :
  ready s -> inv s -> good s s1 -> state (strm s1) = Readable -> strm s1 = strm s -> pulling (ctrl s1) = pulling (ctrl s) ->
  isolated (pending s1) b data s1 -> length (buffers s) <= b -> 0 < n -> o + n <= length data ->
  fine s (enqueue_own (reader (strm s)) b o n s1).
Proof.
  intros Hrun HI HG1 Hst Hs1 Hpl Hiso Hb Hn Ho. unfold enqueue_own.
  destruct (prepare_fine s1 (proj1 HG1) Hst) as (r & s2 & H2 & HP).
  destruct r as [[]|e]; cbn in HP.
  2: { subst s2. eexists _, s1. split; [unfold bind at 1; rewrite H2; done|done]. }
  rewrite (bind_ok _ _ _ _ _ H2).
  assert (Hst2 : strm s2 = strm s) by (destruct (p_steady _ _ HP) as (-> & _); done).
  destruct (place_fine s s1 s2 b o n data) as (s3 & H3 & HG3 & Hrun3); try done.
  - rewrite Hst2, <- Hs1. done.
  - apply (proj1 (p_frame _ _ HP)). exact Hiso.
  - eapply moves_trans; [apply HG1|apply prepared_moves; done].
  - eapply keeps_trans; [apply HG1|done|apply HG1|apply prepared_keeps; done].
  - eapply ready_moves; [|exact Hrun]. destruct (p_steady _ _ HP) as (_ & -> & _). congruence.
  - rewrite Hst2 in H3. unfold place in H3. rewrite bind_gets in H3. rewrite bind_gets.
    rewrite (bind_ok _ _ _ _ _ H3).
    destruct (call_pull_fine source ok run Hsource (reader (strm s)) s3 Hrun3 (proj1 HG3)) as (s4 & H4 & HG4 & _).
    eexists _, s4. split; [exact H4|]. eapply good_trans; done.
Qed.

Lemma enqueue_impl_fine v s :
  ready s -> inv s -> given v s -> 0 < v_length v -> fine s (controller_enqueue_impl source run (reader (strm s)) v false s).
Proof.
  intros Hrun HI (Hs & Hu & Hrange) Hlen. unfold controller_enqueue_impl.
  destruct (close_requested (ctrl s)); cbn [orb]; [eexists _, s; split; [done|apply good_refl; done]|].
  destruct (is_readable s) eqn:Hr; cbn [negb]; [|eexists _, s; split; [done|apply good_refl; done]].
  pose proof (readable_state s Hr) as Hst.
  assert (Hdet : is_detached (v_buffer v) s = true ∨ exists data, live (v_buffer v) data s).
  { unfold is_detached, live. destruct (buffers s !! v_buffer v) as [[data|]|]; eauto. }
  unfold get_array_buffer at 1. unfold bind at 1. destruct Hdet as [Hdet|[data Hl]].
  { rewrite Hdet. rewrite bind_gets, Hdet. eexists _, s. split; [done|apply good_refl; done]. }
  assert (Hnd : is_detached (v_buffer v) s = false) by (unfold is_detached; rewrite Hl; done).
  rewrite Hnd, bind_gets, Hnd. rewrite (bind_ok _ _ _ _ _ (transfer_eq _ _ _ Hl)).
  destruct (transfer_good (v_buffer v) data s HI Hl Hs Hu) as [HG1 Hiso].
  apply (enqueue_own_fine s (transferred (v_buffer v) data s) _ _ _ data); try done. apply Hrange. done.
Qed.

(** A buffer that was made for the chunk is not transferred. *)
Lemma enqueue_borrowed_fine s s1 b data :
  ready s -> inv s -> good s s1 -> strm s1 = strm s -> pulling (ctrl s1) = pulling (ctrl s) ->
  isolated (pending s1) b data s1 -> length (buffers s) <= b -> fine s (enqueue_bytes_inner source run b true s1).
Proof.
  intros Hrun HI HG Hs1 Hpl Hiso Hb. assert (Hl : live b data s1) by apply Hiso. unfold enqueue_bytes_inner.
  assert (Hlen : buffer_len b s1 = length data) by (unfold buffer_len; rewrite Hl; done). rewrite Hlen.
  destruct (Nat.eqb_spec (length data) 0) as [H0|H0]; [eexists _, s1; done|]. unfold controller_enqueue_impl.
  destruct (close_requested (ctrl s1)); cbn [orb]; [eexists _, s1; done|].
  destruct (is_readable s1) eqn:Hr; cbn [negb]; [|eexists _, s1; done].
  assert (Hnd : is_detached b s1 = false) by (unfold is_detached; rewrite Hl; done).
  unfold get_array_buffer at 1. unfold bind at 1. cbn [v_buffer v_length v_offset]. rewrite Hnd, bind_gets, Hnd.
  unfold bind at 1. cbn [ret]. rewrite Hs1.
  apply (enqueue_own_fine s s1 _ _ _ data); try done; [apply readable_state; done|lia].
Qed.

Lemma enqueue_fine v s : ready s -> inv s -> given v s -> fine s (enqueue source run v s).
Proof.
  intros Hrun HI HV. unfold enqueue. unfold get_array_buffer at 1. unfold bind at 1.
  destruct (is_detached (v_buffer v) s) eqn:Hdet; rewrite bind_gets.
  { eexists _, s. split; [done|apply good_refl; done]. }
  destruct (Nat.eqb_spec (v_length v) 0) as [H0|H0]; [eexists _, s; split; [done|apply good_refl; done]|].
  destruct (buffer_len (v_buffer v) s =? 0); [eexists _, s; split; [done|apply good_refl; done]|].
  destruct (close_requested (ctrl s)); [eexists _, s; split; [done|apply good_refl; done]|].
  destruct (is_readable s); cbn [negb]; [|eexists _, s; split; [done|apply good_refl; done]].
  apply enqueue_impl_fine; [done..|lia].
Qed.

Lemma enqueue_bytes_fine b s :
  ready s -> inv s -> b ∈ shared s -> untouched b s -> fine s (enqueue_bytes_inner source run b false s).
Proof.
  intros Hrun HI Hs Hu. unfold enqueue_bytes_inner. destruct (Nat.eqb_spec (buffer_len b s) 0) as [H0|H0].
  - eexists _, s. split; [done|apply good_refl; done].
  - apply enqueue_impl_fine; [done..| |cbn; lia]. split; [done|]. split; [done|].
    intros data Hl. cbn. unfold buffer_len. cbn in Hl. rewrite Hl. lia.
Qed.
End Enqueue.
