(* ===== verification/ByteReads.v ===== *)
(** * Reads and responses of a readable byte stream

    The operations of the readers and of the BYOB requests keep the invariant
    of [ByteInvariant] and never panic. *)
From Stdlib Require Import ZArith Lia SpecFloat.
From stdpp Require Import base list numbers strings sets.
From S2P Require Import Prelude F64 ByteStream ByteCore ByteInvariant.

(** ** A read into a view *)

(** The stream's reader is the BYOB reader [i]. *)
Definition byob_at (i : nat) (s : st) : Prop :=
  reader (strm s) = Some i ∧ exists rd, readers s !! i = Some rd ∧ r_kind rd = ByobReader.

Lemma byob_at_locked i s : byob_at i s -> byob_locked s.
Proof. intros (Hr & rd & Hi & Hk). exists i, rd. done. Qed.

Lemma byob_at_moves i s s' : byob_at i s -> kinds s s' -> reader (strm s') = reader (strm s) -> byob_at i s'.
Proof.
  intros (Hr & rd & Hi & Hk) HK Hs. split; [congruence|]. destruct (HK i rd Hi) as (rd' & Hi' & Hk'). exists rd'.
  split; [done|congruence].
Qed.

Lemma byob_at_good i s s' : byob_at i s -> good s s' -> byob_at i s'.
Proof. intros H (_ & HM & HK). eapply byob_at_moves; [exact H|apply (mv_kinds _ _ HM)|apply HK]. Qed.

Lemma byob_count_app V d : d_type d = TByob -> byob_count (V ++ [d]) = S (byob_count V).
Proof. intros H. unfold byob_count. rewrite filter_app, length_app. rewrite filter_cons_True by done. cbn. lia. Qed.

Lemma filled_app V d s : bytes_filled d = 0 -> filled (V ++ [d]) s = filled V s.
Proof.
  intros H. unfold filled. rewrite bind_app. cbn. unfold filled_bytes. rewrite H. unfold bytes_at.
  destruct (buffers s !! d_buffer d) as [[data|]|]; rewrite ?slice_0, ?app_nil_r; done.
Qed.

(** An empty descriptor over an isolated buffer is added. *)
Lemma add_desc_core V x s d data :
  core V x s -> isolated V (d_buffer d) data s -> length data = buffer_byte_length d -> desc_ok d -> d_type d = TByob ->
  bytes_filled d = 0 -> (forall e, state (strm s) <> Errored e) -> core (V ++ [d]) (S x) s.
Proof.
  intros [] (I1 & I2 & I3 & I4) Hlen Hok Hty H0 Hst. assert (Hbk : backed s d) by (exists data; done). split; try done.
  - rewrite fmap_app, app_assoc. apply NoDup_app. split; [done|]. split; [|apply NoDup_singleton].
    intros b Hb Hd. cbn in Hd. apply list_elem_of_singleton in Hd as ->. apply elem_of_app in Hb as [Hb|Hb]; done.
  - intros d' Hd. apply elem_of_app in Hd as [Hd|Hd]; [auto|]. apply list_elem_of_singleton in Hd as ->. done.
  - intros d' V' HV. destruct V as [|d0 V0]; [|injection HV as <- <-; eauto]. injection HV as <- <-. left. done.
  - intros d0 V' d' HV Hd. destruct V as [|d1 V1]; [injection HV as <- <-; set_solver|]. injection HV as <- <-.
    apply elem_of_app in Hd as [Hd|Hd]; [eauto|]. apply list_elem_of_singleton in Hd as ->. done.
  - destruct V as [|d1 V1]; cbn; [rewrite Hty; split; [done|constructor]|]. destruct k_types as [T1 T2]. split; [done|].
    apply Forall_app. split; [done|]. constructor; done.
  - intros k Hk. destruct (k_request k Hk) as (v & d' & V' & R1 & -> & R3). exists v, d', (V' ++ [d]). done.
  - intros Hc d' V' HV. destruct V as [|d1 V1]; [|injection HV as <- <-; eauto]. injection HV as <- <-. rewrite H0. apply Nat.divide_0_r.
  - intros e He. destruct (Hst e). done.
  - rewrite byob_count_app by done. lia.
  - intros Ht. specialize (k_fifo Ht). unfold fifo in *. rewrite filled_app by done. done.
Qed.

Lemma frame_add V s d : (forall b data, isolated V b data s -> b <> d_buffer d) -> frame V (V ++ [d]) s s.
Proof.
  intros H. split; [|done]. intros b data HI. pose proof (H b data HI) as Hne. destruct HI as (I1 & I2 & I3 & I4).
  split; [done|]. split; [done|]. split; [done|]. rewrite fmap_app, not_elem_of_app. split; [done|]. cbn. set_solver.
Qed.

(** The read is added to the requests of the reader. *)
Lemma add_request_eq i rd p s : readers s !! i = Some rd -> add_request i p s = set_requests i rd (requests rd ++ [p]) s.
Proof. intros H. unfold add_request. rewrite H. done. Qed.

Lemma add_request_core V x i p s :
  core V (S x) s -> byob_at i s -> core V x (add_request i p s) ∧ kinds s (add_request i p s).
Proof.
  intros HC (Hr & rd & Hi & Hk). rewrite (add_request_eq i rd) by done. split; [|apply (kinds_requests i rd (requests rd ++ [p])); done].
  apply (core_requests V (S x) x); try done; [|congruence]. rewrite (k_count _ _ _ HC), Hk, length_app. cbn.
  rewrite <- Hk, (waiting_at i rd) by done. lia.
Qed.

Lemma not_waiting_default i s : byob_at i s -> waiting DefaultReader s = [].
Proof. intros (Hr & rd & Hi & Hk). apply (waiting_other i rd); [done..|congruence]. Qed.

(** The descriptor waits with its request. *)
Lemma push_desc_inv i p s d :
  core (pending s ++ [d]) 1 s -> byob_at i s -> queue (ctrl s) = [] ->
  (forall d', d' ∈ pending s ++ [d] -> bytes_filled d' < minimum_fill d') ->
  let s' := add_request i p (set_pending (pending s ++ [d]) s) in
  inv s' ∧ pending s' = pending s ++ [d] ∧ frame (pending s ++ [d]) (pending s') s s' ∧ pulling (ctrl s') = pulling (ctrl s) ∧
  kinds s s' ∧ strm s' = strm s.
Proof.
  intros HC Hb Hq Hw s'. set (s1 := set_pending (pending s ++ [d]) s).
  assert (HC1 : core (pending s ++ [d]) 1 s1) by (eapply core_same; [apply set_pending_same|done]).
  assert (Hb1 : byob_at i s1) by exact Hb. destruct (add_request_core _ _ i p s1 HC1 Hb1) as [HC2 HK].
  pose proof Hb1 as (Hr & rd & Hi & Hk). subst s'. fold s1. rewrite (add_request_eq i rd) in * by done.
  split; [|split; [done|split; [apply frame_view; done|done]]].
  split; cbn; [exact HC2|done|exact Hw|]. intros Hn. exfalso. apply Hn.
  apply (waiting_set_other i rd (requests rd ++ [p]) DefaultReader s1); [done..|congruence].
Qed.

(** Nothing is taken. *)
Lemma taken_nil_core V x s p : core V x s -> core V x (push_log (Taken p []) s).
Proof.
  intros []. split; try done; cbn.
  - rewrite not_elem_of_app. intros [Ht _]. specialize (k_fifo Ht). unfold fifo in *. cbn [log push_log].
    rewrite accepted_last, taken_snoc, !app_nil_r. exact k_fifo.
  - intros q bs Hd. apply elem_of_app in Hd as [Hd|Hd]; [|set_solver]. apply elem_of_app. left. auto.
Qed.

(** A buffer that the stream owns is handed to the program. *)
Lemma deliver_good s0 s p v dn data :
  inv s -> isolated (pending s) (v_buffer v) data s -> Taken p (bytes_at (v_buffer v) (v_offset v) (v_length v) s) ∈ log s ->
  length (buffers s0) <= v_buffer v -> moves s0 s -> keeps s0 s -> good s0 (deliver p v dn s).
Proof.
  intros HI Hiso Ht Hb HM HK. destruct (deliver_inv p v dn s data HI Hiso Ht) as (HI3 & P1 & P2 & P3 & P4 & P5 & P6).
  split; [done|]. destruct HM as [[M1 M1'] M2 M3]. split.
  - split; rewrite ?P1, ?P3.
    + split; [|etrans; done]. intros b bd HIb. pose proof (isolated_lt _ _ _ _ HIb). apply P6; [lia|]. auto.
    + done.
    + eapply kinds_trans; [exact M3|apply kinds_same; exact P4].
  - split; [rewrite P2; apply HK|]. rewrite P1. apply HK.
Qed.

(** What [pull_into] knows of a view: it is given by the program, and the
    minimum is a positive number of elements that fits. *)
Definition fits (v : view) (min : nat) (s : st) : Prop :=
  given v s ∧ 0 < min ∧ min * element_size (v_kind v) <= v_length v ∧ (element_size (v_kind v) | v_length v)%nat.

Definition new_descriptor (b n : nat) (v : view) (min : nat) : descriptor :=
  mkDescriptor b n (v_offset v) (v_length v) 0 (min * element_size (v_kind v)) (v_kind v) TByob.

Lemma element_size_pos k : 0 < element_size k.
Proof. destruct k; cbn; lia. Qed.

Lemma new_descriptor_ok b v min s data :
  fits v min s -> live (v_buffer v) data s -> desc_ok (new_descriptor b (length data) v min) ∧ 0 < min * element_size (v_kind v).
Proof.
  intros ((Hs & Hu & Hr) & Hm & Hle & Hdv) Hl. pose proof (Hr data Hl) as Hr'. pose proof (element_size_pos (v_kind v)) as He.
  assert (Hpos : 0 < min * element_size (v_kind v)) by lia. split; [|done].
  unfold desc_ok, new_descriptor, d_element_size. cbn. repeat split; try lia; try done. apply Nat.divide_factor_r.
Qed.

Lemma convert_eq d s data :
  live (d_buffer d) data s -> (d_element_size d | bytes_filled d)%nat ->
  convert_pull_into_descriptor d s =
    Some (Ok (mkView (view_constructor d) (length (buffers s)) (d_offset d) (bytes_filled d)), transferred (d_buffer d) data s).
Proof.
  intros Hl Hal. unfold convert_pull_into_descriptor. rewrite (bind_ok _ _ _ _ _ (transfer_eq _ _ _ Hl)). unfold ret.
  do 3 f_equal. f_equal. destruct Hal as [k ->]. rewrite Nat.div_mul; [done|apply size_nonzero].
Qed.

(** Every buffer that is isolated is older than the store's end. *)
Lemma frame_older V V' s s' d :
  frame V V' s s' -> length (buffers s) <= d_buffer d -> frame V (V' ++ [d]) s s'.
Proof.
  intros [F1 F2] Hle. split; [|done]. intros b data HI. pose proof (isolated_lt _ _ _ _ HI) as Hlt.
  destruct (F1 b data HI) as (I1 & I2 & I3 & I4). split; [done|]. split; [done|]. split; [done|].
  rewrite fmap_app, not_elem_of_app. split; [done|]. cbn. rewrite list_elem_of_singleton. lia.
Qed.

Lemma frame_buffers V V' s : d_buffer <$> V' = d_buffer <$> V -> frame V V' s s.
Proof. intros H. split; [|done]. intros b data. unfold isolated. rewrite H. done. Qed.

Section Reads.
Context (source : list event -> list call) (ok : call -> Prop) (run : call -> st -> option st).
Hypothesis Hsource : forall l, Forall ok (source l).
Abbreviation ready s := (ready_to_pull ok run s).

(** *** A read into a view

    From [s0], where the BYOB reader [i] holds the stream, to a state in which
    the descriptors [V] are pending or in hand. *)
Record after (V : list descriptor) (s0 s : st) : Prop := After {
  a_frame : frame (pending s0) V s0 s;
  a_kinds : kinds s0 s;
  a_strm : strm s = strm s0;
  a_pulling : pulling (ctrl s) = pulling (ctrl s0);
}.

Section Into.
Context (s0 : st) (i p : nat).
Hypothesis (Hrun : ready s0) (HI0 : inv s0) (Hb0 : byob_at i s0).

Lemma after_byob V s : after V s0 s -> byob_at i s.
Proof. intros []. eapply byob_at_moves; [exact Hb0|done|rewrite a_strm0; done]. Qed.

Lemma after_ready V s : after V s0 s -> ready s.
Proof. intros []. eapply ready_moves; [|exact Hrun]. rewrite a_pulling0. done. Qed.

(** Nothing remains in hand. *)
Lemma after_good s' :
  inv s' -> frame (pending s0) (pending s') s0 s' -> kinds s0 s' -> reader (strm s') = reader (strm s0) ->
  (pulling (ctrl s0) = true -> pulling (ctrl s') = true) -> good s0 s'.
Proof.
  intros HI HF HK Hr Hp. split; [done|]. split; [done|]. split; [done|]. intros Hn. destruct Hn. eapply byob_at_locked; done.
Qed.

(** The new descriptor waits. *)
Lemma pull_into_waits s d :
  after (pending s ++ [d]) s0 s -> core (pending s ++ [d]) 1 s -> queue (ctrl s) = [] ->
  (forall d', d' ∈ pending s ++ [d] -> bytes_filled d' < minimum_fill d') ->
  good s0 (add_request i p (set_pending (pending s ++ [d]) s)).
Proof.
  intros HA HC Hq Hw. pose proof (after_byob _ _ HA) as Hb. destruct HA.
  destruct (push_desc_inv i p s d HC Hb Hq Hw) as (HI & P1 & P2 & P3 & P4 & P5). apply after_good.
  - done.
  - eapply frame_trans; done.
  - eapply kinds_trans; done.
  - rewrite P5, a_strm0. done.
  - rewrite P3, a_pulling0. done.
Qed.

(** The queue fills the new descriptor enough. *)
Lemma pull_into_ready s d :
  after [d] s0 s -> length (buffers s0) <= length (buffers s) -> core [d] 1 s -> pending s = [] -> byob_request (ctrl s) = None -> backed s d -> d_type d = TByob ->
  state (strm s) = Readable -> (d_element_size d | bytes_filled d)%nat ->
  exists s', (let* filled_view := convert_pull_into_descriptor d in
              let* _ := modify (fun s => push_log
                (Taken p (bytes_at (v_buffer filled_view) (v_offset filled_view) (v_length filled_view) s)) s) in
              let* _ := handle_queue_drain source run (Some i) in
              modify (deliver p filled_view false)) s = Some (Ok tt, s') ∧ good s0 s'.
Proof.
  intros HA Hsz HC Hp Hn (data & Hl & Hlen) Hty Hrd Hal. pose proof (after_byob _ _ HA) as Hb. pose proof (after_ready _ _ HA) as Hrs.
  destruct (transfer_head d [] 1 s data HC Hn Hl) as (HC1 & Hns & Hbk1).
  rewrite (bind_ok _ _ _ _ _ (convert_eq d s data Hl Hal)). set (nb := length (buffers s)) in *.
  set (s1 := transferred (d_buffer d) data s) in *. set (d1 := set_d_buffer nb d) in *.
  pose proof (take_head d1 [] 0 s1 p HC1 Hn Hty) as HC2. rewrite bind_modify. cbn [v_buffer v_offset v_length].
  change (bytes_at nb (d_offset d) (bytes_filled d) s1) with (filled_bytes d1 s1). set (s2 := push_log _ s1) in *.
  assert (Hiso : isolated [] nb data s2).
  { destruct (nodup_head d1 [] s1 (k_nodup _ _ _ HC1)) as (N1 & N2 & N3).
    split; [apply transferred_new|]. split; [exact Hns|]. split; [exact N1|exact N2]. }
  assert (Hp2 : pending s2 = []) by exact Hp.
  assert (HI2 : inv s2).
  { split; rewrite ?Hp2; try done; [set_solver|]. intros Hw. exfalso. apply Hw. apply (not_waiting_default i). exact Hb. }
  destruct (handle_queue_drain_fine source ok run Hsource s2 Hrs HI2 Hp2 Hrd) as (s3 & H3 & HG3 & _).
  change (reader (strm s2)) with (reader (strm s)) in H3. rewrite (proj1 Hb) in H3. rewrite (bind_ok _ _ _ _ _ H3).
  assert (Hiso3 : isolated (pending s3) nb data s3) by (eapply (isolated_moves []); [exact Hiso|done|apply HG3]).
  destruct HA. eexists. split; [done|]. apply (deliver_good s0 s3 p _ false data); cbn [v_buffer v_offset v_length].
  - apply HG3.
  - done.
  - rewrite (bytes_isolated _ _ _ _ _ _ _ _ Hiso Hiso3). destruct HG3 as (_ & HM3 & _). destruct (proj2 (mv_frame _ _ HM3)) as [l ->].
    apply elem_of_app. left. cbn. apply elem_of_app. right. apply list_elem_of_singleton. done.
  - done.
  - eapply moves_trans; [|apply HG3]. split; [|cbn; rewrite a_pulling0; done|done].
    rewrite Hp2. eapply frame_trans; [exact a_frame0|]. eapply frame_trans; [apply (frame_transferred d [] s data)|].
    eapply frame_trans; [apply frame_drop|]. split; [done|]. cbn. apply prefix_app_r. done.
  - destruct HG3 as (_ & _ & HK3 & _). split; [rewrite HK3; cbn; rewrite a_strm0; done|].
    intros Hnl. destruct Hnl. eapply byob_at_locked; done.
Qed.

(** The bytes of the queue are too few for the minimum, and no more will come. *)
Lemma pull_into_errors s d e :
  after [d] s0 s -> core [d] 1 s -> state (strm s) = Readable -> good s0 (error_steps p e (controller_error (Some i) e s)).
Proof.
  intros HA HC Hrd. pose proof (after_byob _ _ HA) as Hb. unfold controller_error, is_readable. rewrite Hrd. cbn [negb].
  rewrite <- (proj1 Hb). destruct (error_rest e s) as [P ->]. destruct HA.
  destruct (wiped_inv _ _ (Errored e) s HC ltac:(done)) as (W1 & W2 & W3 & W4 & W5).
  assert (HG : good s0 (wiped (Errored e) s)).
  { apply after_good; [done|eapply frame_trans; done|eapply kinds_trans; done|rewrite W5, a_strm0; done|rewrite W4, a_pulling0; done]. }
  eapply good_trans; [done|exact HG|]. eapply good_trans; [done|apply good_promises; done|]. apply good_settle.
  apply (good_promises P). done.
Qed.

Lemma no_byob_request s : inv s -> pending s = [] -> byob_request (ctrl s) = None.
Proof.
  intros HI Hp. destruct (byob_request (ctrl s)) as [k|] eqn:Hk; [|done].
  destruct (k_request _ _ _ (i_core _ HI) k Hk) as (v & d & V' & _ & Hv & _). congruence.
Qed.

Lemma wait_and_pull s d :
  after [d] s0 s -> core [d] 1 s -> pending s = [] -> queue (ctrl s) = [] -> bytes_filled d < minimum_fill d ->
  exists s', (let* _ := modify (fun s => add_request i p (set_pending (pending_pull_intos (ctrl s) ++ [d]) s)) in
    call_pull_if_needed source run (Some i)) s = Some (Ok tt, s') ∧ good s0 s'.
Proof.
  intros HA HC Hp Hq Hw. rewrite bind_modify.
  assert (HG : good s0 (add_request i p (set_pending (pending s ++ [d]) s))).
  { apply pull_into_waits; rewrite ?Hp; try done. intros d' Hd'. apply list_elem_of_singleton in Hd' as ->. done. }
  destruct (call_pull_fine source ok run Hsource (Some i) _ (good_steady_pull ok run _ _ HG Hrun) (proj1 HG)) as (s' & Hs' & HG' & _).
  exists s'. split; [done|]. eapply good_trans; done.
Qed.

(** What [pull_into] does when no descriptor waits. *)
Definition pull_into_first (d : descriptor) : M unit :=
  let* total := gets (fun s => queue_total_size (ctrl s)) in
  let* (ready, d) := if 0 <? total then fill_pull_into_descriptor_from_queue d else ret (false, d) in
  let* closing := gets (fun s => close_requested (ctrl s)) in
  if ready then
    let* filled_view := convert_pull_into_descriptor d in
    let* _ := modify (fun s => push_log
      (Taken p (bytes_at (v_buffer filled_view) (v_offset filled_view) (v_length filled_view) s)) s) in
    let* _ := handle_queue_drain source run (Some i) in
    modify (deliver p filled_view false)
  else if (0 <? total) && closing then
    modify (fun s => error_steps p insufficient_bytes (controller_error (Some i) insufficient_bytes s))
  else
    let* _ := modify (fun s => add_request i p (set_pending (pending_pull_intos (ctrl s) ++ [d]) s)) in
    call_pull_if_needed source run (Some i).

Lemma pull_into_first_fine s d :
  after [d] s0 s -> length (buffers s0) <= length (buffers s) -> core [d] 1 s -> pending s = [] -> byob_request (ctrl s) = None -> backed s d ->
  d_type d = TByob -> bytes_filled d < minimum_fill d -> state (strm s) = Readable -> fine s0 (pull_into_first d s).
Proof.
  intros HA Hsz HC Hp Hn Hbk Hty Hw Hrd. unfold pull_into_first. rewrite bind_gets.
  destruct (Nat.ltb_spec 0 (queue_total_size (ctrl s))) as [Ht|Ht].
  - destruct (fill_core d [] 1 s HC Hrd Hbk Hw) as (n & rdy & s1 & H1 & HC1 & Hdr & Hbk1 & Hrdy).
    rewrite (bind_ok _ _ _ _ _ H1), bind_gets. set (d1 := set_filled (bytes_filled d + n) d) in *.
    pose proof (drained_total _ _ _ _ Hdr) as Htot.
    assert (HF1 : frame [d] [d1] s s1) by (apply (drained_frame d d1 n); done).
    destruct Hdr as (B & q & Hs1 & Hlen & _).
    assert (HA1 : after [d1] s0 s1).
    { destruct HA. split; [eapply frame_trans; done|..]; rewrite Hs1; done. }
    assert (Hp1 : pending s1 = []) by (rewrite Hs1; exact Hp). assert (Hrd1 : state (strm s1) = Readable) by (rewrite Hs1; exact Hrd).
    assert (Hn1 : byob_request (ctrl s1) = None) by (rewrite Hs1; exact Hn).
    destruct rdy; [|cbn [andb]; destruct (close_requested (ctrl s1))].
    + destruct (pull_into_ready s1 d1) as (s' & Hs' & HG); try done; [rewrite Hs1; cbn; lia|apply Hrdy|]. eexists _, s'. done.
    + eexists _, _. split; [done|]. apply (pull_into_errors s1 d1); done.
    + destruct Hrdy as [Hr1 Hr2].
      destruct (wait_and_pull s1 d1) as (s' & Hs' & HG); try done; [eapply queue_nil; [exact HC1|lia]|]. eexists _, s'. done.
  - unfold bind at 1. cbn [ret]. rewrite bind_gets. cbn [andb].
    destruct (wait_and_pull s d) as (s' & Hs' & HG); try done; [eapply queue_nil; [exact HC|lia]|]. eexists _, s'. done.
Qed.

Lemma pull_into_fine v min :
  fits v min s0 -> (forall e, state (strm s0) <> Errored e) -> fine s0 (controller_pull_into source run i v min p s0).
Proof.
  intros HV Hne. unfold controller_pull_into. unfold get_array_buffer at 1. unfold bind at 1. pose proof HV as ((Hs & Hu & Hrg) & _).
  destruct (is_detached (v_buffer v) s0) eqn:Hdet.
  { rewrite bind_gets, Hdet. eexists _, _. split; [done|]. apply good_settle. done. }
  rewrite bind_gets, Hdet. assert (Hl : exists data, live (v_buffer v) data s0).
  { unfold is_detached, live in *. destruct (buffers s0 !! v_buffer v) as [[data|]|]; eauto; done. }
  destruct Hl as [data Hl]. rewrite (bind_ok _ _ _ _ _ (transfer_eq _ _ _ Hl)), !bind_gets.
  destruct (transfer_good (v_buffer v) data s0 HI0 Hl Hs Hu) as [HG Hiso]. set (nb := length (buffers s0)) in *.
  set (s := transferred (v_buffer v) data s0) in *.
  assert (Hbl : buffer_len nb s = length data) by (unfold buffer_len; rewrite (proj1 Hiso); done). rewrite Hbl.
  destruct (new_descriptor_ok nb v min s0 data HV Hl) as [Hok Hpos]. fold (new_descriptor nb (length data) v min).
  set (d := new_descriptor nb (length data) v min) in *.
  assert (HC : core (pending s ++ [d]) 1 s) by (apply (add_desc_core _ 0 s d data); try done; apply HG).
  assert (HA : after (pending s ++ [d]) s0 s).
  { split; [apply frame_older; [apply HG|done]|apply HG|done|done]. }
  destruct (pending s) as [|d0 ds] eqn:Hp.
  - assert (Hp0 : pending s0 = []) by exact Hp. rewrite Hp0 in Hiso. rewrite bind_gets. destruct (is_closed s) eqn:Hcl.
    + eexists _, _. split; [done|]. eapply (deliver_good s0 _ p _ true data).
      * destruct (proj1 HG). split; try done. apply taken_nil_core. done.
      * change (isolated (pending s0) nb data s). rewrite Hp0. exact Hiso.
      * cbn. rewrite (bytes_at_live nb data) by apply Hiso. rewrite slice_0. apply elem_of_app. right. apply list_elem_of_singleton. done.
      * done.
      * eapply moves_trans; [apply HG|]. split; [|done|apply kinds_same; done]. split; [done|]. cbn. apply prefix_app_r. done.
      * apply HG.
    + assert (Hrd : state (strm s) = Readable).
      { unfold is_closed in Hcl. destruct (state (strm s)) eqn:Hs1; [done..|].
        exfalso. eapply Hne. change (strm s) with (strm s0) in Hs1. exact Hs1. }
      apply (pull_into_first_fine s d); try done.
      * cbn. rewrite length_app, length_insert. lia.
      * apply no_byob_request; [apply HG|done].
      * exists data. split; [apply Hiso|done].
  - eexists _, _. split; [done|]. rewrite <- Hp in *. apply pull_into_waits; try done.
    + apply (i_excl _ (proj1 HG)). rewrite Hp. done.
    + intros d' Hd'. apply elem_of_app in Hd' as [Hd'|Hd']; [apply (i_wait _ (proj1 HG)); done|].
      apply list_elem_of_singleton in Hd' as ->. exact Hpos.
Qed.
End Into.

(** *** The methods of the readers *)

Lemma good_disturbed s : inv s -> good s (set_disturbed true s).
Proof. intros HI. apply good_same; [done|repeat split|done|done]. Qed.

Lemma new_read_good s : inv s ->
  exists s', new_read s = Some (Ok (length (promises s)), s') ∧ good s s' ∧
    s' = push_log (ReadCall (length (promises s))) (set_promises (promises s ++ [(ForRead, Pending)]) s).
Proof.
  intros HI. eexists. split; [done|]. split; [|done].
  eapply good_trans; [done|apply good_promises; done|]. apply good_log; [|done]. apply good_promises. done.
Qed.

Lemma new_promise_fine k r s : inv s -> fine s (new_promise k r s).
Proof. intros HI. eexists _, _. split; [done|]. apply good_promises. done. Qed.

Lemma fine_bind {A B} (m : M A) (k : A -> M B) s s1 :
  good s s1 -> inv s -> fine s1 (m s1) -> (forall a s2, good s1 s2 -> fine s2 (k a s2)) -> fine s (bind m k s1).
Proof.
  intros HG HI (r & s2 & H2 & HG2) Hk. unfold bind. rewrite H2. pose proof (good_trans _ _ _ HI HG HG2) as HG02. destruct r as [a|e].
  - destruct (Hk a s2 HG2) as (r & s3 & H3 & HG3). exists r, s3. split; [done|]. eapply good_trans; done.
  - eexists _, s2. done.
Qed.

Lemma checks_min v n len det min :
  byob_read_checks v n len det min = None -> v_kind v <> F16Array -> v_length v = n -> 
  det = false ∧ 0 < min ∧ min * element_size (v_kind v) <= v_length v.
Proof.
  unfold byob_read_checks. intros H Hk <-. destruct (v_length v =? 0); [done|]. destruct (len =? 0); [done|].
  destruct det; [done|]. destruct (Nat.eqb_spec min 0); [done|]. split; [done|]. split; [lia|].
  unfold typed_array_len in H. pose proof (element_size_pos (v_kind v)) as He.
  assert (Hdiv : forall q, (q <? min) = false -> q = v_length v / element_size (v_kind v) -> min * element_size (v_kind v) <= v_length v).
  { intros q Hq ->. apply Nat.ltb_ge in Hq. etrans; [apply Nat.mul_le_mono_r; exact Hq|]. rewrite Nat.mul_comm. apply Nat.Div0.mul_div_le. }
  destruct (v_kind v) eqn:Hkd; try done;
    (match type of H with context [?q <? min] => destruct (q <? min) eqn:Hq; [done|] end);
    first [apply (Hdiv _ Hq); done | apply Nat.ltb_ge in Hq; cbn; lia].
Qed.

Lemma attached_at k i s :
  inv s -> attached_reader k i s = true -> exists rd, readers s !! i = Some rd ∧ reader (strm s) = Some i ∧ r_kind rd = k.
Proof.
  intros HI. unfold attached_reader. destruct (readers s !! i) as [rd|] eqn:Hi; [|done]. intros Ha. exists rd. split; [done|].
  destruct k, (r_kind rd); try done; (split; [eapply k_att; [apply HI|done..]|done]).
Qed.

(** The view stays given. *)
Lemma given_view v s s' :
  shared s' = shared s -> buffers s' = buffers s -> pending s' = pending s -> log s `prefix_of` log s' -> given v s -> given v s'.
Proof.
  intros Hs Hb Hp [l Hl] (H1 & H2 & H3). unfold given, untouched, live in *. rewrite Hs, Hb, Hp, Hl. split; [done|]. split; [|done].
  intros d V' data Hd Hbd Hlv. destruct (H2 d V' data Hd Hbd Hlv) as [H|H]; [left; done|right; apply elem_of_app; left; done].
Qed.

Lemma byob_read_fine i v min s :
  ready s -> inv s -> given v s -> (element_size (v_kind v) | v_length v)%nat -> v_kind v <> F16Array ->
  fine s (byob_read source run i v min s).
Proof.
  intros Hrun HI HV Hdv Hk. unfold byob_read. destruct (read_options min) as [m|e]; [|apply new_promise_fine; done].
  unfold get_array_buffer, bind at 1. cbn beta. destruct (is_detached (v_buffer v) s) eqn:Hdet; rewrite !bind_gets; rewrite ?Hdet.
  { apply new_promise_fine. done. }
  destruct (byob_read_checks v _ _ _ m) as [e|] eqn:Hck; [apply new_promise_fine; done|].
  destruct (checks_min v _ _ _ m Hck Hk eq_refl) as (_ & Hm1 & Hm2). rewrite bind_gets.
  destruct (attached_reader ByobReader i s) eqn:Hat; cbn [negb]; [|apply new_promise_fine; done].
  destruct (attached_at ByobReader i s HI Hat) as (rd & Hi & Hr & Hkd).
  destruct (new_read_good s HI) as (s1 & H1 & HG1 & Hs1). rewrite (bind_ok _ _ _ _ _ H1).
  set (p := length (promises s)) in *. assert (HI1 : inv s1) by apply HG1.
  apply (fine_bind _ _ s s1 HG1 HI); [|intros a s2 HG2; eexists _, _; split; [done|apply good_refl, HG2]].
  unfold byob_reader_read. pose proof (good_disturbed s1 HI1) as HG2. set (s2 := set_disturbed true s1) in *.
  assert (Hb2 : byob_at i s2) by (eapply byob_at_good; [|exact HG2]; eapply byob_at_good; [|exact HG1]; split; [done|exists rd; done]).
  assert (HV2 : fits v m s2).
  { split; [|done]. eapply given_view; [..|exact HV]; try (subst s2; rewrite Hs1; done).
    subst s2. rewrite Hs1. cbn. apply prefix_app_r. done. }
  assert (Hrun2 : ready s2) by (eapply good_steady_pull; [exact HG2|]; eapply good_steady_pull; [exact HG1|done]).
  destruct (state (strm s2)) as [| |e] eqn:Hst.
  3: { eexists _, _. split; [done|]. eapply good_trans; [done|exact HG2|]. apply good_settle, HG2. }
  all: destruct (pull_into_fine s2 i p Hrun2 (proj1 HG2) Hb2 v m HV2 ltac:(congruence)) as (r & s3 & H3 & HG3);
    exists r, s3; (split; [exact H3|]); eapply good_trans; done.
Qed.

(** A read of a default reader. *)
Lemma pull_steps_fine i p s :
  ready s -> inv s -> reader (strm s) = Some i -> (exists rd, readers s !! i = Some rd ∧ r_kind rd = DefaultReader) ->
  state (strm s) = Readable -> fine s (pull_steps source run i p s).
Proof.
  intros Hrun HI Hr (rd & Hi & Hk) Hst. unfold pull_steps. rewrite bind_gets.
  destruct (Nat.ltb_spec 0 (queue_total_size (ctrl s))) as [Ht|Ht].
  - assert (Hq : queue (ctrl s) <> []) by (intros Hq; pose proof (total_nil _ _ _ (i_core _ HI) Hq); lia).
    assert (Hp : pending s = []).
    { destruct (pending s) eqn:Hp; [done|]. exfalso. apply Hq. apply (i_excl _ HI). rewrite Hp. done. }
    pose proof (i_core _ HI) as HC. rewrite Hp in HC.
    destruct (fill_read_request_fine source ok run Hsource p s Hrun HC Hp Hst Hq) as (s' & Hs' & HG & _).
    { intros Hw. pose proof (i_single _ HI Hw). lia. }
    rewrite Hr in Hs'. eexists _, s'. done.
  - rewrite bind_gets, (k_auto _ _ _ (i_core _ HI)). unfold bind at 1. cbn [ret]. rewrite bind_modify, (add_request_eq i rd) by done.
    set (s1 := set_requests i rd (requests rd ++ [p]) s).
    assert (Hq : queue (ctrl s) = []) by (eapply queue_nil; [apply HI|lia]).
    assert (HG1 : good s s1).
    { split; [|split].
      - pose proof (i_core _ HI) as HC. split; try apply HI.
        + apply (core_requests (pending s) 0 0); try done. rewrite Hk, (k_count _ _ _ HC).
          rewrite (waiting_other i rd ByobReader s) by congruence. done.
        + intros _. cbn. rewrite Hq. cbn. lia.
      - split; [apply frame_view; done|done|]. apply (kinds_requests i rd (requests rd ++ [p])); done.
      - done. }
    destruct (call_pull_fine source ok run Hsource (Some i) s1 (good_steady_pull ok run _ _ HG1 Hrun) (proj1 HG1)) as (s2 & H2 & HG2 & _).
    eexists _, s2. split; [exact H2|]. eapply good_trans; done.
Qed.

Lemma read_fine i s : ready s -> inv s -> fine s (read source run i s).
Proof.
  intros Hrun HI. unfold read. rewrite bind_gets.
  destruct (attached_reader DefaultReader i s) eqn:Hat; cbn [negb]; [|apply new_promise_fine; done].
  destruct (attached_at DefaultReader i s HI Hat) as (rd & Hi & Hr & Hkd).
  destruct (new_read_good s HI) as (s1 & H1 & HG1 & Hs1). rewrite (bind_ok _ _ _ _ _ H1).
  set (p := length (promises s)) in *. assert (HI1 : inv s1) by apply HG1.
  apply (fine_bind _ _ s s1 HG1 HI); [|intros a s2 HG2; eexists _, _; split; [done|apply good_refl, HG2]].
  unfold default_reader_read. pose proof (good_disturbed s1 HI1) as HG2. set (s2 := set_disturbed true s1) in *.
  assert (Hrun2 : ready s2) by (eapply good_steady_pull; [exact HG2|]; eapply good_steady_pull; [exact HG1|done]).
  destruct (state (strm s2)) as [| |e] eqn:Hst.
  - destruct (pull_steps_fine i p s2 Hrun2 (proj1 HG2)) as (r & s3 & H3 & HG3); try done.
    + subst s2. rewrite Hs1. exact Hr.
    + exists rd. subst s2. rewrite Hs1. done.
    + exists r, s3. split; [exact H3|]. eapply good_trans; done.
  - eexists _, _. split; [done|]. eapply good_trans; [done|exact HG2|]. apply good_settle, HG2.
  - eexists _, _. split; [done|]. eapply good_trans; [done|exact HG2|]. apply good_settle, HG2.
Qed.

(** ** Responses to a BYOB request *)

(** The first descriptor has its buffer back, and there is no request. *)
Record opened (d : descriptor) (ds : list descriptor) (s0 s : st) : Prop := Opened {
  o_after : after (d :: ds) s0 s;
  o_core : core (d :: ds) 0 s;
  o_pending : pending s = d :: ds;
  o_queue : queue (ctrl s) = [];
  o_backed : backed s d;
  o_request : byob_request (ctrl s) = None;
  o_wait : forall d', d' ∈ d :: ds -> bytes_filled d' < minimum_fill d';
  o_count : length (pending s0) = S (length ds);
}.

Lemma after_more V V' s0 s s' :
  after V s0 s -> frame V V' s s' -> kinds s s' -> steady s s' -> after V' s0 s'.
Proof.
  intros [] HF HK (S1 & S2 & S3). split; [eapply frame_trans; done|eapply kinds_trans; done|congruence|congruence].
Qed.

Lemma after_done s0 s :
  inv s0 -> inv s -> after (pending s) s0 s -> (byob_locked s0 ∨ length (pending s) <= length (pending s0)) -> good s0 s.
Proof.
  intros HI0 HI [] Hl. split; [done|]. split; [split; [done|rewrite a_pulling0; done|done]|]. split; [rewrite a_strm0; done|].
  intros Hn. destruct Hl; done.
Qed.

(** A pending descriptor of a reader means that the reader is there. *)
Lemma byob_waits V s : core V 0 s -> byob_count V <> 0 -> exists i rd p ps,
  reader (strm s) = Some i ∧ readers s !! i = Some rd ∧ r_kind rd = ByobReader ∧ requests rd = p :: ps.
Proof.
  intros HC Hc. rewrite (k_count _ _ _ HC) in Hc. cbn in Hc. unfold waiting, current in Hc.
  destruct (reader_at (reader (strm s)) s) as [[i rd]|] eqn:Hr; [|done]. apply reader_at_lookup in Hr as [Hr Hi].
  destruct (r_kind rd) eqn:Hk; [done|]. cbn in Hc. destruct (requests rd) as [|p ps] eqn:Hq; [done|]. eauto 10.
Qed.

Lemma after_locked V s0 s : inv s0 -> after V s0 s -> byob_locked s -> byob_locked s0.
Proof.
  intros HI [] (i & rd & Hr & Hi & Hk). rewrite a_strm0 in Hr. destruct (k_cur _ _ _ (i_core _ HI) i Hr) as (rd0 & Hi0 & _).
  destruct (a_kinds0 i rd0 Hi0) as (rd' & Hi' & Hk'). exists i, rd0. split; [done|]. split; [done|congruence].
Qed.

(** The bytes that the source wrote are accepted. *)
Lemma accept_head d V x s n :
  core (d :: V) x s -> state (strm s) = Readable -> queue (ctrl s) = [] -> backed s d -> bytes_filled d + n <= d_length d ->
  core (set_filled (bytes_filled d + n) d :: V) x
    (push_log (Accepted (bytes_at (d_buffer d) (d_offset d + bytes_filled d) n s)) s).
Proof.
  intros [] Hst Hq (data & Hl & Hlen) Hn. split; try done.
  - intros d' Hd'. apply elem_of_cons in Hd' as [->|Hd']; [|apply k_desc; set_solver].
    destruct (k_desc d) as (D1 & D2 & D3 & D4); [set_solver|]. split; [exact Hn|]. done.
  - intros d' V' [= <- <-]. exact (k_head d V eq_refl).
  - intros d0 V' d' [= <- <-]. exact (k_tail d V d' eq_refl).
  - intros k Hk. destruct (k_request k Hk) as (v & d' & V' & H1 & [= <- <-] & H3). eexists v, _, V. done.
  - cbn. congruence.
  - cbn. congruence.
  - rewrite byob_count_cons in *. exact k_count.
  - cbn. rewrite not_elem_of_app. intros [Ht _]. specialize (k_fifo Ht). unfold fifo in *.
    change (is_readable (push_log _ s)) with (is_readable s).
    assert (Hr : is_readable s = true) by (unfold is_readable; rewrite Hst; done). rewrite Hr in *.
    cbn [log push_log]. rewrite accepted_last, taken_snoc, app_nil_r, <- k_fifo. change (queued (push_log _ s)) with (queued s).
    assert (Hqd : queued s = []) by (unfold queued; rewrite Hq; done). rewrite Hqd.
    change (filled ?V' (push_log _ s)) with (filled V' s). rewrite !filled_cons, (filled_tail d V s k_types), !app_nil_r, <- app_assoc.
    f_equal. unfold filled_bytes. cbn [d_buffer d_offset bytes_filled set_filled]. rewrite !(bytes_at_live _ data) by done. apply slice_app.
  - intros p bs Hd. cbn in *. apply elem_of_app in Hd as [Hd|Hd]; [|set_solver]. apply elem_of_app. left. auto.
Qed.

Lemma usize_add_small a b : (0 <= b)%Z -> usize_wraps a b = false -> usize_add a b = a + Z.to_nat b.
Proof. unfold usize_wraps, usize_add, wrap. intros Hb Hw. apply Z.leb_gt in Hw. rewrite Z.mod_small by lia. lia. Qed.

(** The count of a response: the bytes are accepted, or it wraps around. *)
Lemma respond_head d V x s n :
  core (d :: V) x s -> state (strm s) = Readable -> queue (ctrl s) = [] -> backed s d -> (0 <= n)%Z ->
  usize_add (bytes_filled d) n <= d_length d -> core (fill_head_with n d :: V) x (note_response n d s).
Proof.
  intros HC Hst Hq Hbk H0 Hn. unfold fill_head_with, note_response. destruct (usize_wraps (bytes_filled d) n) eqn:Hw.
  - apply core_refill; [apply core_suspend; done|cbn; set_solver|done|done].
  - rewrite (usize_add_small _ _ H0 Hw) in *. apply accept_head; done.
Qed.

(** *** A closed stream *)

(** Every request is answered with what its descriptor holds. *)
Lemma closed_loop_core i : forall fuel s,
  core (pending s) 0 s -> Forall (fun d => d_type d = TByob) (pending s) -> (forall d, d ∈ pending s -> backed s d) ->
  byob_request (ctrl s) = None -> byob_at i s -> state (strm s) = Closed -> num_requests (Some i) s < fuel ->
  exists s', respond_closed_loop fuel (Some i) s = Some (Ok tt, s') ∧ core [] 0 s' ∧ pending s' = [] ∧
    frame (pending s) [] s s' ∧ kinds s s' ∧ steady s s'.
Proof.
  induction fuel as [|fuel IH]; intros s HC Hty Hbk Hn Hb Hcl Hfu; [lia|]. cbn [respond_closed_loop]. rewrite bind_gets.
  pose proof Hb as (Hr & rd & Hi & Hk). unfold num_requests in *. rewrite (reader_at_some i rd s Hi) in *.
  pose proof (k_count _ _ _ HC) as Hct. rewrite byob_count_all in Hct by done. cbn in Hct.
  rewrite <- Hk, (waiting_at i rd s Hr Hi) in Hct. destruct (requests rd) as [|p ps] eqn:Hrq; cbn [length] in Hct.
  - cbn [length Nat.eqb]. exists s. destruct (pending s) eqn:Hp; [|done]. split; [done|]. split; [done|]. split; [done|].
    split; [apply frame_refl|]. split; [apply kinds_same; done|]. done.
  - cbn [length Nat.eqb]. destruct (pending s) as [|d ds] eqn:Hp; [done|]. rewrite (bind_ok _ _ _ _ _ (shift_eq d ds s Hp)).
    rewrite (invalidate_id s Hn). set (s1 := set_pending ds s).
    assert (HC1 : core (d :: ds) 0 s1) by (eapply core_same; [apply set_pending_same|done]).
    apply Forall_cons in Hty as [Hd Hds].
    assert (Hal : (d_element_size d | bytes_filled d)%nat) by (apply (k_closed _ _ _ HC Hcl d ds eq_refl)).
    destruct (commit_core d ds 0 s1 i rd p ps) as (s2 & H2 & HC2 & E1 & E2 & E3 & HF2 & Hbk2); try done; [apply (Hbk d); set_solver|].
    rewrite (bind_ok _ _ _ _ _ H2). assert (Hp2 : pending s2 = ds) by (rewrite E1; done).
    assert (HK2 : kinds s s2) by (apply (kinds_requests i rd ps); [done|rewrite E3; done]).
    assert (Hb2 : byob_at i s2) by (eapply byob_at_moves; [exact Hb|done|rewrite E2; done]).
    assert (Hi2 : readers s2 !! i = Some (mkReader (r_kind rd) (closed_promise rd) (attached rd) ps)).
    { rewrite E3. apply (set_requests_lookup i rd ps s1 Hi). }
    destruct (IH s2) as (s3 & H3 & HC3 & Hp3 & HF3 & HK3 & HS3); rewrite ?Hp2; try done.
    + intros d' Hd'. apply Hbk2; [done|]. apply (Hbk d'). set_solver.
    + rewrite E1. exact Hn.
    + rewrite E2. exact Hcl.
    + rewrite (reader_at_some i _ s2 Hi2). cbn. cbn in Hfu. lia.
    + exists s3. split; [exact H3|]. split; [done|]. split; [done|]. split; [|split].
      * eapply frame_trans; [|rewrite Hp2 in HF3; exact HF3]. eapply frame_trans; [apply frame_same, (set_pending_same ds)|exact HF2].
      * eapply kinds_trans; done.
      * eapply steady_trans; [|exact HS3]. split; [exact E2|]. rewrite E1. done.
Qed.

Section Respond.
Context (s0 : st).
Hypothesis (HI0 : inv s0).

Lemma types_tail d ds : types (d :: ds) -> Forall (fun d => d_type d = TByob) ds.
Proof. intros [_ H]. eapply Forall_impl; [exact H|]. naive_solver. Qed.

(** No descriptor is left. *)
Lemma closed_done s : after [] s0 s -> core [] 0 s -> pending s = [] -> state (strm s) = Closed -> good s0 s.
Proof.
  intros HA HC Hp Hcl. apply after_done; rewrite ?Hp; [done| |done|right; cbn; lia].
  split; rewrite ?Hp; try done; [set_solver|]. intros Hd. exfalso. apply Hd. apply (k_done _ _ _ HC). congruence.
Qed.

Definition answer_closed (r : option nat) : M unit :=
  let* held := gets (reader_at r) in
  match held with
  | Some (_, rd) =>
      match r_kind rd with
      | ByobReader => respond_closed_loop (S (length (requests rd))) r
      | DefaultReader => ret tt
      end
  | None => ret tt
  end.

Lemma answer_closed_fine s :
  after (pending s) s0 s -> core (pending s) 0 s -> Forall (fun d => d_type d = TByob) (pending s) ->
  (forall d, d ∈ pending s -> backed s d) -> byob_request (ctrl s) = None -> state (strm s) = Closed ->
  exists s', answer_closed (reader (strm s)) s = Some (Ok tt, s') ∧ good s0 s'.
Proof.
  intros HA HC Hty Hbk Hn Hcl. unfold answer_closed. rewrite bind_gets.
  assert (Hdone : waiting ByobReader s = [] -> exists s', ret tt s = Some (Ok tt, s') ∧ good s0 s').
  { intros Hw. exists s. split; [done|]. pose proof (k_count _ _ _ HC) as Hc. rewrite byob_count_all, Hw in Hc by done.
    assert (Hp : pending s = []) by (destruct (pending s); done). rewrite Hp in *. apply closed_done; done. }
  destruct (reader_at (reader (strm s)) s) as [[i rd]|] eqn:Hr.
  - apply reader_at_lookup in Hr as [Hr Hi]. destruct (r_kind rd) eqn:Hk.
    + apply Hdone. apply (waiting_other i rd); [done..|congruence].
    + rewrite Hr. assert (Hb : byob_at i s) by (split; [done|exists rd; done]).
      destruct (closed_loop_core i (S (length (requests rd))) s) as (s2 & H2 & HC2 & Hp2 & HF2 & HK2 & HS2); try done.
      * unfold num_requests. rewrite (reader_at_some i rd) by done. lia.
      * exists s2. split; [exact H2|]. apply closed_done; try done; [eapply after_more; done|]. destruct HS2 as (-> & _). done.
  - apply Hdone. unfold waiting, current. rewrite Hr. done.
Qed.

Lemma respond_closed_fine d ds s :
  opened d ds s0 s -> state (strm s) = Closed ->
  exists s', respond_in_closed_state (reader (strm s)) d s = Some (Ok tt, s') ∧ good s0 s'.
Proof.
  intros [HA HC Hp Hq Hbk Hn Hw Hct] Hcl. unfold respond_in_closed_state. fold (answer_closed (reader (strm s))).
  assert (Htl : forall d', d' ∈ ds -> backed s d') by (intros d' Hd'; apply (k_tail _ _ _ HC d ds d' eq_refl Hd')).
  pose proof (types_tail _ _ (k_types _ _ _ HC)) as Hty. destruct (d_type d) eqn:Hd.
  - destruct (k_types _ _ _ HC) as [Hnd _]. done.
  - unfold bind at 1. cbn [ret]. apply answer_closed_fine; rewrite ?Hp; [done|done| | |done..].
    + constructor; done.
    + intros d' Hd'. apply elem_of_cons in Hd' as [->|Hd']; [done|auto].
  - pose proof (shift_eq d ds s Hp) as Hsh. rewrite (invalidate_id s Hn) in Hsh. unfold bind at 1.
    rewrite (bind_ok _ _ _ _ _ Hsh). cbn [ret]. set (s1 := set_pending ds s).
    change (reader (strm s)) with (reader (strm s1)). apply answer_closed_fine; try done; change (pending s1) with ds.
    + eapply after_more; [exact HA| |apply kinds_same; done|done].
      eapply frame_trans; [apply frame_same, (set_pending_same ds)|apply frame_drop].
    + apply (drop_head d); try done; [|right; cbn; congruence]. eapply core_same; [apply set_pending_same|done].
Qed.

(** *** A readable stream *)

(** The queue is given to what is pending. *)
Lemma process_any_fine s :
  after (pending s) s0 s -> core (pending s) 0 s -> state (strm s) = Readable ->
  Forall (fun d => d_type d = TByob) (pending s) -> (forall d, d ∈ pending s -> backed s d) ->
  (forall d, d ∈ pending s -> bytes_filled d < minimum_fill d) -> byob_request (ctrl s) = None ->
  (waiting DefaultReader s <> [] -> length (queue (ctrl s)) <= 1) ->
  exists s', process_pull_into_descriptors_using_queue (reader (strm s)) s = Some (Ok tt, s') ∧ good s0 s'.
Proof.
  intros HA HC Hst Hty Hbk Hw Hn Hsg. destruct (pending s) as [|d ds] eqn:Hp.
  - exists s. unfold process_pull_into_descriptors_using_queue. rewrite bind_gets, Hp. cbn [length Nat.add process_pull_into_loop].
    rewrite !bind_gets, Hp. split; [done|]. apply after_done; rewrite ?Hp; [done| |done|right; cbn; lia].
    split; rewrite ?Hp; try done; set_solver.
  - destruct (byob_waits (d :: ds) s HC) as (i & rd & p & ps & Hr & Hi & Hk & Hrq).
    { rewrite byob_count_all by done. done. }
    assert (HS : serving i s).
    { split; rewrite ?Hp; try done. exists rd. done. }
    rewrite Hr. destruct (process_fine i s HS) as (s' & Hs' & HI' & HF & HSt & HK & HS'). exists s'. split; [exact Hs'|].
    assert (HA' : after (pending s') s0 s') by (eapply after_more; [exact HA|rewrite Hp in HF; exact HF|done|done]).
    apply after_done; [done..|]. left. eapply after_locked; [done|exact HA|]. exists i, rd. done.
Qed.

Lemma filled_whole d : (d_element_size d | bytes_filled d - bytes_filled d mod d_element_size d)%nat.
Proof.
  pose proof (Nat.div_mod_eq (bytes_filled d) (d_element_size d)) as H. exists (bytes_filled d / d_element_size d).
  rewrite Nat.mul_comm. lia.
Qed.

(** The bytes of a part of an element go to the queue. *)
Definition keep_remainder (d : descriptor) : M unit :=
  let remainder_size := bytes_filled d mod d_element_size d in
  if 0 <? remainder_size then
    let* start := expect (usize_sub (d_offset d + bytes_filled d) remainder_size) in
    enqueue_cloned_chunk_to_queue (d_buffer d) start remainder_size
  else ret tt.

Definition trimmed (d : descriptor) : descriptor := set_filled (bytes_filled d - bytes_filled d mod d_element_size d) d.

Lemma keep_remainder_core d ds s :
  core (d :: ds) 0 s -> after (d :: ds) s0 s -> queue (ctrl s) = [] -> backed s d -> state (strm s) = Readable ->
  exists s', keep_remainder d s = Some (Ok tt, s') ∧ core (trimmed d :: ds) 0 s' ∧ after (trimmed d :: ds) s0 s' ∧
    strm s' = strm s ∧ readers s' = readers s ∧ byob_request (ctrl s') = byob_request (ctrl s) ∧ pending s' = pending s ∧
    (forall d', backed s d' -> backed s' d').
Proof.
  intros HC HA Hq Hbk Hst. unfold keep_remainder, trimmed. cbn zeta. set (m := bytes_filled d mod d_element_size d).
  assert (Hm : m <= bytes_filled d) by apply Nat.Div0.mod_le. destruct (Nat.ltb_spec 0 m) as [Hlt|Hge].
  - destruct (clone_core d ds 0 s m HC Hq Hbk Hst ltac:(lia)) as (c & H2 & HC2 & Hc).
    exists (cloned c m s). erewrite bind_ok; [|unfold expect; rewrite usize_sub_Some by lia; done].
    split; [exact H2|]. split; [exact HC2|]. split; [|repeat (split; [done|])].
    + eapply after_more; [exact HA| |apply kinds_same; done|done]. eapply frame_trans; [apply frame_cloned|apply frame_buffers; done].
    + intros d' (data & Hl & Hd). exists data. split; [|done]. unfold live in *. cbn.
      rewrite lookup_app_l by (apply lookup_lt_Some in Hl; done). done.
  - exists s. assert (m = 0) as -> by lia. rewrite Nat.sub_0_r.
    assert (Hd : set_filled (bytes_filled d) d = d) by (destruct d; done). rewrite Hd. done.
Qed.

(** A descriptor that holds its minimum is committed, and the queue is given
    to the others. *)
Lemma commit_head_fine d ds s :
  after (d :: ds) s0 s -> core (d :: ds) 0 s -> pending s = d :: ds -> queue (ctrl s) = [] -> backed s d ->
  byob_request (ctrl s) = None -> d_type d = TByob -> state (strm s) = Readable ->
  (forall d', d' ∈ ds -> bytes_filled d' < minimum_fill d') ->
  exists s', (let* d := shift_pending_pull_into in
        let* _ := keep_remainder d in
        let* _ := commit_pull_into_descriptor (reader (strm s)) (trimmed d) in
        process_pull_into_descriptors_using_queue (reader (strm s))) s = Some (Ok tt, s') ∧ good s0 s'.
Proof.
  intros HA HC Hp Hq Hbk Hn Hty Hst Hw. pose proof (shift_eq d ds s Hp) as Hsh. rewrite (invalidate_id s Hn) in Hsh.
  rewrite (bind_ok _ _ _ _ _ Hsh). clear Hsh. set (s1 := set_pending ds s).
  destruct (byob_waits (d :: ds) s HC) as (i & rd & p & ps & Hr & Hi & Hk & Hrq).
  { rewrite byob_count_cons, decide_True by done. lia. }
  assert (HC1 : core (d :: ds) 0 s1) by (eapply core_same; [apply set_pending_same|done]).
  assert (HA1 : after (d :: ds) s0 s1) by (eapply after_more; [exact HA|apply frame_view; done|apply kinds_same; done|done]).
  destruct (keep_remainder_core d ds s1 HC1 HA1 Hq Hbk Hst) as (s2 & H2 & HC2 & HA2 & E1 & E2 & E3 & E4 & Hbk2).
  rewrite (bind_ok _ _ _ _ _ H2). change (strm s1) with (strm s) in E1. change (readers s1) with (readers s) in E2.
  change (byob_request (ctrl s1)) with (byob_request (ctrl s)) in E3. change (pending s1) with ds in E4.
  assert (Hbks : forall d', d' ∈ ds -> backed s2 d') by (intros d' Hd'; apply Hbk2, (k_tail _ _ _ HC d ds d' eq_refl Hd')).
  destruct (commit_core (trimmed d) ds 0 s2 i rd p ps) as (s3 & H3 & HC3 & F1 & F2 & F3 & HF3 & Hbk3); try done; try congruence.
  { exact (Hbk2 d Hbk). }
  { exact (filled_whole d). }
  rewrite Hr, (bind_ok _ _ _ _ _ H3), <- Hr, <- E1, <- F2.
  assert (Hp3 : pending s3 = ds) by (rewrite F1; exact E4).
  apply process_any_fine; rewrite ?Hp3.
  - eapply after_more; [exact HA2|exact HF3| |split; [exact F2|rewrite F1; done]].
    apply (kinds_requests i rd ps); [congruence|]. rewrite F3. done.
  - done.
  - rewrite F2, E1. done.
  - apply (types_tail d), HC.
  - intros d' Hd'. apply Hbk3; auto.
  - done.
  - rewrite F1. congruence.
  - intros Hwd. exfalso. apply Hwd. apply (waiting_other i (mkReader (r_kind rd) (closed_promise rd) (attached rd) ps)).
    + congruence.
    + rewrite F3. apply (set_requests_lookup i rd ps s2). congruence.
    + cbn. congruence.
Qed.

Lemma respond_readable_fine d ds s n :
  opened d ds s0 s -> state (strm s) = Readable -> (0 <= n)%Z -> usize_add (bytes_filled d) n <= d_length d ->
  exists s', respond_in_readable_state (reader (strm s)) n d ds s = Some (Ok tt, s') ∧ good s0 s'.
Proof.
  intros [HA HC Hp Hq Hbk Hn Hw Hct] Hst H0 Hle. unfold respond_in_readable_state. rewrite bind_modify.
  pose proof (respond_head d ds 0 s n HC Hst Hq Hbk H0 Hle) as HC1.
  assert (Hlog : exists e, note_response n d s = push_log e s) by (unfold note_response; destruct (usize_wraps _ _); eauto).
  destruct Hlog as [e He]. rewrite He in *.
  set (s1 := push_log e s) in *. set (d1 := fill_head_with n d) in *. cbn zeta. rewrite bind_modify.
  set (s2 := set_pending (d1 :: ds) s1).
  assert (HC2 : core (d1 :: ds) 0 s2) by (eapply core_same; [apply set_pending_same|done]).
  assert (HA2 : after (d1 :: ds) s0 s2).
  { eapply after_more; [exact HA| |apply kinds_same; done|done]. eapply frame_trans; [apply (frame_buffers _ (d1 :: ds)); done|].
    split; [done|]. cbn. apply prefix_app_r. done. }
  assert (Htl : forall d', d' ∈ ds -> bytes_filled d' < minimum_fill d') by (intros d' Hd'; apply Hw; set_solver).
  assert (Hbk2 : forall d', d' ∈ ds -> backed s2 d') by (intros d' Hd'; apply (k_tail _ _ _ HC2 d1 ds d' eq_refl Hd')).
  pose proof (types_tail _ _ (k_types _ _ _ HC2)) as Hty.
  destruct (d_type d1) eqn:Hd; [destruct (k_types _ _ _ HC2); done| |].
  - destruct (Nat.ltb_spec (bytes_filled d1) (minimum_fill d1)) as [Hlt|Hge].
    + exists s2. split; [done|]. apply after_done; try done; [|right; rewrite Hct; done].
      split; try done.
      * intros d' Hd'. apply elem_of_cons in Hd' as [->|Hd']; [done|auto].
      * intros Hdw. cbn. rewrite Hq. cbn. lia.
    + change (reader (strm s)) with (reader (strm s2)). apply (commit_head_fine d1 ds s2); done.
  - destruct (enqueue_detached_core d1 ds s2) as (s3 & H3 & HC3 & P1 & P2 & P3 & P4 & P5 & P6 & P7); try done.
    rewrite (bind_ok _ _ _ _ _ H3). destruct P4 as (Q1 & Q2 & Q3). change (strm s2) with (strm s) in Q1. rewrite <- Q1.
    apply process_any_fine; rewrite ?P1; try done.
    + eapply after_more; [exact HA2|exact P3|apply kinds_same; done|done].
    + congruence.
    + intros d' Hd'. auto.
Qed.

(** What follows once the request is invalidated. *)
Definition respond_body (r : option nat) (n : Z) : M unit :=
  let* closed := gets is_closed in
  let* pending := gets (fun s => pending_pull_intos (ctrl s)) in
  let* _ :=
    match pending with
    | [] => panic
    | d :: ds => if closed then respond_in_closed_state r d else respond_in_readable_state r n d ds
    end in
  call_pull_if_needed source run r.

Lemma respond_body_fine d ds s n :
  ready s0 -> opened d ds s0 s -> (0 <= n)%Z -> (is_closed s = false -> usize_add (bytes_filled d) n <= d_length d) ->
  fine s0 (respond_body (reader (strm s)) n s).
Proof.
  intros Hrun HO H0 Hle. pose proof HO as [HA HC Hp Hq Hbk Hn Hw Hct]. unfold respond_body. rewrite !bind_gets, Hp.
  assert (Hm : exists s', (if is_closed s then respond_in_closed_state (reader (strm s)) d
      else respond_in_readable_state (reader (strm s)) n d ds) s = Some (Ok tt, s') ∧ good s0 s').
  { unfold is_closed in *. destruct (state (strm s)) as [| |e] eqn:Hst.
    - apply respond_readable_fine; auto.
    - apply (respond_closed_fine d ds); done.
    - pose proof (k_err _ _ _ HC e Hst). done. }
  destruct Hm as (s1 & H1 & HG1). rewrite (bind_ok _ _ _ _ _ H1).
  destruct (call_pull_fine source ok run Hsource (reader (strm s)) s1 (good_steady_pull ok run _ _ HG1 Hrun) (proj1 HG1)) as (s2 & H2 & HG2 & _).
  eexists _, s2. split; [exact H2|]. eapply good_trans; done.
Qed.
End Respond.

(** The first descriptor gets the bytes of a buffer of the program, which is
    recorded when they differ from what it held. *)
Definition reclaimed (t : bool) (b : nat) (data : list Z) (d : descriptor) (ds : list descriptor) (s : st) : st :=
  set_pending (set_d_buffer (length (buffers s)) d :: ds) (transferred b data (note_tampering t (invalidate_byob_request s))).

Lemma reclaimed_eq t b data d ds s :
  invalidate_byob_request (note_tampering t (set_pending (set_d_buffer (length (buffers s)) d :: ds) (transferred b data s))) =
    reclaimed t b data d ds s.
Proof. unfold reclaimed, note_tampering, invalidate_byob_request. destruct t, s as [? ? ? ? ? ? ? c ?], c as [? [|] ? ? ? ? ? ? ? ? ?]; done. Qed.

Lemma reclaimed_opened t b data d ds s :
  inv s -> pending s = d :: ds -> live b data s -> length data = buffer_byte_length d -> (b ∈ shared s ∨ b = d_buffer d) ->
  (t = false -> slice data (d_offset d) (bytes_filled d) = filled_bytes d s) ->
  opened (set_d_buffer (length (buffers s)) d) ds s (reclaimed t b data d ds s).
Proof.
  intros HI Hp Hl Hlen Hb Ht. pose proof (i_core _ HI) as HC. rewrite Hp in HC.
  assert (Hq : queue (ctrl s) = []) by (apply (i_excl _ HI); rewrite Hp; done).
  assert (Hbd : b ∉ d_buffer <$> ds).
  { destruct Hb as [Hb| ->]; [|apply (nodup_head d ds s (k_nodup _ _ _ HC))]. intros Hin. apply list_elem_of_fmap in Hin as (d' & -> & Hd').
    destruct (k_tail _ _ _ HC d ds d' eq_refl Hd') as [_ Hns]. done. }
  destruct (invalidate_core _ _ _ HC) as [HC0 Hn0]. destruct (invalidate_view s) as (A1 & A2 & A3 & A4 & A5 & A6 & A7 & A8 & A9 & A10).
  cbn zeta in *. set (s1 := invalidate_byob_request s) in *. set (s2 := note_tampering t s1).
  assert (HC2 : core (d :: ds) 0 s2) by (unfold s2, note_tampering; destruct t; [apply core_log; done|done]).
  assert (Hv : buffers s2 = buffers s ∧ strm s2 = strm s ∧ ctrl s2 = ctrl s1 ∧ shared s2 = shared s ∧ readers s2 = readers s).
  { unfold s2, note_tampering. destruct t; done. }
  destruct Hv as (V1 & V2 & V3 & V4 & V5).
  destruct (replace_head d ds 0 s2 b data) as (HC3 & _ & Hbk); rewrite ?V1 in *; try done.
  { rewrite V3. done. } { unfold live. rewrite V1. done. } { rewrite V3, A6, Hq. cbn. set_solver. }
  { unfold s2, note_tampering. destruct t; cbn.
    - rewrite not_elem_of_app. intros [_ Hx]. set_solver.
    - intros _. rewrite Ht by done. unfold filled_bytes, bytes_at. rewrite A1. done. }
  unfold reclaimed. fold s1 s2. set (d1 := set_d_buffer (length (buffers s)) d) in *. split; try done.
  - split; rewrite ?Hp; cbn; try (rewrite ?V2, ?V3, ?A9; done); [|apply kinds_same; done].
    split.
    + intros b' bd HIb. pose proof (isolated_lt _ _ _ _ HIb) as Hlt. destruct HIb as (I1 & I2 & I3 & I4).
      cbn in I4. rewrite not_elem_of_cons in I4. destruct I4 as [I4 I5].
      assert (Hne : b' <> b) by (destruct Hb as [Hb| ->]; congruence).
      split; [|split; [cbn; rewrite V4; done|split; [cbn; rewrite V3, A6; done|cbn; rewrite not_elem_of_cons; split; [lia|done]]]].
      unfold live. rewrite <- I1, <- V1. apply (transferred_other b data s2); [rewrite V1; done|done].
    + cbn. unfold s2, note_tampering. destruct t; cbn; rewrite A5; [apply prefix_app_r|]; done.
  - eapply core_same; [apply set_pending_same|exact HC3].
  - cbn. rewrite V3, A6. done.
  - cbn. rewrite V3. done.
  - intros d' Hd'. apply elem_of_cons in Hd' as [->|Hd']; [apply (i_wait _ HI d)|apply (i_wait _ HI d')]; rewrite Hp; set_solver.
  - rewrite Hp. done.
Qed.

(** A request that is valid is for the first descriptor. *)
Lemma request_head s k v : inv s -> byob_requests s !! k = Some (Some v) -> exists d ds, pending s = d :: ds ∧ v_buffer v = d_buffer d.
Proof.
  intros HI Hk. pose proof (k_valid _ _ _ (i_core _ HI) k v Hk) as Hr.
  destruct (k_request _ _ _ (i_core _ HI) k Hr) as (v' & d & V' & H1 & H2 & H3). exists d, V'. split; [done|]. congruence.
Qed.

Lemma not_detached_live b s : is_detached b s = false -> exists data, live b data s.
Proof. unfold is_detached, live. destruct (buffers s !! b) as [[data|]|]; [eauto|done..]. Qed.

Lemma fine_refl {A} (r : result value A) s : inv s -> fine s (Some (r, s)).
Proof. intros HI. exists r, s. split; [done|]. apply good_refl. done. Qed.

Lemma respond_fine k n s : ready s -> inv s -> (0 <= n)%Z -> fine s (respond source run k n s).
Proof.
  intros Hrun HI H0. unfold respond. destruct (byob_requests s !! k) as [[v|]|] eqn:Hk; [|apply fine_refl; done..].
  destruct (is_detached (v_buffer v) s) eqn:Hdet; [apply fine_refl; done|].
  destruct (request_head s k v HI Hk) as (d & ds & Hp & Hb). rewrite Hb in Hdet. destruct (not_detached_live _ _ Hdet) as [data Hl].
  pose proof (i_core _ HI) as HC. rewrite Hp in HC. unfold controller_respond. rewrite !bind_gets, Hp.
  destruct (is_closed s && negb (n =? 0)%Z); [apply fine_refl; done|].
  destruct (negb (is_closed s) && (n =? 0)%Z); [apply fine_refl; done|].
  destruct (negb (is_closed s) && (d_length d <? usize_add (bytes_filled d) n)) eqn:Hr; [apply fine_refl; done|].
  rewrite (bind_ok _ _ _ _ _ (transfer_eq _ _ _ Hl)), bind_modify. unfold respond_internal.
  rewrite bind_modify. fold (respond_body (reader (strm s)) n).
  pose proof (reclaimed_eq false (d_buffer d) data d ds s) as Heq. cbn [note_tampering] in Heq. rewrite Heq.
  assert (HO : opened (set_d_buffer (length (buffers s)) d) ds s (reclaimed false (d_buffer d) data d ds s)).
  { apply reclaimed_opened; try done; [|right; done|].
    - destruct (k_head _ _ _ HC d ds eq_refl) as [(data' & Hl' & Hd)|[_ Hnone]]; unfold live in *; congruence.
    - intros _. unfold filled_bytes. rewrite (bytes_at_live _ data) by done. done. }
  pose proof (a_strm _ _ _ (o_after _ _ _ _ HO)) as Hs. rewrite <- Hs.
  eapply respond_body_fine; [done|done|exact HO|done|]. unfold is_closed. rewrite Hs. fold (is_closed s). intros Hcl. rewrite Hcl in Hr.
  cbn in Hr. apply Nat.ltb_ge in Hr. exact Hr.
Qed.

Lemma respond_with_new_view_fine k v s :
  ready s -> inv s -> v_buffer v ∈ shared s -> fine s (respond_with_new_view source run k v s).
Proof.
  intros Hrun HI Hsh. unfold respond_with_new_view. destruct (byob_requests s !! k) as [[v0|]|] eqn:Hk; [|apply fine_refl; done..].
  destruct (is_detached (v_buffer v) s) eqn:Hdet; [apply fine_refl; done|]. destruct (not_detached_live _ _ Hdet) as [data Hl].
  destruct (request_head s k v0 HI Hk) as (d & ds & Hp & _). unfold controller_respond_with_new_view.
  unfold get_array_buffer, bind at 1. cbn beta. rewrite Hdet, !bind_gets.
  destruct (is_closed s && negb (v_length v =? 0)); [apply fine_refl; done|].
  destruct (negb (is_closed s) && (v_length v =? 0)); [apply fine_refl; done|]. rewrite Hp.
  destruct (negb (d_offset d + bytes_filled d =? v_offset v)); [apply fine_refl; done|].
  destruct (Nat.eqb_spec (buffer_byte_length d) (buffer_len (v_buffer v) s)) as [Hlen|Hne]; cbn [negb]; [|apply fine_refl; done].
  destruct (Nat.ltb_spec (d_length d) (usize_add (bytes_filled d) (Z.of_nat (v_length v)))) as [Hlt|Hge]; [apply fine_refl; done|].
  rewrite bind_gets, (bind_ok _ _ _ _ _ (transfer_eq _ _ _ Hl)), bind_modify, bind_gets, bind_modify.
  unfold respond_internal. rewrite bind_modify. fold (respond_body (reader (strm s)) (Z.of_nat (v_length v))).
  set (d1 := set_d_buffer (length (buffers s)) d). set (s1 := set_pending (d1 :: ds) (transferred (v_buffer v) data s)).
  assert (Haft : filled_bytes d1 s1 = slice data (d_offset d) (bytes_filled d)).
  { unfold filled_bytes. apply bytes_at_live. apply transferred_new. }
  rewrite Haft. set (t := negb (bool_decide (filled_bytes d s = slice data (d_offset d) (bytes_filled d)))).
  pose proof (reclaimed_eq t (v_buffer v) data d ds s) as Heq. fold d1 s1 in Heq. rewrite Heq.
  assert (HO : opened d1 ds s (reclaimed t (v_buffer v) data d ds s)).
  { apply reclaimed_opened; try done; [|left; done|].
    - rewrite Hlen. unfold buffer_len. rewrite Hl. done.
    - subst t. intros Ht. apply negb_false_iff, bool_decide_eq_true in Ht. done. }
  pose proof (a_strm _ _ _ (o_after _ _ _ _ HO)) as Hs. rewrite <- Hs.
  eapply respond_body_fine; [done|done|exact HO|lia|]. intros _. exact Hge.
Qed.

End Reads.

(** ** The other calls *)

(** The program gets a view of the first descriptor's buffer. *)
Lemma byob_request_getter_fine s : inv s -> fine s (byob_request_getter s).
Proof.
  intros HI. unfold byob_request_getter. destruct (byob_request (ctrl s)) as [k|] eqn:Hk; [apply fine_refl; done|].
  destruct (pending s) as [|d ds] eqn:Hp; [apply fine_refl; done|].
  destruct (is_detached (d_buffer d) s) eqn:Hdet; [apply fine_refl; done|]. destruct (not_detached_live _ _ Hdet) as [data Hl].
  pose proof (i_core _ HI) as HC. rewrite Hp in HC. destruct (k_desc _ _ _ HC d) as (D1 & _); [set_solver|].
  rewrite usize_sub_Some by done. eexists _, _. split; [done|]. set (v := mkView U8Array _ _ _).
  set (s1 := set_byob_request _ _).
  destruct (nodup_head d ds s (k_nodup _ _ _ HC)) as (N1 & N2 & _).
  assert (HC1 : core (d :: ds) 0 s1).
  { pose proof (fun k v => no_request _ _ _ k v HC Hk) as Hno. destruct HC. split; try done.
    - intros k v' Hv. cbn in Hv. apply lookup_app_Some in Hv as [Hv|[Hle Hv]]; [destruct (Hno k v' Hv)|].
      destruct (k - length (byob_requests s)) eqn:Hkk; [|done]. cbn. f_equal. lia.
    - intros k' [= <-]. exists v, d, ds. split; [|done]. cbn. rewrite lookup_app_r, Nat.sub_diag by done. done. }
  assert (HC2 : core (d :: ds) 0 (share (d_buffer d) s1)).
  { apply core_share; [done|eapply (live_bound _ data s); done|done|]. intros d' V' [= <- <-]. done. }
  split; [|split].
  - destruct HI. split; try (rewrite Hp; done); cbn; rewrite ?Hp in *; done.
  - split; [|done|apply kinds_same; done]. split; [|done]. intros b bd (I1 & I2 & I3 & I4). rewrite Hp in I4. cbn in I4.
    split; [done|]. split; [|split; [done|cbn; rewrite Hp; done]]. cbn. set_solver.
  - done.
Qed.
