(* ===== verification/ByteCorrect.v ===== *)
(** * Every readable byte stream

    The buffers of the program, readers that come and go, cancellation, and the
    theorems on every sequence of calls, settlements and jobs. *)
From Stdlib Require Import ZArith Lia SpecFloat.
From stdpp Require Import base list numbers strings sets.
From S2P Require Import Prelude F64 ByteStream ByteCore ByteInvariant ByteReads.

(** ** The buffers of the program *)

Lemma good_set_buffers s B :
  inv s -> core (pending s) 0 (set_buffers B s) -> (forall b, b ∉ shared s -> b < length (buffers s) -> B !! b = buffers s !! b) ->
  good s (set_buffers B s).
Proof.
  intros HI HC HB. split; [|split; [|done]].
  - destruct HI. split; done.
  - split; [|done|apply kinds_same; done]. split; [|done]. intros b data HIb. pose proof (isolated_lt _ _ _ _ HIb).
    destruct HIb as (I1 & I2 & I3 & I4). split; [|done]. unfold live in *. cbn. rewrite HB; done.
Qed.

(** A buffer that is new since [s0] goes to the program. *)
Lemma share_good s0 s b data :
  good s0 s -> length (buffers s0) <= b -> isolated (pending s) b data s -> good s0 (share b s).
Proof.
  intros (HI & HM & HK) Hb Hiso. pose proof (core_share_isolated _ _ s b data (i_core _ HI) Hiso) as HC. split; [|split; [|done]].
  - destruct HI. split; done.
  - destruct HM as [[M1 M1'] M2 M3]. split; [|done|done]. split; [|done]. intros b' bd HIb. pose proof (isolated_lt _ _ _ _ HIb).
    destruct (M1 b' bd HIb) as (I1 & I2 & I3 & I4). split; [done|]. split; [|done]. cbn. rewrite not_elem_of_cons. split; [lia|done].
Qed.

Lemma good_note t s : inv s -> good s (note_tampering t s).
Proof. intros HI. destruct t; [apply good_log; done|apply good_refl; done]. Qed.

Lemma note_view t s : buffers (note_tampering t s) = buffers s ∧ shared (note_tampering t s) = shared s ∧
  ctrl (note_tampering t s) = ctrl s ∧ strm (note_tampering t s) = strm s ∧ readers (note_tampering t s) = readers s.
Proof. destruct t; done. Qed.

(** A new buffer, which nothing can reach. *)
Lemma fresh_good data s : inv s ->
  let s1 := set_buffers (buffers s ++ [Some data]) s in good s s1 ∧ isolated (pending s1) (length (buffers s)) data s1.
Proof.
  intros HI s1. pose proof (i_core _ HI) as HC. destruct (fresh_buffer _ _ _ HC) as (F1 & F2 & F3).
  assert (Hold : forall b, b < length (buffers s) -> buffers s1 !! b = buffers s !! b).
  { intros b Hb. cbn. rewrite lookup_app_l; done. }
  split; [|split; [unfold live; cbn; rewrite lookup_app_r, Nat.sub_diag by done; done|done]].
  apply good_set_buffers; [done| |auto]. apply core_set_buffers; [done|rewrite length_app; lia|..].
  - intros e He. apply Hold. eapply core_buffer_lt; [done|]. left. apply list_elem_of_fmap. eauto.
  - intros d V' d' HV Hd'. apply Hold. eapply core_buffer_lt; [done|]. right; left. apply list_elem_of_fmap. exists d'. split; [done|].
    rewrite HV. set_solver.
  - intros d V' HV. left. apply Hold. eapply core_buffer_lt; [done|]. right; left. apply list_elem_of_fmap. exists d. split; [done|].
    rewrite HV. set_solver.
Qed.

(** A new buffer of the program. *)
Lemma new_buffer_good data s : inv s -> exists s', exec (let* b := new_buffer data in modify (share b)) s = Some s' ∧ good s s'.
Proof.
  intros HI. destruct (fresh_good data s HI) as [HG Hiso]. eexists. split; [done|]. eapply share_good; [exact HG|done|exact Hiso].
Qed.

Lemma transfer_call_good b s :
  inv s -> b ∈ shared s -> untouched b s ->
  exists s', exec (let* b := transfer_array_buffer b in modify (share b)) s = Some s' ∧ good s s'.
Proof.
  intros HI Hs Hu. destruct (is_detached b s) eqn:Hdet.
  - exists s. split; [|apply good_refl; done]. unfold exec, bind, transfer_array_buffer. unfold is_detached in Hdet.
    destruct (buffers s !! b) as [[data|]|]; done.
  - destruct (not_detached_live b s Hdet) as [data Hl]. destruct (transfer_good b data s HI Hl Hs Hu) as [HG Hiso].
    eexists. split; [unfold exec; rewrite (bind_ok _ _ _ _ _ (transfer_eq b data s Hl)); done|].
    eapply share_good; [exact HG|done|exact Hiso].
Qed.

(** What the program gives away is recorded when it held bytes. *)
Lemma note_reuse_untouched b s : inv s -> untouched b (note_reuse b s).
Proof.
  intros HI d V' data Hp Hb Hl. unfold note_reuse in *. destruct (note_view (touches_filled b 0 (buffer_len b s) s) s) as (E1 & _ & E3 & _).
  rewrite E3 in Hp. unfold live in Hl. rewrite E1 in Hl. unfold touches_filled. rewrite Hp.
  pose proof (i_core _ HI) as HC. rewrite Hp in HC. destruct (k_desc _ _ _ HC d) as (D1 & D2 & D3 & _); [set_solver|].
  assert (Hlen : length data = buffer_byte_length d).
  { destruct (k_head _ _ _ HC d V' eq_refl) as [(data' & Hl' & Hd)|[_ Hn]]; unfold live in *; congruence. }
  unfold buffer_len. rewrite Hl, (proj2 (Nat.eqb_eq _ _) Hb). destruct (Nat.ltb_spec 0 (bytes_filled d)) as [Hf|Hf]; [right|left; lia].
  rewrite (proj2 (Nat.ltb_lt _ _)) by lia. rewrite (proj2 (Nat.ltb_lt _ _)) by lia. cbn. apply elem_of_app. right.
  apply list_elem_of_singleton. done.
Qed.

(** The program writes to a buffer it can reach. *)
Lemma write_good b offset bytes old s :
  inv s -> live b old s -> b ∈ shared s -> offset + length bytes <= length old ->
  good s (set_buffers (<[b := Some (overwrite old offset bytes)]> (buffers s)) (note_tampering (touches_filled b offset (length bytes) s) s)).
Proof.
  intros HI Hl Hs Hle. set (t := touches_filled b offset (length bytes) s). pose proof (good_note t s HI) as HG.
  destruct (note_view t s) as (E1 & E2 & E3 & E4 & E5). set (s1 := note_tampering t s) in *.
  eapply good_trans; [done|exact HG|]. pose proof (i_core _ (proj1 HG)) as HC. rewrite <- E1.
  assert (Hlt : b < length (buffers s1)) by (rewrite E1; eapply live_bound, Hl).
  assert (Hoth : forall b', b' <> b -> <[b := Some (overwrite old offset bytes)]> (buffers s1) !! b' = buffers s1 !! b').
  { intros b' Hne. apply list_lookup_insert_ne. done. }
  apply good_set_buffers; [apply HG| |].
  2: { intros b' Hb' _. apply Hoth. rewrite E2 in Hb'. intros ->. done. }
  apply core_set_buffers; [done|rewrite length_insert; lia|..].
  - intros e He. apply Hoth. intros <-. destruct (k_queue _ _ _ HC e He) as (_ & Hn & _). rewrite E2 in Hn. done.
  - intros d V' d' HV Hd'. apply Hoth. intros <-. destruct (k_tail _ _ _ HC d V' d' HV Hd') as [_ Hn]. rewrite E2 in Hn. done.
  - intros d V' HV. destruct (decide (d_buffer d = b)) as [Hb|Hb]; [|left; apply Hoth; done]. right.
    assert (Hlen : length old = buffer_byte_length d).
    { destruct (k_head _ _ _ HC d V' HV) as [(data' & Hl' & Hd)|[_ Hn]]; unfold live in *; congruence. }
    assert (Hnew : live (d_buffer d) (overwrite old offset bytes) (set_buffers (<[b := Some (overwrite old offset bytes)]> (buffers s1)) s1)).
    { unfold live. cbn. rewrite Hb. apply list_lookup_insert_eq. done. }
    split; [rewrite Hb, E2; done|]. split.
    + right. exists (overwrite old offset bytes). split; [done|]. rewrite overwrite_length; done.
    + destruct t eqn:Ht; [right; subst s1; cbn; apply elem_of_app; right; apply list_elem_of_singleton; done|left].
      unfold filled_bytes. rewrite (bytes_at_live _ _ _ _ _ Hnew). rewrite (bytes_at_live (d_buffer d) old) by (rewrite Hb; exact Hl).
      apply overwrite_apart; [done|]. unfold t, touches_filled in Ht. rewrite <- E3, HV, (proj2 (Nat.eqb_eq _ _) Hb) in Ht.
      destruct (Nat.ltb_spec 0 (bytes_filled d)), (Nat.ltb_spec offset (d_offset d + bytes_filled d)),
        (Nat.ltb_spec (d_offset d) (offset + length bytes)); cbn in Ht; try done; lia.
Qed.

(** ** Cancellation *)

Lemma cancel_rest s reason :
  state (strm s) = Readable -> algorithms (ctrl s) = true ->
  exists P R p, readable_stream_cancel (reader (strm s)) reason s =
    Some (Ok p, set_reactions R (set_promises P (push_log (SourceCancel reason) (wiped Closed (set_disturbed true s))))).
Proof.
  intros Hst Hal. unfold readable_stream_cancel. change (state (strm (set_disturbed true s))) with (state (strm s)). rewrite Hst.
  set (s1 := set_disturbed true s). change (reader (strm s)) with (reader (strm s1)).
  destruct (close_rest s1) as [P ->]. change (ctrl s) with (ctrl s1) in Hal. clearbody s1. clear Hst s. rename s1 into s.
  assert (Hre : exists P', match reader_at (reader (strm s)) (set_promises P (set_state Closed (default_emptied s))) with
      | Some (i, rd) => match r_kind rd with
        | ByobReader => close_read_intos (requests rd) (set_requests i rd [] (set_promises P (set_state Closed (default_emptied s))))
        | DefaultReader => set_promises P (set_state Closed (default_emptied s)) end
      | None => set_promises P (set_state Closed (default_emptied s)) end = set_promises P' (set_state Closed (all_emptied s))).
  { unfold default_emptied, all_emptied. destruct (reader_at (reader (strm s)) s) as [[i rd]|] eqn:Hr.
    - apply reader_at_lookup in Hr as [Hr Hi]. rewrite Hr. destruct (r_kind rd) eqn:Hk.
      + exists P. erewrite reader_at_some by (cbn; apply (set_requests_lookup i rd [] s Hi)). cbn [r_kind]. rewrite Hk. done.
      + erewrite reader_at_some by (cbn; exact Hi). rewrite Hk.
        destruct (close_read_intos_rest (requests rd) (set_requests i rd [] (set_promises P (set_state Closed s)))) as [P' ->].
        exists P'. done.
    - exists P. destruct (reader_at _ (set_promises _ _)) as [[i rd]|] eqn:Hr'; [|done]. unfold reader_at in *. cbn in Hr'. congruence. }
  destruct Hre as [P' ->]. clear P. unfold wiped.
  assert (Hinv : all_emptied (invalidate_byob_request s) = invalidate_byob_request (all_emptied s)).
  { unfold all_emptied. destruct (invalidate_view s) as (_ & _ & A3 & A4 & _). unfold reader_at. cbn zeta in *. rewrite A3, A4.
    destruct (reader (strm s)) as [i|]; [|done]. destruct (readers s !! i); [|done].
    unfold invalidate_byob_request. cbn. destruct (byob_request (ctrl s)); done. }
  rewrite Hinv. destruct (all_emptied_view s) as (_ & E2 & _). rewrite <- E2 in Hal. set (s2 := all_emptied s) in *. clearbody s2.
  destruct s2 as [? ? ? ? ? ? ? c ?], c as [? br al ? ? ? ? ? ? ? ?]. cbn in Hal. subst al. destruct br; eexists _, _, _; done.
Qed.

Lemma good_reactions R P s : inv s -> good s (set_reactions R (set_promises P s)).
Proof. intros HI. apply good_same; [done|repeat split|done|done]. Qed.

Lemma cancelled_good R P reason s :
  inv s -> good s (set_reactions R (set_promises P (push_log (SourceCancel reason) (wiped Closed s)))).
Proof.
  intros HI. assert (HG1 : good s (wiped Closed s)) by (apply wiped_good; done). revert HG1. generalize (wiped Closed s). intros s1 HG1.
  assert (HG2 : good s1 (push_log (SourceCancel reason) s1)) by (apply good_log; [apply HG1|done]).
  eapply good_trans; [done|exact HG1|]. eapply good_trans; [apply HG1|exact HG2|]. apply good_reactions, HG2.
Qed.

Lemma cancel_fine s reason : inv s -> fine s (readable_stream_cancel (reader (strm s)) reason s).
Proof.
  intros HI. pose proof (good_disturbed s HI) as HG. destruct (state (strm s)) as [| |e] eqn:Hst.
  - destruct (cancel_rest s reason Hst (k_alg _ _ _ (i_core _ HI) Hst)) as (P & R & p & Hc). rewrite Hc.
    eexists _, _. split; [reflexivity|]. eapply good_trans; [exact HI|exact HG|]. apply cancelled_good, HG.
  - unfold readable_stream_cancel. change (state (strm (set_disturbed true s))) with (state (strm s)). rewrite Hst.
    eexists _, _. split; [done|]. eapply good_trans; [done|exact HG|]. apply good_promises, HG.
  - unfold readable_stream_cancel. change (state (strm (set_disturbed true s))) with (state (strm s)). rewrite Hst.
    eexists _, _. split; [done|]. eapply good_trans; [done|exact HG|]. apply good_promises, HG.
Qed.

Lemma cancel_call_fine s reason : inv s -> fine s (cancel reason s).
Proof.
  intros HI. unfold cancel. destruct (is_readable_stream_locked s); [apply new_promise_fine; done|]. apply cancel_fine. done.
Qed.

Lemma reader_cancel_fine i s reason : inv s -> fine s (reader_cancel i reason s).
Proof.
  intros HI. unfold reader_cancel. destruct (readers s !! i) as [rd|] eqn:Hi; [|apply fine_refl; done].
  destruct (attached rd) eqn:Ha; [|apply new_promise_fine; done].
  rewrite <- (k_att _ _ _ (i_core _ HI) i rd Hi Ha). apply cancel_fine. done.
Qed.

(** ** Readers *)

(** The reader [i] is detached, and its descriptors go except what the first
    one holds. *)
Definition released (i : nat) (rd : any_reader) (closed : resolveable) (s : st) : st :=
  set_readers (<[i := mkReader (r_kind rd) closed false []]> (readers s)) (set_reader None (release_steps s)).

Lemma release_rest i rd s : readers s !! i = Some rd -> exists P closed, reader_release i rd s = set_promises P (released i rd closed s).
Proof.
  intros Hi. unfold reader_release, generic_release.
  assert (Hg : exists P closed, (let '(closed, s1) :=
    match state (strm s) with
    | Readable => (closed_promise rd, reject (closed_promise rd) released_error s)
    | _ => (mkRp (length (promises s)) false, set_promises (promises s ++ [(ForOther, Rejected released_error)]) s)
    end in (closed, s1)) = (closed, set_promises P s)).
  { destruct (state (strm s)); [|eexists _, _; done..]. unfold reject.
    destruct (resolve_rest (closed_promise rd) (Rejected released_error) s) as [P ->]. eexists P, _. done. }
  destruct Hg as (P & closed & Hg). destruct (match state (strm s) with Readable => _ | _ => _ end) as [c s1] eqn:Hm.
  injection Hg as -> ->. clear Hm. set (s2 := set_readers _ _).
  assert (Hlt : i < length (readers s)) by (eapply lookup_lt_Some; done).
  assert (Hr2 : readers s2 !! i = Some (mkReader (r_kind rd) closed false (requests rd))).
  { cbn. unfold release_steps. destruct (pending _); cbn; apply list_lookup_insert_eq; done. }
  rewrite Hr2. unfold error_requests, error_steps. cbn [requests].
  match goal with |- context [foldl _ ?x ?l] => destruct (settle_all_only (Rejected (TypeError (str "Reader was released"))) l x) as [P' ->] end.
  exists P', closed. unfold s2, set_requests, released, release_steps. cbn. destruct (pending s); cbn; rewrite list_insert_insert_eq; done.
Qed.

(** Only the first of the pending descriptors is kept, without a reader. *)
Lemma core_release d V x s :
  core (d :: V) x s -> waiting ByobReader s = [] -> core [set_d_type TNone d] 0 s.
Proof.
  intros [] Hw. destruct (nodup_head d V s k_nodup) as (N1 & N2 & N3). apply NoDup_app in N3 as (N3 & _ & _). split; try done.
  - apply NoDup_app. split; [done|]. split; [|cbn; apply NoDup_singleton]. cbn. intros y Hy Hd. apply list_elem_of_singleton in Hd as ->. done.
  - intros d' Hd'. apply list_elem_of_singleton in Hd' as ->. apply (k_desc d). set_solver.
  - intros d' V' [= <- <-]. apply (k_head d V eq_refl).
  - intros d0 V' d' [= <- <-] Hd. set_solver.
  - intros k Hk. destruct (k_request k Hk) as (v & d' & V' & R1 & [= <- <-] & R3). exists v, (set_d_type TNone d), []. done.
  - intros Hc d' V' [= <- <-]. apply (k_closed Hc d V eq_refl).
  - intros e He. specialize (k_err e He). done.
  - rewrite Hw. done.
  - intros Ht. specialize (k_fifo Ht). unfold fifo in *. rewrite !filled_cons, (filled_tail d V s k_types) in *.
    change (filled [] s) with (@nil Z). change (filled_bytes (set_d_type TNone d) s) with (filled_bytes d s). exact k_fifo.
Qed.

(** The stream has no reader. *)
Lemma core_unlock V x i rd rd' s :
  core V x s -> readers s !! i = Some rd -> attached rd = true -> attached rd' = false -> requests rd' = [] -> r_kind rd' = r_kind rd ->
  core V (x + length (waiting ByobReader s)) (set_readers (<[i := rd']> (readers s)) (set_reader None s)).
Proof.
  intros [] Hi Ha Ha' Hrq Hk. set (s' := set_readers _ _). assert (Hw : forall k, waiting k s' = []) by done.
  assert (Hlt : i < length (readers s)) by (eapply lookup_lt_Some; done).
  split; try done.
  - intros j rdj Hj Haj. exfalso. cbn in Hj. destruct (decide (j = i)) as [->|Hne].
    + rewrite list_lookup_insert_eq in Hj by done. congruence.
    + rewrite list_lookup_insert_ne in Hj by done. pose proof (k_att j rdj Hj Haj). pose proof (k_att i rd Hi Ha). congruence.
  - intros j rdj Hj Haj. cbn in Hj. destruct (decide (j = i)) as [->|Hne].
    + rewrite list_lookup_insert_eq in Hj by done. congruence.
    + rewrite list_lookup_insert_ne in Hj by done. apply (k_old j rdj Hj Haj).
  - rewrite Hw, k_count. cbn. lia.
Qed.

(** From a state to one in which the reader may differ. *)
Definition stays (s s' : st) : Prop := inv s' ∧ moves s s'.

Lemma release_stays i s : inv s -> stays s (release_lock i s).
Proof.
  intros HI. unfold release_lock. destruct (readers s !! i) as [rd|] eqn:Hi; [|split; [done|apply moves_refl]].
  destruct (attached rd) eqn:Ha; [|split; [done|apply moves_refl]].
  destruct (release_rest i rd s Hi) as (P & closed & ->). set (rd' := mkReader (r_kind rd) closed false []).
  set (s1 := set_readers (<[i := rd']> (readers s)) (set_reader None s)).
  pose proof (core_unlock _ _ i rd rd' s (i_core _ HI) Hi Ha eq_refl eq_refl eq_refl) as HC. fold s1 in HC.
  assert (Hlt : i < length (readers s)) by (eapply lookup_lt_Some; done).
  assert (Hkd : kinds s s1).
  { intros j rdj Hj. cbn. destruct (decide (j = i)) as [->|Hne].
    - rewrite list_lookup_insert_eq by done. eexists. split; [done|]. cbn. congruence.
    - rewrite list_lookup_insert_ne by done. eauto. }
  assert (Hrel : released i rd closed s = match pending s with [] => s1 | d :: _ => set_pending [set_d_type TNone d] s1 end).
  { unfold released, release_steps. destruct (pending s); done. }
  assert (HC1 : core (pending (released i rd closed s)) 0 (released i rd closed s)).
  { rewrite Hrel. destruct (pending s) as [|d ds] eqn:Hp.
    - change (pending s1) with (pending s). rewrite Hp. destruct HC. split; done.
    - eapply core_same; [apply set_pending_same|]. eapply core_release; [exact HC|done]. }
  split.
  - split; change (pending (set_promises P ?x)) with (pending x).
    + eapply core_same; [|exact HC1]. repeat split.
    + rewrite Hrel. destruct (pending s) eqn:Hp; [change (pending s1) with (pending s); rewrite Hp; done|].
      intros _. apply (i_excl _ HI). rewrite Hp. done.
    + rewrite Hrel. destruct (pending s) eqn:Hp; [change (pending s1) with (pending s); rewrite Hp; set_solver|].
      intros d' Hd'. apply list_elem_of_singleton in Hd' as ->. apply (i_wait _ HI d). rewrite Hp. set_solver.
    + intros Hw. exfalso. apply Hw. rewrite Hrel. destruct (pending s); done.
  - rewrite Hrel. split.
    + destruct (pending s) as [|d ds] eqn:Hp.
      * change (pending (set_promises P s1)) with (pending s). rewrite Hp. apply frame_view; done.
      * split; [|done]. intros b data (I1 & I2 & I3 & I4). split; [done|]. split; [done|]. split; [done|]. cbn in I4 |- *. set_solver.
    + destruct (pending s); done.
    + destruct (pending s); exact Hkd.
Qed.

Lemma unlocked_waiting k s : reader (strm s) = None -> waiting k s = [].
Proof. intros H. unfold waiting, current, reader_at. rewrite H. done. Qed.

(** A new reader locks the stream. *)
Lemma lock_stays rd s :
  inv s -> reader (strm s) = None -> attached rd = true -> requests rd = [] ->
  stays s (set_reader (Some (length (readers s))) (set_readers (readers s ++ [rd]) s)).
Proof.
  intros HI Hn Ha Hrq. set (s' := set_reader _ _).
  assert (Hlook : readers s' !! length (readers s) = Some rd) by (cbn; rewrite lookup_app_r, Nat.sub_diag by done; done).
  assert (Hw : forall k, waiting k s' = []).
  { intros k. destruct (decide (k = r_kind rd)) as [->|Hne]; [rewrite <- Hrq; apply (waiting_at (length (readers s))); done|].
    apply (waiting_other (length (readers s)) rd); done. }
  assert (Hold : forall j rdj, readers s' !! j = Some rdj -> readers s !! j = Some rdj ∨ (j = length (readers s) ∧ rdj = rd)).
  { intros j rdj Hj. cbn in Hj. apply lookup_app_Some in Hj as [Hj|[Hle Hj]]; [left; done|right].
    destruct (j - length (readers s)) eqn:Hjj; [|done]. split; [lia|]. cbn in Hj. congruence. }
  split.
  - pose proof (i_core _ HI) as HC. pose proof (unlocked_waiting ByobReader s Hn) as Hwb. destruct HI. split; try done.
    + destruct HC. split; try done.
      * intros j rdj Hj Haj. destruct (Hold j rdj Hj) as [H|[-> ->]]; [|done]. specialize (k_att j rdj H Haj). congruence.
      * intros j [= <-]. exists rd. done.
      * intros j rdj Hj Haj. destruct (Hold j rdj Hj) as [H|[-> ->]]; [|congruence]. apply (k_old j rdj H Haj).
      * rewrite Hw. change (pending s') with (pending s). rewrite k_count, Hwb. done.
    + rewrite Hw. done.
  - split; [apply frame_view; done|done|]. intros j rdj Hj. exists rdj. split; [|done]. cbn. rewrite lookup_app_l; [done|].
    eapply lookup_lt_Some, Hj.
Qed.

Lemma stays_trans s1 s2 s3 : stays s1 s2 -> stays s2 s3 -> stays s1 s3.
Proof. intros [_ M1] [I2 M2]. split; [done|]. eapply moves_trans; done. Qed.

Lemma good_stays s s' : good s s' -> stays s s'.
Proof. intros (HI & HM & _). done. Qed.

Lemma set_up_reader_stays k s : inv s -> exists s', exec (set_up_reader k) s = Some s' ∧ stays s s'.
Proof.
  intros HI. unfold exec, set_up_reader, is_readable_stream_locked. rewrite bind_gets.
  destruct (reader (strm s)) as [i|] eqn:Hr; [eexists; split; [done|]; apply good_stays, good_refl; done|].
  assert (Hg : exists rp P, generic_initialize s = Some (Ok rp, set_promises P s)).
  { unfold generic_initialize. destruct (state (strm s)); [eexists _, _; done| |eexists _, _; done].
    eexists _, (promises s). destruct s; done. }
  destruct Hg as (rp & P & Hg). rewrite (bind_ok _ _ _ _ _ Hg), bind_gets, bind_modify. eexists. split; [done|].
  pose proof (good_promises P s HI) as HG. eapply stays_trans; [apply good_stays; exact HG|].
  apply lock_stays; [apply HG|done..].
Qed.

(** ** Calls *)

(** A read into a view of 16-bit floats: its minimum is not checked against the
    number of elements. *)
Definition float16_read (c : call) : bool :=
  match c with CByobRead _ v _ => bool_decide (v_kind v = F16Array) | _ => false end.

Definition changes_reader (c : call) : bool :=
  match c with CGetReader _ | CReleaseLock _ => true | _ => false end.

Definition quiet (c : call) : Prop := float16_read c = false ∧ changes_reader c = false.

Lemma fine_exec {A} (m : M A) s0 s : inv s0 -> good s0 s -> fine s (m s) -> exists s', exec m s = Some s' ∧ good s0 s'.
Proof.
  intros HI HG (r & s' & H & HG'). exists s'. unfold exec. rewrite H. split; [done|]. eapply good_trans; done.
Qed.

Lemma view_ok_given v s :
  inv s -> view_ok v s = true -> given v (note_reuse (v_buffer v) s) ∧ (element_size (v_kind v) | v_length v)%nat.
Proof.
  intros HI Hv. unfold view_ok in Hv. apply andb_prop in Hv as [Hv H3]. apply andb_prop in Hv as [H1 H2].
  apply bool_decide_eq_true in H1. unfold note_reuse at 1.
  destruct (note_view (touches_filled (v_buffer v) 0 (buffer_len (v_buffer v) s) s) s) as (E1 & E2 & E3 & _). split.
  - split; [rewrite E2; done|]. split; [apply note_reuse_untouched; done|]. intros data Hl. unfold live in Hl. rewrite E1 in Hl.
    unfold is_detached, buffer_len in H3. rewrite Hl in H3. apply Nat.leb_le in H3. exact H3.
  - apply mod_divide; [pose proof (element_size_pos (v_kind v)); lia|exact H2].
Qed.

Lemma view_ok_shared v s : view_ok v s = true -> v_buffer v ∈ shared s.
Proof. intros Hv. unfold view_ok in Hv. apply andb_prop in Hv as [Hv H3]. apply andb_prop in Hv as [H1 H2]. apply bool_decide_eq_true in H1. done. Qed.

Section Calls.
Context (source : list event -> list call) (ok : call -> Prop) (run : call -> st -> option st).
Hypothesis Hsource : forall l, Forall ok (source l).
Abbreviation ready s := (ready_to_pull ok run s).

Lemma call_good c s :
  ready s -> inv s -> quiet c -> exists s', run_call source run c s = Some s' ∧ good s s'.
Proof.
  intros Hrun HI [Hf Hc]. pose proof (good_refl s HI) as HR.
  assert (Hnote : forall b, good s (note_reuse b s)) by (intros b; apply good_note; done).
  assert (Hrn : forall b, ready (note_reuse b s)) by (intros b; eapply good_steady_pull; done).
  assert (Hin : forall b, inv (note_reuse b s)) by (intros b; apply (Hnote b)).
  assert (Hsh : forall b, b ∈ shared s -> b ∈ shared (note_reuse b s)).
  { intros b Hb. unfold note_reuse. destruct (note_view (touches_filled b 0 (buffer_len b s) s) s) as (_ & -> & _). done. }
  assert (Hsame : exists s', Some s = Some s' ∧ good s s') by (exists s; done).
  destruct c as [data|b o data|b|v|b|data| | |e| |k n|k v|k|i|i v min|i|reason|i reason]; cbn [run_call].
  - apply new_buffer_good. done.
  - destruct (buffers s !! b) as [[old|]|] eqn:Hl; [|done..].
    destruct (bool_decide_reflect (b ∈ shared s)) as [Hs|]; [|done]. cbn [andb].
    destruct (Nat.leb_spec (o + length data) (length old)) as [Hle|]; [|done].
    eexists. split; [done|]. apply write_good; done.
  - destruct (bool_decide_reflect (b ∈ shared s)) as [Hs|]; [|done].
    destruct (transfer_call_good b (note_reuse b s)) as (s' & Hs' & HG); [done|apply Hsh; done|apply note_reuse_untouched; done|].
    exists s'. split; [done|]. eapply good_trans; [done|apply (Hnote b)|done].
  - destruct (view_ok v s) eqn:Hv; [|done]. destruct (view_ok_given v s HI Hv) as [HV _].
    apply fine_exec; [done..|]. eapply enqueue_fine; done.
  - destruct (bool_decide_reflect (b ∈ shared s)) as [Hs|]; [|done].
    apply fine_exec; [done..|]. eapply enqueue_bytes_fine; try done.
    + apply Hsh. done.
    + apply note_reuse_untouched; done.
  - destruct (fresh_good data s HI) as [HG Hiso]. apply fine_exec; [done..|].
    eapply (enqueue_borrowed_fine source ok run Hsource s); [done|done|exact HG|done|done|exact Hiso|done].
  - apply fine_exec; [done..|]. unfold close. destruct (close_requested (ctrl s)); [apply fine_refl; done|].
    destruct (negb (is_readable s)); [apply fine_refl; done|]. apply controller_close_fine. done.
  - apply fine_exec; [done..|]. apply controller_close_fine. done.
  - eexists. split; [done|]. apply controller_error_good. done.
  - apply fine_exec; [done..|]. apply byob_request_getter_fine. done.
  - destruct (Z.leb_spec 0 n); [|done]. destruct (n <? 2 ^ 64)%Z; [|done]. apply fine_exec; [done..|]. eapply respond_fine; done.
  - destruct (view_ok v s) eqn:Hv; [|done]. apply fine_exec; [done..|]. eapply respond_with_new_view_fine; [done..|].
    apply view_ok_shared. done.
  - done.
  - apply fine_exec; [done..|]. eapply read_fine; done.
  - destruct (view_ok v s) eqn:Hv; [|done]. destruct (view_ok_given v s HI Hv) as [HV Hdv].
    apply fine_exec; [done..|]. eapply byob_read_fine; try done. cbn in Hf. apply bool_decide_eq_false in Hf. exact Hf.
  - done.
  - apply fine_exec; [done..|]. apply cancel_call_fine. done.
  - apply fine_exec; [done..|]. apply reader_cancel_fine. done.
Qed.

Lemma call_stays c s :
  ready s -> inv s -> float16_read c = false -> exists s', run_call source run c s = Some s' ∧ stays s s'.
Proof.
  intros Hrun HI Hf. destruct (changes_reader c) eqn:Hc.
  - destruct c; try done; cbn [run_call].
    + apply set_up_reader_stays. done.
    + eexists. split; [done|]. apply release_stays. done.
  - destruct (call_good c s Hrun HI (conj Hf Hc)) as (s' & Hs' & HG). exists s'. split; [done|]. apply good_stays. done.
Qed.
End Calls.

(** ** Jobs and sequences of actions *)

Definition action_ok (a : action) : Prop := match a with ACall c => float16_read c = false | _ => True end.

(** The source's [pull] does not change the reader and does not read 16-bit
    floats. *)
Definition source_ok (source : list event -> list call) : Prop := forall l, Forall quiet (source l).

Lemma inv_same s s' : inv s -> same s s' -> pending s' = pending s -> inv s'.
Proof.
  intros HI HS Hp. destruct (good_same s (set_pulling true s')) as [HG _]; [done|exact HS|exact Hp|done|].
  destruct HG. split; try done. eapply core_same; [|exact i_core]. repeat split.
Qed.

Section Actions.
Context (source : list event -> list call).
Hypothesis Hsource : source_ok source.

Lemma inner_runs : runs quiet (inner_call source).
Proof.
  intros c s Hc HI Hp. apply (call_good source quiet (fun _ _ => None) Hsource); [left; done|done|done].
Qed.

Lemma outer_ready s : ready_to_pull quiet (inner_call source) s.
Proof. right. exact inner_runs. Qed.

Lemma pull_inv r s : inv s -> exists s', exec (call_pull_if_needed source (inner_call source) r) s = Some s' ∧ inv s'.
Proof.
  intros HI. destruct (call_pull_fine source quiet (inner_call source) Hsource r s (outer_ready s) HI) as (s' & Hs' & HG & _).
  exists s'. unfold exec. rewrite Hs'. split; [done|apply HG].
Qed.

Lemma react_inv r rejection s : inv s -> exists s', react source r rejection s = Some s' ∧ inv s'.
Proof.
  intros HI. destruct r as [| |p], rejection as [e|]; cbn [react on_start on_pull on_cancel].
  - eexists. split; [done|]. apply controller_error_good. done.
  - apply pull_inv. apply (inv_same s); [done|repeat split|done].
  - eexists. split; [done|]. apply controller_error_good. done.
  - destruct (pull_again (ctrl (set_pulling false s))).
    + apply pull_inv. apply (inv_same s); [done|repeat split|done].
    + eexists. split; [done|]. apply (inv_same s); [done|repeat split|done].
  - eexists. split; [done|]. apply good_settle. done.
  - eexists. split; [done|]. apply good_settle. done.
Qed.

Lemma act_inv a s : inv s -> action_ok a -> exists s', act source a s = Some s' ∧ inv s'.
Proof.
  intros HI Ha. destruct a as [c|p rejection|i]; cbn [act].
  - destruct (call_stays source quiet (inner_call source) Hsource c s (outer_ready s) HI Ha) as (s' & Hs' & HS). exists s'. split; [done|apply HS].
  - eexists. split; [done|]. unfold settle_source. destruct (promises s !! p) as [[[] ?]|]; try done. apply good_settle. done.
  - unfold run_job. destruct (reactions s !! i) as [[p r]|]; [|eauto].
    assert (HI' : inv (set_reactions (delete i (reactions s)) s)) by (apply (inv_same s); [done|repeat split|done]).
    destruct (promises s !! p) as [[k [|v|v]]|]; eauto using react_inv.
Qed.

Lemma acts_inv l : forall s, inv s -> Forall action_ok l -> exists s', acts source l s = Some s' ∧ inv s'.
Proof.
  induction l as [|a l IH]; intros s HI Hl; [eauto|]. apply Forall_cons in Hl as [Ha Hl].
  destruct (act_inv a s HI Ha) as (s1 & H1 & HI1). destruct (IH s1 HI1 Hl) as (s2 & H2 & HI2).
  exists s2. cbn. rewrite H1. done.
Qed.
End Actions.

Lemma set_up_inv hwm : inv (set_up_controller hwm None).
Proof.
  split; try done; [|set_solver]. split; try done; try set_solver.
  - constructor.
Qed.

(** C11: A byte stream never panics and its loops end: every sequence of calls
    of the program (enqueues, reads into views, responses to BYOB requests,
    writes to and transfers of its buffers, cancellation, readers that come and
    go), of settlements by the source and of jobs runs to its end, when chunks
    are not allocated by the stream, the source's pull does not change the
    reader, and no read is into a view of 16-bit floats. *)
Theorem byte_stream_never_panics source hwm l :
  source_ok source -> Forall action_ok l -> exists s, acts source l (set_up_controller hwm None) = Some s.
Proof.
  intros Hs Hl. destruct (acts_inv source Hs l _ (set_up_inv hwm) Hl) as (s & H & _). exists s. exact H.
Qed.


(** C13: The memory of a byte stream is safe in every state that it reaches,
    when it does not allocate chunks ([set_up_controller hwm None]; see
    [stale_session]), the source's pull does not change the reader and no read
    is into a view of 16-bit floats: every chunk of the queue lies in a live
    buffer of which the program has no handle (a chunk that is enqueued
    without a transfer has a handle of its own on its storage), and the size
    of the queue is the sum of its chunks; no buffer is used twice; every
    pending view lies in its buffer, holds no more than its length and fewer
    bytes than its minimum; and while views are pending the queue is empty and
    every waiting read into a view has its descriptor. *)
Theorem byte_stream_memory source hwm l s :
  source_ok source -> Forall action_ok l -> acts source l (set_up_controller hwm None) = Some s ->
  let pending := pending_pull_intos (ctrl s) in
  (forall e, e ∈ queue (ctrl s) -> (e_buffer e ∉ shared s) ∧ e_offset e + e_length e <= buffer_len (e_buffer e) s) ∧
  queue_total_size (ctrl s) = sum_list (e_length <$> queue (ctrl s)) ∧
  NoDup ((e_buffer <$> queue (ctrl s)) ++ (d_buffer <$> pending)) ∧
  (forall d, d ∈ pending -> d_offset d + d_length d <= buffer_byte_length d ∧ bytes_filled d < minimum_fill d <= d_length d ∧
    (is_detached (d_buffer d) s = false -> buffer_len (d_buffer d) s = buffer_byte_length d)) ∧
  (pending <> [] -> queue (ctrl s) = []) ∧
  byob_count pending = length (waiting ByobReader s).
Proof.
  intros Hs Hl Ha pending. destruct (acts_inv source Hs l _ (set_up_inv hwm) Hl) as (s' & H & HI). assert (s' = s) as -> by congruence.
  pose proof (i_core _ HI) as HC. split; [|split; [apply HC|split; [apply HC|split; [|split; [apply (i_excl _ HI)|apply HC]]]]].
  - intros e He. destruct (k_queue _ _ _ HC e He) as (_ & E2 & data & E3 & E4). split; [done|]. unfold buffer_len. rewrite E3. done.
  - intros d Hd. destruct (k_desc _ _ _ HC d Hd) as (D1 & D2 & D3 & _). pose proof (i_wait _ HI d Hd) as Hw. split; [done|]. split; [lia|].
    intros Hdet. subst pending. destruct (pending_pull_intos (ctrl s)) as [|d0 ds] eqn:Hp; [set_solver|].
    assert (Hbk : backed s d).
    { apply elem_of_cons in Hd as [->|Hd]; [|apply (k_tail _ _ _ HC d0 ds d eq_refl Hd)].
      destruct (k_head _ _ _ HC d0 ds eq_refl) as [Hb|[_ Hn]]; [done|]. unfold is_detached in Hdet. rewrite Hn in Hdet. done. }
    destruct Hbk as (data & Hl' & Hlen). unfold buffer_len. rewrite Hl'. done.
Qed.

(** ** A session *)

Definition pull_count (l : list event) : nat := sum_list_with (fun e => match e with SourcePull => 1 | _ => 0 end) l.

(** A source that answers its first pull through the BYOB request, and its
    second with a chunk. *)
Definition filling (l : list event) : list call :=
  match pull_count l with
  | 1 => [CByobRequest; CWrite 1 0 [11; 12; 13]%Z; CRespond 0 3]
  | 2 => [CNewBuffer [14; 15]%Z; CEnqueue (mkView U8Array 6 0 2)]
  | _ => []
  end.

Lemma filling_ok : source_ok filling.
Proof. intros l. unfold filling. destruct (pull_count l) as [|[|[|n]]]; repeat constructor. Qed.

Definition opening : list action := [ASettle 1 None; AJob 0].

(** Two reads, of 16-bit and of 32-bit integers. *)
Definition session : list action := opening ++
  [ACall (CNewBuffer [0; 0; 0; 0]%Z); ACall (CGetReader ByobReader);
   ACall (CByobRead 0 (mkView U16Array 0 0 4) None); ASettle 4 None; AJob 0;
   ACall (CByobRead 0 (mkView U32Array 4 0 4) None)].

Lemma session_ok : Forall action_ok session.
Proof. repeat constructor. Qed.

Definition after_session : st :=
  match acts filling session (set_up_controller zero None) with Some s => s | None => set_up_controller zero None end.

Lemma session_runs : acts filling session (set_up_controller zero None) = Some after_session.
Proof. vm_compute. reflexivity. Qed.


Lemma byte_stream_never_panics_witness : exists s, acts filling session (set_up_controller zero None) = Some s.
Proof. apply (byte_stream_never_panics filling zero session filling_ok session_ok). Defined.


Lemma byte_stream_memory_witness :
  byob_count (pending_pull_intos (ctrl after_session)) = length (waiting ByobReader after_session) ∧
  waiting ByobReader after_session = [5].
Proof.
  destruct (byte_stream_memory filling zero session after_session filling_ok session_ok session_runs) as (_ & _ & _ & _ & _ & H).
  split; [exact H|]. vm_compute. reflexivity.
Defined.

(** ** What the conditions exclude *)

(** A descriptor that is full and yet below its minimum stays first for ever. *)
Lemma full_below_minimum fuel r : forall d ds s,
  pending s = d :: ds -> bytes_filled d = d_length d -> d_length d < minimum_fill d -> 0 < queue_total_size (ctrl s) ->
  process_pull_into_loop fuel r s = None.
Proof.
  induction fuel as [|fuel IH]; intros d ds s Hp Hf Hm Hq; [done|]. cbn [process_pull_into_loop]. rewrite !bind_gets, Hp.
  destruct (Nat.eqb_spec (queue_total_size (ctrl s)) 0) as [H0|_]; [lia|].
  assert (Hb : bytes_to_fill (queue_total_size (ctrl s)) d = Some (0, false)).
  { unfold bytes_to_fill. rewrite usize_sub_Some by lia. rewrite Hf, Nat.sub_diag, Nat.min_0_r, Nat.add_0_r.
    pose proof (Nat.le_sub_l (d_length d) (d_length d mod d_element_size d)).
    destruct (Nat.leb_spec (minimum_fill d) (d_length d - d_length d mod d_element_size d)); [lia|done]. }
  unfold fill_pull_into_descriptor_from_queue. unfold bind at 1. rewrite bind_gets. erewrite bind_ok by (unfold expect; rewrite Hb; done).
  cbn [fill_loop]. unfold bind at 1. cbn [ret]. rewrite bind_modify. unfold bind at 1. cbn [ret].
  apply (IH d ds); done.
Qed.

(** The minimum of a read into a view of 16-bit floats is not compared with
    its length: a read of one element that asks for two never ends once bytes
    come. *)
Definition float16_session : list action := opening ++
  [ACall (CNewBuffer [0; 0]%Z); ACall (CGetReader ByobReader);
   ACall (CByobRead 0 (mkView F16Array 0 0 2) (Some (of_Z 2))); ACall (CNewBuffer [1; 2; 3]%Z)].

Theorem float16_minimum_unchecked :
  exists s d, acts (fun _ => []) float16_session (set_up_controller zero None) = Some s ∧
    pending_pull_intos (ctrl s) = [d] ∧ d_length d < minimum_fill d ∧
    act (fun _ => []) (ACall (CEnqueue (mkView U8Array 2 0 3))) s = None.
Proof. eexists _, _. split; [vm_compute; reflexivity|]. split; [reflexivity|]. split; [cbn; lia|]. vm_compute. reflexivity. Qed.

(** With chunks that the stream allocates, a descriptor of a default reader
    can stay first after its read was answered from a chunk: the response to
    the BYOB request for it finds no read. *)
Definition stale_session : list action := opening ++
  [ACall (CNewBuffer [0; 0]%Z); ACall (CGetReader ByobReader); ACall (CByobRead 0 (mkView U16Array 0 0 2) None);
   ACall CByobRequest; ACall (CRespond 0 1); ACall (CReleaseLock 0); ACall (CGetReader DefaultReader); ACall (CRead 1);
   ACall (CNewBuffer [7; 8]%Z); ACall (CEnqueue (mkView U8Array 4 0 2)); ACall CByobRequest].

Theorem stale_descriptor_panics :
  exists s, acts (fun _ => []) stale_session (set_up_controller zero (Some 4)) = Some s ∧ waiting DefaultReader s = [] ∧
    act (fun _ => []) (ACall (CRespond 1 1)) s = None.
Proof. eexists. split; [vm_compute; reflexivity|]. split; vm_compute; reflexivity. Qed.

(** Two of the three bytes that a read waits for have come; a response with
    2^64 - 1 passes the test of its range, and the second byte is lost. *)
Definition wrapping_session : list action := opening ++
  [ACall (CNewBuffer [0; 0; 0; 0]%Z); ACall (CGetReader ByobReader);
   ACall (CByobRead 0 (mkView U8Array 0 0 4) (Some (of_Z 3))); ACall CByobRequest; ACall (CWrite 1 0 [11; 12]%Z);
   ACall (CRespond 0 2); ACall CByobRequest; ACall (CRespond 1 (2 ^ 64 - 1))].

Theorem response_wraps :
  exists s d, acts (fun _ => []) wrapping_session (set_up_controller zero None) = Some s ∧
    accepted (log s) = [11; 12]%Z ∧ pending_pull_intos (ctrl s) = [d] ∧ bytes_filled d = 1 ∧ filled [d] s = [11]%Z ∧ queued s = [].
Proof. eexists _, _. split; [vm_compute; reflexivity|]. repeat (split; [vm_compute; reflexivity|]). vm_compute. reflexivity. Qed.

(** A chunk of a Blob is queued without a transfer and read. *)
Example borrowed_chunk :
  option_map log (acts (fun _ => []) (opening ++ [ACall (CEnqueueBorrowed [1; 2]%Z); ACall CCloseStream;
    ACall (CGetReader DefaultReader); ACall (CRead 0)]) (set_up_controller zero None)) =
    Some [Accepted [1; 2]%Z; ReadCall 3; Taken 3 [1; 2]%Z; Delivered 3 [1; 2]%Z].
Proof. vm_compute. reflexivity. Qed.
