(* ===== verification/Logging.v ===== *)
(** * Formatting of values (src/libs/llrt_logging/src/lib.rs)

    What [console.log] prints: format strings and values, with nesting,
    indentation and colors.  Objects and promises live in a heap and are named
    by their address; what reading an object gives is part of the heap, and a
    read can throw.  The engine's conversions are parameters, and [%j] calls
    [JsonStringify] on the same addresses.

    Functions are in a monad [W] that writes to the result string and keeps the
    set of visited objects; [None] is a panic of the Rust code, undefined
    behaviour of an unchecked unwrap, or a recursion that needs more fuel (one
    unit per nesting level).  Two objects are taken to have different hashes. *)
From Stdlib Require Import ZArith Lia SpecFloat.
From stdpp Require Import base list numbers strings relations.
From S2P Require Import Prelude F64 Utf8 Js RustStr Numbers JsonStringify.
Local Open Scope Z_scope.

(** ** Values *)

Record function := mkFunction {
  (** the property [name], when it is a string *)
  fn_name : option (list Z);
  (** whether [prototype] is writable, when there is such a property *)
  fn_prototype : option (result js_error bool);
}.

Inductive value : Type :=
| Undefined
| Null
| Bool (b : bool)
| Int (n : Z)
| Float (f : f64)
| BigInt (n : Z)
(** the text, and whether lone surrogates were replaced in it *)
| Str (s : list Z) (lone : bool)
(** the description, if there is one *)
| Sym (description : option (list Z))
| Fun (f : function)
| Promise (i : nat)
| Obj (i : nat).

Inductive promise_state : Type := Pending | Resolved (v : value) | Rejected (v : value).

(** [Type::Array], [Object], [Exception] and [Proxy]. *)
Inductive object_type : Type := TypeArray | TypeObject | TypeException | TypeProxy.

Record error_info := mkError {
  e_name : result js_error (list Z);
  e_message : result js_error (list Z);
  (** the stack, when it is a string *)
  e_stack : option (list Z);
}.

(** A prototype other than that of [Object]: its own keys with the filter for
    all keys and with the default filter; [None] is a key that is no string. *)
Record prototype := mkPrototype {
  all_own_keys : list (option (list Z));
  default_own_keys : list (option (list Z));
}.

Record object := mkObject {
  o_type : object_type;
  (** what reading an error gives, for [is_error] *)
  o_error : option error_info;
  (** [get_class_name] *)
  o_class_name : result js_error (option (list Z));
  (** [toISOString], when it is a function, called on the object *)
  o_iso : option (result js_error (list Z));
  o_source : result js_error (list Z);
  o_flags : result js_error (list Z);
  o_is_array : bool;
  (** the object under the symbol for custom inspection *)
  o_inspect : option nat;
  (** [obj.keys()] *)
  o_keys : list (option (list Z));
  (** [Object.keys(obj)], if it returns strings *)
  o_object_keys : option (list (list Z));
  o_proto : option prototype;
  o_get : list Z -> result js_error value;
}.

(** ** Colors and options *)

Inductive Color : Type := RESET | BOLD | BLACK | RED | GREEN | YELLOW | BLUE | MAGENTA | CYAN | WHITE.

Definition color_code (c : Color) : list Z :=
  [27] ++ str (match c with
               | RESET => "[0m" | BOLD => "[1m" | BLACK => "[30m" | RED => "[31m" | GREEN => "[32m"
               | YELLOW => "[33m" | BLUE => "[34m" | MAGENTA => "[35m" | CYAN => "[36m" | WHITE => "[37m"
               end).

(** [all_keys] says which filter [object_filter] is. *)
Record FormatOptions := mkOptions { color : bool; newline : bool; all_keys : bool }.

Definition set_color (c : bool) (o : FormatOptions) : FormatOptions := mkOptions c (newline o) (all_keys o).
Definition set_filter (f : bool) (o : FormatOptions) : FormatOptions := mkOptions (color o) (newline o) f.

Definition MAX_INDENTATION_LEVEL : nat := 4.
Definition MAX_EXPANSION_DEPTH : nat := 4.
Definition CIRCULAR : list Z := str "[Circular]".

Definition INDENTATION_LOOKUP : list (list Z) :=
  [[]; str "  "; str "    "; str "        "; str "                "].

(** ** The monad *)

Abbreviation W A := (list nat -> option (result js_error (A * list Z * list nat))).

Definition ret {A} (a : A) : W A := fun vs => Some (Ok (a, [], vs)).

Definition panic {A} : W A := fun _ => None.

Definition lift {A} (r : result js_error A) : W A := fun vs =>
  match r with Ok a => Some (Ok (a, [], vs)) | Err e => Some (Err e) end.

Definition push (bs : list Z) : W unit := fun vs => Some (Ok (tt, bs, vs)).

Definition bind {A B} (m : W A) (k : A -> W B) : W B := fun vs =>
  match m vs with
  | None => None
  | Some (Err e) => Some (Err e)
  | Some (Ok (a, bs, vs)) =>
      match k a vs with
      | None => None
      | Some (Err e) => Some (Err e)
      | Some (Ok (b, bs', vs)) => Some (Ok (b, bs ++ bs', vs))
      end
  end.

Definition expect {A} (o : option A) : W A := match o with Some a => ret a | None => panic end.

Notation "'let^' x ':=' m 'in' k" := (bind m (fun x => k))
  (at level 10, x pattern, m at level 100, k at level 200,
   format "'[v' 'let^'  x  ':='  m  'in' '/' k ']'") : llrt_scope.

(** Whether an object was visited before; it is visited then. *)
Definition visit (i : nat) : W bool := fun vs =>
  if bool_decide (i ∈ vs) then Some (Ok (true, [], vs)) else Some (Ok (false, [], i :: vs)).

(** ** Parts *)

Definition push_color (enabled : bool) (c : Color) : W unit := if enabled then push (color_code c) else ret tt.

Definition line_end (newline : bool) : list Z := if newline then [10] else [13].

Definition write_sep (add_comma has_indentation newline : bool) : W unit :=
  push ((if add_comma then [44] else []) ++ (if has_indentation then line_end newline else [32])).

(** An index past the table panics. *)
Definition push_indentation (depth : nat) : W unit :=
  let^ s := expect (INDENTATION_LOOKUP !! depth) in
  push s.

Definition format_raw_string_inner (s : list Z) (quoted color_enabled : bool) : W unit :=
  let^ _ := if quoted then
              let^ _ := push_color color_enabled GREEN in
              push [39]
            else ret tt in
  let^ _ := push s in
  if quoted then push [39] else ret tt.

(** Rust's [f64::from_str]: whether a string is a number. *)
Definition is_digit (b : Z) : bool := in_range 48 57 b.

Definition all_digits (s : list Z) : bool := forallb is_digit s.

(** What follows the exponent's letter. *)
Definition exponent_ok (s : list Z) : bool :=
  let s := match s with 43 :: s | 45 :: s => s | _ => s end in
  negb (bool_decide (s = [])) && all_digits s.

(** The digits of a mantissa, with at most one point, up to an exponent. *)
Fixpoint mantissa_ok (seen_digit seen_point : bool) (s : list Z) : bool :=
  match s with
  | [] => seen_digit
  | b :: s =>
      if is_digit b then mantissa_ok true seen_point s
      else if (b =? 46) && negb seen_point then mantissa_ok seen_digit true s
      else if ((b =? 101) || (b =? 69)) && seen_digit then exponent_ok s
      else false
  end.

Definition parses_as_f64 (s : list Z) : bool :=
  let s := match s with 43 :: s | 45 :: s => s | _ => s end in
  mantissa_ok false false s || eq_ignore_ascii_case s (str "inf") || eq_ignore_ascii_case s (str "infinity") ||
  eq_ignore_ascii_case s (str "nan").

Definition TYPED_ARRAYS : list (list Z) :=
  str <$> ["Int8Array"; "Uint8Array"; "Uint8ClampedArray"; "Int16Array"; "Uint16Array"; "Int32Array"; "Uint32Array";
           "Int64Array"; "Uint64Array"; "Float32Array"; "Float64Array"; "Buffer"]%string.

(** The name of the class to print. *)
Definition shown_class (name : option (list Z)) : option (list Z) :=
  match name with
  | Some n => if bool_decide (n = []) || bool_decide (n = str "Object") then None else Some n
  | None => None
  end.

Section Format.
(** [itoa] and [ryu] on the bits of a finite number, and [BigInt::to_i64]. *)
Context (itoa ryu : Z -> list Z) (to_i64 : Z -> option Z).
Context (heap : nat -> object) (promises : nat -> promise_state).

Section Members.
(** [format_raw_inner] at one level deeper. *)
Variable format_value : value -> W unit.

Definition is_function (v : value) : bool := match v with Fun _ => true | _ => false end.

(** A key and its value, or an element. *)
Definition write_entry (o : FormatOptions) (depth : nat) (is_array apply_indentation first : bool) (key : list Z) (v : value) : W unit :=
  let numeric_key := parses_as_f64 key in
  let^ _ := write_sep first apply_indentation (newline o) in
  let^ _ := if apply_indentation then push_indentation (S depth) else ret tt in
  let^ _ := if (MAX_INDENTATION_LEVEL - 1 <? depth)%nat then push [32] else ret tt in
  let^ _ :=
    if is_array then ret tt
    else
      let^ _ := format_raw_string_inner key numeric_key (numeric_key && color o) in
      let^ _ := push_color (numeric_key && color o) RESET in
      push (str ": ") in
  format_value v.

(** The loop over the keys from index [i] on; [length] is their number. *)
Fixpoint write_entries (o : FormatOptions) (ob : object) (depth : nat) (is_array apply_indentation filter_functions : bool)
    (len : nat) (keys : list (list Z)) (i : nat) (first : bool) : W bool :=
  match keys with
  | [] => ret first
  | key :: keys =>
      let^ v := lift (o_get ob key) in
      if is_function v && filter_functions
      then write_entries o ob depth is_array apply_indentation filter_functions len keys (S i) first
      else
        let^ _ := write_entry o depth is_array apply_indentation first key v in
        if (99 <? i)%nat then
          let^ _ := push (str "... " ++ itoa (Z.of_nat (len - i)) ++ str " more items") in
          ret true
        else write_entries o ob depth is_array apply_indentation filter_functions len keys (S i) true
  end.

(** The end of an object that had entries. *)
Definition write_close (o : FormatOptions) (depth : nat) (apply_indentation first : bool) : W unit :=
  if first then
    if apply_indentation then
      let^ _ := push (line_end (newline o)) in
      push_indentation depth
    else push [32]
  else ret tt.

(** The keys that are printed, and whether functions are left out: the own
    keys, or those of [Object.keys] for a proxy, or those of the prototype. *)
Definition object_keys (o : FormatOptions) (ob : object) (is_array : bool) : list (option (list Z)) * bool :=
  if negb is_array && (length (o_keys ob) =? 0)%nat then
    match o_object_keys ob with
    | Some (k :: ks) => (Some <$> (k :: ks), false)
    | _ =>
        match o_proto ob with
        | Some p => (if all_keys o then all_own_keys p else default_own_keys p, true)
        | None => (o_keys ob, false)
        end
    end
  else (o_keys ob, false).

Definition write_object (o : FormatOptions) (ob : object) (depth : nat) (is_array : bool) : W unit :=
  let^ _ := push (if is_array then [91] else [123]) in
  let (keys, filter_functions) := object_keys o ob is_array in
  let apply_indentation := negb is_array && (depth <? 2)%nat in
  let^ first := write_entries o ob depth is_array apply_indentation filter_functions (length keys) (omap id keys) 0 false in
  let^ _ := write_close o depth apply_indentation first in
  push (if is_array then [93] else [125]).

(** A promise with its result. *)
Definition format_promise (o : FormatOptions) (s : promise_state) (depth : nat) : W unit :=
  let is_pending := match s with Pending => true | _ => false end in
  let apply_indentation := (depth <? 2)%nat && negb is_pending in
  let^ _ := push (str "Promise {") in
  let^ _ := write_sep false apply_indentation (newline o) in
  let^ _ := if apply_indentation then push_indentation (S depth) else ret tt in
  let^ _ :=
    match s with
    | Pending =>
        let^ _ := push_color (color o) CYAN in
        let^ _ := push (str "<pending>") in
        push_color (color o) RESET
    | Resolved v => format_value v
    | Rejected v =>
        let^ _ := push_color (color o) RED in
        let^ _ := push (str "<rejected> ") in
        let^ _ := push_color (color o) RESET in
        format_value v
    end in
  let^ _ := write_sep false apply_indentation (newline o) in
  let^ _ := if apply_indentation then push_indentation depth else ret tt in
  push [125].

Fixpoint push_stack (o : FormatOptions) (depth : nat) (lines : list (list Z)) : W unit :=
  match lines with
  | [] => ret tt
  | line :: lines =>
      let^ _ := push (line_end (newline o)) in
      let^ _ := push_indentation (S depth) in
      let^ _ := push line in
      push_stack o depth lines
  end.

Definition format_error (o : FormatOptions) (e : error_info) (depth : nat) : W unit :=
  let^ name := lift (e_name e) in
  let^ message := lift (e_message e) in
  let^ _ := push name in
  let^ _ := push (str ": ") in
  let^ _ := push message in
  let^ _ := push_color (color o) BLACK in
  let^ _ :=
    match e_stack e with
    | Some stack => push_stack o depth (split_on 10 (trim stack))
    | None => ret tt
    end in
  push_color (color o) RESET.

Definition is_type_object (t : object_type) : bool := match t with TypeObject => true | _ => false end.

(** An object that is not a date or a regular expression; [class_name] is the
    class to print. *)
Definition format_members (o : FormatOptions) (ob : object) (class_name : option (list Z)) (depth : nat) : W unit :=
  if (depth <? MAX_EXPANSION_DEPTH)%nat then
    let^ is_typed_array :=
      match class_name with
      | Some n =>
          let^ _ := push (n ++ [32]) in
          ret (bool_decide (n ∈ TYPED_ARRAYS))
      | None => ret false
      end in
    let is_array := is_typed_array || o_is_array ob in
    match o_inspect ob with
    | Some j => write_object o (heap j) depth is_array
    | None =>
        let^ _ := write_object o ob depth is_array in
        push_color (color o) RESET
    end
  else
    let^ _ := push_color (color o) CYAN in
    let^ _ := push (if is_type_object (o_type ob) then str "[Object]" else str "[Array]") in
    push_color (color o) RESET.

Definition format_object (o : FormatOptions) (i : nat) (depth : nat) : W unit :=
  let ob := heap i in
  let^ visited := visit i in
  if visited then
    let^ _ := push_color (color o) CYAN in
    let^ _ := push CIRCULAR in
    push_color (color o) RESET
  else
    match o_error ob with
    | Some e => format_error o e depth
    | None =>
        if is_type_object (o_type ob) then
          let^ name := lift (o_class_name ob) in
          if bool_decide (name = Some (str "Date")) then
            let^ _ := push_color (color o) MAGENTA in
            let^ iso := expect (o_iso ob) in
            let^ s := lift iso in
            let^ _ := push s in
            push_color (color o) RESET
          else if bool_decide (name = Some (str "RegExp")) then
            let^ _ := push_color (color o) RED in
            let^ source := lift (o_source ob) in
            let^ flags := lift (o_flags ob) in
            let^ _ := push (str "/" ++ source ++ str "/" ++ flags) in
            push_color (color o) RESET
          else format_members o ob (shown_class name) depth
        else format_members o ob None depth
    end.

Definition ANONYMOUS : list Z := str "(anonymous)".

Definition format_function (o : FormatOptions) (f : function) : W unit :=
  let name := default [] (fn_name f) in
  let name := if bool_decide (name = []) then ANONYMOUS else name in
  let^ is_class :=
    match fn_prototype f with
    | Some w =>
        let^ writable := lift w in
        ret (negb writable)
    | None => ret false
    end in
  push ((if is_class then str "[class: " else str "[function: ") ++ name ++ str "]").

(** The values that are not nested. *)
Definition format_scalar (o : FormatOptions) (v : value) (is_root : bool) : W unit :=
  match v with
  | Null =>
      let^ _ := push_color (color o) BOLD in
      push (str "null")
  | Undefined =>
      let^ _ := push_color (color o) BLACK in
      push (str "undefined")
  | Bool b =>
      let^ _ := push_color (color o) YELLOW in
      push (if b then str "true" else str "false")
  | BigInt n =>
      let^ _ := push_color (color o) YELLOW in
      let^ n := expect (to_i64 n) in
      push (itoa n ++ str "n")
  | Int n =>
      let^ _ := push_color (color o) YELLOW in
      push (itoa n)
  | Float f =>
      let^ _ := push_color (color o) YELLOW in
      let^ s := expect (float_to_string (fun f => ryu (to_bits f)) f) in
      push s
  | Str s _ => format_raw_string_inner s (negb is_root) (color o)
  | Sym description =>
      let^ _ := push_color (color o) YELLOW in
      let^ d := expect description in
      push (str "Symbol(" ++ d ++ str ")")
  | Fun f =>
      let^ _ := push_color (color o) CYAN in
      format_function o f
  | _ => ret tt
  end.
End Members.

Fixpoint format_raw_inner (fuel : nat) (o : FormatOptions) (depth : nat) (v : value) : W unit :=
  match fuel with
  | O => panic
  | S fuel =>
      match v with
      | Promise i => format_promise (format_raw_inner fuel o (S depth)) o (promises i) depth
      | Obj i => format_object (format_raw_inner fuel o (S depth)) o i depth
      | _ =>
          let^ _ := format_scalar o v (depth =? 0)%nat in
          push_color (color o) RESET
      end
  end.

(** A new set of visited objects for every value. *)
Definition format_raw (fuel : nat) (o : FormatOptions) (v : value) : W unit := fun vs =>
  match format_raw_inner fuel o 0 v [] with
  | None => None
  | Some (Err e) => Some (Err e)
  | Some (Ok (_, bs, _)) => Some (Ok (tt, bs, vs))
  end.

(** ** Format strings *)

(** The engine's [String], [Number], [parseInt] and [parseFloat], and what
    reading the objects as JSON gives. *)
Context (to_string : value -> result js_error (list Z)) (number_function parse_int parse_float : value -> result js_error value).
Context (json_heap : nat -> node).

(** Promises are the even addresses of the JSON heap and objects the odd ones. *)
Definition json_value (v : value) : JsonStringify.value :=
  match v with
  | Undefined => TUndefined
  | Null => TNull
  | Bool b => TBool b
  | Int n => TInt n
  | Float f => TFloat (to_bits f)
  | BigInt _ => TBigInt
  | Str s _ => TString s
  | Sym _ => TSymbol
  | Fun _ => TFunction
  | Promise i => TObject (2 * i)
  | Obj i => TObject (2 * i + 1)
  end.

Definition json_stringify (fuel : nat) (v : value) : W (option (list Z)) := fun vs =>
  match JsonStringify.json_stringify itoa ryu ryu json_heap fuel (json_value v) with
  | Done (Ok s) => Some (Ok (s, [], vs))
  | Done (Err e) => Some (Err e)
  | OutOfFuel => None
  end.

(** What a directive does with the next value: it is printed, or the value that
    is to be formatted is given back with the options for it. *)
Definition directive (fuel : nat) (o : FormatOptions) (c : Z) (v : value) : W (option (value * FormatOptions)) :=
  if c =? 115 then
    let^ s := lift (to_string v) in
    let^ _ := push s in
    ret None
  else if c =? 100 then
    let^ v := lift (number_function v) in
    ret (Some (v, o))
  else if c =? 105 then
    let^ v := lift (parse_int v) in
    ret (Some (v, o))
  else if c =? 102 then
    let^ v := lift (parse_float v) in
    ret (Some (v, o))
  else if c =? 106 then
    let^ s := json_stringify fuel v in
    let^ _ := push (default (str "undefined") s) in
    ret None
  else if c =? 79 then ret (Some (v, set_filter false o))
  else ret (Some (v, o)).

(** The directives that take a value. *)
Definition takes_value (c : Z) : bool := bool_decide (c ∈ str "sdifjOo").

(** The loop over the bytes of the format string from index [i] on. *)
Fixpoint format_loop (steps fuel : nat) (o : FormatOptions) (bytes : list Z) (i : nat) (args : list value) :
    W (list value * FormatOptions) :=
  match bytes !! i, steps with
  | None, _ => ret (args, o)
  | Some _, O => panic
  | Some byte, S steps =>
      match bytes !! S i with
      | Some next_byte =>
          if byte =? 37 then
            match args with
            | [] =>
                let^ _ := push [byte; next_byte] in
                format_loop steps fuel o bytes (S (S i)) []
            | v :: rest =>
                if takes_value next_byte then
                  let^ formatted := directive fuel o next_byte v in
                  match formatted with
                  | None => format_loop steps fuel o bytes (S (S i)) rest
                  | Some (v, o') =>
                      let^ _ := format_raw fuel (set_color false o') v in
                      format_loop steps fuel (set_color false o) bytes (S (S i)) rest
                  end
                else if next_byte =? 99 then format_loop steps fuel o bytes (S (S i)) (v :: rest)
                else
                  let^ _ := push (if next_byte =? 37 then [byte] else [byte; next_byte]) in
                  format_loop steps fuel o bytes (S (S i)) (v :: rest)
            end
          else
            let^ _ := push [byte] in
            format_loop steps fuel o bytes (S i) args
      | None =>
          let^ _ := push [byte] in
          format_loop steps fuel o bytes (S i) args
      end
  end.

Fixpoint format_rest (fuel : nat) (o : FormatOptions) (args : list value) : W unit :=
  match args with
  | [] => ret tt
  | v :: args =>
      let^ _ := push [32] in
      let^ _ := format_raw fuel o v in
      format_rest fuel o args
  end.

Definition build_formatted_string (fuel : nat) (args : list value) (o : FormatOptions) : W unit :=
  match args with
  | [] => ret tt
  | v :: rest =>
      let^ (rest, o) :=
        match v, rest with
        | Str s lone, _ :: _ =>
            let^ s := lift (if lone then Err LibraryError else Ok s) in
            match find_byte 37 s with
            | None =>
                let^ _ := format_raw_string_inner s false (color o) in
                ret (rest, o)
            | Some _ => format_loop (length s) fuel o s 0 rest
            end
        | _, _ =>
            let^ _ := format_raw fuel o v in
            ret (rest, o)
        end in
      format_rest fuel o rest
  end.

(** The text, or the exception. *)
Definition format_values (fuel : nat) (args : list value) (tty newline : bool) : option (result js_error (list Z)) :=
  match build_formatted_string fuel args (mkOptions tty newline true) [] with
  | None => None
  | Some (Err e) => Some (Err e)
  | Some (Ok (_, bs, _)) => Some (Ok bs)
  end.
End Format.

(** The loop that replaces the line ends, by the position of the next one. *)
Fixpoint replace_loop (fuel : nat) (s : list Z) (pos : nat) : list Z :=
  match fuel with
  | O => s
  | S fuel =>
      match find_byte 10 (drop pos s) with
      | None => s
      | Some index => replace_loop fuel (<[(pos + index)%nat := 13]> s) (pos + index + 1)
      end
  end.

Definition replace_newline_with_carriage_return (s : list Z) : list Z := replace_loop (S (length s)) s 0.

(** ** The same text in other modes

    Runs with two sets of options write texts that are related, when the parts
    that depend on the options are. *)

Definition similar (R : list Z -> list Z -> Prop) (o1 o2 : FormatOptions) : Prop :=
  R (line_end (newline o1)) (line_end (newline o2)) ∧
  (forall c, R (if color o1 then color_code c else []) (if color o2 then color_code c else [])) ∧
  all_keys o1 = all_keys o2.

Section Modes.
Context (R : list Z -> list Z -> Prop).
Hypothesis R_refl : forall s, R s s.
Hypothesis R_app : forall s1 t1 s2 t2, R s1 t1 -> R s2 t2 -> R (s1 ++ s2) (t1 ++ t2).

(** The two runs do the same, give results related by [Q] and write texts
    related by [R]. *)
Definition alike {A} (Q : A -> A -> Prop) (m1 m2 : W A) : Prop := forall vs,
  match m1 vs, m2 vs with
  | None, None => True
  | Some (Err e1), Some (Err e2) => e1 = e2
  | Some (Ok (a1, s1, vs1)), Some (Ok (a2, s2, vs2)) => Q a1 a2 ∧ R s1 s2 ∧ vs1 = vs2
  | _, _ => False
  end.

Lemma alike_refl {A} (m : W A) : alike eq m m.
Proof. intros vs. destruct (m vs) as [[[[a s] vs']|e]|]; auto. Qed.

Lemma alike_bind {A B} (Q : A -> A -> Prop) (Q' : B -> B -> Prop) (m1 m2 : W A) (k1 k2 : A -> W B) :
  alike Q m1 m2 -> (forall a1 a2, Q a1 a2 -> alike Q' (k1 a1) (k2 a2)) -> alike Q' (bind m1 k1) (bind m2 k2).
Proof.
  intros Hm Hk vs. specialize (Hm vs). unfold bind. destruct (m1 vs) as [[[[a1 s1] vs1]|e1]|], (m2 vs) as [[[[a2 s2] vs2]|e2]|]; try done.
  destruct Hm as (HQ & HR & ->). specialize (Hk a1 a2 HQ vs2).
  destruct (k1 a1 vs2) as [[[[b1 t1] ws1]|e1]|], (k2 a2 vs2) as [[[[b2 t2] ws2]|e2]|]; try done.
  destruct Hk as (HQ' & HR' & ->). auto.
Qed.

Lemma alike_push s t : R s t -> alike eq (push s) (push t).
Proof. intros H vs. cbn. auto. Qed.

Lemma alike_if (b : bool) {A} (Q : A -> A -> Prop) (m1 m2 n1 n2 : W A) :
  alike Q m1 m2 -> alike Q n1 n2 -> alike Q (if b then m1 else n1) (if b then m2 else n2).
Proof. destruct b; done. Qed.

(** One step of two runs of the same code. *)
Ltac alike_step :=
  first
    [ apply alike_refl
    | assumption
    | solve [auto]
    | apply (alike_bind eq); [|let a := fresh "a" in intros a ? <-]
    | apply alike_if ].

Lemma alike_color (b : bool) o1 o2 c : similar R o1 o2 -> alike eq (push_color (b && color o1) c) (push_color (b && color o2) c).
Proof.
  intros (_ & H & _). specialize (H c). destruct b; cbn [andb]; [|apply alike_refl]. unfold push_color.
  destruct (color o1), (color o2); intros vs; cbn; auto.
Qed.

Lemma alike_color' o1 o2 c : similar R o1 o2 -> alike eq (push_color (color o1) c) (push_color (color o2) c).
Proof. intros H. exact (alike_color true o1 o2 c H). Qed.

Lemma alike_sep o1 o2 b c : similar R o1 o2 -> alike eq (write_sep b c (newline o1)) (write_sep b c (newline o2)).
Proof. intros (H & _). unfold write_sep. apply alike_push. apply R_app; [done|]. destruct c; done. Qed.

Lemma alike_string o1 o2 s q b :
  similar R o1 o2 -> alike eq (format_raw_string_inner s q (b && color o1)) (format_raw_string_inner s q (b && color o2)).
Proof.
  intros H. pose proof (fun b c => alike_color b o1 o2 c H) as Hc. unfold format_raw_string_inner. repeat alike_step.
Qed.

Section Runs.
Context (itoa ryu : Z -> list Z) (to_i64 : Z -> option Z) (heap : nat -> object) (promises : nat -> promise_state).
Context (o1 o2 : FormatOptions).
Hypothesis Ho : similar R o1 o2.

Lemma alike_line : alike eq (push (line_end (newline o1))) (push (line_end (newline o2))).
Proof. apply alike_push, Ho. Qed.

Section Deeper.
Context (f1 f2 : value -> W unit).
Hypothesis Hf : forall v, alike eq (f1 v) (f2 v).

Lemma alike_entry depth is_array ind first key v :
  alike eq (write_entry f1 o1 depth is_array ind first key v) (write_entry f2 o2 depth is_array ind first key v).
Proof.
  pose proof (fun b c => alike_color b o1 o2 c Ho) as Hc. pose proof (fun b c => alike_sep o1 o2 b c Ho) as Hs.
  pose proof (fun s q b => alike_string o1 o2 s q b Ho) as Hst. unfold write_entry. repeat alike_step.
Qed.

Lemma alike_entries ob depth is_array ind ff len keys : forall i first,
  alike eq (write_entries itoa f1 o1 ob depth is_array ind ff len keys i first) (write_entries itoa f2 o2 ob depth is_array ind ff len keys i first).
Proof.
  induction keys as [|k keys IH]; intros i first; cbn [write_entries]; [apply alike_refl|].
  eapply alike_bind; [apply alike_refl|]. intros v _ <-. apply alike_if; [apply IH|].
  eapply alike_bind; [apply alike_entry|]. intros [] [] _. apply alike_if; [apply alike_refl|apply IH].
Qed.

Lemma alike_object ob depth is_array :
  alike eq (write_object itoa f1 o1 ob depth is_array) (write_object itoa f2 o2 ob depth is_array).
Proof.
  unfold write_object. eapply alike_bind; [apply alike_refl|]. intros [] [] _.
  assert (Hk : object_keys o1 ob is_array = object_keys o2 ob is_array) by (destruct Ho as (_ & _ & Hf'); unfold object_keys; rewrite Hf'; done).
  rewrite Hk. destruct (object_keys o2 ob is_array) as [keys ff].
  eapply alike_bind; [apply alike_entries|]. intros first _ <-. eapply alike_bind; [|intros; apply alike_refl].
  pose proof alike_line as Hl. unfold write_close. repeat alike_step.
Qed.

Lemma alike_promise s depth : alike eq (format_promise f1 o1 s depth) (format_promise f2 o2 s depth).
Proof.
  pose proof (fun c => alike_color' o1 o2 c Ho) as Hc. pose proof (fun b c => alike_sep o1 o2 b c Ho) as Hs.
  unfold format_promise. destruct s; repeat alike_step.
Qed.

Lemma alike_stack depth lines : alike eq (push_stack o1 depth lines) (push_stack o2 depth lines).
Proof. pose proof alike_line as Hl. induction lines as [|l lines IH]; cbn [push_stack]; repeat alike_step. Qed.

Lemma alike_error e depth : alike eq (format_error o1 e depth) (format_error o2 e depth).
Proof.
  pose proof (fun c => alike_color' o1 o2 c Ho) as Hc. pose proof (fun l => alike_stack depth l) as Hs.
  unfold format_error. destruct (e_stack e); repeat alike_step.
Qed.

Lemma alike_members ob name depth : alike eq (format_members itoa heap f1 o1 ob name depth) (format_members itoa heap f2 o2 ob name depth).
Proof.
  pose proof (fun c => alike_color' o1 o2 c Ho) as Hc. pose proof (fun ob d a => alike_object ob d a) as Hob.
  unfold format_members. destruct name, (o_inspect ob); repeat alike_step.
Qed.

Lemma alike_obj i depth : alike eq (format_object itoa heap f1 o1 i depth) (format_object itoa heap f2 o2 i depth).
Proof.
  pose proof (fun c => alike_color' o1 o2 c Ho) as Hc. pose proof (fun ob n d => alike_members ob n d) as Hm.
  pose proof alike_error as He. unfold format_object. destruct (o_error (heap i)); repeat alike_step.
Qed.
End Deeper.

Lemma alike_scalar v root : alike eq (format_scalar itoa ryu to_i64 o1 v root) (format_scalar itoa ryu to_i64 o2 v root).
Proof.
  pose proof (fun c => alike_color' o1 o2 c Ho) as Hc. pose proof (fun s q => alike_string o1 o2 s q true Ho) as Hs. cbn [andb] in Hs.
  unfold format_scalar, format_function. destruct v; repeat alike_step.
Qed.

Lemma alike_inner fuel : forall depth v,
  alike eq (format_raw_inner itoa ryu to_i64 heap promises fuel o1 depth v) (format_raw_inner itoa ryu to_i64 heap promises fuel o2 depth v).
Proof.
  pose proof (fun c => alike_color' o1 o2 c Ho) as Hc. pose proof (fun v r => alike_scalar v r) as Hs.
  induction fuel as [|fuel IH]; intros depth v; [intros vs; done|]. cbn [format_raw_inner].
  destruct v; [..|apply alike_promise; auto|apply alike_obj; auto]; repeat alike_step.
Qed.

Lemma alike_raw fuel v :
  alike eq (format_raw itoa ryu to_i64 heap promises fuel o1 v) (format_raw itoa ryu to_i64 heap promises fuel o2 v).
Proof.
  intros vs. pose proof (alike_inner fuel 0 v []) as H. unfold format_raw.
  destruct (format_raw_inner itoa ryu to_i64 heap promises fuel o1 0 v []) as [[[[[] s1] vs1]|e1]|],
    (format_raw_inner itoa ryu to_i64 heap promises fuel o2 0 v []) as [[[[[] s2] vs2]|e2]|]; try done. destruct H as (_ & H & _). auto.
Qed.
End Runs.

Lemma similar_plain o1 o2 : similar R o1 o2 -> similar R (set_color false o1) (set_color false o2).
Proof. intros (H1 & H2 & H3). split; [done|]. split; [intros c; apply R_refl|done]. Qed.

Lemma similar_filter b o1 o2 : similar R o1 o2 -> similar R (set_filter b o1) (set_filter b o2).
Proof. intros (H1 & H2 & H3). done. Qed.

Section Strings.
Context (itoa ryu : Z -> list Z) (to_i64 : Z -> option Z) (heap : nat -> object) (promises : nat -> promise_state).
Context (to_string : value -> result js_error (list Z)) (number_function parse_int parse_float : value -> result js_error value).
Context (json_heap : nat -> node).
Abbreviation raw := (format_raw itoa ryu to_i64 heap promises).

(** The arguments that are left, with options that are similar. *)
Definition left_over (a1 a2 : list value * FormatOptions) : Prop := a1.1 = a2.1 ∧ similar R a1.2 a2.2.

Definition same_value (a1 a2 : option (value * FormatOptions)) : Prop :=
  match a1, a2 with
  | Some (v1, o1), Some (v2, o2) => v1 = v2 ∧ similar R o1 o2
  | None, None => True
  | _, _ => False
  end.

Lemma alike_ret {A} (Q : A -> A -> Prop) a1 a2 : Q a1 a2 -> alike Q (ret a1) (ret a2).
Proof. intros H vs. cbn. auto. Qed.

Lemma alike_directive fuel o1 o2 c v : similar R o1 o2 ->
  alike same_value (directive itoa ryu to_string number_function parse_int parse_float json_heap fuel o1 c v)
    (directive itoa ryu to_string number_function parse_int parse_float json_heap fuel o2 c v).
Proof.
  intros Ho. pose proof (similar_filter false _ _ Ho) as Hf. unfold directive.
  repeat match goal with
         | |- alike _ (if ?b then _ else _) _ => apply alike_if
         | |- alike _ (bind _ _) _ => apply (alike_bind eq); [apply alike_refl|intros ? ? <-]
         | |- alike _ (ret _) _ => apply alike_ret; cbn; auto
         end.
Qed.

Lemma alike_loop fuel bytes : forall steps o1 o2 i args, similar R o1 o2 ->
  alike left_over
    (format_loop itoa ryu to_i64 heap promises to_string number_function parse_int parse_float json_heap steps fuel o1 bytes i args)
    (format_loop itoa ryu to_i64 heap promises to_string number_function parse_int parse_float json_heap steps fuel o2 bytes i args).
Proof.
  induction steps as [|steps IH]; intros o1 o2 i args Ho; cbn [format_loop]; (destruct (bytes !! i) as [byte|]; [|apply alike_ret; split; done]).
  { intros vs. done. }
  assert (Hpush : forall bs j args, alike left_over
    (let^ _ := push bs in format_loop itoa ryu to_i64 heap promises to_string number_function parse_int parse_float json_heap steps fuel o1 bytes j args)
    (let^ _ := push bs in format_loop itoa ryu to_i64 heap promises to_string number_function parse_int parse_float json_heap steps fuel o2 bytes j args)).
  { intros bs j args'. apply (alike_bind eq); [apply alike_refl|]. intros _ _ _. apply IH. done. }
  destruct (bytes !! S i) as [next_byte|]; [|apply Hpush]. apply alike_if; [|apply Hpush].
  destruct args as [|v rest]; [apply Hpush|]. apply alike_if; [|apply alike_if; [apply IH; done|apply Hpush]].
  apply (alike_bind same_value); [apply alike_directive; done|]. intros [[v1 p1]|] [[v2 p2]|] HQ; try done; [|apply IH; done].
  destruct HQ as [<- Hp]. apply (alike_bind eq); [apply alike_raw, similar_plain, Hp|]. intros _ _ _. apply IH, similar_plain, Ho.
Qed.

Lemma alike_rest fuel o1 o2 args : similar R o1 o2 ->
  alike eq (format_rest itoa ryu to_i64 heap promises fuel o1 args) (format_rest itoa ryu to_i64 heap promises fuel o2 args).
Proof.
  intros Ho. pose proof (fun v => alike_raw itoa ryu to_i64 heap promises o1 o2 Ho fuel v) as Hr.
  induction args as [|v args IH]; cbn [format_rest]; repeat alike_step.
Qed.

Lemma alike_build fuel args o1 o2 : similar R o1 o2 ->
  alike eq
    (build_formatted_string itoa ryu to_i64 heap promises to_string number_function parse_int parse_float json_heap fuel args o1)
    (build_formatted_string itoa ryu to_i64 heap promises to_string number_function parse_int parse_float json_heap fuel args o2).
Proof.
  intros Ho. unfold build_formatted_string. destruct args as [|v rest]; [apply alike_refl|].
  assert (Hraw : alike left_over (let^ _ := raw fuel o1 v in ret (rest, o1)) (let^ _ := raw fuel o2 v in ret (rest, o2))).
  { apply (alike_bind eq); [apply alike_raw; done|]. intros _ _ _. apply alike_ret. split; done. }
  apply (alike_bind left_over); [|intros [r1 p1] [r2 p2] [Hr Hp]; cbn in *; subst; apply alike_rest; done].
  destruct v; try exact Hraw. destruct rest as [|v' rest]; [exact Hraw|].
  apply (alike_bind eq); [apply alike_refl|]. intros s' _ <-. destruct (find_byte 37 s'); [apply alike_loop; done|].
  apply (alike_bind eq); [exact (alike_string o1 o2 s' false true Ho)|]. intros _ _ _. apply alike_ret. split; done.
Qed.
End Strings.
End Modes.

(** *** Colors *)

(** The second text is the first without color codes. *)
Inductive uncolored : list Z -> list Z -> Prop :=
| uncolored_nil : uncolored [] []
| uncolored_byte b s t : uncolored s t -> uncolored (b :: s) (b :: t)
| uncolored_code c s t : uncolored s t -> uncolored (color_code c ++ s) t.

Lemma uncolored_refl s : uncolored s s.
Proof. induction s; constructor; done. Qed.

Lemma uncolored_app s1 t1 s2 t2 : uncolored s1 t1 -> uncolored s2 t2 -> uncolored (s1 ++ s2) (t1 ++ t2).
Proof. intros H1 H2. induction H1; cbn [app]; rewrite <- ?app_assoc; auto using uncolored. Qed.

Lemma uncolored_similar nl k : similar uncolored (mkOptions true nl k) (mkOptions false nl k).
Proof.
  split; [apply uncolored_refl|]. split; [|done]. intros c. change (uncolored (color_code c) []).
  rewrite <- (app_nil_r (color_code c)). constructor. constructor.
Qed.

(** *** Line ends *)

Definition to_carriage_returns (s : list Z) : list Z := (fun b => if b =? 10 then 13 else b) <$> s.

Definition same_lines (s t : list Z) : Prop := to_carriage_returns s = to_carriage_returns t.

Lemma same_lines_app s1 t1 s2 t2 : same_lines s1 t1 -> same_lines s2 t2 -> same_lines (s1 ++ s2) (t1 ++ t2).
Proof. unfold same_lines, to_carriage_returns. rewrite !fmap_app. congruence. Qed.

Lemma lines_similar c k : similar same_lines (mkOptions c false k) (mkOptions c true k).
Proof. split; [done|]. split; done. Qed.

Lemma carriage_returns_id s : 10 ∉ s -> to_carriage_returns s = s.
Proof.
  unfold to_carriage_returns. induction s as [|b s IH]; [done|]. rewrite not_elem_of_cons. intros [Hb Hs]. cbn.
  destruct (Z.eqb_spec b 10); [congruence|]. f_equal. auto.
Qed.

(** The loop with its positions replaces every line end. *)
Lemma replace_loop_eq fuel : forall s pos,
  (length s < fuel + pos)%nat -> replace_loop fuel s pos = take pos s ++ to_carriage_returns (drop pos s).
Proof.
  induction fuel as [|fuel IH]; intros s pos Hf; cbn [replace_loop].
  { rewrite drop_ge, take_ge by lia. rewrite app_nil_r. done. }
  destruct (find_byte 10 (drop pos s)) as [k|] eqn:Hk.
  - pose proof (find_byte_lt _ _ _ Hk) as Hlt. rewrite length_drop in Hlt. apply find_byte_Some in Hk as [Hat Hpre].
    assert (Hlen : length (take k (drop pos s)) = k) by (rewrite length_take, length_drop; lia).
    pose proof (take_drop_middle _ _ _ Hat) as Hs. symmetry in Hs. revert Hs Hpre Hlen.
    generalize (take k (drop pos s)) (drop (S k) (drop pos s)). intros pre post Hs Hpre Hlen. clear Hat.
    assert (Hsplit : s = take pos s ++ pre ++ 10 :: post) by (rewrite <- Hs, take_drop; done).
    assert (Htl : length (take pos s) = pos) by (rewrite length_take; lia).
    assert (Hins : <[(pos + k)%nat := 13]> s = take pos s ++ pre ++ 13 :: post).
    { rewrite Hsplit at 1. rewrite insert_app_r_alt by lia. rewrite Htl. replace (pos + k - pos)%nat with k by lia.
      rewrite insert_app_r_alt by lia. rewrite Hlen, Nat.sub_diag. done. }
    rewrite Hins. set (s' := take pos s ++ pre ++ 13 :: post).
    assert (Hdrop : drop (pos + k + 1) s' = post).
    { subst s'. rewrite drop_app_ge by lia. rewrite Htl, drop_app_ge by lia. replace (pos + k + 1 - pos - length pre)%nat with 1%nat by lia. done. }
    assert (Htake : take (pos + k + 1) s' = take pos s ++ pre ++ [13]).
    { subst s'. rewrite take_app_ge by lia. rewrite Htl, take_app_ge by lia. replace (pos + k + 1 - pos - length pre)%nat with 1%nat by lia. done. }
    rewrite IH, Hdrop, Htake.
    + rewrite Hs. unfold to_carriage_returns. rewrite fmap_app, fmap_cons. fold (to_carriage_returns pre).
      rewrite (carriage_returns_id pre Hpre), <- !app_assoc. done.
    + subst s'. rewrite !length_app. cbn [length]. assert (length s = (pos + (length pre + S (length post)))%nat).
      { rewrite Hsplit at 1. rewrite !length_app, Htl. cbn. lia. }
      lia.
  - apply find_byte_None in Hk. rewrite carriage_returns_id by done. rewrite take_drop. done.
Qed.

Lemma replace_eq s : replace_newline_with_carriage_return s = to_carriage_returns s.
Proof. unfold replace_newline_with_carriage_return. rewrite replace_loop_eq by lia. rewrite drop_0. done. Qed.

(** ** Formatting returns *)

(** The keys that an object can be printed with. *)
Definition lists (ob : object) (k : list Z) : Prop :=
  Some k ∈ o_keys ob ∨ (exists ks, o_object_keys ob = Some ks ∧ k ∈ ks) ∨
  (exists p, o_proto ob = Some p ∧ (Some k ∈ all_own_keys p ∨ Some k ∈ default_own_keys p)).

Lemma object_keys_lists o ob is_array k : k ∈ omap id (object_keys o ob is_array).1 -> lists ob k.
Proof.
  rewrite list_elem_of_omap. intros (x & Hx & Hk). cbn in Hk. subst x. unfold object_keys in Hx.
  destruct (negb is_array && (length (o_keys ob) =? 0)%nat); [|left; done].
  destruct (o_object_keys ob) as [[|k0 ks]|] eqn:Hok.
  - destruct (o_proto ob) as [p|] eqn:Hp; [|left; done]. right; right. exists p. split; [done|]. destruct (all_keys o); auto.
  - right; left. exists (k0 :: ks). split; [done|]. cbn [fst] in Hx. apply list_elem_of_fmap in Hx as (k1 & [= ->] & H1). done.
  - destruct (o_proto ob) as [p|] eqn:Hp; [|left; done]. right; right. exists p. split; [done|]. destruct (all_keys o); auto.
Qed.

(** A computation that does not panic. *)
Definition returns {A} (m : W A) : Prop := forall vs, exists r, m vs = Some r.

Definition gives {A} (m : W A) (a : A) : Prop := exists vs bs vs', m vs = Some (Ok (a, bs, vs')).

Lemma returns_bind {A B} (m : W A) (k : A -> W B) : returns m -> (forall a, gives m a -> returns (k a)) -> returns (bind m k).
Proof.
  intros Hm Hk vs. unfold bind. destruct (Hm vs) as [[[[a bs] vs']|e] Hr]; rewrite Hr; [|eauto].
  destruct (Hk a ltac:(exists vs, bs, vs'; exact Hr) vs') as [[[[b bs'] vs2]|e] ->]; eauto.
Qed.

Lemma returns_ret {A} (a : A) : returns (ret a).
Proof. intros vs. eexists. reflexivity. Qed.

Lemma returns_push bs : returns (push bs).
Proof. intros vs. eexists. reflexivity. Qed.

Lemma returns_lift {A} (r : result js_error A) : returns (lift r).
Proof. intros vs. destruct r; eexists; reflexivity. Qed.

Lemma returns_color b c : returns (push_color b c).
Proof. destruct b; [apply returns_push|apply returns_ret]. Qed.

Lemma returns_visit i : returns (visit i).
Proof. intros vs. unfold visit. case_bool_decide; eauto. Qed.

Lemma returns_expect {A} (x : option A) : is_Some x -> returns (expect x).
Proof. intros [a ->]. apply returns_ret. Qed.

Lemma returns_indentation d : (d <= 4)%nat -> returns (push_indentation d).
Proof. intros Hd. unfold push_indentation. do 5 (destruct d as [|d]; [intros vs; eexists; reflexivity|]). lia. Qed.

Lemma gives_ret {A} (a b : A) : gives (ret a) b -> b = a.
Proof. intros (? & ? & ? & [= -> _ _]). done. Qed.

Lemma gives_bind {A B} (m : W A) (k : A -> W B) b : gives (bind m k) b -> exists a, gives m a ∧ gives (k a) b.
Proof.
  intros (vs & bs & vs' & H). unfold bind in H. destruct (m vs) as [[[[a bs1] ws]|]|] eqn:Hm; try discriminate. exists a.
  split; [eexists _, _, _; exact Hm|]. destruct (k a ws) as [[[[b' bs2] ws2]|]|] eqn:Hk; try discriminate.
  injection H as -> _ _. eexists _, _, _. exact Hk.
Qed.

Lemma gives_lift {A} (r : result js_error A) a : gives (lift r) a -> r = Ok a.
Proof. intros (vs & bs & vs' & H). destruct r; cbn in H; congruence. Qed.

Create HintDb returns.
#[local] Hint Resolve returns_ret returns_push returns_lift returns_color returns_visit : returns.

Ltac returns_step :=
  first
    [ solve [auto with returns]
    | match goal with
      | |- returns (bind _ _) => apply returns_bind; [|intros]
      | |- returns (if ?b then _ else _) => destruct b eqn:?
      | |- returns (match ?x with _ => _ end) => destruct x eqn:?
      end ].

Lemma returns_string s q c : returns (format_raw_string_inner s q c).
Proof. unfold format_raw_string_inner. repeat returns_step. Qed.

Lemma returns_sep a b c : returns (write_sep a b c).
Proof. apply returns_push. Qed.

#[local] Hint Resolve returns_string returns_sep : returns.

Section Returns.
Context (itoa ryu : Z -> list Z) (to_i64 : Z -> option Z) (heap : nat -> object) (promises : nat -> promise_state).

(** What is printed inside a value, one level deeper. *)
Inductive shows : value * nat -> value * nat -> Prop :=
| shows_promise i d v : promises i = Resolved v ∨ promises i = Rejected v -> shows (Promise i, d) (v, S d)
| shows_member i d ob k v :
    (d < MAX_EXPANSION_DEPTH)%nat -> o_error (heap i) = None ->
    (o_inspect (heap i) = None ∧ ob = heap i ∨ exists j, o_inspect (heap i) = Some j ∧ ob = heap j) ->
    lists ob k -> o_get ob k = Ok v -> shows (Obj i, d) (v, S d).

(** What the code takes for granted: a bigint has its 64 bits and a symbol a
    description, an error with a stack is less than four levels deep, and what
    is called [Date] has the method of a date. *)
Definition safe_at (v : value) (d : nat) : Prop :=
  match v with
  | BigInt n => is_Some (to_i64 n)
  | Sym description => is_Some description
  | Obj i =>
      match o_error (heap i) with
      | Some e => is_Some (e_stack e) -> (d < 4)%nat
      | None => o_type (heap i) = TypeObject -> o_class_name (heap i) = Ok (Some (str "Date")) -> is_Some (o_iso (heap i))
      end
  | _ => True
  end.

Definition safe (v : value) : Prop := forall w d, rtc shows (v, 0%nat) (w, d) -> safe_at w d.

(** Promises that hold promises end. *)
Context (K : nat) (rank : nat -> nat).
Definition holds (i j : nat) : Prop := promises i = Resolved (Promise j) ∨ promises i = Rejected (Promise j).
Hypothesis Hrank : forall i, (rank i <= K)%nat.
Hypothesis Hholds : forall i j, holds i j -> (rank j < rank i)%nat.

Definition need (v : value) (d : nat) : nat :=
  (4 - d) * (K + 2) + (match v with Promise i => S (rank i) | _ => 0 end) + 1.

Lemma returns_entry f o depth is_array ind first key v :
  returns (f v) -> (ind = true -> (depth < 2)%nat) -> returns (write_entry f o depth is_array ind first key v).
Proof.
  intros Hf Hd. unfold write_entry. repeat returns_step. apply returns_indentation. specialize (Hd eq_refl). lia.
Qed.

Lemma returns_entries f o ob depth is_array ind ff len :
  (ind = true -> (depth < 2)%nat) -> forall keys i first,
  (forall k v, k ∈ keys -> o_get ob k = Ok v -> returns (f v)) ->
  returns (write_entries itoa f o ob depth is_array ind ff len keys i first).
Proof.
  intros Hd. induction keys as [|k keys IH]; intros i first Hf; cbn [write_entries]; [apply returns_ret|].
  apply returns_bind; [apply returns_lift|]. intros v Hv. apply gives_lift in Hv.
  assert (Hrest : forall k v, k ∈ keys -> o_get ob k = Ok v -> returns (f v)) by (intros k' v' Hk'; apply Hf; set_solver).
  destruct (is_function v && ff); [apply IH; done|].
  apply returns_bind; [apply returns_entry; [eapply (Hf k); [set_solver|done]|done]|]. intros _ _.
  destruct (99 <? i)%nat; [repeat returns_step|apply IH; done].
Qed.

Lemma returns_object f o ob depth is_array :
  (depth < 4)%nat -> (forall k v, lists ob k -> o_get ob k = Ok v -> returns (f v)) -> returns (write_object itoa f o ob depth is_array).
Proof.
  intros Hd Hf. unfold write_object. apply returns_bind; [apply returns_push|]. intros _ _.
  destruct (object_keys o ob is_array) as [keys ff] eqn:Hk.
  assert (Hind : negb is_array && (depth <? 2)%nat = true -> (depth < 2)%nat).
  { intros H. apply andb_prop in H as [_ H]. apply Nat.ltb_lt. done. }
  apply returns_bind.
  - apply returns_entries; [done|]. intros k v Hin Hg. apply (Hf k); [|done]. apply (object_keys_lists o ob is_array). rewrite Hk. exact Hin.
  - intros first _. apply returns_bind; [|intros; apply returns_push]. unfold write_close. repeat returns_step. apply returns_indentation. lia.
Qed.

Lemma returns_stack o depth lines : (depth < 4)%nat -> returns (push_stack o depth lines).
Proof. intros Hd. induction lines; cbn [push_stack]; repeat returns_step. apply returns_indentation. lia. Qed.

Lemma returns_scalar o v root d : safe_at v d -> returns (format_scalar itoa ryu to_i64 o v root).
Proof.
  intros Hs. unfold format_scalar, format_function. destruct v; try (repeat returns_step; apply returns_expect; exact Hs).
  repeat returns_step. apply returns_expect. unfold float_to_string, f64_to_base_n. cbn. destruct (_ =? _); eauto.
Qed.

Lemma returns_promise f o st d :
  (forall v, st = Resolved v ∨ st = Rejected v -> returns (f v)) -> returns (format_promise f o st d).
Proof.
  intros Hf. unfold format_promise.
  assert (Hi : forall b (e : nat), (e <= S d)%nat -> returns (if (d <? 2)%nat && b then push_indentation e else ret tt)).
  { intros b e He. destruct (Nat.ltb_spec d 2); [|apply returns_ret]. destruct b; [apply returns_indentation; lia|apply returns_ret]. }
  repeat (apply returns_bind; [|intros _ _]); try apply returns_push; try (apply Hi; lia).
  destruct st; repeat returns_step.
Qed.

Lemma returns_error o e d : (is_Some (e_stack e) -> (d < 4)%nat) -> returns (format_error o e d).
Proof.
  intros Hd. unfold format_error. repeat returns_step. apply returns_stack. apply Hd. eauto.
Qed.

Lemma returns_members f o i name d :
  o_error (heap i) = None -> (forall w, shows (Obj i, d) (w, S d) -> returns (f w)) ->
  returns (format_members itoa heap f o (heap i) name d).
Proof.
  intros He Hf. unfold format_members. destruct (Nat.ltb_spec d MAX_EXPANSION_DEPTH) as [Hd|Hd]; [|repeat returns_step].
  apply returns_bind; [destruct name; repeat returns_step|]. intros typed _. destruct (o_inspect (heap i)) as [j|] eqn:Hj.
  - apply returns_object; [exact Hd|]. intros k v Hk Hg. apply Hf. apply (shows_member i d (heap j) k v); eauto.
  - apply returns_bind; [|intros; apply returns_color]. apply returns_object; [exact Hd|]. intros k v Hk Hg. apply Hf.
    apply (shows_member i d (heap i) k v); auto.
Qed.

Lemma returns_obj f o i d :
  safe_at (Obj i) d -> (forall w, shows (Obj i, d) (w, S d) -> returns (f w)) -> returns (format_object itoa heap f o i d).
Proof.
  intros Hs Hf. unfold format_object. apply returns_bind; [apply returns_visit|]. intros vis _. destruct vis; [repeat returns_step|].
  unfold safe_at in Hs. destruct (o_error (heap i)) as [e|] eqn:He; [apply returns_error; done|].
  destruct (is_type_object (o_type (heap i))) eqn:Ht; [|apply returns_members; done].
  apply returns_bind; [apply returns_lift|]. intros name Hn. apply gives_lift in Hn.
  case_bool_decide as Hd; [|case_bool_decide; [repeat returns_step|apply returns_members; done]]. subst name.
  apply returns_bind; [apply returns_color|]. intros _ _. apply returns_bind; [|intros iso _; repeat returns_step].
  apply returns_expect, Hs; [|done]. destruct (o_type (heap i)); done.
Qed.

(** With enough fuel for the levels that are printed, formatting returns. *)
Lemma returns_inner o fuel : forall v d,
  (need v d <= fuel)%nat -> (forall w e, rtc shows (v, d) (w, e) -> safe_at w e) ->
  returns (format_raw_inner itoa ryu to_i64 heap promises fuel o d v).
Proof.
  induction fuel as [|fuel IH]; intros v d Hn Hs; [unfold need in Hn; nia|].
  assert (Hdeep : forall w, shows (v, d) (w, S d) -> returns (format_raw_inner itoa ryu to_i64 heap promises fuel o (S d) w)).
  { intros w Hw. apply IH; [|intros x e Hx; apply Hs; eapply rtc_l; done]. inversion Hw; subst; unfold need in *.
    - destruct w; cbn; try nia. assert (rank i0 < rank i)%nat by (apply Hholds; done). pose proof (Hrank i0). nia.
    - assert (match w with Promise j => S (rank j) | _ => 0%nat end <= K + 1)%nat by (destruct w; try lia; pose proof (Hrank i0); lia).
      unfold MAX_EXPANSION_DEPTH in *. nia. }
  assert (Hv : safe_at v d) by (apply Hs; apply rtc_refl). cbn [format_raw_inner].
  destruct v as [| | | | | | | | |i|i]; try (apply returns_bind; [eapply returns_scalar, Hv|intros; apply returns_color]).
  - apply returns_promise. intros w Hw. apply Hdeep. constructor. done.
  - apply returns_obj; [exact Hv|]. intros w Hw. apply Hdeep. exact Hw.
Qed.

Lemma returns_raw o fuel v : (4 * (K + 2) + K + 2 <= fuel)%nat -> safe v -> returns (format_raw itoa ryu to_i64 heap promises fuel o v).
Proof.
  intros Hf Hs vs. unfold format_raw.
  destruct (returns_inner o fuel v 0) with (vs := @nil nat) as [[[[? ?] ?]|] ->]; [|exact Hs|eauto..].
  unfold need. destruct v; try lia. pose proof (Hrank i). lia.
Qed.
End Returns.

(** ** Format strings by recursion *)

Section Strings.
Context (itoa ryu : Z -> list Z) (to_i64 : Z -> option Z) (heap : nat -> object) (promises : nat -> promise_state).
Context (to_string : value -> result js_error (list Z)) (number_function parse_int parse_float : value -> result js_error value).
Context (json_heap : nat -> node).
Abbreviation raw := (format_raw itoa ryu to_i64 heap promises).
Abbreviation loop := (format_loop itoa ryu to_i64 heap promises to_string number_function parse_int parse_float json_heap).
Abbreviation direct := (directive itoa ryu to_string number_function parse_int parse_float json_heap).

(** What a format string means: a directive takes the next value, if there is
    one; [%%] is a percent sign and [%c] nothing, as long as a value is left. *)
Fixpoint expand (fuel : nat) (o : FormatOptions) (s : list Z) (args : list value) : W (list value * FormatOptions) :=
  match s with
  | [] => ret (args, o)
  | byte :: s1 =>
      match s1 with
      | next_byte :: s2 =>
          if byte =? 37 then
            match args with
            | [] =>
                let^ _ := push [byte; next_byte] in
                expand fuel o s2 []
            | v :: rest =>
                if takes_value next_byte then
                  let^ formatted := direct fuel o next_byte v in
                  match formatted with
                  | None => expand fuel o s2 rest
                  | Some (v, o') =>
                      let^ _ := raw fuel (set_color false o') v in
                      expand fuel (set_color false o) s2 rest
                  end
                else if next_byte =? 99 then expand fuel o s2 (v :: rest)
                else
                  let^ _ := push (if next_byte =? 37 then [byte] else [byte; next_byte]) in
                  expand fuel o s2 (v :: rest)
            end
          else
            let^ _ := push [byte] in
            expand fuel o s1 args
      | [] =>
          let^ _ := push [byte] in
          expand fuel o s1 args
      end
  end.

Lemma bind_ext {A B} (m : W A) (k1 k2 : A -> W B) vs : (forall a ws, k1 a ws = k2 a ws) -> bind m k1 vs = bind m k2 vs.
Proof. intros H. unfold bind. destruct (m vs) as [[[[a bs] ws]|]|]; [rewrite H|..]; done. Qed.

(** The loop with its index does this. *)
Lemma loop_expand fuel bytes : forall steps o i args vs, (length bytes <= steps + i)%nat ->
  loop steps fuel o bytes i args vs = expand fuel o (drop i bytes) args vs.
Proof.
  induction steps as [|steps IH]; intros o i args vs Hl.
  { cbn [format_loop]. rewrite lookup_ge_None_2 by lia. rewrite drop_ge by lia. done. }
  cbn [format_loop]. destruct (bytes !! i) as [byte|] eqn:Hi.
  2: { apply lookup_ge_None in Hi. rewrite drop_ge by lia. done. }
  pose proof (lookup_lt_Some _ _ _ Hi) as Hlt. rewrite (drop_S _ _ _ Hi). cbn [expand].
  destruct (bytes !! S i) as [next_byte|] eqn:Hi1.
  - rewrite (drop_S _ _ _ Hi1). pose proof (lookup_lt_Some _ _ _ Hi1). destruct (byte =? 37).
    + destruct args as [|v rest]; [apply bind_ext; intros; apply IH; lia|]. destruct (takes_value next_byte).
      * apply bind_ext. intros [[w o']|] ws; [apply bind_ext; intros; apply IH; lia|apply IH; lia].
      * destruct (next_byte =? 99); [apply IH; lia|]. apply bind_ext. intros. apply IH. lia.
    + rewrite <- (drop_S _ _ _ Hi1). apply bind_ext. intros. apply IH. lia.
  - apply lookup_ge_None in Hi1. rewrite drop_ge by lia. apply bind_ext. intros _ ws. rewrite IH by lia. rewrite drop_ge by lia. done.
Qed.

(** A string without directives is written as it is. *)
Lemma expand_plain fuel o s : forall args vs, 37 ∉ s -> expand fuel o s args vs = Some (Ok ((args, o), s, vs)).
Proof.
  induction s as [|b s IH]; intros args vs Hs; [done|]. apply not_elem_of_cons in Hs as [Hb Hs].
  assert (Hstep : (let^ _ := push [b] in expand fuel o s args) vs = Some (Ok ((args, o), b :: s, vs))).
  { unfold bind, push. rewrite IH by done. done. }
  cbn [expand]. destruct s; [exact Hstep|]. destruct (Z.eqb_spec b 37); [congruence|exact Hstep].
Qed.

(** *** Format strings return *)

(** What the engine documents: [Number], [parseInt] and [parseFloat] give
    numbers. *)
Definition is_number (v : value) : Prop := match v with Int _ | Float _ => True | _ => False end.

Definition numeric (f : value -> result js_error value) : Prop := forall v w, f v = Ok w -> is_number w.

Lemma number_safe v : is_number v -> safe to_i64 heap promises v.
Proof.
  intros Hn w d Hw. apply rtc_inv in Hw as [[= <- <-]|(y & Hy & _)]; [destruct v; done|]. inversion Hy; subst; done.
Qed.

Context (K N : nat) (rank : nat -> nat) (fuel : nat).
Hypothesis Hrank : forall i, (rank i <= K)%nat.
Hypothesis Hholds : forall i j, holds promises i j -> (rank j < rank i)%nat.
Hypothesis Hnumber : numeric number_function.
Hypothesis Hint : numeric parse_int.
Hypothesis Hfloat : numeric parse_float.
Hypothesis Hjson : finite_heap json_heap N.
Hypothesis Hfuel : (4 * (K + 2) + K + 2 <= fuel)%nat.
Hypothesis Hfuel' : (N + 20 <= fuel)%nat.

(** A value that can be printed, by any directive. *)
Definition printable (v : value) : Prop := safe to_i64 heap promises v ∧ known N (json_value v).

Lemma returns_json v : known N (json_value v) -> returns (json_stringify itoa ryu json_heap fuel v).
Proof.
  intros Hk vs. unfold json_stringify, JsonStringify.json_stringify, json_stringify_replacer_space.
  destruct (stringify_ends itoa ryu json_heap N None Hjson fuel (json_value v) None Hk Hfuel') as ([s|e] & -> & _); eauto.
Qed.

Lemma returns_directive o c v : printable v -> returns (direct fuel o c v).
Proof.
  intros [_ Hk]. pose proof (returns_json v Hk) as Hj. unfold directive. repeat returns_step.
Qed.

(** What is given back is printable too. *)
Lemma directive_gives o c v w o' : printable v -> gives (direct fuel o c v) (Some (w, o')) -> safe to_i64 heap promises w.
Proof.
  intros [Hs _] (vs & bs & vs' & H). unfold directive in H.
  assert (Hnum : forall f, numeric f -> forall k, bind (lift (f v)) (fun x => ret (Some (x, o))) k = Some (Ok (Some (w, o'), bs, vs')) -> safe to_i64 heap promises w).
  { intros f Hf k. unfold bind, lift. destruct (f v) as [x|e] eqn:Hx; [|done]. cbn. intros [= <- <- _ _]. apply number_safe, (Hf v x Hx). }
  destruct (c =? 115); [unfold bind, lift in H; destruct (to_string v); cbn in H; discriminate|].
  destruct (c =? 100); [exact (Hnum _ Hnumber _ H)|]. destruct (c =? 105); [exact (Hnum _ Hint _ H)|].
  destruct (c =? 102); [exact (Hnum _ Hfloat _ H)|].
  destruct (c =? 106); [unfold bind in H; destruct (json_stringify itoa ryu json_heap fuel v vs) as [[[[? ?] ?]|]|]; cbn in H; discriminate|].
  destruct (c =? 79); unfold ret in H; injection H as <- _ _ _; done.
Qed.

Lemma printable_tail v args : Forall printable (v :: args) -> printable v ∧ Forall printable args.
Proof. rewrite Forall_cons. done. Qed.

Lemma returns_loop bytes : forall steps o i args,
  (length bytes <= steps + i)%nat -> Forall printable args -> returns (loop steps fuel o bytes i args).
Proof.
  induction steps as [|steps IH]; intros o i args Hl Ha.
  { cbn [format_loop]. rewrite lookup_ge_None_2 by lia. apply returns_ret. }
  cbn [format_loop]. destruct (bytes !! i) as [byte|] eqn:Hi; [|apply returns_ret].
  assert (Hpush : forall bs j args, (i < j)%nat -> Forall printable args -> returns (let^ _ := push bs in loop steps fuel o bytes j args)).
  { intros bs j args' Hj Ha'. apply returns_bind; [apply returns_push|]. intros _ _. apply IH; [lia|done]. }
  destruct (bytes !! S i) as [next_byte|]; [|apply Hpush; auto]. destruct (byte =? 37); [|apply Hpush; auto].
  destruct args as [|v rest]; [apply Hpush; auto|]. pose proof (printable_tail _ _ Ha) as [Hv Hr].
  destruct (takes_value next_byte).
  - apply returns_bind; [apply returns_directive; done|]. intros [[w o']|] Hg; [|apply IH; [lia|done]].
    apply returns_bind; [|intros _ _; apply IH; [lia|done]].
    apply (returns_raw itoa ryu to_i64 heap promises K rank Hrank Hholds); [done|]. apply (directive_gives o next_byte v w o'); done.
  - destruct (next_byte =? 99); [apply IH; [lia|done]|apply Hpush; auto].
Qed.

(** What is left of the arguments is a part of them. *)
Lemma loop_left bytes : forall steps o i args rest o',
  Forall printable args -> gives (loop steps fuel o bytes i args) (rest, o') -> Forall printable rest.
Proof.
  induction steps as [|steps IH]; intros o i args rest o' Ha Hg; cbn [format_loop] in Hg.
  { destruct (bytes !! i); [destruct Hg as (? & ? & ? & ?); discriminate|]. apply gives_ret in Hg as [= -> ->]. done. }
  destruct (bytes !! i) as [byte|]; [|apply gives_ret in Hg as [= -> ->]; done].
  destruct (bytes !! S i) as [next_byte|]; [|apply gives_bind in Hg as (_ & _ & Hg); refine (IH _ _ _ _ _ _ Hg); done].
  destruct (byte =? 37); [|apply gives_bind in Hg as (_ & _ & Hg); refine (IH _ _ _ _ _ _ Hg); done].
  destruct args as [|v args]; [apply gives_bind in Hg as (_ & _ & Hg); refine (IH _ _ _ _ _ _ Hg); done|]. pose proof (printable_tail _ _ Ha) as [Hv Hr].
  destruct (takes_value next_byte).
  - apply gives_bind in Hg as ([[w p]|] & _ & Hg); [apply gives_bind in Hg as (_ & _ & Hg)|]; refine (IH _ _ _ _ _ _ Hg); done.
  - destruct (next_byte =? 99); [|apply gives_bind in Hg as (_ & _ & Hg)]; refine (IH _ _ _ _ _ _ Hg); done.
Qed.

Lemma returns_rest o args : Forall printable args -> returns (format_rest itoa ryu to_i64 heap promises fuel o args).
Proof.
  induction args as [|v args IH]; intros Ha; cbn [format_rest]; [apply returns_ret|]. apply printable_tail in Ha as [[Hv _] Ha].
  apply returns_bind; [apply returns_push|]. intros _ _. apply returns_bind; [|auto].
  apply (returns_raw itoa ryu to_i64 heap promises K rank Hrank Hholds); done.
Qed.

Lemma returns_build o args : Forall printable args ->
  returns (build_formatted_string itoa ryu to_i64 heap promises to_string number_function parse_int parse_float json_heap fuel args o).
Proof.
  intros Ha. unfold build_formatted_string. destruct args as [|v rest]; [apply returns_ret|]. pose proof (printable_tail _ _ Ha) as [[Hv _] Hr].
  pose proof (returns_raw itoa ryu to_i64 heap promises K rank Hrank Hholds o fuel v Hfuel Hv) as Hraw.
  assert (Hall : forall m : W (list value * FormatOptions), returns m -> (forall r p, gives m (r, p) -> Forall printable r) ->
    returns (let^ (r, p) := m in format_rest itoa ryu to_i64 heap promises fuel p r)).
  { intros m Hm Hg. apply returns_bind; [done|]. intros [r p] Hrp. apply returns_rest. apply (Hg r p Hrp). }
  assert (Hone : returns (let^ (r, p) := (let^ _ := raw fuel o v in ret (rest, o)) in format_rest itoa ryu to_i64 heap promises fuel p r)).
  { apply Hall; [repeat returns_step|]. intros r p Hg. apply gives_bind in Hg as (_ & _ & Hg). apply gives_ret in Hg as [= -> ->]. done. }
  destruct v as [| | | | | |s lone| | | |]; try exact Hone. destruct rest as [|v' rest]; [exact Hone|]. apply Hall.
  - apply returns_bind; [apply returns_lift|]. intros s' _. destruct (find_byte 37 s'); [apply returns_loop; [lia|done]|repeat returns_step].
  - intros r p Hg. apply gives_bind in Hg as (s' & _ & Hg). destruct (find_byte 37 s'); [eapply loop_left; done|].
    apply gives_bind in Hg as (_ & _ & Hg). apply gives_ret in Hg as [= -> ->]. done.
Qed.
End Strings.

(** ** What holds of the console's text *)

Section Results.
Context (itoa ryu : Z -> list Z) (to_i64 : Z -> option Z) (heap : nat -> object) (promises : nat -> promise_state).
Context (to_string : value -> result js_error (list Z)) (number_function parse_int parse_float : value -> result js_error value).
Context (json_heap : nat -> node).
Abbreviation format := (format_values itoa ryu to_i64 heap promises to_string number_function parse_int parse_float json_heap).

(** C14: formatting returns, on objects that contain themselves too: no
    unchecked unwrap is reached, no index is out of bounds and the recursion
    ends. The conditions: every value that is shown is [printable], that is,
    bigints have 64 bits, symbols have descriptions, errors with a stack are
    less than four levels deep, objects called [Date] have [toISOString], and
    its JSON form is one of the objects below [N] ([known]); chains of
    promises end ([rank]); %d, %i and %f give numbers; the objects that %j
    serializes are fewer than [N] and none of them has toJSON ([finite_heap]),
    since an object whose toJSON returns itself is serialized without end. *)
Theorem format_returns K N rank fuel args tty newline :
  (forall i, (rank i <= K)%nat) -> (forall i j, holds promises i j -> (rank j < rank i)%nat) ->
  numeric number_function -> numeric parse_int -> numeric parse_float -> finite_heap json_heap N ->
  (4 * (K + 2) + K + 2 <= fuel)%nat -> (N + 20 <= fuel)%nat ->
  Forall (printable to_i64 heap promises N) args ->
  exists r, format fuel args tty newline = Some r.
Proof.
  intros Hr Hh Hn Hi Hf Hj Hfu Hfu' Ha. unfold format_values.
  destruct (returns_build itoa ryu to_i64 heap promises to_string number_function parse_int parse_float json_heap
    K N rank fuel Hr Hh Hn Hi Hf Hj Hfu Hfu' (mkOptions tty newline true) args Ha []) as [[[[? ?] ?]|] ->]; eauto.
Qed.

(** C16: colors change nothing else: the text for a terminal is the text for a
    file with color codes in between, and the same calls throw. *)
Theorem format_colors fuel args newline :
  match format fuel args true newline, format fuel args false newline with
  | Some (Ok s), Some (Ok t) => uncolored s t
  | Some (Err e1), Some (Err e2) => e1 = e2
  | None, None => True
  | _, _ => False
  end.
Proof.
  pose proof (alike_build uncolored uncolored_refl uncolored_app itoa ryu to_i64 heap promises to_string number_function parse_int parse_float
    json_heap fuel args _ _ (uncolored_similar newline true) []) as H. unfold format_values.
  destruct (build_formatted_string _ _ _ _ _ _ _ _ _ _ _ _ _ _) as [[[[? ?] ?]|]|], (build_formatted_string _ _ _ _ _ _ _ _ _ _ _ _ _ _) as [[[[? ?] ?]|]|];
    tauto.
Qed.

(** The two kinds of line ends give the same text, once replaced. *)
Lemma format_lines fuel args tty :
  match format fuel args tty false, format fuel args tty true with
  | Some (Ok s), Some (Ok t) => replace_newline_with_carriage_return s = replace_newline_with_carriage_return t
  | Some (Err e1), Some (Err e2) => e1 = e2
  | None, None => True
  | _, _ => False
  end.
Proof.
  pose proof (alike_build same_lines ltac:(done) same_lines_app itoa ryu to_i64 heap promises to_string number_function parse_int parse_float
    json_heap fuel args _ _ (lines_similar tty true) []) as H. unfold format_values.
  destruct (build_formatted_string _ _ _ _ _ _ _ _ _ _ _ _ _ _) as [[[[? ?] ?]|]|], (build_formatted_string _ _ _ _ _ _ _ _ _ _ _ _ _ _) as [[[[? ?] ?]|]|];
    rewrite ?replace_eq; tauto.
Qed.

(** The loop over the bytes of a format string, with its index and its
    peeks at the next byte and the next argument, does what the directives
    mean: [expand] reads the string from the left, and the arguments it leaves
    are printed after it. *)
Theorem format_string_expands fuel s v args tty newline :
  format fuel (Str s false :: v :: args) tty newline =
  match (let^ (rest, o) := expand itoa ryu to_i64 heap promises to_string number_function parse_int parse_float json_heap
           fuel (mkOptions tty newline true) s (v :: args) in
         format_rest itoa ryu to_i64 heap promises fuel o rest) [] with
  | None => None
  | Some (Err e) => Some (Err e)
  | Some (Ok (_, bs, _)) => Some (Ok bs)
  end.
Proof.
  unfold format_values, build_formatted_string. set (o := mkOptions tty newline true).
  assert (Hhead : forall vs, (let^ s' := lift (Ok s) in
    match find_byte 37 s' with
    | None => let^ _ := format_raw_string_inner s' false (color o) in ret (v :: args, o)
    | Some _ => format_loop itoa ryu to_i64 heap promises to_string number_function parse_int parse_float json_heap
        (length s') fuel o s' 0 (v :: args)
    end) vs =
    expand itoa ryu to_i64 heap promises to_string number_function parse_int parse_float json_heap fuel o s (v :: args) vs).
  { intros vs. unfold bind at 1. cbn [lift]. destruct (find_byte 37 s) as [k|] eqn:Hk.
    - rewrite loop_expand, drop_0 by lia. destruct (expand _ _ _ _ _ _ _ _ _ _ _ _ _ _ _) as [[[[? ?] ?]|]|]; done.
    - apply find_byte_None in Hk. rewrite expand_plain by done. unfold bind, format_raw_string_inner, bind, push. cbn. rewrite !app_nil_r. done. }
  unfold bind at 1. rewrite Hhead. unfold bind at 1. reflexivity.
Qed.
End Results.

(** ** Concrete runs *)

Definition sample_itoa (n : Z) : list Z :=
  if n <? 0 then str "-" else if n <? 10 then [48 + n] else [48 + n / 10; 48 + n mod 10].

Definition plain (ms : list (list Z * value)) : object :=
  {| o_type := TypeObject; o_error := None; o_class_name := Ok (Some (str "Object")); o_iso := None;
     o_source := Err FromJs; o_flags := Err FromJs; o_is_array := false; o_inspect := None;
     o_keys := Some <$> ms.*1; o_object_keys := Some ms.*1; o_proto := None;
     o_get := fun k => Ok (default Undefined (snd <$> (list_find (fun p => p.1 = k) ms ≫= fun x => Some x.2))) |}.

Definition named (n : string) : object :=
  {| o_type := TypeObject; o_error := None; o_class_name := Ok (Some (str n)); o_iso := None;
     o_source := Err FromJs; o_flags := Err FromJs; o_is_array := false; o_inspect := None;
     o_keys := []; o_object_keys := None; o_proto := None; o_get := fun _ => Ok Undefined |}.

Definition error_with_stack : object :=
  {| o_type := TypeException;
     o_error := Some {| e_name := Ok (str "Error"); e_message := Ok (str "no"); e_stack := Some (str "    at f" ++ [10] ++ str "    at g") |};
     o_class_name := Ok (Some (str "Error")); o_iso := None;
     o_source := Err FromJs; o_flags := Err FromJs; o_is_array := false; o_inspect := None;
     o_keys := []; o_object_keys := None; o_proto := None; o_get := fun _ => Ok Undefined |}.

Definition array_of (n : nat) : object :=
  {| o_type := TypeArray; o_error := None; o_class_name := Ok None; o_iso := None;
     o_source := Err FromJs; o_flags := Err FromJs; o_is_array := true; o_inspect := None;
     o_keys := replicate n (Some (str "k")); o_object_keys := None; o_proto := None; o_get := fun _ => Ok (Int 7) |}.

Definition sample_objects (i : nat) : object :=
  match i with
  | 0%nat => plain [(str "a", Int 1); (str "7", Str (str "x") false); (str "self", Obj 0); (str "p", Promise 0)]
  | 1%nat => plain [(str "x", Obj 2); (str "y", Obj 2)]
  | 2%nat => plain []
  | 3%nat => plain [(str "a", Obj 4)]
  | 4%nat => plain [(str "a", Obj 5)]
  | 5%nat => plain [(str "a", Obj 6)]
  | 6%nat => plain [(str "a", Obj 7)]
  | 7%nat => error_with_stack
  | 8%nat => named "Date"
  | _ => array_of 105
  end.

Definition sample_promises (i : nat) : promise_state :=
  match i with
  | 0%nat => Resolved (Bool true)
  | 1%nat => Rejected (Promise 1)
  | _ => Pending
  end.

Definition sample_number (v : value) : result js_error value :=
  Ok (match v with Int n => Int n | Bool b => Int (if b then 1 else 0) | _ => Float S754_nan end).

Definition sample_string (v : value) : result js_error (list Z) :=
  match v with
  | Sym _ => Err FromJs
  | Str s _ => Ok s
  | _ => Ok (str "[object Object]")
  end.

Definition sample_json (i : nat) : node := sample_object [(str "a", TInt 1)].

Definition run (args : list value) (tty newline : bool) : option (result js_error (list Z)) :=
  format_values sample_itoa sample_itoa (fun n => if in_range (-9) 9 n then Some n else None) sample_objects sample_promises
    sample_string sample_number sample_number sample_number sample_json 40 args tty newline.

Example run_cyclic :
  run [Str (str "%d%%|%s|%j|%x") false; Int 5; Str (str "s") false; Obj 0; Obj 0] false false =
  Some (Ok (str "5%|s|{" ++ [34] ++ str "a" ++ [34] ++ str ":1}|%x {" ++ [13] ++ str "  a: 1," ++ [13] ++ str "  '7': 'x'," ++ [13] ++
            str "  self: [Circular]," ++ [13] ++ str "  p: Promise {" ++ [13] ++ str "    true" ++ [13] ++ str "  }" ++ [13] ++ str "}")).
Proof. vm_compute. reflexivity. Qed.

Example run_color : run [Int 1; Null] true true = Some (Ok (color_code YELLOW ++ str "1" ++ color_code RESET ++ str " " ++
  color_code BOLD ++ str "null" ++ color_code RESET)).
Proof. vm_compute. reflexivity. Qed.

(** *** The hypotheses hold of concrete values *)

(** A set of values closed under what is printed. *)
Lemma safe_closed to_i64 heap promises (P : value -> Prop) :
  (forall v d w e, P v -> shows heap promises (v, d) (w, e) -> P w) -> (forall v d, P v -> safe_at to_i64 heap v d) ->
  forall v, P v -> safe to_i64 heap promises v.
Proof.
  intros Hstep Hsafe v Hv w d Hw. apply Hsafe.
  assert (H : forall x y : value * nat, rtc (shows heap promises) x y -> P x.1 -> P y.1).
  { intros x y Hxy. induction Hxy as [|[x1 d1] [y1 d2] z Hs Hr IH]; [done|]. intros Hx. apply IH. apply (Hstep x1 d1 y1 d2); done. }
  apply (H _ _ Hw). exact Hv.
Qed.

Definition quiet_promises (i : nat) : promise_state := match i with 0%nat => Resolved (Obj 0) | _ => Pending end.

Definition sample_values (v : value) : Prop :=
  match v with
  | BigInt _ | Sym _ | Fun _ => False
  | Obj i => i = 0%nat
  | Promise i => (i < 2)%nat
  | _ => True
  end.

Lemma plain_get ms k v : o_get (plain ms) k = Ok v -> v = Undefined ∨ v ∈ ms.*2.
Proof.
  cbn. destruct (list_find _ ms) as [[i [k' w]]|] eqn:E; cbn; intros [= <-]; [|left; done]. right.
  apply list_find_Some in E as (Hi & _). apply list_elem_of_fmap. exists (k', w). split; [done|]. by eapply list_elem_of_lookup_2.
Qed.

Lemma sample_values_safe v : sample_values v -> safe (fun n => Some n) sample_objects quiet_promises v.
Proof.
  apply (safe_closed _ _ _ sample_values).
  - intros x d w e Hx Hs. inversion Hs as [i d' v' Hp|i d' ob k v' Hd He Hob Hl Hg]; subst; cbn in Hx.
    + destruct i as [|i]; cbn in Hp; destruct Hp as [[= <-]|Hp]; try discriminate; done.
    + subst i. destruct Hob as [[_ ->]|(j & Hj & _)]; [|discriminate]. apply plain_get in Hg as [->|Hg]; [done|].
      cbn in Hg. set_unfold. destruct Hg as [->|[->|[->|[->|[]]]]]; cbn; auto.
  - intros x d Hx. destruct x; cbn in *; try done. subst i. cbn. discriminate.
Qed.

Lemma sample_json_finite : finite_heap sample_json 9.
Proof.
  split.
  - intros o k q Hq. apply sample_object_get in Hq. apply list_elem_of_singleton in Hq. discriminate.
  - intros o q Hq. apply elem_of_nil in Hq. done.
  - intros o. discriminate.
Qed.

Lemma format_returns_witness :
  exists r, format_values sample_itoa sample_itoa (fun n => Some n) sample_objects quiet_promises sample_string sample_number sample_number
    sample_number sample_json 40 [Str (str "%d %j") false; Int 5; Obj 0; Promise 0] true true = Some r.
Proof.
  apply (format_returns sample_itoa sample_itoa (fun n => Some n) sample_objects quiet_promises sample_string sample_number sample_number
    sample_number sample_json 0 9 (fun _ => 0%nat)); [lia| | | | |apply sample_json_finite|lia|lia|].
  - intros i j [H|H]; destruct i; discriminate.
  - intros v w [= <-]. destruct v; exact I.
  - intros v w [= <-]. destruct v; exact I.
  - intros v w [= <-]. destruct v; exact I.
  - repeat (apply Forall_cons; split; [split; [apply sample_values_safe|]|]); try apply Forall_nil; cbn; try lia; try exact I;
      intros o Ho; try discriminate; injection Ho as <-; lia.
Defined.

(** *** Where the text is not what one expects *)

(** [%c] leaves its value to the next directive, which it should be spared. *)
Example percent_c_keeps_value :
  run [Str (str "%c%s") false; Str (str "color: red") false; Str (str "text") false] false true = Some (Ok (str "color: red text")).
Proof. vm_compute. reflexivity. Qed.

(** An object that is there twice, and not inside itself, is called circular. *)
Example shared_object_circular :
  run [Obj 1] false true = Some (Ok (str "{" ++ [10] ++ str "  x: {}," ++ [10] ++ str "  y: [Circular]" ++ [10] ++ str "}")).
Proof. vm_compute. reflexivity. Qed.

(** Of 105 elements 101 are printed, and five more are announced. *)
Example more_items_off_by_one :
  run [Obj 9] false true = Some (Ok (str "[ 7" ++ concat (replicate 100 (str ", 7")) ++ str "... 5 more items ]")).
Proof. vm_compute. reflexivity. Qed.

Section Panics.
Context (itoa ryu : Z -> list Z) (to_i64 : Z -> option Z) (tty newline : bool) (fuel : nat).
Abbreviation attempt v := (format_values itoa ryu to_i64 sample_objects sample_promises
  sample_string sample_number sample_number sample_number sample_json fuel [v] tty newline).

(** Whatever the fuel: the index of the indentation is out of bounds. *)
Lemma deep_error_panics : attempt (Obj 3) = None.
Proof.
  destruct fuel as [|[|[|[|[|n]]]]]; destruct tty, newline; reflexivity.
Qed.

(** The unwrap of [toISOString] fails. *)
Lemma false_date_panics : attempt (Obj 8) = None.
Proof. destruct fuel as [|n]; [|destruct tty, newline]; reflexivity. Qed.

(** The unchecked unwrap of a description is undefined behaviour. *)
Lemma plain_symbol_undefined : attempt (Sym None) = None.
Proof. destruct fuel as [|n]; [|destruct tty, newline]; reflexivity. Qed.

(** A promise that is rejected with itself is printed for ever. *)
Lemma self_rejected_promise_diverges : attempt (Promise 1) = None.
Proof.
  assert (H : forall n o d vs, format_raw_inner itoa ryu to_i64 sample_objects sample_promises n o d (Promise 1) vs = None).
  { induction n as [|n IH]; intros o d vs; [done|]. cbn [format_raw_inner].
    unfold format_promise. cbn [sample_promises]. destruct (Nat.ltb_spec d 2) as [Hd|Hd].
    - destruct d as [|[|d]]; [| |lia]; destruct o as [[] [] k]; unfold bind; cbn; rewrite IH; done.
    - destruct o as [[] [] k]; unfold bind; cbn; rewrite IH; done. }
  unfold format_values, build_formatted_string, format_raw, bind. rewrite H. done.
Qed.
End Panics.
