(* ===== verification/Console.v ===== *)
(** * The console (src/llrt_core/src/modules/console.rs, src/modules/llrt_console/src/lib.rs)

    The methods of the console on a terminal, in a file and in a Lambda
    function, where a call gives one line of text or one JSON record; counters
    and timers by their label.  [Logging] formats the arguments.  The clock,
    the request's id and what [Exception::message] and [Exception::stack] read
    of an error are parameters; writing to a stream never fails, as its errors
    are ignored. *)
From Stdlib Require Import ZArith Lia SpecFloat.
From stdpp Require Import base list numbers strings gmap.
From S2P Require Import JsonEscape Prelude F64 Utf8 Js RustStr JsonStringify Logging.
Local Open Scope Z_scope.

(** ** Levels and the mode *)

Inductive LogLevel : Type := Trace | Debug | Info | Warn | Error | Fatal.

(** [level as usize]. *)
Definition level_number (l : LogLevel) : Z :=
  match l with Trace => 0 | Debug => 1 | Info => 2 | Warn => 4 | Error => 8 | Fatal => 16 end.

Definition level_to_string (l : LogLevel) : list Z :=
  str (match l with
       | Trace => "TRACE" | Debug => "DEBUG" | Info => "INFO" | Warn => "WARN" | Error => "ERROR" | Fatal => "FATAL"
       end).

Definition level_from_str (s : list Z) : LogLevel :=
  if bool_decide (s = str "TRACE") then Trace
  else if bool_decide (s = str "DEBUG") then Debug
  else if bool_decide (s = str "INFO") then Info
  else if bool_decide (s = str "WARN") then Warn
  else if bool_decide (s = str "ERROR") then Error
  else if bool_decide (s = str "FATAL") then Fatal
  else Info.

(** The three static variables. *)
Record lambda_mode := mkMode { lambda : bool; json_format : bool; max_level : Z }.

Definition initial_mode : lambda_mode := mkMode false false (level_number Info).

(** The environment's [AWS_LAMBDA_LOG_FORMAT] and [AWS_LAMBDA_LOG_LEVEL]. *)
Definition lambda_mode_initializer (format level : option (list Z)) : lambda_mode :=
  mkMode true (bool_decide (format = Some (str "JSON"))) (level_number (level_from_str (default [] level))).

(** ** New JSON objects *)

Definition new_object (ms : list (list Z * JsonStringify.value)) : node :=
  {| is_array := false; own_keys := ms.*1; JsonStringify.object_keys := [];
     get_prop := fun k => Ok (default TUndefined (snd <$> (list_find (fun p => p.1 = k) ms ≫= fun x => Some x.2)));
     elems := []; has_to_json := Ok false; to_json := Ok TUndefined |}.

Definition new_array (vs : list JsonStringify.value) : node :=
  {| is_array := true; own_keys := []; JsonStringify.object_keys := []; get_prop := fun _ => Ok TUndefined;
     elems := Ok <$> vs; has_to_json := Ok false; to_json := Ok TUndefined |}.

(** The object that stands for an error: address 0, and its stack address 1. *)
Definition error_heap (class_name message stack : option (list Z)) (a : nat) : node :=
  match a with
  | O => new_object
      ([(str "errorType", from_option TString TUndefined class_name)] ++
       from_option (fun m => [(str "errorMessage", TString m)]) [] message ++
       from_option (fun _ => [(str "stackTrace", TObject 1)]) [] stack)
  | _ => new_array (from_option (fun s => TString <$> split_on 10 s) [] stack)
  end.

Section Console.
Context (itoa ryu : Z -> list Z) (to_i64 : Z -> option Z) (heap : nat -> object) (promises : nat -> promise_state).
Context (to_string : value -> result js_error (list Z)) (number_function parse_int parse_float : value -> result js_error value).
Context (json_heap : nat -> node).
(** [Exception::message] and [Exception::stack] of the error at an address. *)
Context (exception_message exception_stack : nat -> option (list Z)).
Abbreviation build := (build_formatted_string itoa ryu to_i64 heap promises to_string number_function parse_int parse_float json_heap).
Abbreviation text_of := (format_values itoa ryu to_i64 heap promises to_string number_function parse_int parse_float json_heap).

(** The address of a value that is an error. *)
Definition as_error (v : value) : option nat :=
  match v with
  | Obj i => match o_error (heap i) with Some _ => Some i | None => None end
  | _ => None
  end.

(** The first argument that is an error. *)
Fixpoint first_error (args : list value) : option nat :=
  match args with
  | [] => None
  | v :: args => match as_error v with Some i => Some i | None => first_error args end
  end.

Definition done_json (r : outcome (option (list Z))) : W (option (list Z)) :=
  match r with Done r => lift r | OutOfFuel => panic end.

(** The only argument, as JSON. *)
Definition message_json (fuel : nat) (v : value) : W (option (list Z)) :=
  match as_error v with
  | Some i =>
      let^ class_name := lift (o_class_name (heap i)) in
      done_json (JsonStringify.json_stringify itoa ryu ryu (error_heap class_name (exception_message i) (exception_stack i)) fuel (TObject 0))
  | None => json_stringify itoa ryu json_heap fuel v
  end.

Definition quote (s : list Z) : list Z := [34] ++ s ++ [34].

Fixpoint write_traces (write_comma : bool) (traces : list (list Z)) : W unit :=
  match traces with
  | [] => ret tt
  | trace :: traces =>
      let^ _ := if write_comma then push [44] else ret tt in
      let^ _ := push (quote trace) in
      write_traces true traces
  end.

(** The fields for an error among several arguments. *)
Definition write_exception (i : nat) : W unit :=
  let^ _ := push ([44] ++ quote (str "errorType") ++ [58; 34]) in
  let^ class_name := lift (o_class_name (heap i)) in
  let^ _ := push (default (str "Exception") class_name) in
  let^ _ := push [34; 44] in
  let^ _ :=
    match exception_message i with
    | Some message => push (quote (str "errorMessage") ++ [58] ++ quote message ++ [44])
    | None => ret tt
    end in
  let^ _ := push (quote (str "stackTrace") ++ [58; 91]) in
  let^ _ :=
    match exception_stack i with
    | Some stack => if bool_decide (stack = []) then ret tt else write_traces false (split_on 10 stack)
    | None => ret tt
    end in
  push [93].

(** What [build_formatted_string] writes to a string of its own. *)
Definition collected (m : W unit) : W (list Z) := fun vs =>
  match m [] with
  | None => None
  | Some (Err e) => Some (Err e)
  | Some (Ok (_, bs, _)) => Some (Ok (bs, [], vs))
  end.

Definition write_message (fuel : nat) (args : list value) (is_tty : bool) : W unit :=
  match args with
  | [v] =>
      let^ json := message_json fuel v in
      match json with
      | Some json => push ([44] ++ quote (str "message") ++ [58] ++ json)
      | None => ret tt
      end
  | _ =>
      let^ _ := push ([44] ++ quote (str "message") ++ [58; 34]) in
      let exception := first_error args in
      let^ values := collected (build fuel args (mkOptions is_tty true true)) in
      let^ _ := push (escape_json values ++ [34]) in
      match exception with
      | Some i => write_exception i
      | None => ret tt
      end
  end.

(** The whole string is changed, with what was written to it before. *)
Definition replacing (f : list Z -> list Z) (m : W unit) : W unit := fun vs =>
  match m vs with
  | None => None
  | Some (Err e) => Some (Err e)
  | Some (Ok (a, bs, vs)) => Some (Ok (a, f bs, vs))
  end.

(** [None] is a call below the level, for which nothing is written. *)
Definition write_lambda_log (fuel : nat) (time : list Z) (request_id : option (list Z)) (args : list value)
    (level : LogLevel) (is_tty is_json_log_format : bool) (max_log_level : Z) : option (result js_error (option (list Z))) :=
  if is_json_log_format && (level_number level <? max_log_level) then Some (Ok None)
  else
    let is_newline := is_tty in
    let written : W unit :=
      if is_json_log_format then
        let^ _ := push [123] in
        let^ _ := push (quote (str "time") ++ [58] ++ quote time ++ [44]) in
        let^ _ :=
          match request_id with
          | Some id => push (quote (str "requestId") ++ [58] ++ quote id ++ [44])
          | None => ret tt
          end in
        let^ _ := push (quote (str "level") ++ [58] ++ quote (level_to_string level)) in
        let^ _ := write_message fuel args is_tty in
        push [125]
      else
        replacing replace_newline_with_carriage_return
          (let^ _ := push (time ++ [9]) in
           let^ _ := push (default (str "n/a") request_id) in
           let^ _ := push ([9] ++ level_to_string level ++ [9]) in
           build fuel args (mkOptions (is_tty && negb is_json_log_format) is_newline true)) in
    match written [] with
    | None => None
    | Some (Err e) => Some (Err e)
    | Some (Ok (_, bs, _)) => Some (Ok (Some bs))
    end.

(** What is written to the stream. *)
Definition write_log (fuel : nat) (time : list Z) (request_id : option (list Z)) (m : lambda_mode) (is_tty : bool)
    (args : list value) (level : LogLevel) : option (result js_error (list Z)) :=
  let is_lambda_mode := lambda m && negb is_tty in
  let written :=
    if is_lambda_mode then write_lambda_log fuel time request_id args level is_tty (json_format m) (max_level m)
    else
      match text_of fuel args is_tty true with
      | None => None
      | Some (Err e) => Some (Err e)
      | Some (Ok bs) => Some (Ok (Some bs))
      end in
  match written with
  | None => None
  | Some (Err e) => Some (Err e)
  | Some (Ok None) => Some (Ok [])
  | Some (Ok (Some bs)) => Some (Ok (bs ++ [10]))
  end.

(** The console of llrt_console, and [print_error]. *)
Definition plain_write_log (fuel : nat) (is_tty : bool) (args : list value) : option (result js_error (list Z)) :=
  match text_of fuel args is_tty true with
  | None => None
  | Some (Err e) => Some (Err e)
  | Some (Ok bs) => Some (Ok (bs ++ [10]))
  end.

Definition print_error (fuel : nat) (is_tty : bool) (args : list value) : option (result js_error (list Z)) :=
  plain_write_log fuel is_tty args.

(** Outside of a Lambda function, and on a terminal, the two consoles agree. *)
Lemma consoles_agree fuel time request_id m is_tty args level :
  lambda m = false ∨ is_tty = true -> write_log fuel time request_id m is_tty args level = plain_write_log fuel is_tty args.
Proof.
  intros H. unfold write_log, plain_write_log. assert (Hl : lambda m && negb is_tty = false) by (destruct H as [-> | ->]; [|destruct (lambda m)]; done).
  rewrite Hl. destruct (text_of fuel args is_tty true) as [[|]|]; done.
Qed.
End Console.

(** ** The methods *)

Inductive stream : Type := Stdout | Stderr.

Inductive method : Type := LogFatal | LogError | LogWarn | LogDebug | LogTrace | LogAssert (expression : bool) | Log.

(** The stream and the level of a method; an assertion that holds does nothing. *)
Definition method_output (m : method) : option (stream * LogLevel) :=
  match m with
  | LogFatal => Some (Stderr, Fatal)
  | LogError => Some (Stderr, Error)
  | LogWarn => Some (Stderr, Warn)
  | LogDebug => Some (Stdout, Debug)
  | LogTrace => Some (Stdout, Trace)
  | LogAssert expression => if expression then None else Some (Stderr, Error)
  | Log => Some (Stdout, Info)
  end.

(** What [clear] writes. *)
Definition clear (is_tty : bool) : list Z := if is_tty then [27] ++ str "[1;1H" ++ [27] ++ str "[0J" else [].

(** ** Counters and timers (llrt_console) *)

(** A start is a time in nanoseconds. *)
Record ConsoleState := mkState { counters : gmap (list Z) Z; timers : gmap (list Z) Z }.

Definition default_state : ConsoleState := mkState ∅ ∅.

Definition get_label (label : option (list Z)) : list Z := default (str "default") label.

(** [Instant::elapsed], which is not negative, [as_millis]. *)
Definition elapsed_millis (start now : Z) : Z := Z.max 0 (now - start) / 1000000.

Section Calls.
Context (itoa : Z -> list Z).
(** [build_formatted_string] for the standard output. *)
Context (format : list value -> option (result js_error (list Z))).

Definition console_count (label : option (list Z)) (s : ConsoleState) : ConsoleState * list Z :=
  let label := get_label label in
  let count := wrap 32 (default 0 (counters s !! label) + 1) in
  (mkState (<[label := count]> (counters s)) (timers s), label ++ str ": " ++ itoa count ++ [10]).

Definition console_count_reset (label : option (list Z)) (s : ConsoleState) : ConsoleState :=
  mkState (delete (get_label label) (counters s)) (timers s).

Definition console_time (now : Z) (label : option (list Z)) (s : ConsoleState) : ConsoleState :=
  let label := get_label label in
  match timers s !! label with
  | Some _ => s
  | None => mkState (counters s) (<[label := now]> (timers s))
  end.

(** What is written, and the exception that may end it. *)
Definition console_time_log (now : Z) (label : option (list Z)) (args : list value) (s : ConsoleState) :
    option (list Z * result js_error unit) :=
  let label := get_label label in
  match timers s !! label with
  | None => Some ([], Ok tt)
  | Some start =>
      let head := label ++ str ": " ++ itoa (elapsed_millis start now) ++ str "ms" in
      if (length args =? 0)%nat then Some (head ++ [10], Ok tt)
      else
        match format args with
        | None => None
        | Some (Err e) => Some (head ++ [32], Err e)
        | Some (Ok text) => Some (head ++ [32] ++ text ++ [10], Ok tt)
        end
  end.

Definition console_time_end (now : Z) (label : option (list Z)) (s : ConsoleState) : ConsoleState * list Z :=
  let label := get_label label in
  match timers s !! label with
  | None => (s, [])
  | Some start => (mkState (counters s) (delete label (timers s)), label ++ str ": " ++ itoa (elapsed_millis start now) ++ str "ms" ++ [10])
  end.

Inductive call : Type :=
| Count (label : option (list Z))
| CountReset (label : option (list Z))
| Time (now : Z) (label : option (list Z))
| TimeEnd (now : Z) (label : option (list Z)).

Definition perform (c : call) (s : ConsoleState) : ConsoleState * list Z :=
  match c with
  | Count label => console_count label s
  | CountReset label => (console_count_reset label s, [])
  | Time now label => (console_time now label s, [])
  | TimeEnd now label => console_time_end now label s
  end.

(** The state after calls, the last call first. *)
Fixpoint after (cs : list call) : ConsoleState :=
  match cs with
  | [] => default_state
  | c :: cs => (perform c (after cs)).1
  end.

(** *** By the history of calls *)

(** The calls of [count] for a label since its last reset. *)
Fixpoint counted (label : list Z) (cs : list call) : Z :=
  match cs with
  | [] => 0
  | Count l :: cs => counted label cs + (if bool_decide (get_label l = label) then 1 else 0)
  | CountReset l :: cs => if bool_decide (get_label l = label) then 0 else counted label cs
  | _ :: cs => counted label cs
  end.

(** The first call of [time] for a label since its last end. *)
Fixpoint started (label : list Z) (cs : list call) : option Z :=
  match cs with
  | [] => None
  | Time now l :: cs =>
      match started label cs with
      | Some start => Some start
      | None => if bool_decide (get_label l = label) then Some now else None
      end
  | TimeEnd _ l :: cs => if bool_decide (get_label l = label) then None else started label cs
  | _ :: cs => started label cs
  end.

Lemma after_timers cs label : timers (after cs) !! label = started label cs.
Proof.
  induction cs as [|[l|l|now l|now l] cs IH]; cbn; [done|exact IH|exact IH|..].
  - unfold console_time. case_bool_decide as Hl.
    + subst label. rewrite <- IH. destruct (timers (after cs) !! get_label l) eqn:E; [rewrite E; done|]. cbn. rewrite lookup_insert_eq. done.
    + rewrite <- IH. destruct (timers (after cs) !! get_label l) eqn:E; [destruct (timers (after cs) !! label); done|].
      cbn. rewrite lookup_insert_ne by done. destruct (timers (after cs) !! label); done.
  - unfold console_time_end. case_bool_decide as Hl.
    + subst label. destruct (timers (after cs) !! get_label l) eqn:E; cbn; [rewrite lookup_delete_eq; done|rewrite E; done].
    + rewrite <- IH. destruct (timers (after cs) !! get_label l); cbn; [rewrite lookup_delete_ne by done|]; done.
Qed.

Lemma after_counters cs label : default 0 (counters (after cs) !! label) = wrap 32 (counted label cs).
Proof.
  induction cs as [|[l|l|now l|now l] cs IH]; cbn; [done|..].
  - case_bool_decide as Hl.
    + subst label. rewrite lookup_insert_eq. cbn. rewrite IH. unfold wrap. rewrite Zplus_mod_idemp_l. done.
    + rewrite lookup_insert_ne by done. rewrite IH. f_equal. lia.
  - case_bool_decide as Hl; [subst label; rewrite lookup_delete_eq; done|]. rewrite lookup_delete_ne by done. exact IH.
  - unfold console_time. destruct (timers (after cs) !! get_label l); exact IH.
  - unfold console_time_end. destruct (timers (after cs) !! get_label l); exact IH.
Qed.

(** C17: whatever was called before, [count] writes how often it was called for
    its label since the last reset, this call included (in 32 bits), and
    [timeEnd] and [timeLog] write the time since the first [time] for their
    label that no [timeEnd] followed, or nothing if there is none; other labels
    do not matter. *)
Theorem console_history cs label now :
  (console_count label (after cs)).2 = get_label label ++ str ": " ++ itoa (wrap 32 (counted (get_label label) (Count label :: cs))) ++ [10] ∧
  (console_time_end now label (after cs)).2 =
    from_option (fun start => get_label label ++ str ": " ++ itoa (elapsed_millis start now) ++ str "ms" ++ [10]) [] (started (get_label label) cs) ∧
  console_time_log now label [] (after cs) = Some ((console_time_end now label (after cs)).2, Ok tt).
Proof.
  split; [|split].
  - cbn [console_count snd counted]. rewrite after_counters, bool_decide_true by done. unfold wrap. rewrite Zplus_mod_idemp_l. done.
  - unfold console_time_end. rewrite after_timers. destruct (started (get_label label) cs); done.
  - unfold console_time_log, console_time_end. destruct (timers (after cs) !! get_label label); cbn [length Nat.eqb snd]; [|done]. rewrite <- !app_assoc. done.
Qed.
End Calls.

(** ** Lambda: lines of text *)

Lemma no_line_end s : 10 ∉ to_carriage_returns s.
Proof.
  unfold to_carriage_returns. rewrite list_elem_of_fmap. intros (b & Hb & _). destruct (Z.eqb_spec b 10); lia.
Qed.

(** What is written first is in front. *)
Lemma push_first {A} bs (m : W A) vs :
  (let^ _ := push bs in m) vs =
  match m vs with
  | Some (Ok (a, t, vs)) => Some (Ok (a, bs ++ t, vs))
  | r => r
  end.
Proof. unfold bind, push. destruct (m vs) as [[[[? ?] ?]|]|]; done. Qed.

(** Concatenations as right-nested lists. *)
Ltac appify := repeat (rewrite <- ?app_assoc; cbn [app]); rewrite ?app_nil_r.

(** The rest of a computation whose first part is known. *)
Lemma then_first {A B} (m : W A) (k : A -> W B) vs a bs ws b t ws' :
  m vs = Some (Ok (a, bs, ws)) -> k a ws = Some (Ok (b, t, ws')) -> bind m k vs = Some (Ok (b, bs ++ t, ws')).
Proof. intros Hm Hk. unfold bind. rewrite Hm, Hk. done. Qed.

Section Lambda.
Context (itoa ryu : Z -> list Z) (to_i64 : Z -> option Z) (heap : nat -> object) (promises : nat -> promise_state).
Context (to_string : value -> result js_error (list Z)) (number_function parse_int parse_float : value -> result js_error value).
Context (json_heap : nat -> node) (exception_message exception_stack : nat -> option (list Z)).
Context (fuel : nat) (time : list Z) (request_id : option (list Z)).
Abbreviation text_of := (format_values itoa ryu to_i64 heap promises to_string number_function parse_int parse_float json_heap fuel).
Abbreviation log m args level := (write_log itoa ryu to_i64 heap promises to_string number_function parse_int parse_float json_heap
  exception_message exception_stack fuel time request_id m false args level).

(** The parts of a line before the text. *)
Definition line_head (level : LogLevel) : list Z :=
  time ++ [9] ++ default (str "n/a") request_id ++ [9] ++ level_to_string level ++ [9].

(** In a Lambda function with text logs a call writes one line: the time,
    the request, the level and the text the same call writes to a file, in which
    every line end is a carriage return; it throws when that call throws. *)
Theorem lambda_text_line m args level :
  lambda m = true -> json_format m = false ->
  match text_of args false true with
  | Some (Ok text) => exists line, log m args level = Some (Ok (line ++ [10])) ∧ (10 ∉ line) ∧
      line = to_carriage_returns (line_head level ++ text)
  | Some (Err e) => log m args level = Some (Err e)
  | None => log m args level = None
  end.
Proof.
  intros Hl Hj. pose proof (format_lines itoa ryu to_i64 heap promises to_string number_function parse_int parse_float json_heap fuel args false) as H.
  unfold write_log. rewrite Hl, Hj. cbn [andb negb]. unfold write_lambda_log, replacing. cbn [andb negb].
  unfold format_values in H at 1. rewrite !push_first.
  destruct (build_formatted_string _ _ _ _ _ _ _ _ _ _ fuel args (mkOptions false false true) []) as [[[[[] s] vs]|e]|];
    destruct (text_of args false true) as [[t|e']|]; try done.
  - rewrite !replace_eq in H. rewrite replace_eq. eexists. split; [done|]. split; [apply no_line_end|].
    unfold line_head, to_carriage_returns in *. rewrite !fmap_app, H, <- !app_assoc. done.
  - cbn. congruence.
Qed.

(** ** Lambda: JSON records *)

(** Text that stands for itself in a JSON string. *)
Definition clean (s : list Z) : Prop := forallb (fun b => negb (dirty b)) s = true.

Lemma escape_clean s : clean s -> escape_ref s = s.
Proof.
  unfold clean. induction s as [|b s IH]; [done|]. cbn [forallb]. rewrite andb_true_iff, negb_true_iff. intros [Hb Hs].
  rewrite escape_ref_clean by done. f_equal. auto.
Qed.

Lemma quoted_clean s : clean s -> quoted s = quote s.
Proof. intros H. unfold quoted, quote. rewrite escape_clean by done. done. Qed.

Abbreviation printed := (print itoa ryu None 0).

(** A key that stands for itself, and its value. *)
Definition field (k v : list Z) : list Z := quote k ++ [58] ++ v.

Lemma string_printed s : clean s -> printed (JString s) = quote s.
Proof. apply quoted_clean. Qed.

(** Without indentation the depth does not matter. *)
Lemma print_depth : forall j d, print itoa ryu None d j = printed j.
Proof.
  fix IH 1. intros [| | | | |js|ms] d; [reflexivity..| |]; cbn [print]; unfold container.
  - assert (Hm : map (fun j => line None (S d) ++ print itoa ryu None (S d) j) js = map (fun j => line None 1 ++ print itoa ryu None 1 j) js).
    { induction js as [|j js IHj]; [reflexivity|]. cbn [map]. rewrite IHj, (IH j (S d)), (IH j 1%nat). reflexivity. }
    rewrite Hm. reflexivity.
  - assert (Hm : map (fun '(k, j) => line None (S d) ++ key_text None k ++ print itoa ryu None (S d) j) ms
      = map (fun '(k, j) => line None 1 ++ key_text None k ++ print itoa ryu None 1 j) ms).
    { induction ms as [|[k j] ms IHm]; [reflexivity|]. cbn [map]. rewrite IHm, (IH j (S d)), (IH j 1%nat). reflexivity. }
    rewrite Hm. reflexivity.
Qed.

Lemma print_object ms : Forall (fun p => clean p.1) ms ->
  printed (JObj ms) = [123] ++ join_with [44] ((fun p => field p.1 (printed p.2)) <$> ms) ++ [125].
Proof.
  intros Hc. assert (Hm : map (fun '(k, j) => line None 1 ++ key_text None k ++ print itoa ryu None 1 j) ms
    = (fun p => field p.1 (printed p.2)) <$> ms).
  { induction ms as [|[k j] ms IH]; [done|]. apply Forall_cons in Hc as [Hk Hc]. cbn [map fmap list_fmap fst snd] in *. rewrite IH by done.
    f_equal. unfold key_text, field, line. rewrite quoted_clean, print_depth by done. rewrite bool_decide_false by (intros []; done).
    rewrite <- !app_assoc. done. }
  cbn [print]. unfold container. rewrite Hm. destruct ms; done.
Qed.

(** The members of every record. *)
Definition record_head (level : LogLevel) : list (list Z * json) :=
  [(str "time", JString time)] ++ from_option (fun id => [(str "requestId", JString id)]) [] request_id ++
  [(str "level", JString (level_to_string level))].

(** The members for an error among several arguments. *)
Definition error_members (class_name message stack : option (list Z)) : list (list Z * json) :=
  [(str "errorType", JString (default (str "Exception") class_name))] ++
  from_option (fun m => [(str "errorMessage", JString m)]) [] message ++
  [(str "stackTrace", JArr (from_option (fun s => if bool_decide (s = []) then [] else JString <$> split_on 10 s) [] stack))].

(** The object for an error that is the only argument. *)
Definition error_json (class_name message stack : option (list Z)) : json :=
  JObj (from_option (fun c => [(str "errorType", JString c)]) [] class_name ++
        from_option (fun m => [(str "errorMessage", JString m)]) [] message ++
        from_option (fun s => [(str "stackTrace", JArr (JString <$> split_on 10 s))]) [] stack).

Definition bytes (o : option (list Z)) : Prop := Forall byte_ok (default [] o).

(** What a record says of the arguments. *)
Inductive describes : list value -> list (list Z * json) -> Prop :=
| describes_value v n t :
    as_error heap v = None -> tree json_heap n (json_value v) = Some t -> (n <= fuel)%nat ->
    describes [v] (from_option (fun j => [(str "message", j)]) [] t)
| describes_error i v class_name :
    as_error heap v = Some i -> o_class_name (heap i) = Ok class_name ->
    bytes class_name -> bytes (exception_message i) -> bytes (exception_stack i) -> (3 <= fuel)%nat ->
    describes [v] [(str "message", error_json class_name (exception_message i) (exception_stack i))]
| describes_text args s :
    length args <> 1%nat -> text_of args false true = Some (Ok s) -> Forall byte_ok s -> first_error heap args = None ->
    describes args [(str "message", JString s)]
| describes_text_error args s i class_name :
    length args <> 1%nat -> text_of args false true = Some (Ok s) -> Forall byte_ok s -> first_error heap args = Some i ->
    o_class_name (heap i) = Ok class_name ->
    clean (default [] class_name) -> clean (default [] (exception_message i)) ->
    Forall clean (split_on 10 (default [] (exception_stack i))) ->
    describes args ((str "message", JString s) :: error_members class_name (exception_message i) (exception_stack i)).

(** *** The parts of a record *)

Lemma join_commas (p : list Z) ps : join_with [44] (p :: ps) = p ++ concat ((fun q => [44] ++ q) <$> ps).
Proof.
  revert p. induction ps as [|q ps IH]; intros p; [cbn; rewrite app_nil_r; done|].
  rewrite join_with_cons by done. rewrite IH. done.
Qed.

Lemma bytes_opt_ok s : Forall byte_ok s -> bytes_opt s = Some s.
Proof.
  intros H. unfold bytes_opt. rewrite (proj2 (forallb_forall _ s)); [done|]. intros b Hb.
  rewrite Forall_forall in H. specialize (H b (proj2 (list_elem_of_In _ _) Hb)). unfold byte_ok in H. lia.
Qed.

Lemma split_bytes s : Forall byte_ok s -> Forall (Forall byte_ok) (split_on 10 s).
Proof.
  induction 1 as [|b s Hb Hs IH]; [apply Forall_singleton, Forall_nil; done|]. cbn [split_on].
  destruct (b =? 10); [apply Forall_cons; split; [apply Forall_nil|]; done|].
  destruct (split_on 10 s) as [|h t]; [apply Forall_singleton, Forall_singleton; done|].
  apply Forall_cons in IH as [? ?]. apply Forall_cons. split; [apply Forall_cons|]; done.
Qed.

Lemma tree_strings h n l : Forall (Forall byte_ok) l ->
  mapM (fun r : result js_error JsonStringify.value => v ← ok_opt r; t ← tree h (S n) v; match v, t with TUndefined, _ => Some JNull | _, t => t end) (Ok <$> (TString <$> l))
  = Some (JString <$> l).
Proof.
  intros Hl. apply mapM_Some_2. induction Hl as [|s l Hs Hl IH]; [apply Forall2_nil; done|]. apply Forall2_cons. split; [|exact IH].
  cbn [ok_opt mbind option_bind tree]. rewrite bytes_opt_ok by done. done.
Qed.

Lemma error_tree class_name message stack : bytes class_name -> bytes message -> bytes stack ->
  tree (error_heap class_name message stack) 3 (TObject 0) = Some (Some (error_json class_name message stack)).
Proof.
  intros Hc Hm Hs.
  assert (Hstack : forall s, stack = Some s -> tree (error_heap class_name message stack) 2 (TObject 1) = Some (Some (JArr (JString <$> split_on 10 s)))).
  { intros s ->. pose proof (tree_strings (error_heap class_name message (Some s)) 0 _ (split_bytes s Hs)) as H.
    refine (eq_trans (f_equal (fun r => js ← r; Some (Some (JArr js))) H) eq_refl). }
  assert (Hstr : forall o s, bytes o -> o = Some s -> tree (error_heap class_name message stack) 2 (TString s) = Some (Some (JString s))).
  { intros o s Ho ->. cbn [tree]. rewrite bytes_opt_ok by exact Ho. done. }
  change (tree (error_heap class_name message stack) 3 (TObject 0)) with
    (ms ← mapM (fun k => k ← bytes_opt k; v ← ok_opt (get_prop (error_heap class_name message stack 0) k);
        t ← tree (error_heap class_name message stack) 2 v; Some (option_map (pair k) t)) (keys_of (error_heap class_name message stack 0));
     Some (Some (JObj (omap id ms)))).
  set (t := tree (error_heap class_name message stack) 2) in *.
  assert (Hundef : t TUndefined = Some None) by done. clearbody t.
  destruct class_name as [c|], message as [m|], stack as [s|];
    vm_compute;
    rewrite ?(Hstack _ eq_refl), ?(Hstr _ _ Hc eq_refl), ?(Hstr _ _ Hm eq_refl), ?Hundef; reflexivity.
Qed.

(** What members add to a record. *)
Definition added (ms : list (list Z * json)) : list Z := concat ((fun p => [44] ++ field p.1 (printed p.2)) <$> ms).

Lemma write_traces_eq traces vs : forall b,
  write_traces b traces vs = Some (Ok (tt, (if b then concat ((fun q => [44] ++ quote q) <$> traces) else join_with [44] (quote <$> traces)), vs)).
Proof.
  induction traces as [|q traces IH]; intros b; [destruct b; done|]. cbn [write_traces].
  assert (H : (let^ _ := push (quote q) in write_traces true traces) vs
    = Some (Ok (tt, quote q ++ concat ((fun q => [44] ++ quote q) <$> traces), vs))) by (rewrite push_first, IH; done).
  destruct b; [rewrite push_first, H; done|]. unfold bind at 1, ret. rewrite H. cbn [fmap list_fmap]. rewrite join_commas.
  rewrite <- list_fmap_compose. done.
Qed.

Lemma print_strings l : Forall clean l -> printed (JArr (JString <$> l)) = [91] ++ join_with [44] (quote <$> l) ++ [93].
Proof.
  intros Hl. cbn [print]. assert (Hm : map (fun j => line None 1 ++ print itoa ryu None 1 j) (JString <$> l) = quote <$> l).
  { induction Hl as [|q l Hq Hl IH]; [done|]. cbn [map fmap list_fmap]. rewrite IH. f_equal. cbn. apply quoted_clean. done. }
  rewrite Hm. destruct l; done.
Qed.

Lemma write_exception_eq i class_name vs :
  o_class_name (heap i) = Ok class_name ->
  clean (default [] class_name) -> clean (default [] (exception_message i)) ->
  Forall clean (split_on 10 (default [] (exception_stack i))) ->
  write_exception heap exception_message exception_stack i vs
  = Some (Ok (tt, added (error_members class_name (exception_message i) (exception_stack i)), vs)).
Proof.
  intros Hn Hc Hm Hs. unfold write_exception.
  assert (Hc' : clean (default (str "Exception") class_name)) by (destruct class_name; done).
  set (traces := from_option (fun s => if bool_decide (s = []) then [] else split_on 10 s) [] (exception_stack i)).
  assert (Ht : (match exception_stack i with
                | Some stack => if bool_decide (stack = []) then ret tt else write_traces false (split_on 10 stack)
                | None => ret tt
                end) = write_traces false traces).
  { subst traces. destruct (exception_stack i) as [s|]; [|done]. cbn. case_bool_decide; done. }
  assert (Htc : Forall clean traces).
  { subst traces. destruct (exception_stack i) as [s|]; cbn in *; [case_bool_decide|]; try (apply Forall_nil; done). done. }
  assert (Hj : JArr (from_option (fun s => if bool_decide (s = []) then [] else JString <$> split_on 10 s) [] (exception_stack i)) = JArr (JString <$> traces)).
  { subst traces. destruct (exception_stack i) as [s|]; [|done]. cbn. case_bool_decide; done. }
  eapply eq_trans.
  { eapply then_first; [reflexivity|]. eapply then_first; [rewrite Hn; reflexivity|]. do 2 (eapply then_first; [reflexivity|]).
    eapply (then_first _ _ _ tt (from_option (fun m => quote (str "errorMessage") ++ [58] ++ quote m ++ [44]) [] (exception_message i)));
      [destruct (exception_message i); reflexivity|].
    eapply then_first; [reflexivity|]. eapply then_first; [rewrite Ht; apply write_traces_eq|]. reflexivity. }
  unfold error_members, added. rewrite Hj, !fmap_app, !concat_app. cbn [fmap list_fmap concat fst snd from_option].
  rewrite print_strings by done. clear Hj Ht. clearbody traces. do 4 f_equal. rewrite !app_nil_r.
  change (printed (JString ?x)) with (quoted x). rewrite (quoted_clean (default _ _)) by done.
  assert (Hmsg : concat ((fun p => [44] ++ field p.1 (printed p.2)) <$> from_option (fun m => [(str "errorMessage", JString m)]) [] (exception_message i))
    = from_option (fun m => [44] ++ field (str "errorMessage") (quote m)) [] (exception_message i)).
  { destruct (exception_message i) as [m|]; [|done]. cbn [from_option fmap list_fmap concat fst snd].
    change (printed (JString m)) with (quoted m). rewrite quoted_clean by exact Hm. rewrite app_nil_r. done. }
  rewrite Hmsg. unfold field, quote. generalize (str "errorType") (str "errorMessage") (str "stackTrace"). intros k1 k2 k3.
  destruct (exception_message i); cbn [from_option]; appify; done.
Qed.

(** The text of several arguments, and what follows it. *)
Lemma text_message args s vs (k : W unit) t :
  text_of args false true = Some (Ok s) -> Forall byte_ok s -> k vs = Some (Ok (tt, t, vs)) ->
  (let^ _ := push ([44] ++ quote (str "message") ++ [58; 34]) in
   let^ values := collected (build_formatted_string itoa ryu to_i64 heap promises to_string number_function parse_int parse_float json_heap
                               fuel args (mkOptions false true true)) in
   let^ _ := push (escape_json values ++ [34]) in k) vs
  = Some (Ok (tt, added [(str "message", JString s)] ++ t, vs)).
Proof.
  intros Ht Hs Hk. eapply eq_trans.
  { eapply then_first; [reflexivity|]. eapply (then_first _ _ _ s []); [|eapply then_first; [reflexivity|exact Hk]].
    unfold collected. unfold format_values in Ht. destruct (build_formatted_string _ _ _ _ _ _ _ _ _ _ _ _ _ _) as [[[[? ?] ?]|]|]; congruence. }
  unfold escape_json, escape_json_string. rewrite scanner_correct by done. unfold added. cbn [fmap list_fmap concat fst snd].
  change (printed (JString s)) with (quoted s). unfold field, quoted, quote. generalize (str "message"). intros k1. appify. done.
Qed.

Abbreviation write args := (write_message itoa ryu to_i64 heap promises to_string number_function parse_int parse_float json_heap
  exception_message exception_stack fuel args false).

Lemma value_message v t vs :
  message_json itoa ryu heap json_heap exception_message exception_stack fuel v vs = Some (Ok (printed <$> t, [], vs)) ->
  write [v] vs = Some (Ok (tt, added (from_option (fun j => [(str "message", j)]) [] t), vs)).
Proof.
  intros Hj. destruct t as [j|]; (eapply eq_trans; [eapply then_first; [exact Hj|reflexivity]|]); [|done].
  unfold added. cbn [from_option fmap list_fmap concat fst snd]. unfold field. appify. done.
Qed.

Lemma message_eq args ms vs : describes args ms -> write args vs = Some (Ok (tt, added ms, vs)).
Proof.
  intros [v n t He Ht Hn|i v c He Hc Hb1 Hb2 Hb3 Hf|args' s Hl Ht Hs He|args' s i c Hl Ht Hs He Hc Hc1 Hc2 Hc3].
  - apply value_message. unfold message_json. rewrite He.
    unfold Logging.json_stringify, JsonStringify.json_stringify, json_stringify_replacer_space. rewrite (stringify_tree _ _ _ n _ _ _ _ Ht Hn). done.
  - apply (value_message v (Some _)). unfold message_json. rewrite He, Hc. unfold bind. cbn [lift].
    unfold JsonStringify.json_stringify, json_stringify_replacer_space. rewrite (stringify_tree _ _ _ 3 _ _ _ _ (error_tree c _ _ Hb1 Hb2 Hb3) Hf). done.
  - rewrite <- (app_nil_r (added _)). destruct args' as [|v [|v' l]]; [|done|]; unfold write_message; rewrite He; apply text_message; done.
  - pose proof (write_exception_eq i c vs Hc Hc1 Hc2 Hc3) as Hx.
    change ((str "message", JString s) :: ?l) with ([(str "message", JString s)] ++ l). unfold added at 1. rewrite fmap_app, concat_app. fold (added [(str "message", JString s)]).
    destruct args' as [|v [|v' l]]; [|done|]; unfold write_message; rewrite He; apply text_message; done.
Qed.

Lemma describes_keys args ms : describes args ms -> Forall (fun p => clean p.1) ms.
Proof.
  intros [v n t He Ht Hn|i v c He Hc Hb1 Hb2 Hb3 Hf|args' s Hl Ht Hs He|args' s i c Hl Ht Hs He Hc Hc1 Hc2 Hc3].
  - destruct t; cbn; [apply Forall_singleton|apply Forall_nil]; done.
  - apply Forall_singleton. done.
  - apply Forall_singleton. done.
  - unfold error_members. destruct (exception_message i); cbn [app from_option]; repeat (apply Forall_cons; split; [done|]); apply Forall_nil; done.
Qed.

Lemma head_keys level : Forall (fun p => clean p.1) (record_head level).
Proof. unfold record_head. destruct request_id; cbn [app from_option]; repeat (apply Forall_cons; split; [done|]); apply Forall_nil; done. Qed.

Lemma level_clean level : clean (level_to_string level).
Proof. destruct level; done. Qed.

(** C15: in a Lambda function with JSON logs a call at or above the configured
    level writes one JSON object on one line: the time, the request, the level
    and the message. The time and the request id must be [clean], without
    characters that JSON escapes, since the code writes them as they are. What
    the arguments may be is in [describes]: a single value that is no error
    and unfolds to a finite tree, and is written as JSON; a single error,
    written as its type, message and stack; or several arguments, written as
    their escaped text, and, when an error is among them, its type, message
    and stack, which have to be [clean] here because the code does not escape
    them. *)
Theorem lambda_json_record m args ms level :
  lambda m = true -> json_format m = true -> max_level m <= level_number level ->
  clean time -> clean (default [] request_id) -> describes args ms ->
  log m args level = Some (Ok (printed (JObj (record_head level ++ ms)) ++ [10])).
Proof.
  intros Hl Hj Hm Ht Hr Hd. unfold write_log. rewrite Hl, Hj. cbn [andb negb]. unfold write_lambda_log. cbn [andb negb].
  rewrite (proj2 (Z.ltb_ge _ _) Hm).
  rewrite print_object by (apply Forall_app; split; [apply head_keys|apply (describes_keys _ _ Hd)]).
  erewrite then_first; [|reflexivity|].
  2: { eapply then_first; [reflexivity|].
       eapply (then_first _ _ _ tt (from_option (fun id => quote (str "requestId") ++ [58] ++ quote id ++ [44]) [] request_id));
         [destruct request_id; reflexivity|].
       eapply then_first; [reflexivity|]. eapply then_first; [apply (message_eq _ _ _ Hd)|reflexivity]. }
  do 2 f_equal. rewrite fmap_app. unfold record_head. cbn [app fmap list_fmap fst snd]. rewrite join_commas.
  rewrite !fmap_app, !concat_app.
  assert (Hms : concat ((fun q => [44] ++ q) <$> ((fun p => field p.1 (printed p.2)) <$> ms)) = added ms)
    by (rewrite <- list_fmap_compose; done).
  rewrite Hms. cbn [fmap list_fmap concat fst snd]. rewrite !string_printed by (done || apply level_clean).
  generalize (added ms) (str "time") (str "level") (str "requestId"). intros x k1 k2 k3.
  destruct request_id as [id|]; cbn [from_option fmap list_fmap concat fst snd]; rewrite ?string_printed by exact Hr;
    unfold field, quote; appify; done.
Qed.
End Lambda.

(** ** Concrete runs *)

Definition sample_error (message : list Z) (i : nat) : option (list Z) := if (i =? 7)%nat then Some message else None.

Abbreviation sample_log message m args level :=
  (write_log sample_itoa sample_itoa (fun n => Some n) sample_objects quiet_promises sample_string sample_number sample_number sample_number
     sample_json (sample_error message) (sample_error (str "    at f")) 40 (str "2026-01-01T00:00:00.000Z") (Some (str "id-1")) m false args level).

Definition text_mode : lambda_mode := lambda_mode_initializer None None.
Definition json_mode : lambda_mode := lambda_mode_initializer (Some (str "JSON")) (Some (str "WARN")).

Lemma lambda_text_line_witness :
  exists line, sample_log [] text_mode [Str (str "a") false; Obj 0] Info = Some (Ok (line ++ [10])) ∧ (10 ∉ line) ∧
    line = str "2026-01-01T00:00:00.000Z" ++ [9] ++ str "id-1" ++ [9] ++ str "INFO" ++ [9] ++
           str "a {" ++ [13] ++ str "  a: 1," ++ [13] ++ str "  '7': 'x'," ++ [13] ++
           str "  self: [Circular]," ++ [13] ++ str "  p: Promise {" ++ [13] ++ str "    [Circular]" ++ [13] ++ str "  }" ++ [13] ++ str "}".
Proof.
  exact (lambda_text_line sample_itoa sample_itoa (fun n => Some n) sample_objects quiet_promises sample_string sample_number sample_number
    sample_number sample_json (sample_error []) (sample_error (str "    at f")) 40 (str "2026-01-01T00:00:00.000Z") (Some (str "id-1"))
    text_mode [Str (str "a") false; Obj 0] Info eq_refl eq_refl).
Defined.

Lemma lambda_json_record_witness :
  sample_log (str "no") json_mode [Str (str "a") false; Obj 7] Error =
  Some (Ok (print sample_itoa sample_itoa None 0 (JObj
    [(str "time", JString (str "2026-01-01T00:00:00.000Z")); (str "requestId", JString (str "id-1")); (str "level", JString (str "ERROR"));
     (str "message", JString (str "a Error: no" ++ [10] ++ str "  at f" ++ [10] ++ str "      at g"));
     (str "errorType", JString (str "Error")); (str "errorMessage", JString (str "no")); (str "stackTrace", JArr [JString (str "    at f")])])
    ++ [10])).
Proof.
  apply (lambda_json_record sample_itoa sample_itoa (fun n => Some n) sample_objects quiet_promises sample_string sample_number sample_number
    sample_number sample_json (sample_error (str "no")) (sample_error (str "    at f")) 40 (str "2026-01-01T00:00:00.000Z") (Some (str "id-1"))
    json_mode [Str (str "a") false; Obj 7]
    ((str "message", JString (str "a Error: no" ++ [10] ++ str "  at f" ++ [10] ++ str "      at g")) ::
     error_members (Some (str "Error")) (Some (str "no")) (Some (str "    at f"))) Error); [reflexivity|reflexivity|vm_compute; discriminate|reflexivity|reflexivity|].
  apply (describes_text_error) with (i := 7%nat); try reflexivity; [discriminate| |apply Forall_singleton; reflexivity].
  eapply bytes_opt_Some. reflexivity.
Defined.

(** A call below the level writes nothing. *)
Example below_level : sample_log [] json_mode [Int 1] Info = Some (Ok []).
Proof. vm_compute. reflexivity. Qed.

(** The message of an error among several arguments is not escaped: the line
    is not JSON. *)
Example record_not_escaped :
  sample_log [34] json_mode [Int 1; Obj 7] Error =
  Some (Ok (str "{" ++ join_with [44]
    [field (str "time") (quote (str "2026-01-01T00:00:00.000Z")); field (str "requestId") (quote (str "id-1"));
     field (str "level") (quote (str "ERROR")); field (str "message") (quote (str "1 Error: no\n  at f\n      at g"));
     field (str "errorType") (quote (str "Error")); field (str "errorMessage") (quote [34]);
     field (str "stackTrace") (str "[" ++ quote (str "    at f") ++ str "]")] ++ str "}" ++ [10])).
Proof. vm_compute. reflexivity. Qed.

Example level_round_trip l : level_from_str (level_to_string l) = l.
Proof. destruct l; reflexivity. Qed.
