(* ===== verification/CryptoKeys.v ===== *)
(** * Keys of the Web Crypto API (src/modules/llrt_crypto/src/subtle/)

    The usages of a key, its algorithm and its data, and how the algorithm of a
    call is read from JavaScript.  A value of the program is given by what the
    conversions of the bindings make of it ([js]); exceptions are kept by their
    kind, without the message.  The crypto provider is a trait in the code and a
    class here ([Provider], in [CryptoImport]); the build with all operations is
    modelled (feature [_subtle-full]). *)
From Stdlib Require Import ZArith Lia SpecFloat.
From stdpp Require Import base list numbers strings sets.
From S2P Require Import Prelude F64 Js RustStr.
Local Open Scope Z_scope.

(** ** Outcomes *)

Inductive dom_name : Type :=
  NotSupportedError | SyntaxError | DataError | OperationError | InvalidAccessError | TypeMismatchError.

(** A DOM exception, a TypeError or another exception of this code, or one of
    the engine's. *)
Inductive exn : Type := Dom (n : dom_name) | ATypeError | AnError | Engine (e : js_error).

#[export] Instance dom_name_eq_dec : EqDecision dom_name.
Proof. solve_decision. Defined.
#[export] Instance exn_eq_dec : EqDecision exn.
Proof. solve_decision. Defined.

(** [Panic] is a panic of the Rust code. *)
Inductive crypto (A : Type) : Type := Fine (a : A) | Throw (e : exn) | Panic.
Arguments Fine {A} a.
Arguments Throw {A} e.
Arguments Panic {A}.

Definition and_then {A B} (m : crypto A) (k : A -> crypto B) : crypto B :=
  match m with Fine a => k a | Throw e => Throw e | Panic => Panic end.

Notation "'let%' x ':=' m 'in' k" := (and_then m (fun x => k))
  (at level 10, x pattern, m at level 100, k at level 200,
   format "'[v' 'let%'  x  ':='  m  'in' '/' k ']'") : llrt_scope.

Definition guard (b : bool) (e : exn) : crypto unit := if b then Fine tt else Throw e.

Definition engine {A} (r : result js_error A) : crypto A :=
  match r with Ok a => Fine a | Err e => Throw (Engine e) end.

Definition or_throw {A} (e : exn) (o : option A) : crypto A := match o with Some a => Fine a | None => Throw e end.

(** ** Usages *)

Inductive KeyUsage : Type :=
| Encrypt | Decrypt | Sign | Verify | DeriveKey | DeriveBits | WrapKey | UnwrapKey
| EncapsulateKey | EncapsulateBits | DecapsulateKey | DecapsulateBits.

#[export] Instance KeyUsage_eq_dec : EqDecision KeyUsage.
Proof. solve_decision. Defined.

Definition CANONICAL_ORDER : list KeyUsage :=
  [Encrypt; Decrypt; Sign; Verify; DeriveKey; DeriveBits; WrapKey; UnwrapKey;
   EncapsulateKey; EncapsulateBits; DecapsulateKey; DecapsulateBits].

Definition usage_str (u : KeyUsage) : list Z :=
  str (match u with
       | Encrypt => "encrypt" | Decrypt => "decrypt" | Sign => "sign" | Verify => "verify"
       | DeriveKey => "deriveKey" | DeriveBits => "deriveBits" | WrapKey => "wrapKey" | UnwrapKey => "unwrapKey"
       | EncapsulateKey => "encapsulateKey" | EncapsulateBits => "encapsulateBits"
       | DecapsulateKey => "decapsulateKey" | DecapsulateBits => "decapsulateBits"
       end).

(** [KeyUsage::try_from]. *)
Definition usage_from_str (s : list Z) : option KeyUsage :=
  if bool_decide (s = str "encrypt") then Some Encrypt
  else if bool_decide (s = str "decrypt") then Some Decrypt
  else if bool_decide (s = str "wrapKey") then Some WrapKey
  else if bool_decide (s = str "unwrapKey") then Some UnwrapKey
  else if bool_decide (s = str "sign") then Some Sign
  else if bool_decide (s = str "verify") then Some Verify
  else if bool_decide (s = str "deriveKey") then Some DeriveKey
  else if bool_decide (s = str "deriveBits") then Some DeriveBits
  else if bool_decide (s = str "encapsulateKey") then Some EncapsulateKey
  else if bool_decide (s = str "encapsulateBits") then Some EncapsulateBits
  else if bool_decide (s = str "decapsulateKey") then Some DecapsulateKey
  else if bool_decide (s = str "decapsulateBits") then Some DecapsulateBits
  else None.

(** [1 << self as u32]. *)
Definition usage_mask (u : KeyUsage) : Z :=
  Z.shiftl 1 (match u with
              | Encrypt => 0 | Decrypt => 1 | Sign => 2 | Verify => 3 | DeriveKey => 4 | DeriveBits => 5
              | WrapKey => 6 | UnwrapKey => 7 | EncapsulateKey => 8 | EncapsulateBits => 9
              | DecapsulateKey => 10 | DecapsulateBits => 11
              end).

Inductive KeyUsageAlgorithm : Type :=
  AesKw | Symmetric | HmacUsage | DeriveAsymmetric | DeriveSymmetric | RsaOaepUsage | SignUsage | MlKemUsage.

(** The discriminants: the usages of a private key are in the high bits. *)
Definition usage_bits (a : KeyUsageAlgorithm) : Z :=
  match a with
  | AesKw => Z.lor (usage_mask WrapKey) (usage_mask UnwrapKey)
  | Symmetric => Z.lor (Z.lor (Z.lor (usage_mask Encrypt) (usage_mask Decrypt)) (usage_mask WrapKey)) (usage_mask UnwrapKey)
  | HmacUsage => Z.lor (usage_mask Sign) (usage_mask Verify)
  | DeriveAsymmetric => Z.shiftl (Z.lor (usage_mask DeriveKey) (usage_mask DeriveBits)) 16
  | DeriveSymmetric => Z.lor (usage_mask DeriveKey) (usage_mask DeriveBits)
  | RsaOaepUsage =>
      Z.lor (Z.lor (Z.shiftl (Z.lor (usage_mask Decrypt) (usage_mask UnwrapKey)) 16) (usage_mask Encrypt)) (usage_mask WrapKey)
  | SignUsage => Z.lor (Z.shiftl (usage_mask Sign) 16) (usage_mask Verify)
  | MlKemUsage =>
      Z.lor (Z.lor (Z.shiftl (Z.lor (usage_mask DecapsulateKey) (usage_mask DecapsulateBits)) 16) (usage_mask EncapsulateKey))
        (usage_mask EncapsulateBits)
  end.

Definition masks (a : KeyUsageAlgorithm) : Z * Z := (Z.shiftr (usage_bits a) 16, Z.land (usage_bits a) 0xFFFF).

(** All of them do. *)
Definition requires_non_empty_usages (a : KeyUsageAlgorithm) : bool :=
  match a with
  | Symmetric | AesKw | HmacUsage | DeriveAsymmetric | DeriveSymmetric | SignUsage | MlKemUsage | RsaOaepUsage => true
  end.

Inductive KeyKind : Type := Secret | Private | Public.

#[export] Instance KeyKind_eq_dec : EqDecision KeyKind.
Proof. solve_decision. Defined.

(** The array of usages: each element as a string. *)
Abbreviation usage_array := (list (result js_error (list Z))).

(** The loop over the requested usages. *)
Fixpoint see_usages (allowed : Z) (usages : usage_array) (seen : Z) : crypto Z :=
  match usages with
  | [] => Fine seen
  | usage :: usages =>
      let% value := engine usage in
      let% usage := or_throw (Dom SyntaxError) (usage_from_str value) in
      let usage := usage_mask usage in
      if negb (Z.land allowed usage =? usage) then Throw (Dom SyntaxError)
      else see_usages allowed usages (Z.lor seen usage)
  end.

(** The loop over the usages in canonical order: those of a private key and
    those of a public or secret key. *)
Fixpoint split_usages (private_mask public_mask seen : Z) (order : list KeyUsage) : list (list Z) * list (list Z) :=
  match order with
  | [] => ([], [])
  | usage :: order =>
      let m := usage_mask usage in
      let '(private, public) := split_usages private_mask public_mask seen order in
      if Z.land seen m =? 0 then (private, public)
      else
        let value := usage_str usage in
        if private_mask =? public_mask then (value :: private, value :: public)
        else if Z.land private_mask m =? m then (value :: private, public)
        else if Z.land public_mask m =? m then (private, value :: public)
        else (private, public)
  end.

Definition is_empty {A} (l : list A) : bool := match l with [] => true | _ => false end.

(** The usages of the private key and of the public or secret key. *)
Definition classify_and_check_usages (a : KeyUsageAlgorithm) (key_usages : usage_array) (kind : option KeyKind) :
    crypto (list (list Z) * list (list Z)) :=
  let '(private_mask, public_mask) := masks a in
  let public_mask := if bool_decide (kind = Some Private) then 0 else public_mask in
  let private_mask := if bool_decide (kind = Some Secret) || bool_decide (kind = Some Public) then 0 else private_mask in
  let% seen := see_usages (Z.lor private_mask public_mask) key_usages 0 in
  let '(private, public) := split_usages private_mask public_mask seen CANONICAL_ORDER in
  if is_empty key_usages && requires_non_empty_usages a && negb (bool_decide (kind = Some Public)) then Throw (Dom SyntaxError)
  else
    let valid_usage :=
      match kind with
      | Some Secret | Some Public => is_empty private && negb (is_empty public)
      | Some Private => negb (is_empty private) && is_empty public
      | None => true
      end in
    if negb (bool_decide (private = public)) && negb valid_usage then Throw (Dom SyntaxError)
    else Fine (private, public).

(** ** What the usages of a key may be *)

(** The table of the Web Crypto specification. *)
Definition allowed (a : KeyUsageAlgorithm) (k : KeyKind) : list KeyUsage :=
  match a, k with
  | AesKw, Secret => [WrapKey; UnwrapKey]
  | Symmetric, Secret => [Encrypt; Decrypt; WrapKey; UnwrapKey]
  | HmacUsage, Secret => [Sign; Verify]
  | DeriveSymmetric, Secret => [DeriveKey; DeriveBits]
  | DeriveAsymmetric, Private => [DeriveKey; DeriveBits]
  | RsaOaepUsage, Private => [Decrypt; UnwrapKey]
  | RsaOaepUsage, Public => [Encrypt; WrapKey]
  | SignUsage, Private => [Sign]
  | SignUsage, Public => [Verify]
  | MlKemUsage, Private => [DecapsulateKey; DecapsulateBits]
  | MlKemUsage, Public => [EncapsulateKey; EncapsulateBits]
  | _, _ => []
  end.

(** Whether keys of an algorithm come in pairs. *)
Definition paired (a : KeyUsageAlgorithm) : bool :=
  match a with DeriveAsymmetric | RsaOaepUsage | SignUsage | MlKemUsage => true | _ => false end.

(** The usages among [l] that were asked for, in canonical order, once each. *)
Definition granted (reqs l : list KeyUsage) : list (list Z) :=
  usage_str <$> filter (fun u => u ∈ reqs ∧ u ∈ l) CANONICAL_ORDER.

(** ** Masks as sets *)

Definition usage_index (u : KeyUsage) : Z :=
  match u with
  | Encrypt => 0 | Decrypt => 1 | Sign => 2 | Verify => 3 | DeriveKey => 4 | DeriveBits => 5
  | WrapKey => 6 | UnwrapKey => 7 | EncapsulateKey => 8 | EncapsulateBits => 9
  | DecapsulateKey => 10 | DecapsulateBits => 11
  end.

Definition has (m : Z) (u : KeyUsage) : bool := Z.testbit m (usage_index u).

Lemma usage_mask_pow u : usage_mask u = 2 ^ usage_index u.
Proof. destruct u; reflexivity. Qed.

Lemma usage_index_nonneg u : 0 <= usage_index u.
Proof. destruct u; cbn; lia. Qed.

Lemma usage_index_inj u v : usage_index u = usage_index v -> u = v.
Proof. destruct u, v; cbn; intros H; (reflexivity || lia). Qed.

Lemma mask_bit u n : 0 <= n -> Z.testbit (usage_mask u) n = (usage_index u =? n).
Proof. intros Hn. rewrite usage_mask_pow. apply Z.pow2_bits_eqb, usage_index_nonneg. Qed.

Lemma has_all m u : (Z.land m (usage_mask u) =? usage_mask u) = has m u.
Proof.
  unfold has. pose proof (usage_index_nonneg u) as Hu. destruct (Z.testbit m (usage_index u)) eqn:Hm.
  - apply Z.eqb_eq. apply Z.bits_inj'. intros n Hn. rewrite Z.land_spec, mask_bit by done.
    destruct (Z.eqb_spec (usage_index u) n) as [<-|]; [rewrite Hm|rewrite andb_false_r]; done.
  - apply Z.eqb_neq. intros E. pose proof (Z.land_spec m (usage_mask u) (usage_index u)) as H.
    rewrite E, mask_bit, Z.eqb_refl, Hm in H by done. done.
Qed.

Lemma has_none m u : (Z.land m (usage_mask u) =? 0) = negb (has m u).
Proof.
  unfold has. pose proof (usage_index_nonneg u) as Hu. destruct (Z.testbit m (usage_index u)) eqn:Hm; cbn [negb].
  - apply Z.eqb_neq. intros E. pose proof (Z.land_spec m (usage_mask u) (usage_index u)) as H.
    rewrite E, mask_bit, Z.eqb_refl, Hm, Z.bits_0 in H by done. done.
  - apply Z.eqb_eq. apply Z.bits_inj'. intros n Hn. rewrite Z.land_spec, mask_bit, Z.bits_0 by done.
    destruct (Z.eqb_spec (usage_index u) n) as [<-|]; [rewrite Hm|rewrite andb_false_r]; done.
Qed.

Lemma has_lor m u v : has (Z.lor m (usage_mask u)) v = has m v || bool_decide (v = u).
Proof.
  unfold has. rewrite Z.lor_spec, mask_bit by apply usage_index_nonneg. f_equal. case_bool_decide as H; [subst; apply Z.eqb_refl|].
  apply Z.eqb_neq. intros E. apply H. symmetry. apply usage_index_inj, E.
Qed.

Lemma usage_from_str_spec s u : usage_from_str s = Some u <-> s = usage_str u.
Proof.
  split; [|intros ->; destruct u; reflexivity]. unfold usage_from_str. intros H.
  repeat (case_bool_decide as E; [injection H as <-; exact E|clear E]). done.
Qed.

Lemma usage_str_inj u v : usage_str u = usage_str v -> u = v.
Proof. intros H. apply usage_from_str_spec in H. rewrite (proj2 (usage_from_str_spec _ u) eq_refl) in H. congruence. Qed.

(** What the loop over the requested usages accepts and collects. *)
Lemma see_usages_spec m usages seen0 seen :
  see_usages m usages seen0 = Fine seen <->
  exists reqs, usages = (fun u => Ok (usage_str u)) <$> reqs ∧ (forall u, u ∈ reqs -> has m u = true) ∧
               seen = foldl Z.lor seen0 (usage_mask <$> reqs).
Proof.
  revert seen0. induction usages as [|x usages IH]; intros seen0; cbn [see_usages].
  - split.
    + intros [= <-]. exists []. split; [done|]. split; [intros u Hu; set_solver|done].
    + intros ([|u reqs] & Hu & _ & ->); [done|discriminate].
  - destruct x as [s|e]; cbn [engine and_then].
    2: { split; [done|]. intros ([|u reqs] & Hu & _ & _); discriminate. }
    destruct (usage_from_str s) as [u|] eqn:Hs; cbn [or_throw and_then].
    2: { split; [done|]. intros ([|v reqs] & Hu & _ & _); [discriminate|]. injection Hu as -> _.
         rewrite (proj2 (usage_from_str_spec _ v) eq_refl) in Hs. done. }
    apply usage_from_str_spec in Hs as ->. rewrite has_all. destruct (has m u) eqn:Hm; cbn [negb].
    + rewrite IH. split; intros (reqs & Hu & Hh & Hf).
      * exists (u :: reqs). split; [rewrite Hu; done|]. split; [|exact Hf]. intros v Hv. apply elem_of_cons in Hv as [-> |Hv]; auto.
      * destruct reqs as [|v reqs]; [discriminate|]. injection Hu as Hv Hu.
        apply usage_str_inj in Hv as ->.
        exists reqs. split; [done|]. split; [intros w Hw; apply Hh; set_solver|exact Hf].
    + split; [done|]. intros (reqs & Hu & Hh & _). destruct reqs as [|v reqs]; [discriminate|]. injection Hu as Hv Hu.
      apply usage_str_inj in Hv as ->.
      rewrite Hh in Hm by set_solver. done.
Qed.

Lemma has_seen reqs : forall m v, has (foldl Z.lor m (usage_mask <$> reqs)) v = has m v || bool_decide (v ∈ reqs).
Proof.
  induction reqs as [|u reqs IH]; intros m v; cbn [fmap list_fmap foldl].
  - rewrite bool_decide_false by set_solver. rewrite orb_false_r. done.
  - rewrite IH, has_lor, <- orb_assoc. f_equal. apply eq_iff_eq_true. rewrite orb_true_iff, !bool_decide_eq_true, elem_of_cons. done.
Qed.

Lemma split_usages_spec pm qm seen order : pm <> qm ->
  split_usages pm qm seen order =
  (usage_str <$> filter (fun u => has seen u = true ∧ has pm u = true) order,
   usage_str <$> filter (fun u => has seen u = true ∧ has pm u = false ∧ has qm u = true) order).
Proof.
  intros Hne. induction order as [|u order IH]; [done|]. cbn [split_usages]. rewrite IH, has_none, !has_all, !filter_cons.
  rewrite (proj2 (Z.eqb_neq _ _) Hne). destruct (has seen u), (has pm u), (has qm u); cbn [negb];
    repeat (case_decide; try naive_solver); done.
Qed.

(** The kinds of keys that an algorithm has. *)
Definition suits (a : KeyUsageAlgorithm) (k : KeyKind) : bool :=
  match k with Secret => negb (paired a) | _ => paired a end.

(** The masks are the table. *)
Lemma masks_allowed a k : suits a k = true ->
  forall u, has (if bool_decide (k = Private) then (masks a).1 else (masks a).2) u = bool_decide (u ∈ allowed a k).
Proof. intros Hk u. destruct a, k; try discriminate; destruct u; reflexivity. Qed.

Lemma filter_seen reqs l m :
  (forall u, u ∈ reqs -> u ∈ l) -> (forall u, has m u = bool_decide (u ∈ l)) ->
  usage_str <$> filter (fun u => has (foldl Z.lor 0 (usage_mask <$> reqs)) u = true ∧ has m u = true) CANONICAL_ORDER = granted reqs l.
Proof.
  intros Hr Hm. unfold granted. f_equal. apply list_filter_iff. intros u. rewrite has_seen, Hm. unfold has at 1. rewrite Z.bits_0. cbn [orb].
  rewrite !bool_decide_eq_true. done.
Qed.

Lemma is_empty_true {A} (l : list A) : is_empty l = true <-> l = [].
Proof. destruct l; done. Qed.

Lemma granted_nil l : granted [] l = [].
Proof. unfold granted. rewrite (list_filter_iff _ (fun _ => False)); [|set_solver]. done. Qed.

Lemma granted_in reqs l s : s ∈ granted reqs l <-> exists u, s = usage_str u ∧ u ∈ reqs ∧ u ∈ l.
Proof.
  unfold granted. rewrite list_elem_of_fmap. split.
  - intros (u & -> & Hu). apply list_elem_of_filter in Hu as [[? ?] _]. eauto.
  - intros (u & -> & Hr & Hl). exists u. split; [done|]. apply list_elem_of_filter. split; [done|]. destruct u; unfold CANONICAL_ORDER; set_solver.
Qed.

Lemma granted_nonempty reqs l : (forall u, u ∈ reqs -> u ∈ l) -> reqs <> [] -> granted reqs l <> [].
Proof.
  intros Hr Hne E. destruct reqs as [|u reqs]; [done|]. assert (usage_str u ∈ granted (u :: reqs) l) as H.
  { apply granted_in. exists u. split; [done|]. split; [|apply Hr]; set_solver. }
  rewrite E in H. set_solver.
Qed.

Abbreviation as_array reqs := ((fun u => Ok (usage_str u)) <$> reqs).

Lemma has_zero u : has 0 u = false.
Proof. apply Z.bits_0. Qed.

Lemma no_usage_kept (P : KeyUsage -> Prop) `{!forall u, Decision (P u)} l : (forall u, ~ P u) -> filter P l = [].
Proof. intros Hn. induction l as [|u l IH]; [done|]. rewrite filter_cons, decide_False by apply Hn. exact IH. Qed.

(** The split for a key of one kind. *)
Lemma split_one reqs m l : m <> 0 -> (forall u, u ∈ reqs -> u ∈ l) -> (forall u, has m u = bool_decide (u ∈ l)) ->
  split_usages m 0 (foldl Z.lor 0 (usage_mask <$> reqs)) CANONICAL_ORDER = (granted reqs l, []) ∧
  split_usages 0 m (foldl Z.lor 0 (usage_mask <$> reqs)) CANONICAL_ORDER = ([], granted reqs l).
Proof.
  intros Hm Hr Hl. rewrite !split_usages_spec by done. split; f_equal.
  - apply filter_seen; done.
  - rewrite no_usage_kept; [done|]. intros u. rewrite has_zero. naive_solver.
  - rewrite no_usage_kept; [done|]. intros u. rewrite has_zero. naive_solver.
  - rewrite (list_filter_iff _ (fun u => has (foldl Z.lor 0 (usage_mask <$> reqs)) u = true ∧ has m u = true)).
    + apply filter_seen; done.
    + intros u. rewrite has_zero. naive_solver.
Qed.

Lemma paired_masks a : if paired a then (masks a).1 <> 0 else (masks a).1 = 0 ∧ (masks a).2 <> 0.
Proof. destruct a; vm_compute; (discriminate || (split; [reflexivity|discriminate])). Qed.

Lemma requires_all a : requires_non_empty_usages a = true.
Proof. destruct a; reflexivity. Qed.

Lemma as_array_empty reqs : is_empty (as_array reqs : usage_array) = is_empty reqs.
Proof. destruct reqs; done. Qed.

(** The requested usages, when the loop accepts them. *)
Lemma see_allowed m (l : list KeyUsage) us seen : (forall u, has m u = bool_decide (u ∈ l)) ->
  see_usages m us 0 = Fine seen <->
  exists reqs, us = as_array reqs ∧ (forall u, u ∈ reqs -> u ∈ l) ∧ seen = foldl Z.lor 0 (usage_mask <$> reqs).
Proof.
  intros Hm. rewrite see_usages_spec. split; intros (reqs & Hu & Hr & Hs); exists reqs; (split; [done|]); (split; [|done]); intros u Hin.
  - specialize (Hr u Hin). rewrite Hm in Hr. apply bool_decide_eq_true in Hr. done.
  - rewrite Hm. apply bool_decide_eq_true. auto.
Qed.

(** The checks at the end, for a key of one kind. *)
Definition checked (us : usage_array) (k : KeyKind) (r : list (list Z) * list (list Z)) : crypto (list (list Z) * list (list Z)) :=
  if is_empty us && negb (bool_decide (k = Public)) then Throw (Dom SyntaxError)
  else if negb (bool_decide (r.1 = r.2)) &&
          negb (if bool_decide (k = Private) then negb (is_empty r.1) && is_empty r.2 else is_empty r.1 && negb (is_empty r.2))
       then Throw (Dom SyntaxError)
  else Fine r.

Lemma classify_some a us k :
  classify_and_check_usages a us (Some k) =
  (let% seen := see_usages (if bool_decide (k = Private) then (masks a).1 else (masks a).2) us 0 in
   checked us k (if bool_decide (k = Private) then split_usages (masks a).1 0 seen CANONICAL_ORDER
                 else split_usages 0 (masks a).2 seen CANONICAL_ORDER)).
Proof.
  unfold classify_and_check_usages, checked. destruct (masks a) as [pm qm]. rewrite requires_all, andb_true_r. cbn [fst snd].
  generalize CANONICAL_ORDER. intros order.
  destruct k; cbn; rewrite ?Z.lor_0_l, ?Z.lor_0_r; (destruct (see_usages _ us 0) as [seen| |]; cbn; [|done..]);
    destruct (split_usages _ _ seen order); done.
Qed.

Lemma classify_kind a k us r : suits a k = true ->
  classify_and_check_usages a us (Some k) = Fine r <->
  exists reqs, us = as_array reqs ∧ (forall u, u ∈ reqs -> u ∈ allowed a k) ∧ (k <> Public -> reqs <> []) ∧
    r = if bool_decide (k = Private) then (granted reqs (allowed a k), []) else ([], granted reqs (allowed a k)).
Proof.
  intros Hk. rewrite classify_some. set (m := if bool_decide (k = Private) then (masks a).1 else (masks a).2).
  assert (Hm : forall u, has m u = bool_decide (u ∈ allowed a k)) by (apply masks_allowed; done).
  assert (Hsplit : forall reqs, (forall u, u ∈ reqs -> u ∈ allowed a k) ->
    (if bool_decide (k = Private) then split_usages (masks a).1 0 (foldl Z.lor 0 (usage_mask <$> reqs)) CANONICAL_ORDER
     else split_usages 0 (masks a).2 (foldl Z.lor 0 (usage_mask <$> reqs)) CANONICAL_ORDER)
    = if bool_decide (k = Private) then (granted reqs (allowed a k), []) else ([], granted reqs (allowed a k))).
  { intros reqs Hr. destruct (decide (m = 0)) as [H0|H0].
    - assert (allowed a k = []) as Hl.
      { apply elem_of_nil_inv. intros u Hu. specialize (Hm u). rewrite H0, has_zero in Hm. symmetry in Hm. apply bool_decide_eq_false in Hm. done. }
      destruct reqs as [|u reqs]; [|exfalso; specialize (Hr u); rewrite Hl in Hr; set_solver].
      subst m. destruct (bool_decide (k = Private)); rewrite H0, granted_nil; reflexivity.
    - destruct (split_one reqs m (allowed a k) H0 Hr Hm) as [H1 H2]. subst m. destruct (bool_decide (k = Private)); done. }
  assert (Hcheck : forall reqs, (forall u, u ∈ reqs -> u ∈ allowed a k) -> (k <> Public -> reqs <> []) ->
    forall r, r = (if bool_decide (k = Private) then (granted reqs (allowed a k), []) else ([], granted reqs (allowed a k))) ->
    checked (as_array reqs) k r = Fine r).
  { intros reqs Hr Hne r' ->. unfold checked. rewrite as_array_empty. destruct reqs as [|u reqs].
    - rewrite granted_nil. destruct k; [destruct Hne; done..|reflexivity].
    - cbn [is_empty andb]. pose proof (granted_nonempty (u :: reqs) (allowed a k) Hr ltac:(done)) as Hg.
      destruct (granted (u :: reqs) (allowed a k)); [done|]. destruct k; reflexivity. }
  split.
  - intros H. destruct (see_usages m us 0) as [seen| |] eqn:Hs; [|discriminate..]. cbn [and_then] in H.
    apply (see_allowed m (allowed a k)) in Hs as (reqs & -> & Hr & ->); [|done]. rewrite Hsplit in H by done. exists reqs. split; [done|]. split; [done|].
    unfold checked in H. rewrite as_array_empty in H.
    assert (Hne : k <> Public -> reqs <> []).
    { intros Hp ->. rewrite bool_decide_false in H by done. discriminate. }
    split; [done|]. destruct (_ && _) in H; [discriminate|]. destruct (_ && _) in H; congruence.
  - intros (reqs & -> & Hr & Hne & Hrr). rewrite (proj2 (see_allowed m (allowed a k) _ _ Hm)) by (exists reqs; done). cbn [and_then].
    rewrite Hsplit by done. rewrite <- Hrr. apply (Hcheck reqs); done.
Qed.

(** The kind of the key that is not private. *)
Definition other_kind (a : KeyUsageAlgorithm) : KeyKind := if paired a then Public else Secret.

Lemma masks_private a u : has (masks a).1 u = bool_decide (u ∈ allowed a Private).
Proof. destruct a, u; reflexivity. Qed.

Lemma masks_other a u : has (masks a).2 u = bool_decide (u ∈ allowed a (other_kind a)).
Proof. destruct a, u; reflexivity. Qed.

Lemma masks_differ a : (masks a).1 <> (masks a).2.
Proof. destruct a; discriminate. Qed.

Lemma allowed_disjoint a u : u ∈ allowed a Private -> u ∈ allowed a (other_kind a) -> False.
Proof. intros H1 H2. rewrite <- bool_decide_eq_true, <- masks_private in H1. rewrite <- bool_decide_eq_true, <- masks_other in H2. destruct a, u; discriminate. Qed.

(** For a key or a pair that is made. *)
Lemma classify_generate a us r :
  classify_and_check_usages a us None = Fine r <->
  exists reqs, us = as_array reqs ∧ (forall u, u ∈ reqs -> u ∈ allowed a Private ++ allowed a (other_kind a)) ∧ reqs <> [] ∧
    r = (granted reqs (allowed a Private), granted reqs (allowed a (other_kind a))).
Proof.
  pose proof (masks_private a) as Hp. pose proof (masks_other a) as Hq. pose proof (masks_differ a) as Hd. pose proof (allowed_disjoint a) as Hx.
  unfold classify_and_check_usages. destruct (masks a) as [pm qm]. rewrite requires_all, andb_true_r. cbn [fst snd] in *.
  set (lp := allowed a Private) in *. set (lq := allowed a (other_kind a)) in *. clearbody lp lq. cbn [negb]. rewrite !andb_true_r.
  change (bool_decide (@None KeyKind = Some Private)) with false. change (bool_decide (@None KeyKind = Some Secret)) with false.
  change (bool_decide (@None KeyKind = Some Public)) with false. cbn [orb].
  assert (Hm : forall u, has (Z.lor pm qm) u = bool_decide (u ∈ lp ++ lq)).
  { intros u. unfold has in *. rewrite Z.lor_spec, Hp, Hq. apply eq_iff_eq_true. rewrite orb_true_iff, !bool_decide_eq_true, elem_of_app. done. }
  assert (Hsplit : forall reqs, split_usages pm qm (foldl Z.lor 0 (usage_mask <$> reqs)) CANONICAL_ORDER = (granted reqs lp, granted reqs lq)).
  { intros reqs. rewrite split_usages_spec by done. unfold granted. f_equal; f_equal; apply list_filter_iff; intros u; rewrite has_seen, has_zero, Hp, ?Hq;
      cbn [orb]; rewrite ?bool_decide_eq_true, ?bool_decide_eq_false; naive_solver. }
  split.
  - intros H. destruct (see_usages (Z.lor pm qm) us 0) as [seen| |] eqn:Hs; [|discriminate..]. cbn [and_then] in H.
    apply (see_allowed _ (lp ++ lq)) in Hs as (reqs & -> & Hr & ->); [|done]. rewrite Hsplit in H. exists reqs. split; [done|]. split; [done|].
    rewrite as_array_empty in H. destruct reqs as [|u reqs]; [discriminate|]. split; [done|]. cbn [is_empty andb negb] in H. rewrite andb_false_r in H. congruence.
  - intros (reqs & -> & Hr & Hne & ->). rewrite (proj2 (see_allowed _ (lp ++ lq) _ _ Hm)) by (exists reqs; done). cbn [and_then].
    rewrite Hsplit, as_array_empty. destruct reqs; [done|]. cbn [is_empty andb negb]. rewrite andb_false_r. done.
Qed.

(** ** Algorithms *)

Inductive HashAlgorithm : Type := Md5 | Sha1 | Sha256 | Sha384 | Sha512.
Inductive EllipticCurve : Type := P256 | P384 | P521.
Inductive EcAlgorithm : Type := Ecdh | Ecdsa.
Inductive AesAlgorithm : Type := Cbc | Ctr | Gcm | Kw.
Inductive MlDsaVariant : Type := MlDsa44 | MlDsa65 | MlDsa87.
Inductive MlKemVariant : Type := MlKem512 | MlKem768 | MlKem1024.
Inductive HybridKemVariant : Type := MlKem768P256 | MlKem768X25519 | MlKem1024P384.

#[export] Instance HashAlgorithm_eq_dec : EqDecision HashAlgorithm.
Proof. solve_decision. Defined.
#[export] Instance EllipticCurve_eq_dec : EqDecision EllipticCurve.
Proof. solve_decision. Defined.
#[export] Instance EcAlgorithm_eq_dec : EqDecision EcAlgorithm.
Proof. solve_decision. Defined.
#[export] Instance AesAlgorithm_eq_dec : EqDecision AesAlgorithm.
Proof. solve_decision. Defined.
#[export] Instance MlDsaVariant_eq_dec : EqDecision MlDsaVariant.
Proof. solve_decision. Defined.
#[export] Instance MlKemVariant_eq_dec : EqDecision MlKemVariant.
Proof. solve_decision. Defined.
#[export] Instance HybridKemVariant_eq_dec : EqDecision HybridKemVariant.
Proof. solve_decision. Defined.

Inductive KeyDerivation : Type :=
| Hkdf (hash : HashAlgorithm) (salt info : list Z)
| Pbkdf2 (hash : HashAlgorithm) (salt : list Z) (iterations : Z).

Inductive KeyAlgorithm : Type :=
| Aes (length : Z) (algorithm : AesAlgorithm)
| Ec (curve : EllipticCurve) (algorithm : EcAlgorithm)
| X25519
| Ed25519
| Hmac (hash : HashAlgorithm) (length : Z)
| ChaCha20Poly1305
| MlDsa (v : MlDsaVariant)
| MlKem (v : MlKemVariant)
| HybridKem (v : HybridKemVariant)
| Rsa (modulus_length : Z) (public_exponent : list Z) (hash : HashAlgorithm)
| Derive (d : KeyDerivation)
| HkdfImport
| Pbkdf2Import.

(** The caches of the getters are left out: the operations do not read them. *)
Record CryptoKey := mkKey {
  kind : KeyKind;
  extractable : bool;
  algorithm : KeyAlgorithm;
  name : list Z;
  usages : list (list Z);
  handle : list Z;
}.

Definition hash_str (h : HashAlgorithm) : list Z :=
  str (match h with Md5 => "MD5" | Sha1 => "SHA-1" | Sha256 => "SHA-256" | Sha384 => "SHA-384" | Sha512 => "SHA-512" end).

Definition as_numeric_str (h : HashAlgorithm) : list Z :=
  str (match h with Md5 => "md5" | Sha1 => "1" | Sha256 => "256" | Sha384 => "384" | Sha512 => "512" end).

Definition digest_len (h : HashAlgorithm) : Z :=
  match h with Md5 => 16 | Sha1 => 20 | Sha256 => 32 | Sha384 => 48 | Sha512 => 64 end.

Definition block_len (h : HashAlgorithm) : Z :=
  match h with Md5 | Sha1 | Sha256 => 64 | Sha384 | Sha512 => 128 end.

Definition from_strict_str (s : list Z) : option HashAlgorithm :=
  if bool_decide (s = str "SHA-1") then Some Sha1
  else if bool_decide (s = str "SHA-256") then Some Sha256
  else if bool_decide (s = str "SHA-384") then Some Sha384
  else if bool_decide (s = str "SHA-512") then Some Sha512
  else None.

Definition curve_str (c : EllipticCurve) : list Z := str (match c with P256 => "P-256" | P384 => "P-384" | P521 => "P-521" end).

Definition ml_dsa_str (v : MlDsaVariant) : list Z :=
  str (match v with MlDsa44 => "ML-DSA-44" | MlDsa65 => "ML-DSA-65" | MlDsa87 => "ML-DSA-87" end).

Definition ml_kem_str (v : MlKemVariant) : list Z :=
  str (match v with MlKem512 => "ML-KEM-512" | MlKem768 => "ML-KEM-768" | MlKem1024 => "ML-KEM-1024" end).

Definition hybrid_kem_str (v : HybridKemVariant) : list Z :=
  str (match v with MlKem768P256 => "MLKEM768-P256" | MlKem768X25519 => "MLKEM768-X25519" | MlKem1024P384 => "MLKEM1024-P384" end).

(** [try_from] of these: the variant with this text. *)
Definition try_from {A} (text : A -> list Z) (variants : list A) (s : list Z) : option A :=
  head (filter (fun v => text v = s) variants).

Definition curve_from (s : list Z) : option EllipticCurve := try_from curve_str [P256; P384; P521] s.
Definition ml_dsa_from (s : list Z) : option MlDsaVariant := try_from ml_dsa_str [MlDsa44; MlDsa65; MlDsa87] s.
Definition ml_kem_from (s : list Z) : option MlKemVariant := try_from ml_kem_str [MlKem512; MlKem768; MlKem1024] s.
Definition hybrid_kem_from (s : list Z) : option HybridKemVariant :=
  try_from hybrid_kem_str [MlKem768P256; MlKem768X25519; MlKem1024P384] s.

Definition normalize_algorithm_name (name : list Z) : list Z :=
  let name := to_ascii_uppercase <$> name in
  if bool_decide (name = str "CHACHA20-POLY1305") then str "ChaCha20-Poly1305"
  else if bool_decide (name = str "ED25519") then str "Ed25519"
  else if bool_decide (name = str "RSASSA-PKCS1-V1_5") then str "RSASSA-PKCS1-v1_5"
  else name.

(** ** Values of the program *)

#[warnings="-register-all"]
Inductive js : Type := mkJs {
  js_undefined : bool;
  js_null : bool;
  (** whether it is a string, and the string *)
  js_is_string : bool;
  js_string : result js_error (list Z);
  (** [Coerced<String>] *)
  js_coerced : result js_error (list Z);
  (** [ObjectBytes], and its bytes, which a detached buffer does not have *)
  js_object_bytes : result js_error (result js_error (list Z));
  (** a [Uint8Array], and its bytes unless it is detached *)
  js_uint8 : result js_error (option (list Z));
  (** [Coerced<f64>] *)
  js_number : result js_error f64;
  js_bool : result js_error bool;
  (** an array, its elements as strings *)
  js_strings : result js_error (list (result js_error (list Z)));
  js_key : result js_error CryptoKey;
  (** an object: what reading its properties gives *)
  js_object : option (list Z -> result js_error js);
}.

Definition js_bytes (v : js) : result js_error (list Z) :=
  match js_object_bytes v with Ok r => r | Err e => Err e end.

Abbreviation dict := (list Z -> result js_error js).

(** [object.get_optional]: [None] for [undefined] and [null]. *)
Definition get_optional {V} (view : js -> result js_error V) (o : dict) (k : list Z) : crypto (option V) :=
  let% v := engine (o k) in
  if js_undefined v || js_null v then Fine None
  else
    let% x := engine (view v) in
    Fine (Some x).

Definition get_required {V} (view : js -> result js_error V) (o : dict) (k : list Z) : crypto V :=
  let% x := get_optional view o k in
  or_throw ATypeError x.

Definition get_required_dictionary_value (o : dict) (k : list Z) : crypto js :=
  let% v := engine (o k) in
  if js_undefined v then Throw ATypeError else Fine v.

Definition get_optional_dictionary_value (o : dict) (k : list Z) : crypto (option js) :=
  let% v := engine (o k) in
  Fine (if js_undefined v then None else Some v).

(** [integer_part] is the number without its fraction. *)
Definition enforce_range_unsigned (v : js) (upper_bound : Z) : crypto Z :=
  let% number := engine (js_number v) in
  if is_nan number || is_infinite number then Throw ATypeError
  else
    let integer := integer_part number in
    if (integer <? 0) || (upper_bound <? integer) then Throw ATypeError
    else Fine integer.

Definition enforce_range_u8 (v : js) : crypto Z := enforce_range_unsigned v (2 ^ 8 - 1).
Definition enforce_range_u16 (v : js) : crypto Z := enforce_range_unsigned v (2 ^ 16 - 1).
Definition enforce_range_u32 (v : js) : crypto Z := enforce_range_unsigned v (2 ^ 32 - 1).

(** The name of an algorithm, and its object if it is one. *)
Definition to_name_and_maybe_object (v : js) : crypto (list Z * crypto dict) :=
  if js_is_string v then
    let% s := engine (js_string v) in
    Fine (s, Throw (Engine FromJs))
  else
    match js_object v with
    | Some o =>
        let% s := get_required js_string o (str "name") in
        Fine (s, Fine o)
    | None => Throw AnError
    end.

Definition extract_sha_hash (o : dict) : crypto HashAlgorithm :=
  let% hash := get_required Ok o (str "hash") in
  let% hash :=
    if js_is_string hash then engine (js_string hash)
    else
      match js_object hash with
      | Some h => get_required js_string h (str "name")
      | None => Throw (Dom NotSupportedError)
      end in
  or_throw (Dom NotSupportedError) (from_strict_str (normalize_algorithm_name hash)).

Definition for_hkdf_object (o : dict) : crypto KeyDerivation :=
  let% hash := extract_sha_hash o in
  let% salt := get_required js_bytes o (str "salt") in
  let% info := get_required js_bytes o (str "info") in
  Fine (Hkdf hash salt info).

Definition for_pbkf2_object (o : dict) : crypto KeyDerivation :=
  let% hash := extract_sha_hash o in
  let% salt := get_required js_bytes o (str "salt") in
  let% value := get_required_dictionary_value o (str "iterations") in
  let% iterations := enforce_range_u32 value in
  Fine (Pbkdf2 hash salt iterations).
