(* ===== verification/CryptoImport.v ===== *)
(** * Importing and making keys (src/modules/llrt_crypto/src/subtle/key_algorithm.rs,
      import_key.rs and generate_key.rs)

    [Provider] names what the crypto provider and the crates for DER do; the
    theorems do not depend on what their functions compute. *)
From Stdlib Require Import ZArith Lia SpecFloat.
From stdpp Require Import base list numbers strings sets.
From S2P Require Import Prelude F64 Utf8 Js RustStr Encoding CryptoKeys.
Local Open Scope Z_scope.

(** ** The provider *)

Inductive CryptoError : Type :=
  InvalidKey | InvalidData | InvalidSignature | InvalidLength | SigningFailed | VerificationFailed
| OperationFailed | UnsupportedAlgorithm | DerivationFailed | EncryptionFailed | DecryptionFailed | InvalidAccess.

Definition into_dom_exception (e : CryptoError) : exn :=
  Dom (match e with
       | UnsupportedAlgorithm => NotSupportedError
       | InvalidLength | InvalidKey | InvalidData | InvalidSignature => DataError
       | SigningFailed | VerificationFailed | OperationFailed | DerivationFailed | EncryptionFailed | DecryptionFailed => OperationError
       | InvalidAccess => InvalidAccessError
       end).

Definition or_throw_dom {A} (r : result CryptoError A) : crypto A :=
  match r with Ok a => Fine a | Err e => Throw (into_dom_exception e) end.

Record RsaImportResult := mkRsa { rsa_key_data : list Z; rsa_modulus_length : Z; rsa_public_exponent : list Z; rsa_is_private : bool }.
Record EcImportResult := mkEc { ec_key_data : list Z; ec_is_private : bool }.

(** [n] and [e], and for a private key [d], [p], [q], [dp], [dq] and [qi]. *)
Record RsaJwk := mkRsaJwk { rsa_n : list Z; rsa_e : list Z; rsa_private : option (list (list Z)) }.
Record EcJwk := mkEcJwk { ec_x : list Z; ec_y : list Z; ec_d : option (list Z) }.
Record OkpJwk := mkOkpJwk { okp_x : list Z; okp_d : option (list Z) }.

Inductive AesMode : Type := ModeCtr (counter_length : Z) | ModeCbc | ModeGcm (tag_length : Z).

Abbreviation reply A := (result CryptoError A).

Class Provider := {
  (** DER: a PKCS#8 key (the identifier, whether it has parameters, the key), a
      SPKI key, an octet string and a sequence of them; and a PKCS#8 key made *)
  pkcs8_info : list Z -> option (list Z * bool * list Z);
  spki_info : list Z -> option (list Z * list Z);
  octet_string : list Z -> option (list Z);
  octet_strings : list Z -> option (list (list Z));
  make_pkcs8 : list Z -> list Z -> list Z -> option (list Z);
  (** the public keys of Ed25519 and X25519 *)
  ed25519_public : list Z -> list Z;
  x25519_public : list Z -> list Z;
  (** import *)
  import_rsa_jwk : RsaJwk -> reply RsaImportResult;
  import_rsa_public_key_pkcs1 : list Z -> reply RsaImportResult;
  import_rsa_private_key_pkcs8 : list Z -> reply RsaImportResult;
  import_rsa_public_key_spki : list Z -> reply RsaImportResult;
  import_ec_jwk : EcJwk -> EllipticCurve -> reply EcImportResult;
  import_ec_public_key_sec1 : list Z -> EllipticCurve -> reply EcImportResult;
  import_ec_public_key_spki : list Z -> EllipticCurve -> reply EcImportResult;
  import_ec_private_key_pkcs8 : list Z -> reply EcImportResult;
  import_ml_dsa_public_key : MlDsaVariant -> list Z -> bool -> reply (list Z);
  import_ml_dsa_private_key : MlDsaVariant -> list Z -> bool -> reply (list Z);
  ml_dsa_public_key : MlDsaVariant -> list Z -> reply (list Z);
  import_ml_kem_public_key : MlKemVariant -> list Z -> bool -> reply (list Z);
  import_ml_kem_private_key : MlKemVariant -> list Z -> bool -> reply (list Z);
  ml_kem_public_key : MlKemVariant -> list Z -> reply (list Z);
  import_hybrid_kem_public_key : HybridKemVariant -> list Z -> reply (list Z);
  import_hybrid_kem_private_key : HybridKemVariant -> list Z -> reply (list Z);
  hybrid_kem_public_key : HybridKemVariant -> list Z -> reply (list Z);
  (** making keys: a private and a public key *)
  generate_aes_key : Z -> reply (list Z);
  generate_hmac_key : HashAlgorithm -> Z -> reply (list Z);
  random_byte_array : nat -> list Z;
  generate_ec_key : EllipticCurve -> reply (list Z * list Z);
  generate_ed25519_key : reply (list Z * list Z);
  generate_x25519_key : reply (list Z * list Z);
  generate_ml_dsa_key : MlDsaVariant -> reply (list Z * list Z);
  generate_ml_kem_key : MlKemVariant -> reply (list Z * list Z);
  generate_hybrid_kem_key : HybridKemVariant -> reply (list Z * list Z);
  generate_rsa_key : Z -> list Z -> reply (list Z * list Z);
  (** export *)
  export_ec_public_key_sec1 : list Z -> EllipticCurve -> bool -> reply (list Z);
  export_ec_public_key_spki : list Z -> EllipticCurve -> reply (list Z);
  export_ec_private_key_pkcs8 : list Z -> EllipticCurve -> reply (list Z);
  export_ec_jwk : list Z -> EllipticCurve -> bool -> reply EcJwk;
  export_okp_public_key_raw : list Z -> bool -> reply (list Z);
  export_okp_public_key_spki : list Z -> list Z -> reply (list Z);
  export_okp_private_key_pkcs8 : list Z -> list Z -> reply (list Z);
  export_okp_jwk : list Z -> bool -> bool -> reply OkpJwk;
  export_rsa_public_key_spki : list Z -> reply (list Z);
  export_rsa_private_key_pkcs8 : list Z -> reply (list Z);
  export_rsa_jwk : list Z -> bool -> reply RsaJwk;
  export_ml_dsa_public_key_spki : MlDsaVariant -> list Z -> reply (list Z);
  export_ml_dsa_private_key_pkcs8 : MlDsaVariant -> list Z -> reply (list Z);
  export_ml_kem_public_key_spki : MlKemVariant -> list Z -> reply (list Z);
  export_ml_kem_private_key_pkcs8 : MlKemVariant -> list Z -> reply (list Z);
  (** operations *)
  digest : HashAlgorithm -> list Z -> list Z;
  hmac : HashAlgorithm -> list Z -> list Z -> list Z;
  ecdsa_sign : EllipticCurve -> list Z -> list Z -> reply (list Z);
  ecdsa_verify : EllipticCurve -> list Z -> list Z -> list Z -> reply bool;
  ed25519_sign : list Z -> list Z -> reply (list Z);
  ed25519_verify : list Z -> list Z -> list Z -> reply bool;
  rsa_pss_sign : list Z -> list Z -> Z -> HashAlgorithm -> reply (list Z);
  rsa_pss_verify : list Z -> list Z -> list Z -> Z -> HashAlgorithm -> reply bool;
  rsa_pkcs1v15_sign : list Z -> list Z -> HashAlgorithm -> reply (list Z);
  rsa_pkcs1v15_verify : list Z -> list Z -> list Z -> HashAlgorithm -> reply bool;
  ml_dsa_sign : MlDsaVariant -> list Z -> list Z -> list Z -> reply (list Z);
  ml_dsa_verify : MlDsaVariant -> list Z -> list Z -> list Z -> list Z -> reply bool;
  rsa_oaep_encrypt : list Z -> list Z -> HashAlgorithm -> option (list Z) -> reply (list Z);
  rsa_oaep_decrypt : list Z -> list Z -> HashAlgorithm -> option (list Z) -> reply (list Z);
  aes_encrypt : AesMode -> list Z -> list Z -> list Z -> option (list Z) -> reply (list Z);
  aes_decrypt : AesMode -> list Z -> list Z -> list Z -> option (list Z) -> reply (list Z);
  aes_kw_wrap : list Z -> list Z -> reply (list Z);
  aes_kw_unwrap : list Z -> list Z -> reply (list Z);
  chacha20_poly1305_encrypt : list Z -> list Z -> list Z -> option (list Z) -> reply (list Z);
  chacha20_poly1305_decrypt : list Z -> list Z -> list Z -> option (list Z) -> reply (list Z);
  ecdh_derive_bits : EllipticCurve -> list Z -> list Z -> reply (list Z);
  x25519_derive_bits : list Z -> list Z -> reply (list Z);
  hkdf_derive_key : list Z -> list Z -> list Z -> Z -> HashAlgorithm -> reply (list Z);
  pbkdf2_derive_key : list Z -> list Z -> Z -> Z -> HashAlgorithm -> reply (list Z);
  ml_kem_encapsulate : MlKemVariant -> list Z -> reply (list Z * list Z);
  ml_kem_decapsulate : MlKemVariant -> list Z -> list Z -> reply (list Z);
  hybrid_kem_encapsulate : HybridKemVariant -> list Z -> reply (list Z * list Z);
  hybrid_kem_decapsulate : HybridKemVariant -> list Z -> list Z -> reply (list Z);
}.

(** Object identifiers (crate const_oid). *)
Definition ID_ED_25519 : list Z := str "1.3.101.112".
Definition ID_X_25519 : list Z := str "1.3.101.110".
Definition RSA_ENCRYPTION : list Z := str "1.2.840.113549.1.1.1".
Definition EC_ALGORITHM_OID : list Z := str "1.2.840.10045.2.1".

Definition ml_dsa_oid (v : MlDsaVariant) : list Z :=
  str (match v with MlDsa44 => "2.16.840.1.101.3.4.3.17" | MlDsa65 => "2.16.840.1.101.3.4.3.18" | MlDsa87 => "2.16.840.1.101.3.4.3.19" end).

Definition ml_kem_oid (v : MlKemVariant) : list Z :=
  str (match v with MlKem512 => "2.16.840.1.101.3.4.4.1" | MlKem768 => "2.16.840.1.101.3.4.4.2" | MlKem1024 => "2.16.840.1.101.3.4.4.3" end).

(** ** JSON web keys *)

(** [or_throw_data_error]. *)
Definition or_data_error {A} (m : crypto A) : crypto A :=
  match m with Throw _ => Throw (Dom DataError) | m => m end.

Definition get_jwk_required_string (o : dict) (k : string) : crypto (list Z) := or_data_error (get_required js_string o (str k)).

Section Jwk.
Context `{Codecs}.

Definition decode_b64 (e : exn) (s : list Z) : crypto (list Z) :=
  match bytes_from_b64_url_safe s with Ok bs => Fine bs | Err _ => Throw e end.

Definition get_jwk_required_bytes (o : dict) (k : string) : crypto (list Z) :=
  let% value := get_jwk_required_string o k in
  decode_b64 (Dom DataError) value.

Definition get_jwk_optional_bytes (o : dict) (k : string) : crypto (option (list Z)) :=
  let% value := get_optional js_string o (str k) in
  match value with
  | None => Fine None
  | Some value =>
      let% bs := decode_b64 (Dom DataError) value in
      Fine (Some bs)
  end.
End Jwk.

Definition validate_jwk_kty (o : dict) (expected : string) : crypto unit :=
  let% kty := get_jwk_required_string o "kty" in
  guard (bool_decide (kty = str expected)) (Dom DataError).

Definition validate_jwk_crv (o : dict) (expected : list Z) : crypto unit :=
  let% crv := get_jwk_required_string o "crv" in
  guard (bool_decide (crv = expected)) (Dom DataError).

Definition validate_jwk_use (o : dict) (is_ed25519 : bool) : crypto unit :=
  let% use := get_optional js_string o (str "use") in
  match use with
  | Some use => guard (bool_decide (use = if is_ed25519 then str "sig" else str "enc")) (Dom DataError)
  | None => Fine tt
  end.

Definition validate_jwk_alg (o : dict) : crypto unit :=
  let% alg := get_optional js_string o (str "alg") in
  match alg with
  | Some alg => guard (bool_decide (alg = str "Ed25519") || bool_decide (alg = str "EdDSA")) (Dom DataError)
  | None => Fine tt
  end.

Definition validate_jwk_bytes_len (bytes : list Z) (expected : nat) : crypto unit :=
  guard (length bytes =? expected)%nat (Dom DataError).

(** ** Formats and modes *)

Inductive KeyFormat : Type := Jwk | Raw | RawPrivate | RawPublic | RawSecret | RawSeed | Spki | Pkcs8.

#[export] Instance KeyFormat_eq_dec : EqDecision KeyFormat.
Proof. solve_decision. Defined.

Definition format_str (f : KeyFormat) : list Z :=
  str (match f with
       | Jwk => "jwk" | Raw => "raw" | RawPrivate => "raw-private" | RawPublic => "raw-public"
       | RawSecret => "raw-secret" | RawSeed => "raw-seed" | Spki => "spki" | Pkcs8 => "pkcs8"
       end).

Definition format_from (s : list Z) : option KeyFormat :=
  try_from format_str [Jwk; Raw; RawPrivate; RawPublic; RawSecret; RawSeed; Spki; Pkcs8] s.

(** A JWK, or another format and its bytes. *)
Inductive KeyFormatData : Type :=
| JwkData (o : dict)
| ByteData (f : KeyFormat) (bytes : result js_error (list Z)).

Inductive mode : Type := Import (format : KeyFormatData) | ValidateImport | Generate | DeriveMode.

Definition is_generate (m : mode) : bool := match m with Generate => true | _ => false end.

Definition unsupported {A} : crypto A := Throw (Dom NotSupportedError).
Definition mismatch {A} : crypto A := Throw (Dom TypeMismatchError).

(** The kind and the data of a key that is imported. *)
Abbreviation imported := (KeyKind * list Z)%type.

(** [&s[n..]], which panics outside of a character's boundary. *)
Definition is_char_boundary (s : list Z) (n : nat) : bool :=
  (n =? length s)%nat || match s !! n with Some b => negb (in_range 128 191 b) | None => false end.

Definition slice_from (s : list Z) (n : nat) : crypto (list Z) :=
  if is_char_boundary s n then Fine (drop n s) else Panic.

Definition slice_to (s : list Z) (n : nat) : crypto (list Z) :=
  if is_char_boundary s n then Fine (take n s) else Panic.

Definition ends_with (s suffix : list Z) : bool := bool_decide (suffix `suffix_of` s).

(** [strip_prefix]. *)
Definition strip_prefix (p s : list Z) : option (list Z) :=
  if bool_decide (p `prefix_of` s) then Some (drop (length p) s) else None.

Section Importing.
Context `{Codecs} `{Provider}.

(** ** Secret keys *)

Definition import_derive_key (format : KeyFormatData) : crypto imported :=
  match format with
  | ByteData Raw bytes | ByteData RawSecret bytes =>
      let% data := engine bytes in
      Fine (Secret, data)
  | _ => unsupported
  end.

(** The checks of a JWK's [alg]. *)
Definition check_symmetric_alg (algorithm_name : list Z) (hash : option HashAlgorithm) (alg : list Z) : crypto unit :=
  let% prefix := slice_to alg 1 in
  match hash with
  | Some hash =>
      if bool_decide (prefix = str "H") then
        let% rest := slice_from alg 2 in
        if bool_decide (rest = as_numeric_str hash) then Fine tt else mismatch
      else mismatch
  | None =>
      if bool_decide (prefix = str "A") then
        let% variant := slice_from alg 4 in
        if ends_with algorithm_name variant then Fine tt else mismatch
      else mismatch
  end.

(** The data, and its length in bits. *)
Definition import_symmetric_key (format : KeyFormatData) (algorithm_name : list Z) (hash : option HashAlgorithm) : crypto (imported * Z) :=
  match format with
  | JwkData o =>
      let% _ := validate_jwk_kty o "oct" in
      let% k := get_jwk_required_string o "k" in
      let% alg := get_jwk_required_string o "alg" in
      let% _ := check_symmetric_alg algorithm_name hash alg in
      let% data := decode_b64 AnError k in
      Fine ((Secret, data), Z.of_nat (length data) * 8)
  | ByteData Raw bytes | ByteData RawSecret bytes =>
      let% data := engine bytes in
      Fine ((Secret, data), Z.of_nat (length data) * 8)
  | _ => unsupported
  end.

Definition import_chacha20_poly1305 (format : KeyFormatData) : crypto imported :=
  let% data :=
    match format with
    | ByteData RawSecret bytes => engine bytes
    | JwkData o =>
        let% _ := validate_jwk_kty o "oct" in
        let% _ := validate_jwk_use o false in
        let% alg := get_optional js_string o (str "alg") in
        let% _ :=
          match alg with
          | Some alg => guard (bool_decide (alg = str "C20P")) (Dom DataError)
          | None => Fine tt
          end in
        get_jwk_required_bytes o "k"
    | _ => unsupported
    end in
  let% _ := guard (length data =? 32)%nat (Dom DataError) in
  Fine (Secret, data).

(** ** Key pairs *)

Definition kind_of (is_private : bool) : KeyKind := if is_private then Private else Public.

Definition validate_okp_jwk_key_pair (private_key public_key : list Z) (is_ed25519 : bool) : crypto unit :=
  let% _ := guard (length private_key =? 32)%nat (Dom DataError) in
  let derived := if is_ed25519 then ed25519_public private_key else x25519_public private_key in
  guard (bool_decide (derived = public_key)) (Dom DataError).

Definition import_okp_key (format : KeyFormatData) (oid algorithm_name : list Z) (is_ed25519 : bool) : crypto imported :=
  match format with
  | JwkData o =>
      let% _ := validate_jwk_kty o "OKP" in
      let% _ := validate_jwk_crv o algorithm_name in
      let% _ := if is_ed25519 then validate_jwk_alg o else Fine tt in
      let% _ := validate_jwk_use o is_ed25519 in
      let% public_key := get_jwk_required_bytes o "x" in
      let% _ := validate_jwk_bytes_len public_key 32 in
      let% private_key := get_jwk_optional_bytes o "d" in
      match private_key with
      | Some private_key =>
          let% _ := validate_jwk_bytes_len private_key 32 in
          let% _ := validate_okp_jwk_key_pair private_key public_key is_ed25519 in
          let% data := if is_ed25519 then or_throw AnError (make_pkcs8 oid private_key public_key) else Fine private_key in
          Fine (Private, data)
      | None => Fine (Public, public_key)
      end
  | ByteData Raw bytes | ByteData RawPublic bytes =>
      let% bytes := engine bytes in
      let% _ := guard (length bytes =? 32)%nat (Dom DataError) in
      Fine (Public, bytes)
  | ByteData Spki bytes =>
      let% bytes := engine bytes in
      let% (oid', public_key) := or_throw (Dom DataError) (spki_info bytes) in
      let% _ := guard (bool_decide (oid' = oid)) (Dom TypeMismatchError) in
      let% _ := guard (length public_key =? 32)%nat (Dom DataError) in
      Fine (Public, public_key)
  | ByteData Pkcs8 bytes =>
      let% bytes := engine bytes in
      let% (oid', _, private_key) := or_throw (Dom DataError) (pkcs8_info bytes) in
      let% _ := guard (bool_decide (oid' = oid)) (Dom TypeMismatchError) in
      if is_ed25519 then Fine (Private, bytes)
      else
        let% data := or_throw AnError (octet_string private_key) in
        let% _ := guard (length data =? 32)%nat (Dom DataError) in
        Fine (Private, data)
  | _ => unsupported
  end.

Definition coord_len (curve : EllipticCurve) : nat := (match curve with P256 => 32 | P384 => 48 | P521 => 66 end)%nat.

Definition import_ec_key (format : KeyFormatData) (curve : EllipticCurve) (curve_name : list Z) : crypto imported :=
  match format with
  | JwkData o =>
      let% _ := validate_jwk_kty o "EC" in
      let% _ := validate_jwk_use o true in
      let% _ := validate_jwk_crv o curve_name in
      let% x := get_jwk_required_bytes o "x" in
      let% _ := validate_jwk_bytes_len x (coord_len curve) in
      let% y := get_jwk_required_bytes o "y" in
      let% _ := validate_jwk_bytes_len y (coord_len curve) in
      let% d := get_jwk_optional_bytes o "d" in
      let% _ := match d with Some d => validate_jwk_bytes_len d (coord_len curve) | None => Fine tt end in
      let% r := or_throw_dom (import_ec_jwk (mkEcJwk x y d) curve) in
      Fine (kind_of (ec_is_private r), ec_key_data r)
  | ByteData Raw bytes | ByteData RawPublic bytes =>
      let% bytes := engine bytes in
      let% r := or_throw_dom (import_ec_public_key_sec1 bytes curve) in
      Fine (Public, ec_key_data r)
  | ByteData Spki bytes =>
      let% bytes := engine bytes in
      let% (oid, _) := or_throw (Dom DataError) (spki_info bytes) in
      let% _ := guard (bool_decide (oid = EC_ALGORITHM_OID)) (Dom TypeMismatchError) in
      let% r := or_throw_dom (import_ec_public_key_spki bytes curve) in
      Fine (Public, ec_key_data r)
  | ByteData Pkcs8 bytes =>
      let% bytes := engine bytes in
      let% (oid, _, _) := or_throw (Dom DataError) (pkcs8_info bytes) in
      let% _ := guard (bool_decide (oid = EC_ALGORITHM_OID)) (Dom TypeMismatchError) in
      let% r := or_throw_dom (import_ec_private_key_pkcs8 bytes) in
      Fine (Private, ec_key_data r)
  | _ => unsupported
  end.

(** The parts of a private RSA key. *)
Definition rsa_private_parts (o : dict) (d : list Z) : crypto (list (list Z)) :=
  let% p := get_jwk_required_bytes o "p" in
  let% q := get_jwk_required_bytes o "q" in
  let% dp := get_jwk_required_bytes o "dp" in
  let% dq := get_jwk_required_bytes o "dq" in
  let% qi := get_jwk_required_bytes o "qi" in
  Fine [d; p; q; dp; dq; qi].

Definition check_rsa_alg (algorithm_name : list Z) (hash : HashAlgorithm) (alg : list Z) : crypto unit :=
  let numeric :=
    if bool_decide (algorithm_name = str "RSASSA-PKCS1-v1_5") then strip_prefix (str "RS") alg
    else if bool_decide (algorithm_name = str "RSA-PSS") then strip_prefix (str "PS") alg
    else if bool_decide (algorithm_name = str "RSA-OAEP") then strip_prefix (str "RSA-OAEP-") alg
    else None in
  match numeric with
  | None => mismatch
  | Some s => if bool_decide (s = as_numeric_str hash) then Fine tt else mismatch
  end.

(** The key, its modulus length and its exponent. *)
Definition import_rsa_key (format : KeyFormatData) (algorithm_name : list Z) (hash : HashAlgorithm) : crypto (imported * (Z * list Z)) :=
  let% (kind, r) :=
    match format with
    | JwkData o =>
        let% _ := validate_jwk_kty o "RSA" in
        let% alg := get_optional js_string o (str "alg") in
        let% _ := match alg with Some alg => check_rsa_alg algorithm_name hash alg | None => Fine tt end in
        let% n := get_jwk_required_bytes o "n" in
        let% e := get_jwk_required_bytes o "e" in
        let% d := get_jwk_optional_bytes o "d" in
        let% parts :=
          match d with
          | Some d =>
              let% parts := rsa_private_parts o d in
              Fine (Some parts)
          | None => Fine None
          end in
        let% r := or_throw_dom (import_rsa_jwk (mkRsaJwk n e parts)) in
        Fine (kind_of (rsa_is_private r), r)
    | ByteData Raw bytes | ByteData RawPublic bytes =>
        let% bytes := engine bytes in
        let% r := or_throw_dom (import_rsa_public_key_pkcs1 bytes) in
        Fine (Public, r)
    | ByteData Pkcs8 bytes =>
        let% bytes := engine bytes in
        let% (oid, _, _) := or_throw AnError (pkcs8_info bytes) in
        let% _ := guard (bool_decide (oid = RSA_ENCRYPTION)) (Dom TypeMismatchError) in
        let% r := or_throw_dom (import_rsa_private_key_pkcs8 bytes) in
        Fine (Private, r)
    | ByteData Spki bytes =>
        let% bytes := engine bytes in
        let% (oid, _) := or_throw AnError (spki_info bytes) in
        let% _ := guard (bool_decide (oid = RSA_ENCRYPTION)) (Dom TypeMismatchError) in
        let% r := or_throw_dom (import_rsa_public_key_spki bytes) in
        Fine (Public, r)
    | _ => unsupported
    end in
  Fine ((kind, rsa_key_data r), (rsa_modulus_length r, rsa_public_exponent r)).

(** ** Post-quantum keys *)

Definition validate_ml_private_key_info (data expected_oid : list Z) (seed_length expanded_key_length : nat) : crypto unit :=
  let% (oid, has_parameters, private_key) := or_throw (Dom DataError) (pkcs8_info data) in
  let% _ := guard (bool_decide (oid = expected_oid) && negb has_parameters) (Dom DataError) in
  match head private_key with
  | Some b =>
      if b =? 0x80 then Fine tt
      else if b =? 0x04 then
        let% expanded := or_throw (Dom DataError) (octet_string private_key) in
        if (length expanded =? expanded_key_length)%nat then Throw (Dom NotSupportedError) else Throw (Dom DataError)
      else if b =? 0x30 then
        let% values := or_throw (Dom DataError) (octet_strings private_key) in
        match values with
        | [seed; expanded] =>
            if (length seed =? seed_length)%nat && (length expanded =? expanded_key_length)%nat
            then Throw (Dom NotSupportedError) else Throw (Dom DataError)
        | _ => Throw (Dom DataError)
        end
      else Throw (Dom DataError)
  | None => Throw (Dom DataError)
  end.

(** The formats that the three families share. *)
Definition import_akp_jwk (o : dict) (signs : bool) (algorithm_name : list Z)
    (public_from private_from public_of : list Z -> reply (list Z)) : crypto imported :=
  let% _ := validate_jwk_kty o "AKP" in
  let% _ := validate_jwk_use o signs in
  let% alg := get_jwk_required_string o "alg" in
  let% _ := guard (bool_decide (alg = algorithm_name)) (Dom DataError) in
  let% public_key := get_jwk_required_bytes o "pub" in
  let% seed := get_jwk_optional_bytes o "priv" in
  match seed with
  | Some seed =>
      let% data := or_throw_dom (private_from seed) in
      let% derived := or_throw_dom (public_of data) in
      let% _ := guard (bool_decide (derived = public_key)) (Dom DataError) in
      Fine (Private, data)
  | None =>
      let% data := or_throw_dom (public_from public_key) in
      Fine (Public, data)
  end.

Definition import_with (kind : KeyKind) (bytes : result js_error (list Z)) (f : list Z -> reply (list Z)) : crypto imported :=
  let% bytes := engine bytes in
  let% data := or_throw_dom (f bytes) in
  Fine (kind, data).

Definition import_ml_dsa (format : KeyFormatData) (algorithm_name : list Z) (v : MlDsaVariant) : crypto imported :=
  match format with
  | ByteData RawPublic bytes => import_with Public bytes (fun bs => import_ml_dsa_public_key v bs false)
  | ByteData Spki bytes => import_with Public bytes (fun bs => import_ml_dsa_public_key v bs true)
  | ByteData RawSeed bytes => import_with Private bytes (fun bs => import_ml_dsa_private_key v bs false)
  | ByteData Pkcs8 bytes =>
      let% data := engine bytes in
      let% _ := validate_ml_private_key_info data (ml_dsa_oid v) 32 (match v with MlDsa44 => 2560 | MlDsa65 => 4032 | MlDsa87 => 4896 end)%nat in
      import_with Private bytes (fun bs => import_ml_dsa_private_key v bs true)
  | JwkData o =>
      import_akp_jwk o true algorithm_name (fun bs => import_ml_dsa_public_key v bs false) (fun bs => import_ml_dsa_private_key v bs false)
        (ml_dsa_public_key v)
  | _ => unsupported
  end.

Definition import_ml_kem (format : KeyFormatData) (algorithm_name : list Z) (v : MlKemVariant) : crypto imported :=
  match format with
  | ByteData RawPublic bytes => import_with Public bytes (fun bs => import_ml_kem_public_key v bs false)
  | ByteData Spki bytes => import_with Public bytes (fun bs => import_ml_kem_public_key v bs true)
  | ByteData RawSeed bytes => import_with Private bytes (fun bs => import_ml_kem_private_key v bs false)
  | ByteData Pkcs8 bytes =>
      let% data := engine bytes in
      let% _ := validate_ml_private_key_info data (ml_kem_oid v) 64 (match v with MlKem512 => 1632 | MlKem768 => 2400 | MlKem1024 => 3168 end)%nat in
      import_with Private bytes (fun bs => import_ml_kem_private_key v bs true)
  | JwkData o =>
      import_akp_jwk o false algorithm_name (fun bs => import_ml_kem_public_key v bs false) (fun bs => import_ml_kem_private_key v bs false)
        (ml_kem_public_key v)
  | _ => unsupported
  end.

Definition import_hybrid_kem (format : KeyFormatData) (algorithm_name : list Z) (v : HybridKemVariant) : crypto imported :=
  match format with
  | ByteData RawPublic bytes => import_with Public bytes (import_hybrid_kem_public_key v)
  | ByteData RawSeed bytes => import_with Private bytes (import_hybrid_kem_private_key v)
  | JwkData o =>
      import_akp_jwk o false algorithm_name (import_hybrid_kem_public_key v) (import_hybrid_kem_private_key v) (hybrid_kem_public_key v)
  | _ => unsupported
  end.
End Importing.

(** ** The algorithm of a key *)

Record KeyAlgorithmWithUsages := mkWithUsages {
  n_name : list Z;
  n_algorithm : KeyAlgorithm;
  n_public_usages : list (list Z);
  n_private_usages : list (list Z);
  (** the key, when one is imported *)
  n_imported : option imported;
}.

(** The algorithm, with the usages of a private key and of another key. *)
Abbreviation classified := (KeyAlgorithm * (list (list Z) * list (list Z)) * option imported)%type.

Definition MAX_HMAC_KEY_LENGTH_BITS : Z := 1024.

Definition hmac_length_is_byte_aligned (bits : Z) : bool := bits mod 8 =? 0.

Definition parse_rsa_public_exponent (bytes : list Z) : result CryptoError Z :=
  if bool_decide (bytes = [1; 0; 1]) then Ok 65537
  else if bool_decide (bytes = [3]) then Ok 3
  else if ends_with bytes [3] && forallb (fun b => b =? 0) (take (length bytes - 1) bytes) then Ok 3
  else Err OperationFailed.

Definition synthetic_key_usage (name : list Z) : option (list Z) :=
  if bool_decide (is_Some (ml_kem_from name)) || bool_decide (is_Some (hybrid_kem_from name)) then Some (str "encapsulateKey")
  else if bool_decide (is_Some (ml_dsa_from name)) then Some (str "sign")
  else if bool_decide (name = str "AES-KW") then Some (str "wrapKey")
  else if bool_decide (name ∈ str <$> ["AES-CBC"; "AES-CTR"; "AES-GCM"; "ChaCha20-Poly1305"; "RSA-OAEP"]%string) then Some (str "encrypt")
  else if bool_decide (name ∈ str <$> ["ECDH"; "X25519"; "HKDF"; "PBKDF2"]%string) then Some (str "deriveKey")
  else if bool_decide (name ∈ str <$> ["ECDSA"; "Ed25519"; "HMAC"; "RSA-PSS"; "RSASSA-PKCS1-v1_5"]%string) then Some (str "sign")
  else None.

Definition aes_from (name : list Z) : option AesAlgorithm :=
  try_from (fun a => str (match a with Cbc => "AES-CBC" | Ctr => "AES-CTR" | Gcm => "AES-GCM" | Kw => "AES-KW" end)) [Cbc; Ctr; Gcm; Kw] name.

Section FromJs.
Context `{Codecs} `{Provider}.

(** A family whose import does not depend on its parameters. *)
Definition with_import (a : KeyAlgorithm) (u : KeyUsageAlgorithm) (import : KeyFormatData -> crypto imported) (m : mode) (key_usages : usage_array) :
    crypto classified :=
  let% key :=
    match m with
    | Import format =>
        let% key := import format in
        Fine (Some key)
    | _ => Fine None
    end in
  let% r := classify_and_check_usages u key_usages (fst <$> key) in
  Fine (a, r, key).

Definition from_ed25519 (m : mode) (algorithm_name : list Z) (key_usages : usage_array) : crypto classified :=
  with_import Ed25519 SignUsage (fun f => import_okp_key f ID_ED_25519 algorithm_name true) m key_usages.

Definition from_x25519 (m : mode) (algorithm_name : list Z) (key_usages : usage_array) : crypto classified :=
  with_import X25519 DeriveAsymmetric (fun f => import_okp_key f ID_X_25519 algorithm_name false) m key_usages.

(** [length as u16]. *)
Definition from_aes (m : mode) (obj : crypto dict) (algorithm_name : list Z) (key_usages : usage_array) : crypto classified :=
  let% (length, key) :=
    match m with
    | Import format =>
        let% (key, bits) := import_symmetric_key format algorithm_name None in
        Fine (wrap 16 bits, Some key)
    | ValidateImport => Fine (128, None)
    | _ =>
        let% o := obj in
        let% value := get_required_dictionary_value o (str "length") in
        let% length := enforce_range_u16 value in
        Fine (length, None)
    end in
  let% _ := guard ((length =? 128) || (length =? 192) || (length =? 256)) (Dom OperationError) in
  let% a := or_throw (Dom OperationError) (aes_from algorithm_name) in
  let% r := classify_and_check_usages (if bool_decide (a = Kw) then AesKw else Symmetric) key_usages (fst <$> key) in
  Fine (Aes length a, r, key).

(** The length in bits that an HMAC key should have, when it is known. *)
Definition hmac_length (m : mode) (hash : HashAlgorithm) (length : option Z) : crypto (option Z) :=
  match m with
  | Import _ => if bool_decide (length = Some 0) then Throw (Dom DataError) else Fine length
  | ValidateImport => if bool_decide (length = Some 0) then Throw (Dom DataError) else Fine (Some (default 8 length))
  | Generate =>
      match length with
      | Some l => if l =? 0 then Throw (Dom OperationError) else Fine (Some l)
      | None => Fine (Some (block_len hash * 8))
      end
  | DeriveMode =>
      match length with
      | Some l => if l =? 0 then Throw ATypeError else Fine (Some l)
      | None => Fine (Some (block_len hash * 8))
      end
  end.

Definition from_hmac (m : mode) (obj : crypto dict) (algorithm_name : list Z) (key_usages : usage_array) : crypto classified :=
  let% o := obj in
  let% hash := extract_sha_hash o in
  let% _ := guard (negb (bool_decide (hash = Md5))) (Dom NotSupportedError) in
  let% value := get_optional_dictionary_value o (str "length") in
  let% requested :=
    match value with
    | Some value =>
        let% l := enforce_range_u32 value in
        Fine (Some l)
    | None => Fine None
    end in
  let% _ := guard (match requested with Some l => hmac_length_is_byte_aligned l | None => true end) (Dom NotSupportedError) in
  let% length := hmac_length m hash requested in
  let% (length, key) :=
    match m with
    | Import format =>
        let% (key, bits) := import_symmetric_key format algorithm_name (Some hash) in
        let% _ := guard (bits <? 2 ^ 32) (Dom DataError) in
        let% _ := guard (negb (bits =? 0)) (Dom DataError) in
        let% _ := guard (match length with Some l => l =? bits | None => true end) (Dom DataError) in
        Fine (Some bits, Some key)
    | _ => Fine (length, None)
    end in
  let% length := or_throw (Dom OperationError) length in
  let% _ := guard (negb ((is_generate m || match m with DeriveMode => true | _ => false end) && (MAX_HMAC_KEY_LENGTH_BITS <? length))) (Dom OperationError) in
  let% r := classify_and_check_usages HmacUsage key_usages (fst <$> key) in
  Fine (Hmac hash length, r, key).

Definition from_chacha20_poly1305 (m : mode) (key_usages : usage_array) : crypto classified :=
  with_import ChaCha20Poly1305 Symmetric import_chacha20_poly1305 m key_usages.

Definition from_ml_dsa (m : mode) (algorithm_name : list Z) (v : MlDsaVariant) (key_usages : usage_array) : crypto classified :=
  with_import (MlDsa v) SignUsage (fun f => import_ml_dsa f algorithm_name v) m key_usages.

Definition from_ml_kem (m : mode) (algorithm_name : list Z) (v : MlKemVariant) (key_usages : usage_array) : crypto classified :=
  with_import (MlKem v) MlKemUsage (fun f => import_ml_kem f algorithm_name v) m key_usages.

Definition from_hybrid_kem (m : mode) (algorithm_name : list Z) (v : HybridKemVariant) (key_usages : usage_array) : crypto classified :=
  with_import (HybridKem v) MlKemUsage (fun f => import_hybrid_kem f algorithm_name v) m key_usages.

Definition from_rsa (m : mode) (obj : crypto dict) (algorithm_name : list Z) (key_usages : usage_array) : crypto classified :=
  let% o := obj in
  let% hash := extract_sha_hash o in
  let% (modulus_length, public_exponent, key) :=
    match m with
    | Import format =>
        let% (key, (l, e)) := import_rsa_key format algorithm_name hash in
        Fine (l, e, Some key)
    | ValidateImport => Fine (0, [], None)
    | _ =>
        let% value := get_required_dictionary_value o (str "modulusLength") in
        let% l := enforce_range_u32 value in
        let% e := get_required js_uint8 o (str "publicExponent") in
        let% e := or_throw (Dom NotSupportedError) e in
        Fine (l, e, None)
    end in
  let check_exponent := let% _ := or_throw_dom (parse_rsa_public_exponent public_exponent) in Fine tt in
  let% _ := if is_generate m && is_empty key_usages then check_exponent else Fine tt in
  let% r := classify_and_check_usages (if bool_decide (algorithm_name = str "RSA-OAEP") then RsaOaepUsage else SignUsage) key_usages (fst <$> key) in
  let% _ := if is_generate m && negb (is_empty key_usages) then check_exponent else Fine tt in
  Fine (Rsa modulus_length public_exponent hash, r, key).

(** HKDF and PBKDF2. *)
Definition from_kdf (a : KeyAlgorithm) (m : mode) (key_usages : usage_array) : crypto classified :=
  match m with
  | Generate => unsupported
  | _ => with_import a DeriveSymmetric import_derive_key m key_usages
  end.

Definition from_ec (m : mode) (obj : crypto dict) (a : EcAlgorithm) (key_usages : usage_array) (u : KeyUsageAlgorithm) : crypto classified :=
  let% o := obj in
  let% curve_name := get_required js_string o (str "namedCurve") in
  let% curve := or_throw (Dom NotSupportedError) (curve_from curve_name) in
  with_import (Ec curve a) u (fun f => import_ec_key f curve curve_name) m key_usages.

(** The dispatch on the normalized name. *)
Definition from_name (m : mode) (obj : crypto dict) (name : list Z) (key_usages : usage_array) : crypto classified :=
  if bool_decide (name = str "Ed25519") then from_ed25519 m name key_usages
  else if bool_decide (name = str "X25519") then from_x25519 m name key_usages
  else if bool_decide (is_Some (aes_from name)) then from_aes m obj name key_usages
  else if bool_decide (name = str "ECDH") then from_ec m obj Ecdh key_usages DeriveAsymmetric
  else if bool_decide (name = str "ECDSA") then from_ec m obj Ecdsa key_usages SignUsage
  else if bool_decide (name = str "HMAC") then from_hmac m obj name key_usages
  else if bool_decide (name = str "ChaCha20-Poly1305") then from_chacha20_poly1305 m key_usages
  else if bool_decide (name ∈ str <$> ["RSA-OAEP"; "RSA-PSS"; "RSASSA-PKCS1-v1_5"]%string) then from_rsa m obj name key_usages
  else if bool_decide (name = str "HKDF") then from_kdf HkdfImport m key_usages
  else if bool_decide (name = str "PBKDF2") then from_kdf Pbkdf2Import m key_usages
  else
    match ml_dsa_from name, ml_kem_from name, hybrid_kem_from name with
    | Some v, _, _ => from_ml_dsa m name v key_usages
    | _, Some v, _ => from_ml_kem m name v key_usages
    | _, _, Some v => from_hybrid_kem m name v key_usages
    | _, _, _ => unsupported
    end.

Definition from_js (m : mode) (value : js) (key_usages : usage_array) : crypto KeyAlgorithmWithUsages :=
  let% (name, obj) := to_name_and_maybe_object value in
  let name := normalize_algorithm_name name in
  let synthetic := match m with DeriveMode => true | ValidateImport => is_empty key_usages | _ => false end in
  let% key_usages :=
    if synthetic then
      let% usage := or_throw (Dom NotSupportedError) (synthetic_key_usage name) in
      Fine [Ok usage]
    else Fine key_usages in
  let% (a, (private_usages, public_usages), key) := from_name m obj name key_usages in
  Fine (mkWithUsages name a public_usages private_usages key).

(** ** Import *)

Definition not_extractable (a : KeyAlgorithm) : bool := match a with HkdfImport | Pbkdf2Import => true | _ => false end.

(** The operations of a JWK, without a duplicate. *)
Fixpoint collect_ops (ops : usage_array) (seen : list (list Z)) : crypto (list (list Z)) :=
  match ops with
  | [] => Fine seen
  | op :: ops =>
      let% op := engine op in
      if bool_decide (op ∈ seen) then Throw (Dom DataError) else collect_ops ops (seen ++ [op])
  end.

Definition parse_jwk_key_ops (o : dict) : crypto (option (list (list Z))) :=
  let% ops := get_optional js_strings o (str "key_ops") in
  match ops with
  | None => Fine None
  | Some ops =>
      let% l := collect_ops ops [] in
      Fine (Some l)
  end.

Definition validate_requested_jwk_key_ops (operations requested : list (list Z)) : crypto unit :=
  guard (forallb (fun u => bool_decide (u ∈ operations)) requested) (Dom DataError).

Definition validate_jwk_extractable (o : dict) (extractable : bool) : crypto unit :=
  if extractable then
    let% ext := get_optional js_bool o (str "ext") in
    guard (negb (bool_decide (ext = Some false))) (Dom DataError)
  else Fine tt.

Definition validate_jwk (o : dict) (extractable : bool) (usages : list (list Z)) : crypto unit :=
  let% ops := parse_jwk_key_ops o in
  let% _ := match ops with Some ops => validate_requested_jwk_key_ops ops usages | None => Fine tt end in
  validate_jwk_extractable o extractable.

Definition import_key (format : KeyFormatData) (value : js) (extractable : bool) (key_usages : usage_array) : crypto CryptoKey :=
  let% n := from_js (Import format) value key_usages in
  let '(kind, data) := default (Public, []) (n_imported n) in
  let% _ := guard (negb (extractable && not_extractable (n_algorithm n))) (Dom SyntaxError) in
  let usages := match kind with Private => n_private_usages n | _ => n_public_usages n end in
  let% _ := match format with JwkData o => validate_jwk o extractable usages | _ => Fine tt end in
  Fine (mkKey kind extractable (n_algorithm n) (n_name n) usages data).

Definition validate_import_algorithm (format : KeyFormat) (value : js) (extractable : bool) (key_usages : usage_array) : crypto unit :=
  let% n := from_js ValidateImport value key_usages in
  if not_extractable (n_algorithm n) then
    let% _ := guard (bool_decide (format = Raw) || bool_decide (format = RawSecret)) (Dom NotSupportedError) in
    guard (negb extractable) (Dom SyntaxError)
  else Fine tt.

Definition format_of (value : js) : crypto KeyFormat :=
  let% s := engine (js_coerced value) in
  or_throw ATypeError (format_from s).

Definition subtle_import_key (format key_data value : js) (extractable : bool) (key_usages : usage_array) : crypto CryptoKey :=
  let% format := format_of format in
  let% _ := validate_import_algorithm format value extractable key_usages in
  let% data :=
    match format with
    | Jwk =>
        let% o := or_throw ATypeError (js_object key_data) in
        Fine (JwkData o)
    | f =>
        let% bytes := engine (js_object_bytes key_data) in
        Fine (ByteData f bytes)
    end in
  import_key data value extractable key_usages.

(** ** Making keys *)

(** The data of a private key and of a public or secret key; the length of an
    HMAC key is passed as [u16]. *)
Definition generate_key (a : KeyAlgorithm) : crypto (list Z * list Z) :=
  match a with
  | Aes length _ =>
      let% key := or_throw_dom (generate_aes_key length) in
      Fine ([], key)
  | Hmac hash length =>
      let% key := or_throw_dom (generate_hmac_key hash (wrap 16 length)) in
      Fine ([], key)
  | ChaCha20Poly1305 => Fine ([], random_byte_array 32)
  | Ec curve _ => or_throw_dom (generate_ec_key curve)
  | Ed25519 => or_throw_dom generate_ed25519_key
  | X25519 => or_throw_dom generate_x25519_key
  | MlDsa v => or_throw_dom (generate_ml_dsa_key v)
  | MlKem v => or_throw_dom (generate_ml_kem_key v)
  | HybridKem v => or_throw_dom (generate_hybrid_kem_key v)
  | Rsa modulus_length public_exponent _ => or_throw_dom (generate_rsa_key modulus_length public_exponent)
  | _ => unsupported
  end.

Definition is_symmetric (a : KeyAlgorithm) : bool :=
  match a with Aes _ _ | Hmac _ _ | ChaCha20Poly1305 => true | _ => false end.

Inductive generated : Type := OneKey (k : CryptoKey) | KeyPair (private_key public_key : CryptoKey).

Definition subtle_generate_key (value : js) (extractable : option bool) (key_usages : usage_array) : crypto generated :=
  let% n := from_js Generate value key_usages in
  let% (private_data, other_data) := generate_key (n_algorithm n) in
  let% extractable := or_throw (Dom NotSupportedError) extractable in
  if is_symmetric (n_algorithm n) then
    Fine (OneKey (mkKey Secret extractable (n_algorithm n) (n_name n) (n_public_usages n) other_data))
  else
    Fine (KeyPair (mkKey Private extractable (n_algorithm n) (n_name n) (n_private_usages n) private_data)
                  (mkKey Public true (n_algorithm n) (n_name n) (n_public_usages n) other_data)).
End FromJs.

(** ** What is imported and made *)

(** The usages that an algorithm is for. *)
Definition usage_algorithm (a : KeyAlgorithm) (name : list Z) : KeyUsageAlgorithm :=
  match a with
  | Aes _ Kw => AesKw
  | Aes _ _ | ChaCha20Poly1305 => Symmetric
  | Hmac _ _ => HmacUsage
  | Ec _ Ecdh | X25519 => DeriveAsymmetric
  | Ec _ Ecdsa | Ed25519 | MlDsa _ => SignUsage
  | Rsa _ _ _ => if bool_decide (name = str "RSA-OAEP") then RsaOaepUsage else SignUsage
  | MlKem _ | HybridKem _ => MlKemUsage
  | Derive _ | HkdfImport | Pbkdf2Import => DeriveSymmetric
  end.

(** What a computation can return. *)
Definition gives {A} (P : A -> Prop) (m : crypto A) : Prop := forall a, m = Fine a -> P a.

Lemma gives_fine {A} (P : A -> Prop) a : P a -> gives P (Fine a).
Proof. intros H b [= <-]. exact H. Qed.

Lemma gives_throw {A} (P : A -> Prop) e : gives P (Throw e).
Proof. intros b. done. Qed.

Lemma gives_panic {A} (P : A -> Prop) : gives P Panic.
Proof. intros b. done. Qed.

Lemma gives_then {A B} (P : B -> Prop) (m : crypto A) (k : A -> crypto B) :
  (forall a, m = Fine a -> gives P (k a)) -> gives P (and_then m k).
Proof. intros H b Hb. destruct m as [a| |]; try discriminate. apply (H a eq_refl b Hb). Qed.

Create HintDb gives.
#[local] Hint Resolve gives_throw gives_panic : gives.

(** Through the steps of a computation. *)
Ltac gives_step :=
  match goal with
  | |- gives _ (and_then _ _) => apply gives_then; intros
  | |- gives _ (Fine _) => apply gives_fine
  | |- gives _ (Throw _) => apply gives_throw
  | |- gives _ unsupported => apply gives_throw
  | |- gives _ mismatch => apply gives_throw
  | |- gives _ Panic => apply gives_panic
  | |- gives _ (if ?b then _ else _) => destruct b eqn:?
  | |- gives _ (match ?x with _ => _ end) => destruct x eqn:?
  end.

Section Imported.
Context `{Codecs} `{Provider}.

Abbreviation of_pair := (fun key : imported => key.1 <> Secret).

Lemma kind_of_pair b : kind_of b <> Secret.
Proof. destruct b; done. Qed.

Lemma import_derive_kind f : gives (fun key => key.1 = Secret) (import_derive_key f).
Proof. unfold import_derive_key. repeat gives_step; done. Qed.

Lemma import_symmetric_kind f n h : gives (fun r => r.1.1 = Secret ∧ r.2 = Z.of_nat (length r.1.2) * 8) (import_symmetric_key f n h).
Proof. unfold import_symmetric_key. repeat gives_step; done. Qed.

Lemma import_chacha_kind f : gives (fun key => key.1 = Secret) (import_chacha20_poly1305 f).
Proof. unfold import_chacha20_poly1305. repeat gives_step; done. Qed.

Lemma import_okp_kind f oid n b : gives of_pair (import_okp_key f oid n b).
Proof. unfold import_okp_key. repeat gives_step; done. Qed.

Lemma import_ec_kind f c n : gives of_pair (import_ec_key f c n).
Proof. unfold import_ec_key. repeat gives_step; try done. apply kind_of_pair. Qed.

Lemma import_rsa_kind f n h : gives (fun r => r.1.1 <> Secret) (import_rsa_key f n h).
Proof.
  unfold import_rsa_key. apply gives_then. intros [k r] Hk. apply gives_fine. cbn [fst].
  revert k r Hk. set (m := match f with JwkData _ => _ | _ => _ end). intros k r Hk.
  assert (Hm : gives (fun x => x.1 <> Secret) m) by (subst m; repeat gives_step; try done; apply kind_of_pair). exact (Hm _ Hk).
Qed.

Lemma import_with_kind k bs g : gives (fun key => key.1 = k) (import_with k bs g).
Proof. unfold import_with. repeat gives_step; done. Qed.

Lemma import_akp_kind o b n f g h : gives of_pair (import_akp_jwk o b n f g h).
Proof. unfold import_akp_jwk. repeat gives_step; done. Qed.

(** The formats of post-quantum keys. *)
Ltac akp_formats :=
  repeat first
    [ apply import_akp_kind
    | match goal with
      | |- gives _ (import_with Private _ _) => intros ? Hw; apply import_with_kind in Hw; congruence
      | |- gives _ (import_with Public _ _) => intros ? Hw; apply import_with_kind in Hw; congruence
      end
    | gives_step ].

Lemma import_ml_dsa_kind f n v : gives of_pair (import_ml_dsa f n v).
Proof. unfold import_ml_dsa. akp_formats. Qed.

Lemma import_ml_kem_kind f n v : gives of_pair (import_ml_kem f n v).
Proof. unfold import_ml_kem. akp_formats. Qed.

Lemma import_hybrid_kem_kind f n v : gives of_pair (import_hybrid_kem f n v).
Proof. unfold import_hybrid_kem. akp_formats. Qed.

(** A key that is imported has a kind that suits its algorithm, and the data of
    secret keys has the length that the algorithm says (for AES modulo 2^16
    bits). *)
Definition shape (a : KeyAlgorithm) (data : list Z) : Prop :=
  match a with
  | Aes l _ => (l = 128 ∨ l = 192 ∨ l = 256) ∧ l = wrap 16 (8 * Z.of_nat (length data))
  | Hmac _ l => l = 8 * Z.of_nat (length data) ∧ 0 < l < 2 ^ 32
  | ChaCha20Poly1305 => length data = 32%nat
  | _ => True
  end.

Definition classifies (m : mode) (name : list Z) (us : usage_array) (c : classified) : Prop :=
  let '(a, r, key) := c in
  classify_and_check_usages (usage_algorithm a name) us (fst <$> key) = Fine r ∧
  match m with
  | Import _ => exists kind data, key = Some (kind, data) ∧ suits (usage_algorithm a name) kind = true ∧ shape a data
  | _ => key = None
  end.

Lemma with_import_classifies a u import m name us :
  u = usage_algorithm a name ->
  (forall f, gives (fun key => suits u key.1 = true ∧ shape a key.2) (import f)) ->
  gives (classifies m name us) (with_import a u import m us).
Proof.
  intros -> Hi. unfold with_import. apply gives_then. intros key Hk. apply gives_then. intros r Hr. apply gives_fine.
  split; [done|]. destruct m as [f| | |]; try congruence.
  destruct (import f) as [[kind data]| |] eqn:Hf; try discriminate. injection Hk as <-. destruct (Hi f _ Hf) as [Hs Hd]. eauto.
Qed.

Lemma suits_pair u (key : imported) : paired u = true -> key.1 <> Secret -> suits u key.1 = true.
Proof. intros Hu Hk. destruct key as [[] data]; done. Qed.

Lemma from_aes_classifies m obj name us : gives (classifies m name us) (from_aes m obj name us).
Proof.
  unfold from_aes. apply gives_then. intros [l key] Hl. apply gives_then. intros [] Hg. apply gives_then. intros a Ha.
  apply gives_then. intros r Hr. apply gives_fine. split.
  - rewrite <- Hr. f_equal. destruct a; done.
  - destruct m as [f| | |].
    + destruct (import_symmetric_key f name None) as [[[kind data] bits]| |] eqn:Hf; [|discriminate..].
      injection Hl as <- <-. apply import_symmetric_kind in Hf as [Hk Hb]. cbn in Hk, Hb. subst kind bits.
      exists Secret, data. split; [done|]. split; [destruct a; done|]. split; [|f_equal; lia].
      unfold guard in Hg. destruct ((_ || _) || _) eqn:E in Hg; [|discriminate]. lia.
    + injection Hl as <- <-. done.
    + destruct obj as [o| |]; cbn in Hl; [|discriminate..]. destruct (get_required_dictionary_value o _) as [v| |]; cbn in Hl; [|discriminate..].
      destruct (enforce_range_u16 v); cbn in Hl; [|discriminate..]. injection Hl as <- <-. done.
    + destruct obj as [o| |]; cbn in Hl; [|discriminate..]. destruct (get_required_dictionary_value o _) as [v| |]; cbn in Hl; [|discriminate..].
      destruct (enforce_range_u16 v); cbn in Hl; [|discriminate..]. injection Hl as <- <-. done.
Qed.

Lemma guard_true b e : guard b e = Fine tt -> b = true.
Proof. destruct b; done. Qed.

Lemma import_chacha_len f : gives (fun key => length key.2 = 32%nat) (import_chacha20_poly1305 f).
Proof.
  unfold import_chacha20_poly1305. apply gives_then. intros d _. apply gives_then. intros [] Hg. apply gives_fine.
  apply guard_true, Nat.eqb_eq in Hg. exact Hg.
Qed.

Lemma from_hmac_classifies m obj name us : gives (classifies m name us) (from_hmac m obj name us).
Proof.
  unfold from_hmac. apply gives_then. intros o _. apply gives_then. intros hash _. apply gives_then. intros _ _. apply gives_then. intros value _.
  apply gives_then. intros requested _. apply gives_then. intros _ _. apply gives_then. intros len _. apply gives_then. intros [len' key] Hk.
  apply gives_then. intros l Hl. apply gives_then. intros _ _. apply gives_then. intros r Hr. apply gives_fine. split; [done|].
  destruct m as [f| | |]; try congruence.
  destruct (import_symmetric_key f name (Some hash)) as [[[kind data] bits]| |] eqn:Hf; [|discriminate..]. cbn in Hk.
  apply import_symmetric_kind in Hf as [Hkind Hbits]. cbn in Hkind, Hbits.
  destruct (guard (bits <? _) _) as [[]| |] eqn:H1; [|discriminate..]. destruct (guard (negb _) _) as [[]| |] eqn:H2; [|discriminate..]. cbn in Hk.
  destruct (guard (match len with Some _ => _ | None => _ end) _) as [[]| |]; [|discriminate..]. injection Hk as <- <-.
  injection Hl as <-. apply guard_true in H1, H2. exists kind, data. subst kind. split; [done|]. split; [done|]. cbn [shape]. lia.
Qed.

Lemma from_rsa_classifies m obj name us : gives (classifies m name us) (from_rsa m obj name us).
Proof.
  unfold from_rsa. apply gives_then. intros o _. apply gives_then. intros hash _. apply gives_then. intros [[l e] key] Hk.
  apply gives_then. intros _ _. apply gives_then. intros r Hr. apply gives_then. intros _ _. apply gives_fine. split; [done|].
  destruct m as [f| | |].
  - destruct (import_rsa_key f name hash) as [[[kind data] [l' e']]| |] eqn:Hf; [|discriminate..]. injection Hk as <- <- <-.
    apply import_rsa_kind in Hf. exists kind, data. split; [done|]. split; [|done]. cbn in Hf |- *. destruct kind, (bool_decide _); done.
  - injection Hk as <- <- <-. done.
  - revert Hk. apply (gives_then (fun x => x.2 = None)). intros v _. repeat gives_step. done.
  - revert Hk. apply (gives_then (fun x => x.2 = None)). intros v _. repeat gives_step. done.
Qed.

Lemma from_name_classifies m obj name us : gives (classifies m name us) (from_name m obj name us).
Proof.
  assert (Hp : forall a u import, u = usage_algorithm a name -> paired u = true -> (forall d, shape a d) -> (forall f, gives of_pair (import f)) ->
    gives (classifies m name us) (with_import a u import m us)).
  { intros a u import Hu Hpu Hsh Hi. apply with_import_classifies; [done|]. intros f key Hf. split; [|done]. apply suits_pair; [done|]. apply (Hi f _ Hf). }
  unfold from_name.
  case_bool_decide; [apply Hp; [done..|intros; apply import_okp_kind]|]. case_bool_decide; [apply Hp; [done..|intros; apply import_okp_kind]|].
  case_bool_decide; [apply from_aes_classifies|].
  assert (Hec : forall a u, u = (match a with Ecdh => DeriveAsymmetric | Ecdsa => SignUsage end) -> gives (classifies m name us) (from_ec m obj a us u)).
  { intros a u ->. unfold from_ec. apply gives_then. intros o _. apply gives_then. intros cn _. apply gives_then. intros c _.
    apply Hp; [destruct a; done..|intros; apply import_ec_kind]. }
  do 2 (case_bool_decide; [apply Hec; done|]). case_bool_decide; [apply from_hmac_classifies|].
  case_bool_decide.
  { apply with_import_classifies; [done|]. intros f key Hf. pose proof (import_chacha_kind f _ Hf) as Hk. destruct key as [kind data]. cbn in Hk. subst kind.
    split; [done|]. apply (import_chacha_len f _ Hf). }
  case_bool_decide; [apply from_rsa_classifies|].
  assert (Hkdf : forall a, usage_algorithm a name = DeriveSymmetric -> (forall d, shape a d) -> gives (classifies m name us) (from_kdf a m us)).
  { intros a Ha Hsh. unfold from_kdf. destruct m; try apply gives_throw; (apply with_import_classifies; [done|]); intros f key Hf;
      (split; [rewrite (import_derive_kind f _ Hf)|]; done). }
  do 2 (case_bool_decide; [apply Hkdf; done|]).
  destruct (ml_dsa_from name); [apply Hp; [done..|intros; apply import_ml_dsa_kind]|].
  destruct (ml_kem_from name); [apply Hp; [done..|intros; apply import_ml_kem_kind]|].
  destruct (hybrid_kem_from name); [apply Hp; [done..|intros; apply import_hybrid_kem_kind]|apply gives_throw].
Qed.

Lemma from_js_classifies m v us : (match m with Import _ | Generate => True | _ => False end) ->
  gives (fun n => classifies m (n_name n) us (n_algorithm n, (n_private_usages n, n_public_usages n), n_imported n)) (from_js m v us).
Proof.
  intros Hm. unfold from_js. apply gives_then. intros [name obj] _. destruct m; try done; cbn [and_then];
    (apply gives_then; intros [[a [private public]] key] Hf; apply gives_fine; apply from_name_classifies in Hf; exact Hf).
Qed.

(** ** Keys with the usages they may have *)

Definition key_usage_algorithm (k : CryptoKey) : KeyUsageAlgorithm := usage_algorithm (algorithm k) (name k).

(** The usages are those of [reqs] that the algorithm has for a key of this
    kind, in canonical order. *)
Definition authorized (reqs : list KeyUsage) (k : CryptoKey) : Prop :=
  suits (key_usage_algorithm k) (kind k) = true ∧ usages k = granted reqs (allowed (key_usage_algorithm k) (kind k)).

(** A key that was imported with the usages [us]. *)
Definition imported_with (us : usage_array) (ext : bool) (k : CryptoKey) : Prop :=
  extractable k = ext ∧ (not_extractable (algorithm k) = true -> ext = false) ∧ shape (algorithm k) (handle k) ∧
  exists reqs, us = as_array reqs ∧ (forall u, u ∈ reqs -> u ∈ allowed (key_usage_algorithm k) (kind k)) ∧
               (kind k <> Public -> reqs <> []) ∧ authorized reqs k.

Lemma import_key_spec f v ext us : gives (imported_with us ext) (import_key f v ext us).
Proof.
  unfold import_key. apply gives_then. intros n Hn. apply from_js_classifies in Hn; [|done]. destruct Hn as [Hc (kd & data & Hi & Hs & Hsh)].
  rewrite Hi in Hc |- *. cbn [default fst fmap option_fmap option_map] in *. apply gives_then. intros [] Hg. apply guard_true in Hg.
  apply gives_then. intros _ _. apply gives_fine. apply (classify_kind _ kd) in Hc as (reqs & -> & Hr & Hne & Hrr); [|done].
  split; [done|]. split; [cbn; intros E; rewrite E, andb_true_r in Hg; apply negb_true_iff in Hg; done|]. split; [exact Hsh|].
  exists reqs. split; [done|]. split; [exact Hr|]. split; [exact Hne|]. split; [exact Hs|].
  unfold key_usage_algorithm. cbn [usages kind algorithm name]. set (g := granted _ _) in *. clearbody g.
  destruct kd; cbn in Hrr; injection Hrr as Hp Hq; assumption.
Qed.

(** A secret key, or a pair, that was made with the usages [us]. *)
Definition generated_with (us : usage_array) (ext : bool) (g : generated) : Prop :=
  exists reqs, us = as_array reqs ∧ reqs <> [] ∧
  match g with
  | OneKey k => kind k = Secret ∧ extractable k = ext ∧ authorized reqs k ∧ forall u, u ∈ reqs -> u ∈ allowed (key_usage_algorithm k) Secret
  | KeyPair sk pk =>
      kind sk = Private ∧ kind pk = Public ∧ extractable sk = ext ∧ extractable pk = true ∧
      algorithm pk = algorithm sk ∧ name pk = name sk ∧ authorized reqs sk ∧ authorized reqs pk ∧
      forall u, u ∈ reqs -> u ∈ allowed (key_usage_algorithm sk) Private ++ allowed (key_usage_algorithm sk) Public
  end.

Lemma unpaired_private a : paired a = false -> allowed a Private = [].
Proof. destruct a; done. Qed.

Lemma generate_symmetric a r name : generate_key a = Fine r -> is_symmetric a = negb (paired (usage_algorithm a name)).
Proof. destruct a as [? []|? []| | | | | | | | | | |]; try done. intros _. cbn. destruct (bool_decide _); done. Qed.

Lemma generate_key_spec v ext us : gives (fun g => exists e, ext = Some e ∧ generated_with us e g) (subtle_generate_key v ext us).
Proof.
  unfold subtle_generate_key. apply gives_then. intros n Hn. apply from_js_classifies in Hn; [|done]. destruct Hn as [Hc Hi].
  rewrite Hi in Hc. cbn [fmap option_fmap option_map] in Hc. apply classify_generate in Hc as (reqs & -> & Hr & Hne & [= Hp Hq]).
  apply gives_then. intros [sk ok] Hg. apply gives_then. intros e He. destruct ext as [e'|]; [|discriminate]. injection He as ->.
  pose proof (generate_symmetric _ _ (n_name n) Hg) as Hs. unfold other_kind in Hq. rewrite Hs.
  destruct (paired (usage_algorithm (n_algorithm n) (n_name n))) eqn:Hpair; cbn [negb]; apply gives_fine; exists e; (split; [done|]); exists reqs; (split; [done|]); (split; [done|]);
    unfold authorized, key_usage_algorithm, suits; cbn [usages kind algorithm name extractable]; rewrite Hpair, ?Hp, ?Hq; unfold other_kind in Hr; rewrite Hpair in Hr;
    repeat (let g := fresh in set (g := granted _ _); clearbody g); [done|].
  rewrite unpaired_private in Hr by done. done.
Qed.
End Imported.
