(* ===== verification/CryptoOps.v ===== *)
(** * Operations with keys (src/modules/llrt_crypto/src/subtle/)

    Signing, encryption, derivation, encapsulation, export and wrapping.  An
    operation that the code splits into a part at the time of the call and a
    part that runs later is one function here: the first part reads the
    algorithm and copies the data, the second one reads the key, which never
    changes. *)
From Stdlib Require Import ZArith Lia SpecFloat.
From stdpp Require Import base list numbers strings sets.
From S2P Require Import Prelude F64 Utf8 Js RustStr Encoding JsonStringify CryptoKeys CryptoImport.
Local Open Scope Z_scope.

(** ** Checks of a key *)

Definition check_validity (k : CryptoKey) (usage : string) (e : exn) : crypto unit := guard (bool_decide (str usage ∈ usages k)) e.

Definition check_kind (k : CryptoKey) (expected : KeyKind) : crypto unit := guard (bool_decide (kind k = expected)) (Dom InvalidAccessError).

Definition invalid_access {A} : crypto A := Throw (Dom InvalidAccessError).

(** [data.as_bytes_opt().unwrap_or_default()]. *)
Definition bytes_or_empty (data : result js_error (list Z)) : list Z := match data with Ok bs => bs | Err _ => [] end.

(** A structured clone of a key. *)
Definition structured_clone (k : CryptoKey) : CryptoKey :=
  mkKey (kind k) (extractable k) (algorithm k) (name k) (usages k) (handle k).

(** ** Signatures *)

Inductive SigningAlgorithm : Type :=
| SEcdsa (hash : HashAlgorithm) | SEd25519 | SRsaPss (salt_length : Z) | SRsassaPkcs1v15 | SHmac
| SMlDsa (v : MlDsaVariant) (context : list Z).

Definition signing_from_js (value : js) : crypto SigningAlgorithm :=
  let% (name, obj) := to_name_and_maybe_object value in
  let name := normalize_algorithm_name name in
  if bool_decide (name = str "Ed25519") then Fine SEd25519
  else if bool_decide (name = str "HMAC") then Fine SHmac
  else if bool_decide (name = str "RSASSA-PKCS1-v1_5") then Fine SRsassaPkcs1v15
  else if bool_decide (name = str "ECDSA") then
    let% o := obj in
    let% hash := extract_sha_hash o in
    Fine (SEcdsa hash)
  else if bool_decide (name = str "RSA-PSS") then
    let% o := obj in
    let% value := get_required_dictionary_value o (str "saltLength") in
    let% salt_length := enforce_range_u32 value in
    Fine (SRsaPss salt_length)
  else
    let% v := or_throw (Dom NotSupportedError) (ml_dsa_from name) in
    let% context :=
      match obj with
      | Fine o =>
          let% c := get_optional js_bytes o (str "context") in
          Fine (default [] c)
      | _ => Fine []
      end in
    let% _ := guard (length context <=? 255)%nat (Dom OperationError) in
    Fine (SMlDsa v context).

Definition signing_name (a : SigningAlgorithm) : list Z :=
  match a with
  | SEcdsa _ => str "ECDSA"
  | SEd25519 => str "Ed25519"
  | SRsaPss _ => str "RSA-PSS"
  | SRsassaPkcs1v15 => str "RSASSA-PKCS1-v1_5"
  | SHmac => str "HMAC"
  | SMlDsa v _ => ml_dsa_str v
  end.

(** [u32::saturating_sub], [div_ceil] and [checked_sub]. *)
Definition rsa_pss_salt_length_fits (modulus_length : Z) (hash : HashAlgorithm) (salt_length : Z) : bool :=
  let encoded_message_length := (Z.max 0 (modulus_length - 1) + 7) / 8 in
  (digest_len hash + 2 <=? encoded_message_length) && (salt_length <=? encoded_message_length - (digest_len hash + 2)).

Section Operations.
Context `{Codecs} `{Provider}.

(** The hash of an RSA key, and the digest; MD5 is no hash for RSA. *)
Definition rsa_hash_digest (k : CryptoKey) (data : list Z) : crypto (HashAlgorithm * list Z * Z) :=
  match algorithm k with
  | Rsa modulus_length _ hash => if bool_decide (hash = Md5) then Throw AnError else Fine (hash, digest hash data, modulus_length)
  | _ => mismatch
  end.

Definition sign (a : SigningAlgorithm) (k : CryptoKey) (data : list Z) : crypto (list Z) :=
  match a with
  | SEcdsa hash =>
      match algorithm k with
      | Ec curve _ => or_throw_dom (ecdsa_sign curve (handle k) (digest hash data))
      | _ => invalid_access
      end
  | SEd25519 => match algorithm k with Ed25519 => or_throw_dom (ed25519_sign (handle k) data) | _ => invalid_access end
  | SHmac => match algorithm k with Hmac hash _ => Fine (hmac hash (handle k) data) | _ => invalid_access end
  | SMlDsa v context =>
      match algorithm k with
      | MlDsa v' => if bool_decide (v' = v) then or_throw_dom (ml_dsa_sign v (handle k) data context) else invalid_access
      | _ => invalid_access
      end
  | SRsaPss salt_length =>
      let% (hash, d, modulus_length) := rsa_hash_digest k data in
      let% _ := guard (rsa_pss_salt_length_fits modulus_length hash salt_length) (Dom OperationError) in
      or_throw_dom (rsa_pss_sign (handle k) d salt_length hash)
  | SRsassaPkcs1v15 =>
      let% (hash, d, _) := rsa_hash_digest k data in
      or_throw_dom (rsa_pkcs1v15_sign (handle k) d hash)
  end.

Definition into_verification (r : result CryptoError bool) : crypto bool :=
  match r with Err InvalidSignature => Fine false | r => or_throw_dom r end.

Definition verify (a : SigningAlgorithm) (k : CryptoKey) (signature data : list Z) : crypto bool :=
  match a with
  | SEcdsa hash =>
      match algorithm k with
      | Ec curve _ => into_verification (ecdsa_verify curve (handle k) signature (digest hash data))
      | _ => invalid_access
      end
  | SEd25519 => match algorithm k with Ed25519 => into_verification (ed25519_verify (handle k) signature data) | _ => invalid_access end
  | SHmac => match algorithm k with Hmac hash _ => Fine (bool_decide (hmac hash (handle k) data = signature)) | _ => invalid_access end
  | SMlDsa v context =>
      match algorithm k with
      | MlDsa v' => if bool_decide (v' = v) then into_verification (ml_dsa_verify v (handle k) signature data context) else invalid_access
      | _ => invalid_access
      end
  | SRsaPss salt_length =>
      let% (hash, d, modulus_length) := rsa_hash_digest k data in
      if negb (rsa_pss_salt_length_fits modulus_length hash salt_length) then Fine false
      else into_verification (rsa_pss_verify (handle k) signature d salt_length hash)
  | SRsassaPkcs1v15 =>
      let% (hash, d, _) := rsa_hash_digest k data in
      into_verification (rsa_pkcs1v15_verify (handle k) signature d hash)
  end.

(** The checks that signing and verifying share. *)
Definition check_signing (a : SigningAlgorithm) (k : CryptoKey) (usage : string) (pair_kind : KeyKind) : crypto unit :=
  let% _ := guard (bool_decide (name k = signing_name a)) (Dom InvalidAccessError) in
  let% _ := check_validity k usage (Dom InvalidAccessError) in
  check_kind k (match a with SHmac => Secret | _ => pair_kind end).

Definition subtle_sign (value : js) (k : CryptoKey) (data : result js_error (list Z)) : crypto (list Z) :=
  let% a := signing_from_js value in
  let% _ := check_signing a k "sign" Private in
  sign a k (bytes_or_empty data).

Definition subtle_verify (value : js) (k : CryptoKey) (signature data : result js_error (list Z)) : crypto bool :=
  let% a := signing_from_js value in
  let% _ := check_signing a k "verify" Public in
  verify a k (bytes_or_empty signature) (bytes_or_empty data).
End Operations.

(** ** Encryption *)

Inductive EncryptionAlgorithm : Type :=
| EAesCbc (iv : list Z)
| EAesCtr (counter : list Z) (length : Z)
| EAesGcm (iv : list Z) (tag_length : Z) (additional_data : option (list Z))
| EChaCha20Poly1305 (iv : list Z) (tag_length : Z) (additional_data : option (list Z))
| ERsaOaep (label : option (list Z))
| EAesKw.

(** The tag's length, 128 bits when it is not given. *)
Definition tag_length_of (o : dict) : crypto Z :=
  let% value := get_optional_dictionary_value o (str "tagLength") in
  match value with Some value => enforce_range_u8 value | None => Fine 128 end.

Definition encryption_from_js (value : js) : crypto EncryptionAlgorithm :=
  let% (name, obj) := to_name_and_maybe_object value in
  let name := normalize_algorithm_name name in
  if bool_decide (name = str "AES-CBC") then
    let% o := obj in
    let% iv := get_required js_bytes o (str "iv") in
    let% _ := guard (length iv =? 16)%nat (Dom OperationError) in
    Fine (EAesCbc iv)
  else if bool_decide (name = str "AES-CTR") then
    let% o := obj in
    let% counter := get_required js_bytes o (str "counter") in
    let% value := get_required_dictionary_value o (str "length") in
    let% length := enforce_range_u8 value in
    let% _ := guard ((length =? 32) || (length =? 64) || (length =? 128)) (Dom OperationError) in
    Fine (EAesCtr counter length)
  else if bool_decide (name = str "AES-GCM") then
    let% o := obj in
    let% iv := get_required js_bytes o (str "iv") in
    let% additional_data := get_optional js_bytes o (str "additionalData") in
    let% tag_length := tag_length_of o in
    let% _ := guard (bool_decide (tag_length ∈ [32; 64; 96; 104; 112; 120; 128])) (Dom OperationError) in
    Fine (EAesGcm iv tag_length additional_data)
  else if bool_decide (name = str "ChaCha20-Poly1305") then
    let% o := obj in
    let% iv := get_required js_bytes o (str "iv") in
    let% additional_data := get_optional js_bytes o (str "additionalData") in
    let% tag_length := tag_length_of o in
    Fine (EChaCha20Poly1305 iv tag_length additional_data)
  else if bool_decide (name = str "RSA-OAEP") then
    match obj with
    | Fine o =>
        let% value := engine (o (str "label")) in
        if js_undefined value then Fine (ERsaOaep None)
        else if js_null value then Throw ATypeError
        else
          let% label := engine (js_bytes value) in
          Fine (ERsaOaep (Some label))
    | _ => Fine (ERsaOaep None)
    end
  else if bool_decide (name = str "AES-KW") then Fine EAesKw
  else unsupported.

(** The padding byte of a wrapping. *)
Inductive EncryptionMode : Type := Encryption | Wrapping (padding : Z).
Inductive EncryptionOperation : Type := DoEncrypt | DoDecrypt.

(** [*length != handle.len() as u16 * 8], in 16 bits. *)
Definition validate_aes_length (k : CryptoKey) (expected : AesAlgorithm) : crypto unit :=
  match algorithm k with
  | Aes l a =>
      if bool_decide (a = expected) then
        guard (l =? wrap 16 (wrap 16 (Z.of_nat (length (handle k))) * 8)) (Dom OperationError)
      else invalid_access
  | _ => mismatch
  end.

(** Padding to a multiple of eight bytes, and its removal. *)
Definition pad_to_eight (padding : Z) (data : list Z) : list Z :=
  if (length data mod 8 =? 0)%nat then data else data ++ replicate (8 - length data mod 8)%nat padding.

Definition remove_padding (padding : Z) (data : list Z) : list Z :=
  if negb (padding =? 0) then reverse (drop_while (fun b => b =? padding) (reverse data)) else data.

Section Encryption.
Context `{Codecs} `{Provider}.

Definition encrypt_decrypt (a : EncryptionAlgorithm) (k : CryptoKey) (data : list Z) (m : EncryptionMode) (op : EncryptionOperation) :
    crypto (list Z) :=
  match a with
  | EAesCbc iv =>
      let% _ := validate_aes_length k Cbc in
      or_throw_dom (match op with
                    | DoEncrypt => aes_encrypt ModeCbc (handle k) iv data None
                    | DoDecrypt => aes_decrypt ModeCbc (handle k) iv data None
                    end)
  | EAesCtr counter l =>
      let% _ := validate_aes_length k Ctr in
      or_throw_dom (match op with
                    | DoEncrypt => aes_encrypt (ModeCtr l) (handle k) counter data None
                    | DoDecrypt => aes_decrypt (ModeCtr l) (handle k) counter data None
                    end)
  | EAesGcm iv tag_length additional_data =>
      let% _ := validate_aes_length k Gcm in
      let% _ := guard (length iv =? 12)%nat (Dom OperationError) in
      match op with
      | DoEncrypt => or_throw_dom (aes_encrypt (ModeGcm tag_length) (handle k) iv data additional_data)
      | DoDecrypt =>
          let% _ := guard (tag_length / 8 <=? Z.of_nat (length data)) (Dom OperationError) in
          or_throw_dom (aes_decrypt (ModeGcm tag_length) (handle k) iv data additional_data)
      end
  | EChaCha20Poly1305 iv tag_length additional_data =>
      match algorithm k with
      | ChaCha20Poly1305 =>
          let% _ := guard ((length iv =? 12)%nat && (tag_length =? 128)) (Dom OperationError) in
          or_throw_dom (match op with
                        | DoEncrypt => chacha20_poly1305_encrypt (handle k) iv data additional_data
                        | DoDecrypt => chacha20_poly1305_decrypt (handle k) iv data additional_data
                        end)
      | _ => mismatch
      end
  | EAesKw =>
      match m with
      | Encryption => Throw AnError
      | Wrapping padding =>
          match op with
          | DoEncrypt => or_throw_dom (aes_kw_wrap (handle k) (pad_to_eight padding data))
          | DoDecrypt =>
              let% unwrapped := match aes_kw_unwrap (handle k) data with Ok d => Fine d | Err _ => Throw AnError end in
              Fine (remove_padding padding unwrapped)
          end
      end
  | ERsaOaep label =>
      match algorithm k with
      | Rsa _ _ hash =>
          or_throw_dom (match op with
                        | DoEncrypt => rsa_oaep_encrypt (handle k) data hash label
                        | DoDecrypt => rsa_oaep_decrypt (handle k) data hash label
                        end)
      | _ => mismatch
      end
  end.

Definition subtle_encrypt (value : js) (k : CryptoKey) (data : result js_error (list Z)) : crypto (list Z) :=
  let% a := encryption_from_js value in
  let% _ := check_validity k "encrypt" (Dom InvalidAccessError) in
  encrypt_decrypt a k (bytes_or_empty data) Encryption DoEncrypt.

Definition subtle_decrypt (value : js) (k : CryptoKey) (data : result js_error (list Z)) : crypto (list Z) :=
  let% a := encryption_from_js value in
  let% _ := check_validity k "decrypt" (Dom InvalidAccessError) in
  encrypt_decrypt a k (bytes_or_empty data) Encryption DoDecrypt.
End Encryption.

(** ** Derivation *)

Inductive DeriveAlgorithm : Type :=
| DX25519 (public_key : list Z)
| DEcdh (curve : EllipticCurve) (a : EcAlgorithm) (public_key : list Z)
| DDerive (d : KeyDerivation).

Definition derive_from_js (value : js) : crypto DeriveAlgorithm :=
  let% o := or_throw ATypeError (js_object value) in
  let% name := get_required js_string o (str "name") in
  let name := normalize_algorithm_name name in
  if bool_decide (name = str "X25519") then
    let% pk := get_required js_key o (str "public") in
    let% _ := check_kind pk Public in
    match algorithm pk with X25519 => Fine (DX25519 (handle pk)) | _ => invalid_access end
  else if bool_decide (name = str "ECDH") then
    let% pk := get_required js_key o (str "public") in
    let% _ := check_kind pk Public in
    match algorithm pk with Ec curve a => Fine (DEcdh curve a (handle pk)) | _ => mismatch end
  else if bool_decide (name = str "HKDF") then
    let% d := for_hkdf_object o in
    Fine (DDerive d)
  else if bool_decide (name = str "PBKDF2") then
    let% d := for_pbkf2_object o in
    Fine (DDerive d)
  else unsupported.

(** A length in bits, if one is given. *)
Abbreviation bits_length := (option Z).

Definition maximum_ecdh_length (curve : EllipticCurve) : Z := match curve with P256 => 256 | P384 => 384 | P521 => 528 end.

Definition validate_ecdh_length (curve : EllipticCurve) (l : bits_length) : crypto Z :=
  match l with
  | None => Fine (maximum_ecdh_length curve)
  | Some l => if l <=? maximum_ecdh_length curve then Fine l else Throw (Dom OperationError)
  end.

(** A length that is a number of bytes. *)
Definition whole_bytes (l : bits_length) : crypto Z :=
  match l with Some l => if l mod 8 =? 0 then Fine l else Throw (Dom OperationError) | None => Throw (Dom OperationError) end.

Definition validate_hkdf_length (hash : HashAlgorithm) (l : bits_length) : crypto Z :=
  let% l := whole_bytes l in
  let% _ := guard (l <=? digest_len hash * 8 * 255) (Dom OperationError) in
  Fine (l / 8).

(** [0xff << (8 - remainder)], in eight bits. *)
Definition last_mask (remainder : Z) : Z := Z.land (Z.shiftl 255 (8 - remainder)) 255.

Definition truncate_derived_bits (bytes : list Z) (l : Z) : crypto (list Z) :=
  if wrap 32 (Z.of_nat (length bytes) * 8) <? l then Throw (Dom OperationError)
  else
    let bytes := take (Z.to_nat ((l + 7) / 8)) bytes in
    let remainder := l mod 8 in
    if negb (remainder =? 0) then
      match last bytes with
      | Some b => Fine (<[(length bytes - 1)%nat := Z.land b (last_mask remainder)]> bytes)
      | None => Fine bytes
      end
    else Fine bytes.

Definition parse_derive_bits_length (value : option js) : crypto bits_length :=
  match value with
  | None => Fine None
  | Some value =>
      if js_null value || js_undefined value then Fine None
      else
        let% l := enforce_range_u32 value in
        Fine (Some l)
  end.

Section Derivation.
Context `{Codecs} `{Provider}.

Definition derive_bits (a : DeriveAlgorithm) (k : CryptoKey) (l : bits_length) : crypto (list Z) :=
  match a with
  | DEcdh curve ec public_key =>
      if negb (bool_decide (ec = Ecdh)) then invalid_access
      else
        match algorithm k with
        | Ec base_curve base_ec =>
            if bool_decide (curve = base_curve) && bool_decide (kind k = Private) && bool_decide (base_ec = Ecdh) then
              let% l := validate_ecdh_length curve l in
              let% bytes := or_throw_dom (ecdh_derive_bits curve (handle k) public_key) in
              truncate_derived_bits bytes l
            else invalid_access
        | _ => mismatch
        end
  | DX25519 public_key =>
      match algorithm k with
      | X25519 =>
          let% l := match l with None => Fine 256 | Some l => if l <=? 256 then Fine l else Throw (Dom OperationError) end in
          let% bytes := or_throw_dom (x25519_derive_bits (handle k) public_key) in
          truncate_derived_bits bytes l
      | _ => mismatch
      end
  | DDerive (Hkdf hash salt info) =>
      match algorithm k with
      | HkdfImport =>
          let% out_length := validate_hkdf_length hash l in
          match hkdf_derive_key (handle k) salt info out_length hash with Ok bs => Fine bs | Err _ => Throw AnError end
      | _ => invalid_access
      end
  | DDerive (Pbkdf2 hash salt iterations) =>
      match algorithm k with
      | Pbkdf2Import =>
          let% _ := guard (negb (iterations =? 0)) (Dom OperationError) in
          let% l := whole_bytes l in
          match pbkdf2_derive_key (handle k) salt iterations (l / 8) hash with Ok bs => Fine bs | Err _ => Throw AnError end
      | _ => invalid_access
      end
  end.

Definition subtle_derive_bits (value : js) (k : CryptoKey) (l : option js) : crypto (list Z) :=
  let% a := derive_from_js value in
  let% _ := check_validity k "deriveBits" (Dom InvalidAccessError) in
  let% l := parse_derive_bits_length l in
  derive_bits a k l.

(** How many bits a key needs. *)
Definition needed_length (a : KeyAlgorithm) : crypto bits_length :=
  match a with
  | Aes l _ => Fine (Some l)
  | ChaCha20Poly1305 => Fine (Some 256)
  | Hmac _ l => Fine (Some l)
  | HkdfImport | Pbkdf2Import => Fine None
  | _ => unsupported
  end.

Definition subtle_derive_key (value : js) (base_key : CryptoKey) (derived : js) (ext : bool) (key_usages : usage_array) : crypto CryptoKey :=
  let% a := derive_from_js value in
  let% n := from_js DeriveMode derived key_usages in
  let% l := needed_length (n_algorithm n) in
  let% _ := check_validity base_key "deriveKey" (Dom InvalidAccessError) in
  let% bytes := derive_bits a base_key l in
  import_key (ByteData RawSecret (Ok bytes)) derived ext key_usages.

(** ** Encapsulation *)

Inductive EncapsulationAlgorithm : Type := KMlKem (v : MlKemVariant) | KHybrid (v : HybridKemVariant).

Definition encapsulation_name (a : EncapsulationAlgorithm) : list Z :=
  match a with KMlKem v => ml_kem_str v | KHybrid v => hybrid_kem_str v end.

Definition normalize_encapsulation_algorithm (value : js) : crypto EncapsulationAlgorithm :=
  let% (name, _) := to_name_and_maybe_object value in
  let name := normalize_algorithm_name name in
  match ml_kem_from name, hybrid_kem_from name with
  | Some v, _ => Fine (KMlKem v)
  | None, Some v => Fine (KHybrid v)
  | None, None => unsupported
  end.

(** The ciphertext and the shared key. *)
Definition encapsulate (a : EncapsulationAlgorithm) (public_key : list Z) : reply (list Z * list Z) :=
  match a with KMlKem v => ml_kem_encapsulate v public_key | KHybrid v => hybrid_kem_encapsulate v public_key end.

Definition decapsulate (a : EncapsulationAlgorithm) (private_key ciphertext : list Z) : reply (list Z) :=
  match a with KMlKem v => ml_kem_decapsulate v private_key ciphertext | KHybrid v => hybrid_kem_decapsulate v private_key ciphertext end.

Definition check_encapsulation_key (k : CryptoKey) (a : EncapsulationAlgorithm) (usage : string) (expected : KeyKind) : crypto unit :=
  let matches_algorithm :=
    match a, algorithm k with
    | KMlKem v, MlKem v' => bool_decide (v = v')
    | KHybrid v, HybridKem v' => bool_decide (v = v')
    | _, _ => false
    end in
  let% _ := guard (bool_decide (name k = encapsulation_name a) && matches_algorithm) (Dom InvalidAccessError) in
  let% _ := check_validity k usage (Dom InvalidAccessError) in
  check_kind k expected.

(** The shared key and the ciphertext. *)
Definition subtle_encapsulate_bits (value : js) (k : CryptoKey) : crypto (list Z * list Z) :=
  let% a := normalize_encapsulation_algorithm value in
  let% _ := check_encapsulation_key k a "encapsulateBits" Public in
  let% (ciphertext, shared_key) := or_throw_dom (encapsulate a (handle k)) in
  Fine (shared_key, ciphertext).

Definition subtle_decapsulate_bits (value : js) (k : CryptoKey) (ciphertext : result js_error (list Z)) : crypto (list Z) :=
  let% a := normalize_encapsulation_algorithm value in
  let% _ := check_encapsulation_key k a "decapsulateBits" Private in
  or_throw_dom (decapsulate a (handle k) (bytes_or_empty ciphertext)).

Definition subtle_encapsulate_key (value : js) (k : CryptoKey) (shared : js) (ext : bool) (key_usages : usage_array) : crypto (CryptoKey * list Z) :=
  let% a := normalize_encapsulation_algorithm value in
  let% _ := check_encapsulation_key k a "encapsulateKey" Public in
  let% (ciphertext, shared_key) := or_throw_dom (encapsulate a (handle k)) in
  let% key := import_key (ByteData RawSecret (Ok shared_key)) shared ext key_usages in
  Fine (key, ciphertext).

Definition subtle_decapsulate_key (value : js) (k : CryptoKey) (ciphertext : result js_error (list Z)) (shared : js) (ext : bool)
    (key_usages : usage_array) : crypto CryptoKey :=
  let% a := normalize_encapsulation_algorithm value in
  let% _ := check_encapsulation_key k a "decapsulateKey" Private in
  let% shared_key := or_throw_dom (decapsulate a (handle k) (bytes_or_empty ciphertext)) in
  import_key (ByteData RawSecret (Ok shared_key)) shared ext key_usages.
End Derivation.
