(* ===== verification/CryptoExport.v ===== *)
(** * Export and wrapping of keys (src/modules/llrt_crypto/src/subtle/export_key.rs,
      wrapping.rs and get_public_key.rs)

    An exported JSON web key is the list of the properties that are set. *)
From Stdlib Require Import ZArith Lia SpecFloat.
From stdpp Require Import base list numbers strings sets.
From S2P Require Import Prelude F64 Utf8 Js RustStr Encoding JsonStringify CryptoKeys CryptoImport CryptoOps.
Local Open Scope Z_scope.

(** ** JSON web keys *)

Inductive field : Type := FString (s : list Z) | FBool (b : bool) | FStrings (l : list (list Z)).

(** The properties of a new object, in the order in which they are set. *)
Abbreviation fields := (list (list Z * field)).

Definition set (k : string) (s : list Z) : fields := [(str k, FString s)].

(** The object for [JSON.stringify]: address 0, and its array address 1. *)
Definition jwk_heap (fs : fields) (a : nat) : node :=
  match a with
  | O =>
      {| is_array := false; own_keys := fs.*1; JsonStringify.object_keys := [];
         get_prop := fun k =>
           Ok (match list_find (fun p => p.1 = k) fs with
               | Some (_, (_, FString s)) => TString s
               | Some (_, (_, FBool b)) => TBool b
               | Some (_, (_, FStrings _)) => TObject 1
               | None => TUndefined
               end);
         elems := []; has_to_json := Ok false; to_json := Ok TUndefined |}
  | _ =>
      {| is_array := true; own_keys := []; JsonStringify.object_keys := []; get_prop := fun _ => Ok TUndefined;
         elems := concat ((fun p => match p.2 with FStrings l => (fun s => Ok (TString s)) <$> l | _ => [] end) <$> fs);
         has_to_json := Ok false; to_json := Ok TUndefined |}
  end.

Definition supports_der_export (name : list Z) : bool :=
  bool_decide (is_Some (ml_dsa_from name)) || bool_decide (is_Some (ml_kem_from name)) ||
  bool_decide (name ∈ str <$> ["ECDH"; "ECDSA"; "Ed25519"; "RSA-OAEP"; "RSA-PSS"; "RSASSA-PKCS1-v1_5"; "X25519"]%string).

Inductive ExportOutput : Type := Bytes (bs : list Z) | Object (fs : fields).

Definition is_post_quantum (a : KeyAlgorithm) : bool := match a with MlDsa _ | MlKem _ | HybridKem _ => true | _ => false end.

Section Exporting.
Context `{Codecs} `{Provider}.
Abbreviation b64 := bytes_to_b64_url_safe_string.

Definition export_raw (k : CryptoKey) : crypto (list Z) :=
  match algorithm k with
  | Rsa _ _ _ => unsupported
  | a =>
      if bool_decide (kind k = Private) then invalid_access
      else
        match a with
        | Aes _ _ | Hmac _ _ | ChaCha20Poly1305 => Fine (handle k)
        | Ec curve _ => or_throw_dom (export_ec_public_key_sec1 (handle k) curve false)
        | Ed25519 | X25519 => or_throw_dom (export_okp_public_key_raw (handle k) false)
        | _ => unsupported
        end
  end.

Definition export_pkcs8 (k : CryptoKey) : crypto (list Z) :=
  if negb (supports_der_export (name k)) then unsupported
  else if negb (bool_decide (kind k = Private)) then invalid_access
  else
    match algorithm k with
    | Ec curve _ => or_throw_dom (export_ec_private_key_pkcs8 (handle k) curve)
    | Ed25519 => or_throw_dom (export_okp_private_key_pkcs8 (handle k) ID_ED_25519)
    | MlDsa v => or_throw_dom (export_ml_dsa_private_key_pkcs8 v (handle k))
    | MlKem v => or_throw_dom (export_ml_kem_private_key_pkcs8 v (handle k))
    | X25519 => or_throw_dom (export_okp_private_key_pkcs8 (handle k) ID_X_25519)
    | Rsa _ _ _ => or_throw_dom (export_rsa_private_key_pkcs8 (handle k))
    | _ => unsupported
    end.

Definition export_spki (k : CryptoKey) : crypto (list Z) :=
  if negb (supports_der_export (name k)) then unsupported
  else if negb (bool_decide (kind k = Public)) then invalid_access
  else
    match algorithm k with
    | Ec curve _ => or_throw_dom (export_ec_public_key_spki (handle k) curve)
    | Ed25519 => or_throw_dom (export_okp_public_key_spki (handle k) ID_ED_25519)
    | X25519 => or_throw_dom (export_okp_public_key_spki (handle k) ID_X_25519)
    | MlDsa v => or_throw_dom (export_ml_dsa_public_key_spki v (handle k))
    | MlKem v => or_throw_dom (export_ml_kem_public_key_spki v (handle k))
    | Rsa _ _ _ => or_throw_dom (export_rsa_public_key_spki (handle k))
    | _ => unsupported
    end.

(** A post-quantum key, with its name and the public key of a private one. *)
Definition export_akp (k : CryptoKey) (variant : list Z) (public_of : list Z -> reply (list Z)) : crypto fields :=
  let is_private := bool_decide (kind k = Private) in
  let% public_key := if is_private then or_throw_dom (public_of (handle k)) else Fine (handle k) in
  Fine (set "kty" (str "AKP") ++ set "alg" variant ++ set "pub" (b64 public_key) ++
        if is_private then set "priv" (b64 (handle k)) else []).

Definition set_optional (k : string) (s : option (list Z)) : fields := from_option (fun s => set k (b64 s)) [] s.

(** The private parts of an RSA key, in their order. *)
Definition rsa_private_fields (parts : list (list Z)) : fields :=
  zip_with (fun k s => (str k, FString (b64 s))) ["d"; "p"; "q"; "dp"; "dq"; "qi"]%string parts.

Definition export_jwk_algorithm (k : CryptoKey) : crypto fields :=
  let is_private := bool_decide (kind k = Private) in
  match algorithm k with
  | Aes l _ =>
      let% prefix := if l =? 128 then Fine (str "A128") else if l =? 192 then Fine (str "A192") else if l =? 256 then Fine (str "A256") else Panic in
      let% suffix := slice_from (name k) 4 in
      Fine (set "kty" (str "oct") ++ set "k" (b64 (handle k)) ++ set "alg" (prefix ++ suffix))
  | Hmac hash _ =>
      let% suffix := slice_from (hash_str hash) 4 in
      Fine (set "kty" (str "oct") ++ set "alg" (str "HS" ++ suffix) ++ set "k" (b64 (handle k)))
  | ChaCha20Poly1305 => Fine (set "kty" (str "oct") ++ set "alg" (str "C20P") ++ set "k" (b64 (handle k)))
  | MlDsa v => export_akp k (ml_dsa_str v) (ml_dsa_public_key v)
  | MlKem v => export_akp k (ml_kem_str v) (ml_kem_public_key v)
  | HybridKem v => export_akp k (hybrid_kem_str v) (hybrid_kem_public_key v)
  | Ec curve _ =>
      let% jwk := or_throw_dom (export_ec_jwk (handle k) curve is_private) in
      Fine (set "kty" (str "EC") ++ set "crv" (curve_str curve) ++ set "x" (b64 (ec_x jwk)) ++ set "y" (b64 (ec_y jwk)) ++ set_optional "d" (ec_d jwk))
  | Ed25519 =>
      let% jwk := or_throw_dom (export_okp_jwk (handle k) is_private true) in
      Fine (set "kty" (str "OKP") ++ set "crv" (str "Ed25519") ++ set "x" (b64 (okp_x jwk)) ++ set "alg" (str "Ed25519") ++ set_optional "d" (okp_d jwk))
  | X25519 =>
      let% jwk := or_throw_dom (export_okp_jwk (handle k) is_private false) in
      Fine (set "kty" (str "OKP") ++ set "crv" (str "X25519") ++ set "x" (b64 (okp_x jwk)) ++ set_optional "d" (okp_d jwk))
  | Rsa _ _ hash =>
      let% jwk := or_throw_dom (export_rsa_jwk (handle k) is_private) in
      let% prefix :=
        if bool_decide (name k = str "RSASSA-PKCS1-v1_5") then Fine (str "RS")
        else if bool_decide (name k = str "RSA-PSS") then Fine (str "PS")
        else if bool_decide (name k = str "RSA-OAEP") then Fine (str "RSA-OAEP-")
        else Panic in
      Fine (set "kty" (str "RSA") ++ set "n" (b64 (rsa_n jwk)) ++ set "e" (b64 (rsa_e jwk)) ++ set "alg" (prefix ++ as_numeric_str hash) ++
            from_option rsa_private_fields [] (rsa_private jwk))
  | _ => unsupported
  end.

Definition export_jwk (k : CryptoKey) : crypto fields :=
  let% fs := export_jwk_algorithm k in
  Fine ([(str "key_ops", FStrings (usages k)); (str "ext", FBool true)] ++ fs).

Definition export_key (format : KeyFormat) (k : CryptoKey) : crypto ExportOutput :=
  if not_extractable (algorithm k) then unsupported
  else if negb (extractable k) then invalid_access
  else
    match format with
    | Jwk =>
        let% fs := export_jwk k in
        Fine (Object fs)
    | f =>
        let% bytes :=
          match f with
          | RawPublic =>
              if is_post_quantum (algorithm k) then
                if bool_decide (kind k = Public) then Fine (handle k) else invalid_access
              else if bool_decide (kind k = Secret) then unsupported
              else export_raw k
          | RawSeed =>
              if is_post_quantum (algorithm k) then
                if bool_decide (kind k = Private) then Fine (handle k) else invalid_access
              else unsupported
          | Raw => if is_post_quantum (algorithm k) then unsupported else export_raw k
          | RawSecret => if bool_decide (kind k = Secret) then export_raw k else unsupported
          | Spki => export_spki k
          | Pkcs8 => export_pkcs8 k
          | _ => unsupported
          end in
        Fine (Bytes bytes)
    end.

Definition subtle_export_key (format : js) (k : CryptoKey) : crypto ExportOutput :=
  let% format := format_of format in
  export_key format k.

(** ** Wrapping *)

(** The engine's [JSON.parse], and what [JSON.stringify] needs. *)
Context (itoa ryu : Z -> list Z) (json_parse : list Z -> result js_error js) (fuel : nat).

Definition done_json (o : outcome (option (list Z))) : crypto (list Z) :=
  match o with Done (Ok (Some s)) => Fine s | Done (Ok None) => Panic | Done (Err e) => Throw (Engine e) | OutOfFuel => Panic end.

Definition subtle_wrap_key (format : js) (k wrapping_key : CryptoKey) (a : EncryptionAlgorithm) : crypto (list Z) :=
  let% format := format_of format in
  let% export := export_key format k in
  let% (bytes, padding) :=
    match export with
    | Bytes bytes => Fine (bytes, 0)
    | Object fs =>
        let% json := done_json (json_stringify itoa ryu ryu (jwk_heap fs) fuel (TObject 0)) in
        Fine (json, 32)
    end in
  let% _ := check_validity wrapping_key "wrapKey" AnError in
  encrypt_decrypt a wrapping_key bytes (Wrapping padding) DoEncrypt.

Definition subtle_unwrap_key (format : js) (wrapped : js) (unwrapping_key : CryptoKey) (a : EncryptionAlgorithm) (value : js) (ext : bool)
    (key_usages : usage_array) : crypto CryptoKey :=
  let% format := format_of format in
  let% _ := check_validity unwrapping_key "unwrapKey" AnError in
  let% bytes := engine (js_bytes wrapped) in
  let padding := if bool_decide (format = Jwk) then 32 else 0 in
  let% bytes := encrypt_decrypt a unwrapping_key bytes (Wrapping padding) DoDecrypt in
  let% data :=
    match format with
    | Jwk =>
        let% v := engine (json_parse bytes) in
        let% o := or_throw ATypeError (js_object v) in
        Fine (JwkData o)
    | f => Fine (ByteData f (Ok bytes))
    end in
  import_key data value ext key_usages.

(** ** The public key of a private key *)

Definition supports_get_public_key (a : KeyAlgorithm) : bool :=
  match a with Ec _ _ | Ed25519 | X25519 | Rsa _ _ _ | MlDsa _ | MlKem _ | HybridKem _ => true | _ => false end.

Definition validate_public_usages (a : KeyAlgorithm) (name : list Z) (key_usages : usage_array) : crypto (list (list Z)) :=
  let% u :=
    match a with
    | Ec _ Ecdh | X25519 => Fine DeriveAsymmetric
    | Ec _ Ecdsa | Ed25519 | MlDsa _ => Fine SignUsage
    | Rsa _ _ _ => Fine (if bool_decide (name = str "RSA-OAEP") then RsaOaepUsage else SignUsage)
    | MlKem _ | HybridKem _ => Fine MlKemUsage
    | _ => unsupported
    end in
  let% (_, public_usages) := classify_and_check_usages u key_usages (Some Public) in
  Fine public_usages.

Definition public_data (k : CryptoKey) : crypto (list Z) :=
  match algorithm k with
  | Ec curve _ => or_throw_dom (export_ec_public_key_sec1 (handle k) curve true)
  | Ed25519 =>
      let% jwk := or_throw_dom (export_okp_jwk (handle k) true true) in
      Fine (okp_x jwk)
  | X25519 =>
      let% jwk := or_throw_dom (export_okp_jwk (handle k) true false) in
      Fine (okp_x jwk)
  | Rsa _ _ _ =>
      let% jwk := or_throw_dom (export_rsa_jwk (handle k) true) in
      let% r := or_throw_dom (import_rsa_jwk (mkRsaJwk (rsa_n jwk) (rsa_e jwk) None)) in
      Fine (rsa_key_data r)
  | MlDsa v => or_throw_dom (ml_dsa_public_key v (handle k))
  | MlKem v => or_throw_dom (ml_kem_public_key v (handle k))
  | HybridKem v => or_throw_dom (hybrid_kem_public_key v (handle k))
  | _ => Panic
  end.

Definition subtle_get_public_key (k : CryptoKey) (key_usages : usage_array) : crypto CryptoKey :=
  if negb (supports_get_public_key (algorithm k)) then unsupported
  else if negb (bool_decide (kind k = Private)) then invalid_access
  else
    let% us := validate_public_usages (algorithm k) (name k) key_usages in
    let% data := public_data k in
    Fine (mkKey Public true (algorithm k) (name k) us data).
End Exporting.
