(* ===== verification/CryptoCorrect.v ===== *)
(** * What holds of keys (src/modules/llrt_crypto/src/subtle/)

    A secret key that is exported or wrapped and imported again is the same key.
    What the provider has to do for this is in [ProviderLaws]; [toy] is a
    provider with these laws, with which the theorems are tried and the
    behaviours that are no theorems are shown.

    The keys of a program are those it imported, made, derived, unwrapped or
    cloned ([reachable]).  The theorems say what such keys can be used for. *)
From Stdlib Require Import ZArith Lia SpecFloat.
From stdpp Require Import base list numbers strings sets.
From S2P Require Import Prelude F64 Utf8 Js RustStr Encoding Rfc4648 JsonStringify CryptoKeys CryptoImport CryptoOps CryptoExport.
Local Open Scope Z_scope.

(** ** Values *)

Definition js_undef : js :=
  mkJs true false false (Err FromJs) (Err FromJs) (Err FromJs) (Err FromJs) (Err FromJs) (Err FromJs) (Err FromJs) (Err FromJs) None.

Definition js_text (s : list Z) : js :=
  mkJs false false true (Ok s) (Ok s) (Err FromJs) (Err FromJs) (Err FromJs) (Err FromJs) (Err FromJs) (Err FromJs) None.

Definition js_buffer (bs : list Z) : js :=
  mkJs false false false (Err FromJs) (Err FromJs) (Ok (Ok bs)) (Ok (Some bs)) (Err FromJs) (Err FromJs) (Err FromJs) (Err FromJs) None.

Definition js_boolean (b : bool) : js :=
  mkJs false false false (Err FromJs) (Err FromJs) (Err FromJs) (Err FromJs) (Err FromJs) (Ok b) (Err FromJs) (Err FromJs) None.

Definition js_array (l : list (list Z)) : js :=
  mkJs false false false (Err FromJs) (Err FromJs) (Err FromJs) (Err FromJs) (Err FromJs) (Err FromJs) (Ok (Ok <$> l)) (Err FromJs) None.

Definition js_dict (o : dict) : js :=
  mkJs false false false (Err FromJs) (Err FromJs) (Err FromJs) (Err FromJs) (Err FromJs) (Err FromJs) (Err FromJs) (Err FromJs) (Some o).

Definition field_value (f : field) : js := match f with FString s => js_text s | FBool b => js_boolean b | FStrings l => js_array l end.

(** The object that an export made. *)
Definition jwk_dict (fs : fields) : dict :=
  fun k => Ok (match list_find (fun p => p.1 = k) fs with Some (_, (_, f)) => field_value f | None => js_undef end).

(** ** Importing the same key in another format *)

Section Again.
Context `{Codecs} `{Provider}.

(** [f] holds the secret key [data]. *)
Definition carries (f : KeyFormatData) (a : KeyAlgorithm) (name data : list Z) : Prop :=
  match a with
  | Aes _ _ => import_symmetric_key f name None = Fine ((Secret, data), Z.of_nat (length data) * 8)
  | Hmac h _ => import_symmetric_key f name (Some h) = Fine ((Secret, data), Z.of_nat (length data) * 8)
  | ChaCha20Poly1305 => import_chacha20_poly1305 f = Fine (Secret, data)
  | _ => False
  end.

Lemma with_import_inv a u import f us a' r key : with_import a u import (Import f) us = Fine (a', r, key) ->
  a' = a ∧ exists k, import f = Fine k ∧ key = Some k.
Proof.
  unfold with_import. destruct (import f) as [k| |]; cbn [and_then]; try discriminate.
  destruct (classify_and_check_usages u us _); try discriminate. intros [= <- <- <-]. split; [done|]. exists k. done.
Qed.

Lemma from_aes_again f f' obj name us a r key :
  from_aes (Import f) obj name us = Fine (a, r, Some key) -> carries f' a name key.2 -> from_aes (Import f') obj name us = Fine (a, r, Some key).
Proof.
  intros Hf Hc. unfold from_aes in *. destruct (import_symmetric_key f name None) as [[key' bits]| |] eqn:Hi; try discriminate. cbn [and_then] in *.
  apply import_symmetric_kind in Hi as [Hk Hb]. destruct key' as [kd data]. cbn in Hk, Hb. subst kd.
  destruct (guard _ _) as [[]| |] eqn:Hg in Hf; try discriminate. cbn [and_then] in Hf.
  destruct (or_throw _ (aes_from name)) as [alg| |] eqn:Ha; try discriminate. cbn [and_then] in Hf.
  destruct (classify_and_check_usages _ us _) as [r'| |] eqn:Hr in Hf; try discriminate. cbn [and_then] in Hf. injection Hf as <- <- <-.
  cbn in Hc. rewrite Hc. cbn [and_then]. rewrite <- Hb, Hg. cbn [and_then]. rewrite Hr. done.
Qed.

Lemma from_hmac_again f f' obj name us a r key :
  from_hmac (Import f) obj name us = Fine (a, r, Some key) -> carries f' a name key.2 -> from_hmac (Import f') obj name us = Fine (a, r, Some key).
Proof.
  intros Hf Hc. unfold from_hmac in *. destruct obj as [o| |]; try discriminate. cbn [and_then] in *.
  destruct (extract_sha_hash o) as [hash| |]; try discriminate. cbn [and_then] in *.
  destruct (guard (negb (bool_decide (hash = Md5))) _) as [[]| |]; try discriminate. cbn [and_then] in *.
  destruct (get_optional_dictionary_value o _) as [value| |]; try discriminate. cbn [and_then] in *.
  destruct (match value with Some _ => _ | None => _ end) as [requested| |]; try discriminate. cbn [and_then] in *.
  destruct (guard (match requested with Some _ => _ | None => _ end) _) as [[]| |]; try discriminate. cbn [and_then] in *.
  change (hmac_length (Import f') hash requested) with (hmac_length (Import f) hash requested).
  destruct (hmac_length (Import f) hash requested) as [len| |]; try discriminate. cbn [and_then] in *.
  destruct (import_symmetric_key f name (Some hash)) as [[[kd data] bits]| |] eqn:Hi; try discriminate. cbn [and_then] in *.
  apply import_symmetric_kind in Hi as [Hk Hb]. cbn in Hk, Hb. subst kd.
  assert (Ha : a = Hmac hash bits ∧ key = (Secret, data)).
  { clear Hc. revert Hf. do 3 (destruct (guard _ _) as [[]| |]; cbn [and_then]; try discriminate). cbn [or_throw and_then is_generate orb andb negb guard].
    destruct (classify_and_check_usages _ _ _); try discriminate. intros [= <- <- <-]. done. }
  destruct Ha as [-> ->]. cbn in Hc. rewrite Hc, <- Hb. exact Hf.
Qed.

Lemma from_rsa_asymmetric f obj name us : gives (fun c => is_symmetric c.1.1 = false) (from_rsa (Import f) obj name us).
Proof.
  unfold from_rsa. do 2 (apply gives_then; intros ? _). apply gives_then. intros [[l e] key] _. do 3 (apply gives_then; intros ? _). apply gives_fine. done.
Qed.

Lemma from_name_again f f' obj name us a r key : is_symmetric a = true ->
  from_name (Import f) obj name us = Fine (a, r, Some key) -> carries f' a name key.2 -> from_name (Import f') obj name us = Fine (a, r, Some key).
Proof.
  intros Ha. assert (Hno : forall a' u import, with_import a' u import (Import f) us = Fine (a, r, Some key) -> is_symmetric a' = false -> False).
  { intros a' u import Hw Ha'. apply with_import_inv in Hw as [-> _]. congruence. }
  unfold from_name. case_bool_decide; [intros Hf; destruct (Hno _ _ _ Hf eq_refl)|]. case_bool_decide; [intros Hf; destruct (Hno _ _ _ Hf eq_refl)|].
  case_bool_decide; [apply from_aes_again|].
  assert (Hec : forall e u, from_ec (Import f) obj e us u = Fine (a, r, Some key) -> False).
  { intros e u. unfold from_ec. intros Hf. destruct obj as [o| |]; try discriminate. cbn [and_then] in Hf.
    destruct (get_required js_string o _); try discriminate. cbn [and_then] in Hf. destruct (or_throw _ _); try discriminate. apply (Hno _ _ _ Hf eq_refl). }
  do 2 (case_bool_decide; [intros Hf; destruct (Hec _ _ Hf)|]). case_bool_decide; [apply from_hmac_again|].
  case_bool_decide.
  { intros Hf Hc. pose proof Hf as Hi. apply with_import_inv in Hi as [-> (k & Hi & [= <-])]. cbn in Hc.
    pose proof (import_chacha_kind f _ Hi) as Hk. unfold from_chacha20_poly1305, with_import in *. rewrite Hi in Hf. rewrite Hc.
    destruct key as [kd data]. cbn in Hk. subst kd. exact Hf. }
  case_bool_decide.
  { intros Hf. apply from_rsa_asymmetric in Hf. cbn in Hf. congruence. }
  do 2 (case_bool_decide; [intros Hf; destruct (Hno _ _ _ Hf eq_refl)|]).
  destruct (ml_dsa_from name); [intros Hf; destruct (Hno _ _ _ Hf eq_refl)|].
  destruct (ml_kem_from name); [intros Hf; destruct (Hno _ _ _ Hf eq_refl)|].
  destruct (hybrid_kem_from name); [intros Hf; destruct (Hno _ _ _ Hf eq_refl)|discriminate].
Qed.
(** The name of a secret key's algorithm. *)
Definition named (a : KeyAlgorithm) (name : list Z) : Prop :=
  match a with Aes _ e => aes_from name = Some e | Hmac h _ => h <> Md5 | _ => True end.

Lemma with_import_named a u import m us name : is_symmetric a = false ∨ a = ChaCha20Poly1305 -> gives (fun c => named c.1.1 name) (with_import a u import m us).
Proof.
  intros Ha. unfold with_import. do 2 (apply gives_then; intros ? _). apply gives_fine. destruct a, Ha as [Ha|Ha]; cbn; done.
Qed.

Lemma from_name_named f obj name us : gives (fun c => named c.1.1 name) (from_name (Import f) obj name us).
Proof.
  unfold from_name. do 2 (case_bool_decide; [apply with_import_named; by left|]).
  case_bool_decide.
  { unfold from_aes. apply gives_then. intros [l key] _. apply gives_then. intros _ _. apply gives_then. intros e He. apply gives_then. intros r _.
    apply gives_fine. cbn. destruct (aes_from name); cbn in He; congruence. }
  assert (Hec : forall e u, gives (fun c => named c.1.1 name) (from_ec (Import f) obj e us u)).
  { intros e u. unfold from_ec. do 3 (apply gives_then; intros ? _). apply with_import_named. by left. }
  do 2 (case_bool_decide; [apply Hec|]).
  case_bool_decide.
  { unfold from_hmac. do 2 (apply gives_then; intros ? _). apply gives_then. intros [] Hg. do 4 (apply gives_then; intros ? _).
    apply gives_then. intros [len key] _. do 3 (apply gives_then; intros ? _). apply gives_fine. cbn. apply guard_true, negb_true_iff, bool_decide_eq_false in Hg. exact Hg. }
  case_bool_decide; [apply with_import_named; by right|].
  case_bool_decide; [intros [[a r] key] Hf; apply from_rsa_asymmetric in Hf; destruct a; done|].
  do 2 (case_bool_decide; [apply with_import_named; by left|]).
  destruct (ml_dsa_from name); [apply with_import_named; by left|]. destruct (ml_kem_from name); [apply with_import_named; by left|].
  destruct (hybrid_kem_from name); [apply with_import_named; by left|apply gives_throw].
Qed.

(** An import, and that of the same key in another format. *)
Lemma import_again f f' v us k :
  import_key f v true us = Fine k -> is_symmetric (algorithm k) = true ->
  named (algorithm k) (name k) ∧
  (carries f' (algorithm k) (name k) (handle k) -> match f' with JwkData o => validate_jwk o true (usages k) = Fine tt | _ => True end ->
   import_key f' v true us = Fine k).
Proof.
  unfold import_key, from_js. destruct (to_name_and_maybe_object v) as [[nm obj]| |]; try discriminate. cbn [and_then].
  set (name' := normalize_algorithm_name nm). clearbody name'.
  destruct (from_name (Import f) obj name' us) as [[[a [rp rq]] key]| |] eqn:Hf; try discriminate. cbn [and_then n_imported n_algorithm n_name n_private_usages n_public_usages].
  pose proof (from_name_classifies _ _ _ _ _ Hf) as [_ (kd & data & -> & _)]. cbn [default]. pose proof (from_name_named _ _ _ _ _ Hf) as Hn.
  destruct (guard _ _) as [[]| |] eqn:Hg; try discriminate. cbn [and_then id].
  match goal with |- and_then ?m _ = Fine _ -> _ => destruct m as [[]| |]; try discriminate end. intros [= <-]. cbn [algorithm name handle usages kind]. intros Ha. split; [exact Hn|]. intros Hc Hv.
  rewrite (from_name_again f f' obj name' us a (rp, rq) (kd, data) Ha Hf Hc). cbn [and_then n_imported n_algorithm n_name n_private_usages n_public_usages default id].
  rewrite Hg. cbn [and_then]. destruct f' as [o|]; [rewrite Hv|]; done.
Qed.
End Again.

(** ** Export and import of secret keys *)

Definition oct (alg : list Z) (data : list Z) (o : dict) : Prop :=
  o (str "kty") = Ok (js_text (str "oct")) ∧ o (str "k") = Ok (js_text data) ∧ o (str "alg") = Ok (js_text alg) ∧ o (str "use") = Ok js_undef.

Lemma text_required o k s : o (str k) = Ok (js_text s) -> get_jwk_required_string o k = Fine s.
Proof. intros Hk. unfold get_jwk_required_string, get_required, get_optional. rewrite Hk. done. Qed.

Section RoundTrip.
Context `{!Codecs} `{!CodecLaws} `{!Provider}.

Lemma decode_encoded e data : Forall byte_ok data -> decode_b64 e (bytes_to_b64_url_safe_string data) = Fine data.
Proof. intros Hd. unfold decode_b64, bytes_from_b64_url_safe, bytes_to_b64_url_safe_string. rewrite b64url_roundtrip by done. done. Qed.

Lemma oct_symmetric o alg data name h : Forall byte_ok data -> oct alg (bytes_to_b64_url_safe_string data) o -> check_symmetric_alg name h alg = Fine tt ->
  import_symmetric_key (JwkData o) name h = Fine ((Secret, data), Z.of_nat (length data) * 8).
Proof.
  intros Hd (Hkty & Hk & Halg & _) Hc. unfold import_symmetric_key, validate_jwk_kty.
  rewrite (text_required _ _ _ Hkty), (text_required _ _ _ Hk), (text_required _ _ _ Halg). cbn [and_then]. rewrite bool_decide_true by done. cbn [guard and_then].
  rewrite Hc. cbn [and_then]. rewrite decode_encoded by done. done.
Qed.

Lemma oct_chacha o data : Forall byte_ok data -> length data = 32%nat -> oct (str "C20P") (bytes_to_b64_url_safe_string data) o ->
  import_chacha20_poly1305 (JwkData o) = Fine (Secret, data).
Proof.
  intros Hd Hl (Hkty & Hk & Halg & Huse). unfold import_chacha20_poly1305, validate_jwk_kty, validate_jwk_use, get_jwk_required_bytes.
  rewrite (text_required _ _ _ Hkty), (text_required _ _ _ Hk). unfold get_optional. rewrite Huse, Halg. cbn -[str bool_decide decode_b64].
  rewrite !bool_decide_true by done. cbn -[str bool_decide decode_b64]. rewrite decode_encoded by done. cbn. rewrite Hl. done.
Qed.

Lemma exported_jwk k : is_symmetric (algorithm k) = true -> named (algorithm k) (name k) -> shape (algorithm k) (handle k) -> Forall byte_ok (handle k) ->
  exists fs, export_jwk k = Fine fs ∧ carries (JwkData (jwk_dict fs)) (algorithm k) (name k) (handle k) ∧
    jwk_dict fs (str "key_ops") = Ok (js_array (usages k)) ∧ jwk_dict fs (str "ext") = Ok (js_boolean true).
Proof.
  intros Ha Hn Hsh Hd. unfold export_jwk, export_jwk_algorithm. destruct (algorithm k) as [l e| | | |h l| | | | | | | |]; try discriminate; cbn [carries named shape] in *.
  - destruct Hsh as [Hl _]. assert (Hname : exists suffix alg, slice_from (name k) 4 = Fine suffix ∧
      (if l =? 128 then Fine (str "A128") else if l =? 192 then Fine (str "A192") else if l =? 256 then Fine (str "A256") else Panic) = Fine alg ∧
      check_symmetric_alg (name k) None (alg ++ suffix) = Fine tt).
    { unfold aes_from, try_from in Hn. apply head_Some_elem_of in Hn. apply list_elem_of_filter in Hn as [<- _].
      destruct e, Hl as [->|[->| ->]]; eexists _, _; split_and!; reflexivity. }
    destruct Hname as (suffix & alg & -> & -> & Hc). cbn [and_then]. eexists. split; [done|]. split; [|done].
    apply (oct_symmetric _ (alg ++ suffix)); done.
  - assert (Hc : exists suffix, slice_from (hash_str h) 4 = Fine suffix ∧ check_symmetric_alg (name k) (Some h) (str "HS" ++ suffix) = Fine tt).
    { destruct h; [done|eexists; split; reflexivity..]. }
    destruct Hc as (suffix & -> & Hc). cbn [and_then]. eexists. split; [done|]. split; [|done]. apply (oct_symmetric _ (str "HS" ++ suffix)); done.
  - cbn [and_then]. eexists. split; [done|]. split; [|done]. apply oct_chacha; done.
Qed.

Lemma collect_ops_distinct l : forall seen, NoDup (seen ++ l) -> collect_ops (Ok <$> l) seen = Fine (seen ++ l).
Proof.
  induction l as [|op l IH]; intros seen Hl; cbn; [rewrite app_nil_r; done|]. rewrite bool_decide_false.
  - rewrite IH by (rewrite <- app_assoc; done). rewrite <- app_assoc. done.
  - apply NoDup_app in Hl as (_ & Hx & _). intros Hin. apply (Hx _ Hin). left.
Qed.

Lemma granted_distinct reqs l : NoDup (granted reqs l).
Proof.
  unfold granted. apply NoDup_fmap_2; [intros a b Hab; apply usage_str_inj; done|]. apply NoDup_filter. apply (bool_decide_unpack _). vm_compute. done.
Qed.

Lemma own_ops o us : NoDup us -> o (str "key_ops") = Ok (js_array us) -> o (str "ext") = Ok (js_boolean true) -> validate_jwk o true us = Fine tt.
Proof.
  intros Hu Hops Hext. unfold validate_jwk, parse_jwk_key_ops, validate_jwk_extractable, get_optional. rewrite Hops, Hext. cbn [and_then engine js_undefined js_null js_array js_strings orb].
  rewrite (collect_ops_distinct us []) by done. cbn. unfold validate_requested_jwk_key_ops.
  replace (forallb _ us) with true; [done|]. symmetry. apply forallb_forall. intros u Hin. apply bool_decide_eq_true. apply list_elem_of_In. done.
Qed.

Lemma format_text f : format_of (js_text (format_str f)) = Fine f.
Proof. destruct f; reflexivity. Qed.

(** A key is imported by [import_key], after a check that holds for any format. *)
Lemma subtle_import_inv f d v us k : subtle_import_key f d v true us = Fine k ->
  (exists data, import_key data v true us = Fine k) ∧ forall f', validate_import_algorithm f' v true us = Fine tt.
Proof.
  unfold subtle_import_key. destruct (format_of f) as [f0| |]; try discriminate. cbn [and_then].
  destruct (validate_import_algorithm f0 v true us) as [[]| |] eqn:Hv; try discriminate. cbn [and_then]. intros Hi. split.
  - match type of Hi with and_then ?m _ = _ => destruct m as [data| |]; try discriminate end. exists data. exact Hi.
  - intros f'. unfold validate_import_algorithm in *. destruct (from_js ValidateImport v us) as [n| |]; try discriminate. cbn [and_then] in *.
    destruct (not_extractable (n_algorithm n)); [|done]. destruct (guard _ _); discriminate.
Qed.

(** What is known of a secret key that was imported. *)
Lemma imported_secret f d v us k : subtle_import_key f d v true us = Fine k -> is_symmetric (algorithm k) = true ->
  kind k = Secret ∧ extractable k = true ∧ not_extractable (algorithm k) = false ∧ shape (algorithm k) (handle k) ∧ NoDup (usages k).
Proof.
  intros Hi Ha. apply subtle_import_inv in Hi as [[data Hi] _]. apply import_key_spec in Hi as (He & _ & Hs & reqs & _ & _ & _ & Hk & Hu).
  split; [|split; [done|]; split; [destruct (algorithm k); done|]; split; [done|]; rewrite Hu; apply granted_distinct].
  unfold key_usage_algorithm in Hk. destruct (algorithm k) as [? []| | | | | | | | | | | |]; try discriminate; destruct (kind k); done.
Qed.

Lemma raw_again f d v us k : subtle_import_key f d v true us = Fine k -> is_symmetric (algorithm k) = true ->
  import_key (ByteData RawSecret (Ok (handle k))) v true us = Fine k.
Proof.
  intros Hi Ha. pose proof (imported_secret _ _ _ _ _ Hi Ha) as (_ & _ & _ & Hs & _). apply subtle_import_inv in Hi as [[data Hi] _].
  apply (import_again data); try done. destruct (algorithm k) as [| | | | | | | | | | | |]; try discriminate; cbn in *; [done..|].
  unfold import_chacha20_poly1305. cbn. rewrite Hs. done.
Qed.

(** C21: a secret key (AES, HMAC, ChaCha20-Poly1305) that [subtle_import_key]
    returned as extractable, exported as a JSON web key or as its bytes and
    imported with the algorithm value [v] and the usages [us] of its own
    import, is the same key. Generated and derived keys are not covered. *)
Theorem secret_key_roundtrip f d v us k :
  subtle_import_key f d v true us = Fine k -> is_symmetric (algorithm k) = true -> Forall byte_ok (handle k) ->
  (exists fs, subtle_export_key (js_text (str "jwk")) k = Fine (Object fs) ∧
              subtle_import_key (js_text (str "jwk")) (js_dict (jwk_dict fs)) v true us = Fine k) ∧
  subtle_export_key (js_text (str "raw-secret")) k = Fine (Bytes (handle k)) ∧
  subtle_import_key (js_text (str "raw-secret")) (js_buffer (handle k)) v true us = Fine k.
Proof.
  intros Hi Ha Hd. destruct (imported_secret _ _ _ _ _ Hi Ha) as (Hk & He & Hx & Hs & Hu). pose proof (raw_again _ _ _ _ _ Hi Ha) as Hraw.
  apply subtle_import_inv in Hi as [[data Hi] Hv]. pose proof (import_again data (JwkData (fun _ => Ok js_undef)) _ _ _ Hi Ha) as [Hn _].
  unfold subtle_export_key, export_key. change (str "jwk") with (format_str Jwk). change (str "raw-secret") with (format_str RawSecret).
  rewrite !format_text. cbn [and_then]. rewrite Hx, He. cbn [negb]. split; [|split].
  - destruct (exported_jwk k Ha Hn Hs Hd) as (fs & -> & Hc & Hops & Hext). exists fs. split; [done|]. unfold subtle_import_key. rewrite format_text. cbn [and_then].
    rewrite Hv. cbn. apply (import_again data); try done. apply own_ops; done.
  - rewrite bool_decide_true by done. unfold export_raw. rewrite Hk. destruct (algorithm k); done.
  - unfold subtle_import_key. rewrite format_text. cbn [and_then]. rewrite Hv. exact Hraw.
Qed.
End RoundTrip.

(** ** Wrapping *)

(** What the ciphers of a provider do: decryption undoes encryption, and a GCM
    ciphertext has its tag. *)
Class ProviderLaws `{Provider} : Prop := {
  aes_inverse : forall m key iv data ad c, aes_encrypt m key iv data ad = Ok c -> aes_decrypt m key iv c ad = Ok data;
  gcm_tag : forall t key iv data ad c, aes_encrypt (ModeGcm t) key iv data ad = Ok c -> t / 8 <= Z.of_nat (length c);
  chacha_inverse : forall key iv data ad c, chacha20_poly1305_encrypt key iv data ad = Ok c -> chacha20_poly1305_decrypt key iv c ad = Ok data;
  kw_inverse : forall key data c, aes_kw_wrap key data = Ok c -> aes_kw_unwrap key c = Ok data;
}.

Section Wrap.
Context `{!Codecs} `{!Provider} `{!ProviderLaws}.
Context (itoa ryu : Z -> list Z) (json_parse : list Z -> result js_error js) (fuel : nat).

Lemma cipher_inverse a k data c : (forall label, a <> ERsaOaep label) -> (a = EAesKw -> (length data mod 8 = 0)%nat) ->
  encrypt_decrypt a k data (Wrapping 0) DoEncrypt = Fine c -> encrypt_decrypt a k c (Wrapping 0) DoDecrypt = Fine data.
Proof.
  intros Hrsa Hkw. destruct a as [iv|counter l|iv t ad|iv t ad|label|]; cbn [encrypt_decrypt].
  - destruct (validate_aes_length k Cbc) as [[]| |]; try discriminate. cbn [and_then]. destruct (aes_encrypt _ _ _ _ _) eqn:He; try discriminate.
    intros [= <-]. rewrite (aes_inverse _ _ _ _ _ _ He). done.
  - destruct (validate_aes_length k Ctr) as [[]| |]; try discriminate. cbn [and_then]. destruct (aes_encrypt _ _ _ _ _) eqn:He; try discriminate.
    intros [= <-]. rewrite (aes_inverse _ _ _ _ _ _ He). done.
  - destruct (validate_aes_length k Gcm) as [[]| |]; try discriminate. cbn [and_then]. destruct (guard (length iv =? 12)%nat _) as [[]| |]; try discriminate. cbn [and_then].
    destruct (aes_encrypt _ _ _ _ _) eqn:He; try discriminate. intros [= <-]. rewrite (aes_inverse _ _ _ _ _ _ He). pose proof (gcm_tag _ _ _ _ _ _ He) as Ht.
    replace (t / 8 <=? _) with true by lia. done.
  - destruct (algorithm k); try discriminate. destruct (guard _ _) as [[]| |]; try discriminate. cbn [and_then].
    destruct (chacha20_poly1305_encrypt _ _ _ _) eqn:He; try discriminate. intros [= <-]. rewrite (chacha_inverse _ _ _ _ _ He). done.
  - destruct (Hrsa label eq_refl).
  - unfold pad_to_eight. rewrite (Hkw eq_refl). cbn [Nat.eqb]. destruct (aes_kw_wrap _ _) eqn:He; try discriminate. intros [= <-]. rewrite (kw_inverse _ _ _ He). done.
Qed.

(** C22: a secret key that [subtle_import_key] returned as extractable,
    wrapped as its bytes under a key, with any cipher but RSA-OAEP (for AES-KW
    when it is a whole number of blocks of eight bytes), comes back as the
    same key when it is unwrapped with the wrapping key, the algorithm value
    [v] and the usages [us] of its import, if the wrapping key has the usage
    unwrapKey and the provider's decryption undoes its encryption
    ([ProviderLaws]). *)
Theorem wrapped_key_roundtrip f d v us k wk a w :
  subtle_import_key f d v true us = Fine k -> is_symmetric (algorithm k) = true ->
  (forall label, a <> ERsaOaep label) -> (a = EAesKw -> (length (handle k) mod 8 = 0)%nat) -> str "unwrapKey" ∈ usages wk ->
  subtle_wrap_key itoa ryu fuel (js_text (str "raw-secret")) k wk a = Fine w ->
  subtle_unwrap_key json_parse (js_text (str "raw-secret")) (js_buffer w) wk a v true us = Fine k.
Proof.
  intros Hi Ha Hrsa Hkw Hu Hw. pose proof (raw_again _ _ _ _ _ Hi Ha) as Hraw. apply imported_secret in Hi as (Hk & He & Hx & _); [|done].
  unfold subtle_wrap_key in Hw. unfold subtle_unwrap_key, check_validity. change (str "raw-secret") with (format_str RawSecret) in *. rewrite format_text in *. cbn [and_then] in *.
  rewrite bool_decide_true by done. cbn [guard and_then engine js_bytes js_object_bytes js_buffer]. rewrite bool_decide_false by done.
  assert (Hexp : export_key RawSecret k = Fine (Bytes (handle k))).
  { unfold export_key. rewrite Hx, He. cbn [negb]. rewrite bool_decide_true by done. unfold export_raw. rewrite Hk. destruct (algorithm k); done. }
  rewrite Hexp in Hw. cbn [and_then] in Hw. destruct (check_validity wk "wrapKey" AnError) as [[]| |]; try discriminate. cbn [and_then] in Hw.
  rewrite (cipher_inverse _ _ _ _ Hrsa Hkw Hw). exact Hraw.
Qed.
End Wrap.

(** ** The keys of a program *)

Section Keys.
Context `{Codecs} `{Provider}.
Context (itoa ryu : Z -> list Z) (json_parse : list Z -> result js_error js) (fuel : nat).
Abbreviation unwrap_key := (subtle_unwrap_key json_parse).
Abbreviation wrap_key := (subtle_wrap_key itoa ryu fuel).

Inductive reachable : CryptoKey -> Prop :=
| reach_import f d v ext us k : subtle_import_key f d v ext us = Fine k -> reachable k
| reach_secret v ext us k : subtle_generate_key v ext us = Fine (OneKey k) -> reachable k
| reach_private v ext us sk pk : subtle_generate_key v ext us = Fine (KeyPair sk pk) -> reachable sk
| reach_public v ext us sk pk : subtle_generate_key v ext us = Fine (KeyPair sk pk) -> reachable pk
| reach_derive a base v ext us k : reachable base -> subtle_derive_key a base v ext us = Fine k -> reachable k
| reach_unwrap f w base a v ext us k : reachable base -> unwrap_key f w base a v ext us = Fine k -> reachable k
| reach_encapsulate a base v ext us k c : reachable base -> subtle_encapsulate_key a base v ext us = Fine (k, c) -> reachable k
| reach_decapsulate a base c v ext us k : reachable base -> subtle_decapsulate_key a base c v ext us = Fine k -> reachable k
| reach_get_public base us k : reachable base -> subtle_get_public_key base us = Fine k -> reachable k
| reach_clone k : reachable k -> reachable (structured_clone k).

(** The usages of a key are some that its algorithm allows for its kind. *)
Definition key_ok (k : CryptoKey) : Prop := exists reqs, authorized reqs k.

Lemma imported_ok us ext k : imported_with us ext k -> key_ok k.
Proof. intros (_ & _ & _ & reqs & _ & _ & _ & Ha). exists reqs. exact Ha. Qed.

Lemma subtle_import_spec f d v ext us : gives (imported_with us ext) (subtle_import_key f d v ext us).
Proof. unfold subtle_import_key. do 3 (apply gives_then; intros ? _). apply import_key_spec. Qed.

Lemma derive_key_spec a base v ext us : gives (imported_with us ext) (subtle_derive_key a base v ext us).
Proof. unfold subtle_derive_key. do 5 (apply gives_then; intros ? _). apply import_key_spec. Qed.

Lemma unwrap_key_spec f w base a v ext us : gives (imported_with us ext) (unwrap_key f w base a v ext us).
Proof. unfold subtle_unwrap_key. do 5 (apply gives_then; intros ? _). apply import_key_spec. Qed.

Lemma encapsulate_key_spec a base v ext us : gives (fun r => imported_with us ext r.1) (subtle_encapsulate_key a base v ext us).
Proof.
  unfold subtle_encapsulate_key. do 2 (apply gives_then; intros ? _). apply gives_then. intros [c s] _. apply gives_then. intros k Hk.
  apply gives_fine. apply import_key_spec in Hk. exact Hk.
Qed.

Lemma decapsulate_key_spec a base c v ext us : gives (imported_with us ext) (subtle_decapsulate_key a base c v ext us).
Proof. unfold subtle_decapsulate_key. do 3 (apply gives_then; intros ? _). apply import_key_spec. Qed.

(** The public key of a private key. *)
Lemma get_public_key_spec base us :
  gives (fun k => exists reqs, us = as_array reqs ∧ kind k = Public ∧ algorithm k = algorithm base ∧ name k = name base ∧ authorized reqs k)
    (subtle_get_public_key base us).
Proof.
  unfold subtle_get_public_key. destruct (supports_get_public_key (algorithm base)) eqn:Hs; cbn [negb]; [|apply gives_throw].
  case_bool_decide; cbn [negb]; [|apply gives_throw]. apply gives_then. intros us' Hu. apply gives_then. intros data _. apply gives_fine.
  unfold validate_public_usages in Hu.
  assert (Hc : exists r, classify_and_check_usages (usage_algorithm (algorithm base) (name base)) us (Some Public) = Fine r ∧ r.2 = us').
  { destruct (algorithm base) as [|? []| | | | | | | | | | |]; try discriminate; cbn [and_then] in Hu;
      (destruct (classify_and_check_usages _ us (Some Public)) as [[private public]| |] eqn:Hr in Hu; try discriminate;
       injection Hu as <-; eexists; split; [exact Hr|done]). }
  destruct Hc as (r & Hr & <-). assert (Hp : suits (usage_algorithm (algorithm base) (name base)) Public = true).
  { destruct (algorithm base) as [|? []| | | | | | | | | | |]; try discriminate; try done. cbn. destruct (bool_decide _); done. }
  apply classify_kind in Hr as (reqs & -> & _ & _ & ->); [|exact Hp]. exists reqs. do 4 (split; [done|]). split; [exact Hp|done].
Qed.

Lemma reachable_key_ok k : reachable k -> key_ok k.
Proof.
  induction 1 as [f d v ext us k Hk|v ext us k Hk|v ext us sk pk Hk|v ext us sk pk Hk|a base v ext us k _ _ Hk|f w base a v ext us k _ _ Hk
    |a base v ext us k c _ _ Hk|a base c v ext us k _ _ Hk|base us k _ _ Hk|k _ [reqs Hr]].
  - apply subtle_import_spec, imported_ok in Hk. exact Hk.
  - apply generate_key_spec in Hk as (e & _ & reqs & _ & _ & _ & _ & Ha & _). exists reqs. exact Ha.
  - apply generate_key_spec in Hk as (e & _ & reqs & _ & _ & _ & _ & _ & _ & _ & _ & Ha & _). exists reqs. exact Ha.
  - apply generate_key_spec in Hk as (e & _ & reqs & _ & _ & _ & _ & _ & _ & _ & _ & _ & Ha & _). exists reqs. exact Ha.
  - apply derive_key_spec, imported_ok in Hk. exact Hk.
  - apply unwrap_key_spec, imported_ok in Hk. exact Hk.
  - apply encapsulate_key_spec, imported_ok in Hk. exact Hk.
  - apply decapsulate_key_spec, imported_ok in Hk. exact Hk.
  - apply get_public_key_spec in Hk as (reqs & _ & _ & _ & _ & Ha). exists reqs. exact Ha.
  - exists reqs. exact Hr.
Qed.

(** The kinds of keys that a usage is for. *)
Definition holders (u : KeyUsage) : list KeyKind :=
  match u with
  | Encrypt | Verify | WrapKey => [Secret; Public]
  | Decrypt | Sign | UnwrapKey | DeriveKey | DeriveBits => [Secret; Private]
  | EncapsulateKey | EncapsulateBits => [Public]
  | DecapsulateKey | DecapsulateBits => [Private]
  end.

Definition may (k : CryptoKey) (u : KeyUsage) : Prop := usage_str u ∈ usages k ∧ kind k ∈ holders u.

Lemma allowed_holders a kd u : u ∈ allowed a kd -> kd ∈ holders u.
Proof. intros Hu. destruct a, kd; cbn in Hu; set_unfold; destruct_or?; subst; cbn; set_solver. Qed.

Lemma ok_may k u : key_ok k -> usage_str u ∈ usages k -> may k u.
Proof.
  intros [reqs [_ Hu]] Hin. split; [done|]. rewrite Hu in Hin. apply granted_in in Hin as (u' & Hs & _ & Hl).
  apply usage_str_inj in Hs as <-. apply (allowed_holders _ _ _ Hl).
Qed.

Lemma checked_may k u usage e : str usage = usage_str u -> key_ok k -> gives (fun _ => may k u) (check_validity k usage e).
Proof.
  intros Hs Hk [] Hc. unfold check_validity in Hc. apply guard_true, bool_decide_eq_true in Hc. rewrite Hs in Hc. apply ok_may; done.
Qed.

(** A computation that checks a usage and goes on. *)
Lemma after_check {A B} (P : Prop) (Q : B -> Prop) (m : crypto A) (k : A -> crypto B) :
  gives (fun _ => P) m -> (forall a, P -> gives Q (k a)) -> gives Q (and_then m k).
Proof. intros Hm Hk. apply gives_then. intros a Ha. apply Hk, (Hm a Ha). Qed.

Lemma check_signing_may a k usage u kd : str usage = usage_str u -> key_ok k -> gives (fun _ => may k u) (check_signing a k usage kd).
Proof.
  intros Hs Hk. unfold check_signing. apply gives_then. intros _ _. apply (after_check (may k u)); [apply checked_may; done|].
  intros _ Hm b _. exact Hm.
Qed.

Lemma check_encapsulation_may a k usage u kd : str usage = usage_str u -> key_ok k ->
  gives (fun _ => may k u) (check_encapsulation_key k a usage kd).
Proof.
  intros Hs Hk. unfold check_encapsulation_key. apply gives_then. intros _ _. apply (after_check (may k u)); [apply checked_may; done|].
  intros _ Hm b _. exact Hm.
Qed.

(** Through an operation to its check. *)
Ltac to_check :=
  repeat lazymatch goal with
    | |- gives (fun _ => ?P) (and_then _ _) => first
      [ apply (after_check P); [first [apply checked_may; [reflexivity|done] | apply check_signing_may; [reflexivity|done]
          | apply check_encapsulation_may; [reflexivity|done]] | intros ? Hmay ? _; exact Hmay]
      | apply gives_then; intros ? _ ]
    | |- gives _ (let '(_, _) := ?p in _) => destruct p
    end.

(** C20: a key that is imported or made has the usages that were asked for and
    that its algorithm has for a key of its kind, once each and in canonical
    order; a usage that is unknown or that no key of the result may have makes
    the call fail, as does asking for none for a secret or private key that is
    imported, or for a key or pair that is made. The data of an imported
    ChaCha20-Poly1305 key has 32 bytes, that of an HMAC key the length of its
    algorithm, and that of an AES key a length in bits that equals the one of
    its algorithm modulo 2^16 only: the code computes it in 16 bits
    ([long_aes_key_imported]). *)
Theorem keys_have_asked_usages f d v ext us :
  gives (imported_with us ext) (subtle_import_key f d v ext us) ∧
  gives (generated_with us ext) (subtle_generate_key v (Some ext) us).
Proof. split; [apply subtle_import_spec|]. intros g Hg. apply generate_key_spec in Hg as (e & [= <-] & Hg). exact Hg. Qed.

(** C18: whatever keys a program makes, imports, derives, unwraps or clones, and
    whatever the provider does, an operation with a key succeeds only when the
    key has the usage for it, and only private or secret keys sign, decrypt,
    derive and unwrap, only public or secret keys verify, encrypt and wrap, only
    public keys encapsulate and only private keys decapsulate. *)
Theorem operations_authorized k : reachable k ->
  (forall v d, gives (fun _ => may k Sign) (subtle_sign v k d)) ∧
  (forall v s d, gives (fun _ => may k Verify) (subtle_verify v k s d)) ∧
  (forall v d, gives (fun _ => may k Encrypt) (subtle_encrypt v k d)) ∧
  (forall v d, gives (fun _ => may k Decrypt) (subtle_decrypt v k d)) ∧
  (forall v l, gives (fun _ => may k DeriveBits) (subtle_derive_bits v k l)) ∧
  (forall v t ext us, gives (fun _ => may k DeriveKey) (subtle_derive_key v k t ext us)) ∧
  (forall f k' a, gives (fun _ => may k WrapKey) (wrap_key f k' k a)) ∧
  (forall f w a v ext us, gives (fun _ => may k UnwrapKey) (unwrap_key f w k a v ext us)) ∧
  (forall v, gives (fun _ => may k EncapsulateBits) (subtle_encapsulate_bits v k)) ∧
  (forall v c, gives (fun _ => may k DecapsulateBits) (subtle_decapsulate_bits v k c)) ∧
  (forall v t ext us, gives (fun _ => may k EncapsulateKey) (subtle_encapsulate_key v k t ext us)) ∧
  (forall v c t ext us, gives (fun _ => may k DecapsulateKey) (subtle_decapsulate_key v k c t ext us)).
Proof.
  intros Hr. pose proof (reachable_key_ok k Hr) as Hk.
  split; [intros; unfold subtle_sign; to_check|]. split; [intros; unfold subtle_verify; to_check|].
  split; [intros; unfold subtle_encrypt; to_check|]. split; [intros; unfold subtle_decrypt; to_check|].
  split; [intros; unfold subtle_derive_bits; to_check|]. split; [intros; unfold subtle_derive_key; to_check|].
  split; [intros; unfold subtle_wrap_key; to_check|]. split; [intros; unfold subtle_unwrap_key; to_check|].
  split; [intros; unfold subtle_encapsulate_bits; to_check|]. split; [intros; unfold subtle_decapsulate_bits; to_check|].
  split; [intros; unfold subtle_encapsulate_key; to_check|]. intros; unfold subtle_decapsulate_key; to_check.
Qed.

(** C19: a key that was not asked to be extractable stays inside: import,
    generation, derivation and unwrapping keep the flag they are given, a clone
    keeps its flag, and neither an export nor a wrapping of such a key returns,
    in any format; nor does one of a key for HKDF or PBKDF2. *)
Theorem unextractable_keys_stay k :
  (forall f d v ext us, gives (fun k => extractable k = ext) (subtle_import_key f d v ext us)) ∧
  (forall v ext us, gives (fun g => ext = Some (match g with OneKey k => extractable k | KeyPair sk _ => extractable sk end)) (subtle_generate_key v ext us)) ∧
  (forall a base v ext us, gives (fun k => extractable k = ext) (subtle_derive_key a base v ext us)) ∧
  (forall f w base a v ext us, gives (fun k => extractable k = ext) (unwrap_key f w base a v ext us)) ∧
  extractable (structured_clone k) = extractable k ∧
  (extractable k = false ∨ not_extractable (algorithm k) = true ->
   (forall f, gives (fun _ => False) (subtle_export_key f k)) ∧ (forall f wk a, gives (fun _ => False) (wrap_key f k wk a))).
Proof.
  split; [intros ** k' Hk; apply subtle_import_spec in Hk as [Hk _]; exact Hk|].
  split; [intros ** g Hg; apply generate_key_spec in Hg as (e & -> & reqs & _ & _ & Hg); destruct g; naive_solver|].
  split; [intros ** k' Hk; apply derive_key_spec in Hk as [Hk _]; exact Hk|].
  split; [intros ** k' Hk; apply unwrap_key_spec in Hk as [Hk _]; exact Hk|]. split; [done|].
  intros Hx. assert (Hexp : forall f, gives (fun _ => False) (export_key f k)).
  { intros f. unfold export_key. destruct (not_extractable (algorithm k)); [apply gives_throw|]. destruct Hx as [-> |]; [apply gives_throw|discriminate]. }
  split; intros.
  - unfold subtle_export_key. apply gives_then. intros. apply Hexp.
  - unfold subtle_wrap_key. apply gives_then. intros f' _. apply (after_check False); [apply Hexp|done].
Qed.
End Keys.

(** ** A provider *)

(** A counter is a block. *)
Definition toy_iv (m : AesMode) (iv : list Z) : bool := match m with ModeCtr _ => (length iv =? 16)%nat | _ => true end.

#[local] Instance toy : Provider := {|
  pkcs8_info := fun _ => None;
  spki_info := fun _ => None;
  octet_string := fun _ => None;
  octet_strings := fun _ => None;
  make_pkcs8 := fun _ _ _ => None;
  ed25519_public := fun _ => [];
  x25519_public := fun _ => [];
  import_rsa_jwk := fun _ => Err OperationFailed;
  import_rsa_public_key_pkcs1 := fun _ => Err OperationFailed;
  import_rsa_private_key_pkcs8 := fun _ => Err OperationFailed;
  import_rsa_public_key_spki := fun _ => Err OperationFailed;
  import_ec_jwk := fun _ _ => Err OperationFailed;
  import_ec_public_key_sec1 := fun _ _ => Err OperationFailed;
  import_ec_public_key_spki := fun _ _ => Err OperationFailed;
  import_ec_private_key_pkcs8 := fun _ => Err OperationFailed;
  import_ml_dsa_public_key := fun _ _ _ => Err OperationFailed;
  import_ml_dsa_private_key := fun _ _ _ => Err OperationFailed;
  ml_dsa_public_key := fun _ _ => Err OperationFailed;
  import_ml_kem_public_key := fun _ _ _ => Err OperationFailed;
  import_ml_kem_private_key := fun _ _ _ => Err OperationFailed;
  ml_kem_public_key := fun _ _ => Err OperationFailed;
  import_hybrid_kem_public_key := fun _ _ => Err OperationFailed;
  import_hybrid_kem_private_key := fun _ _ => Err OperationFailed;
  hybrid_kem_public_key := fun _ _ => Err OperationFailed;
  generate_aes_key := fun l => Ok (replicate (Z.to_nat (l / 8)) 0);
  generate_hmac_key := fun _ _ => Err OperationFailed;
  random_byte_array := fun n => replicate n 0;
  generate_ec_key := fun _ => Ok ([1], [2]);
  generate_ed25519_key := Err OperationFailed;
  generate_x25519_key := Err OperationFailed;
  generate_ml_dsa_key := fun _ => Err OperationFailed;
  generate_ml_kem_key := fun _ => Err OperationFailed;
  generate_hybrid_kem_key := fun _ => Err OperationFailed;
  generate_rsa_key := fun _ _ => Err OperationFailed;
  export_ec_public_key_sec1 := fun _ _ _ => Err OperationFailed;
  export_ec_public_key_spki := fun _ _ => Err OperationFailed;
  export_ec_private_key_pkcs8 := fun _ _ => Err OperationFailed;
  export_ec_jwk := fun _ _ _ => Err OperationFailed;
  export_okp_public_key_raw := fun _ _ => Err OperationFailed;
  export_okp_public_key_spki := fun _ _ => Err OperationFailed;
  export_okp_private_key_pkcs8 := fun _ _ => Err OperationFailed;
  export_okp_jwk := fun _ _ _ => Err OperationFailed;
  export_rsa_public_key_spki := fun _ => Err OperationFailed;
  export_rsa_private_key_pkcs8 := fun _ => Err OperationFailed;
  export_rsa_jwk := fun _ _ => Err OperationFailed;
  export_ml_dsa_public_key_spki := fun _ _ => Err OperationFailed;
  export_ml_dsa_private_key_pkcs8 := fun _ _ => Err OperationFailed;
  export_ml_kem_public_key_spki := fun _ _ => Err OperationFailed;
  export_ml_kem_private_key_pkcs8 := fun _ _ => Err OperationFailed;
  digest := fun _ _ => [];
  hmac := fun _ key data => key ++ data;
  ecdsa_sign := fun _ _ _ => Err OperationFailed;
  ecdsa_verify := fun _ _ _ _ => Err OperationFailed;
  ed25519_sign := fun _ _ => Err OperationFailed;
  ed25519_verify := fun _ _ _ => Err OperationFailed;
  rsa_pss_sign := fun _ _ _ _ => Err OperationFailed;
  rsa_pss_verify := fun _ _ _ _ _ => Err OperationFailed;
  rsa_pkcs1v15_sign := fun _ _ _ => Err OperationFailed;
  rsa_pkcs1v15_verify := fun _ _ _ _ => Err OperationFailed;
  ml_dsa_sign := fun _ _ _ _ => Err OperationFailed;
  ml_dsa_verify := fun _ _ _ _ _ => Err OperationFailed;
  rsa_oaep_encrypt := fun _ _ _ _ => Err OperationFailed;
  rsa_oaep_decrypt := fun _ _ _ _ => Err OperationFailed;
  aes_encrypt := fun m _ iv data _ => if toy_iv m iv then Ok (data ++ match m with ModeGcm t => replicate (Z.to_nat (t / 8)) 0 | _ => [] end) else Err InvalidLength;
  aes_decrypt := fun m _ iv data _ => if toy_iv m iv then Ok (match m with ModeGcm t => take (length data - Z.to_nat (t / 8)) data | _ => data end) else Err InvalidLength;
  aes_kw_wrap := fun _ data => Ok data;
  aes_kw_unwrap := fun _ data => Ok data;
  chacha20_poly1305_encrypt := fun _ _ data _ => Ok data;
  chacha20_poly1305_decrypt := fun _ _ data _ => Ok data;
  ecdh_derive_bits := fun _ _ _ => Err OperationFailed;
  x25519_derive_bits := fun _ _ => Err OperationFailed;
  hkdf_derive_key := fun _ _ _ _ _ => Err OperationFailed;
  pbkdf2_derive_key := fun _ _ _ _ _ => Err OperationFailed;
  ml_kem_encapsulate := fun _ _ => Err OperationFailed;
  ml_kem_decapsulate := fun _ _ _ => Err OperationFailed;
  hybrid_kem_encapsulate := fun _ _ => Err OperationFailed;
  hybrid_kem_decapsulate := fun _ _ _ => Err OperationFailed;
|}.

#[local] Instance toy_laws : ProviderLaws.
Proof.
  split; cbn.
  - intros m key iv data ad c. destruct (toy_iv m iv); [|discriminate]. intros [= <-]. destruct m as [l| |t]; rewrite ?app_nil_r; try done. f_equal.
    rewrite length_app, length_replicate. replace (_ + _ - _)%nat with (length data) by lia. apply take_app_length.
  - intros t key iv data ad c [= <-]. rewrite length_app, length_replicate. lia.
  - intros key iv data ad c [= <-]. done.
  - intros key data c [= <-]. done.
Qed.

Definition secret_bytes : list Z := replicate 16 7.

Definition usage_list (us : list string) : usage_array := (fun u => Ok (str u)) <$> us.

Definition import_raw (name : string) (data : list Z) (us : list string) : crypto CryptoKey :=
  subtle_import_key (js_text (str "raw")) (js_buffer data) (js_text (str name)) true (usage_list us).

(** A key, imported with its usages in another order and twice. *)
Definition gcm_key : CryptoKey :=
  mkKey Secret true (Aes 128 Gcm) (str "AES-GCM") [str "encrypt"; str "wrapKey"; str "unwrapKey"] secret_bytes.

Definition gcm_usages : list string := ["unwrapKey"; "encrypt"; "wrapKey"; "encrypt"]%string.

Example gcm_key_imported : import_raw "AES-GCM" secret_bytes gcm_usages = Fine gcm_key.
Proof. vm_compute. reflexivity. Qed.

Lemma secret_bytes_ok : Forall byte_ok secret_bytes.
Proof. apply Forall_replicate. unfold byte_ok. lia. Qed.

Lemma secret_key_roundtrip_witness :
  (exists fs, subtle_export_key (js_text (str "jwk")) gcm_key = Fine (Object fs) ∧
              subtle_import_key (js_text (str "jwk")) (js_dict (jwk_dict fs)) (js_text (str "AES-GCM")) true (usage_list gcm_usages) = Fine gcm_key) ∧
  subtle_export_key (js_text (str "raw-secret")) gcm_key = Fine (Bytes secret_bytes) ∧
  subtle_import_key (js_text (str "raw-secret")) (js_buffer secret_bytes) (js_text (str "AES-GCM")) true (usage_list gcm_usages) = Fine gcm_key.
Proof.
  apply (secret_key_roundtrip (js_text (str "raw")) (js_buffer secret_bytes) (js_text (str "AES-GCM")) (usage_list gcm_usages) gcm_key);
    [exact gcm_key_imported|reflexivity|exact secret_bytes_ok].
Defined.

(** The key, wrapped by itself, with a tag of 96 bits. *)
Definition gcm : EncryptionAlgorithm := EAesGcm (replicate 12 0) 96 None.

Lemma wrapped_key_roundtrip_witness :
  subtle_unwrap_key (fun _ => Err FromJs) (js_text (str "raw-secret")) (js_buffer (secret_bytes ++ replicate 12 0)) gcm_key gcm
    (js_text (str "AES-GCM")) true (usage_list gcm_usages) = Fine gcm_key.
Proof.
  apply (wrapped_key_roundtrip (fun _ => []) (fun _ => []) (fun _ => Err FromJs) 0 (js_text (str "raw")) (js_buffer secret_bytes) (js_text (str "AES-GCM"))
    (usage_list gcm_usages) gcm_key gcm_key gcm);
    [exact gcm_key_imported|reflexivity|discriminate|discriminate|right; right; left|vm_compute; reflexivity].
Defined.

Lemma gcm_key_reachable : reachable (fun _ => Err FromJs) gcm_key.
Proof. apply (reach_import _ (js_text (str "raw")) (js_buffer secret_bytes) (js_text (str "AES-GCM")) true (usage_list gcm_usages)). exact gcm_key_imported. Qed.

(** The key can encrypt, and may. *)
Lemma operations_authorized_witness : may gcm_key Encrypt.
Proof.
  destruct (operations_authorized (fun _ => []) (fun _ => []) (fun _ => Err FromJs) 0 gcm_key gcm_key_reachable) as (_ & _ & Hencrypt & _).
  apply (Hencrypt (js_dict (fun k => Ok (if bool_decide (k = str "name") then js_text (str "AES-GCM")
    else if bool_decide (k = str "iv") then js_buffer (replicate 12 0) else js_undef))) (Ok [1; 2]) ([1; 2] ++ replicate 16 0)).
  vm_compute. reflexivity.
Defined.

(** ** What is not as it should be *)

(** The length of the data is cut to 16 bits: 8208 bytes are an AES key of 128 bits. *)
Example long_aes_key_imported :
  exists k, import_raw "AES-GCM" (replicate (Z.to_nat 8208) 0) ["encrypt"%string] = Fine k ∧ algorithm k = Aes 128 Gcm ∧ Z.of_nat (length (handle k)) = 8208.
Proof. eexists. split_and!; vm_compute; reflexivity. Qed.

Definition import_oct (alg k : string) : crypto CryptoKey :=
  subtle_import_key (js_text (str "jwk"))
    (js_dict (jwk_dict [(str "kty", FString (str "oct")); (str "alg", FString (str alg)); (str "k", FString (str k))]))
    (js_text (str "AES-GCM")) true (usage_list ["encrypt"%string]).

(** A short [alg] panics. *)
Example short_alg_panics : import_oct "" "BwcHBwcHBwcHBwcHBwcHBw" = Panic ∧ import_oct "A1" "BwcHBwcHBwcHBwcHBwcHBw" = Panic.
Proof. split; vm_compute; reflexivity. Qed.

(** The length in [alg] is not compared, nor is a missing name. *)
Example alg_length_ignored :
  exists k, import_oct "A256GCM" "BwcHBwcHBwcHBwcHBwcHBw" = Fine k ∧ algorithm k = Aes 128 Gcm ∧ import_oct "Axyz" "BwcHBwcHBwcHBwcHBwcHBw" = Fine k.
Proof. eexists. split_and!; vm_compute; reflexivity. Qed.

(** A key for AES-GCM wraps with AES-KW, and a key of nine bytes comes back with
    sixteen. *)
Example kw_pads_keys :
  exists k, subtle_unwrap_key (fun _ => Err FromJs) (js_text (str "raw")) (js_buffer (replicate 9 7 ++ replicate 7 0)) gcm_key EAesKw
    (js_dict (fun k => Ok (if bool_decide (k = str "name") then js_text (str "HMAC") else if bool_decide (k = str "hash") then js_text (str "SHA-1") else js_undef)))
    true (usage_list ["sign"%string]) = Fine k ∧ handle k = replicate 9 7 ++ replicate 7 0 ∧
  subtle_wrap_key (fun _ => []) (fun _ => []) 0 (js_text (str "raw")) (mkKey Secret true (Hmac Sha1 72) (str "HMAC") [str "sign"] (replicate 9 7)) gcm_key EAesKw
    = Fine (handle k).
Proof. eexists. split_and!; vm_compute; reflexivity. Qed.

(** A pair for signatures that may only verify: its private key has no usage. *)
Example useless_private_key :
  exists sk pk, subtle_generate_key (js_dict (fun k => Ok (if bool_decide (k = str "name") then js_text (str "ECDSA") else js_text (str "P-256"))))
    (Some true) (usage_list ["verify"%string]) = Fine (KeyPair sk pk) ∧ usages sk = [].
Proof. eexists _, _. split_and!; vm_compute; reflexivity. Qed.
