(* ===== verification/CryptoSupports.v ===== *)
(** * Digests, and what is supported (src/modules/llrt_crypto/src/subtle/digest.rs
      and supports.rs)

    [SubtleCrypto.supports] runs the checks of an operation without a key.  The
    crates that compute SHA-3, cSHAKE and Keccak are the class [Xof]. *)
From Stdlib Require Import ZArith Lia SpecFloat.
From stdpp Require Import base list numbers strings sets.
From S2P Require Import Prelude F64 Utf8 Js RustStr Encoding Rfc4648 JsonStringify CryptoKeys CryptoImport CryptoOps CryptoExport CryptoCorrect.
Local Open Scope Z_scope.

(** ** Digests *)

Inductive DigestAlgorithmName : Type :=
| NFixed (hash : HashAlgorithm) | NSha3_256 | NSha3_384 | NSha3_512 | NCShake (strength : Z) | NTurboShake (strength : Z).

Definition digest_name_from (name : list Z) : option DigestAlgorithmName :=
  let name := to_ascii_uppercase <$> name in
  if bool_decide (name = str "CSHAKE128") then Some (NCShake 128)
  else if bool_decide (name = str "CSHAKE256") then Some (NCShake 256)
  else if bool_decide (name = str "TURBOSHAKE128") then Some (NTurboShake 128)
  else if bool_decide (name = str "TURBOSHAKE256") then Some (NTurboShake 256)
  else if bool_decide (name = str "SHA3-256") then Some NSha3_256
  else if bool_decide (name = str "SHA3-384") then Some NSha3_384
  else if bool_decide (name = str "SHA3-512") then Some NSha3_512
  else NFixed <$> from_strict_str name.

Inductive DigestAlgorithm : Type :=
| Fixed (hash : HashAlgorithm) | Sha3_256 | Sha3_384 | Sha3_512
| CShake (strength output_length : Z) (function_name customization : list Z)
| TurboShake (strength output_length domain_separation : Z).

Definition optional_bytes (o : dict) (k : string) : crypto (list Z) :=
  let% value := engine (o (str k)) in
  if js_undefined value then Fine []
  else if js_null value then Throw ATypeError
  else engine (js_bytes value).

(** [prepare_digest], without the copy of the data. *)
Definition prepare_digest (value : js) : crypto DigestAlgorithm :=
  let% (name, object) := to_name_and_maybe_object value in
  let% name := or_throw (Dom NotSupportedError) (digest_name_from name) in
  match name with
  | NCShake strength =>
      let% o := object in
      let% value := get_required_dictionary_value o (str "outputLength") in
      let% output_length := enforce_range_u32 value in
      let% _ := guard ((output_length + 7) / 8 * 8 <=? 2 ^ 32 - 1) (Dom OperationError) in
      let% function_name := optional_bytes o "functionName" in
      let% customization := optional_bytes o "customization" in
      Fine (CShake strength output_length function_name customization)
  | NTurboShake strength =>
      let% o := object in
      let% value := get_required_dictionary_value o (str "outputLength") in
      let% output_length := enforce_range_u32 value in
      let% _ := guard (negb ((output_length =? 0) || negb (output_length mod 8 =? 0))) (Dom OperationError) in
      let% value := get_optional_dictionary_value o (str "domainSeparation") in
      let% domain_separation := match value with Some value => enforce_range_u8 value | None => Fine 0x1f end in
      let% _ := guard (in_range 1 0x7f domain_separation) (Dom OperationError) in
      Fine (TurboShake strength output_length domain_separation)
  | NSha3_256 => Fine Sha3_256
  | NSha3_384 => Fine Sha3_384
  | NSha3_512 => Fine Sha3_512
  | NFixed hash => Fine (Fixed hash)
  end.

(** The crates: SHA-3 with its output length in bits; cSHAKE with its strength,
    names, data and output length in bytes; a Keccak sponge with 12 rounds and its
    rate, which absorbs data into the state and leaves a position, and squeezes.
    [allocates] says for which lengths there is memory. *)
Class Xof := {
  sha3 : Z -> list Z -> list Z;
  cshake : Z -> list Z -> list Z -> list Z -> nat -> list Z;
  absorb : nat -> list Z -> list Z * nat;
  squeeze : nat -> list Z -> nat -> list Z;
  allocates : nat -> bool;
}.

Section Digest.
Context `{Provider} `{Xof}.

Definition allocate_digest_output (l : nat) : crypto unit := guard (allocates l) (Dom OperationError).

Definition cshake_digest (strength output_length : Z) (function_name customization input : list Z) : crypto (list Z) :=
  let l := Z.to_nat ((output_length + 7) / 8) in
  let% _ := allocate_digest_output l in
  if (l =? 0)%nat then Fine []
  else
    let output := cshake strength function_name customization input l in
    if negb (output_length mod 8 =? 0) then
      match last output with
      | Some b => Fine (<[(length output - 1)%nat := Z.land b (last_mask (output_length mod 8))]> output)
      | None => Panic
      end
    else Fine output.

(** [state[i] ^= x], in 64 bits. *)
Definition xor_at (i : nat) (x : Z) (state : list Z) : crypto (list Z) :=
  match state !! i with Some w => Fine (<[i := Z.lxor w (wrap 64 x)]> state) | None => Panic end.

Definition turbo_shake (rate : nat) (domain : Z) (input : list Z) (l : nat) : crypto (list Z) :=
  let '(state, position) := absorb rate input in
  let% state := xor_at (position / 8) (Z.shiftl domain (8 * Z.of_nat (position mod 8))) state in
  let% state := xor_at (rate / 8 - 1) (Z.shiftl 1 63) state in
  let% _ := allocate_digest_output l in
  Fine (squeeze rate state l).

Definition turbo_shake_digest (strength output_length domain_separation : Z) (input : list Z) : crypto (list Z) :=
  turbo_shake (if strength =? 128 then 168%nat else 136%nat) domain_separation input (Z.to_nat (output_length / 8)).

Definition subtle_digest (value : js) (data : result js_error (list Z)) : crypto (list Z) :=
  let% a := prepare_digest value in
  let input := bytes_or_empty data in
  match a with
  | Fixed hash => Fine (digest hash input)
  | Sha3_256 => Fine (sha3 256 input)
  | Sha3_384 => Fine (sha3 384 input)
  | Sha3_512 => Fine (sha3 512 input)
  | CShake strength output_length function_name customization => cshake_digest strength output_length function_name customization input
  | TurboShake strength output_length domain_separation => turbo_shake_digest strength output_length domain_separation input
  end.
End Digest.

(** ** What is supported *)

Inductive SupportsAdditional : Type := Length (l : option Z) | Algorithm (v : js).

Definition additional_length (a : SupportsAdditional) : option Z := match a with Length l => l | Algorithm _ => None end.

Definition supports_additional (value : option js) : crypto SupportsAdditional :=
  match value with
  | None => Fine (Length None)
  | Some value =>
      if js_null value || js_undefined value then Fine (Length None)
      else if js_is_string value || bool_decide (is_Some (js_object value)) then Fine (Algorithm value)
      else
        let% l := enforce_range_u32 value in
        Fine (Length (Some l))
  end.

Definition algorithm_name (v : js) : crypto (list Z) :=
  let% (name, _) := to_name_and_maybe_object v in
  Fine (normalize_algorithm_name name).

(** A string is only read as a name. *)
Definition webidl_algorithm_identifier (v : js) : crypto js :=
  match js_object v with
  | Some _ => Fine v
  | None =>
      let% s := engine (js_coerced v) in
      Fine (js_text s)
  end.

(** The least modulus depends on the provider: 512 or 1024. *)
Definition provider_supports_generate_key (least : Z) (a : KeyAlgorithm) : bool :=
  match a with Rsa modulus_length _ _ => least <=? modulus_length | _ => true end.

Definition valid_parameters (a : EncryptionAlgorithm) : bool :=
  match a with
  | EAesCtr counter _ => (length counter =? 16)%nat
  | EAesGcm iv _ _ => (length iv =? 12)%nat
  | EChaCha20Poly1305 iv tag_length _ => (length iv =? 12)%nat && (tag_length =? 128)
  | EAesKw => false
  | _ => true
  end.

Definition supports_export_key (v : js) : crypto bool :=
  let% name := algorithm_name v in
  Fine (bool_decide (is_Some (synthetic_key_usage name)) && negb (bool_decide (name = str "HKDF") || bool_decide (name = str "PBKDF2"))).

Definition supports_encrypt (v : js) : crypto bool :=
  let% a := encryption_from_js v in
  Fine (valid_parameters a).

Definition supports_sign (v : js) : crypto bool :=
  let% _ := signing_from_js v in
  Fine true.

Definition supports_derive_bits_with_length (v : js) (l : option Z) : crypto bool :=
  let% a := derive_from_js v in
  Fine (match a with
        | DX25519 _ => match l with None => true | Some l => l <=? 256 end
        | DEcdh curve ec _ =>
            if negb (bool_decide (ec = Ecdh)) then false
            else match l with None => true | Some l => l <=? maximum_ecdh_length curve end
        | DDerive (Hkdf hash _ _) => match l with Some l => (l mod 8 =? 0) && (l <=? digest_len hash * 8 * 255) | None => false end
        | DDerive (Pbkdf2 _ _ iterations) => negb (iterations =? 0) && match l with Some l => l mod 8 =? 0 | None => false end
        end).

Definition supports_get_public_key_name (name : list Z) : bool :=
  bool_decide (is_Some (ml_dsa_from name)) || bool_decide (is_Some (ml_kem_from name)) || bool_decide (is_Some (hybrid_kem_from name)) ||
  bool_decide (name ∈ str <$> ["ECDH"; "ECDSA"; "Ed25519"; "X25519"; "RSA-OAEP"; "RSA-PSS"; "RSASSA-PKCS1-v1_5"]%string).

Definition shared_key_length (a : EncapsulationAlgorithm) : nat := 32.

Section Supports.
Context `{Codecs} `{Provider} (least : Z).

Definition normalize_key_algorithm_with_synthetic_usage (m : mode) (v : js) : crypto KeyAlgorithmWithUsages :=
  let% name := algorithm_name v in
  let% usage := or_throw (Dom NotSupportedError) (synthetic_key_usage name) in
  from_js m v [Ok usage].

Definition supports_generate_key (v : js) : crypto bool :=
  let% n := normalize_key_algorithm_with_synthetic_usage Generate v in
  Fine (provider_supports_generate_key least (n_algorithm n)).

Definition supports_import_key (v : js) : crypto bool :=
  let% _ := normalize_key_algorithm_with_synthetic_usage ValidateImport v in
  Fine true.

Definition supports_wrap (v : js) (additional : SupportsAdditional) (unwrap : bool) : crypto bool :=
  let% additional_supported :=
    match additional with
    | Algorithm additional => if unwrap then supports_import_key additional else supports_export_key additional
    | Length _ => Fine true
    end in
  if negb additional_supported then Fine false
  else
    let directly_supported := match algorithm_name v with Fine name => bool_decide (name = str "AES-KW") | _ => false end in
    if directly_supported then Fine true
    else
      let% a := encryption_from_js v in
      Fine (valid_parameters a).

Definition supports_derive_key (v : js) (additional : SupportsAdditional) : crypto bool :=
  match additional with
  | Length _ =>
      let% _ := algorithm_name v in
      Fine false
  | Algorithm target =>
      let% supported := supports_import_key target in
      if negb supported then Fine false
      else
        let% n := from_js DeriveMode target [] in
        match n_algorithm n with
        | Aes l _ => supports_derive_bits_with_length v (Some l)
        | ChaCha20Poly1305 => supports_derive_bits_with_length v (Some 256)
        | Hmac _ l => supports_derive_bits_with_length v (Some l)
        | HkdfImport | Pbkdf2Import => supports_derive_bits_with_length v None
        | _ => Fine false
        end
  end.

(** A key that was not imported stays public. *)
Definition supports_shared_key (v : js) (l : nat) : crypto bool :=
  let% name := algorithm_name v in
  let% usage := or_throw (Dom NotSupportedError) (synthetic_key_usage name) in
  let% n := from_js (Import (ByteData RawSecret (Ok (replicate l 0)))) v [Ok usage] in
  Fine (bool_decide ((default (Public, []) (n_imported n)).1 = Secret)).

Definition supports_inner (operation : list Z) (v : js) (additional : SupportsAdditional) : crypto bool :=
  if bool_decide (operation = str "generateKey") then supports_generate_key v
  else if bool_decide (operation = str "importKey") then supports_import_key v
  else if bool_decide (operation = str "exportKey") then supports_export_key v
  else if bool_decide (operation = str "sign") || bool_decide (operation = str "verify") then supports_sign v
  else if bool_decide (operation = str "encrypt") || bool_decide (operation = str "decrypt") then supports_encrypt v
  else if bool_decide (operation = str "wrapKey") then supports_wrap v additional false
  else if bool_decide (operation = str "unwrapKey") then supports_wrap v additional true
  else if bool_decide (operation = str "deriveBits") then supports_derive_bits_with_length v (additional_length additional)
  else if bool_decide (operation = str "deriveKey") then supports_derive_key v additional
  else if bool_decide (operation = str "digest") then
    let% _ := prepare_digest v in
    Fine true
  else if bool_decide (operation = str "encapsulateKey") || bool_decide (operation = str "decapsulateKey") then
    let% a := normalize_encapsulation_algorithm v in
    match additional with
    | Algorithm shared =>
        let% supported := supports_shared_key shared (shared_key_length a) in
        if negb supported then Fine false
        else
          let% _ := normalize_encapsulation_algorithm v in
          Fine true
    | Length _ => Fine true
    end
  else if bool_decide (operation = str "encapsulateBits") || bool_decide (operation = str "decapsulateBits") then
    let% _ := normalize_encapsulation_algorithm v in
    Fine true
  else if bool_decide (operation = str "getPublicKey") then
    let% name := algorithm_name v in
    Fine (supports_get_public_key_name name)
  else Fine false.

Definition subtle_supports (operation : list Z) (v : js) (additional : option js) : crypto bool :=
  let% v := webidl_algorithm_identifier v in
  let% additional := supports_additional additional in
  match supports_inner operation v additional with
  | Throw _ => Fine false
  | r => r
  end.
End Supports.

(** ** The bits of derived data and digests *)

(** Bit [i] of some bytes, from the high bit of the first byte. *)
Definition bit (bs : list Z) (i : nat) : bool := Z.testbit (default 0 (bs !! (i / 8)%nat)) (7 - Z.of_nat (i mod 8)).

(** [out] is the first [l] bits of [bs], filled up with zeros. *)
Definition first_bits (l : Z) (bs out : list Z) : Prop :=
  Z.of_nat (length out) = (l + 7) / 8 ∧ forall i, (i < 8 * length out)%nat -> bit out i = (Z.of_nat i <? l) && bit bs i.

Lemma last_mask_bit r j : 0 < r < 8 -> 0 <= j < 8 -> Z.testbit (last_mask r) (7 - j) = (j <? r).
Proof.
  intros Hr Hj. unfold last_mask. rewrite Z.land_spec, Z.shiftl_spec by lia.
  change 255 with (Z.ones 8). rewrite (Z.testbit_ones_nonneg 8 (7 - j)) by lia. rewrite (proj2 (Z.ltb_lt (7 - j) 8)) by lia. rewrite andb_true_r.
  destruct (Z.ltb_spec j r).
  - rewrite Z.testbit_ones_nonneg by lia. lia.
  - rewrite Z.testbit_neg_r by lia. done.
Qed.

(** The cut that derivations and cSHAKE make. *)
Definition mask_last (r : Z) (bs : list Z) : list Z :=
  if negb (r =? 0) then match last bs with Some b => <[(length bs - 1)%nat := Z.land b (last_mask r)]> bs | None => bs end else bs.

Lemma masked_first_bits l bs : 0 <= l -> (l + 7) / 8 <= Z.of_nat (length bs) -> first_bits l bs (mask_last (l mod 8) (take (Z.to_nat ((l + 7) / 8)) bs)).
Proof.
  intros Hl Hlen. set (n := Z.to_nat ((l + 7) / 8)). set (out := take n bs). assert (Hout : length out = n) by (unfold out; rewrite length_take; lia).
  assert (Hn : Z.of_nat n = (l + 7) / 8) by (unfold n; apply Z2Nat.id, Z.div_pos; lia).
  assert (Hbit : forall i, (i < 8 * n)%nat -> bit out i = bit bs i).
  { intros i Hi. unfold bit, out. rewrite lookup_take_lt; [done|]. apply Nat.Div0.div_lt_upper_bound. lia. }
  unfold mask_last. destruct (Z.eqb_spec (l mod 8) 0) as [Hr|Hr]; cbn [negb].
  - split; [lia|]. intros i Hi. rewrite Hbit by lia. rewrite (proj2 (Z.ltb_lt _ _)); [done|]. pose proof (Z.div_mod l 8 ltac:(done)). assert ((l + 7) / 8 = l / 8); [|lia].
    symmetry. apply (Z.div_unique _ _ _ 7); lia.
  - assert (Hr' : 0 < l mod 8 < 8) by (pose proof (Z.mod_pos_bound l 8); lia).
    assert (Hq : (l + 7) / 8 = l / 8 + 1) by (symmetry; apply (Z.div_unique _ _ _ (l mod 8 - 1)); pose proof (Z.div_mod l 8); lia).
    destruct (last out) as [b|] eqn:Hb.
    2:{ apply last_None in Hb. rewrite Hb in Hout. cbn in Hout. pose proof (Z.div_pos l 8). lia. }
    rewrite last_lookup, Hout in Hb. replace (pred n) with (n - 1)%nat in Hb by lia. rewrite Hout. split; [rewrite length_insert; lia|].
    intros i Hi. rewrite length_insert, Hout in Hi. pose proof (Nat.mod_upper_bound i 8 ltac:(done)). rewrite <- Hbit by lia. unfold bit at 1 2.
    destruct (decide (i / 8 = n - 1)%nat) as [Hd|Hd].
    + rewrite Hd. rewrite list_lookup_insert_eq by lia. rewrite Hb. cbn [default id]. rewrite Z.land_spec, last_mask_bit by lia. rewrite andb_comm. f_equal.
      pose proof (Nat.div_mod_eq i 8). pose proof (Z.div_mod l 8 ltac:(done)). apply eq_iff_eq_true. rewrite !Z.ltb_lt. lia.
    + rewrite list_lookup_insert_ne by lia. rewrite (proj2 (Z.ltb_lt (Z.of_nat i) l)); [done|].
      assert (i / 8 < n)%nat by (apply Nat.Div0.div_lt_upper_bound; lia). pose proof (Nat.div_mod_eq i 8). pose proof (Z.div_mod l 8 ltac:(done)). lia.
Qed.

Lemma enforce_range_bounds v b : gives (fun z => 0 <= z <= b) (enforce_range_unsigned v b).
Proof.
  unfold enforce_range_unsigned. apply gives_then. intros x _. destruct (_ || _); [apply gives_throw|]. destruct (_ || _) eqn:Hb; [apply gives_throw|].
  apply gives_fine. lia.
Qed.

Lemma truncate_first_bits bs l : 0 <= l -> gives (first_bits l bs) (truncate_derived_bits bs l).
Proof.
  intros Hl out. unfold truncate_derived_bits. destruct (Z.ltb_spec (wrap 32 (Z.of_nat (length bs) * 8)) l) as [|Hw]; [discriminate|].
  assert (Hlen : (l + 7) / 8 <= Z.of_nat (length bs)).
  { assert (wrap 32 (Z.of_nat (length bs) * 8) <= Z.of_nat (length bs) * 8) by (apply Z.mod_le; lia).
    assert (8 * ((l + 7) / 8) <= l + 7) by (apply Z.mul_div_le; lia). lia. }
  pose proof (masked_first_bits l bs Hl Hlen) as Hm. unfold mask_last in Hm. destruct (negb _); [|intros [= <-]; exact Hm].
  destruct (last _); intros [= <-]; exact Hm.
Qed.

(** An extendable output has the length that is asked for, and a sponge has 25
    words and a position within its rate. *)
Class XofLaws `{Xof} : Prop := {
  cshake_length : forall strength f c input n, length (cshake strength f c input n) = n;
  absorb_state : forall rate input, rate ∈ [168; 136]%nat -> length (absorb rate input).1 = 25%nat ∧ ((absorb rate input).2 < rate)%nat;
}.

Section Exact.
Context `{Codecs} `{Provider} `{!Xof} `{!XofLaws}.

Definition derived_from (a : DeriveAlgorithm) (k : CryptoKey) (l : option Z) (out : list Z) : Prop :=
  match a with
  | DX25519 public_key => exists secret, x25519_derive_bits (handle k) public_key = Ok secret ∧ first_bits (default 256 l) secret out
  | DEcdh curve _ public_key =>
      exists secret, ecdh_derive_bits curve (handle k) public_key = Ok secret ∧ first_bits (default (maximum_ecdh_length curve) l) secret out
  | DDerive (Hkdf hash salt info) => exists n, l = Some (8 * n) ∧ n <= 255 * digest_len hash ∧ hkdf_derive_key (handle k) salt info n hash = Ok out
  | DDerive (Pbkdf2 hash salt iterations) => exists n, l = Some (8 * n) ∧ 0 < iterations ∧ pbkdf2_derive_key (handle k) salt iterations n hash = Ok out
  end.

Lemma whole_bytes_spec l : gives (fun n => l = Some n ∧ n = 8 * (n / 8)) (whole_bytes l).
Proof.
  unfold whole_bytes. destruct l as [l|]; [|apply gives_throw]. destruct (Z.eqb_spec (l mod 8) 0); [|apply gives_throw]. apply gives_fine. split; [done|].
  pose proof (Z.div_mod l 8). lia.
Qed.

Lemma derive_bits_spec a k l : (forall n, l = Some n -> 0 <= n) -> (forall h s i, a = DDerive (Pbkdf2 h s i) -> 0 <= i) ->
  gives (derived_from a k l) (derive_bits a k l).
Proof.
  intros Hl Hi. unfold derive_bits. destruct a as [pk|curve ec pk|[hash salt info|hash salt iterations]].
  - destruct (algorithm k); try apply gives_throw. apply gives_then. intros n Hn. apply gives_then. intros secret Hs out Ho.
    destruct (x25519_derive_bits _ _) as [s|] eqn:Hx; [|discriminate]. injection Hs as ->. exists secret. split; [done|].
    assert (n = default 256 l ∧ 0 <= n) as [<- Hn0].
    { destruct l as [l|]; [|injection Hn as <-; done]. destruct (l <=? 256); [|discriminate]. injection Hn as <-. split; [done|]. apply Hl. done. }
    apply (truncate_first_bits _ _ Hn0 _ Ho).
  - destruct (negb _); [apply gives_throw|]. destruct (algorithm k); try apply gives_throw. destruct (_ && _); [|apply gives_throw].
    apply gives_then. intros n Hn. apply gives_then. intros secret Hs out Ho.
    destruct (ecdh_derive_bits _ _ _) as [s|] eqn:Hx; [|discriminate]. injection Hs as ->. exists secret. split; [done|].
    assert (n = default (maximum_ecdh_length curve) l ∧ 0 <= n) as [<- Hn0].
    { unfold validate_ecdh_length in Hn. destruct l as [l|]; [|injection Hn as <-; destruct curve; done]. destruct (l <=? _); [|discriminate]. injection Hn as <-.
      split; [done|]. apply Hl. done. }
    apply (truncate_first_bits _ _ Hn0 _ Ho).
  - destruct (algorithm k); try apply gives_throw. apply gives_then. intros n Hn. unfold validate_hkdf_length in Hn.
    destruct (whole_bytes l) as [l'| |] eqn:Hw; try discriminate. cbn [and_then] in Hn. apply whole_bytes_spec in Hw as [-> Hw].
    destruct (guard _ _) as [[]| |] eqn:Hg; try discriminate. apply guard_true, Z.leb_le in Hg. injection Hn as <-.
    destruct (hkdf_derive_key _ _ _ _ _) eqn:Hd; [|apply gives_throw]. apply gives_fine. exists (l' / 8). split; [f_equal; lia|]. split; [lia|done].
  - destruct (algorithm k); try apply gives_throw. apply gives_then. intros [] Hg. apply guard_true, negb_true_iff, Z.eqb_neq in Hg.
    apply gives_then. intros l' Hw. apply whole_bytes_spec in Hw as [-> Hw]. destruct (pbkdf2_derive_key _ _ _ _ _) eqn:Hd; [|apply gives_throw].
    apply gives_fine. exists (l' / 8). split; [f_equal; lia|]. split; [|done]. specialize (Hi _ _ _ eq_refl). lia.
Qed.

Lemma derive_from_iterations v : gives (fun a => forall h s i, a = DDerive (Pbkdf2 h s i) -> 0 <= i) (derive_from_js v).
Proof.
  unfold derive_from_js. do 2 (apply gives_then; intros ? _).
  case_bool_decide; [do 2 (apply gives_then; intros ? _); destruct (algorithm _); try apply gives_throw; apply gives_fine; done|].
  case_bool_decide; [do 2 (apply gives_then; intros ? _); destruct (algorithm _); try apply gives_throw; apply gives_fine; done|].
  case_bool_decide; [apply gives_then; intros d Hd; apply gives_fine; intros h s i [= ->]; revert Hd; unfold for_hkdf_object|].
  { do 3 (match goal with |- and_then ?m _ = _ -> _ => destruct m; try discriminate; cbn [and_then] end). }
  case_bool_decide; [|apply gives_throw]. apply gives_then. intros d Hd. apply gives_fine. intros h s i [= ->]. revert Hd. unfold for_pbkf2_object.
  do 3 (match goal with |- and_then ?m _ = _ -> _ => destruct m; try discriminate; cbn [and_then] end).
  destruct (enforce_range_u32 _) as [n| |] eqn:Hn; try discriminate. intros [= <- <- <-]. apply enforce_range_bounds in Hn. lia.
Qed.

Lemma prepare_cshake v : gives (fun a => forall strength n f c, a = CShake strength n f c -> 0 <= n) (prepare_digest v).
Proof.
  unfold prepare_digest. apply gives_then. intros [name object] _. apply gives_then. intros nm _. destruct nm; try (apply gives_fine; intros; discriminate).
  - do 2 (apply gives_then; intros ? _). apply gives_then. intros n Hn. do 3 (apply gives_then; intros ? _). apply gives_fine. intros ? ? ? ? [= <- <- <- <-].
    apply enforce_range_bounds in Hn. lia.
  - do 7 (apply gives_then; intros ? _). apply gives_fine. intros ? ? ? ? [=].
Qed.

Lemma digest_first_bits v d : gives (fun out => forall strength n f c, prepare_digest v = Fine (CShake strength n f c) ->
  first_bits n (cshake strength f c (bytes_or_empty d) (Z.to_nat ((n + 7) / 8))) out) (subtle_digest v d).
Proof.
  unfold subtle_digest. apply gives_then. intros a Ha out Hout strength n f c Hp. rewrite Ha in Hp. injection Hp as ->.
  pose proof (prepare_cshake v _ Ha _ _ _ _ eq_refl) as Hn. revert Hout. cbn zeta beta iota. unfold cshake_digest. destruct (allocate_digest_output _) as [[]| |]; try discriminate.
  cbn [and_then]. set (bs := cshake _ _ _ _ _). assert (Hlen : length bs = Z.to_nat ((n + 7) / 8)) by apply cshake_length.
  assert (0 <= (n + 7) / 8) by (apply Z.div_pos; lia). pose proof (masked_first_bits n bs Hn ltac:(lia)) as Hm. rewrite take_ge in Hm by lia.
  destruct (Nat.eqb_spec (Z.to_nat ((n + 7) / 8)) 0) as [Hz|Hz].
  - intros [= <-]. split; [cbn; lia|]. intros i Hi. cbn in Hi. lia.
  - unfold mask_last in Hm. destruct (negb _); [|intros [= <-]; exact Hm]. destruct (last bs); [|discriminate]. intros [= <-]. exact Hm.
Qed.

(** A computation that does not panic. *)
Definition calm {A} (m : crypto A) : Prop := m <> Panic.

Lemma calm_bind {A B} (m : crypto A) (k : A -> crypto B) : calm m -> (forall a, m = Fine a -> calm (k a)) -> calm (and_then m k).
Proof. intros Hm Hk. destruct m; [apply Hk; done|discriminate|destruct (Hm eq_refl)]. Qed.

Lemma calm_engine {A} (r : result js_error A) : calm (engine r).
Proof. destruct r; discriminate. Qed.

Lemma calm_or_throw {A} e (o : option A) : calm (or_throw e o).
Proof. destruct o; discriminate. Qed.

Lemma calm_guard b e : calm (guard b e).
Proof. destruct b; discriminate. Qed.

Ltac calm_by known :=
  repeat first
    [ known | discriminate | apply calm_engine | apply calm_or_throw | apply calm_guard | apply calm_bind; [|intros ? _]
    | match goal with
      | |- calm (if ?b then _ else _) => destruct b
      | |- calm (match ?x with _ => _ end) => destruct x
      end ].

Ltac calm := calm_by fail.

Lemma calm_range v b : calm (enforce_range_unsigned v b).
Proof. unfold enforce_range_unsigned. calm. Qed.

Lemma calm_name v : calm (to_name_and_maybe_object v) ∧ gives (fun r => calm r.2) (to_name_and_maybe_object v).
Proof.
  unfold to_name_and_maybe_object, get_required, get_optional. split; [calm|]. destruct (js_is_string v).
  - apply gives_then. intros s _. apply gives_fine. discriminate.
  - destruct (js_object v); [|apply gives_throw]. apply gives_then. intros s _. apply gives_fine. discriminate.
Qed.

Lemma prepare_calm v : calm (prepare_digest v).
Proof.
  destruct (calm_name v) as [Hn Ho]. unfold prepare_digest, get_required_dictionary_value, get_optional_dictionary_value, optional_bytes. apply calm_bind; [done|].
  intros [name object] Hr. specialize (Ho _ Hr). cbn in Ho. calm_by ltac:(first [done | apply calm_range]).
Qed.

Lemma xor_calm i x st : (i < length st)%nat -> exists st', xor_at i x st = Fine st' ∧ length st' = length st.
Proof. intros Hi. unfold xor_at. destruct (lookup_lt_is_Some_2 st i Hi) as [w ->]. eexists. split; [done|]. apply length_insert. Qed.

Lemma digest_calm v d : calm (subtle_digest v d).
Proof.
  unfold subtle_digest. apply calm_bind; [apply prepare_calm|]. intros a _. destruct a; try discriminate.
  - unfold cshake_digest, allocate_digest_output. apply calm_bind; [apply calm_guard|]. intros _ _. destruct (Nat.eqb_spec (Z.to_nat ((output_length + 7) / 8)) 0) as [|Hz]; [discriminate|].
    destruct (negb _); [|discriminate]. destruct (last _) eqn:Hl; [discriminate|]. apply last_None in Hl. apply (f_equal length) in Hl. rewrite cshake_length in Hl. cbn in Hl. lia.
  - unfold turbo_shake_digest, turbo_shake. set (rate := if strength =? 128 then 168%nat else 136%nat). assert (Hr : rate ∈ [168; 136]%nat) by (unfold rate; destruct (strength =? 128); set_solver).
    pose proof (absorb_state rate (bytes_or_empty d) Hr) as [Hs Hp]. destruct (absorb rate _) as [st pos]. cbn in Hs, Hp.
    assert (Hle : (rate <= 168)%nat) by (set_unfold; lia). assert (pos / 8 < 21)%nat by (apply Nat.Div0.div_lt_upper_bound; lia).
    destruct (xor_calm (pos / 8) (domain_separation ≪ (8 * Z.of_nat (pos mod 8))) st) as (st1 & -> & Hl1); [lia|]. cbn [and_then].
    assert (rate / 8 <= 21)%nat by (apply Nat.Div0.div_le_upper_bound; lia).
    destruct (xor_calm (rate / 8 - 1) (Z.shiftl 1 63) st1) as (st2 & -> & Hl2); [lia|]. cbn [and_then]. unfold allocate_digest_output. calm.
Qed.

(** C23: what deriveBits returns is exact: for ECDH and X25519 the first bits of
    the shared secret, as many as were asked for (the whole secret when no length
    was given), filled up with zeros to whole bytes; for HKDF and PBKDF2 the
    provider is asked for that many bytes, a length that is no number of bytes,
    too long or missing is an error, as are no iterations.  A cSHAKE digest is the
    first bits of the output in the same way, and a digest never panics. *)
Theorem derived_bits_exact v :
  (forall k l, gives (fun out => exists a n, derive_from_js v = Fine a ∧ parse_derive_bits_length l = Fine n ∧ derived_from a k n out) (subtle_derive_bits v k l)) ∧
  (forall d, gives (fun out => forall strength n f c, prepare_digest v = Fine (CShake strength n f c) ->
      first_bits n (cshake strength f c (bytes_or_empty d) (Z.to_nat ((n + 7) / 8))) out) (subtle_digest v d)) ∧
  (forall d, calm (subtle_digest v d)).
Proof.
  split.
  - intros k l. unfold subtle_derive_bits. apply gives_then. intros a Ha. apply gives_then. intros _ _. apply gives_then. intros n Hn out Hout.
    exists a, n. split; [done|]. split; [done|]. revert out Hout. apply derive_bits_spec.
    + intros z ->. unfold parse_derive_bits_length in Hn. destruct l as [l|]; [|discriminate]. destruct (_ || _); [discriminate|].
      destruct (enforce_range_u32 l) eqn:He; try discriminate. injection Hn as ->. apply enforce_range_bounds in He. lia.
    + apply (derive_from_iterations v a Ha).
  - split; [intros d; apply digest_first_bits|intros d; apply digest_calm].
Qed.
End Exact.

(** ** Operations that succeed are supported *)

Definition KNOWN : list (list Z) :=
  str <$> ["Ed25519"; "X25519"; "AES-CBC"; "AES-CTR"; "AES-GCM"; "AES-KW"; "ECDH"; "ECDSA"; "HMAC"; "ChaCha20-Poly1305";
           "RSA-OAEP"; "RSA-PSS"; "RSASSA-PKCS1-v1_5"; "HKDF"; "PBKDF2"; "ML-DSA-44"; "ML-DSA-65"; "ML-DSA-87";
           "ML-KEM-512"; "ML-KEM-768"; "ML-KEM-1024"; "MLKEM768-P256"; "MLKEM768-X25519"; "MLKEM1024-P384"]%string.

Lemma try_from_text {A} (text : A -> list Z) l s v : try_from text l s = Some v -> s = text v ∧ v ∈ l.
Proof. unfold try_from. intros Hv. apply head_Some_elem_of, list_elem_of_filter in Hv as [<- Hv]. done. Qed.

Section Complete.
Context `{Codecs} `{Provider}.

Lemma from_name_known m obj name us c : from_name m obj name us = Fine c -> name ∈ KNOWN.
Proof.
  unfold from_name. case_bool_decide as E1; [intros _; subst; apply (bool_decide_unpack _); vm_compute; done|].
  case_bool_decide as E2; [intros _; subst; apply (bool_decide_unpack _); vm_compute; done|].
  case_bool_decide as E3.
  { intros _. destruct E3 as [a E3]. apply try_from_text in E3 as [-> _]. apply (bool_decide_unpack _). destruct a; vm_compute; done. }
  do 4 (case_bool_decide as E4; [intros _; subst; apply (bool_decide_unpack _); vm_compute; done|]; clear E4).
  case_bool_decide as E5.
  { intros _. unfold KNOWN. revert E5. cbn -[str]. set_solver. }
  do 2 (case_bool_decide as E4; [intros _; subst; apply (bool_decide_unpack _); vm_compute; done|]; clear E4).
  destruct (ml_dsa_from name) as [v|] eqn:Ev.
  { intros _. apply try_from_text in Ev as [-> _]. apply (bool_decide_unpack _). destruct v; vm_compute; done. }
  destruct (ml_kem_from name) as [v|] eqn:Ev2.
  { intros _. apply try_from_text in Ev2 as [-> _]. apply (bool_decide_unpack _). destruct v; vm_compute; done. }
  destruct (hybrid_kem_from name) as [v|] eqn:Ev3; [|discriminate].
  intros _. apply try_from_text in Ev3 as [-> _]. apply (bool_decide_unpack _). destruct v; vm_compute; done.
Qed.

(** Parameters that are valid once are valid without a key, with usages that are. *)

Lemma from_ec_valid m m' obj e us us' u c r : (m' = Generate ∨ m' = ValidateImport) -> classify_and_check_usages u us' None = Fine r ->
  from_ec m obj e us u = Fine c -> from_ec m' obj e us' u = Fine (c.1.1, r, None).
Proof.
  intros Hm Hr. unfold from_ec. destruct obj as [o| |]; try discriminate. cbn [and_then]. destruct (get_required js_string o _) as [cn| |]; try discriminate.
  cbn [and_then]. destruct (or_throw _ (curve_from cn)) as [curve| |]; try discriminate. cbn [and_then]. unfold with_import.
  match goal with |- and_then ?x _ = _ -> _ => destruct x as [key| |]; try discriminate end. cbn [and_then].
  destruct (classify_and_check_usages u us _); try discriminate. intros [= <-]. destruct Hm as [-> | ->]; cbn [and_then fmap option_fmap option_map]; rewrite Hr; done.
Qed.

Lemma from_hmac_valid m obj name us us' c r : classify_and_check_usages HmacUsage us' None = Fine r ->
  from_hmac m obj name us = Fine c -> exists c', from_hmac ValidateImport obj name us' = Fine c'.
Proof.
  intros Hr. unfold from_hmac. destruct obj as [o| |]; try discriminate. cbn [and_then]. destruct (extract_sha_hash o) as [hash| |]; try discriminate. cbn [and_then].
  destruct (guard (negb (bool_decide (hash = Md5))) _) as [[]| |]; try discriminate. cbn [and_then].
  destruct (get_optional_dictionary_value o _) as [value| |]; try discriminate. cbn [and_then].
  match goal with |- and_then ?x _ = _ -> _ => destruct x as [requested| |]; try discriminate end. cbn [and_then].
  destruct (guard (match requested with Some _ => _ | None => _ end) _) as [[]| |]; try discriminate. cbn [and_then].
  destruct (hmac_length m hash requested) as [l| |] eqn:Hl; try discriminate. intros _.
  assert (Hv : hmac_length ValidateImport hash requested = Fine (Some (default 8 requested))).
  { unfold hmac_length in *. case_bool_decide as E; [|done]. subst requested. destruct m; discriminate. }
  rewrite Hv. cbn [and_then or_throw is_generate orb andb negb guard]. cbn [fmap option_fmap option_map]. rewrite Hr. eexists. done.
Qed.

Lemma from_rsa_valid m obj name us us' c r :
  classify_and_check_usages (if bool_decide (name = str "RSA-OAEP") then RsaOaepUsage else SignUsage) us' None = Fine r ->
  from_rsa m obj name us = Fine c -> exists c', from_rsa ValidateImport obj name us' = Fine c'.
Proof.
  intros Hr. unfold from_rsa. destruct obj as [o| |]; try discriminate. cbn [and_then]. destruct (extract_sha_hash o) as [hash| |]; try discriminate. intros _.
  cbn [and_then is_generate andb]. cbn [fmap option_fmap option_map]. rewrite Hr. eexists. done.
Qed.

Lemma from_aes_generate obj name us us' a r r' key : aes_from name = Some a ->
  classify_and_check_usages (if bool_decide (a = Kw) then AesKw else Symmetric) us' None = Fine r' ->
  from_aes Generate obj name us = Fine (r, key) -> exists k, from_aes Generate obj name us' = Fine ((r.1, r'), k).
Proof.
  intros Ha Hr. unfold from_aes. match goal with |- and_then ?x _ = _ -> _ => destruct x as [[l key']| |] eqn:Hx; try discriminate end. cbn [and_then].
  assert (key' = None) as ->.
  { destruct obj as [o| |]; try discriminate. cbn [and_then] in Hx. destruct (get_required_dictionary_value o _) as [v| |]; try discriminate. cbn [and_then] in Hx.
    destruct (enforce_range_u16 v); try discriminate. cbn [and_then] in Hx. congruence. }
  destruct (guard _ _) as [[]| |]; try discriminate. cbn [and_then]. rewrite Ha. cbn [or_throw and_then]. cbn [fmap option_fmap option_map]. rewrite Hr.
  destruct (classify_and_check_usages _ us _); try discriminate. cbn [and_then]. intros [= <- <-]. eexists. done.
Qed.

Lemma from_rsa_generate obj name us us' r r' key :
  classify_and_check_usages (if bool_decide (name = str "RSA-OAEP") then RsaOaepUsage else SignUsage) us' None = Fine r' -> us' <> [] ->
  from_rsa Generate obj name us = Fine (r, key) -> exists k, from_rsa Generate obj name us' = Fine ((r.1, r'), k).
Proof.
  intros Hr Hne. unfold from_rsa. destruct obj as [o| |]; try discriminate. cbn [and_then]. destruct (extract_sha_hash o) as [hash| |]; try discriminate. cbn [and_then].
  match goal with |- and_then ?x _ = _ -> _ => destruct x as [[[l e] key']| |] eqn:Hx; try discriminate end. cbn [and_then].
  assert (key' = None) as ->.
  { destruct (get_required_dictionary_value o _) as [v| |]; try discriminate. cbn [and_then] in Hx. destruct (enforce_range_u32 v); try discriminate. cbn [and_then] in Hx.
    destruct (get_required js_uint8 o _) as [e'| |]; try discriminate. cbn [and_then] in Hx. destruct (or_throw _ e'); try discriminate. cbn [and_then] in Hx. congruence. }
  destruct us' as [|u us']; [done|]. cbn [is_generate is_empty negb andb and_then]. cbn [fmap option_fmap option_map]. rewrite Hr. cbn [and_then].
  destruct us as [|u0 us]; cbn [is_empty negb andb and_then].
  - destruct (or_throw_dom (parse_rsa_public_exponent e)); try discriminate. cbn [and_then]. destruct (classify_and_check_usages _ [] _); try discriminate.
    intros [= <- <-]. eexists. done.
  - destruct (classify_and_check_usages _ (u0 :: us) _); try discriminate. cbn [and_then]. destruct (or_throw_dom (parse_rsa_public_exponent e)); try discriminate.
    intros [= <- <-]. eexists. done.
Qed.

Lemma from_hmac_generate obj name us us' r r' key : classify_and_check_usages HmacUsage us' None = Fine r' ->
  from_hmac Generate obj name us = Fine (r, key) -> exists k, from_hmac Generate obj name us' = Fine ((r.1, r'), k).
Proof.
  intros Hr. unfold from_hmac.
  do 7 (match goal with |- and_then ?x _ = _ -> _ => destruct x as [?| |]; try discriminate end; cbn [and_then]).
  match goal with |- and_then ?x _ = _ -> _ => destruct x as [?| |]; try discriminate end; cbn [and_then].
  match goal with |- and_then ?x _ = _ -> _ => destruct x as [?| |]; try discriminate end; cbn [and_then].
  cbn [fmap option_fmap option_map]. rewrite Hr. destruct (classify_and_check_usages HmacUsage us None); try discriminate. cbn [and_then]. intros [= <- <-]. eexists. done.
Qed.
Lemma synthetic_valid m obj name us c : from_name m obj name us = Fine c ->
  exists u c', synthetic_key_usage name = Some u ∧ from_name ValidateImport obj name [Ok u] = Fine c'.
Proof.
  intros Hf. pose proof (from_name_known _ _ _ _ _ Hf) as Hk. unfold KNOWN in Hk. cbn -[str] in Hk. set_unfold in Hk.
  destruct_or! Hk; subst name.
  all: first
    [ eexists _, _; split; [vm_compute; reflexivity|]; vm_compute; reflexivity
    | change (from_ec m obj Ecdh us DeriveAsymmetric = Fine c) in Hf; eexists _, _; split; [reflexivity|];
      apply (from_ec_valid m ValidateImport obj Ecdh us [Ok (str "deriveKey")] DeriveAsymmetric c _ (or_intror eq_refl) eq_refl Hf)
    | change (from_ec m obj Ecdsa us SignUsage = Fine c) in Hf; eexists _, _; split; [reflexivity|];
      apply (from_ec_valid m ValidateImport obj Ecdsa us [Ok (str "sign")] SignUsage c _ (or_intror eq_refl) eq_refl Hf)
    | change (from_hmac m obj (str "HMAC") us = Fine c) in Hf; eexists; apply (from_hmac_valid m obj _ us [Ok (str "sign")] c _ eq_refl) in Hf as [c' Hc]; exists c';
      split; [reflexivity|exact Hc]
    | idtac ].
  - apply (from_rsa_valid m obj (str "RSA-OAEP") us [Ok (str "encrypt")] c _ eq_refl) in Hf as [c' Hc]. eexists _, c'. split; [reflexivity|exact Hc].
  - apply (from_rsa_valid m obj (str "RSA-PSS") us [Ok (str "sign")] c _ eq_refl) in Hf as [c' Hc]. eexists _, c'. split; [reflexivity|exact Hc].
  - apply (from_rsa_valid m obj (str "RSASSA-PKCS1-v1_5") us [Ok (str "sign")] c _ eq_refl) in Hf as [c' Hc]. eexists _, c'. split; [reflexivity|exact Hc].
Qed.

Lemma with_import_generate a u import us us' r r' key : classify_and_check_usages u us' None = Fine r' ->
  with_import a u import Generate us = Fine (r, key) -> exists k, with_import a u import Generate us' = Fine ((r.1, r'), k).
Proof.
  intros Hr. unfold with_import. cbn [and_then fmap option_fmap option_map]. rewrite Hr. destruct (classify_and_check_usages u us None); try discriminate.
  intros [= <- <-]. eexists. done.
Qed.

Lemma from_ec_generate obj e us us' u r r' key : classify_and_check_usages u us' None = Fine r' ->
  from_ec Generate obj e us u = Fine (r, key) -> exists k, from_ec Generate obj e us' u = Fine ((r.1, r'), k).
Proof. intros Hr Hf. apply (from_ec_valid Generate Generate obj e us us' u _ r') in Hf; [|by left|done]. eexists. exact Hf. Qed.

Tactic Notation "made" uconstr(lem) hyp(Hf) :=
  let k := fresh "k" in let Hk := fresh "Hk" in
  eapply lem in Hf as [k Hk]; [eexists _, _, k; split; [reflexivity|exact Hk]|try reflexivity; try discriminate..].

(** The family of a name. *)
Ltac family Hf :=
  match type of Hf with
  | from_name _ _ ?n ?us = ?x =>
      first
        [ change (from_ed25519 Generate n us = x) in Hf; unfold from_ed25519 in Hf | change (from_x25519 Generate n us = x) in Hf; unfold from_x25519 in Hf
        | change (from_chacha20_poly1305 Generate us = x) in Hf; unfold from_chacha20_poly1305 in Hf
        | (first [ change (from_ml_dsa Generate n MlDsa44 us = x) in Hf | change (from_ml_dsa Generate n MlDsa65 us = x) in Hf
                 | change (from_ml_dsa Generate n MlDsa87 us = x) in Hf ]); unfold from_ml_dsa in Hf
        | (first [ change (from_ml_kem Generate n MlKem512 us = x) in Hf | change (from_ml_kem Generate n MlKem768 us = x) in Hf
                 | change (from_ml_kem Generate n MlKem1024 us = x) in Hf ]); unfold from_ml_kem in Hf
        | (first [ change (from_hybrid_kem Generate n MlKem768P256 us = x) in Hf | change (from_hybrid_kem Generate n MlKem768X25519 us = x) in Hf
                 | change (from_hybrid_kem Generate n MlKem1024P384 us = x) in Hf ]); unfold from_hybrid_kem in Hf ]
  end.

(** The usage that is tried is one of the family. *)
Lemma synthetic_generate obj name us r key : from_name Generate obj name us = Fine (r, key) ->
  exists u r' k, synthetic_key_usage name = Some u ∧ from_name Generate obj name [Ok u] = Fine ((r.1, r'), k).
Proof.
  intros Hf. pose proof (from_name_known _ _ _ _ _ Hf) as Hk. unfold KNOWN in Hk. cbn -[str] in Hk. set_unfold in Hk.
  destruct_or! Hk; subst name; try discriminate Hf.
  all: first
    [ family Hf; first [ made (with_import_generate _ _ _ us [Ok (str "sign")]) Hf | made (with_import_generate _ _ _ us [Ok (str "deriveKey")]) Hf
                       | made (with_import_generate _ _ _ us [Ok (str "encrypt")]) Hf | made (with_import_generate _ _ _ us [Ok (str "encapsulateKey")]) Hf ]
    | made (from_ec_generate obj Ecdh us [Ok (str "deriveKey")]) Hf | made (from_ec_generate obj Ecdsa us [Ok (str "sign")]) Hf
    | made (from_hmac_generate obj (str "HMAC") us [Ok (str "sign")]) Hf | made (from_rsa_generate obj (str "RSA-OAEP") us [Ok (str "encrypt")]) Hf
    | made (from_rsa_generate obj (str "RSA-PSS") us [Ok (str "sign")]) Hf | made (from_rsa_generate obj (str "RSASSA-PKCS1-v1_5") us [Ok (str "sign")]) Hf
    | made (from_aes_generate obj (str "AES-KW") us [Ok (str "wrapKey")] Kw) Hf | made (from_aes_generate obj (str "AES-CBC") us [Ok (str "encrypt")] Cbc) Hf
    | made (from_aes_generate obj (str "AES-CTR") us [Ok (str "encrypt")] Ctr) Hf | made (from_aes_generate obj (str "AES-GCM") us [Ok (str "encrypt")] Gcm) Hf
    ].
Qed.
(** Strings are no objects, and the conversion to a string keeps them; strings
    and objects are neither [undefined] nor [null]. *)
Definition ordinary (v : js) : Prop :=
  (js_is_string v = true -> js_object v = None ∧ js_coerced v = js_string v) ∧
  (js_is_string v = true ∨ is_Some (js_object v) -> js_null v = false ∧ js_undefined v = false).

Lemma webidl_name v r : ordinary v -> to_name_and_maybe_object v = Fine r ->
  exists v', webidl_algorithm_identifier v = Fine v' ∧ to_name_and_maybe_object v' = Fine r.
Proof.
  intros Hv Hr. unfold webidl_algorithm_identifier. pose proof Hr as Hr'. unfold to_name_and_maybe_object in Hr. destruct (js_is_string v) eqn:Hs.
  - destruct (proj1 Hv Hs) as [-> ->]. destruct (js_string v) as [s|]; [|discriminate]. cbn in Hr. injection Hr as <-. exists (js_text s). done.
  - destruct (js_object v); [|discriminate]. exists v. done.
Qed.

Context (least : Z).

(** What the operation reads first is the name and the parameters. *)
Lemma supported_by {A} op v add extra (read : js -> crypto A) a :
  ordinary v -> supports_additional add = Fine extra ->
  read v = Fine a -> (forall w, to_name_and_maybe_object v = Throw w -> read v <> Fine a) -> (to_name_and_maybe_object v = Panic -> read v <> Fine a) ->
  (forall v', to_name_and_maybe_object v' = to_name_and_maybe_object v -> supports_inner least (str op) v' extra = Fine true) ->
  subtle_supports least (str op) v add = Fine true.
Proof.
  intros Hv Hadd Hread Ht Hp Hin. destruct (to_name_and_maybe_object v) as [r|e|] eqn:Hr; [|destruct (Ht e eq_refl Hread)|destruct (Hp eq_refl Hread)].
  destruct (webidl_name v r Hv Hr) as (v' & Hw & Hr'). unfold subtle_supports. rewrite Hw. cbn [and_then]. rewrite Hadd. cbn [and_then]. rewrite (Hin v' Hr'). done.
Qed.

Ltac reads_name := intros; intros Hread; unfold signing_from_js, encryption_from_js, prepare_digest, normalize_encapsulation_algorithm, from_js in Hread;
  match goal with H : to_name_and_maybe_object _ = _ |- _ => rewrite H in Hread; discriminate end.

Lemma signing_supported v a op : ordinary v -> op ∈ ["sign"; "verify"]%string -> signing_from_js v = Fine a -> subtle_supports least (str op) v None = Fine true.
Proof.
  intros Hv Hop Ha. apply (supported_by op v None (Length None) signing_from_js a); try done; try (reads_name; fail).
  intros v' Hr. assert (Hs : supports_sign v' = Fine true).
  { unfold supports_sign. replace (signing_from_js v') with (signing_from_js v); [rewrite Ha; done|]. unfold signing_from_js. rewrite Hr. done. }
  set_unfold in Hop. destruct_or! Hop; subst op; exact Hs.
Qed.

Lemma encryption_supported v a op : ordinary v -> op ∈ ["encrypt"; "decrypt"]%string -> encryption_from_js v = Fine a -> valid_parameters a = true ->
  subtle_supports least (str op) v None = Fine true.
Proof.
  intros Hv Hop Ha Hval. apply (supported_by op v None (Length None) encryption_from_js a); try done; try (reads_name; fail).
  intros v' Hr. assert (Hs : supports_encrypt v' = Fine true).
  { unfold supports_encrypt. replace (encryption_from_js v') with (encryption_from_js v); [rewrite Ha; cbn; rewrite Hval; done|]. unfold encryption_from_js. rewrite Hr. done. }
  set_unfold in Hop. destruct_or! Hop; subst op; exact Hs.
Qed.

Lemma digest_supported v a : ordinary v -> prepare_digest v = Fine a -> subtle_supports least (str "digest") v None = Fine true.
Proof.
  intros Hv Ha. apply (supported_by "digest" v None (Length None) prepare_digest a); try done; try (reads_name; fail).
  intros v' Hr. change (and_then (prepare_digest v') (fun _ => Fine true) = Fine true).
  replace (prepare_digest v') with (prepare_digest v); [rewrite Ha; done|]. unfold prepare_digest. rewrite Hr. done.
Qed.

Lemma encapsulation_supported v a op : ordinary v -> op ∈ ["encapsulateBits"; "decapsulateBits"]%string -> normalize_encapsulation_algorithm v = Fine a ->
  subtle_supports least (str op) v None = Fine true.
Proof.
  intros Hv Hop Ha. apply (supported_by op v None (Length None) normalize_encapsulation_algorithm a); try done; try (reads_name; fail).
  intros v' Hr. assert (Hs : (let% _ := normalize_encapsulation_algorithm v' in Fine true) = Fine true).
  { replace (normalize_encapsulation_algorithm v') with (normalize_encapsulation_algorithm v); [rewrite Ha; done|]. unfold normalize_encapsulation_algorithm. rewrite Hr. done. }
  set_unfold in Hop. destruct_or! Hop; subst op; exact Hs.
Qed.

Lemma import_key_supported v m us n : from_js m v us = Fine n -> supports_import_key v = Fine true.
Proof.
  unfold supports_import_key, normalize_key_algorithm_with_synthetic_usage, algorithm_name, from_js.
  destruct (to_name_and_maybe_object v) as [[nm obj]| |]; try discriminate. cbn [and_then]. set (name := normalize_algorithm_name nm). clearbody name. intros Ha.
  match type of Ha with and_then ?x _ = _ => destruct x as [us'| |]; try discriminate end. cbn [and_then] in Ha.
  destruct (from_name m obj name us') as [c| |] eqn:Hf; try discriminate. destruct (synthetic_valid _ _ _ _ _ Hf) as (u & c' & Hu & Hc).
  rewrite Hu. cbn [or_throw and_then is_empty]. rewrite Hc. destruct c' as [[? []] ?]. done.
Qed.

Lemma import_supported v m us n : ordinary v -> from_js m v us = Fine n -> subtle_supports least (str "importKey") v None = Fine true.
Proof.
  intros Hv Ha. apply (supported_by "importKey" v None (Length None) (fun v => from_js m v us) n); try done; try (reads_name; fail).
  intros v' Hr. apply (import_key_supported v' m us n). unfold from_js in *. rewrite Hr. exact Ha.
Qed.

Lemma generate_supported v us n : ordinary v -> from_js Generate v us = Fine n -> provider_supports_generate_key least (n_algorithm n) = true ->
  subtle_supports least (str "generateKey") v None = Fine true.
Proof.
  intros Hv Ha Hleast. apply (supported_by "generateKey" v None (Length None) (fun v => from_js Generate v us) n); try done; try (reads_name; fail).
  intros v' Hr. change (supports_generate_key least v' = Fine true). unfold supports_generate_key, normalize_key_algorithm_with_synthetic_usage, algorithm_name, from_js in *.
  rewrite Hr. destruct (to_name_and_maybe_object v) as [[nm obj]| |]; try discriminate. cbn [and_then] in *. set (name := normalize_algorithm_name nm) in *. clearbody name.
  destruct (from_name Generate obj name us) as [[[a [p q]] key]| |] eqn:Hf; try discriminate. injection Ha as <-. cbn [n_algorithm] in Hleast.
  destruct (synthetic_generate _ _ _ _ _ Hf) as (u & [p' q'] & k & Hu & Hc). rewrite Hu. cbn [or_throw and_then]. rewrite Hc. cbn. rewrite Hleast. done.
Qed.
Lemma derive_supported v a k n out : derive_from_js v = Fine a -> derive_bits a k n = Fine out -> supports_derive_bits_with_length v n = Fine true.
Proof.
  intros Ha. unfold supports_derive_bits_with_length. rewrite Ha. cbn [and_then]. unfold derive_bits. destruct a as [pk|curve ec pk|[hash salt info|hash salt iterations]].
  - destruct (algorithm k); try discriminate. destruct n as [n|]; [|done]. destruct (n <=? 256); done.
  - destruct (negb _); [discriminate|]. destruct (algorithm k); try discriminate. destruct (_ && _); [|discriminate]. unfold validate_ecdh_length.
    destruct n as [n|]; [|done]. destruct (n <=? _); done.
  - destruct (algorithm k); try discriminate. unfold validate_hkdf_length, whole_bytes. destruct n as [n|]; [|discriminate]. destruct (n mod 8 =? 0); [|discriminate].
    cbn [and_then]. destruct (n <=? _); [|discriminate]. done.
  - destruct (algorithm k); try discriminate. destruct (iterations =? 0); [discriminate|]. cbn [negb guard and_then]. unfold whole_bytes.
    destruct n as [n|]; [|discriminate]. destruct (n mod 8 =? 0); [|discriminate]. done.
Qed.

Lemma derive_object v a : derive_from_js v = Fine a -> webidl_algorithm_identifier v = Fine v.
Proof. unfold derive_from_js, webidl_algorithm_identifier. destruct (js_object v); done. Qed.

(** A length that is no string and no object. *)
Definition plain (l : option js) : Prop := match l with Some l => js_is_string l = false ∧ js_object l = None | None => True end.

Lemma additional_length_ok l n : plain l -> parse_derive_bits_length l = Fine n -> supports_additional l = Fine (Length n).
Proof.
  intros Hl. unfold parse_derive_bits_length, supports_additional. destruct l as [l|]; [|intros [= <-]; done]. destruct Hl as [-> ->].
  destruct (_ || _); [intros [= <-]; done|]. cbn [orb]. rewrite bool_decide_false by (intros [? [=]]). destruct (enforce_range_u32 l); try discriminate.
  intros [= <-]. done.
Qed.

Lemma additional_algorithm t m us n : ordinary t -> from_js m t us = Fine n -> supports_additional (Some t) = Fine (Algorithm t).
Proof.
  intros [_ Ht] Hf. unfold from_js, to_name_and_maybe_object in Hf. unfold supports_additional.
  destruct (js_is_string t) eqn:Hs; [destruct Ht as [-> ->]; [by left|done]|]. destruct (js_object t) as [o|]; [|discriminate].
  destruct Ht as [-> ->]; [right; eexists; done|]. done.
Qed.

(** What the ciphers of a provider refuse: a counter that is no block, and an RSA
    key that is too small. *)
Class ProviderLimits : Prop := {
  ctr_encrypt : forall l key counter data ad c, aes_encrypt (ModeCtr l) key counter data ad = Ok c -> length counter = 16%nat;
  ctr_decrypt : forall l key counter data ad c, aes_decrypt (ModeCtr l) key counter data ad = Ok c -> length counter = 16%nat;
  rsa_least : forall l e p, generate_rsa_key l e = Ok p -> least <= l;
}.

Lemma cipher_valid `{!ProviderLimits} a k data op : gives (fun _ => valid_parameters a = true) (encrypt_decrypt a k data Encryption op).
Proof.
  intros out. destruct a as [iv|counter l|iv t ad|iv t ad|label|]; cbn [encrypt_decrypt valid_parameters]; try done.
  - destruct (validate_aes_length k Ctr); try discriminate. cbn [and_then]. intros Hout. apply Nat.eqb_eq.
    destruct op; [destruct (aes_encrypt _ _ _ _ _) eqn:He; [|discriminate]; apply (ctr_encrypt _ _ _ _ _ _ He)
                 |destruct (aes_decrypt _ _ _ _ _) eqn:He; [|discriminate]; apply (ctr_decrypt _ _ _ _ _ _ He)].
  - destruct (validate_aes_length k Gcm); try discriminate. cbn [and_then]. destruct (length iv =? 12)%nat; done.
  - destruct (algorithm k); try discriminate. destruct (_ && _); done.
Qed.

Lemma generated_least `{!ProviderLimits} a : gives (fun _ => provider_supports_generate_key least a = true) (generate_key a).
Proof.
  intros r Hr. destruct a; try done. cbn in Hr |- *. destruct (generate_rsa_key _ _) eqn:Hg; [|discriminate]. apply rsa_least in Hg. lia.
Qed.

(** C24: an operation that succeeds is one that SubtleCrypto.supports says is
    supported, for the same algorithm: signing, verifying, encryption,
    decryption, derivation of bits (with a length that is neither a string nor
    an object) and of keys, digests, encapsulateBits and decapsulateBits, and
    the import and generation of keys, with whatever usages. The provider
    refuses AES-CTR counters of other than 16 bytes and RSA moduli below
    [least] ([ProviderLimits]). *)
Theorem successful_operations_supported `{!ProviderLimits} `{!Xof} v k : ordinary v ->
  let supported op extra := subtle_supports least (str op) v extra = Fine true in
  (forall d, gives (fun _ => supported "sign" None) (subtle_sign v k d)) ∧
  (forall s d, gives (fun _ => supported "verify" None) (subtle_verify v k s d)) ∧
  (forall d, gives (fun _ => supported "encrypt" None) (subtle_encrypt v k d)) ∧
  (forall d, gives (fun _ => supported "decrypt" None) (subtle_decrypt v k d)) ∧
  (forall d, gives (fun _ => supported "digest" None) (subtle_digest v d)) ∧
  (forall l, plain l -> gives (fun _ => supported "deriveBits" l) (subtle_derive_bits v k l)) ∧
  (forall t ext us, ordinary t -> gives (fun _ => supported "deriveKey" (Some t)) (subtle_derive_key v k t ext us)) ∧
  gives (fun _ => supported "encapsulateBits" None) (subtle_encapsulate_bits v k) ∧
  (forall c, gives (fun _ => supported "decapsulateBits" None) (subtle_decapsulate_bits v k c)) ∧
  (forall f d ext us, gives (fun _ => supported "importKey" None) (subtle_import_key f d v ext us)) ∧
  (forall ext us, gives (fun _ => supported "generateKey" None) (subtle_generate_key v ext us)).
Proof.
  intros Hv supported. unfold supported. split_and!.
  - intros d. apply gives_then. intros a Ha out _. apply (signing_supported v a); [done|set_solver|done].
  - intros s d. apply gives_then. intros a Ha out _. apply (signing_supported v a); [done|set_solver|done].
  - intros d. apply gives_then. intros a Ha. apply gives_then. intros _ _ out Hout. apply (encryption_supported v a); [done|set_solver|done|apply (cipher_valid _ _ _ _ _ Hout)].
  - intros d. apply gives_then. intros a Ha. apply gives_then. intros _ _ out Hout. apply (encryption_supported v a); [done|set_solver|done|apply (cipher_valid _ _ _ _ _ Hout)].
  - intros d. apply gives_then. intros a Ha out _. apply (digest_supported v a); done.
  - intros l Hl. apply gives_then. intros a Ha. apply gives_then. intros _ _. apply gives_then. intros n Hn out Hout. unfold subtle_supports.
    rewrite (derive_object v a Ha). cbn [and_then]. rewrite (additional_length_ok l n Hl Hn). cbn [and_then].
    change (match supports_derive_bits_with_length v n with Throw _ => Fine false | r => r end = Fine true). rewrite (derive_supported v a k n out Ha Hout). done.
  - intros t ext us Ht. apply gives_then. intros a Ha. apply gives_then. intros n Hn. apply gives_then. intros l Hl. apply gives_then. intros _ _. apply gives_then. intros bytes Hb out _.
    unfold subtle_supports. rewrite (derive_object v a Ha). cbn [and_then]. rewrite (additional_algorithm t _ _ _ Ht Hn). cbn [and_then].
    change (match supports_derive_key v (Algorithm t) with Throw _ => Fine false | r => r end = Fine true). unfold supports_derive_key.
    rewrite (import_key_supported t _ _ _ Hn). cbn [and_then negb]. change (from_js DeriveMode t []) with (from_js DeriveMode t us). rewrite Hn. cbn [and_then].
    destruct (n_algorithm n); try discriminate Hl; injection Hl as <-; rewrite (derive_supported v a k _ bytes Ha Hb); done.
  - apply gives_then. intros a Ha out _. apply (encapsulation_supported v a); [done|set_solver|done].
  - intros c. apply gives_then. intros a Ha out _. apply (encapsulation_supported v a); [done|set_solver|done].
  - intros f d ext us out Hout. unfold subtle_import_key in Hout. destruct (format_of f) as [f'| |]; try discriminate. cbn [and_then] in Hout.
    unfold validate_import_algorithm in Hout. destruct (from_js ValidateImport v us) as [n| |] eqn:Hn; try discriminate. apply (import_supported v _ _ _ Hv Hn).
  - intros ext us. apply gives_then. intros n Hn. apply gives_then. intros [p q] Hg out _. apply (generate_supported v us n Hv Hn (generated_least _ _ Hg)).
Qed.
End Complete.

(** ** Examples *)

#[local] Existing Instance toy.

#[local] Instance toy_limits : ProviderLimits 1024.
Proof.
  split; cbn.
  - intros l key counter data ad c. destruct (Nat.eqb_spec (length counter) 16); done.
  - intros l key counter data ad c. destruct (Nat.eqb_spec (length counter) 16); done.
  - discriminate.
Qed.

#[local] Instance toy_xof : Xof := {|
  sha3 := fun l _ => replicate (Z.to_nat (l / 8)) 0;
  cshake := fun _ _ _ input n => take n (input ++ replicate n 255);
  absorb := fun _ _ => (replicate 25 0, 0%nat);
  squeeze := fun _ _ n => replicate n 0;
  allocates := fun _ => true;
|}.

#[local] Instance toy_xof_laws : XofLaws.
Proof.
  split; cbn.
  - intros _ _ _ input n. rewrite length_take, length_app, length_replicate. lia.
  - intros rate _ Hr. split; [done|]. set_unfold. lia.
Qed.

Definition js_num (x : f64) : js :=
  mkJs false false false (Err FromJs) (Err FromJs) (Err FromJs) (Err FromJs) (Ok x) (Err FromJs) (Err FromJs) (Err FromJs) None.

(** Twelve bits of cSHAKE128. *)
Definition twelve_bits : js :=
  js_dict (fun k => Ok (if bool_decide (k = str "name") then js_text (str "cSHAKE128")
    else if bool_decide (k = str "outputLength") then js_num (of_Z 12) else js_undef)).

Lemma derived_bits_exact_witness : subtle_digest twelve_bits (Ok [1; 255]) = Fine [1; 240] ∧ first_bits 12 [1; 255] [1; 240].
Proof.
  split; [vm_compute; reflexivity|]. destruct (derived_bits_exact twelve_bits) as (_ & Hdigest & _).
  apply (Hdigest (Ok [1; 255]) [1; 240] eq_refl 128 12 [] []). vm_compute. reflexivity.
Defined.

Definition gcm_value : js :=
  js_dict (fun k => Ok (if bool_decide (k = str "name") then js_text (str "AES-GCM")
    else if bool_decide (k = str "iv") then js_buffer (replicate 12 0) else js_undef)).

Lemma successful_operations_supported_witness : subtle_supports 1024 (str "encrypt") gcm_value None = Fine true.
Proof.
  destruct (successful_operations_supported 1024 gcm_value gcm_key) as (_ & _ & Hencrypt & _); [split; done|].
  apply (Hencrypt (Ok [1; 2]) ([1; 2] ++ replicate 16 0)). vm_compute. reflexivity.
Defined.
